(* ===== verification/_CoqProject ===== *)
-Q . S2P
Prelude.v
BaseStrings.v
Decimal.v
PathUtil.v
DirectoryManager.v
Util.v
MountPoints.v
FileStream.v
FdMap.v
VfsFds.v
OrderedMap.v
BacktraceMap.v
BacktraceProperties.v
ProcessEmulator.v
ProcessProperties.v
MemoryRegion.v
VfsMemory.v
HostMemory.v
DevAshmem.v
DevAshmemProperties.v
CircularBuffer.v
SocketStream.v
LocalSocket.v
LocalSocketFacts.v
LocalConnections.v
UdpSocket.v
UdpProperties.v
TcpSocket.v
TcpFacts.v
TcpProperties.v
Fence.v
FenceFacts.v
FenceProperties.v
Epoll.v
EpollFacts.v
EpollProperties.v
FileSystemHandler.v
VfsCalls.v
VfsCallsProperties.v
Devices.v
Passthrough.v
AnonymousMemory.v
MemoryFile.v
CpuFile.v
CpuFileProperties.v
Procfs.v
ProcfsProperties.v
ReadonlyFsReader.v
ReadonlyFile.v
ReadonlyFileProperties.v
ReadonlyHandlerProperties.v
PepperFileCache.v
PepperFile.v
PepperFileProperties.v
Redirect.v
VfsPaths.v
VfsPathFacts.v
VfsPathProperties.v
VfsOpen.v
VfsAccess.v
VfsOpenFacts.v
VfsCurrentDirectory.v
VfsInodes.v
