(* ===== verification/Prelude.v ===== *)
(** * The file system core of ARC, verified

    ARC runs Android programs in a browser process; its [src/posix_translation/]
    emulates the POSIX file API for them.  This library models the core of that
    emulation as executable functions and proves what makes each part correct.
    All file names below are under src/src/.

    ** The parts and how they interact

    - Prelude.v (this file): strings, outcomes, the state monad, loops, tactics.
    - BaseStrings.v: the interface of Chromium's string splitting and trimming, a
      class with its laws and a reference instance.
    - PathUtil.v: posix_translation/path_util.{h,cc}; the string functions that
      every path goes through.
    - DirectoryManager.v: directory_manager.{h,cc} and [getdents] of
      directory_file_stream.cc; the tree of directories kept by file handlers and
      the cursors that list it.
    - Util.v: address_util.cc and time_util.cc.
    - MountPoints.v: mount_point_manager.cc and common/update_tracking.h; which
      handler and owner serve a path.
    - FileStream.v: file_stream.{h,cc}; reference counts, listeners and default
      operations of open files.  Streams are objects with identities in a store.
    - FdMap.v: fd_to_file_stream_map.{h,cc}; the descriptor table over that store.
    - VfsFds.v: the calls of virtual_file_system.cc that take descriptors, with
      [poll] and [select]; they use FdMap.v and ask the streams for readiness.
    - OrderedMap.v: [std::map] with iterators, for MemoryRegion.v, ProcessEmulator.v
      and BacktraceMap.v.
    - MemoryRegion.v: memory_region.{h,cc}; which stream is mapped where.
    - VfsMemory.v: [mmap], [munmap], [mprotect] and [madvise] of
      virtual_file_system.cc, over the descriptors and the memory regions.
    - CircularBuffer.v: common/circular_buffer.{h,cc}; the bytes in a socket.
    - SocketStream.v: socket_stream.cc, socket_util.cc, abstract_socket_namespace.cc
      and logd_socket_namespace.cc; options, addresses and names of sockets.
    - LocalSocket.v: local_socket.{h,cc}, [socketpair] and [pipe2]; stated over the
      descriptor table, the store of streams and the name spaces.
      LocalSocketFacts.v has the theorems on connected pairs, LocalConnections.v
      those on how pairs come about.
    - VfsCalls.v: the calls of virtual_file_system.cc that hand over to a stream, over its
      virtual methods ([StreamMethods]), and [socket].  VfsCallsProperties.v puts the
      table, [pipe2] and local sockets together.
    - UdpSocket.v, TcpSocket.v: udp_socket.{h,cc} and tcp_socket.{h,cc}; the queues and
      buffers between threads and Pepper's asynchronous calls.  UdpProperties.v and
      TcpProperties.v have runs of a socket, in which threads, the main thread and
      Pepper take turns in any order; TcpFacts.v has the invariant of a stream socket.
    - Fence.v: fence_stream.{h,cc}; timelines, sync points and fences.  FenceFacts.v
      has the invariant, FenceProperties.v the theorems.
    - Epoll.v: epoll_stream.{h,cc} and the epoll calls; streams that listen to
      streams.  EpollFacts.v has the invariant, EpollProperties.v the theorems.
    - FileSystemHandler.v: file_system_handler.{h,cc}, permission_info.cc, statfs.cc
      and directory_file_stream.cc; what a concrete file system is for the virtual
      one: a record of operations ([FileSystemHandler]) with its laws ([reads]).
    - HostMemory.v: the interface of memory that is mapped into the process, a class
      with its laws and an instance; Passthrough.v, DevAshmem.v and MemoryFile.v use it.
    - Devices.v: device_file.{h,cc} with /dev/null, zero, urandom and alarm.
      DevAshmem.v: dev_ashmem.{h,cc}, shared memory; DevAshmemProperties.v has the
      theorems.
    - Passthrough.v: passthrough.{h,cc}; streams that hand each call to the host.
      AnonymousMemory.v composes it with VfsMemory.v.
    - MemoryFile.v: readonly_memory_file.{h,cc}; files whose content is made on demand.
      CpuFile.v (cpu_file.{h,cc}) and Procfs.v (procfs_file.{h,cc}) are made of them;
      CpuFileProperties.v and ProcfsProperties.v have the theorems.  Decimal.v is
      printing and parsing numbers.
    - ProcessEmulator.v: common/process_emulator.{h,cc}; the processes that threads
      pretend to be.  ProcessProperties.v has the theorems.
    - ReadonlyFsReader.v: readonly_fs_reader.{h,cc} and the script that writes the image
      it parses.  ReadonlyFile.v: readonly_file.{h,cc}; the files of the image with
      their cache, and the handler.  ReadonlyFileProperties.v is on the former,
      ReadonlyHandlerProperties.v on the latter.
    - PepperFileCache.v, PepperFile.v: pepper_file.{h,cc}; the files that Pepper keeps,
      with a cache of what is known of them.  PepperFileProperties.v compares a handler
      that has the cache with one that does not.
    - BacktraceMap.v: the map of mappings to backtraces of common/memory_state.cc;
      BacktraceProperties.v has the theorem.
    - Redirect.v: redirect.{h,cc}; a handler that adds symbolic links to another one.
    - VfsPaths.v: the calls of virtual_file_system.cc that take a path, over arbitrary
      mounted handlers, with the process's current directory and uid.
      VfsPathFacts.v and VfsPathProperties.v are on normalization.
    - VfsOpen.v: [open] with the files opened ahead of time, [remove], [unlink],
      [rename] and [fstat], over the descriptors and the paths.  VfsAccess.v is on
      permissions, VfsOpenFacts.v on [open], VfsCurrentDirectory.v on [chdir] and
      [getcwd], VfsInodes.v on inode numbers.

    ** How the state corresponds to the code

    Every class is a record with the members' names; every method is a function
    of that name on the record, in the state monad [St] when it changes the
    object.  A pointer to a shared object is an identity ([sid] for streams) into
    a store; null is [None].  Integers are [Z] with the wrap-around of their width
    written out where it can happen; sizes of containers are [nat].  Addresses of memory
    are integers, for ranges inside the address space, past which the code's pointer
    arithmetic is undefined.  [errno] with
    the result -1 is [Err e].  [ALOG_ASSERT], [LOG_ALWAYS_FATAL] and a null or
    missing object that the code uses are [Abort], so a theorem that an operation
    is [Done] says that no assertion of a debug build fires.  A call that waits is
    split into what it does before and after the wait, or takes the platform's
    clock and condition variable as arguments.

    Loops that are not structural take fuel; [NoFuel] is then an outcome of its
    own, and every theorem on such a loop gives a bound that is enough (the length
    of the path, the number of regions, the number of wake-ups) and says the
    result is [Done].

    ** What the theorems show

    - refinement: local, datagram and stream sockets implement queues (local ones also
      seen through their descriptors), the circular
      buffer a queue, the directory manager a tree, the memory region map disjoint
      intervals, [mmap] and [munmap] the assignment of addresses to streams, shared
      memory a file, the calls of Binder a stack, the map of backtraces a function on
      addresses, /proc the table of processes, and the image's handler the files that
      the script was given;
    - invariants: the descriptor table and the reference counts, fences and their
      timelines, the interest lists of epoll, inode numbers, the states of
      shared memory, and the record of anonymous mappings;
    - safety: a caller without permission changes nothing, a closed end of a socket
      stays closed, datagram sockets read ahead, and in the runs of stream sockets no
      assertion fires but those that are named;
    - functional behaviour, on every branch: [open], [dup] and [dup2], mount points, and
      the creation of pairs;
    - equivalence: path normalization is a walk over components, its fast and slow
      paths agree; a cached file of the image reads like a plain one; the cache of Pepper
      files changes no answer, apart from two named cases; readiness and the calls it speaks of; merged fences;
    - round trips and bounds: the current directory, symbolic links, the bytes of the
      image, update numbers;
    - termination and liveness: [poll], [epoll_wait] and waiting for fences; a reader of
      the image gets to the end.

    The properties of the path calls hold for any handlers that keep [reads], whose
    chains of links end within the fuel ([links_ok]), and for states in which every
    handler is initialized; VfsPathProperties.v has a concrete file system with links
    for which all of this is proved.

    Where the code falls short of its intention the theorem states what the code
    does, and says so.

    ** Not modelled

    The files of extensions, of CRX and of the manifest, the host resolver
    (they sequence calls of libraries whose code is not in the repository), the glue from
    libc entry points, logging and tracing, graphics, and the forked
    third-party code.  Of the modelled files: printouts for debugging, the virtual file
    system's calls that only pass hints on to the cache of Pepper files, counters for tests.  Locks: each operation is one step under
    the lock that the code holds; a wait is where other steps come in between.

    ** Vocabulary of this file

    - [str]: C++ [std::string] as a list of bytes ([ascii]), with string
      literals coerced by [lit];
    - [outcome]: what running a piece of the program gives: a value, an abort
      (an [ALOG_ASSERT] or [LOG_ALWAYS_FATAL] that fires in a debug build) or
      fuel exhaustion of a loop;
    - [St]: the state monad over [outcome] in which operations that change
      objects are written; [res]: the int results of system calls, an error
      number ([errno] set and -1 returned) or a value;
    - [loop]: C++ loops that are not structural, with the measure and invariant
      rules that their users apply;
    - string searches of the C++ standard library ([rfind], [find]), splitting
      and joining on a delimiter, lexicographic order of strings;
    - the tactics [mon] (run a monadic computation) and [inv_ok]. *)

From stdpp Require Export base tactics list strings gmap sorting.
From Stdlib Require Export ZArith Lia Bool Ascii String.

Declare Scope posix_scope.
Delimit Scope posix_scope with posix.

(** ** Strings *)

Abbreviation str := (list ascii).

Definition lit (s : string) : str := list_ascii_of_string s.
Coercion lit : string >-> list.

Definition slash : ascii := "/"%char.
Definition dot : ascii := "."%char.

(** [std::string::operator<] compares bytes as unsigned characters. *)
Fixpoint str_ltb (a b : str) : bool :=
  match a, b with
  | _, [] => false
  | [], _ :: _ => true
  | x :: a', y :: b' =>
      if decide (x = y) then str_ltb a' b'
      else (N_of_ascii x <? N_of_ascii y)%N
  end.

Lemma N_of_ascii_inj x y : N_of_ascii x = N_of_ascii y → x = y.
Proof. intros E. by rewrite <-(ascii_N_embedding x), E, ascii_N_embedding. Qed.

Lemma str_ltb_irrefl a : str_ltb a a = false.
Proof. induction a as [|x a IH]; simpl; [done|]. by rewrite decide_True. Qed.

Lemma str_ltb_trans a b c : str_ltb a b = true → str_ltb b c = true → str_ltb a c = true.
Proof.
  revert b c. induction a as [|x a IH]; intros [|y b] [|z c]; simpl; try done.
  repeat case_decide; subst; try done; try (intros; by eauto); rewrite ?N.ltb_lt; try lia.
Qed.

Lemma str_ltb_total a b : a ≠ b → str_ltb a b = true ∨ str_ltb b a = true.
Proof.
  revert b. induction a as [|x a IH]; intros [|y b]; simpl; try done; auto.
  intros Hne. destruct (decide (x = y)) as [->|Hxy].
  - rewrite decide_True by done. apply IH. congruence.
  - rewrite decide_False by done. rewrite !N.ltb_lt.
    assert (N_of_ascii x ≠ N_of_ascii y) by (by intros ?%N_of_ascii_inj). lia.
Qed.

Lemma str_ltb_asym a b : str_ltb a b = true → str_ltb b a = false.
Proof.
  intros H1. destruct (str_ltb b a) eqn:H2; [|done].
  by rewrite <-(str_ltb_irrefl a), (str_ltb_trans _ _ _ H1 H2).
Qed.

(** ** Errors *)

(** The errno values the code sets. *)
Inductive errno : Type :=
| EPERM | ENOENT | EINTR | EIO | ENXIO | EBADF | EAGAIN | ENOMEM | EACCES
| EFAULT | EBUSY | EEXIST | EXDEV | ENODEV | ENOTDIR | EISDIR | EINVAL
| EMFILE | ENOTTY | EFBIG | ENOSPC | ESPIPE | EROFS | EPIPE | EDOM | ERANGE
| ENAMETOOLONG | ENOSYS | ETIME | EOVERFLOW | ENOTSOCK | EPROTOTYPE
| ENOPROTOOPT | EOPNOTSUPP | EAFNOSUPPORT | EADDRINUSE | ECONNRESET
| EISCONN | ENOTCONN | ECONNREFUSED | EINPROGRESS | EALREADY | ETIMEDOUT
| EDESTADDRREQ | EMSGSIZE | ENOBUFS.

#[export] Instance errno_eq_dec : EqDecision errno.
Proof. solve_decision. Defined.

(** The result of a call that returns -1 and sets errno on failure. *)
Inductive res (A : Type) : Type :=
| Err (e : errno)
| Ok (a : A).
Arguments Err {A} e.
Arguments Ok {A} a.

#[export] Instance res_eq_dec {A} `{EqDecision A} : EqDecision (res A).
Proof. solve_decision. Defined.

Definition is_ok {A} (r : res A) : bool := match r with Ok _ => true | Err _ => false end.

(** ** Outcomes *)

Inductive outcome (A : Type) : Type :=
| Done (a : A)
| Abort      (* a debug assertion or a fatal log *)
| NoFuel.    (* the fuel given to a loop ran out *)
Arguments Done {A} a.
Arguments Abort {A}.
Arguments NoFuel {A}.

#[export] Instance outcome_ret : MRet outcome := λ A a, Done a.
#[export] Instance outcome_bind : MBind outcome := λ A B f m,
  match m with Done a => f a | Abort => Abort | NoFuel => NoFuel end.

Definition require (b : bool) : outcome unit := if b then Done tt else Abort.

Lemma require_true {A} (k : unit → outcome A) : (require true ≫= k) = k tt.
Proof. done. Qed.

Lemma done_bind {A B} (a : A) (k : A → outcome B) : (Done a ≫= k) = k a.
Proof. done. Qed.

(** Did the computation produce a value satisfying [P]? *)
Definition done_with {A} (m : outcome A) (P : A → Prop) : Prop :=
  match m with Done a => P a | _ => False end.

(** ** The state monad *)

Definition St (S A : Type) : Type := S → outcome (A * S).

#[export] Instance St_ret {S} : MRet (St S) := λ A a s, Done (a, s).
#[export] Instance St_bind {S} : MBind (St S) := λ A B f m s,
  match m s with Done (a, s') => f a s' | Abort => Abort | NoFuel => NoFuel end.

Definition get {S} : St S S := λ s, Done (s, s).
Definition put {S} (s : S) : St S unit := λ _, Done (tt, s).
Definition gets {S A} (f : S → A) : St S A := λ s, Done (f s, s).
Definition modify {S} (f : S → S) : St S unit := λ s, Done (tt, f s).
(** [ALOG_ASSERT] and [LOG_ALWAYS_FATAL_IF]. *)
Definition check {S} (b : bool) : St S unit := λ s, if b then Done (tt, s) else Abort.
Definition fatal {S A} : St S A := λ _, Abort.
Definition lift {S A} (m : outcome A) : St S A := λ s,
  match m with Done a => Done (a, s) | Abort => Abort | NoFuel => NoFuel end.

Lemma St_bind_run {S A B} (c : St S A) (k : A → St S B) s a s' :
  c s = Done (a, s') → (c ≫= k) s = k a s'.
Proof. unfold mbind, St_bind. by intros ->. Qed.

(** [run_with H]: the first command of the goal's program runs as [H] says. *)
Ltac run_with H := rewrite (St_bind_run _ _ _ _ _ H); cbv beta.

(** [for (x : xs) body(x)]. *)
Fixpoint for_each {S A} (body : A → St S unit) (xs : list A) : St S unit :=
  match xs with
  | [] => mret tt
  | x :: xs' => body x ≫= λ _, for_each body xs'
  end.

Lemma for_each_app {S A} (body : A → St S unit) xs ys (w : S) :
  for_each body (xs ++ ys) w = (for_each body xs;; for_each body ys) w.
Proof.
  revert w. induction xs as [|x xs IH]; intros w; [done|]. cbn [app for_each].
  unfold mbind, St_bind in *. destruct (body x w) as [[[] w']| |]; [|done|done]. apply IH.
Qed.

(** ** Loops *)

(** [while (true) { ... }]: the body either goes round with a new state ([inl])
    or leaves the loop with a value ([inr]). *)
Fixpoint loop {S A} (fuel : nat) (body : S → S + A) (s : S) : outcome A :=
  match fuel with
  | O => NoFuel
  | Datatypes.S n => match body s with inl s' => loop n body s' | inr a => Done a end
  end.

Section loop.
Context {S A : Type} (body : S → S + A).

(** A loop whose body decreases a measure leaves the loop, with any fuel above
    the measure, and the value it leaves with satisfies what the invariant
    gives at the exit. *)
Lemma loop_rule (I : S → Prop) (Q : A → Prop) (m : S → nat) :
  (∀ s s', I s → body s = inl s' → I s' ∧ m s' < m s) →
  (∀ s a, I s → body s = inr a → Q a) →
  ∀ fuel s, I s → m s < fuel → done_with (loop fuel body s) Q.
Proof.
  intros Hstep Hexit fuel. induction fuel as [|fuel IH]; intros s HI Hm; [lia|].
  simpl. destruct (body s) as [s'|a] eqn:E; simpl.
  - destruct (Hstep _ _ HI E) as [HI' Hlt]. apply IH; [done|lia].
  - eauto.
Qed.

(** More fuel does not change the value. *)
Lemma loop_more n k s a : loop n body s = Done a → n ≤ k → loop k body s = Done a.
Proof.
  revert k s. induction n as [|n IH]; intros k s; simpl; [done|].
  destruct k as [|k]; [lia|]. simpl. destruct (body s); [|done].
  intros H Hk. apply IH; [done|lia].
Qed.
End loop.

(** ** Automation *)

(** [mon] unfolds monadic plumbing in the goal; [mon in H] in a hypothesis. *)
Ltac mon :=
  unfold mbind, mret, St_bind, St_ret, outcome_bind, outcome_ret, get, put,
    gets, modify, check, lift, require in *; simpl in *.

(** [decided] proves a closed decidable proposition by evaluating its decision. *)
Ltac decided := apply (bool_decide_unpack _); vm_compute; exact I.

Ltac inv_ok :=
  repeat match goal with
  | H : Done _ = Done _ |- _ => injection H; clear H; intros; subst
  | H : Abort = Done _ |- _ => discriminate H
  | H : NoFuel = Done _ |- _ => discriminate H
  | H : Done _ = Abort |- _ => discriminate H
  | H : (_, _) = (_, _) |- _ => injection H; clear H; intros; subst
  end.

(** ** [std::string] searches *)

Fixpoint last_index (c : ascii) (s : str) : option nat :=
  match s with
  | [] => None
  | x :: s' =>
      match last_index c s' with
      | Some i => Some (Datatypes.S i)
      | None => if decide (x = c) then Some 0 else None
      end
  end.

(** [s.rfind(c, pos)]: the last occurrence of [c] that starts at or before [pos];
    [None] for [pos] is [npos]. *)
Definition rfind (c : ascii) (s : str) (pos : option nat) : option nat :=
  match pos with
  | None => last_index c s
  | Some p => last_index c (take (Datatypes.S p) s)
  end.

(** [s.find(c) != npos] and [s.find(t) != npos]. *)
Definition contains (c : ascii) (s : str) : bool := existsb (λ x, bool_decide (x = c)) s.

Fixpoint contains_sub (t s : str) : bool :=
  bool_decide (t `prefix_of` s) ||
  match s with [] => false | _ :: s' => contains_sub t s' end.

Lemma last_index_app c s t :
  last_index c (s ++ t) =
  match last_index c t with
  | Some i => Some (List.length s + i)
  | None => last_index c s
  end.
Proof.
  induction s as [|x s IH]; simpl; [by destruct (last_index c t)|].
  rewrite IH. by destruct (last_index c t).
Qed.

Lemma last_index_None c s : last_index c s = None ↔ c ∉ s.
Proof.
  induction s as [|x s IH]; simpl.
  { split; [intros _; apply not_elem_of_nil|done]. }
  rewrite not_elem_of_cons. destruct (last_index c s).
  - split; [done|]. intros [_ H]. by apply IH in H.
  - case_decide; naive_solver.
Qed.

Lemma last_index_Some c s i :
  last_index c s = Some i ↔ ∃ a b, (s = a ++ c :: b) ∧ c ∉ b ∧ List.length a = i.
Proof.
  split.
  - revert i. induction s as [|x s IH]; intros i; simpl; [done|].
    destruct (last_index c s) as [j|] eqn:E.
    + intros [= <-]. destruct (IH _ eq_refl) as (a & b & -> & ? & <-).
      by exists (x :: a), b.
    + case_decide; [|done]. intros [= <-]. subst. exists [], s.
      by rewrite <-last_index_None.
  - intros (a & b & -> & Hb & <-). rewrite last_index_app. simpl.
    apply last_index_None in Hb. rewrite Hb, decide_True by done.
    f_equal. lia.
Qed.

Lemma contains_spec c s : contains c s = true ↔ c ∈ s.
Proof.
  unfold contains. rewrite existsb_exists. setoid_rewrite bool_decide_eq_true.
  setoid_rewrite <-list_elem_of_In. naive_solver.
Qed.

Lemma contains_sub_spec t s : contains_sub t s = true ↔ ∃ a b, s = a ++ t ++ b.
Proof.
  induction s as [|x s IH]; simpl; rewrite orb_true_iff, bool_decide_eq_true.
  - split.
    + intros [[k ->]|?]; [by exists [], k|done].
    + intros (a & b & H). symmetry in H. apply app_eq_nil in H as [_ H].
      left. exists b. by rewrite H.
  - rewrite IH. split.
    + intros [[k ->]|(a & b & ->)]; [by exists [], k|by exists (x :: a), b].
    + intros ([|y a] & b & H); simplify_eq/=; [left; by exists b|eauto].
Qed.

(** ** Splitting and joining on a delimiter *)

(** The pieces of [s] between the occurrences of [c]: never empty. *)
Fixpoint split_on (c : ascii) (s : str) : list str :=
  match s with
  | [] => [[]]
  | x :: s' =>
      if decide (x = c) then [] :: split_on c s'
      else match split_on c s' with
           | p :: ps => (x :: p) :: ps
           | [] => [[x]]
           end
  end.

Fixpoint join_with (c : ascii) (ps : list str) : str :=
  match ps with
  | [] => []
  | [p] => p
  | p :: ps' => p ++ c :: join_with c ps'
  end.

Lemma split_on_nonempty c s : split_on c s ≠ [].
Proof. destruct s as [|x s]; simpl; [done|]. case_decide; [done|]. by destruct (split_on c s). Qed.

Lemma split_on_sep c s : split_on c (c :: s) = [] :: split_on c s.
Proof. simpl. by rewrite decide_True. Qed.

Lemma split_on_app c a b : split_on c (a ++ c :: b) = split_on c a ++ split_on c b.
Proof.
  induction a as [|x a IH]; simpl; [by rewrite decide_True|].
  rewrite IH. case_decide; [done|].
  pose proof (split_on_nonempty c a). by destruct (split_on c a).
Qed.

Lemma split_on_notin c s : c ∉ s → split_on c s = [s].
Proof.
  induction s as [|x s IH]; simpl; [done|]. rewrite not_elem_of_cons. intros [Hx Hs].
  rewrite decide_False by done. by rewrite IH.
Qed.

Lemma join_cons c p ps : ps ≠ [] → join_with c (p :: ps) = p ++ c :: join_with c ps.
Proof. by destruct ps. Qed.

Lemma join_split c s : join_with c (split_on c s) = s.
Proof.
  induction s as [|x s IH]; simpl; [done|].
  pose proof (split_on_nonempty c s) as Hne. case_decide as Hx.
  - subst x. rewrite join_cons by done. simpl. by rewrite IH.
  - destruct (split_on c s) as [|p ps]; [done|].
    rewrite <-IH. by destruct ps.
Qed.

Lemma split_join c ps :
  ps ≠ [] → Forall (λ p, c ∉ p) ps → split_on c (join_with c ps) = ps.
Proof.
  intros Hne. induction ps as [|p ps IH]; [done|]. inversion 1; subst.
  destruct ps as [|q ps]; [by apply split_on_notin|].
  rewrite join_cons, split_on_app, split_on_notin, IH by done. done.
Qed.

Lemma split_pieces c s : Forall (λ p, c ∉ p) (split_on c s).
Proof.
  induction s as [|x s IH]; simpl; [by repeat constructor; apply not_elem_of_nil|].
  case_decide; [constructor; [apply not_elem_of_nil|done]|].
  destruct (split_on c s) as [|p ps]; inversion IH; subst.
  - constructor; [set_solver|constructor].
  - constructor; [set_solver|done].
Qed.

Lemma join_app c ps qs :
  ps ≠ [] → qs ≠ [] → join_with c (ps ++ qs) = join_with c ps ++ c :: join_with c qs.
Proof.
  intros Hp Hq. induction ps as [|p ps IH]; [done|].
  destruct ps as [|p' ps]; [by apply join_cons|].
  change ((p :: p' :: ps) ++ qs) with (p :: ((p' :: ps) ++ qs)).
  rewrite !join_cons, IH, <-app_assoc by done. done.
Qed.

(** [c] before every piece: the absolute path with these components. *)
Definition join_abs (c : ascii) (ps : list str) : str := mbind (λ p, c :: p) ps.

Lemma join_abs_cons c p ps : join_abs c (p :: ps) = c :: p ++ join_abs c ps.
Proof. done. Qed.

Lemma join_abs_join c ps : ps ≠ [] → join_abs c ps = c :: join_with c ps.
Proof.
  induction ps as [|p ps IH]; [done|]. intros _. rewrite join_abs_cons.
  destruct ps as [|q ps]; [simpl; by rewrite app_nil_r|].
  rewrite IH, (join_cons c p) by done. done.
Qed.

Lemma join_abs_app c ps qs : join_abs c (ps ++ qs) = join_abs c ps ++ join_abs c qs.
Proof. apply bind_app. Qed.

Lemma split_join_abs c ps :
  Forall (λ p, c ∉ p) ps → split_on c (join_abs c ps) = [] :: ps.
Proof.
  intros H. destruct ps as [|p ps]; [done|].
  rewrite join_abs_join, split_on_sep by done. by rewrite split_join.
Qed.

(** ** Lists *)

Lemma take_min {A} n (l : list A) : take (Nat.min n (List.length l)) l = take n l.
Proof.
  destruct (Nat.min_spec n (List.length l)) as [[? ->]|[? ->]]; [done|]. by rewrite !take_ge.
Qed.

Lemma list_filter_none {A} (P : A → Prop) `{∀ x, Decision (P x)} l :
  Forall (λ x, ¬ P x) l → filter P l = [].
Proof. induction 1 as [|x l Hx Hl IH]; [done|]. by rewrite filter_cons_False. Qed.
