(* ===== verification/BaseStrings.v ===== *)
(** * BaseStrings: the string helpers of Chromium's base library

    [base/strings/*] is not part of the repository: the code calls it.  Its
    functions are therefore operations of the class [BaseStrings], and
    [BaseStringsSpec] states what the code relies on, as the library documents
    it.  Splitting is stated only for strings whose pieces have no leading or
    trailing white space, because the library trims the pieces it returns; an
    empty source gives no piece at all.  The module [Reference] has a concrete
    implementation, trimming included, on which witnesses run. *)

From S2P Require Import Prelude.

Class BaseStrings := {
  (* base::StringPiece::starts_with, ends_with *)
  starts_with : str → str → bool;
  ends_with : str → str → bool;
  (* EndsWith(str, search, case_sensitive) with case_sensitive = true *)
  EndsWith : str → str → bool;
  (* base::SplitString(str, c, &pieces) *)
  SplitString : str → ascii → list str;
  (* JoinString(parts, c) *)
  JoinString : list str → ascii → str;
  (* StartsWithASCII(str, search, case_sensitive) with case_sensitive = true *)
  StartsWithASCII : str → str → bool;
}.

Definition is_space (c : ascii) : bool :=
  let n := nat_of_ascii c in (Nat.leb 9 n && Nat.leb n 13) || Nat.eqb n 32.

(** No white space at either end. *)
Definition trimmed (p : str) : bool :=
  match p with
  | [] => true
  | x :: _ => negb (is_space x) && negb (is_space (List.last p x))
  end.

(** The strings on which [SplitString] does not trim anything. *)
Definition clean (s : str) : Prop := Forall (λ p, trimmed p = true) (split_on slash s).

#[export] Instance clean_dec s : Decision (clean s).
Proof. unfold clean. apply _. Defined.

Class BaseStringsSpec `{BaseStrings} : Prop := {
  starts_with_spec : ∀ s t, starts_with s t = bool_decide (t `prefix_of` s);
  ends_with_spec : ∀ s t, ends_with s t = bool_decide (t `suffix_of` s);
  EndsWith_spec : ∀ s t, EndsWith s t = bool_decide (t `suffix_of` s);
  SplitString_spec : ∀ s, s ≠ [] → clean s → SplitString s slash = split_on slash s;
  SplitString_empty : SplitString [] slash = [];
  JoinString_spec : ∀ ps, JoinString ps slash = join_with slash ps;
  StartsWithASCII_spec : ∀ s t, StartsWithASCII s t = bool_decide (t `prefix_of` s);
}.

(** ** A concrete implementation *)

Module Reference.
Fixpoint drop_space (s : str) : str :=
  match s with
  | x :: s' => if is_space x then drop_space s' else s
  | [] => []
  end.

Definition trim (s : str) : str := rev (drop_space (rev (drop_space s))).

Definition split (s : str) (c : ascii) : list str :=
  match trim <$> split_on c s with
  | [[]] => []
  | ps => ps
  end.

#[export] Instance base_strings : BaseStrings := {|
  starts_with s t := bool_decide (t `prefix_of` s);
  ends_with s t := bool_decide (t `suffix_of` s);
  EndsWith s t := bool_decide (t `suffix_of` s);
  SplitString := split;
  JoinString ps c := join_with c ps;
  StartsWithASCII s t := bool_decide (t `prefix_of` s);
|}.

Lemma drop_space_id s : (∀ x, head s = Some x → is_space x = false) → drop_space s = s.
Proof. destruct s as [|x s]; [done|]. intros H. simpl. by rewrite H. Qed.

Lemma trim_trimmed p : trimmed p = true → trim p = p.
Proof.
  destruct p as [|x p]; [done|]. unfold trimmed, trim.
  rewrite andb_true_iff, !negb_true_iff. intros [Hx Hl].
  rewrite (drop_space_id (x :: p)) by (intros y [= <-]; done).
  rewrite drop_space_id, rev_involutive; [done|].
  intros y Hy. destruct (rev (x :: p)) as [|z q] eqn:E; [done|].
  simpl in Hy. injection Hy as ->.
  assert (x :: p = rev q ++ [y]) as E' by (rewrite <-(rev_involutive (x :: p)), E; done).
  rewrite E', List.last_last in Hl. done.
Qed.

Lemma trim_clean ps : Forall (λ p, trimmed p = true) ps → trim <$> ps = ps.
Proof. induction 1; [done|]. csimpl. f_equal; [by apply trim_trimmed|done]. Qed.

#[export] Instance base_strings_spec : BaseStringsSpec.
Proof.
  split; [done..| | |done|done].
  - intros s Hs Hc. simpl. unfold split. rewrite trim_clean by done.
    destruct (split_on slash s) as [|[|x p] [|q ps]] eqn:E; try done.
    exfalso. apply Hs. rewrite <-(join_split slash s), E. done.
  - done.
Qed.
End Reference.
