(* ===== verification/Decimal.v ===== *)
(** * Decimal: numbers in decimal notation

    The ["%d"] of [StringPrintf] and its inverse, for the files that print numbers
    and the paths that contain them. *)

From S2P Require Import Prelude BaseStrings.

#[local] Open Scope Z_scope.

Definition digit (n : Z) : ascii := ascii_of_N (48 + Z.to_N n).

(** [c - '0'] *)
Definition digit_value (c : ascii) : Z := Z.of_N (N_of_ascii c) - 48.

Definition is_digit (c : ascii) : bool := (0 <=? digit_value c) && (digit_value c <=? 9).

(** The fuel is enough for numbers below [10 ^ fuel]. *)
Fixpoint digits (fuel : nat) (n : Z) : str :=
  match fuel with
  | O => []
  | Datatypes.S fuel => (if n <? 10 then [] else digits fuel (n / 10)) ++ [digit (n mod 10)]
  end.

Definition enough (n : Z) : nat := S (Z.to_nat (Z.log2 n)).

(** ["%d"] *)
Definition decimal (n : Z) : str := if n <? 0 then lit "-" ++ digits (enough (- n)) (- n) else digits (enough n) n.

Definition from_digits (s : str) : Z := fold_left (λ n c, n * 10 + digit_value c) s 0.

Lemma digit_value_digit n : 0 <= n < 10 → digit_value (digit n) = n.
Proof. intros Hn. unfold digit_value, digit. rewrite N_ascii_embedding by lia. lia. Qed.

Lemma is_digit_digit n : 0 <= n < 10 → is_digit (digit n) = true.
Proof. intros Hn. unfold is_digit. rewrite digit_value_digit by done. lia. Qed.

Lemma from_digits_app s t : from_digits (s ++ t) = fold_left (λ n c, n * 10 + digit_value c) t (from_digits s).
Proof. apply fold_left_app. Qed.

Lemma digits_spec fuel n :
  0 <= n < 10 ^ Z.of_nat fuel → (0 < fuel)%nat →
  from_digits (digits fuel n) = n ∧ Forall (λ c, is_digit c = true) (digits fuel n) ∧ digits fuel n ≠ [].
Proof.
  revert n. induction fuel as [|fuel IH]; intros n Hn Hf; [lia|]. cbn [digits].
  pose proof (Z.mod_pos_bound n 10 ltac:(lia)) as Hmod. rewrite from_digits_app. cbn [fold_left].
  rewrite digit_value_digit by done. destruct (Z.ltb_spec n 10) as [Hlt|Hge].
  - rewrite Z.mod_small by lia. split; [cbn; lia|]. split; [|done]. repeat constructor. by apply is_digit_digit; lia.
  - destruct fuel as [|fuel]; [cbn in Hn; lia|].
    destruct (IH (n / 10)) as (I1 & I2 & I3); [|lia|].
    { replace (Z.of_nat (S (S fuel))) with (Z.succ (Z.of_nat (S fuel))) in Hn by lia.
      rewrite Z.pow_succ_r in Hn by lia. split; [apply Z.div_pos; lia|apply Z.div_lt_upper_bound; lia]. }
    rewrite I1. split; [pose proof (Z.div_mod n 10 ltac:(lia)); lia|]. split; [|by destruct (digits _ _)].
    apply Forall_app. split; [done|]. repeat constructor. by apply is_digit_digit.
Qed.

Lemma enough_spec n : 0 <= n → n < 10 ^ Z.of_nat (enough n).
Proof.
  intros Hn. destruct (decide (n = 0)) as [->|]; [done|]. unfold enough.
  pose proof (Z.log2_spec n ltac:(lia)) as [_ H2]. pose proof (Z.log2_nonneg n).
  replace (Z.of_nat (S (Z.to_nat (Z.log2 n)))) with (Z.succ (Z.log2 n)) by lia.
  assert (2 ^ Z.succ (Z.log2 n) <= 10 ^ Z.succ (Z.log2 n)) by (apply Z.pow_le_mono_l; lia). lia.
Qed.

Lemma decimal_spec n :
  0 <= n → from_digits (decimal n) = n ∧ Forall (λ c, is_digit c = true) (decimal n) ∧ decimal n ≠ [].
Proof.
  intros Hn. unfold decimal. destruct (Z.ltb_spec n 0); [lia|].
  apply digits_spec; [|unfold enough; lia]. split; [done|by apply enough_spec].
Qed.

Lemma decimal_inj n m : 0 <= n → 0 <= m → decimal n = decimal m → n = m.
Proof. intros Hn Hm Heq. by rewrite <-(proj1 (decimal_spec n Hn)), Heq, (proj1 (decimal_spec m Hm)). Qed.

Lemma decimal_not_in n c : 0 <= n → is_digit c = false → c ∉ decimal n.
Proof.
  intros Hn Hc Hin. destruct (decimal_spec n Hn) as (_ & Hd & _). rewrite Forall_forall in Hd.
  apply Hd in Hin. congruence.
Qed.

(** Some of them. *)
Example decimal_examples : decimal 0 = lit "0" ∧ decimal 2147483647 = lit "2147483647" ∧ decimal (-7) = lit "-7".
Proof. done. Qed.

Lemma digits_length fuel n : (List.length (digits fuel n) <= fuel)%nat.
Proof.
  revert n. induction fuel as [|fuel IH]; intros n; [done|]. cbn [digits]. rewrite length_app. cbn [List.length].
  destruct (n <? 10); cbn [List.length]; [lia|]. pose proof (IH (n / 10)). lia.
Qed.

Lemma decimal_length n : 0 <= n < 2 ^ 32 → (List.length (decimal n) <= 32)%nat.
Proof.
  intros Hn. unfold decimal. destruct (Z.ltb_spec n 0); [lia|]. etrans; [apply digits_length|]. unfold enough.
  destruct (decide (n = 0)) as [->|]; [cbn; lia|]. assert (Z.log2 n < 32) by (apply Z.log2_lt_pow2; lia). lia.
Qed.

(** Names that end with a number have no white space at their ends. *)
Lemma digit_not_space c : is_digit c = true → is_space c = false.
Proof.
  unfold is_digit, is_space, digit_value. intros Hc.
  replace (Z.of_N (N_of_ascii c)) with (Z.of_nat (nat_of_ascii c)) in Hc by (unfold nat_of_ascii; lia). cbv zeta.
  destruct (Nat.leb_spec 9 (nat_of_ascii c)), (Nat.leb_spec (nat_of_ascii c) 13), (Nat.eqb_spec (nat_of_ascii c) 32); cbn in *; lia || done.
Qed.

Lemma trimmed_number x t n : is_space x = false → 0 <= n → trimmed (x :: t ++ decimal n) = true.
Proof.
  intros Hx Hn. destruct (decimal_spec n Hn) as (_ & Hd & Hne). destruct (decimal n) as [|c l _] using rev_ind; [done|].
  unfold trimmed. rewrite Hx, app_assoc, app_comm_cons, List.last_last. cbn.
  apply Forall_app in Hd as [_ Hd]. inversion Hd; subst. by rewrite digit_not_space.
Qed.

Lemma trimmed_decimal n : 0 <= n → trimmed (decimal n) = true.
Proof.
  intros Hn. destruct (decimal_spec n Hn) as (_ & Hd & Hne). destruct (decimal n) as [|c l]; [done|].
  unfold trimmed. inversion Hd as [|?? Hc Hl]; subst. rewrite (digit_not_space c Hc). cbn.
  assert (is_digit (List.last (c :: l) c) = true) as Hlast; [|by rewrite digit_not_space].
  rewrite Forall_forall in Hd. apply Hd, list_elem_of_In. destruct (exists_last Hne) as (l' & x & ->).
  rewrite List.last_last. apply in_app_iff. right. by left.
Qed.
