(* ===== verification/PathUtil.v ===== *)
(** * PathUtil: [src/posix_translation/path_util.{h,cc}], [GetBaseName] of
    [src/common/file_util.cc]

    The string-level path functions every other component calls.  In-place
    functions of a [std::string*] return the new string.  The specification of a
    path is its list of components ([components]): pieces between slashes that
    are neither empty nor ["."]; [canonical] prints a component list back. *)

From S2P Require Import Prelude BaseStrings.

Section PathUtil.
Context `{BaseStrings}.

(* ------------------------------------------------------------------ *)
(** ** Definitions *)

Definition kCurrentDirectory : str := ".".

Definition IsAbsolutePath (path : str) : bool := starts_with path "/".

Definition EndsWithSlash (path : str) : bool := ends_with path "/".

Definition GetDirNameInPlace (in_out_path : str) : str :=
  let length := List.length in_out_path in
  let search_start :=
    if (Nat.leb 2 length) && EndsWithSlash in_out_path
    then Some (length - 2) else None in
  match rfind slash in_out_path search_start with
  | Some O => "/"
  | None => kCurrentDirectory
  | Some pos => take pos in_out_path
  end.

Definition GetDirName (path : str) : str := GetDirNameInPlace path.

Definition JoinPath (dirname basename : str) : str :=
  if EndsWithSlash dirname then dirname ++ basename
  else dirname ++ lit "/" ++ basename.

Definition EnsurePathEndsWithSlash (in_out_path : str) : str :=
  if negb (EndsWithSlash in_out_path) then in_out_path ++ lit "/" else in_out_path.

(** The loop over the split components in the slow path. *)
Fixpoint append_components (directories : list str) (in_out_path : str) : str :=
  match directories with
  | [] => in_out_path
  | directory :: directories' =>
      if bool_decide (directory = lit ".") || bool_decide (directory = [])
      then append_components directories' in_out_path
      else append_components directories' (in_out_path ++ directory ++ lit "/")
  end.

(** [erase(length() - 1)] if [length() > 2U], then the post condition. *)
Definition drop_trailing_slash (path : str) : outcome str :=
  let path := if Nat.ltb 2 (List.length path)
              then take (List.length path - 1) path else path in
  require (bool_decide (path = lit "/") || negb (EndsWithSlash path)) ≫= λ _, mret path.

Definition RemoveSingleDotsAndRedundantSlashes (in_out_path : str) : outcome str :=
  if negb (contains dot in_out_path) && negb (contains_sub "//" in_out_path) then
    (* Fast path. *)
    let path := if EndsWithSlash in_out_path && Nat.ltb 2 (List.length in_out_path)
                then take (List.length in_out_path - 1) in_out_path
                else in_out_path in
    require (bool_decide (path = lit "/") || negb (EndsWithSlash path)) ≫= λ _, mret path
  else
    require (bool_decide (in_out_path ≠ [])) ≫= λ _,
    let is_absolute := bool_decide (head in_out_path = Some slash) in
    let directories := SplitString in_out_path slash in
    let path := append_components directories (if is_absolute then "/" else "") in
    if bool_decide (path = []) then mret (lit ".")
    else
      require (EndsWithSlash path) ≫= λ _, drop_trailing_slash path.

(** [while (length() > 1U && EndsWithSlash) erase(length() - 1)], on the
    reversed string. *)
Fixpoint remove_leading_slashes (r : str) : str :=
  match r with
  | [] => []
  | x :: r' =>
      match r' with
      | [] => r
      | _ => if decide (x = slash) then remove_leading_slashes r' else r
      end
  end.

Definition RemoveTrailingSlashes (in_out_path : str) : outcome str :=
  let path := rev (remove_leading_slashes (rev in_out_path)) in
  require (bool_decide (path = lit "/") || negb (EndsWithSlash path)) ≫= λ _, mret path.

(** [arc::GetBaseName]: [strrchr(pathname, '/')]. *)
Definition GetBaseName (pathname : str) : str :=
  match last_index slash pathname with
  | None => pathname
  | Some pos => drop (Datatypes.S pos) pathname
  end.
End PathUtil.

(** ** Specification vocabulary *)

Definition is_component (d : str) : bool :=
  negb (bool_decide (d = lit ".")) && negb (bool_decide (d = [])).

Definition components (p : str) : list str := List.filter is_component (split_on slash p).

Definition is_abs (p : str) : bool := bool_decide (head p = Some slash).

(** Component lists as the functions below receive them. *)
Definition proper (ds : list str) : Prop :=
  Forall (λ d, slash ∉ d ∧ d ≠ lit "." ∧ d ≠ []) ds.

#[export] Instance proper_dec ds : Decision (proper ds).
Proof. unfold proper. apply _. Defined.

(** The path with the components [ds]. *)
Definition print_path (abs : bool) (ds : list str) : str :=
  match ds with
  | [] => if abs then "/" else "."
  | _ => if abs then join_abs slash ds else join_with slash ds
  end.

(** The absolute names of a file and of a directory (with the slash). *)
Definition filepath (p : list str) : str := join_abs slash p.
Definition dirpath (ds : list str) : str := join_abs slash ds ++ [slash].

Definition canonical (p : str) : str := print_path (is_abs p) (components p).

(** ** The unit test's tables (path_util_test.cc), on the reference strings *)

Module Tests.
Import Reference.

Example dir_names :
  map GetDirName [lit "/foo/bar"; lit "/foo/bar/"; lit "/foo"; lit "/"; lit "foo"; lit "foo/bar";
                  lit ""; lit "//"; lit "a/"] =
  [lit "/foo"; lit "/foo"; lit "/"; lit "/"; lit "."; lit "foo"; lit "."; lit "/"; lit "."].
Proof. vm_compute. reflexivity. Qed.

Example single_dots :
  map RemoveSingleDotsAndRedundantSlashes
      [lit "/"; lit "///"; lit "/foo/"; lit "/path/to/./foo"; lit "././path/to/./foo";
       lit "//././path/to/./foo/./."; lit "/ends_with_dot./"; lit "././/"; lit "";
       lit "foo/../bar"] =
  map Done [lit "/"; lit "/"; lit "/foo"; lit "/path/to/foo"; lit "path/to/foo";
            lit "/path/to/foo"; lit "/ends_with_dot."; lit "."; lit ""; lit "foo/../bar"].
Proof. vm_compute. reflexivity. Qed.

Example trailing :
  map RemoveTrailingSlashes [lit "/"; lit "///"; lit "/foo/bar//"; lit "//foo//bar//"] =
  map Done [lit "/"; lit "/"; lit "/foo/bar"; lit "//foo//bar"].
Proof. vm_compute. reflexivity. Qed.
End Tests.

(* -------------------------------------------------------------------- *)
(** * Proofs *)

Section Proofs.
Context `{BaseStringsSpec}.

(** ** Slashes at the ends *)

Lemma ends_slash s : EndsWithSlash s = true ↔ ∃ t, s = t ++ [slash].
Proof.
  unfold EndsWithSlash. rewrite ends_with_spec, bool_decide_eq_true. done.
Qed.

Lemma ends_slash_snoc s x : EndsWithSlash (s ++ [x]) = bool_decide (x = slash).
Proof.
  apply eq_true_iff_eq. rewrite ends_slash, bool_decide_eq_true. split.
  - intros [t Ht]. by apply app_inj_tail in Ht as [_ ->].
  - intros ->. eauto.
Qed.

Lemma ends_slash_root : EndsWithSlash [slash] = true.
Proof. apply ends_slash. by exists []. Qed.

Lemma ends_slash_nil : EndsWithSlash [] = false.
Proof.
  apply not_true_iff_false. rewrite ends_slash. intros [t Ht].
  by destruct t.
Qed.

Lemma ends_slash_app s t : t ≠ [] → EndsWithSlash (s ++ t) = EndsWithSlash t.
Proof.
  intros Ht. destruct t as [|x t _] using rev_ind; [done|].
  by rewrite app_assoc, !ends_slash_snoc.
Qed.

Lemma ends_slash_notin s : slash ∉ s → EndsWithSlash s = false.
Proof.
  intros Hs. apply not_true_iff_false. rewrite ends_slash. intros [t ->].
  apply Hs. set_solver.
Qed.

Lemma abs_slash s : IsAbsolutePath s = is_abs s.
Proof.
  unfold IsAbsolutePath, is_abs. rewrite starts_with_spec. apply bool_decide_ext.
  split; [by intros [k ->]|]. destruct s as [|x s]; [done|]. intros [= ->]. by exists s.
Qed.

Lemma ensure_slash_ends s : EndsWithSlash (EnsurePathEndsWithSlash s) = true.
Proof.
  unfold EnsurePathEndsWithSlash. destruct (EndsWithSlash s) eqn:E; simpl; [done|].
  by rewrite ends_slash_snoc.
Qed.

Lemma ensure_slash_id s : EndsWithSlash s = true → EnsurePathEndsWithSlash s = s.
Proof. unfold EnsurePathEndsWithSlash. by intros ->. Qed.

Lemma ensure_slash_add s : EndsWithSlash s = false → EnsurePathEndsWithSlash s = s ++ [slash].
Proof. unfold EnsurePathEndsWithSlash. by intros ->. Qed.

(** ** Components and printed paths *)

Lemma components_proper p : proper (components p).
Proof.
  apply Forall_forall. intros d. unfold components.
  rewrite list_elem_of_In, filter_In, <-list_elem_of_In. intros [Hin Hd].
  pose proof (split_pieces slash p) as Hp. rewrite Forall_forall in Hp.
  unfold is_component in Hd. rewrite andb_true_iff, !negb_true_iff, !bool_decide_eq_false in Hd.
  naive_solver.
Qed.

Lemma proper_filter ds : proper ds → List.filter is_component ds = ds.
Proof.
  induction 1 as [|d ds (? & ? & ?) _ IH]; [done|]. simpl. unfold is_component at 1.
  rewrite !bool_decide_false by done. simpl. by rewrite IH.
Qed.

Lemma proper_noslash ds : proper ds → Forall (λ d, slash ∉ d) ds.
Proof. intros Hds. eapply Forall_impl; [exact Hds|naive_solver]. Qed.

Lemma proper_app ds es : proper (ds ++ es) ↔ proper ds ∧ proper es.
Proof. apply Forall_app. Qed.

Lemma components_abs ds : proper ds → components (join_abs slash ds) = ds.
Proof.
  intros Hds. unfold components. rewrite split_join_abs by by apply proper_noslash.
  simpl. by apply proper_filter.
Qed.

Lemma components_print abs ds : proper ds → components (print_path abs ds) = ds.
Proof.
  intros Hds. destruct ds as [|d ds]; [by destruct abs|].
  unfold print_path. destruct abs; [by apply components_abs|].
  unfold components. rewrite split_join by (done || by apply proper_noslash).
  by apply proper_filter.
Qed.

Lemma split_dirpath_proper ds : proper ds → split_on slash (dirpath ds) = [] :: ds ++ [[]].
Proof.
  intros Hp. unfold dirpath. change [slash] with (slash :: []).
  rewrite split_on_app, split_join_abs by by apply proper_noslash. done.
Qed.

Lemma dirpath_inj_proper ds es : proper ds → proper es → dirpath ds = dirpath es → ds = es.
Proof.
  intros Hd He E. apply (f_equal (split_on slash)) in E.
  rewrite !split_dirpath_proper in E by done. injection E as E.
  by apply app_inj_tail in E as [E _].
Qed.

Lemma print_path_nonempty abs ds : proper ds → print_path abs ds ≠ [].
Proof.
  destruct ds as [|d ds]; [by destruct abs|]. inversion 1 as [|?? (? & ? & ?)]; subst.
  unfold print_path. destruct abs; [done|].
  destruct ds; [done|]. rewrite join_cons by done. by destruct d.
Qed.

Lemma is_abs_print abs ds : proper ds → is_abs (print_path abs ds) = abs.
Proof.
  destruct ds as [|d ds]; [by destruct abs|]. inversion 1 as [|?? (Hs & ? & ?)]; subst.
  unfold print_path, is_abs. destruct abs; [done|].
  apply bool_decide_false. destruct d as [|x d]; [done|].
  destruct ds; simpl; set_solver.
Qed.

Lemma print_path_snoc abs ds d :
  print_path abs (ds ++ [d]) =
  (if abs then join_abs slash ds ++ [slash]
   else match ds with [] => [] | _ => join_with slash ds ++ [slash] end) ++ d.
Proof.
  destruct ds as [|e ds].
  { destruct abs; [|done]. simpl. by rewrite app_nil_r. }
  unfold print_path. destruct abs; simpl app.
  - rewrite (join_abs_app _ (e :: ds) [d]). rewrite <-app_assoc. f_equal.
    simpl. by rewrite app_nil_r.
  - rewrite (join_app _ (e :: ds) [d]) by done. rewrite <-app_assoc. done.
Qed.

Lemma print_ends_slash abs ds :
  proper ds → ds ≠ [] → EndsWithSlash (print_path abs ds) = false.
Proof.
  intros Hds Hne. destruct ds as [|d ds _] using rev_ind; [done|].
  apply proper_app in Hds as [_ Hd]. inversion Hd as [|?? (? & ? & ?)]; subst.
  rewrite print_path_snoc, ends_slash_app by done. by apply ends_slash_notin.
Qed.

Lemma append_components_spec ds acc :
  append_components ds acc =
  acc ++ mbind (λ d, d ++ [slash]) (List.filter is_component ds).
Proof.
  revert acc. induction ds as [|d ds IH]; intros acc; simpl; [by rewrite app_nil_r|].
  unfold is_component at 1. rewrite <-negb_orb.
  destruct (_ || _); simpl; [by rewrite IH|].
  rewrite IH, <-app_assoc. done.
Qed.

Lemma bind_slash_abs ds :
  lit "/" ++ mbind (λ d, d ++ [slash]) ds = join_abs slash ds ++ [slash].
Proof.
  induction ds as [|d ds IH]; [done|]. rewrite join_abs_cons.
  change (lit "/" ++ (d ++ [slash]) ++ mbind (λ d, d ++ [slash]) ds =
          (slash :: d ++ join_abs slash ds) ++ [slash]).
  rewrite <-(app_assoc d). change [slash] with (lit "/") at 1.
  rewrite IH. simpl. by rewrite <-app_assoc.
Qed.

Lemma bind_slash_rel ds :
  ds ≠ [] → mbind (λ d, d ++ [slash]) ds = join_with slash ds ++ [slash].
Proof.
  induction ds as [|d ds IH]; [done|]. intros _.
  destruct ds as [|e ds]; [simpl; by rewrite app_nil_r|].
  rewrite join_cons by done. cbn [mbind list_bind]. cbn [mbind list_bind] in IH.
  rewrite IH by done. by rewrite <-!app_assoc.
Qed.

Lemma append_components_print (abs : bool) ds :
  (if abs then lit "/" else []) ++ mbind (λ d : str, d ++ [slash]) ds =
  match ds with [] => if abs then lit "/" else [] | _ => print_path abs ds ++ [slash] end.
Proof.
  destruct ds as [|d ds]; [by destruct abs|]. destruct abs.
  - apply (bind_slash_abs (d :: ds)).
  - apply (bind_slash_rel (d :: ds)). done.
Qed.

(** ** Removing dots and redundant slashes *)

(** The paths that make a debug build abort: relative, of one component of one
    byte, with anything to remove. *)
Definition one_byte_relative (p : str) : bool :=
  match components p with
  | [[x]] => negb (is_abs p) && bool_decide (p ≠ [x])
  | _ => false
  end.

Lemma drop_trailing_slash_spec q :
  q ≠ [] → EndsWithSlash q = false →
  drop_trailing_slash (q ++ [slash]) =
  if Nat.leb 2 (List.length q) then Done q else Abort.
Proof.
  intros Hq Hs. unfold drop_trailing_slash. rewrite length_app.
  change (List.length [slash]) with 1.
  destruct (Nat.leb 2 (List.length q)) eqn:E.
  - apply Nat.leb_le in E. replace (Nat.ltb 2 (List.length q + 1)) with true
      by (symmetry; apply Nat.ltb_lt; lia).
    replace (List.length q + 1 - 1) with (List.length q) by lia.
    rewrite take_app_length. rewrite Hs. rewrite orb_true_r. done.
  - apply Nat.leb_gt in E. replace (Nat.ltb 2 (List.length q + 1)) with false
      by (symmetry; apply Nat.ltb_ge; lia).
    rewrite ends_slash_snoc, (bool_decide_true (slash = slash)) by done.
    rewrite bool_decide_false; [done|]. intros Hl.
    change (lit "/") with ([] ++ [slash]) in Hl. by apply app_inj_tail in Hl as [? _].
Qed.

Lemma print_length_rel ds :
  proper ds → ds ≠ [] →
  Nat.leb 2 (List.length (print_path false ds)) =
  match ds with [[_]] => false | _ => true end.
Proof.
  intros Hds Hne. destruct ds as [|d ds]; [done|].
  inversion Hds as [|?? (? & ? & ?) Hds']; subst. unfold print_path.
  destruct ds as [|e ds].
  - simpl. destruct d as [|x [|y d]]; done.
  - rewrite join_cons by done. destruct d as [|x d]; [done|].
    rewrite length_app. transitivity true; [apply Nat.leb_le; simpl; lia|by destruct d].
Qed.

Lemma print_length_abs ds :
  proper ds → ds ≠ [] → Nat.leb 2 (List.length (print_path true ds)) = true.
Proof.
  intros Hds Hne. destruct ds as [|d ds]; [done|].
  inversion Hds as [|?? (? & ? & ?) Hds']; subst. unfold print_path.
  rewrite join_abs_cons. destruct d; [done|]. done.
Qed.

Lemma slow_path p :
  clean p → p ≠ [] →
  (let path := append_components (SplitString p slash) (if is_abs p then "/" else []) in
   if bool_decide (path = []) then mret (lit ".")
   else require (EndsWithSlash path) ≫= λ _, drop_trailing_slash path) =
  match components p with
  | [[_]] => if is_abs p then Done (canonical p) else Abort
  | _ => Done (canonical p)
  end.
Proof.
  intros Hc Hp. rewrite SplitString_spec by done. cbv zeta.
  rewrite append_components_spec. fold (components p).
  rewrite append_components_print. unfold canonical.
  pose proof (components_proper p) as Hds.
  destruct (components p) as [|d ds] eqn:Eds.
  - destruct (is_abs p); [|done].
    rewrite bool_decide_false by done. simpl.
    change ["/"%char] with [slash]. rewrite ends_slash_root. done.
  - rewrite bool_decide_false by (intros H'; by apply app_eq_nil in H' as [_ ?]).
    rewrite ends_slash_snoc, bool_decide_true, require_true by done.
    rewrite drop_trailing_slash_spec; [|by apply print_path_nonempty|by apply print_ends_slash].
    destruct (is_abs p).
    + rewrite print_length_abs by done. by destruct d as [|? [|??]], ds.
    + rewrite print_length_rel by done. by destruct d as [|? [|??]], ds.
Qed.

(** A path without ["//"] has no empty piece except at its ends. *)
Lemma no_empty_pieces ps :
  contains_sub "//" (join_with slash ps) = false → Forall (λ p, slash ∉ p) ps →
  match ps with
  | [] | [] :: _ => True
  | _ => Forall (λ p, p ≠ []) ps ∨ ∃ qs, ps = qs ++ [[]] ∧ Forall (λ p, p ≠ []) qs
  end.
Proof.
  intros Hsub. induction ps as [|p ps IH]; [done|]. inversion 1; subst.
  destruct p as [|x p]; [done|].
  destruct ps as [|q ps]; [by left; repeat constructor|].
  rewrite join_cons in Hsub by done. destruct q as [|y q].
  - destruct ps as [|r ps].
    + right. exists [x :: p]. by split; [|repeat constructor].
    + exfalso. apply not_true_iff_false in Hsub. apply Hsub, contains_sub_spec.
      rewrite join_cons by done. by exists (x :: p), (join_with slash (r :: ps)).
  - destruct IH as [IH|(qs & Hqs & IH)].
    + apply not_true_iff_false. rewrite contains_sub_spec. intros (a & b & E).
      apply not_true_iff_false in Hsub. apply Hsub, contains_sub_spec.
      exists ((x :: p) ++ slash :: a), b. rewrite E. by rewrite <-app_assoc.
    + done.
    + left. by constructor.
    + right. exists ((x :: p) :: qs). rewrite Hqs. by split; [|constructor].
Qed.

Lemma filter_nonempty ps :
  Forall (λ p, p ≠ lit ".") ps → Forall (λ p, p ≠ []) ps →
  List.filter is_component ps = ps.
Proof.
  induction 1 as [|p ps Hp _ IH]; [done|]. inversion 1; subst. simpl.
  unfold is_component at 1. rewrite !bool_decide_false by done. simpl. by rewrite IH.
Qed.

Lemma filter_trailing ps : List.filter is_component (ps ++ [[]]) = List.filter is_component ps.
Proof. rewrite List.filter_app. simpl. by rewrite app_nil_r. Qed.

(** What a path that needs the fast path only looks like. *)
Lemma fast_shape p :
  p ≠ [] → contains dot p = false → contains_sub "//" p = false →
  p = [slash] ∨
  components p ≠ [] ∧
    (p = print_path (is_abs p) (components p) ∨
     p = print_path (is_abs p) (components p) ++ [slash]).
Proof.
  intros Hp Hdot Hsub.
  pose proof (join_split slash p) as Hj. pose proof (split_pieces slash p) as Hps.
  assert (Forall (λ q, q ≠ lit ".") (split_on slash p)) as Hnd.
  { apply Forall_forall. intros q Hq ->. apply not_true_iff_false in Hdot. apply Hdot.
    apply contains_spec. rewrite <-Hj.
    apply list_elem_of_split in Hq as (l1 & l2 & ->). clear.
    induction l1 as [|a l1 IH]; [destruct l2; simpl; set_solver|].
    rewrite <-app_comm_cons, join_cons by by destruct l1. set_solver. }
  unfold components. destruct (split_on slash p) as [|[|x q] ps] eqn:E; [by destruct (split_on_nonempty slash p)| |].
  - destruct ps as [|r ps]; [by simpl in Hj|]. rewrite join_cons in Hj by done. cbn [app] in Hj. subst p.
    inversion Hps as [|?? _ Hps']; subst. inversion Hnd as [|?? _ Hnd']; subst.
    assert (is_abs (slash :: join_with slash (r :: ps)) = true) as -> by done.
    assert (contains_sub "//" (join_with slash (r :: ps)) = false) as Hsub'.
    { simpl in Hsub. by apply orb_false_iff in Hsub as [_ ?]. }
    destruct r as [|y r].
    + left. destruct ps as [|r ps]; [done|]. rewrite join_cons in Hsub by done.
      exfalso. apply not_true_iff_false in Hsub. apply Hsub, contains_sub_spec.
      by exists [], (join_with slash (r :: ps)).
    + right. change (List.filter is_component ([] :: ?l)) with (List.filter is_component l).
      destruct (no_empty_pieces _ Hsub' Hps') as [Hne|(qs & Hqs & Hne)].
      * rewrite filter_nonempty by done. split; [done|]. left.
        by rewrite <-join_abs_join.
      * rewrite Hqs, filter_trailing.
        rewrite Hqs in Hnd'. apply Forall_app in Hnd' as [Hnd' _].
        rewrite filter_nonempty by done. destruct qs as [|z qs]; [by inversion Hqs|].
        split; [done|]. right. rewrite join_app by done.
        unfold print_path. rewrite join_abs_join by done. done.
  - subst p. inversion Hps as [|?? Hq Hps']; subst. apply not_elem_of_cons in Hq as [Hx Hq].
    assert (is_abs (join_with slash ((x :: q) :: ps)) = false) as ->.
    { unfold is_abs. apply bool_decide_false.
      destruct ps; [simpl; congruence|]. rewrite join_cons by done. simpl. congruence. }
    right. destruct (no_empty_pieces _ Hsub Hps) as [Hne|(qs & Hqs & Hne)].
    + rewrite filter_nonempty by done. split; [done|]. by left.
    + rewrite Hqs, filter_trailing.
      rewrite Hqs in Hnd. apply Forall_app in Hnd as [Hnd _].
      rewrite filter_nonempty by done. destruct qs as [|z qs]; [by inversion Hqs|].
      split; [done|]. right. rewrite join_app by done. done.
Qed.

Lemma fast_path p :
  p ≠ [] → contains dot p = false → contains_sub "//" p = false →
  RemoveSingleDotsAndRedundantSlashes p =
  if one_byte_relative p then Abort else Done (canonical p).
Proof.
  intros Hp Hdot Hsub. unfold RemoveSingleDotsAndRedundantSlashes. rewrite Hdot, Hsub.
  simpl negb. simpl andb. cbv iota.
  pose proof (components_proper p) as Hds.
  destruct (fast_shape p Hp Hdot Hsub) as [->|[Hne [Hq|Hq]]].
  - rewrite ends_slash_root. done.
  - unfold one_byte_relative, canonical.
    assert (EndsWithSlash p = false) as Hs by (rewrite Hq; by apply print_ends_slash).
    rewrite Hs. cbn [andb negb]. rewrite Hs. cbn [negb].
    rewrite orb_true_r, require_true, <-Hq.
    destruct (components p) as [|[|x [|y d]] [|e ds]]; try done.
    destruct (is_abs p) eqn:Ha; [done|]. simpl.
    rewrite bool_decide_false; [done|]. rewrite Hq. simpl. naive_solver.
  - unfold one_byte_relative, canonical.
    assert (EndsWithSlash p = true) as Hs by (rewrite Hq; apply ends_slash; eauto).
    rewrite Hs. simpl andb. fold (drop_trailing_slash p). rewrite Hq at 1.
    rewrite drop_trailing_slash_spec; [|by apply print_path_nonempty|by apply print_ends_slash].
    destruct (is_abs p) eqn:Ha.
    + rewrite print_length_abs by done.
      by destruct (components p) as [|[|x [|y d]] [|e ds]].
    + rewrite print_length_rel by done.
      destruct (components p) as [|[|x [|y d]] [|e ds]]; try done.
      simpl. rewrite bool_decide_true; [done|]. rewrite Hq. by simpl.
Qed.

Lemma canonical_or_abort p :
  clean p → p ≠ [] →
  RemoveSingleDotsAndRedundantSlashes p =
  if one_byte_relative p then Abort else Done (canonical p).
Proof.
  intros Hc Hp.
  destruct (contains dot p) eqn:Hdot, (contains_sub "//" p) eqn:Hsub;
    [| | |by apply fast_path];
    unfold RemoveSingleDotsAndRedundantSlashes; rewrite Hdot, Hsub; cbn [andb negb];
    rewrite (bool_decide_true (p ≠ [])), require_true by done; cbv zeta;
    fold (is_abs p); change (lit "") with (@nil ascii);
    pose proof (slow_path p Hc Hp) as Hslow; cbv zeta in Hslow; rewrite Hslow;
    unfold one_byte_relative; destruct (components p) as [|[|x [|y d]] [|e ds]] eqn:E; try done.
  all: destruct (is_abs p) eqn:Ha; [done|]; cbn [andb negb];
    rewrite bool_decide_true; [done|]; intros ->.
  all: try (apply contains_spec, list_elem_of_singleton in Hdot; subst x; by vm_compute in E).
  all: apply contains_sub_spec in Hsub as ([|? [|??]] & ? & ?); by simplify_eq/=.
Qed.

(** ** Directory names *)

Lemma rfind_before_slash q :
  q ≠ [] → rfind slash (q ++ [slash]) (Some (List.length (q ++ [slash]) - 2)) = last_index slash q.
Proof.
  intros Hq. unfold rfind. rewrite length_app. simpl.
  replace (Datatypes.S (List.length q + 1 - 2)) with (List.length q)
    by (destruct q; [done|simpl; lia]).
  by rewrite take_app_length.
Qed.

(** [GetDirNameInPlace] ignores one slash at the end. *)
Lemma dir_name_last_index q :
  EndsWithSlash q = false ∨ q = [slash] →
  GetDirNameInPlace q =
  match last_index slash q with
  | Some O => lit "/" | None => lit "." | Some pos => take pos q
  end.
Proof.
  intros [Hq| ->]; [|done]. unfold GetDirNameInPlace. rewrite Hq, andb_false_r. done.
Qed.

Lemma dir_name_slash q :
  q ≠ [] →
  GetDirNameInPlace (q ++ [slash]) =
  match last_index slash q with
  | Some O => lit "/" | None => lit "." | Some pos => take pos q
  end.
Proof.
  intros Hq. unfold GetDirNameInPlace. rewrite ends_slash_snoc, bool_decide_true by done.
  assert (Nat.leb 2 (List.length (q ++ [slash])) = true) as ->.
  { apply Nat.leb_le. rewrite length_app. destruct q; [done|simpl; lia]. }
  cbn [andb]. rewrite rfind_before_slash by done.
  destruct (last_index slash q) as [[|pos]|] eqn:E; try done.
  apply last_index_Some in E as (a & b & -> & _ & Hlen).
  rewrite <-app_assoc, !take_app_le by lia. done.
Qed.

Lemma last_index_sep a d :
  slash ∉ d → last_index slash (a ++ slash :: d) = Some (List.length a).
Proof. intros Hd. apply last_index_Some. eauto. Qed.

Lemma dir_of_printed abs ds :
  proper ds →
  match last_index slash (print_path abs ds) with
  | Some O => lit "/" | None => lit "." | Some pos => take pos (print_path abs ds)
  end = print_path abs (removelast ds).
Proof.
  intros Hds. destruct ds as [|d ds _] using rev_ind; [by destruct abs|].
  rewrite removelast_last, print_path_snoc.
  apply proper_app in Hds as [Hds Hd]. inversion Hd as [|?? (Hslash & ? & ?)]; subst.
  assert (∀ q, q ≠ [] → match last_index slash ((q ++ [slash]) ++ d) with
     | Some O => lit "/" | None => lit "."
     | Some (Datatypes.S _ as pos) => take pos ((q ++ [slash]) ++ d) end = q) as Hq.
  { intros q Hq. rewrite <-app_assoc. simpl. rewrite last_index_sep by done.
    destruct q as [|x q]; [done|]. simpl List.length.
    by rewrite (take_app_length' (x :: q)). }
  destruct ds as [|e ds].
  - destruct abs; simpl app.
    + change (slash :: d) with ([] ++ slash :: d). by rewrite last_index_sep.
    + by rewrite (proj2 (last_index_None slash d)).
  - destruct abs; apply Hq; [done|].
    apply (print_path_nonempty false (e :: ds)). done.
Qed.

Lemma dir_name_printed abs ds :
  proper ds → GetDirName (print_path abs ds) = print_path abs (removelast ds).
Proof.
  intros Hds. unfold GetDirName. rewrite <-dir_of_printed by done.
  apply dir_name_last_index. destruct ds as [|d ds].
  - destruct abs; [by right|]. left. apply (ends_slash_notin [dot]).
    by intros ?%list_elem_of_singleton.
  - left. by apply print_ends_slash.
Qed.

Lemma dir_name_printed_slash abs ds :
  proper ds → GetDirName (print_path abs ds ++ [slash]) = print_path abs (removelast ds).
Proof.
  intros Hds. unfold GetDirName. rewrite <-dir_of_printed by done.
  by apply dir_name_slash, print_path_nonempty.
Qed.

Lemma dirpath_print ds : ds ≠ [] → dirpath ds = print_path true ds ++ [slash].
Proof. by destruct ds. Qed.

Lemma ends_slash_dirpath ds : EndsWithSlash (dirpath ds) = true.
Proof. unfold dirpath. by rewrite ends_slash_snoc, bool_decide_true. Qed.

Lemma ensure_slash_print ds :
  proper ds → EnsurePathEndsWithSlash (print_path true ds) = dirpath ds.
Proof.
  intros Hp. destruct ds as [|d ds]; [apply ensure_slash_id, ends_slash_root|].
  by apply ensure_slash_add, print_ends_slash.
Qed.

Lemma ensure_slash_dirpath ds : EnsurePathEndsWithSlash (dirpath ds) = dirpath ds.
Proof. apply ensure_slash_id, ends_slash_dirpath. Qed.

Lemma dir_name_dirpath ds :
  proper ds → GetDirNameInPlace (dirpath ds) = print_path true (removelast ds).
Proof.
  intros Hp. destruct ds as [|d ds]; [done|]. rewrite dirpath_print by done.
  by apply (dir_name_printed_slash true).
Qed.

Lemma print_path_length ds d : 1 < List.length (print_path true (d :: ds)) ↔ (d :: ds ≠ [[]]).
Proof.
  cbn [print_path]. rewrite join_abs_cons. destruct d as [|x d]; simpl; [|naive_solver lia].
  destruct ds; simpl; [naive_solver lia|]. rewrite ?join_abs_cons. simpl. naive_solver lia.
Qed.

(** Stripping a base name makes every path shorter, until one byte is left. *)
Lemma dir_name_shorter s :
  1 < List.length (GetDirNameInPlace (EnsurePathEndsWithSlash s)) →
  List.length (GetDirNameInPlace (EnsurePathEndsWithSlash s)) < List.length s.
Proof.
  assert (∀ q, 1 < List.length (GetDirNameInPlace (q ++ [slash])) →
            List.length (GetDirNameInPlace (q ++ [slash])) < List.length q) as Hq.
  { intros q. destruct q as [|x q]; [simpl; lia|]. rewrite dir_name_slash by done.
    destruct (last_index slash (x :: q)) as [[|pos]|] eqn:E; cbn [List.length]; [simpl; lia| |simpl; lia].
    apply last_index_Some in E as (a & b & Hab & _ & Hl). rewrite Hab.
    change (Datatypes.S (List.length q)) with (List.length (x :: q)). rewrite Hab.
    rewrite length_take, length_app. cbn [List.length]. lia. }
  unfold EnsurePathEndsWithSlash. destruct (EndsWithSlash s) eqn:E; simpl; [|apply Hq].
  apply ends_slash in E as [t ->]. rewrite length_app. simpl. intros Ht%Hq. lia.
Qed.

Lemma base_name_printed abs ds d :
  proper (ds ++ [d]) → GetBaseName (print_path abs (ds ++ [d])) = d.
Proof.
  intros [Hds Hd]%proper_app. inversion Hd as [|?? (Hs & ? & ?)]; subst.
  rewrite print_path_snoc. unfold GetBaseName.
  assert (∀ q, match last_index slash ((q ++ [slash]) ++ d) with
    | None => (q ++ [slash]) ++ d
    | Some pos => drop (Datatypes.S pos) ((q ++ [slash]) ++ d) end = d) as Hq.
  { intros q. rewrite <-app_assoc. simpl. rewrite last_index_sep by done.
    change (slash :: d) with ([slash] ++ d). rewrite app_assoc.
    apply drop_app_length'. rewrite length_app. simpl. lia. }
  destruct abs; [apply Hq|]. destruct ds as [|e ds]; [|apply Hq].
  simpl. by rewrite (proj2 (last_index_None slash d)).
Qed.

Lemma join_path_printed ds d :
  proper ds → JoinPath (print_path true ds) d = print_path true ds ++
    (match ds with [] => [] | _ => [slash] end) ++ d.
Proof.
  intros Hds. unfold JoinPath. destruct ds as [|e ds].
  - change (print_path true []) with [slash]. by rewrite ends_slash_root.
  - by rewrite print_ends_slash.
Qed.

Lemma remove_leading_slashes_spec r :
  ∃ n, r = replicate n slash ++ remove_leading_slashes r ∧
       (remove_leading_slashes r = [slash] ∨ head (remove_leading_slashes r) ≠ Some slash).
Proof.
  induction r as [|x r IH]; [exists 0; by split; [|right]|].
  cbn [remove_leading_slashes]. destruct r as [|y r].
  - exists 0. split; [done|]. destruct (decide (x = slash)); [left; by subst|right; naive_solver].
  - case_decide as Hx.
    + destruct IH as (n & Hn & IH). exists (Datatypes.S n). subst x.
      split; [|done]. rewrite Hn at 1. done.
    + exists 0. split; [done|]. right. naive_solver.
Qed.

(** [RemoveTrailingSlashes] strips slashes only, at the end only, and leaves
    none unless the path is the root; its assertion never fires. *)
Lemma remove_trailing_slashes_spec p :
  ∃ q n, RemoveTrailingSlashes p = Done q ∧ p = q ++ replicate n slash ∧
         (q = [slash] ∨ EndsWithSlash q = false).
Proof.
  destruct (remove_leading_slashes_spec (rev p)) as (n & Hn & Hq).
  set (q := rev (remove_leading_slashes (rev p))). exists q, n.
  assert (q = [slash] ∨ EndsWithSlash q = false) as Hq'.
  { subst q. destruct Hq as [->|Hq]; [by left|right].
    destruct (remove_leading_slashes (rev p)) as [|x r]; [apply ends_slash_nil|].
    simpl. rewrite ends_slash_snoc. apply bool_decide_false. naive_solver. }
  split_and!; [| |done].
  - unfold RemoveTrailingSlashes. fold q. cbv zeta.
    destruct Hq' as [->| ->]; [done|]. by rewrite orb_true_r.
  - rewrite <-(rev_involutive p), Hn, rev_app_distr. fold q. f_equal.
    clear. induction n as [|n IH]; [done|]. simpl. rewrite IH.
    by rewrite <-replicate_cons_app.
Qed.

Lemma remove_trailing_slashes_id p :
  p = [slash] ∨ EndsWithSlash p = false → RemoveTrailingSlashes p = Done p.
Proof.
  intros Hp. unfold RemoveTrailingSlashes.
  assert (remove_leading_slashes (rev p) = rev p) as ->.
  { destruct Hp as [->|Hp]; [done|]. destruct p as [|x p _] using rev_ind; [done|].
    rewrite ends_slash_snoc, bool_decide_eq_false in Hp. rewrite rev_app_distr. simpl.
    destruct (rev p); [done|]. by rewrite decide_False. }
  rewrite rev_involutive. destruct Hp as [->| ->]; [done|]. by rewrite orb_true_r.
Qed.
End Proofs.

#[export] Hint Rewrite @ends_slash_snoc @ends_slash_nil @abs_slash using typeclasses eauto : path.

(* -------------------------------------------------------------------- *)
(** * Properties *)

Section Properties.
Context `{BaseStringsSpec}.

(** on every non-empty path the fast path and the component loop of
    [RemoveSingleDotsAndRedundantSlashes] compute the same thing, the path with
    exactly its components (no ["."], no empty component, no slash at the end
    but for the root), except that a debug build aborts on a relative path of
    one one-byte component with anything to remove (["a/"], ["./a"]): the
    guards [length() > 2U] leave its slash, and the post condition fails. *)
Theorem remove_single_dots_correct p :
  clean p → p ≠ [] →
  RemoveSingleDotsAndRedundantSlashes p =
  if one_byte_relative p then Abort else Done (canonical p).
Proof. apply canonical_or_abort. Qed.

(** [GetDirName] drops the last component, with or without a slash at the
    end, and gives ["/"] and ["."] when there is none left; joining it with
    [GetBaseName] by [JoinPath] gives an absolute path back. *)
Theorem dir_name_base_name_roundtrip abs ds :
  proper ds →
  GetDirName (print_path abs ds) = print_path abs (removelast ds) ∧
  GetDirName (print_path abs ds ++ lit "/") = print_path abs (removelast ds) ∧
  (ds ≠ [] → let p := print_path true ds in JoinPath (GetDirName p) (GetBaseName p) = p).
Proof.
  intros Hds. split_and!; [by apply dir_name_printed|by apply dir_name_printed_slash|].
  intros Hne p. subst p. rewrite dir_name_printed by done.
  destruct ds as [|d ds _] using rev_ind; [done|]. rewrite removelast_last, base_name_printed by done.
  apply proper_app in Hds as [Hds _]. rewrite join_path_printed, print_path_snoc by done.
  rewrite app_assoc. f_equal. by destruct ds.
Qed.
End Properties.

Section Witnesses.
Import Reference.

Lemma remove_single_dots_correct_witness :
  RemoveSingleDotsAndRedundantSlashes "/a/.//b/" = Done (lit "/a/b") ∧
  RemoveSingleDotsAndRedundantSlashes "./a" = Abort.
Proof.
  split.
  - rewrite (remove_single_dots_correct "/a/.//b/"); [reflexivity|decided|done].
  - rewrite (remove_single_dots_correct "./a"); [reflexivity|decided|done].
Defined.

Lemma dir_name_base_name_roundtrip_witness :
  GetDirName "/usr/lib" = lit "/usr" ∧ GetDirName "/usr/lib/" = lit "/usr" ∧
  JoinPath (GetDirName "/usr/lib") (GetBaseName "/usr/lib") = lit "/usr/lib".
Proof.
  destruct (dir_name_base_name_roundtrip true [lit "usr"; lit "lib"]) as (H1 & H2 & H3);
    [decided|].
  split_and!; [exact H1|exact H2|apply H3; done].
Defined.
End Witnesses.
