(* ===== verification/DirectoryManager.v ===== *)
(** * DirectoryManager: [directory_manager.{h,cc}], [dir.h], [getdents] of
    [directory_file_stream.cc] (under src/posix_translation/)

    The manager is the map [dir_to_files_] from a directory name with a slash at
    its end to the files in it.  [DirImpl] is the cursor that [opendir] gives,
    and [getdents] the loop that reads it. *)

From S2P Require Import Prelude BaseStrings PathUtil.

(** [Dir::Type]: DT_REG, DT_DIR, DT_LNK. *)
Inductive Dir_Type : Type := REGULAR | DIRECTORY | SYMLINK.

#[export] Instance Dir_Type_eq_dec : EqDecision Dir_Type.
Proof. solve_decision. Defined.

(** The values of <dirent.h>. *)
Definition Dir_Type_code (t : Dir_Type) : nat :=
  match t with REGULAR => 8 | DIRECTORY => 4 | SYMLINK => 10 end.

Abbreviation FilesInDir := (gmap str Dir_Type).
Abbreviation DirMap := (gmap str FilesInDir).

(** ** The directory cursor *)

Record DirImpl : Type := mkDirImpl {
  dirname_ : str;
  files_ : list (str * Dir_Type);
  pos_ : nat;
}.

Record dirent : Type := mkDirent {
  d_ino : Z;
  d_off : nat;
  d_type : Dir_Type;
  d_name : str;
}.

(** [operator<] of [std::pair<std::string, Dir::Type>], as a total order. *)
Definition entry_le (a b : str * Dir_Type) : Prop :=
  if decide (a.1 = b.1) then Dir_Type_code a.2 ≤ Dir_Type_code b.2
  else str_ltb a.1 b.1 = true.

#[export] Instance entry_le_dec a b : Decision (entry_le a b).
Proof. unfold entry_le. destruct (decide (a.1 = b.1)); apply _. Defined.

Section Dir.
Context `{BaseStrings}.

Definition DirImpl_new (dirname : str) (files : FilesInDir) : DirImpl :=
  {| dirname_ := EnsurePathEndsWithSlash dirname;
     files_ := (lit "./", DIRECTORY) :: (lit "../", DIRECTORY) ::
               merge_sort entry_le (map_to_list files);
     pos_ := 0 |}.

Definition sizeof_d_name : nat := 256.

(** [GetNext]: [false] at the end; [inode] is the pair of virtual file system
    calls that number the entry ([GetNormalizedPathLocked] with
    [kResolveParentSymlinks], then [GetInodeUncheckedLocked]). *)
Definition GetNext {W} (inode : str → St W Z) : St (DirImpl * W) (option dirent) := λ st,
  let d := st.1 in
  match files_ d !! pos_ d with
  | None => Done (None, st)
  | Some (name, type) =>
      match inode (dirname_ d ++ name) st.2 with
      | Done (ino, w) =>
          let ends := EndsWithSlash name in
          require (if ends then bool_decide (type = DIRECTORY)
                   else bool_decide (type ≠ DIRECTORY)) ≫= λ _,
          let name := if ends then take (List.length name - 1) name else name in
          let len := Nat.min (sizeof_d_name - 1) (List.length name) in
          let entry := {| d_ino := ino; d_off := pos_ d; d_type := type;
                          d_name := take len name |} in
          Done (Some entry,
                ({| dirname_ := dirname_ d; files_ := files_ d;
                    pos_ := Datatypes.S (pos_ d) |}, w))
      | Abort => Abort
      | NoFuel => NoFuel
      end
  end.

Definition rewinddir (d : DirImpl) : DirImpl :=
  {| dirname_ := dirname_ d; files_ := files_ d; pos_ := 0 |}.

(** [std::lower_bound] with [CompareFirst]: halving [first, first + len). *)
Definition lower_bound_step (files : list (str * Dir_Type)) (name : str)
    (range : nat * nat) : nat * nat + nat :=
  let '(first, len) := range in
  if Nat.eqb len 0 then inr first
  else
    let half := Nat.div2 len in
    let mid := first + half in
    match files !! mid with
    | Some (n, _) =>
        if str_ltb n name then inl (Datatypes.S mid, len - half - 1)
        else inl (first, half)
    | None => inr first
    end.

Definition lower_bound (files : list (str * Dir_Type)) (name : str) : outcome nat :=
  loop (Datatypes.S (List.length files)) (lower_bound_step files name)
       (0, List.length files).

Definition Add (name : str) (type : Dir_Type) (d : DirImpl) : outcome DirImpl :=
  require (Nat.eqb (pos_ d) 0) ≫= λ _,
  lower_bound (files_ d) name ≫= λ it,
  let files :=
    match files_ d !! it with
    | Some (first, _) =>
        if bool_decide (first = name) then <[it := (first, type)]> (files_ d)
        else take it (files_ d) ++ (name, type) :: drop it (files_ d)
    | None => take it (files_ d) ++ (name, type) :: drop it (files_ d)
    end in
  mret {| dirname_ := dirname_ d; files_ := files; pos_ := pos_ d |}.

(** The entry loop of [DirectoryFileStream::getdents]: at most [n] entries. *)
Fixpoint getdents_loop {W} (inode : str → St W Z) (n : nat) : St (DirImpl * W) (list dirent) :=
  match n with
  | O => mret []
  | Datatypes.S n' =>
      e ← GetNext inode;
      match e with
      | None => mret []
      | Some e => es ← getdents_loop inode n'; mret (e :: es)
      end
  end.

(** [DirectoryFileStream::getdents]: [contents_] is opened on the first call by
    the handler's [OnDirectoryContentsNeeded]. *)
Definition getdents {W} (sizeof_dirent : nat) (OnDirectoryContentsNeeded : St W (option DirImpl))
    (inode : str → St W Z) (count_bytes : nat) :
    St (option DirImpl * W) (res (list dirent)) := λ st,
  let '(contents_, w) := st in
  match (match contents_ with
         | Some d => Done (Some d, w)
         | None => OnDirectoryContentsNeeded w
         end) with
  | Done (None, w) => Done (Err ENOENT, (None, w))
  | Done (Some d, w) =>
      let count_entries := count_bytes `div` sizeof_dirent in
      if Nat.ltb count_entries 1 then Done (Err EINVAL, (Some d, w))
      else
        match getdents_loop inode count_entries (d, w) with
        | Done (es, (d', w')) => Done (Ok es, (Some d', w'))
        | Abort => Abort
        | NoFuel => NoFuel
        end
  | Abort => Abort
  | NoFuel => NoFuel
  end.
End Dir.

(** ** The manager *)

Section Manager.
Context `{BaseStrings}.

Definition GetFilesInDir (directory : str) : St DirMap (option FilesInDir) :=
  check (bool_decide (directory = []) || EndsWithSlash directory);;
  gets (lookup directory).

(** Splits "/path/to/file" into a pair of "/path/to/" and "file". *)
Definition SplitPath (pathname : str) : outcome (str * str) :=
  if bool_decide (pathname = []) then mret ([], [])
  else if negb (contains slash pathname) then mret ([], pathname)
  else if EndsWithSlash pathname then mret (pathname, [])
  else
    let paths := SplitString pathname slash in
    let file := List.last paths [] in
    let paths := removelast paths in
    require (bool_decide (paths ≠ [])) ≫= λ _,
    mret (JoinString paths slash ++ lit "/", file).

Definition StatDirectory (dirname : str) : St DirMap bool :=
  let dirname_slash := EnsurePathEndsWithSlash dirname in
  gets (λ m, bool_decide (is_Some (m !! dirname_slash))).

Definition StatFile (pathname : str) : St DirMap bool :=
  if EndsWithSlash pathname then mret false
  else
    dir_and_file ← lift (SplitPath pathname);
    files ← GetFilesInDir dir_and_file.1;
    match files with
    | None => mret false
    | Some files => mret (bool_decide (is_Some (files !! dir_and_file.2)))
    end.

(** [insert] of a hash map: does nothing when the key is there. *)
Definition MakeDirectory (dirname : str) : St DirMap bool :=
  if negb (EndsWithSlash dirname) then mret false
  else
    m ← get;
    match m !! dirname with
    | Some _ => mret false
    | None => put (<[dirname := ∅]> m);; mret true
    end.

Definition AddFileInternal (directory filename : str) (type : Dir_Type) : St DirMap bool :=
  exists_ ← StatDirectory directory;
  check exists_;;
  files ← GetFilesInDir directory;
  match files with
  | None => λ _, Abort
  | Some files =>
      match files !! filename with
      | Some _ => mret false
      | None => modify (insert directory (<[filename := type]> files));; mret true
      end
  end.

Fixpoint make_directories_loop (paths : list str) (current_path : str) : St DirMap unit :=
  match paths with
  | [] => mret tt
  | p :: paths' =>
      if bool_decide (p = []) then make_directories_loop paths' current_path
      else
        AddFileInternal current_path (p ++ lit "/") DIRECTORY;;
        let current_path := current_path ++ p ++ lit "/" in
        MakeDirectory current_path;;
        make_directories_loop paths' current_path
  end.

Definition MakeDirectories (dirname : str) : St DirMap unit :=
  let dirname_slash := EnsurePathEndsWithSlash dirname in
  make_directories_loop (SplitString dirname_slash slash) "/".

Definition Clear : St DirMap unit :=
  put ∅;; MakeDirectory "/";; mret tt.

Definition AddFileWithType (pathname : str) (type : Dir_Type) : St DirMap bool :=
  if negb (IsAbsolutePath pathname) then mret false
  else if EndsWithSlash pathname then mret false
  else
    is_dir ← StatDirectory pathname;
    if (is_dir : bool) then mret false
    else
      dir_and_file ← lift (SplitPath pathname);
      has_dir ← StatDirectory dir_and_file.1;
      (if (has_dir : bool) then mret tt else MakeDirectories dir_and_file.1);;
      AddFileInternal dir_and_file.1 dir_and_file.2 type.

Definition AddFile (pathname : str) : St DirMap bool := AddFileWithType pathname REGULAR.

Definition RemoveFile (pathname : str) : St DirMap bool :=
  if EndsWithSlash pathname then mret false
  else
    dir_and_file ← lift (SplitPath pathname);
    files ← GetFilesInDir dir_and_file.1;
    match files with
    | None => mret false
    | Some files =>
        modify (insert dir_and_file.1 (delete dir_and_file.2 files));;
        mret (bool_decide (is_Some (files !! dir_and_file.2)))
    end.

Definition RemoveDirectory (dirname : str) : St DirMap bool :=
  if bool_decide (dirname = lit "/") then mret false
  else
    let dirname_slash := EnsurePathEndsWithSlash dirname in
    files ← GetFilesInDir dirname_slash;
    match files with
    | None => mret false
    | Some files =>
        if negb (bool_decide (files = ∅)) then mret false
        else
          m ← get;
          put (delete dirname_slash m);;
          check (bool_decide (is_Some (m !! dirname_slash)));;
          let parent_slash := EnsurePathEndsWithSlash (GetDirName dirname_slash) in
          parent ← GetFilesInDir parent_slash;
          match parent with
          | None => λ _, Abort
          | Some parent =>
              let name := drop (List.length parent_slash) dirname_slash in
              modify (insert parent_slash (delete name parent));;
              check (bool_decide (is_Some (parent !! name)));;
              mret true
          end
    end.

Definition OpenDirectory (dirname : str) : St DirMap (res DirImpl) :=
  is_file ← StatFile dirname;
  if (is_file : bool) then mret (Err ENOTDIR)
  else
    let dirname_slash := EnsurePathEndsWithSlash dirname in
    files ← GetFilesInDir dirname_slash;
    match files with
    | None => mret (Err ENOENT)
    | Some files => mret (Ok (DirImpl_new dirname_slash files))
    end.
End Manager.

(* -------------------------------------------------------------------- *)
(** * The abstract directory tree *)

Implicit Types ds es p : list str.
Implicit Types m : DirMap.

(** Paths as component lists.  [okpath]: what the callers hand the manager, the
    components of a normalized path; trimmed, because [SplitString] trims. *)
Definition okpath (ds : list str) : Prop :=
  proper ds ∧ Forall (λ d, trimmed d = true) ds.

#[export] Instance okpath_dec ds : Decision (okpath ds).
Proof. unfold okpath. apply _. Defined.

Record FS : Type := mkFS {
  dirs : gset (list str);
  files : gmap (list str) Dir_Type;
}.

Definition child (ds e : list str) : Prop := e ≠ [] ∧ removelast e = ds.

#[export] Instance child_dec ds e : Decision (child ds e).
Proof. unfold child. apply _. Defined.

(** [base] and its extensions by the prefixes of [ds]. *)
Fixpoint prefixes_from (base ds : list str) : list (list str) :=
  base :: match ds with [] => [] | d :: ds' => prefixes_from (base ++ [d]) ds' end.

Definition fs_empty : FS := {| dirs := {[ [] ]}; files := ∅ |}.

Definition fs_make_dirs (ds : list str) (fs : FS) : FS :=
  {| dirs := dirs fs ∪ list_to_set (prefixes_from [] ds); files := files fs |}.

Definition fs_add_file (p : list str) (t : Dir_Type) (fs : FS) : bool * FS :=
  if bool_decide (p ∈ dirs fs) then (false, fs)
  else
    let fs := fs_make_dirs (removelast p) fs in
    match files fs !! p with
    | Some _ => (false, fs)
    | None => (true, {| dirs := dirs fs; files := <[p := t]> (files fs) |})
    end.

Definition fs_remove_file (p : list str) (fs : FS) : bool * FS :=
  (bool_decide (is_Some (files fs !! p)),
   {| dirs := dirs fs; files := delete p (files fs) |}).

Definition fs_is_empty_dir (ds : list str) (fs : FS) : bool :=
  bool_decide (set_Forall (λ e, ¬ child ds e) (dirs fs)) &&
  bool_decide (map_Forall (λ e _, ¬ child ds e) (files fs)).

Definition fs_remove_dir (ds : list str) (fs : FS) : bool * FS :=
  if bool_decide (ds ≠ []) && bool_decide (ds ∈ dirs fs) && fs_is_empty_dir ds fs
  then (true, {| dirs := dirs fs ∖ {[ ds ]}; files := files fs |})
  else (false, fs).

(** What a directory listing holds. *)
Definition listed (fs : FS) (ds : list str) (n : str) (t : Dir_Type) : Prop :=
  (t = DIRECTORY ∧ ∃ x, n = x ++ [slash] ∧ ds ++ [x] ∈ dirs fs) ∨
  files fs !! (ds ++ [n]) = Some t.

Record fs_ok (fs : FS) : Prop := {
  ok_root : [] ∈ dirs fs;
  ok_dirs : ∀ ds, ds ∈ dirs fs → okpath ds;
  ok_parent : ∀ ds x, ds ++ [x] ∈ dirs fs → ds ∈ dirs fs;
  ok_files : ∀ p t, files fs !! p = Some t → okpath p ∧ t ≠ DIRECTORY;
  ok_fparent : ∀ p t, files fs !! p = Some t → p ≠ [] ∧ removelast p ∈ dirs fs;
}.

(** The hash map represents the tree. *)
Record repr (m : DirMap) (fs : FS) : Prop := {
  repr_ok : fs_ok fs;
  repr_key : ∀ d, is_Some (m !! d) ↔ ∃ ds, ds ∈ dirs fs ∧ d = dirpath ds;
  repr_list : ∀ ds l n t, m !! dirpath ds = Some l → okpath ds →
    l !! n = Some t ↔ listed fs ds n t;
}.

(** The calls a client makes, with normalized paths, and what they do to the
    tree. *)
Inductive dm_op : Type :=
| OpClear
| OpAddFile (p : list str) (t : Dir_Type)
| OpMakeDirectories (ds : list str)
| OpRemoveFile (p : list str)
| OpRemoveDirectory (ds : list str)
| OpStatFile (p : list str)
| OpStatDirectory (ds : list str).

Definition op_ok (o : dm_op) : Prop :=
  match o with
  | OpClear => True
  | OpAddFile p t => okpath p ∧ p ≠ [] ∧ t ≠ DIRECTORY
  | OpRemoveFile p | OpStatFile p => okpath p ∧ p ≠ []
  | OpMakeDirectories ds | OpRemoveDirectory ds | OpStatDirectory ds => okpath ds
  end.

#[export] Instance op_ok_dec o : Decision (op_ok o).
Proof. destruct o; simpl; apply _. Defined.

Definition spec_op (o : dm_op) (fs : FS) : bool * FS :=
  match o with
  | OpClear => (true, fs_empty)
  | OpAddFile p t => fs_add_file p t fs
  | OpMakeDirectories ds => (true, fs_make_dirs ds fs)
  | OpRemoveFile p => fs_remove_file p fs
  | OpRemoveDirectory ds => fs_remove_dir ds fs
  | OpStatFile p => (bool_decide (is_Some (files fs !! p)), fs)
  | OpStatDirectory ds => (bool_decide (ds ∈ dirs fs), fs)
  end.

Fixpoint spec_ops (os : list dm_op) (fs : FS) : list bool * FS :=
  match os with
  | [] => ([], fs)
  | o :: os =>
      let '(b, fs) := spec_op o fs in
      let '(bs, fs) := spec_ops os fs in (b :: bs, fs)
  end.

Definition run_op `{BaseStrings} (o : dm_op) : St DirMap bool :=
  match o with
  | OpClear => Clear;; mret true
  | OpAddFile p t => AddFileWithType (filepath p) t
  | OpMakeDirectories ds => MakeDirectories (print_path true ds);; mret true
  | OpRemoveFile p => RemoveFile (filepath p)
  | OpRemoveDirectory ds => RemoveDirectory (print_path true ds)
  | OpStatFile p => StatFile (filepath p)
  | OpStatDirectory ds => StatDirectory (print_path true ds)
  end.

Fixpoint run_ops `{BaseStrings} (os : list dm_op) : St DirMap (list bool) :=
  match os with
  | [] => mret []
  | o :: os => b ← run_op o; bs ← run_ops os; mret (b :: bs)
  end.

(** Names in increasing order. *)
Definition by_name (a b : str * Dir_Type) : Prop := str_ltb a.1 b.1 = true.

(** What an open directory shows of [l]: the two dots, then [l] by name. *)
Definition shows (d : DirImpl) (l : FilesInDir) : Prop :=
  ∃ l1 : list (str * Dir_Type), files_ d = (lit "./", DIRECTORY) :: (lit "../", DIRECTORY) :: l1 ∧
        StronglySorted by_name l1 ∧ ∀ n t, (n, t) ∈ l1 ↔ l !! n = Some t.

(** Successive [getdents] calls of one stream with buffers of [ks] bytes. *)
Fixpoint getdents_calls {W} `{BaseStrings} (sizeof_dirent : nat) (open : St W (option DirImpl))
    (inode : str → St W Z) (ks : list nat) :
    St (option DirImpl * W) (list (res (list dirent))) :=
  match ks with
  | [] => mret []
  | k :: ks =>
      r ← getdents sizeof_dirent open inode k;
      rs ← getdents_calls sizeof_dirent open inode ks;
      mret (r :: rs)
  end.

(** The name and type that [getdents] reports for a cursor entry. *)
Definition reported (e : str * Dir_Type) : str * Dir_Type :=
  (take 255 (if bool_decide (e.2 = DIRECTORY) then take (List.length e.1 - 1) e.1 else e.1), e.2).

(** An entry is a directory exactly when its name ends with a slash. *)
Definition well_typed (e : str * Dir_Type) : bool :=
  Bool.eqb (bool_decide (List.last e.1 " "%char = slash)) (bool_decide (e.2 = DIRECTORY)).

(* -------------------------------------------------------------------- *)
(** * Proofs *)

Lemma okpath_app ds es : okpath (ds ++ es) ↔ okpath ds ∧ okpath es.
Proof. unfold okpath, proper. rewrite !Forall_app. tauto. Qed.

Lemma okpath_snoc ds x :
  okpath (ds ++ [x]) ↔ okpath ds ∧ slash ∉ x ∧ x ≠ lit "." ∧ x ≠ [] ∧ trimmed x = true.
Proof.
  rewrite okpath_app. unfold okpath, proper. rewrite !Forall_singleton. tauto.
Qed.

Lemma okpath_noslash ds : okpath ds → Forall (λ d, slash ∉ d) ds.
Proof. intros [Hp _]. eapply Forall_impl; [exact Hp|naive_solver]. Qed.

Lemma split_filepath p : okpath p → split_on slash (filepath p) = [] :: p.
Proof. intros Hp. by apply split_join_abs, okpath_noslash. Qed.

Lemma split_dirpath ds : okpath ds → split_on slash (dirpath ds) = [] :: ds ++ [[]].
Proof. intros [Hp _]. by apply split_dirpath_proper. Qed.

Lemma dirpath_inj ds es : okpath ds → okpath es → dirpath ds = dirpath es → ds = es.
Proof. intros [Hd _] [He _]. by apply dirpath_inj_proper. Qed.

Lemma dirpath_snoc ds x : dirpath (ds ++ [x]) = dirpath ds ++ x ++ [slash].
Proof.
  unfold dirpath. rewrite join_abs_app, <-!app_assoc. simpl. by rewrite app_nil_r.
Qed.

Lemma dirpath_snoc_ne ds x : dirpath ds ≠ dirpath (ds ++ [x]).
Proof.
  rewrite dirpath_snoc. intros H. apply (f_equal List.length) in H.
  rewrite !length_app in H. simpl in H. lia.
Qed.

Lemma clean_pieces s ps :
  split_on slash s = [] :: ps → Forall (λ d, trimmed d = true) ps → clean s.
Proof. intros H Hp. unfold clean. rewrite H. by constructor. Qed.

Lemma clean_filepath p : okpath p → clean (filepath p).
Proof. intros Hp. eapply clean_pieces; [by apply split_filepath|apply Hp]. Qed.

Lemma clean_dirpath ds : okpath ds → clean (dirpath ds).
Proof.
  intros Hp. eapply clean_pieces; [by apply split_dirpath|].
  apply Forall_app. split; [apply Hp|by repeat constructor].
Qed.

Lemma removelast_snoc {A} (l : list A) x : removelast (l ++ [x]) = l.
Proof. apply removelast_last. Qed.

Lemma child_snoc ds e : child ds e ↔ ∃ x, e = ds ++ [x].
Proof.
  unfold child. split.
  - intros [Hne Hr]. destruct e as [|x e _] using rev_ind; [done|].
    rewrite removelast_last in Hr. subst. eauto.
  - intros [x ->]. rewrite removelast_last. split; [by destruct ds|done].
Qed.

(** A listing tells files and directories apart by the slash. *)
Lemma listed_slash fs ds x t :
  fs_ok fs → listed fs ds (x ++ [slash]) t ↔ t = DIRECTORY ∧ ds ++ [x] ∈ dirs fs.
Proof.
  intros Hok. unfold listed. split.
  - intros [[-> (y & Hy & Hin)]|Hf].
    + apply app_inj_tail in Hy as [-> _]. done.
    + apply (ok_files _ Hok) in Hf as [Hf _]. apply okpath_snoc in Hf. set_solver.
  - intros [-> ?]. left. eauto.
Qed.

Lemma listed_noslash fs ds n t :
  slash ∉ n → listed fs ds n t ↔ files fs !! (ds ++ [n]) = Some t.
Proof.
  intros Hn. unfold listed. split; [|by right].
  intros [[_ (y & -> & _)]|?]; [set_solver|done].
Qed.

Section Proofs.
Context `{BaseStringsSpec}.

(** ** Names *)

Lemma ends_dirpath ds : EndsWithSlash (dirpath ds) = true.
Proof. unfold dirpath. by rewrite ends_slash_snoc, bool_decide_true. Qed.

Lemma ends_filepath p : okpath p → EndsWithSlash (filepath p) = false.
Proof.
  intros [Hp _]. destruct p as [|d p]; [apply ends_slash_nil|].
  by apply (print_ends_slash true (d :: p)).
Qed.

Lemma ensure_dirpath ds : EnsurePathEndsWithSlash (dirpath ds) = dirpath ds.
Proof. apply ensure_slash_id, ends_dirpath. Qed.

Lemma ensure_filepath p : okpath p → EnsurePathEndsWithSlash (filepath p) = dirpath p.
Proof. intros Hp. by apply ensure_slash_add, ends_filepath. Qed.

Lemma split_string_dirpath ds :
  okpath ds → SplitString (dirpath ds) slash = [] :: ds ++ [[]].
Proof.
  intros Hp. rewrite SplitString_spec; [by apply split_dirpath| |by apply clean_dirpath].
  unfold dirpath. by destruct (join_abs slash ds).
Qed.

Lemma split_path_spec ds f :
  okpath (ds ++ [f]) → SplitPath (filepath (ds ++ [f])) = Done (dirpath ds, f).
Proof.
  intros Hp. unfold SplitPath.
  assert (filepath (ds ++ [f]) ≠ []) as Hne
    by (unfold filepath; rewrite join_abs_app; by destruct (join_abs slash ds)).
  rewrite bool_decide_false by done.
  assert (contains slash (filepath (ds ++ [f])) = true) as ->.
  { apply contains_spec. unfold filepath. rewrite join_abs_app. simpl. set_solver. }
  rewrite ends_filepath by done. cbn [negb].
  rewrite SplitString_spec, split_filepath by (done || by apply clean_filepath).
  rewrite app_comm_cons, List.last_last, removelast_last, JoinString_spec.
  rewrite bool_decide_true, require_true by done.
  assert (join_with slash ([] :: ds) = join_abs slash ds) as ->; [|done].
  destruct ds; [done|]. by rewrite join_abs_join, join_cons.
Qed.

Lemma parent_dirpath ds x :
  okpath (ds ++ [x]) →
  EnsurePathEndsWithSlash (GetDirName (dirpath (ds ++ [x]))) = dirpath ds.
Proof.
  intros Hp. pose proof Hp as [Hds _]%okpath_app.
  assert (dirpath (ds ++ [x]) = print_path true (ds ++ [x]) ++ [slash]) as ->
    by (unfold dirpath, print_path; by destruct ds).
  rewrite dir_name_printed_slash by apply Hp. rewrite removelast_last.
  destruct ds as [|d ds]; [|by apply (ensure_filepath (d :: ds))].
  apply ensure_slash_id, ends_slash_root.
Qed.

Lemma ensure_printed ds : okpath ds → EnsurePathEndsWithSlash (print_path true ds) = dirpath ds.
Proof.
  destruct ds; [intros _; apply ensure_slash_id, ends_slash_root|apply ensure_filepath].
Qed.

(** ** Runs of the operations *)

Lemma get_files_spec ds (m : DirMap) : GetFilesInDir (dirpath ds) m = Done (m !! dirpath ds, m).
Proof. unfold GetFilesInDir. rewrite ends_dirpath, orb_true_r. done. Qed.

Lemma stat_directory_spec m fs s ds :
  repr m fs → okpath ds → EnsurePathEndsWithSlash s = dirpath ds →
  StatDirectory s m = Done (bool_decide (ds ∈ dirs fs), m).
Proof.
  intros Hr Hds Hs. unfold StatDirectory, gets. rewrite Hs. do 2 f_equal.
  apply bool_decide_ext. rewrite (repr_key _ _ Hr). split; [|by eauto].
  intros (es & Hes & Heq). apply dirpath_inj in Heq as ->; [done|done|].
  by apply (ok_dirs _ (repr_ok _ _ Hr)).
Qed.

Lemma repr_lookup m fs ds :
  repr m fs → okpath ds → ds ∈ dirs fs → ∃ l, m !! dirpath ds = Some l.
Proof. intros Hr Hds Hin. apply (repr_key _ _ Hr). eauto. Qed.

Lemma repr_lookup_None m fs ds :
  repr m fs → okpath ds → ds ∉ dirs fs → m !! dirpath ds = None.
Proof.
  intros Hr Hds Hin. apply eq_None_not_Some. rewrite (repr_key _ _ Hr).
  intros (es & Hes & Heq). apply dirpath_inj in Heq as ->; [done|done|].
  by apply (ok_dirs _ (repr_ok _ _ Hr)).
Qed.

Lemma add_file_internal_spec m ds l n t :
  m !! dirpath ds = Some l →
  AddFileInternal (dirpath ds) n t m =
  Done (match l !! n with Some _ => false | None => true end,
        match l !! n with Some _ => m | None => <[dirpath ds := <[n := t]> l]> m end).
Proof.
  intros Hl. unfold AddFileInternal. mon. unfold StatDirectory. mon.
  rewrite ensure_dirpath, Hl. rewrite bool_decide_true by eauto.
  rewrite get_files_spec, Hl. by destruct (l !! n).
Qed.

Lemma make_directory_spec m ds :
  MakeDirectory (dirpath ds) m =
  Done (match m !! dirpath ds with Some _ => false | None => true end,
        match m !! dirpath ds with Some _ => m | None => <[dirpath ds := ∅]> m end).
Proof.
  unfold MakeDirectory. rewrite ends_dirpath. cbn [negb]. mon. by destruct (m !! dirpath ds).
Qed.

(** ** Representation changes *)

Lemma not_child_files fs ds x p t :
  fs_ok fs → ds ++ [x] ∉ dirs fs → files fs !! (ds ++ [x] ++ p) = Some t → p = [].
Proof.
  intros Hok Hx Hf. destruct p as [|y p _] using rev_ind; [done|]. exfalso.
  apply (ok_fparent _ Hok) in Hf as [_ Hf].
  rewrite !app_assoc, removelast_last in Hf.
  induction p as [|z p IH] using rev_ind; [by rewrite app_nil_r in Hf|].
  apply IH. rewrite app_assoc in Hf. by apply (ok_parent _ Hok) in Hf.
Qed.

Lemma fs_ok_add_dir fs ds x :
  fs_ok fs → okpath (ds ++ [x]) → ds ∈ dirs fs →
  fs_ok {| dirs := dirs fs ∪ {[ ds ++ [x] ]}; files := files fs |}.
Proof.
  intros Hok Hx Hds. split; simpl.
  - pose proof (ok_root _ Hok). set_solver.
  - intros es [?| ->%elem_of_singleton]%elem_of_union; [by apply (ok_dirs _ Hok)|done].
  - intros es y [He|He%elem_of_singleton]%elem_of_union.
    + apply (ok_parent _ Hok) in He. set_solver.
    + apply app_inj_tail in He as [-> _]. set_solver.
  - apply (ok_files _ Hok).
  - intros p t Hp. apply (ok_fparent _ Hok) in Hp as [? ?]. set_solver.
Qed.

Lemma repr_add_dir m fs ds x l :
  repr m fs → okpath (ds ++ [x]) → m !! dirpath ds = Some l → ds ∈ dirs fs →
  ds ++ [x] ∉ dirs fs →
  repr (<[dirpath (ds ++ [x]) := ∅]> (<[dirpath ds := <[x ++ [slash] := DIRECTORY]> l]> m))
       {| dirs := dirs fs ∪ {[ ds ++ [x] ]}; files := files fs |}.
Proof.
  intros Hr Hx Hl Hds Hnx. pose proof (repr_ok _ _ Hr) as Hok.
  pose proof (proj1 (okpath_app _ _) Hx) as [Hdsok _].
  split; [by apply fs_ok_add_dir| |]; simpl.
  - intros d. rewrite !lookup_insert. case_decide as E1; [|case_decide as E2].
    + split; [|eauto]. intros _. exists (ds ++ [x]). split; [set_solver|done].
    + split; [|eauto]. intros _. exists ds. split; [set_solver|done].
    + rewrite (repr_key _ _ Hr). set_solver.
  - intros es l' n t Hl' Hes. rewrite !lookup_insert in Hl'.
    case_decide as E1; [|case_decide as E2].
    + apply dirpath_inj in E1 as <-; [|done|done]. injection Hl' as <-.
      rewrite lookup_empty. split; [done|]. intros [(-> & y & -> & Hy)|Hf]; simpl in *.
      * apply elem_of_union in Hy as [Hy|Hy%elem_of_singleton].
        -- by apply (ok_parent _ Hok) in Hy.
        -- by apply (f_equal List.length) in Hy; rewrite !length_app in Hy; simpl in Hy; lia.
      * rewrite <-app_assoc in Hf. by apply (not_child_files fs ds x [n]) in Hf.
    + apply dirpath_inj in E2 as <-; [|done|done]. injection Hl' as <-.
      rewrite lookup_insert. case_decide as E3.
      * subst n. split; [intros [= <-]|].
        -- left. split; [done|]. exists x. set_solver.
        -- intros [[-> _]|Hf]; [done|]. simpl in Hf.
           apply (ok_files _ Hok) in Hf as [Hf _]. apply okpath_snoc in Hf. set_solver.
      * rewrite (repr_list _ _ Hr) by done. unfold listed. simpl. split.
        -- intros [(-> & y & -> & Hy)|Hf]; [left|by right]. split; [done|]. exists y. set_solver.
        -- intros [(-> & y & -> & Hy)|Hf]; [|by right].
           apply elem_of_union in Hy as [Hy|Hy%elem_of_singleton]; [left; eauto|].
           by apply app_inj_tail in Hy as [_ ->].
    + rewrite (repr_list _ _ Hr) by done. unfold listed. simpl. split.
      * intros [(-> & y & -> & Hy)|Hf]; [left|by right]. split; [done|]. exists y. set_solver.
      * intros [(-> & y & -> & Hy)|Hf]; [|by right].
        apply elem_of_union in Hy as [Hy|Hy%elem_of_singleton]; [left; eauto|].
        apply app_inj_tail in Hy as [-> _]. done.
Qed.

(** ** The operations implement the tree *)

Lemma prefixes_from_elem base ds e :
  e ∈ prefixes_from base ds ↔ ∃ qs, qs `prefix_of` ds ∧ e = base ++ qs.
Proof.
  revert base. induction ds as [|d ds IH]; intros base; simpl; rewrite elem_of_cons.
  - split.
    + intros [->|?%elem_of_nil]; [|done]. exists []. by rewrite app_nil_r.
    + intros (qs & Hqs%prefix_nil_inv & ->). subst. left. by rewrite app_nil_r.
  - rewrite IH. split.
    + intros [->|(qs & Hqs & ->)].
      * exists []. split; [apply prefix_nil|by rewrite app_nil_r].
      * exists (d :: qs). split; [by apply prefix_cons|by rewrite <-app_assoc].
    + intros ([|q qs] & Hqs & ->); [left; by rewrite app_nil_r|right].
      pose proof (prefix_cons_inv_1 _ _ _ _ Hqs) as ->.
      apply prefix_cons_inv_2 in Hqs. exists qs. by rewrite <-app_assoc.
Qed.

Lemma make_directories_loop_spec ds ps m fs :
  repr m fs → okpath (ds ++ ps) → ds ∈ dirs fs →
  ∃ m', make_directories_loop (ps ++ [[]]) (dirpath ds) m = Done (tt, m') ∧
    repr m' {| dirs := dirs fs ∪ list_to_set (prefixes_from ds ps); files := files fs |}.
Proof.
  revert ds m fs. induction ps as [|x ps IH]; intros ds m fs Hr Hok Hds.
  { exists m. split; [done|]. simpl.
    replace (dirs fs ∪ ({[ds]} ∪ ∅)) with (dirs fs) by set_solver. by destruct fs. }
  change (x :: ps) with ([x] ++ ps) in Hok. rewrite app_assoc in Hok.
  pose proof Hok as [Hx _]%okpath_app. pose proof Hx as Hx'. apply okpath_snoc in Hx' as (Hd & Hs & _ & Hne & _).
  simpl. rewrite bool_decide_false by done.
  destruct (repr_lookup _ _ _ Hr Hd Hds) as [l Hl].
  change (x ++ ["/"%char]) with (x ++ [slash]). unfold mbind, St_bind.
  rewrite (add_file_internal_spec _ _ _ _ _ Hl), <-dirpath_snoc, make_directory_spec.
  destruct (decide (ds ++ [x] ∈ dirs fs)) as [Hin|Hnin].
  - assert (l !! (x ++ [slash]) = Some DIRECTORY) as ->.
    { apply (repr_list _ _ Hr ds); [done|done|]. left. eauto. }
    destruct (repr_lookup _ _ _ Hr Hx Hin) as [l' ->].
    destruct (IH _ _ _ Hr Hok Hin) as (m' & ? & Hr'). exists m'. split; [done|].
    replace (dirs fs ∪ ({[ds]} ∪ list_to_set (prefixes_from (ds ++ [x]) ps)))
      with (dirs fs ∪ list_to_set (prefixes_from (ds ++ [x]) ps)) by set_solver. done.
  - assert (l !! (x ++ [slash]) = None) as ->.
    { apply eq_None_not_Some. intros [t Ht].
      apply (repr_list _ _ Hr _ _ _ _ Hl Hd) in Ht.
      by apply listed_slash in Ht as [_ ?]; [|apply (repr_ok _ _ Hr)]. }
    rewrite lookup_insert_ne by by apply dirpath_snoc_ne.
    rewrite (repr_lookup_None _ _ _ Hr) by done.
    destruct (IH (ds ++ [x]) _ _ (repr_add_dir _ _ _ _ _ Hr Hx Hl Hds Hnin) Hok) as (m' & ? & Hr').
    { set_solver. }
    exists m'. split; [done|]. simpl in Hr'.
    assert (ds ++ [x] ∈ prefixes_from (ds ++ [x]) ps) by (destruct ps; set_solver).
    replace (dirs fs ∪ ({[ds]} ∪ list_to_set (prefixes_from (ds ++ [x]) ps)))
      with (dirs fs ∪ {[ds ++ [x]]} ∪ list_to_set (prefixes_from (ds ++ [x]) ps)) by set_solver.
    done.
Qed.

Lemma make_directories_spec m fs ds s :
  repr m fs → okpath ds → EnsurePathEndsWithSlash s = dirpath ds →
  ∃ m', MakeDirectories s m = Done (tt, m') ∧ repr m' (fs_make_dirs ds fs).
Proof.
  intros Hr Hds Hs. unfold MakeDirectories. rewrite Hs, split_string_dirpath by done.
  simpl. apply (make_directories_loop_spec [] ds m fs); [done|done|].
  apply (ok_root _ (repr_ok _ _ Hr)).
Qed.

(** A change of the listing of one directory that leaves the directories. *)
Lemma repr_update_listing m fs fs' ds l l' :
  repr m fs → fs_ok fs' → dirs fs' = dirs fs → m !! dirpath ds = Some l → okpath ds →
  (∀ n t, l' !! n = Some t ↔ listed fs' ds n t) →
  (∀ es n t, es ≠ ds → listed fs' es n t ↔ listed fs es n t) →
  repr (<[dirpath ds := l']> m) fs'.
Proof.
  intros Hr Hok Hdirs Hl Hds Hnew Hold. split; [done| |].
  - intros d. rewrite Hdirs, lookup_insert. case_decide as E; [|apply (repr_key _ _ Hr)].
    subst d. rewrite <-(repr_key _ _ Hr). split; eauto.
  - intros es l1 n t Hl1 Hes. rewrite lookup_insert in Hl1. case_decide as E.
    + apply dirpath_inj in E as <-; [|done|done]. injection Hl1 as <-. apply Hnew.
    + rewrite Hold by congruence. by apply (repr_list _ _ Hr).
Qed.

Lemma repr_add_file m fs ds f t l :
  repr m fs → okpath (ds ++ [f]) → m !! dirpath ds = Some l → ds ∈ dirs fs →
  t ≠ DIRECTORY →
  repr (<[dirpath ds := <[f := t]> l]> m)
       {| dirs := dirs fs; files := <[ds ++ [f] := t]> (files fs) |}.
Proof.
  intros Hr Hf Hl Hin Ht. pose proof (repr_ok _ _ Hr) as Hok.
  pose proof Hf as Hf'. apply okpath_snoc in Hf' as (Hds & Hs & _ & Hne & _).
  apply repr_update_listing with (fs := fs) (l := l); try done.
  - split; simpl; try apply Hok.
    + intros p u. rewrite lookup_insert. case_decide; [intros [= <-]; by subst|apply (ok_files _ Hok)].
    + intros p u. rewrite lookup_insert. case_decide as E; [|apply (ok_fparent _ Hok)].
      intros _. rewrite <-E, removelast_last. split; [by destruct ds|done].
  - intros n u. rewrite lookup_insert. unfold listed. simpl. case_decide as E.
    + subst n. rewrite lookup_insert_eq. split; [by right|].
      intros [[_ (y & -> & _)]|?]; [set_solver|done].
    + rewrite (repr_list _ _ Hr) by done.
      rewrite lookup_insert_ne; [done|]. intros ?%app_inj_tail. naive_solver.
  - intros es n u He. unfold listed. simpl. rewrite lookup_insert_ne; [done|].
    intros [-> _]%app_inj_tail. done.
Qed.

Lemma repr_remove_file m fs ds f l :
  repr m fs → okpath (ds ++ [f]) → m !! dirpath ds = Some l → ds ∈ dirs fs →
  repr (<[dirpath ds := delete f l]> m)
       {| dirs := dirs fs; files := delete (ds ++ [f]) (files fs) |}.
Proof.
  intros Hr Hf Hl Hin. pose proof (repr_ok _ _ Hr) as Hok.
  pose proof Hf as Hf'. apply okpath_snoc in Hf' as (Hds & Hs & _ & Hne & _).
  apply repr_update_listing with (fs := fs) (l := l); try done.
  - split; simpl; try apply Hok.
    + intros p u [_ Hp]%lookup_delete_Some. by apply (ok_files _ Hok).
    + intros p u [_ Hp]%lookup_delete_Some. by apply (ok_fparent _ Hok) with u.
  - intros n u. rewrite lookup_delete. unfold listed. simpl. case_decide as E.
    + subst n. rewrite lookup_delete_eq. split; [done|].
      intros [[_ (y & -> & _)]|?]; [set_solver|done].
    + rewrite (repr_list _ _ Hr) by done.
      rewrite lookup_delete_ne; [done|]. intros ?%app_inj_tail. naive_solver.
  - intros es n u He. unfold listed. simpl. rewrite lookup_delete_ne; [done|].
    intros [-> _]%app_inj_tail. done.
Qed.

Lemma repr_file_lookup m fs ds f l :
  repr m fs → okpath (ds ++ [f]) → m !! dirpath ds = Some l →
  l !! f = files fs !! (ds ++ [f]).
Proof.
  intros Hr Hf Hl. pose proof Hf as (Hds & Hs & _)%okpath_snoc.
  apply option_eq. intros t. rewrite (repr_list _ _ Hr) by done.
  by apply listed_noslash.
Qed.

(** Making the prefixes of a directory that is there changes nothing. *)
Lemma fs_make_dirs_id fs ds : fs_ok fs → ds ∈ dirs fs → fs_make_dirs ds fs = fs.
Proof.
  intros Hok Hin. unfold fs_make_dirs. destruct fs as [D F]. f_equal.
  apply set_eq. intros e. simpl in *. rewrite elem_of_union. split; [|by left].
  intros [?|He]; [done|]. apply elem_of_list_to_set, prefixes_from_elem in He as (qs & [ks ->] & ->).
  simpl. induction ks as [|k ks IH] using rev_ind; [by rewrite app_nil_r in Hin|].
  apply IH. rewrite app_assoc in Hin. by apply (ok_parent _ Hok) in Hin.
Qed.

Lemma fs_make_dirs_in fs ds : ds ∈ dirs (fs_make_dirs ds fs).
Proof. simpl. apply elem_of_union_r, elem_of_list_to_set, prefixes_from_elem. by exists ds. Qed.

Lemma ensure_parent_spec m fs ds :
  repr m fs → okpath ds →
  ∃ m', (has_dir ← StatDirectory (dirpath ds);
         if (has_dir : bool) then mret tt else MakeDirectories (dirpath ds)) m = Done (tt, m') ∧
    repr m' (fs_make_dirs ds fs).
Proof.
  intros Hr Hds. run_with (stat_directory_spec m fs _ ds Hr Hds (ensure_dirpath ds)).
  case_bool_decide as Hin; [|by apply make_directories_spec, ensure_dirpath].
  exists m. split; [done|]. by rewrite fs_make_dirs_id by (done || apply (repr_ok _ _ Hr)).
Qed.

Lemma add_file_spec m fs ds f t :
  repr m fs → okpath (ds ++ [f]) → t ≠ DIRECTORY →
  ∃ m', AddFileWithType (filepath (ds ++ [f])) t m =
        Done ((fs_add_file (ds ++ [f]) t fs).1, m') ∧
        repr m' (fs_add_file (ds ++ [f]) t fs).2.
Proof.
  intros Hr Hf Ht. pose proof Hf as [Hds _]%okpath_app.
  unfold AddFileWithType. rewrite abs_slash.
  assert (is_abs (filepath (ds ++ [f])) = true) as -> by (unfold filepath; by destruct ds).
  rewrite ends_filepath by done. cbn [negb].
  run_with (stat_directory_spec m fs _ _ Hr Hf (ensure_filepath _ Hf)).
  unfold fs_add_file. case_bool_decide as Hin; [by exists m|].
  rewrite (St_bind_run _ _ m (dirpath ds, f) m) by (unfold lift; by rewrite split_path_spec).
  cbn [fst snd]. rewrite removelast_last.
  destruct (ensure_parent_spec m fs ds Hr Hds) as (m1 & Hrun & Hr1).
  assert (∀ k : unit → St DirMap bool,
    (has_dir ← StatDirectory (dirpath ds);
     (if (has_dir : bool) then mret tt else MakeDirectories (dirpath ds)) ≫= k) m = k tt m1) as ->.
  { intros k. rewrite <-(St_bind_run _ k _ _ _ Hrun). unfold mbind, St_bind.
    by destruct (StatDirectory _ _) as [[[] ?]| |]. }
  destruct (repr_lookup m1 _ ds Hr1 Hds (fs_make_dirs_in _ _)) as [l Hl].
  rewrite (add_file_internal_spec _ _ _ _ _ Hl), (repr_file_lookup _ _ _ _ _ Hr1 Hf Hl).
  simpl. destruct (files fs !! (ds ++ [f])) as [u|] eqn:E; eexists; (split; [done|]); [done|].
  apply (repr_add_file _ _ _ _ _ _ Hr1 Hf Hl); [|done]. apply fs_make_dirs_in.
Qed.

Lemma remove_file_spec m fs ds f :
  repr m fs → okpath (ds ++ [f]) →
  ∃ m', RemoveFile (filepath (ds ++ [f])) m =
        Done ((fs_remove_file (ds ++ [f]) fs).1, m') ∧
        repr m' (fs_remove_file (ds ++ [f]) fs).2.
Proof.
  intros Hr Hf. pose proof Hf as [Hds _]%okpath_app. pose proof (repr_ok _ _ Hr) as Hok.
  unfold RemoveFile. rewrite ends_filepath by done. cbn [negb].
  rewrite (St_bind_run _ _ m (dirpath ds, f) m) by (unfold lift; by rewrite split_path_spec).
  cbn [fst snd]. run_with (get_files_spec ds m).
  destruct (m !! dirpath ds) as [l|] eqn:Hl.
  - eexists. unfold fs_remove_file. rewrite <-(repr_file_lookup _ _ _ _ _ Hr Hf Hl).
    split; [done|]. apply repr_remove_file; try done.
    assert (is_Some (m !! dirpath ds)) as (es & Hes & Heq)%(repr_key _ _ Hr) by eauto.
    apply dirpath_inj in Heq as ->; [done|done|]. by apply (ok_dirs _ Hok).
  - assert (files fs !! (ds ++ [f]) = None) as Hnone.
    { apply eq_None_not_Some. intros [t Ht]. apply (ok_fparent _ Hok) in Ht as [_ Ht].
      rewrite removelast_last in Ht. destruct (repr_lookup m fs ds Hr Hds Ht). congruence. }
    exists m. unfold fs_remove_file. rewrite Hnone. split; [done|].
    simpl. rewrite delete_id by done. by destruct fs.
Qed.

Lemma empty_listing m fs ds l :
  repr m fs → okpath ds → m !! dirpath ds = Some l →
  fs_is_empty_dir ds fs = bool_decide (l = ∅).
Proof.
  intros Hr Hds Hl. unfold fs_is_empty_dir. apply eq_true_iff_eq.
  rewrite andb_true_iff, !bool_decide_eq_true. split.
  - intros [Hd Hf]. apply map_empty. intros n. apply eq_None_not_Some. intros [t Ht].
    apply (repr_list _ _ Hr ds _ n t Hl Hds) in Ht as [(_ & y & _ & Hy)|Hy].
    + apply (Hd _ Hy), child_snoc. eauto.
    + apply (Hf _ _ Hy), child_snoc. eauto.
  - intros ->. assert (∀ n t, ¬ listed fs ds n t) as Hno.
    { intros n t. by rewrite <-(repr_list _ _ Hr ds _ n t Hl Hds), lookup_empty. }
    split.
    + intros e He [x ->]%child_snoc. apply (Hno (x ++ [slash]) DIRECTORY). left. eauto.
    + intros e t He [x ->]%child_snoc. apply (Hno x t). by right.
Qed.

Lemma fs_ok_remove_dir fs ds x :
  fs_ok fs → fs_is_empty_dir (ds ++ [x]) fs = true →
  fs_ok {| dirs := dirs fs ∖ {[ ds ++ [x] ]}; files := files fs |}.
Proof.
  intros Hok [Hd%bool_decide_eq_true Hf%bool_decide_eq_true]%andb_true_iff. split; simpl.
  - apply elem_of_difference. split; [apply (ok_root _ Hok)|].
    intros He%elem_of_singleton. by destruct ds.
  - intros e [He _]%elem_of_difference. by apply (ok_dirs _ Hok).
  - intros e y [He _]%elem_of_difference. apply elem_of_difference. split.
    + by apply (ok_parent _ Hok) in He.
    + intros ->%elem_of_singleton. apply (Hd _ He), child_snoc. eauto.
  - apply (ok_files _ Hok).
  - intros p t Hp. pose proof (ok_fparent _ Hok _ _ Hp) as [Hne Hin]. split; [done|].
    apply elem_of_difference. split; [done|]. intros He%elem_of_singleton.
    by apply (Hf _ _ Hp).
Qed.

Lemma repr_remove_dir m fs ds x l :
  repr m fs → okpath (ds ++ [x]) → m !! dirpath ds = Some l → ds ++ [x] ∈ dirs fs →
  fs_is_empty_dir (ds ++ [x]) fs = true →
  repr (<[dirpath ds := delete (x ++ [slash]) l]> (delete (dirpath (ds ++ [x])) m))
       {| dirs := dirs fs ∖ {[ ds ++ [x] ]}; files := files fs |}.
Proof.
  intros Hr Hx Hl Hin He. pose proof (repr_ok _ _ Hr) as Hok.
  pose proof (fs_ok_remove_dir _ _ _ Hok He) as Hok'.
  pose proof (proj1 (okpath_app _ _) Hx) as [Hds _].
  pose proof (ok_parent _ Hok _ _ Hin) as Hdin.
  assert (∀ es, es ∈ dirs fs ∖ {[ds ++ [x]]} ↔ es ∈ dirs fs ∧ es ≠ ds ++ [x]) as Hdiff by set_solver.
  split; [done| |]; simpl.
  - intros d. rewrite lookup_insert. case_decide as E1.
    + split; [|by eauto]. intros _. exists ds. rewrite Hdiff. split; [|done].
      split; [done|]. intros E%(f_equal List.length). rewrite length_app in E. simpl in E. lia.
    + rewrite lookup_delete. case_decide as E2.
      * split; [by intros []|]. intros (es & [Hes Hne]%Hdiff & ->).
        destruct Hne. apply dirpath_inj; [by apply (ok_dirs _ Hok)|done|done].
      * rewrite (repr_key _ _ Hr). setoid_rewrite Hdiff. split; [|naive_solver].
        intros (es & Hes & ->). exists es. split; [|done]. split; [done|]. by intros ->.
  - intros es l' n t Hl' Hes.
    assert (listed {| dirs := dirs fs ∖ {[ds ++ [x]]}; files := files fs |} es n t ↔
            listed fs es n t ∧ ¬ (es = ds ∧ n = x ++ [slash])) as Hlisted.
    { unfold listed. simpl. setoid_rewrite Hdiff. split.
      - intros [(-> & y & -> & Hy & Hne)|Hf].
        + split; [left; eauto|]. intros [-> [-> _]%app_inj_tail]. done.
        + split; [by right|]. intros [-> ->].
          apply (ok_files _ Hok) in Hf as [Hf _]. apply okpath_snoc in Hf. set_solver.
      - intros [[(-> & y & -> & Hy)|Hf] Hne]; [left|by right].
        split; [done|]. exists y. split; [done|]. split; [done|].
        intros [-> ->]%app_inj_tail. naive_solver. }
    rewrite Hlisted. rewrite lookup_insert in Hl'. case_decide as E1.
    + apply dirpath_inj in E1 as <-; [|done|done]. injection Hl' as <-.
      rewrite lookup_delete. case_decide as E2; [naive_solver|].
      rewrite (repr_list _ _ Hr) by done. naive_solver.
    + apply lookup_delete_Some in Hl' as [_ Hl']. rewrite (repr_list _ _ Hr) by done.
      naive_solver.
Qed.

Lemma print_filepath p : p ≠ [] → print_path true p = filepath p.
Proof. by destruct p. Qed.

Lemma remove_dir_spec m fs ds :
  repr m fs → okpath ds →
  ∃ m', RemoveDirectory (print_path true ds) m = Done ((fs_remove_dir ds fs).1, m') ∧
        repr m' (fs_remove_dir ds fs).2.
Proof.
  intros Hr Hds. unfold RemoveDirectory, fs_remove_dir. pose proof (repr_ok _ _ Hr) as Hok.
  destruct ds as [|x ds _] using rev_ind; [by exists m|].
  rewrite print_filepath by (by destruct ds).
  rewrite bool_decide_false.
  2: { unfold filepath. rewrite join_abs_app. apply okpath_snoc in Hds as (_ & _ & _ & Hne & _).
       intros Heq%(f_equal List.length). rewrite length_app in Heq. destruct x; [done|].
       simpl in Heq. rewrite ?length_app in Heq. simpl in Heq. lia. }
  rewrite ensure_filepath by done. run_with (get_files_spec (ds ++ [x]) m).
  rewrite bool_decide_true by (by destruct ds).
  destruct (decide (ds ++ [x] ∈ dirs fs)) as [Hin|Hnin].
  - destruct (repr_lookup _ _ _ Hr Hds Hin) as [l Hl]. rewrite Hl.
    rewrite (bool_decide_true (ds ++ [x] ∈ dirs fs)), (empty_listing _ _ _ _ Hr Hds Hl) by done.
    case_bool_decide as Hempty; cbn [negb andb]; [|by exists m].
    unfold get, put, check. unfold mbind at 1 2 3, St_bind. rewrite Hl.
    rewrite bool_decide_true by eauto. rewrite parent_dirpath by done.
    run_with (get_files_spec ds (delete (dirpath (ds ++ [x])) m)).
    rewrite lookup_delete_ne by (symmetry; apply dirpath_snoc_ne).
    pose proof (ok_parent _ Hok _ _ Hin) as Hdin.
    pose proof Hds as [Hds' _]%okpath_app.
    destruct (repr_lookup _ _ _ Hr Hds' Hdin) as [pl Hpl]. rewrite Hpl.
    rewrite dirpath_snoc, drop_app_length.
    assert (pl !! (x ++ [slash]) = Some DIRECTORY) as Hx.
    { apply (repr_list _ _ Hr ds); [done|done|]. left. eauto. }
    unfold modify, mbind, St_bind. rewrite Hx, bool_decide_true by eauto.
    eexists. split; [done|]. rewrite <-dirpath_snoc. apply repr_remove_dir; try done.
    rewrite (empty_listing _ _ _ _ Hr Hds Hl). by rewrite bool_decide_true.
  - rewrite (repr_lookup_None _ _ _ Hr) by done.
    rewrite (bool_decide_false (ds ++ [x] ∈ dirs fs)) by done. by exists m.
Qed.

Lemma stat_file_spec m fs p :
  repr m fs → okpath p → p ≠ [] →
  StatFile (filepath p) m = Done (bool_decide (is_Some (files fs !! p)), m).
Proof.
  intros Hr Hp Hne. destruct p as [|f ds _] using rev_ind; [done|].
  pose proof Hp as [Hds _]%okpath_app. unfold StatFile. rewrite ends_filepath by done.
  rewrite (St_bind_run _ _ m (dirpath ds, f) m) by (unfold lift; by rewrite split_path_spec).
  cbn [fst snd]. run_with (get_files_spec ds m).
  destruct (m !! dirpath ds) as [l|] eqn:Hl.
  - by rewrite (repr_file_lookup _ _ _ _ _ Hr Hp Hl).
  - rewrite bool_decide_false; [done|]. intros [t Ht].
    apply (ok_fparent _ (repr_ok _ _ Hr)) in Ht as [_ Ht]. rewrite removelast_last in Ht.
    destruct (repr_lookup m fs ds Hr Hds Ht). congruence.
Qed.

Lemma fs_ok_empty : fs_ok fs_empty.
Proof.
  split; simpl.
  - set_solver.
  - intros ds ->%elem_of_singleton. by repeat constructor.
  - intros ds x E%elem_of_singleton. by destruct ds.
  - intros p t. by rewrite lookup_empty.
  - intros p t. by rewrite lookup_empty.
Qed.

Lemma clear_spec m : ∃ m', Clear m = Done (tt, m') ∧ repr m' fs_empty.
Proof.
  unfold Clear, put. unfold mbind at 1, St_bind.
  run_with (make_directory_spec ∅ []).
  eexists. split; [done|]. split; [apply fs_ok_empty| |]; simpl.
  - intros d. rewrite lookup_insert. case_decide as E.
    + split; [|by eauto]. intros _. exists []. split; [set_solver|done].
    + rewrite lookup_empty. split; [by intros []|].
      intros (ds & ->%elem_of_singleton & ->). done.
  - intros ds l n t. rewrite lookup_insert. case_decide as E; [|by rewrite lookup_empty].
    intros [= <-] Hds. rewrite lookup_empty. split; [done|].
    intros [(_ & y & _ & Hy)|Hf]; simpl in *.
    + apply elem_of_singleton in Hy. by destruct ds.
    + by rewrite lookup_empty in Hf.
Qed.

Lemma make_directories_op_spec m fs ds :
  repr m fs → okpath ds →
  ∃ m', MakeDirectories (print_path true ds) m = Done (tt, m') ∧ repr m' (fs_make_dirs ds fs).
Proof.
  intros Hr Hds. apply make_directories_spec; [done|done|by apply ensure_printed].
Qed.

(** ** One call, and a sequence of calls *)

Lemma run_op_spec o m fs :
  repr m fs → op_ok o →
  ∃ m', run_op o m = Done ((spec_op o fs).1, m') ∧ repr m' (spec_op o fs).2.
Proof.
  intros Hr Ho. destruct o as [|p t|ds|p|ds|p|ds]; simpl in Ho |- *.
  - destruct (clear_spec m) as (m' & Hm & ?). exists m'. by rewrite (St_bind_run _ _ _ _ _ Hm).
  - destruct Ho as (Hp & Hne & Ht). destruct p as [|f ds _] using rev_ind; [done|].
    by apply add_file_spec.
  - destruct (make_directories_op_spec m fs ds Hr Ho) as (m' & Hm & ?).
    exists m'. by rewrite (St_bind_run _ _ _ _ _ Hm).
  - destruct Ho as [Hp Hne]. destruct p as [|f ds _] using rev_ind; [done|].
    by apply remove_file_spec.
  - by apply remove_dir_spec.
  - destruct Ho as [Hp Hne]. exists m. by rewrite (stat_file_spec m fs).
  - exists m. by rewrite (stat_directory_spec m fs _ ds) by (done || by apply ensure_printed).
Qed.

Lemma run_ops_spec os m fs :
  repr m fs → Forall op_ok os →
  ∃ m', run_ops os m = Done ((spec_ops os fs).1, m') ∧ repr m' (spec_ops os fs).2.
Proof.
  revert m fs. induction os as [|o os IH]; intros m fs Hr Hos; [by exists m|].
  inversion Hos; subst. destruct (run_op_spec o m fs) as (m1 & Hm1 & Hr1); [done|done|].
  simpl. run_with Hm1. destruct (spec_op o fs) as [b fs1]. simpl in *.
  destruct (IH m1 fs1) as (m2 & Hm2 & Hr2); [done|done|].
  run_with Hm2. destruct (spec_ops os fs1). by exists m2.
Qed.

(** C3.  The hash map of the manager implements a tree of directories and
    files.  From construction ([Clear]) on, any sequence of [AddFile],
    [MakeDirectories], [RemoveFile], [RemoveDirectory], [StatFile] and
    [StatDirectory] calls on normalized paths runs without tripping an
    assertion, returns what the tree operations return (adding creates the
    missing parents and refuses existing names; a directory is removed only
    when it is empty and not the root) and ends in a map whose keys and
    listings are exactly the resulting tree. *)
Theorem directory_manager_refines os m0 :
  Forall op_ok os →
  ∃ m, (Clear;; run_ops os) m0 = Done ((spec_ops os fs_empty).1, m) ∧
       repr m (spec_ops os fs_empty).2.
Proof.
  intros Hos. destruct (clear_spec m0) as (m1 & Hm1 & Hr1). run_with Hm1.
  by apply run_ops_spec.
Qed.

(** ** The cursor *)

#[local] Instance entry_le_trans : Transitive entry_le.
Proof.
  intros a b c. unfold entry_le.
  destruct (decide (a.1 = b.1)) as [E1|E1], (decide (b.1 = c.1)) as [E2|E2].
  - rewrite decide_True by congruence. lia.
  - rewrite decide_False by congruence. by rewrite E1.
  - rewrite decide_False by congruence. by rewrite E2.
  - intros L1 L2. pose proof (str_ltb_trans _ _ _ L1 L2) as L3.
    rewrite decide_False; [done|]. intros E3. rewrite E3, str_ltb_irrefl in L3. done.
Qed.

#[local] Instance entry_le_total : Total entry_le.
Proof.
  intros a b. unfold entry_le. destruct (decide (a.1 = b.1)) as [E|E].
  - rewrite decide_True by done. lia.
  - rewrite decide_False by done. by apply str_ltb_total.
Qed.

Lemma by_name_strict (l1 : list (str * Dir_Type)) :
  StronglySorted entry_le l1 → NoDup l1.*1 → StronglySorted by_name l1.
Proof.
  induction 1 as [|e l1 Hs IH Hall]; simpl; [constructor|].
  intros [Hne Hnd]%NoDup_cons. constructor; [by apply IH|].
  apply Forall_forall. intros e' He'. rewrite Forall_forall in Hall.
  specialize (Hall _ He'). unfold entry_le in Hall. rewrite decide_False in Hall; [done|].
  intros E. apply Hne. rewrite E. by apply list_elem_of_fmap_2.
Qed.

Lemma shows_new (s : str) (l : FilesInDir) : shows (DirImpl_new s l) l.
Proof.
  exists (merge_sort entry_le (map_to_list l)). split; [done|]. split.
  - apply by_name_strict; [apply StronglySorted_merge_sort; apply _|].
    rewrite merge_sort_Permutation. apply NoDup_fst_map_to_list.
  - intros n t. rewrite merge_sort_Permutation. apply elem_of_map_to_list.
Qed.

(** Opening a directory gives a cursor at its start that shows "./" and
    "../", then exactly the files and subdirectories of the tree in name
    order; opening a file fails with ENOTDIR, anything else with ENOENT. *)
Theorem open_directory_lists m fs ds :
  repr m fs → okpath ds →
  ∃ r, OpenDirectory (print_path true ds) m = Done (r, m) ∧
    match r with
    | Ok d => ds ∈ dirs fs ∧ pos_ d = 0 ∧ dirname_ d = dirpath ds ∧
              ∃ l, shows d l ∧ ∀ n t, l !! n = Some t ↔ listed fs ds n t
    | Err e => (e = ENOTDIR ∧ is_Some (files fs !! ds)) ∨
               (e = ENOENT ∧ ds ∉ dirs fs ∧ files fs !! ds = None)
    end.
Proof.
  intros Hr Hds. unfold OpenDirectory.
  assert (StatFile (print_path true ds) m =
          Done (bool_decide (is_Some (files fs !! ds)), m)) as Hstat.
  { destruct ds as [|x ds]; [|by apply stat_file_spec].
    unfold StatFile. cbn [print_path]. rewrite ends_slash_root.
    rewrite bool_decide_false; [done|]. intros [t Ht].
    by apply (ok_fparent _ (repr_ok _ _ Hr)) in Ht as [? _]. }
  run_with Hstat. case_bool_decide as Hf; [eexists; split; [done|]; by left|].
  rewrite ensure_printed by done. run_with (get_files_spec ds m).
  destruct (m !! dirpath ds) as [l|] eqn:Hl; (eexists; split; [done|]).
  - assert (is_Some (m !! dirpath ds)) as (es & Hes & Heq)%(repr_key _ _ Hr) by eauto.
    apply dirpath_inj in Heq as <-; [|done|by apply (ok_dirs _ (repr_ok _ _ Hr))].
    split; [done|]. split; [done|]. split; [apply ensure_dirpath|].
    exists l. split; [apply shows_new|]. intros n t. by apply (repr_list _ _ Hr).
  - right. split; [done|]. split; [|by apply eq_None_not_Some].
    intros Hin. destruct (repr_lookup m fs ds Hr Hds Hin). congruence.
Qed.

(** [std::lower_bound] finds the border of a list that [name] partitions. *)
Lemma lower_bound_spec (fs : list (str * Dir_Type)) name k :
  k ≤ List.length fs →
  (∀ i e, fs !! i = Some e → str_ltb e.1 name = bool_decide (i < k)) →
  lower_bound fs name = Done k.
Proof.
  intros Hk Hpart. unfold lower_bound.
  assert (done_with (loop (Datatypes.S (List.length fs)) (lower_bound_step fs name)
            (0, List.length fs)) (λ r, r = k)) as Hd.
  { apply loop_rule with (m := snd)
      (I := λ r, r.1 ≤ k ≤ r.1 + r.2 ∧ r.1 + r.2 ≤ List.length fs); simpl; [| |lia|lia].
    - intros [first len] [first' len'] (Hb & Hlen). unfold lower_bound_step.
      destruct (Nat.eqb_spec len 0) as [?|Hne]; [done|]. simpl in Hb, Hlen.
      pose proof (Nat.lt_div2 len ltac:(lia)) as Hhalf.
      destruct (lookup_lt_is_Some_2 fs (first + Nat.div2 len)) as [[n t] Hmid]; [lia|].
      rewrite Hmid. specialize (Hpart _ _ Hmid). simpl in Hpart. rewrite Hpart.
      remember (Nat.div2 len) as half.
      case_bool_decide; intros [= <- <-]; cbn [fst snd]; lia.
    - intros [first len] r (Hb & Hlen). unfold lower_bound_step. simpl in Hb, Hlen.
      destruct (Nat.eqb_spec len 0) as [->|Hne]; [intros [= <-]; lia|].
      pose proof (Nat.lt_div2 len ltac:(lia)) as Hhalf.
      destruct (lookup_lt_is_Some_2 fs (first + Nat.div2 len)) as [[n t] Hmid]; [lia|].
      rewrite Hmid. by destruct (str_ltb n name). }
  destruct (loop _ _ _); simpl in Hd; by subst.
Qed.

(** A sorted list is split by a name. *)
Lemma by_name_split (l1 : list (str * Dir_Type)) name :
  StronglySorted by_name l1 →
  ∃ a b, l1 = a ++ b ∧ Forall (λ e, str_ltb e.1 name = true) a ∧
         Forall (λ e, str_ltb e.1 name = false) b ∧
         (Forall (λ e, str_ltb name e.1 = true) b ∨
          ∃ t b', b = (name, t) :: b' ∧ Forall (λ e, str_ltb name e.1 = true) b').
Proof.
  induction 1 as [|e l1 Hs (a & b & -> & Ha & Hb & Hc) Hall].
  { exists [], []. repeat split; auto. }
  destruct (str_ltb e.1 name) eqn:He.
  { exists (e :: a), b. repeat split; try done. by constructor. }
  assert (Forall (λ e', str_ltb name e'.1 = true) (a ++ b)) as Hgt.
  { eapply Forall_impl; [exact Hall|]. intros e' Hlt. unfold by_name in Hlt.
    destruct (decide (e.1 = name)) as [<-|Hne]; [done|].
    destruct (str_ltb_total e.1 name Hne) as [?|?]; [congruence|].
    by eapply str_ltb_trans. }
  exists [], (e :: a ++ b). split; [done|]. split; [constructor|]. split.
  - constructor; [done|]. eapply Forall_impl; [exact Hgt|]. intros ?. apply str_ltb_asym.
  - destruct (decide (e.1 = name)) as [<-|Hne].
    + right. exists e.2, (a ++ b). by destruct e.
    + left. constructor; [|done]. destruct (str_ltb_total e.1 name Hne) as [?|?]; congruence.
Qed.

Lemma by_name_app (a b : list (str * Dir_Type)) (e : str * Dir_Type) :
  StronglySorted by_name (a ++ b) → Forall (λ x, by_name x e) a → Forall (by_name e) b →
  StronglySorted by_name (a ++ e :: b).
Proof.
  intros Hs Ha Hb. apply StronglySorted_app_2.
  - intros x y Hx [->|Hy]%elem_of_cons; [by rewrite Forall_forall in Ha; apply Ha|].
    by apply (StronglySorted_app_1_elem_of by_name a b).
  - by eapply StronglySorted_app_1_l.
  - constructor; [by eapply StronglySorted_app_1_r|done].
Qed.

(** The entries of a sorted list around a name are the other names. *)
Lemma entries_insert (a b : list (str * Dir_Type)) (l : FilesInDir) name type :
  Forall (λ e, str_ltb e.1 name = true) a → Forall (λ e, str_ltb name e.1 = true) b →
  (∀ n t, n ≠ name → (n, t) ∈ a ++ b ↔ l !! n = Some t) →
  ∀ n t, (n, t) ∈ a ++ (name, type) :: b ↔ <[name := type]> l !! n = Some t.
Proof.
  intros Ha Hb Hl n t. rewrite lookup_insert. case_decide as E.
  - subst n. rewrite elem_of_app, elem_of_cons. split.
    + rewrite Forall_forall in Ha, Hb. intros [Hin%Ha|[[= ->]|Hin%Hb]]; [|done|];
        simpl in Hin; by rewrite str_ltb_irrefl in Hin.
    + intros [= ->]. auto.
  - rewrite <-Hl, !elem_of_app, elem_of_cons by congruence. naive_solver.
Qed.

Lemma add_entry_spec (d : DirImpl) (l : FilesInDir) name type :
  shows d l → pos_ d = 0 → str_ltb "./" name = true →
  ∃ d', Add name type d = Done d' ∧ shows d' (<[name := type]> l) ∧ pos_ d' = 0.
Proof.
  intros (l1 & Hfiles & Hsort & Hl) Hpos Hname. unfold Add. rewrite Hpos, require_true.
  destruct (by_name_split l1 name Hsort) as (a & b & -> & Ha & Hb & Hc).
  assert (lower_bound (files_ d) name = Done (2 + List.length a)) as Hlb.
  { apply lower_bound_spec; rewrite Hfiles; [simpl; rewrite length_app; lia|].
    intros [|[|i]] e He; cbn [lookup list_lookup] in He.
    - injection He as <-. exact Hname.
    - injection He as <-. by apply (str_ltb_trans _ "./").
    - change ((a ++ b) !! i = Some e) in He.
      destruct (decide (i < List.length a)) as [Hi|Hi].
      + rewrite lookup_app_l in He by done. rewrite bool_decide_true by lia.
        rewrite Forall_forall in Ha. apply Ha. by eapply list_elem_of_lookup_2.
      + rewrite lookup_app_r in He by lia. rewrite bool_decide_false by lia.
        rewrite Forall_forall in Hb. apply Hb. by eapply list_elem_of_lookup_2. }
  rewrite Hlb. unfold mbind, outcome_bind, mret, outcome_ret. rewrite Hfiles.
  change (((lit "./", DIRECTORY) :: (lit "../", DIRECTORY) :: a ++ b) !!
            (2 + List.length a)) with ((a ++ b) !! List.length a).
  cbn [Nat.add take drop].
  assert (∀ b', Forall (λ e, str_ltb name e.1 = true) b' → StronglySorted by_name (a ++ b') →
    (∀ n t, n ≠ name → (n, t) ∈ a ++ b' ↔ l !! n = Some t) →
    shows {| dirname_ := dirname_ d; pos_ := pos_ d;
             files_ := (lit "./", DIRECTORY) :: (lit "../", DIRECTORY) ::
                       a ++ (name, type) :: b' |} (<[name := type]> l)) as Hshow.
  { intros b' Hgt Hs Hel. exists (a ++ (name, type) :: b'). split; [done|].
    split; [by apply by_name_app|by apply entries_insert]. }
  destruct Hc as [Hgt|(t & b' & -> & Hgt)].
  - destruct ((a ++ b) !! List.length a) as [[first t0]|] eqn:E.
    + rewrite bool_decide_false.
      2: { intros ->. rewrite lookup_app_r, Nat.sub_diag in E by lia.
           apply list_elem_of_lookup_2 in E. rewrite Forall_forall in Hgt.
           apply Hgt in E. simpl in E. by rewrite str_ltb_irrefl in E. }
      rewrite take_app_length, drop_app_length. eexists. split; [done|].
      split; [|done]. apply Hshow; naive_solver.
    + rewrite take_app_length, drop_app_length. eexists. split; [done|].
      split; [|done]. apply Hshow; naive_solver.
  - rewrite list_lookup_middle by done. rewrite bool_decide_true by done.
    eexists. split; [done|]. split; [|done].
    change (<[Datatypes.S (Datatypes.S (List.length a)) := (name, type)]>
      ((lit "./", DIRECTORY) :: (lit "../", DIRECTORY) :: a ++ (name, t) :: b'))
      with ((lit "./", DIRECTORY) :: (lit "../", DIRECTORY) ::
            <[List.length a := (name, type)]> (a ++ (name, t) :: b')).
    rewrite insert_app_r_alt, Nat.sub_diag by lia. apply Hshow; [done| |].
    + apply StronglySorted_app in Hsort as (? & ? & Hs). inversion Hs; subst.
      apply StronglySorted_app_2; [set_solver|done|done].
    + intros n u Hn. rewrite <-Hl, !elem_of_app, elem_of_cons. naive_solver.
Qed.

(** [DirImpl::Add] on a cursor at its start: for names after "./" in byte
    order (every name the file handlers add) the binary search finds the
    entry's place behind the two dots, so the cursor then shows the listing
    with [name] added, or with its type overwritten when it was there, still
    in order and without duplicates.  A cursor that has moved trips the
    assertion. *)
Theorem dir_add_inserts (d : DirImpl) (l : FilesInDir) name type :
  shows d l → str_ltb "./" name = true →
  match Add name type d with
  | Done d' => pos_ d = 0 ∧ pos_ d' = 0 ∧ shows d' (<[name := type]> l)
  | Abort => pos_ d ≠ 0
  | NoFuel => False
  end.
Proof.
  intros Hd Hname. destruct (decide (pos_ d = 0)) as [Hpos|Hpos].
  - destruct (add_entry_spec d l name type Hd Hpos Hname) as (d' & -> & ? & ?). done.
  - unfold Add. destruct (Nat.eqb_spec (pos_ d) 0); done.
Qed.

Definition advance (n : nat) (d : DirImpl) : DirImpl :=
  {| dirname_ := dirname_ d; files_ := files_ d;
     pos_ := pos_ d + Nat.min n (List.length (files_ d) - pos_ d) |}.

Lemma advance_add n k d : advance k (advance n d) = advance (n + k) d.
Proof. unfold advance. simpl. f_equal. lia. Qed.

Lemma advance_drop n d : drop (pos_ (advance n d)) (files_ d) = drop n (drop (pos_ d) (files_ d)).
Proof.
  simpl. rewrite drop_drop. destruct (decide (n ≤ List.length (files_ d) - pos_ d)).
  - by rewrite Nat.min_l.
  - rewrite !drop_ge by lia. done.
Qed.

Lemma well_typed_slash e : well_typed e = true → EndsWithSlash e.1 = bool_decide (e.2 = DIRECTORY).
Proof.
  unfold well_typed. rewrite Bool.eqb_true_iff. intros <-.
  destruct e as [n t]. simpl. destruct n as [|c n _] using rev_ind.
  - rewrite ends_slash_nil. by rewrite bool_decide_false.
  - by rewrite ends_slash_snoc, List.last_last.
Qed.

Lemma getnext_spec {W} (inode : str → St W Z) d w :
  (∀ (q : str) w, ∃ r, inode q w = Done r) → Forall (λ e, well_typed e = true) (files_ d) →
  match files_ d !! pos_ d with
  | None => GetNext inode (d, w) = Done (None, (d, w))
  | Some e => ∃ r w', GetNext inode (d, w) = Done (Some r, (advance 1 d, w')) ∧
                      (d_name r, d_type r) = reported e ∧ d_off r = pos_ d
  end.
Proof.
  intros Hino Hwt. unfold GetNext. simpl.
  destruct (files_ d !! pos_ d) as [[n t]|] eqn:E; [|done].
  destruct (Hino (dirname_ d ++ n) w) as [[ino w'] ->].
  rewrite Forall_forall in Hwt. pose proof (Hwt _ (list_elem_of_lookup_2 _ _ _ E)) as Hty.
  apply well_typed_slash in Hty. simpl in Hty. rewrite Hty.
  assert (pos_ d < List.length (files_ d)) by (by apply lookup_lt_Some in E).
  assert ({| dirname_ := dirname_ d; files_ := files_ d; pos_ := Datatypes.S (pos_ d) |} =
          advance 1 d) as -> by (unfold advance; f_equal; lia).
  assert (∀ s : str, take (Nat.min (sizeof_d_name - 1) (List.length s)) s = take 255 s) as Htake.
  { intros s. destruct (decide (255 ≤ List.length s)).
    - by rewrite Nat.min_l.
    - rewrite Nat.min_r by (unfold sizeof_d_name; lia). by rewrite firstn_all, take_ge by lia. }
  pose (nm := if bool_decide (t = DIRECTORY) then take (List.length n - 1) n else n).
  exists {| d_ino := ino; d_off := pos_ d; d_type := t;
       d_name := take (Nat.min (sizeof_d_name - 1) (List.length nm)) nm |}, w'.
  split; [by destruct t|]. unfold d_name, d_type, d_off. rewrite Htake. done.
Qed.

Lemma getdents_loop_spec {W} (inode : str → St W Z) n d w :
  (∀ (q : str) w, ∃ r, inode q w = Done r) → Forall (λ e, well_typed e = true) (files_ d) →
  ∃ rs w', getdents_loop inode n (d, w) = Done (rs, (advance n d, w')) ∧
    map (λ e, (d_name e, d_type e)) rs = map reported (take n (drop (pos_ d) (files_ d))) ∧
    map d_off rs = seq (pos_ d) (List.length rs).
Proof.
  intros Hino. revert d w. induction n as [|n IH]; intros d w Hwt.
  { exists [], w. split; [|done]. unfold advance. simpl. rewrite Nat.add_0_r. by destruct d. }
  pose proof (getnext_spec inode d w Hino Hwt) as Hn. simpl.
  destruct (files_ d !! pos_ d) as [e|] eqn:E.
  - destruct Hn as (r & w1 & Hn & Hr & Hoff). run_with Hn.
    destruct (IH (advance 1 d) w1) as (rs & w2 & Hes & Hmap & Hoffs); [done|].
    run_with Hes. exists (r :: rs), w2. split; [by rewrite advance_add|].
    rewrite (drop_S _ _ _ E). simpl. rewrite Hr, Hmap, Hoff.
    apply lookup_lt_Some in E as Hlt.
    assert (pos_ (advance 1 d) = Datatypes.S (pos_ d)) as Hp by (unfold advance, pos_ at 1; lia).
    change (files_ (advance 1 d)) with (files_ d). by rewrite Hoffs, Hp.
  - run_with Hn. exists [], w. apply lookup_ge_None in E. split; [|by rewrite drop_ge, take_nil].
    unfold advance. replace (List.length (files_ d) - pos_ d) with 0 by lia.
    rewrite Nat.min_0_r, Nat.add_0_r. by destruct d.
Qed.

Lemma getdents_calls_spec {W} sz open (inode : str → St W Z) ks d w :
  0 < sz → (∀ (q : str) w, ∃ r, inode q w = Done r) → Forall (λ e, well_typed e = true) (files_ d) →
  Forall (λ k, sz ≤ k) ks →
  ∃ ess w', getdents_calls sz open inode ks (Some d, w) =
              Done (map Ok ess, (Some (advance (sum_list_with (λ k, k `div` sz) ks) d), w')) ∧
    map (λ e, (d_name e, d_type e)) (List.concat ess) =
    map reported (take (sum_list_with (λ k, k `div` sz) ks) (drop (pos_ d) (files_ d))).
Proof.
  intros Hsz Hino. revert d w. induction ks as [|k ks IH]; intros d w Hwt Hks.
  { exists [], w. split; [|done]. unfold advance. simpl. rewrite Nat.add_0_r. by destruct d. }
  inversion Hks as [|? ? Hk Hks']; subst. simpl.
  destruct (getdents_loop_spec inode (k `div` sz) d w Hino Hwt) as (rs & w1 & Hes & Hmap & _).
  assert (getdents sz open inode k (Some d, w) =
          Done (Ok rs, (Some (advance (k `div` sz) d), w1))) as Hg.
  { unfold getdents. rewrite Hes.
    assert (Nat.ltb (k `div` sz) 1 = false) as ->; [|done].
    apply Nat.ltb_ge. apply Nat.div_le_lower_bound; lia. }
  run_with Hg. destruct (IH (advance (k `div` sz) d) w1) as (ess & w2 & Hess & Hmaps); [done..|].
  run_with Hess. exists (rs :: ess), w2. split; [by rewrite advance_add|].
  simpl. rewrite map_app, Hmap, Hmaps.
  change (files_ (advance _ d)) with (files_ d). rewrite advance_drop, <-map_app.
  f_equal. by rewrite <-take_take_drop.
Qed.

(** [getdents] enumerates a directory once: when each call has room for
    an entry, the calls after opening return, concatenated, the first entries
    of the cursor's list in order, as many as fit in all the buffers together
    (so nothing is lost or repeated between calls, and after the end every
    call returns no entry).  Directory names lose their slash and names are
    cut at 255 bytes; the assertions on entry types do not fire.  A buffer
    that is too small is EINVAL, a directory that is gone ENOENT. *)
Theorem getdents_enumerates {W} sz (open : St W (option DirImpl)) (inode : str → St W Z)
    ks k d w w0 :
  0 < sz → (∀ (q : str) w, ∃ r, inode q w = Done r) → Forall (λ e, well_typed e = true) (files_ d) →
  pos_ d = 0 → open w0 = Done (Some d, w) → Forall (λ k, sz ≤ k) (k :: ks) →
  (∃ ess w', getdents_calls sz open inode (k :: ks) (None, w0) =
               Done (map Ok ess, w') ∧
    map (λ e, (d_name e, d_type e)) (List.concat ess) =
    map reported (take (sum_list_with (λ k, k `div` sz) (k :: ks)) (files_ d))) ∧
  (∀ k', k' < sz → getdents sz open inode k' (None, w0) = Done (Err EINVAL, (Some d, w))) ∧
  (∀ k', getdents sz (λ w, Done (None, w)) inode k' (None, w0) = Done (Err ENOENT, (None, w0))).
Proof.
  intros Hsz Hino Hwt Hpos Hopen Hks. split; [|split].
  - destruct (getdents_calls_spec sz open inode (k :: ks) d w Hsz Hino Hwt Hks)
      as (ess & w' & Hc & Hmap).
    rewrite Hpos in Hmap. exists ess. eexists. split; [|done].
    rewrite <-Hc. simpl. unfold mbind, St_bind, getdents. by rewrite Hopen.
  - intros k' Hk'. unfold getdents. rewrite Hopen.
    by rewrite (Nat.div_small k' sz) by done.
  - done.
Qed.
End Proofs.

(** ** Witnesses *)

Section Witnesses.
Import Reference.

Definition witness_ops : list dm_op :=
  [OpAddFile [lit "a"; lit "b"; lit "f"] REGULAR; OpAddFile [lit "a"] REGULAR;
   OpRemoveDirectory [lit "a"; lit "b"]; OpRemoveFile [lit "a"; lit "b"; lit "f"];
   OpRemoveDirectory [lit "a"; lit "b"]; OpRemoveDirectory []; OpStatDirectory [lit "a"]].

Lemma directory_manager_refines_witness :
  ∃ m, (Clear;; run_ops witness_ops) ∅ =
         Done ([true; false; false; true; true; false; true], m) ∧
       repr m (spec_ops witness_ops fs_empty).2.
Proof.
  exact (directory_manager_refines witness_ops ∅ ltac:(decided)).
Defined.

Definition witness_map : DirMap :=
  match (Clear;; run_ops [OpAddFile [lit "a"; lit "f"] REGULAR]) ∅ with
  | Done (_, m) => m
  | _ => ∅
  end.

Lemma witness_repr :
  repr witness_map (spec_ops [OpAddFile [lit "a"; lit "f"] REGULAR] fs_empty).2.
Proof.
  destruct (clear_spec ∅) as (m1 & Hm1 & Hr1).
  destruct (run_ops_spec [OpAddFile [lit "a"; lit "f"] REGULAR] m1 fs_empty Hr1) as (m & Hm & Hr);
    [decided|].
  unfold witness_map. by rewrite (St_bind_run _ _ _ _ _ Hm1), Hm.
Qed.

Lemma open_directory_lists_witness :
  ∃ r, OpenDirectory (lit "/a") witness_map = Done (r, witness_map) ∧ is_ok r = true.
Proof.
  destruct (open_directory_lists witness_map _ [lit "a"] witness_repr) as (r & Hr & Hp);
    [decided|].
  exists r. split; [exact Hr|]. destruct r as [e|d]; [|done]. exfalso.
  destruct Hp as [[_ [t Ht]]|(_ & Hn & _)]; [by vm_compute in Ht|].
  apply Hn. decided.
Defined.

Definition witness_listing : FilesInDir := {[lit "f" := REGULAR; lit "g/" := DIRECTORY]}.
Definition witness_dir : DirImpl := DirImpl_new "/a/" witness_listing.

Lemma getdents_enumerates_witness :
  ∃ ess w', getdents_calls 4 (λ w, Done (Some witness_dir, w)) (λ _ w, Done (0%Z, w))
              [9; 4; 12] (None, tt) = Done (map Ok ess, w') ∧
    map (λ e, (d_name e, d_type e)) (List.concat ess) =
    [(lit ".", DIRECTORY); (lit "..", DIRECTORY); (lit "f", REGULAR); (lit "g", DIRECTORY)].
Proof.
  destruct (getdents_enumerates 4 (λ w, Done (Some witness_dir, w)) (λ _ w, Done (0%Z, w))
           [4; 12] 9 witness_dir tt tt) as [(ess & w' & Hc & Hm) _].
  - lia.
  - intros q w. eexists. done.
  - decided.
  - done.
  - done.
  - decided.
  - exists ess, w'. split; [exact Hc|]. rewrite Hm. vm_compute. reflexivity.
Defined.

Lemma dir_add_inserts_witness :
  ∃ d', Add (lit "fa") SYMLINK witness_dir = Done d' ∧
    shows d' (<[lit "fa" := SYMLINK]> witness_listing).
Proof.
  pose proof (shows_new "/a/" witness_listing) as Hs. fold witness_dir in Hs.
  pose proof (dir_add_inserts _ _ (lit "fa") SYMLINK Hs eq_refl) as Hadd.
  destruct (Add (lit "fa") SYMLINK witness_dir) as [d'| |] eqn:E.
  - exists d'. split; [reflexivity|]. apply Hadd.
  - exfalso. apply Hadd. reflexivity.
  - destruct Hadd.
Defined.

(** A name before "." in byte order misses the sorted part: adding "-a" twice
    to the cursor that already holds it leaves a duplicate. *)
Lemma dir_add_duplicates :
  ∃ d', Add (lit "-a") REGULAR (DirImpl_new "/" {[lit "-a" := REGULAR]}) = Done d' ∧
    files_ d' = [(lit "-a", REGULAR); (lit "./", DIRECTORY); (lit "../", DIRECTORY);
                 (lit "-a", REGULAR)].
Proof. eexists. split; vm_compute; reflexivity. Qed.
End Witnesses.
