(* ===== verification/Util.v ===== *)
(** * Address and time arithmetic: [address_util.cc], [time_util.cc]
    (under src/posix_translation/)

    [size_t] and pointers are 32 bits wide on the NaCl targets of ARC, so
    address arithmetic wraps at 2^32.  [int64_t] arithmetic of times is done in
    Z; the narrowing into [time_t] is written out. *)

From S2P Require Import Prelude.

#[local] Open Scope Z_scope.

(** ** Machine integers *)

Definition wrap32 (x : Z) : Z := x mod 2 ^ 32.

(** Conversion to a signed integer of [bits] bits. *)
Definition to_signed (bits x : Z) : Z :=
  let u := x mod 2 ^ bits in
  if u <? 2 ^ (bits - 1) then u else u - 2 ^ bits.

Lemma to_signed_id bits x :
  0 < bits → - 2 ^ (bits - 1) <= x < 2 ^ (bits - 1) → to_signed bits x = x.
Proof.
  intros Hb Hx. unfold to_signed.
  assert (2 ^ bits = 2 * 2 ^ (bits - 1)) as Hpow.
  { replace bits with (Z.succ (bits - 1)) at 1 by lia. rewrite Z.pow_succ_r; lia. }
  destruct (Z.ltb_spec (x mod 2 ^ bits) (2 ^ (bits - 1))) as [H|H];
    destruct (decide (0 <= x)) as [Hpos|Hneg].
  - rewrite Z.mod_small; lia.
  - rewrite <-(Z.mod_add x 1), Z.mod_small in H by lia. lia.
  - rewrite Z.mod_small in H; lia.
  - rewrite <-(Z.mod_add x 1), Z.mod_small by lia. lia.
Qed.

(** ** address_util.cc *)

Section Address.
(** [sysconf(_SC_PAGESIZE)]. *)
Context (page_size : Z).

Definition GetPageSize : Z := page_size.

(** [__builtin_ctz] of a positive value. *)
Fixpoint builtin_ctz (p : positive) : Z :=
  match p with xO p' => 1 + builtin_ctz p' | _ => 0 end.

Definition CountTrailingZeros (value : Z) : Z :=
  match value with
  | Zpos p => builtin_ctz p
  | _ => 32
  end.

Definition GetPageSizeAsNumBits : Z := CountTrailingZeros GetPageSize.

Definition RoundToPageSize (length : Z) : Z :=
  Z.land (wrap32 (length + GetPageSize - 1)) (wrap32 (Z.lnot (GetPageSize - 1))).

Definition IsPageAligned (addr : Z) : bool := Z.land addr (GetPageSize - 1) =? 0.
End Address.

(** ** time_util.cc *)

Record timeval : Type := mkTimeval { tv_sec : Z; tv_usec : Z }.

#[export] Instance timeval_eq_dec : EqDecision timeval.
Proof. solve_decision. Defined.

Definition kMicrosecondsPerSecond : Z := 1000 * 1000.

Section Time.
(** The width of [time_t] and [suseconds_t]. *)
Context (time_bits : Z).

(** A [base::TimeDelta] is its number of microseconds. *)
Definition TimeValToTimeDelta (time : timeval) : Z :=
  tv_sec time * kMicrosecondsPerSecond + tv_usec time.

Definition TimeDeltaToTimeVal (usec : Z) : timeval :=
  let sec := to_signed time_bits (Z.quot usec kMicrosecondsPerSecond) in
  let us := to_signed time_bits (Z.rem usec kMicrosecondsPerSecond) in
  if us <? 0 then {| tv_sec := sec - 1; tv_usec := us + kMicrosecondsPerSecond |}
  else {| tv_sec := sec; tv_usec := us |}.

(** A [base::TimeTicks] is its internal value; [is_null] is zero. *)
Definition TimeOutToTimeLimit {W} (Now : St W Z) (timeout_period : Z) : St W Z :=
  if timeout_period =? 0 then mret 0
  else now ← Now; mret (now + timeout_period).

(** The condition variable and the clock are the platform's. *)
Definition WaitUntilInternal {W} (Now : St W Z) (Wait : St W unit)
    (TimedWait : Z → St W unit) (time_limit : Z) : St W bool :=
  if time_limit =? 0 then Wait;; mret false
  else
    start_time ← Now;
    if time_limit <=? start_time then mret true
    else
      TimedWait (time_limit - start_time);;
      end_time ← Now;
      mret (time_limit <=? end_time).
End Time.

(** What the code relies on of the clock and the condition variable: a timed wait
    ends, at a later time, in a state that other threads have changed, but that is
    [good]. *)
Record platform_ok {W} (good : W → Prop) (time : W → Z) (Now : St W Z)
    (TimedWait : Z → St W unit) : Prop := {
  po_now : ∀ w, Now w = Done (time w, w);
  po_clock : ∀ w, 0 < time w;
  po_timed : ∀ d w, 0 < d → good w →
    ∃ w', TimedWait d w = Done (tt, w') ∧ good w' ∧ time w < time w';
}.
Arguments po_now {W good time Now TimedWait}.
Arguments po_clock {W good time Now TimedWait}.
Arguments po_timed {W good time Now TimedWait}.

(* -------------------------------------------------------------------- *)
(** * Proofs *)

Lemma builtin_ctz_spec p : ∃ q, Zpos p = 2 ^ builtin_ctz p * (2 * q + 1) ∧ 0 <= builtin_ctz p.
Proof.
  induction p as [p _|p (q & IH & Hpos)|]; cbn [builtin_ctz].
  - exists (Zpos p). lia.
  - exists q. rewrite Z.pow_add_r, (Pos2Z.inj_xO p), IH by lia. lia.
  - exists 0. lia.
Qed.

Lemma builtin_ctz_pow2 k : 0 <= k → CountTrailingZeros (2 ^ k) = k.
Proof.
  intros Hk. pose proof (Z.pow_pos_nonneg 2 k ltac:(lia) Hk) as Hpos.
  destruct (2 ^ k) as [|p|p] eqn:E; [lia| |lia]. simpl.
  destruct (builtin_ctz_spec p) as (q & Hq & Hc). rewrite <-E in Hq.
  destruct (Z.lt_trichotomy (builtin_ctz p) k) as [H|[H|H]]; [|done|].
  - replace k with (builtin_ctz p + (1 + (k - builtin_ctz p - 1))) in Hq by lia.
    rewrite !Z.pow_add_r, Z.pow_1_r in Hq by lia.
    apply Z.mul_reg_l in Hq; [|lia]. lia.
  - replace (builtin_ctz p) with (k + (1 + (builtin_ctz p - k - 1))) in Hq by lia.
    rewrite !Z.pow_add_r, Z.pow_1_r in Hq by lia.
    assert (2 ^ k * 1 = 2 ^ k * (2 * 2 ^ (builtin_ctz p - k - 1) * (2 * q + 1))) as Hq' by lia.
    apply Z.mul_reg_l in Hq'; [|lia].
    pose proof (Z.pow_nonneg 2 (builtin_ctz p - k - 1)). lia.
Qed.

Lemma land_pred_pow2 k x : 0 <= k → Z.land x (2 ^ k - 1) = x mod 2 ^ k.
Proof. intros Hk. rewrite Z.sub_1_r, <-Z.ones_equiv. by apply Z.land_ones. Qed.

Lemma land_not_pred_pow2 k x :
  0 <= k < 32 → 0 <= x < 2 ^ 32 →
  Z.land x (wrap32 (Z.lnot (2 ^ k - 1))) = x / 2 ^ k * 2 ^ k.
Proof.
  intros Hk Hx. unfold wrap32. rewrite <-Z.land_ones by lia.
  rewrite (Z.land_comm (Z.lnot _)), Z.land_assoc, Z.land_ones, Z.mod_small by lia.
  rewrite Z.sub_1_r, <-Z.ones_equiv, <-Z.ldiff_land, Z.ldiff_ones_r by lia.
  by rewrite Z.shiftl_mul_pow2, Z.shiftr_div_pow2 by lia.
Qed.

Lemma round_to_page_eq k len :
  0 <= k < 32 → 0 <= len < 2 ^ 32 →
  RoundToPageSize (2 ^ k) len =
  if decide (len + 2 ^ k <= 2 ^ 32) then (len + 2 ^ k - 1) / 2 ^ k * 2 ^ k else 0.
Proof.
  intros Hk Hlen. unfold RoundToPageSize, GetPageSize.
  pose proof (Z.pow_pos_nonneg 2 k ltac:(lia) ltac:(lia)) as Hpos.
  assert (2 ^ k < 2 ^ 32) as Hlt by (apply Z.pow_lt_mono_r; lia).
  rewrite land_not_pred_pow2; [|done|apply Z.mod_pos_bound; lia].
  unfold wrap32. case_decide as H.
  - by rewrite Z.mod_small by lia.
  - rewrite <-(Z.mod_add _ (-1)), (Z.mod_small (len + 2 ^ k - 1 + -1 * 2 ^ 32)) by lia.
    rewrite Z.div_small by lia. lia.
Qed.

(** [RoundToPageSize] and [IsPageAligned] for a page size of [2^k] bytes.
    The result is the least multiple of the page size that is not below the
    length, as long as that multiple is below 2^32; for the longer lengths the
    32-bit sum wraps and the result is 0.  The result is page aligned, and
    [IsPageAligned] is divisibility by the page size, whose number of bits is
    [GetPageSizeAsNumBits]. *)
Theorem round_to_page_size_correct k len :
  0 <= k < 32 → 0 <= len < 2 ^ 32 →
  let r := RoundToPageSize (2 ^ k) len in
  (len + 2 ^ k <= 2 ^ 32 →
     len <= r < len + 2 ^ k ∧ (2 ^ k | r) ∧ ∀ m, (2 ^ k | m) → len <= m → r <= m) ∧
  (2 ^ 32 < len + 2 ^ k → r = 0) ∧
  IsPageAligned (2 ^ k) r = true ∧
  (IsPageAligned (2 ^ k) len = true ↔ (2 ^ k | len)) ∧
  GetPageSizeAsNumBits (2 ^ k) = k.
Proof.
  intros Hk Hlen r. subst r. rewrite round_to_page_eq by done.
  pose proof (Z.pow_pos_nonneg 2 k ltac:(lia) ltac:(lia)) as Hpos.
  unfold IsPageAligned, GetPageSize. rewrite !land_pred_pow2, !Z.eqb_eq by lia.
  pose proof (Z_div_mod_eq_full (len + 2 ^ k - 1) (2 ^ k)) as Hdiv.
  pose proof (Z.mod_pos_bound (len + 2 ^ k - 1) (2 ^ k) Hpos) as Hmod.
  split; [|split; [|split; [|split]]].
  - intros H. rewrite decide_True by done. split; [lia|]. split; [by eexists|].
    intros m [c ->] Hm.
    destruct (decide ((len + 2 ^ k - 1) / 2 ^ k <= c)) as [?|Hc]; [nia|].
    assert (c + 1 <= (len + 2 ^ k - 1) / 2 ^ k) by lia. nia.
  - intros H. by rewrite decide_False by lia.
  - case_decide; [by rewrite Z.mod_mul by lia|by rewrite Z.mod_0_l by lia].
  - apply Z.mod_divide. lia.
  - apply builtin_ctz_pow2. lia.
Qed.

Lemma round_to_page_size_correct_witness :
  RoundToPageSize 4096 4097 = 8192 ∧ IsPageAligned 4096 8192 = true ∧
  RoundToPageSize 4096 (2 ^ 32 - 1) = 0.
Proof.
  destruct (round_to_page_size_correct 12 4097) as (_ & _ & Ha & _ & _); [lia|lia|].
  destruct (round_to_page_size_correct 12 (2 ^ 32 - 1)) as (_ & H0 & _ & _ & _); [lia|lia|].
  split; [reflexivity|]. split; [exact Ha|]. apply H0. lia.
Defined.

(** Seconds are rounded down when they fit. *)
Lemma time_delta_to_timeval_eq bits us :
  32 <= bits →
  - 2 ^ (bits - 1) <= Z.quot us kMicrosecondsPerSecond < 2 ^ (bits - 1) →
  TimeDeltaToTimeVal bits us =
  {| tv_sec := us / kMicrosecondsPerSecond; tv_usec := us mod kMicrosecondsPerSecond |}.
Proof.
  intros Hb Hus'. unfold TimeDeltaToTimeVal.
  assert (2147483648 <= 2 ^ (bits - 1)) by (change 2147483648 with (2 ^ 31); apply Z.pow_le_mono_r; lia).
  change kMicrosecondsPerSecond with 1000000 in *.
  assert (- 1000000 < Z.rem us 1000000 < 1000000) by (Z.to_euclidean_division_equations; lia).
  rewrite !to_signed_id by lia.
  destruct (Z.ltb_spec (Z.rem us 1000000) 0); f_equal;
    Z.to_euclidean_division_equations; lia.
Qed.

(** Time conversions.  Any [TimeDelta] whose seconds fit in [time_t] becomes
    a normalized [timeval] (microseconds in 0..999999, seconds rounded toward
    minus infinity, so negative times borrow) that converts back to the same
    [TimeDelta]; and a normalized [timeval] survives the other round trip. *)
Theorem time_conversions_roundtrip bits usec tv :
  32 <= bits →
  - 2 ^ (bits - 1) <= Z.quot usec kMicrosecondsPerSecond < 2 ^ (bits - 1) →
  - 2 ^ (bits - 1) < tv_sec tv < 2 ^ (bits - 1) →
  0 <= tv_usec tv < kMicrosecondsPerSecond →
  let r := TimeDeltaToTimeVal bits usec in
  TimeValToTimeDelta r = usec ∧
  0 <= tv_usec r < kMicrosecondsPerSecond ∧ tv_sec r = usec / kMicrosecondsPerSecond ∧
  TimeDeltaToTimeVal bits (TimeValToTimeDelta tv) = tv.
Proof.
  intros Hb Hsec Htv Hus.
  pose proof (time_delta_to_timeval_eq bits) as Heq.
  intros r. subst r. change kMicrosecondsPerSecond with 1000000 in *.
  destruct tv as [s u]. unfold TimeValToTimeDelta. change kMicrosecondsPerSecond with 1000000.
  simpl in *. 
  rewrite !Heq by (Z.to_euclidean_division_equations; lia). simpl.
  repeat split; try f_equal; Z.to_euclidean_division_equations; lia.
Qed.

Lemma time_conversions_roundtrip_witness :
  TimeDeltaToTimeVal 32 (-1) = {| tv_sec := -1; tv_usec := 999999 |} ∧
  TimeValToTimeDelta (TimeDeltaToTimeVal 32 (-1)) = -1.
Proof.
  split; [reflexivity|].
  apply (time_conversions_roundtrip 32 (-1) {| tv_sec := 0; tv_usec := 0 |});
    vm_compute; intuition discriminate.
Defined.

Section Waiting.
Context {W : Type} (good : W → Prop) (time : W → Z).
Context (Now : St W Z) (Wait : St W unit) (TimedWait : Z → St W unit).
Context (Hpl : platform_ok good time Now TimedWait).

Lemma wait_until_run limit w :
  limit ≠ 0 → good w →
  ∃ w', WaitUntilInternal Now Wait TimedWait limit w = Done (bool_decide (limit <= time w'), w') ∧
    good w' ∧ (if decide (limit <= time w) then w' = w else time w < time w').
Proof.
  intros Hl Hw. unfold WaitUntilInternal. destruct (Z.eqb_spec limit 0); [done|].
  run_with (po_now Hpl w). destruct (Z.leb_spec limit (time w)).
  - exists w. rewrite bool_decide_true, decide_True by done. done.
  - destruct (po_timed Hpl (limit - time w) w) as (w' & Hrun & Hw' & Hc); [lia|done|].
    run_with Hrun. run_with (po_now Hpl w'). exists w'. rewrite decide_False by lia.
    split; [|done]. unfold mret, St_ret. do 2 f_equal.
    by destruct (Z.leb_spec limit (time w')); [rewrite bool_decide_true|rewrite bool_decide_false by lia].
Qed.
End Waiting.
