(* ===== verification/MountPoints.v ===== *)
(** * MountPoints: [mount_point_manager.{h,cc}] (under src/posix_translation/)
    and [src/common/update_tracking.h]

    The manager is a hash map from paths to a handler and an owner.  A handler is
    an opaque identity; the calls the manager makes on it ([OnMounted],
    [OnUnmounted]) are recorded in order in [notified].  The specification is the
    deepest mounted ancestor of a path. *)

From S2P Require Import Prelude BaseStrings PathUtil Util.

(** ** update_tracking.h *)

Module UpdateTracking.
Definition kInvalidUpdateNumber : Z := -1.
Definition kInitialUpdateNumber : Z := 0.

(** [update_number_++] on an [int], back to the first number past the largest. *)
Definition ProduceUpdate (update_number_ : Z) : Z :=
  let n := to_signed 32 (update_number_ + 1) in
  if (n <? kInitialUpdateNumber)%Z then kInitialUpdateNumber else n.

(** The consumer's [last_consumed_update_number_], and whether it is behind. *)
Definition AreThereUpdatesAndConsumeIfSo (last_consumed producer : Z) : bool * Z :=
  if bool_decide (last_consumed ≠ producer) then (true, producer) else (false, last_consumed).

Definition produce (n : nat) (u : Z) : Z := Nat.iter n ProduceUpdate u.

Lemma produce_eq n u :
  (0 <= u < 2 ^ 31)%Z → produce n u = ((u + Z.of_nat n) mod 2 ^ 31)%Z.
Proof.
  intros Hu. induction n as [|n IH].
  { rewrite Z.add_0_r, Z.mod_small by done. done. }
  unfold produce in *. simpl. rewrite IH. unfold ProduceUpdate, kInitialUpdateNumber.
  pose proof (Z.mod_pos_bound (u + Z.of_nat n) (2 ^ 31) ltac:(lia)) as Hb.
  replace (u + Z.of_nat (S n))%Z with (u + Z.of_nat n + 1)%Z by lia.
  rewrite <-(Z.add_mod_idemp_l (u + Z.of_nat n)) by lia.
  set (v := ((u + Z.of_nat n) mod 2 ^ 31)%Z) in *.
  destruct (decide (v + 1 < 2 ^ 31)%Z) as [Hlt|Hge].
  - rewrite to_signed_id, Z.mod_small by lia.
    destruct (Z.ltb_spec (v + 1) 0); lia.
  - assert (v = 2 ^ 31 - 1)%Z as -> by lia. done.
Qed.

(** One producer and one consumer, in the order in which they get the lock. *)
Inductive tracking_event : Type := Produced | Consulted.

(** The consumer's answers, and the producer's number at the end. *)
Fixpoint run_tracking (es : list tracking_event) (update_number last_consumed : Z) : list bool * Z :=
  match es with
  | [] => ([], update_number)
  | Produced :: es => run_tracking es (ProduceUpdate update_number) last_consumed
  | Consulted :: es =>
      let '(r, last_consumed) := AreThereUpdatesAndConsumeIfSo last_consumed update_number in
      let '(rs, n) := run_tracking es update_number last_consumed in (r :: rs, n)
  end.

(** The same, counting: [total] updates so far, [since] of them after the last question
    ([None] before the first). *)
Fixpoint count_tracking (es : list tracking_event) (total : Z) (since : option Z) : list bool * Z :=
  match es with
  | [] => ([], total mod 2 ^ 31)%Z
  | Produced :: es => count_tracking es (total + 1)%Z (Z.succ <$> since)
  | Consulted :: es =>
      let r := match since with None => true | Some n => negb (n mod 2 ^ 31 =? 0)%Z end in
      let '(rs, n) := count_tracking es total (Some 0%Z) in (r :: rs, n)
  end.

Lemma produce_mod total : (0 <= total)%Z → ProduceUpdate (total mod 2 ^ 31) = ((total + 1) mod 2 ^ 31)%Z.
Proof.
  intros Ht. pose proof (Z.mod_pos_bound total (2 ^ 31) ltac:(lia)) as Hb.
  change (ProduceUpdate (total mod 2 ^ 31)) with (produce 1 (total mod 2 ^ 31)). rewrite produce_eq by done.
  by rewrite Z.add_mod_idemp_l by lia.
Qed.

(** What the consumer remembers, [since] updates ago. *)
Definition remembered (total : Z) (since : option Z) : Z :=
  match since with None => kInvalidUpdateNumber | Some n => ((total - n) mod 2 ^ 31)%Z end.

Lemma consult_answer total since :
  (0 <= total)%Z →
  AreThereUpdatesAndConsumeIfSo (remembered total since) (total mod 2 ^ 31) =
  (match since with None => true | Some n => negb (n mod 2 ^ 31 =? 0)%Z end, (total mod 2 ^ 31)%Z).
Proof.
  intros Ht. unfold AreThereUpdatesAndConsumeIfSo. pose proof (Z.mod_pos_bound total (2 ^ 31) ltac:(lia)) as Hb.
  destruct since as [n|]; cbn [remembered].
  - assert (((total - n) mod 2 ^ 31 = total mod 2 ^ 31 ↔ n mod 2 ^ 31 = 0)%Z) as Hn.
    { split; intros E.
      - assert ((total - (total - n)) mod 2 ^ 31 = 0)%Z as E'
          by (rewrite Zminus_mod, E, Z.sub_diag; reflexivity).
        by replace (total - (total - n))%Z with n in E' by lia.
      - rewrite Zminus_mod, E, Z.sub_0_r, Z.mod_mod by lia. done. }
    case_bool_decide as E; destruct (Z.eqb_spec (n mod 2 ^ 31) 0) as [E'|E']; try tauto; cbn [negb]; f_equal; tauto.
  - rewrite bool_decide_true; [done|]. unfold kInvalidUpdateNumber. lia.
Qed.

Lemma run_tracking_counts es total since :
  (0 <= total)%Z →
  run_tracking es (total mod 2 ^ 31) (remembered total since) = count_tracking es total since.
Proof.
  revert total since. induction es as [|[] es IH]; intros total since Ht; cbn [run_tracking count_tracking]; [done| |].
  - rewrite produce_mod, <-IH by lia. destruct since as [n|]; [|done]. cbn.
    by replace (total + 1 - Z.succ n)%Z with (total - n)%Z by lia.
  - rewrite consult_answer by done. rewrite <-(IH total (Some 0%Z) Ht). cbn [remembered]. by rewrite Z.sub_0_r.
Qed.

(** C34.  A new producer and a new consumer, asked in any order with updates.  The first
    question is answered yes, whether there were updates or not and however many; every
    later one exactly when the number of updates since the question before is not a
    multiple of 2^31, so that none is missed among fewer than that.  The producer's number
    is the number of its updates modulo 2^31: it goes back to its first value after
    2^31 - 1, and never becomes the number that a new consumer has. *)
Theorem consumer_sees_updates es :
  run_tracking es kInitialUpdateNumber kInvalidUpdateNumber = count_tracking es 0 None.
Proof. apply (run_tracking_counts es 0 None). lia. Qed.
End UpdateTracking.

(** ** mount_point_manager.cc *)

Definition kRootUid : Z := 0.

Record MountPoint (FSH : Type) : Type := mkMountPoint { handler : FSH; owner_uid : Z }.
Arguments mkMountPoint {FSH}.
Arguments handler {FSH}.
Arguments owner_uid {FSH}.

(** The calls made on handlers. *)
Inductive notification (FSH : Type) : Type :=
| OnMounted (h : FSH) (path : str)
| OnUnmounted (h : FSH) (path : str).
Arguments OnMounted {FSH}.
Arguments OnUnmounted {FSH}.

Record MountPointManager (FSH : Type) : Type := mkMountPointManager {
  mount_point_map_ : gmap str (MountPoint FSH);
  update_number : Z;
  notified : list (notification FSH);
}.
Arguments mkMountPointManager {FSH}.
Arguments mount_point_map_ {FSH}.
Arguments update_number {FSH}.
Arguments notified {FSH}.

Section Manager.
Context `{BaseStrings} {FSH : Type}.

Abbreviation MM := (MountPointManager FSH).

Definition set_map (m : gmap str (MountPoint FSH)) (s : MM) : MM :=
  {| mount_point_map_ := m; update_number := update_number s; notified := notified s |}.

Definition notify (n : notification FSH) (s : MM) : MM :=
  {| mount_point_map_ := mount_point_map_ s; update_number := update_number s;
     notified := notified s ++ [n] |}.

Definition produce_update (s : MM) : MM :=
  {| mount_point_map_ := mount_point_map_ s;
     update_number := UpdateTracking.ProduceUpdate (update_number s);
     notified := notified s |}.

(** [handler] is [None] for NULL. *)
Definition Add (path : str) (handler : option FSH) : St MM unit :=
  check (bool_decide (path ≠ []));;
  match handler with
  | None => λ _, Abort
  | Some h =>
      s ← get;
      check (bool_decide (mount_point_map_ s !! path = None));;
      modify (λ s, set_map (<[path := mkMountPoint h kRootUid]> (mount_point_map_ s)) s);;
      modify (notify (OnMounted h path));;
      modify produce_update
  end.

Definition Remove (path : str) : St MM unit :=
  s ← get;
  match mount_point_map_ s !! path with
  | None => mret tt
  | Some mp =>
      modify (λ s, set_map (delete path (mount_point_map_ s)) s);;
      modify (notify (OnUnmounted (handler mp) path));;
      modify produce_update
  end.

(** The body of [do ... while (dir.length() > 1)]: found, or the [dir] the loop
    ends with. *)
Definition deepest_step (m : gmap str (MountPoint FSH)) (dir : str) :
    str + (MountPoint FSH + str) :=
  let dir := EnsurePathEndsWithSlash dir in
  match m !! dir with
  | Some mp => inr (inl mp)
  | None =>
      let dir := GetDirNameInPlace dir in
      if Nat.ltb 1 (List.length dir) then inl dir else inr (inr dir)
  end.

(** The handler (NULL is [None]) and [*owner_uid], which an empty path leaves. *)
Definition GetFileSystemHandler (path : str) (owner_uid0 : Z)
    (m : gmap str (MountPoint FSH)) : outcome (option FSH * Z) :=
  if bool_decide (path = []) then mret (None, owner_uid0)
  else
    match m !! path with
    | Some mp => mret (Some (handler mp), owner_uid mp)
    | None =>
        r ← loop (Datatypes.S (List.length path)) (deepest_step m) path;
        match r with
        | inl mp => mret (Some (handler mp), owner_uid mp)
        | inr dir =>
            if bool_decide (dir = lit "/") then
              match m !! dir with
              | Some mp => mret (Some (handler mp), owner_uid mp)
              | None => mret (None, kRootUid)
              end
            else mret (None, kRootUid)
        end
    end.

Definition ChangeOwner (path : str) (uid : Z) : St MM unit :=
  check (bool_decide (path ≠ []));;
  s ← get;
  match mount_point_map_ s !! path with
  | Some _ => mret tt
  | None =>
      r ← lift (GetFileSystemHandler path 0 (mount_point_map_ s));
      check (bool_decide (is_Some (r.1)));;
      Add path r.1
  end;;
  s ← get;
  match mount_point_map_ s !! path with
  | None => λ _, Abort
  | Some mp =>
      put (set_map (<[path := mkMountPoint (handler mp) uid]> (mount_point_map_ s)) s);;
      modify produce_update
  end.

Definition GetAllFileSystemHandlers (s : MM) : list FSH :=
  map (λ kv, handler kv.2) (map_to_list (mount_point_map_ s)).

Definition Clear : St MM unit := modify (set_map ∅).

(** ** Specification *)

(** [mp] is mounted on the longest prefix of [ds] that is a mounted
    directory. *)
Definition deepest_mount (m : gmap str (MountPoint FSH)) (ds : list str)
    (r : option (MountPoint FSH)) : Prop :=
  match r with
  | Some mp => ∃ es, es `prefix_of` ds ∧ m !! dirpath es = Some mp ∧
      ∀ es', es' `prefix_of` ds → is_Some (m !! dirpath es') → es' `prefix_of` es
  | None => ∀ es, es `prefix_of` ds → m !! dirpath es = None
  end.

(** What a lookup of the path named [s], with components [ds], must give. *)
Definition mount_for (m : gmap str (MountPoint FSH)) (s : str) (ds : list str)
    (r : option (MountPoint FSH)) : Prop :=
  match m !! s with
  | Some mp => r = Some mp
  | None => deepest_mount m ds r
  end.

Definition mount_result (r : option (MountPoint FSH)) : option FSH * Z :=
  match r with Some mp => (Some (handler mp), owner_uid mp) | None => (None, kRootUid) end.

(** The names of a normalized absolute path: as a file and as a directory. *)
Definition names (s : str) (ds : list str) : Prop :=
  proper ds ∧ (s = print_path true ds ∨ s = dirpath ds).
End Manager.

(* -------------------------------------------------------------------- *)
(** * Proofs *)

Section Proofs.
Context `{BaseStringsSpec} {FSH : Type}.
Implicit Types m : gmap str (MountPoint FSH).

Lemma prefix_snoc_inv es (ds : list str) x :
  es `prefix_of` ds ++ [x] ↔ es = ds ++ [x] ∨ es `prefix_of` ds.
Proof.
  split.
  - intros [ks Hk]. destruct ks as [|k ks _] using rev_ind.
    + rewrite app_nil_r in Hk. by left.
    + rewrite app_assoc in Hk. apply app_inj_tail in Hk as [-> _]. right. by eexists.
  - intros [->|?]; [done|]. by apply prefix_app_r.
Qed.

(** The deepest mount is unique and there is one. *)
Lemma deepest_snoc m ds x r :
  deepest_mount m (ds ++ [x]) r ↔
  match m !! dirpath (ds ++ [x]) with
  | Some mp => r = Some mp
  | None => deepest_mount m ds r
  end.
Proof.
  unfold deepest_mount. destruct r as [mp|].
  - destruct (m !! dirpath (ds ++ [x])) as [mp'|] eqn:E.
    + split.
      * intros (es & Hes & Hm & Hmax).
        specialize (Hmax (ds ++ [x]) ltac:(done) ltac:(eauto)).
        apply prefix_snoc_inv in Hes as [->|Hes]; [congruence|].
        apply prefix_length in Hmax. apply prefix_length in Hes.
        rewrite length_app in Hmax. simpl in Hmax. lia.
      * intros [= ->]. by exists (ds ++ [x]).
    + split; intros (es & Hes & Hm & Hmax).
      * apply prefix_snoc_inv in Hes as [->|Hes]; [congruence|].
        exists es. split; [done|]. split; [done|]. intros es' He. apply Hmax.
        apply prefix_snoc_inv. by right.
      * exists es. split; [apply prefix_snoc_inv; by right|]. split; [done|].
        intros es' [->|He]%prefix_snoc_inv Hs; [|by apply Hmax].
        rewrite E in Hs. by destruct Hs.
  - destruct (m !! dirpath (ds ++ [x])) as [mp'|] eqn:E.
    + split; [|done]. intros Hn. by rewrite (Hn (ds ++ [x])) in E.
    + setoid_rewrite prefix_snoc_inv. naive_solver.
Qed.

Lemma deepest_nil m r : deepest_mount m [] r ↔ m !! dirpath [] = r.
Proof.
  unfold deepest_mount. destruct r as [mp|]; split.
  - by intros (es & ->%prefix_nil_inv & ? & _).
  - intros Hm. exists []. split; [done|]. split; [done|]. by intros es' ->%prefix_nil_inv.
  - intros Hn. by apply Hn.
  - by intros Hm es ->%prefix_nil_inv.
Qed.

Lemma deepest_exists m ds : ∃ r, deepest_mount m ds r.
Proof.
  induction ds as [|x ds [r IH]] using rev_ind; [eexists; by apply deepest_nil|].
  setoid_rewrite deepest_snoc. destruct (m !! dirpath (ds ++ [x])); eauto.
Qed.

Lemma deepest_unique m ds r r' : deepest_mount m ds r → deepest_mount m ds r' → r = r'.
Proof.
  induction ds as [|x ds IH] using rev_ind; [rewrite !deepest_nil; congruence|].
  rewrite !deepest_snoc. destruct (m !! dirpath (ds ++ [x])); [congruence|done].
Qed.

(** ** The loop *)

Lemma names_nonempty s ds : names s ds → s ≠ [].
Proof. intros [Hp [->| ->]]; [by apply print_path_nonempty|]. by destruct ds. Qed.

Lemma names_ensure s ds : names s ds → EnsurePathEndsWithSlash s = dirpath ds.
Proof. intros [Hp [->| ->]]; [by apply ensure_slash_print|apply ensure_slash_dirpath]. Qed.

(** What the loop has found, given the root's mount. *)
Definition found m (r : MountPoint FSH + str) : option (MountPoint FSH) :=
  match r with
  | inl mp => Some mp
  | inr dir => if bool_decide (dir = lit "/") then m !! dir else None
  end.

Lemma deepest_loop m ds s fuel :
  names s ds → List.length ds < fuel →
  ∃ r, loop fuel (deepest_step m) s = Done r ∧ deepest_mount m ds (found m r).
Proof.
  revert s fuel. induction ds as [|x ds IH] using rev_ind; intros s fuel Hs Hf;
    (destruct fuel as [|fuel]; [simpl in Hf; lia|]).
  - cbn [loop]. unfold deepest_step. rewrite (names_ensure _ _ Hs).
    setoid_rewrite deepest_nil. destruct (m !! dirpath []) as [mp|] eqn:E.
    + by eexists.
    + exists (inr (lit "/")). split; [done|]. symmetry. exact E.
  - cbn [loop]. unfold deepest_step. rewrite (names_ensure _ _ Hs).
    setoid_rewrite deepest_snoc.
    destruct (m !! dirpath (ds ++ [x])) as [mp|] eqn:E; [by eexists|].
    destruct Hs as [Hp _]. rewrite dir_name_dirpath, removelast_last by done.
    apply proper_app in Hp as [Hp _]. rewrite length_app in Hf. simpl in Hf.
    destruct ds as [|y ds].
    + exists (inr (lit "/")). split; [done|]. apply deepest_nil. done.
    + rewrite (proj2 (Nat.ltb_lt _ _)).
      * apply IH; [|lia]. split; [done|]. by left.
      * apply print_path_length. intros Heq. rewrite Heq in Hp.
        inversion Hp as [|?? (_ & _ & ?)]; done.
Qed.

Lemma length_join_abs (ds : list str) : List.length ds ≤ List.length (join_abs slash ds).
Proof. induction ds as [|d ds IH]; [done|]. rewrite join_abs_cons. simpl. rewrite length_app. lia. Qed.

Lemma names_length s ds : names s ds → List.length ds < Datatypes.S (List.length s).
Proof.
  pose proof (length_join_abs ds). intros [_ [->| ->]].
  - destruct ds; [simpl; lia|]. unfold print_path. lia.
  - unfold dirpath. rewrite length_app. simpl. lia.
Qed.

Lemma get_handler_spec m s ds uid0 :
  names s ds →
  ∃ r, GetFileSystemHandler s uid0 m = Done (mount_result r) ∧ mount_for m s ds r.
Proof.
  intros Hs. unfold GetFileSystemHandler, mount_for.
  rewrite bool_decide_false by by eapply names_nonempty.
  destruct (m !! s) as [mp|] eqn:E; [by exists (Some mp)|].
  destruct (deepest_loop m ds s _ Hs (names_length _ _ Hs)) as (r & Hr & Hd).
  exists (found m r). split; [|done]. unfold mbind, outcome_bind. rewrite Hr.
  destruct r as [mp|dir]; [done|]. simpl. case_bool_decide; [|done]. by destruct (m !! dir).
Qed.

(** A handler that is found is mounted, with its owner. *)
Lemma get_handler_mounted m s uid0 :
  done_with (GetFileSystemHandler s uid0 m)
    (λ r, ∀ h, r.1 = Some h → ∃ p mp, m !! p = Some mp ∧ handler mp = h ∧ owner_uid mp = r.2).
Proof.
  unfold GetFileSystemHandler. case_bool_decide as Hs; [done|].
  destruct (m !! s) as [mp|] eqn:Em; [intros h [= <-]; by exists s, mp|].
  assert (done_with (loop (Datatypes.S (List.length s)) (deepest_step m) s)
            (λ r, ∀ mp, r = inl mp → ∃ p, m !! p = Some mp)) as Hl.
  { apply loop_rule with (I := λ _, True) (m := List.length); try done; [| |lia].
    - intros dir dir' _. unfold deepest_step. destruct (m !! EnsurePathEndsWithSlash dir); [done|].
      destruct (Nat.ltb_spec 1 (List.length (GetDirNameInPlace (EnsurePathEndsWithSlash dir))));
        [|done].
      intros [= <-]. split; [done|]. by apply dir_name_shorter.
    - intros dir r _. unfold deepest_step. destruct (m !! EnsurePathEndsWithSlash dir) as [mp|] eqn:E.
      + intros [= <-] mp' [= <-]. by eexists.
      + destruct (Nat.ltb _ _); [done|]. by intros [= <-]. }
  destruct (loop _ _ _) as [[mp|dir]| |]; simpl in *; try done.
  - intros h [= <-]. destruct (Hl mp eq_refl) as [p Hp]. by exists p, mp.
  - case_bool_decide; [|done]. destruct (m !! dir) as [mp|] eqn:E; [|done].
    intros h [= <-]. by exists dir, mp.
Qed.

Lemma get_handler_total m s uid0 : done_with (GetFileSystemHandler s uid0 m) (λ _, True).
Proof. pose proof (get_handler_mounted m s uid0) as Hm. by destruct (GetFileSystemHandler _ _ _). Qed.

(** ** Changing the map *)

Lemma names_dirpath s ds :
  names s ds → (s = dirpath ds) ∨ (∀ es, proper es → s ≠ dirpath es).
Proof.
  intros [Hp [->| ->]]; [|by left]. destruct ds as [|d ds]; [by left|]. right.
  intros es He E. pose proof (print_ends_slash true (d :: ds) Hp ltac:(done)) as Hend.
  by rewrite E, ends_slash_dirpath in Hend.
Qed.

Lemma names_inj s ds es : names s ds → names s es → ds = es.
Proof.
  intros Hd He. apply dirpath_inj_proper; [apply Hd|apply He|].
  by rewrite <-(names_ensure _ _ Hd), <-(names_ensure _ _ He).
Qed.

Lemma deepest_agree m m' ds r :
  (∀ es, es `prefix_of` ds → m !! dirpath es = m' !! dirpath es) →
  deepest_mount m ds r → deepest_mount m' ds r.
Proof.
  intros Heq. destruct r as [mp|]; simpl.
  - intros (es & Hes & Hm & Hmax). exists es. split; [done|]. rewrite <-Heq by done.
    split; [done|]. intros es' He. rewrite <-Heq by done. by apply Hmax.
  - intros Hn es Hes. rewrite <-Heq by done. by apply Hn.
Qed.

Lemma deepest_insert m ds mp new es r r' :
  proper ds → proper es → deepest_mount m ds (Some mp) → handler new = handler mp →
  deepest_mount m es r → deepest_mount (<[dirpath ds := new]> m) es r' →
  handler <$> r' = handler <$> r ∧ (¬ ds `prefix_of` es → r' = r).
Proof.
  intros Hds Hes Hmp Hnew. revert r r'. induction es as [|x es IH] using rev_ind; intros r r'.
  - rewrite !deepest_nil, lookup_insert. case_decide as E; [|intros <- <-; done].
    apply dirpath_inj_proper in E as ->; [|done|done]. apply deepest_nil in Hmp.
    rewrite Hmp. intros <- <-. simpl. rewrite Hnew. split; [done|]. intros Hn. by destruct Hn.
  - rewrite !deepest_snoc, lookup_insert. pose proof Hes as [Hes' _]%proper_app.
    case_decide as E.
    + apply dirpath_inj_proper in E as ->; [|done|done]. intros Hr ->.
      split; [|intros Hn; by destruct Hn]. simpl. rewrite Hnew. apply deepest_snoc in Hmp.
      destruct (m !! dirpath (es ++ [x])) as [mp0|]; [by simplify_eq|].
      by rewrite (deepest_unique _ _ _ _ Hr Hmp).
    + destruct (m !! dirpath (es ++ [x])) as [mp0|]; [by intros -> ->|].
      intros Hr Hr'. destruct (IH Hes' _ _ Hr Hr') as [Hh Hu]. split; [done|].
      intros Hn. apply Hu. intros Hp. apply Hn. by apply prefix_app_r.
Qed.

(** A mount with the handler its path already has. *)
Lemma mount_insert m s ds mp new s' es r r' :
  names s ds → mount_for m s ds (Some mp) → handler new = handler mp → names s' es →
  mount_for m s' es r → mount_for (<[s := new]> m) s' es r' →
  handler <$> r' = handler <$> r ∧ (¬ ds `prefix_of` es → r' = r).
Proof.
  intros Hs Hmp Hnew Hs'. unfold mount_for. rewrite lookup_insert. case_decide as E.
  - subst s'. pose proof (names_inj _ _ _ Hs Hs') as <-. intros Hr ->.
    split; [|intros Hn; by destruct Hn]. simpl. rewrite Hnew. unfold mount_for in Hmp.
    destruct (m !! s) as [mp0|]; [by simplify_eq|]. by rewrite (deepest_unique _ _ _ _ Hr Hmp).
  - destruct (m !! s') as [mp0|]; [by intros -> ->|].
    destruct (names_dirpath _ _ Hs) as [->|Hno].
    + apply deepest_insert with (mp := mp); [apply Hs|apply Hs'| |done].
      unfold mount_for in Hmp. destruct (m !! dirpath ds) as [mp0|] eqn:E0; [|done].
      injection Hmp as ->. exists ds. by split_and!.
    + intros Hr Hr'. assert (r' = r) as ->; [|done]. eapply deepest_unique; [exact Hr'|].
      eapply deepest_agree; [|exact Hr]. intros ks [k Hk].
      rewrite lookup_insert_ne; [done|]. apply Hno.
      destruct Hs' as [Hp _]. rewrite Hk in Hp. apply proper_app in Hp as [Hp _]. exact Hp.
Qed.

(** ** Runs of the operations that change the map *)

Lemma add_spec (s : str) h (st : MountPointManager FSH) :
  Add s (Some h) st =
  if bool_decide (s ≠ []) && bool_decide (mount_point_map_ st !! s = None) then
    Done (tt, {| mount_point_map_ := <[s := mkMountPoint h kRootUid]> (mount_point_map_ st);
                 update_number := UpdateTracking.ProduceUpdate (update_number st);
                 notified := notified st ++ [OnMounted h s] |})
  else Abort.
Proof.
  unfold Add, check, get, modify, mbind, St_bind. case_bool_decide; [|done].
  by case_bool_decide.
Qed.

Definition owner_set (m : gmap str (MountPoint FSH)) (s : str) (mp : MountPoint FSH) (uid : Z) :=
  <[s := mkMountPoint (handler mp) uid]> m.

Lemma change_owner_spec (s : str) ds uid (st : MountPointManager FSH) mp :
  names s ds → mount_for (mount_point_map_ st) s ds (Some mp) →
  ∃ st', ChangeOwner s uid st = Done (tt, st') ∧
    mount_point_map_ st' = owner_set (mount_point_map_ st) s mp uid ∧
    notified st' = notified st ++
      match mount_point_map_ st !! s with None => [OnMounted (handler mp) s] | Some _ => [] end.
Proof.
  intros Hs Hmp. unfold ChangeOwner, check, get, put, modify. unfold mbind, St_bind.
  rewrite bool_decide_true by by eapply names_nonempty.
  destruct (mount_point_map_ st !! s) as [mp0|] eqn:E.
  - unfold mount_for in Hmp. rewrite E in Hmp. injection Hmp as ->.
    unfold mret, St_ret. rewrite E. eexists. split; [done|]. simpl. by rewrite app_nil_r.
  - destruct (get_handler_spec (mount_point_map_ st) s ds 0 Hs) as (r & Hr & Hd).
    unfold lift. rewrite Hr. unfold mount_for in Hd, Hmp. rewrite E in Hd, Hmp.
    rewrite (deepest_unique _ _ _ _ Hd Hmp). cbn [mount_result fst].
    rewrite (bool_decide_true (is_Some _)) by eauto.
    rewrite add_spec, E. rewrite (bool_decide_true (s ≠ [])) by by eapply names_nonempty.
    rewrite bool_decide_true by done. cbn [andb mount_point_map_]. rewrite lookup_insert_eq.
    eexists. split; [done|]. split; [|done]. unfold owner_set. simpl. by rewrite insert_insert_eq.
Qed.

(** C16.  [GetFileSystemHandler] terminates on every path, and on a normalized
    absolute path, with or without a slash at its end, it gives the mount point
    of exactly that name when there is one, and otherwise the mount point of
    the deepest mounted directory that contains the path (or is it); its owner
    comes along, and NULL with the root user comes out exactly when no
    directory on the way to the root is mounted. *)
Theorem get_file_system_handler_deepest m s ds uid0 :
  done_with (GetFileSystemHandler s uid0 m) (λ _, True) ∧
  (names s ds →
   ∃ r, GetFileSystemHandler s uid0 m = Done (mount_result r) ∧ mount_for m s ds r ∧
        ∀ r', mount_for m s ds r' → r' = r).
Proof.
  split; [apply get_handler_total|]. intros Hs.
  destruct (get_handler_spec m s ds uid0 Hs) as (r & ? & Hr). exists r. split_and!; try done.
  unfold mount_for in *. destruct (m !! s); [congruence|]. intros r' Hr'.
  by eapply deepest_unique.
Qed.

(** [ChangeOwner] on a path that some handler serves succeeds and changes
    owners only: the path gets the new owner; every normalized path keeps the
    handler it had, also those below a mount point that was made on the way;
    paths that are not the path or below it keep their owner.  A mount point is
    made, and its handler told, exactly when the path was not one. *)
Theorem change_owner_keeps_handlers (s : str) ds uid (st : MountPointManager FSH) mp :
  names s ds → mount_for (mount_point_map_ st) s ds (Some mp) →
  ∃ st', ChangeOwner s uid st = Done (tt, st') ∧
    GetFileSystemHandler s 0 (mount_point_map_ st') = Done (Some (handler mp), uid) ∧
    (∀ s' es, names s' es →
       ∃ r r', GetFileSystemHandler s' 0 (mount_point_map_ st) = Done r ∧
               GetFileSystemHandler s' 0 (mount_point_map_ st') = Done r' ∧
               r'.1 = r.1 ∧ (¬ ds `prefix_of` es → r'.2 = r.2)) ∧
    notified st' = notified st ++
      match mount_point_map_ st !! s with None => [OnMounted (handler mp) s] | Some _ => [] end.
Proof.
  intros Hs Hmp. destruct (change_owner_spec s ds uid st mp Hs Hmp) as (st' & Hrun & Hm & Hn).
  exists st'. split; [done|]. rewrite Hm. unfold owner_set. split; [|split; [|done]].
  - unfold GetFileSystemHandler. rewrite bool_decide_false by by eapply names_nonempty.
    by rewrite lookup_insert_eq.
  - intros s' es Hs'.
    destruct (get_handler_spec (mount_point_map_ st) s' es 0 Hs') as (r & Hr & Hd).
    destruct (get_handler_spec (<[s := mkMountPoint (handler mp) uid]> (mount_point_map_ st))
                s' es 0 Hs') as (r' & Hr' & Hd').
    exists (mount_result r), (mount_result r'). split; [done|]. split; [done|].
    destruct (mount_insert _ _ _ _ _ _ _ _ _ Hs Hmp (eq_refl : handler (mkMountPoint (handler mp) uid) = _) Hs' Hd Hd') as [Hh Hu].
    split; [|by intros ->%Hu]. destruct r, r'; simpl in *; congruence.
Qed.

(** [Add] and [Remove]: adding a new path mounts it with the root user as
    its owner and tells the handler; adding it again, adding NULL or an empty
    path is fatal; removing it restores the map and tells the handler; removing
    a path that is not mounted changes nothing. *)
Theorem add_remove_mount_point (s : str) h (st : MountPointManager FSH) :
  s ≠ [] → mount_point_map_ st !! s = None →
  ∃ st1 st2, Add s (Some h) st = Done (tt, st1) ∧
    GetFileSystemHandler s 0 (mount_point_map_ st1) = Done (Some h, kRootUid) ∧
    Add s (Some h) st1 = Abort ∧ Add s None st = Abort ∧ Add [] (Some h) st = Abort ∧
    Remove s st1 = Done (tt, st2) ∧ mount_point_map_ st2 = mount_point_map_ st ∧
    notified st2 = notified st ++ [OnMounted h s; OnUnmounted h s] ∧
    Remove s st2 = Done (tt, st2).
Proof.
  intros Hs Hn. eexists _, _. rewrite add_spec, !bool_decide_true by done. split; [done|].
  split.
  { unfold GetFileSystemHandler. rewrite bool_decide_false by done. simpl.
    by rewrite lookup_insert_eq. }
  rewrite add_spec. cbn [mount_point_map_]. rewrite lookup_insert_eq.
  rewrite (bool_decide_false (Some _ = None)) by done. rewrite andb_false_r.
  split; [done|]. split.
  { unfold Add, check, mbind, St_bind. by rewrite bool_decide_true. }
  split; [done|]. unfold Remove, get, modify, mbind, St_bind. cbn [mount_point_map_].
  rewrite lookup_insert_eq. split; [done|]. cbn [mount_point_map_ notify set_map produce_update].
  rewrite delete_insert_id by done. split; [done|]. split; [simpl; by rewrite <-app_assoc|].
  by rewrite Hn.
Qed.
End Proofs.

(** ** Witnesses, on the mount points of the unit test *)

Section Witnesses.
Import Reference.

Definition witness_state : MountPointManager nat :=
  {| mount_point_map_ := {[ lit "/path/to/dir/" := mkMountPoint 1 1000%Z;
                            lit "/" := mkMountPoint 2 2000%Z ]};
     update_number := 0; notified := [] |}.

Lemma get_file_system_handler_deepest_witness :
  ∃ r, GetFileSystemHandler (lit "/path/to/dir/1") 0 (mount_point_map_ witness_state) =
         Done (mount_result r) ∧ r = Some (mkMountPoint 1 1000%Z).
Proof.
  destruct (get_file_system_handler_deepest (mount_point_map_ witness_state)
    (lit "/path/to/dir/1") [lit "path"; lit "to"; lit "dir"; lit "1"] 0) as [_ Hn].
  destruct Hn as (r & Hr & _ & _); [split; [decided|by left]|].
  exists r. split; [exact Hr|]. vm_compute in Hr. destruct r as [[h u]|]; vm_compute in Hr; congruence.
Defined.

Lemma change_owner_keeps_handlers_witness :
  ∃ st', ChangeOwner (lit "/path/x") 7 witness_state = Done (tt, st') ∧
    GetFileSystemHandler (lit "/path/x") 0 (mount_point_map_ st') = Done (Some 2, 7%Z).
Proof.
  destruct (change_owner_keeps_handlers (lit "/path/x") [lit "path"; lit "x"] 7 witness_state
    (mkMountPoint 2 2000%Z)) as (st' & Hr & Hg & _).
  - split; [decided|by left].
  - change (deepest_mount (mount_point_map_ witness_state) [lit "path"; lit "x"]
              (Some (mkMountPoint 2 2000%Z))).
    apply (deepest_snoc _ [lit "path"] (lit "x")).
    change (deepest_mount (mount_point_map_ witness_state) [lit "path"]
              (Some (mkMountPoint 2 2000%Z))).
    apply (deepest_snoc _ [] (lit "path")).
    change (deepest_mount (mount_point_map_ witness_state) [] (Some (mkMountPoint 2 2000%Z))).
    apply deepest_nil. reflexivity.
  - by exists st'.
Defined.

Lemma add_remove_mount_point_witness :
  ∃ st1, Add (lit "/dev/null") (Some 3) witness_state = Done (tt, st1) ∧
    GetFileSystemHandler (lit "/dev/null") 0 (mount_point_map_ st1) = Done (Some 3, 0%Z).
Proof.
  destruct (add_remove_mount_point (lit "/dev/null") 3 witness_state)
    as (st1 & st2 & H1 & H2 & _); [done|reflexivity|].
  by exists st1.
Defined.
End Witnesses.
