(* ===== verification/FileStream.v ===== *)
(** * FileStream: [file_stream.{h,cc}] (under src/posix_translation/)

    The base class of all open files.  Streams are objects shared by descriptors,
    memory regions and listeners, so they live in a store ([Streams]) under an
    identity; the virtual methods that the base class calls on itself or on
    listeners ([OnLastFileRef], [HandleNotificationFrom]) are recorded, in order,
    in [calls].  The default operations that work through the virtual [lseek],
    [read] and [write] take these as arguments. *)

From S2P Require Import Prelude Util.

#[local] Open Scope Z_scope.

Abbreviation sid := nat.

Inductive vcall : Type :=
| CallOnLastFileRef (s : sid)
| CallHandleNotificationFrom (listener file : sid) (is_closing : bool).

#[export] Instance vcall_eq_dec : EqDecision vcall.
Proof. solve_decision. Defined.

(** The fields of [FileStream] that change after construction. *)
Record FileStream : Type := mkFileStream {
  oflag_ : Z;
  is_listening_enabled_ : bool;
  listeners_ : gset sid;
  file_ref_count_ : Z;
  had_file_refs_ : bool;
}.

#[export] Instance file_stream_eq_dec : EqDecision FileStream.
Proof. solve_decision. Defined.

Record Streams : Type := mkStreams {
  objects : gmap sid FileStream;
  calls : list vcall;
}.

(** ** References and listeners *)

Module Refs.
(** The constructor's values. *)
Definition new_stream (oflag : Z) (listening : bool) : FileStream :=
  {| oflag_ := oflag; is_listening_enabled_ := listening; listeners_ := ∅;
     file_ref_count_ := 0; had_file_refs_ := false |}.

(** Dereferencing a [scoped_refptr]: the object exists. *)
Definition deref (s : sid) : St Streams FileStream := λ w,
  match objects w !! s with Some f => Done (f, w) | None => Abort end.

Definition set_object (s : sid) (f : FileStream) : St Streams unit :=
  modify (λ w, {| objects := <[s := f]> (objects w); calls := calls w |}).

Definition vcall_ (c : vcall) : St Streams unit :=
  modify (λ w, {| objects := objects w; calls := calls w ++ [c] |}).

Definition set_count (n : Z) (had : bool) (f : FileStream) : FileStream :=
  {| oflag_ := oflag_ f; is_listening_enabled_ := is_listening_enabled_ f;
     listeners_ := listeners_ f; file_ref_count_ := n; had_file_refs_ := had |}.

Definition set_listeners (l : gset sid) (f : FileStream) : FileStream :=
  {| oflag_ := oflag_ f; is_listening_enabled_ := is_listening_enabled_ f;
     listeners_ := l; file_ref_count_ := file_ref_count_ f;
     had_file_refs_ := had_file_refs_ f |}.

Definition IsClosed (f : FileStream) : bool :=
  had_file_refs_ f && (file_ref_count_ f =? 0).

Definition CheckNotClosed (s : sid) : St Streams unit :=
  f ← deref s; check (negb (IsClosed f)).

Definition AddFileRef (s : sid) : St Streams unit :=
  CheckNotClosed s;;
  f ← deref s;
  set_object s (set_count (file_ref_count_ f + 1) true f).

Definition ReleaseFileRef (s : sid) : St Streams unit :=
  CheckNotClosed s;;
  f ← deref s;
  check (had_file_refs_ f);;
  check (0 <? file_ref_count_ f);;
  let f := set_count (file_ref_count_ f - 1) (had_file_refs_ f) f in
  set_object s f;;
  if negb (file_ref_count_ f =? 0) then mret tt
  else
    for_each (λ l, vcall_ (CallHandleNotificationFrom l s true)) (elements (listeners_ f));;
    set_object s (set_listeners ∅ f);;
    vcall_ (CallOnLastFileRef s).

Definition NotifyListeners (s : sid) : St Streams unit :=
  f ← deref s;
  check (is_listening_enabled_ f);;
  if IsClosed f then mret tt
  else
    for_each (λ l, CheckNotClosed l;; vcall_ (CallHandleNotificationFrom l s false))
             (elements (listeners_ f)).

Definition StartListeningTo (this file : sid) : St Streams bool :=
  f ← deref file;
  if negb (is_listening_enabled_ f) then mret false
  else
    CheckNotClosed this;;
    CheckNotClosed file;;
    check (bool_decide (this ∉ listeners_ f));;
    set_object file (set_listeners ({[this]} ∪ listeners_ f) f);;
    mret true.

Definition StopListeningTo (this file : sid) : St Streams unit :=
  f ← deref file;
  set_object file (set_listeners (listeners_ f ∖ {[this]}) f).

(** ~FileStream. *)
Definition destroy (s : sid) : St Streams unit :=
  f ← deref s;
  check (negb (had_file_refs_ f) || (file_ref_count_ f =? 0)).
End Refs.

(** ** Default system calls *)

Module Defaults.
(** The calls that a stream without an implementation refuses. *)
Inductive syscall : Type :=
| sys_accept | sys_bind | sys_connect | sys_epoll_ctl | sys_epoll_wait | sys_ftruncate
| sys_getdents | sys_getpeername | sys_getsockname | sys_getsockopt | sys_ioctl | sys_listen
| sys_lseek | sys_mmap | sys_munmap | sys_recv | sys_recvfrom | sys_recvmsg | sys_send
| sys_sendto | sys_sendmsg | sys_setsockopt | sys_fdatasync | sys_fsync.

Definition default_result (c : syscall) : res Z :=
  match c with
  | sys_accept | sys_bind | sys_connect | sys_getpeername | sys_getsockname
  | sys_getsockopt | sys_listen | sys_recv | sys_recvfrom | sys_recvmsg | sys_send
  | sys_sendto | sys_sendmsg | sys_setsockopt => Err ENOTSOCK
  | sys_epoll_ctl | sys_epoll_wait | sys_ftruncate | sys_ioctl | sys_lseek => Err EINVAL
  | sys_getdents => Err ENOTDIR
  | sys_mmap | sys_munmap => Err ENODEV
  | sys_fdatasync | sys_fsync => Ok 0
  end.

Inductive fcntl_cmd : Type :=
| F_GETFD | F_SETFD | F_GETLK | F_SETLK | F_SETLKW | F_SETLK64 | F_SETLKW64
| F_GETFL | F_SETFL (flags : Z) | F_OTHER.

(** The flags after the call, and the result. *)
Definition fcntl (oflag : Z) (cmd : fcntl_cmd) : Z * res Z :=
  match cmd with
  | F_GETFD | F_SETFD | F_GETLK => (oflag, Ok 0)
  | F_SETLK | F_SETLKW | F_SETLK64 | F_SETLKW64 => (oflag, Ok 0)
  | F_GETFL => (oflag, Ok oflag)
  | F_SETFL flags => (flags, Ok 0)
  | F_OTHER => (oflag, Err EINVAL)
  end.

Inductive advice : Type :=
| MADV_NORMAL | MADV_RANDOM | MADV_SEQUENTIAL | MADV_WILLNEED | MADV_SOFT_OFFLINE
| MADV_MERGEABLE | MADV_UNMERGEABLE | MADV_NOHUGEPAGE | MADV_DONTNEED | MADV_REMOVE
| MADV_DONTFORK | MADV_DOFORK | MADV_OTHER.

Definition madvise (a : advice) : res Z :=
  match a with
  | MADV_DONTNEED | MADV_OTHER => Err EINVAL
  | MADV_REMOVE => Err ENOSYS
  | _ => Ok 0
  end.

Inductive whence : Type := SEEK_SET | SEEK_CUR | SEEK_END.

(** O_APPEND of the Linux ABI. *)
Definition O_APPEND : Z := 1024.

Section Positioned.
Context {W : Type} (lseek : Z → whence → St W (res Z)).

(** [lseek]-[lseek]-access-[lseek]. *)
Definition positioned {A} (access : St W (res A)) (offset : Z) : St W (res A) :=
  original ← lseek 0 SEEK_CUR;
  match original with
  | Err e => mret (Err e)
  | Ok original =>
      r ← lseek offset SEEK_SET;
      match r with
      | Err e => mret (Err e)
      | Ok _ =>
          result ← access;
          now ← lseek original SEEK_SET;
          check (bool_decide (now = Ok original));;
          mret result
      end
  end.

Definition pread (read : Z → St W (res str)) (count offset : Z) : St W (res str) :=
  positioned (read count) offset.

Definition PwriteImpl (write : str → St W (res Z)) (buf : str) (offset : Z) : St W (res Z) :=
  positioned (write buf) offset.

Definition pwrite (oflag : Z) (write : str → St W (res Z)) (buf : str) (offset : Z) :
    St W (res Z) :=
  if negb (Z.land oflag O_APPEND =? 0) then write buf
  else PwriteImpl write buf offset.
End Positioned.

(** An [iovec] is the bytes of its memory; [iov_len] is their number. *)
Definition UIO_MAXIOV : Z := 1024.
Definition SSIZE_MAX : Z := 2 ^ 31 - 1.
Definition iov_len (v : str) : Z := Z.of_nat (List.length v).

Fixpoint total_size (iov : list Z) (total : Z) : res Z :=
  match iov with
  | [] => Ok total
  | len :: iov => if SSIZE_MAX - total <? len then Err EINVAL else total_size iov (total + len)
  end.

Definition VerifyIoVec (iov : list Z) (iovcnt : Z) : res Z :=
  if (iovcnt <? 0) || (UIO_MAXIOV <? iovcnt) then Err EINVAL
  else total_size (take (Z.to_nat iovcnt) iov) 0.

Section Vectored.
Context {W : Type}.

(** [for (i < count && current < result) memcpy(iov[i].iov_base, ...)]: the
    segments after the copies, and how much of [buffer] was copied. *)
Fixpoint scatter (buffer : str) (iov : list str) (current : nat) : list str * nat :=
  match iov with
  | [] => ([], current)
  | v :: iov' =>
      if Nat.ltb current (List.length buffer) then
        let copy_size := Nat.min (List.length buffer - current) (List.length v) in
        let '(vs, n) := scatter buffer iov' (current + copy_size) in
        ((take copy_size (drop current buffer) ++ drop copy_size v) :: vs, n)
      else (iov, current)
  end.

(** The segments after the call, and the number of bytes. *)
Definition readv (read : Z → St W (res str)) (iov : list str) : St W (list str * res Z) :=
  match VerifyIoVec (map iov_len iov) (Z.of_nat (List.length iov)) with
  | Err e => mret (iov, Err e)
  | Ok total =>
      if total =? 0 then mret (iov, Ok 0)
      else
        result ← read total;
        match result with
        | Err e => mret (iov, Err e)
        | Ok buffer =>
            let '(iov, current) := scatter buffer iov 0 in
            check (Nat.eqb current (List.length buffer));;
            mret (iov, Ok (Z.of_nat (List.length buffer)))
        end
  end.

Definition writev (write : str → St W (res Z)) (iov : list str) : St W (res Z) :=
  match VerifyIoVec (map iov_len iov) (Z.of_nat (List.length iov)) with
  | Err e => mret (Err e)
  | Ok total => if total =? 0 then mret (Ok 0) else write (List.concat iov)
  end.
End Vectored.
End Defaults.

(* -------------------------------------------------------------------- *)
(** * Proofs *)

Module DefaultsProofs.
Import Defaults.

Definition sum_len (iov : list str) : Z := iov_len (List.concat iov).

Lemma sum_len_cons v iov : sum_len (v :: iov) = iov_len v + sum_len iov.
Proof. unfold sum_len, iov_len. simpl. rewrite length_app. lia. Qed.

Lemma total_size_spec (iov : list str) t :
  0 <= t <= SSIZE_MAX →
  total_size (map iov_len iov) t =
  if decide (t + sum_len iov <= SSIZE_MAX) then Ok (t + sum_len iov) else Err EINVAL.
Proof.
  revert t. induction iov as [|v iov IH]; intros t Ht.
  { unfold sum_len, iov_len. simpl. rewrite Z.add_0_r. by rewrite decide_True by lia. }
  rewrite sum_len_cons. cbn [map total_size].
  assert (0 <= iov_len v) by (unfold iov_len; lia).
  assert (0 <= sum_len iov) by (unfold sum_len, iov_len; lia).
  destruct (Z.ltb_spec (SSIZE_MAX - t) (iov_len v)).
  - by rewrite decide_False by lia.
  - rewrite IH by lia. rewrite Z.add_assoc. done.
Qed.

(** The vector is accepted: few enough segments, total within [ssize_t]. *)
Definition iov_ok (iov : list str) : Prop :=
  Z.of_nat (List.length iov) <= UIO_MAXIOV ∧ sum_len iov <= SSIZE_MAX.

#[export] Instance iov_ok_dec iov : Decision (iov_ok iov).
Proof. unfold iov_ok. apply _. Defined.

Lemma verify_spec iov :
  VerifyIoVec (map iov_len iov) (Z.of_nat (List.length iov)) =
  if decide (iov_ok iov) then Ok (sum_len iov) else Err EINVAL.
Proof.
  unfold VerifyIoVec. rewrite Nat2Z.id.
  rewrite take_ge by (by rewrite length_map).
  rewrite total_size_spec, Z.add_0_l by (unfold SSIZE_MAX; lia).
  destruct (Z.ltb_spec (Z.of_nat (List.length iov)) 0); [lia|].
  destruct (Z.ltb_spec UIO_MAXIOV (Z.of_nat (List.length iov))); cbn [orb].
  - rewrite decide_False; [done|]. intros [??]. lia.
  - destruct (decide (sum_len iov <= SSIZE_MAX)).
    + by rewrite decide_True.
    + rewrite decide_False; [done|]. intros [??]. lia.
Qed.

Lemma scatter_spec buffer iov c :
  (c <= List.length buffer)%nat →
  (List.length buffer - c <= List.length (List.concat iov))%nat →
  ∃ iov', scatter buffer iov c = (iov', List.length buffer) ∧
    map (@List.length ascii) iov' = map (@List.length ascii) iov ∧
    List.concat iov' = drop c buffer ++ drop (List.length buffer - c) (List.concat iov).
Proof.
  revert c. induction iov as [|v iov IH]; intros c Hc Hlen.
  { simpl in Hlen. exists []. assert (c = List.length buffer) as -> by lia.
    split; [done|]. split; [done|]. cbn [List.concat]. by rewrite drop_all, drop_nil. }
  cbn [scatter]. destruct (Nat.ltb_spec c (List.length buffer)) as [Hlt|Hge].
  - set (k := Nat.min (List.length buffer - c) (List.length v)).
    simpl in Hlen. rewrite length_app in Hlen.
    destruct (IH (c + k)%nat) as (iov' & -> & Hmap & Hcat); [lia|lia|].
    eexists. split; [done|]. split.
    + simpl. rewrite Hmap. f_equal. rewrite length_app, length_take, !length_drop. lia.
    + cbn [List.concat]. rewrite Hcat, drop_app, <-!app_assoc.
      replace (List.length buffer - (c + k))%nat with (List.length buffer - c - k)%nat by lia.
      assert (drop (c + k) buffer = drop k (drop c buffer)) as -> by (by rewrite drop_drop).
      destruct (decide (List.length buffer - c <= List.length v)%nat).
      * replace k with (List.length buffer - c)%nat by lia.
        rewrite Nat.sub_diag, (drop_ge (drop c buffer)) by (rewrite length_drop; lia).
        rewrite take_ge by (rewrite length_drop; lia).
        replace (List.length buffer - c - List.length v)%nat with 0%nat by lia. done.
      * replace k with (List.length v) by lia.
        rewrite (drop_all v), (drop_ge v) by lia. rewrite !app_nil_l, app_assoc.
        by rewrite take_drop.
  - assert (c = List.length buffer) as -> by lia.
    eexists. split; [done|]. split; [done|].
    by rewrite drop_all, Nat.sub_diag, drop_0, app_nil_l.
Qed.
End DefaultsProofs.

Module DefaultsProperties.
Import Defaults DefaultsProofs.

Section Vectored.
Context {W : Type}.

(** [readv] and [writev] through a stream's [read] and [write].  A vector
    with more than 1024 segments or more than SSIZE_MAX bytes is EINVAL and an
    empty one 0, both without a call.  Otherwise one [read] of the total size
    is made; the bytes it returns fill the segments in order, the segments
    keep their lengths and the memory behind the last byte its contents, the
    result is the number of bytes and the final assertion holds; an error of
    [read] comes back with the memory untouched.  [writev] is one [write] of
    the segments' bytes in order. *)
Theorem vectored_io_scatters_gathers (read : Z → St W (res str)) (write : str → St W (res Z))
    iov w :
  (∀ n w buffer w', read n w = Done (Ok buffer, w') → iov_len buffer <= Z.max 0 n) →
  if decide (iov_ok iov) then
    if decide (sum_len iov = 0) then
      readv read iov w = Done ((iov, Ok 0), w) ∧ writev write iov w = Done (Ok 0, w)
    else
      (∀ e w', read (sum_len iov) w = Done (Err e, w') →
         readv read iov w = Done ((iov, Err e), w')) ∧
      (∀ buffer w', read (sum_len iov) w = Done (Ok buffer, w') →
         ∃ iov', readv read iov w = Done ((iov', Ok (iov_len buffer)), w') ∧
           map iov_len iov' = map iov_len iov ∧
           List.concat iov' = buffer ++ drop (List.length buffer) (List.concat iov)) ∧
      writev write iov w = write (List.concat iov) w
  else
    readv read iov w = Done ((iov, Err EINVAL), w) ∧
    writev write iov w = Done (Err EINVAL, w).
Proof.
  intros Hread. unfold readv, writev. rewrite verify_spec.
  destruct (decide (iov_ok iov)) as [Hok|]; [|done].
  destruct (Z.eqb_spec (sum_len iov) 0) as [->|Hne]; [done|].
  rewrite decide_False by done. split_and!; [| |done].
  - intros e w' Hr. by run_with Hr.
  - intros buffer w' Hr. run_with Hr. apply Hread in Hr.
    destruct (scatter_spec buffer iov 0) as (iov' & -> & Hmap & Hcat);
      [lia|unfold sum_len, iov_len in Hr; lia|].
    unfold check, mbind, St_bind. rewrite Nat.eqb_refl. exists iov'. split; [done|].
    split; [|by rewrite Hcat, drop_0, Nat.sub_0_r].
    unfold iov_len. by rewrite <-!(map_map (@List.length ascii) Z.of_nat), Hmap.
Qed.
End Vectored.

Section Positioned.
Context {W : Type} (lseek : Z → whence → St W (res Z)) (pos : W → Z).

(** [pread] and [pwrite] without O_APPEND, for a stream whose [lseek]
    reports and sets a position: the access runs at [offset], its result is
    the result, the position afterwards is the position before, and the
    assertion on the restored position holds; with O_APPEND, [pwrite] is a
    plain [write]; when the stream cannot seek nothing is accessed and the
    error of [lseek] comes back. *)
Theorem positioned_io_keeps_position (read : Z → St W (res str))
    (write : str → St W (res Z)) oflag buf count offset w :
  (∀ w, lseek 0 SEEK_CUR w = Done (Ok (pos w), w) ∧ 0 <= pos w) →
  (∀ w o, 0 <= o → ∃ w', lseek o SEEK_SET w = Done (Ok o, w') ∧ pos w' = o) →
  (∀ w, ∃ r w', read count w = Done (r, w')) → (∀ w, ∃ r w', write buf w = Done (r, w')) →
  0 <= offset →
  ∃ w1, lseek offset SEEK_SET w = Done (Ok offset, w1) ∧ pos w1 = offset ∧
    (∃ r w2 w3, read count w1 = Done (r, w2) ∧
       pread lseek read count offset w = Done (r, w3) ∧ pos w3 = pos w) ∧
    (if Z.land oflag O_APPEND =? 0 then
       ∃ r w2 w3, write buf w1 = Done (r, w2) ∧
         pwrite lseek oflag write buf offset w = Done (r, w3) ∧ pos w3 = pos w
     else pwrite lseek oflag write buf offset w = write buf w) ∧
    (∀ e, pread (λ _ _ w, Done (Err e, w)) read count offset w = Done (Err e, w)).
Proof.
  intros Hcur Hset Hread Hwrite Hoff.
  destruct (Hset w offset Hoff) as (w1 & Hw1 & Hpos1). exists w1. split; [done|].
  split; [done|]. destruct (Hcur w) as [Hc Hp].
  assert (∀ A (access : St W (res A)), (∃ r w', access w1 = Done (r, w')) →
    ∃ r w2 w3, access w1 = Done (r, w2) ∧
      positioned lseek access offset w = Done (r, w3) ∧ pos w3 = pos w) as Hpositioned.
  { intros A access (r & w2 & Ha). destruct (Hset w2 (pos w) Hp) as (w3 & Hw3 & Hpos3).
    exists r, w2, w3. split; [done|]. split; [|done]. unfold positioned.
    run_with Hc. run_with Hw1. run_with Ha. run_with Hw3.
    unfold check, mbind, St_bind. by rewrite bool_decide_true. }
  split; [by apply Hpositioned|]. split; [|done].
  unfold pwrite. destruct (Z.land oflag O_APPEND =? 0); [by apply Hpositioned|done].
Qed.
End Positioned.

(** A file of bytes with a position, for the witnesses. *)
Definition file_lseek (o : Z) (wh : whence) : St (str * Z) (res Z) := λ w,
  match wh with
  | SEEK_SET => Done (Ok o, (w.1, o))
  | SEEK_CUR => Done (Ok (Z.max 0 w.2 + o), w)
  | SEEK_END => Done (Err EINVAL, w)
  end.

Definition file_read (n : Z) : St (str * Z) (res str) := λ w,
  let b := take (Z.to_nat n) (drop (Z.to_nat w.2) w.1) in
  Done (Ok b, (w.1, w.2 + iov_len b)).

Definition file_write (b : str) : St (str * Z) (res Z) := λ w,
  Done (Ok (iov_len b),
        (take (Z.to_nat w.2) w.1 ++ b ++ drop (Z.to_nat w.2 + List.length b) w.1,
         w.2 + iov_len b)).

Lemma vectored_io_scatters_gathers_witness :
  ∃ iov', readv file_read [lit "...."; lit ".."; lit "..."] (lit "abcdefg", 0) =
            Done ((iov', Ok 7), (lit "abcdefg", 7)) ∧
    List.concat iov' = lit "abcdefg..".
Proof.
  pose proof (vectored_io_scatters_gathers file_read file_write
    [lit "...."; lit ".."; lit "..."] (lit "abcdefg", 0)) as H.
  rewrite decide_True in H by decided. rewrite decide_False in H by (vm_compute; discriminate).
  destruct H as (_ & Hr & _).
  - intros n [d p] buffer w'. unfold file_read. intros [= <- _].
    unfold iov_len. rewrite length_take.
    lia.
  - destruct (Hr (lit "abcdefg") (lit "abcdefg", 7)) as (iov' & H1 & _ & H2); [reflexivity|].
    exists iov'. split; [exact H1|exact H2].
Defined.

Lemma positioned_io_keeps_position_witness :
  ∃ w3, pread file_lseek file_read 3 2 (lit "abcdefg", 5) = Done (Ok (lit "cde"), w3) ∧
    Z.max 0 w3.2 = 5.
Proof.
  destruct (positioned_io_keeps_position file_lseek (λ w, Z.max 0 w.2) file_read file_write
    0 (lit "x") 3 2 (lit "abcdefg", 5)) as (w1 & Hw1 & _ & (r & w2 & w3 & Hr & Hp & Hpos) & _).
  - intros w. unfold file_lseek. rewrite Z.add_0_r. split; [done|lia].
  - intros w o Ho. eexists. split; [done|]. simpl. lia.
  - intros w. eexists _, _. done.
  - intros w. eexists _, _. done.
  - lia.
  - vm_compute in Hw1. injection Hw1 as <-. vm_compute in Hr. injection Hr as <- <-.
    exists w3. split; [exact Hp|exact Hpos].
Defined.
End DefaultsProperties.
