(* ===== verification/FdMap.v ===== *)
(** * FdMap: [fd_to_file_stream_map.{h,cc}] (under src/posix_translation/)

    The table of file descriptors.  [unused_fds_] is a binary min-heap made with
    the standard library's heap functions; the code reads its minimum
    ([front()]) only, so the heap is modelled by the sorted list of its elements.
    The streams the table refers to are in the store of FileStream.v. *)

From S2P Require Import Prelude FileStream.
Import Refs.

#[local] Open Scope Z_scope.

Record FdToFileStreamMap : Type := mkFdMap {
  streams_ : gmap Z (option sid);
  unused_fds_ : list Z;
  min_file_id_ : Z;
  max_file_id_ : Z;
}.

(** The table together with the streams. *)
Abbreviation World := (FdToFileStreamMap * Streams)%type.

Definition on_streams {A} (m : St Streams A) : St World A := λ w,
  match m w.2 with
  | Done (a, s) => Done (a, (w.1, s))
  | Abort => Abort
  | NoFuel => NoFuel
  end.

Definition set_streams (m : gmap Z (option sid)) (t : FdToFileStreamMap) : FdToFileStreamMap :=
  {| streams_ := m; unused_fds_ := unused_fds_ t;
     min_file_id_ := min_file_id_ t; max_file_id_ := max_file_id_ t |}.

Definition set_unused (l : list Z) (t : FdToFileStreamMap) : FdToFileStreamMap :=
  {| streams_ := streams_ t; unused_fds_ := l;
     min_file_id_ := min_file_id_ t; max_file_id_ := max_file_id_ t |}.

Definition on_table (f : FdToFileStreamMap → FdToFileStreamMap) : St World unit :=
  modify (λ w, (f w.1, w.2)).

(** [std::make_heap] and [std::push_heap], by the order that the heap sorts. *)
Definition make_heap (l : list Z) : list Z := merge_sort Z.le l.

(** [for (fd = min; fd <= max; ++fd) push_back(fd)]. *)
Definition fd_range (min_file_id max_file_id : Z) : list Z :=
  map (λ i, min_file_id + Z.of_nat i) (seq 0 (Z.to_nat (max_file_id - min_file_id + 1))).

Definition FdToFileStreamMap_new (min_file_id max_file_id : Z) : outcome FdToFileStreamMap :=
  require (min_file_id <=? max_file_id) ≫= λ _,
  mret {| streams_ := ∅; unused_fds_ := make_heap (fd_range min_file_id max_file_id);
          min_file_id_ := min_file_id; max_file_id_ := max_file_id |}.

(** ~FdToFileStreamMap. *)
Definition FdToFileStreamMap_delete : St World unit :=
  w ← get;
  for_each (λ kv : Z * option sid,
    match kv.2 with Some s => on_streams (ReleaseFileRef s) | None => mret tt end)
    (map_to_list (streams_ w.1)).

Definition AddFileStream (fd : Z) (stream : option sid) : St World unit :=
  match stream with Some s => on_streams (AddFileRef s) | None => mret tt end;;
  w ← get;
  match streams_ w.1 !! fd with
  | None =>
      on_table (λ t, set_unused (make_heap (filter (λ x, x ≠ fd) (unused_fds_ t)))
                       (set_streams (<[fd := stream]> (streams_ t)) t))
  | Some old =>
      check (bool_decide (old = None));;
      on_table (λ t, set_streams (<[fd := stream]> (streams_ t)) t)
  end.

Definition ReplaceFileStream (fd : Z) (stream : sid) : St World unit :=
  w ← get;
  match streams_ w.1 !! fd with
  | Some (Some old_stream) =>
      if bool_decide (stream = old_stream) then mret tt
      else
        on_table (λ t, set_streams (<[fd := Some stream]> (streams_ t)) t);;
        on_streams (AddFileRef stream);;
        on_streams (ReleaseFileRef old_stream)
  | _ => λ _, Abort
  end.

Definition RemoveFileStream (fd : Z) : St World unit :=
  w ← get;
  match streams_ w.1 !! fd with
  | None => λ _, Abort
  | Some old_stream =>
      on_table (λ t, set_unused (make_heap (unused_fds_ t ++ [fd]))
                       (set_streams (delete fd (streams_ t)) t));;
      match old_stream with Some s => on_streams (ReleaseFileRef s) | None => mret tt end
  end.

Definition GetFirstUnusedDescriptor : St World Z :=
  w ← get;
  match unused_fds_ w.1 with
  | [] => mret (-1)
  | fd :: rest =>
      if fd =? -1 then mret (-1)
      else
        on_table (set_unused rest);;
        AddFileStream fd None;;
        mret fd
  end.

Definition IsKnownDescriptor (fd : Z) : St World bool :=
  gets (λ w, bool_decide (is_Some (streams_ w.1 !! fd))).

(** [allowed] is [IsAllowedOnMainThread() || !IsMainThread()]. *)
Definition GetStream (allowed : sid → bool) (fd : Z) : St World (option sid) :=
  w ← get;
  match streams_ w.1 !! fd with
  | Some (Some s) => on_streams (CheckNotClosed s);; check (allowed s);; mret (Some s)
  | _ => mret None
  end.

(** ** Specification *)

(** The number of descriptors of a stream. *)
Definition fd_count (m : gmap Z (option sid)) (s : sid) : Z :=
  Z.of_nat (size (filter (λ kv : Z * option sid, kv.2 = Some s) m)).

Definition in_range (t : FdToFileStreamMap) (fd : Z) : Prop :=
  min_file_id_ t <= fd <= max_file_id_ t.

(** Each number of the range is either in use or in the heap, once. *)
Record table_ok (t : FdToFileStreamMap) : Prop := {
  ok_min : 0 <= min_file_id_ t;
  ok_heap : StronglySorted Z.lt (unused_fds_ t);
  ok_unused : ∀ fd, fd ∈ unused_fds_ t ↔ in_range t fd ∧ streams_ t !! fd = None;
  ok_used : ∀ fd, is_Some (streams_ t !! fd) → in_range t fd;
}.

(** A stream's file references are its descriptors, and other references that
    [extra] counts (memory regions hold some). *)
Record refs_ok (extra : sid → Z) (t : FdToFileStreamMap) (w : Streams) : Prop := {
  ok_alive : ∀ fd s, streams_ t !! fd = Some (Some s) → is_Some (objects w !! s);
  ok_extra : ∀ s, 0 <= extra s ∧ (extra s ≠ 0 → is_Some (objects w !! s));
  ok_count : ∀ s f, objects w !! s = Some f →
    file_ref_count_ f = fd_count (streams_ t) s + extra s ∧ (file_ref_count_ f ≠ 0 → had_file_refs_ f = true);
}.

(** A stream that can still be opened. *)
Definition open_ok (w : Streams) (s : sid) : Prop :=
  ∃ f, objects w !! s = Some f ∧ IsClosed f = false.

(** Calls that the file system may make. *)
Inductive fd_op : Type :=
| FGet
| FAdd (fd : Z) (stream : option sid)
| FReplace (fd : Z) (stream : sid)
| FRemove (fd : Z).

Definition fd_op_ok (o : fd_op) (w : World) : Prop :=
  match o with
  | FGet => True
  | FAdd fd stream =>
      in_range w.1 fd ∧ (streams_ w.1 !! fd = None ∨ streams_ w.1 !! fd = Some None) ∧
      ∀ s, stream = Some s → open_ok w.2 s
  | FReplace fd stream => (∃ s, streams_ w.1 !! fd = Some (Some s)) ∧ open_ok w.2 stream
  | FRemove fd => is_Some (streams_ w.1 !! fd)
  end.

Definition run_fd_op (o : fd_op) : St World Z :=
  match o with
  | FGet => GetFirstUnusedDescriptor
  | FAdd fd stream => AddFileStream fd stream;; mret 0
  | FReplace fd stream => ReplaceFileStream fd stream;; mret 0
  | FRemove fd => RemoveFileStream fd;; mret 0
  end.

(** The table after a call: which descriptor means which stream. *)
Definition spec_fd_op (o : fd_op) (r : Z) (m : gmap Z (option sid)) : gmap Z (option sid) :=
  match o with
  | FGet => if r =? -1 then m else <[r := None]> m
  | FAdd fd stream => <[fd := stream]> m
  | FReplace fd stream => <[fd := Some stream]> m
  | FRemove fd => delete fd m
  end.

(** Streams whose last reference goes away in the step. *)
Definition last_refs (w w' : World) : list sid :=
  omap (λ c, match c with CallOnLastFileRef s => Some s | _ => None end)
       (drop (List.length (calls w.2)) (calls w'.2)).

Definition no_extra (s : sid) : Z := 0.

(** The worlds that calls reach from a new table; new streams appear between
    calls. *)
Inductive fd_reachable (lo hi : Z) : World → Prop :=
| reach_new t : FdToFileStreamMap_new lo hi = Done t → fd_reachable lo hi (t, mkStreams ∅ [])
| reach_stream t w s oflag listening :
    fd_reachable lo hi (t, w) → objects w !! s = None →
    fd_reachable lo hi (t, {| objects := <[s := new_stream oflag listening]> (objects w);
                              calls := calls w |})
| reach_call w o r w' :
    fd_reachable lo hi w → fd_op_ok o w → run_fd_op o w = Done (r, w') → fd_reachable lo hi w'.

(* -------------------------------------------------------------------- *)
(** * Proofs *)

Definition one_if (b : bool) : Z := if b then 1 else 0.

Lemma one_if_some (s x : sid) :
  one_if (bool_decide (Some s = Some x)) = if decide (x = s) then 1 else 0.
Proof. case_bool_decide as E; case_decide; naive_solver. Qed.

Lemma fd_count_insert (m : gmap Z (option sid)) fd v s :
  m !! fd = None →
  fd_count (<[fd := v]> m) s = fd_count m s + one_if (bool_decide (v = Some s)).
Proof.
  intros Hfd. unfold fd_count. case_bool_decide as Hv; simpl.
  - rewrite map_filter_insert_True by done. rewrite map_size_insert_None; [lia|].
    apply map_lookup_filter_None. by left.
  - rewrite map_filter_insert_False, delete_id by done. lia.
Qed.

Lemma fd_count_delete (m : gmap Z (option sid)) fd v s :
  m !! fd = Some v →
  fd_count (delete fd m) s = fd_count m s - one_if (bool_decide (v = Some s)).
Proof.
  intros Hfd. rewrite <-(insert_delete_id m fd v Hfd) at 2.
  rewrite fd_count_insert by apply lookup_delete_eq. lia.
Qed.

Lemma fd_count_replace (m : gmap Z (option sid)) fd v v' s :
  m !! fd = Some v →
  fd_count (<[fd := v']> m) s =
  fd_count m s - one_if (bool_decide (v = Some s)) + one_if (bool_decide (v' = Some s)).
Proof.
  intros Hfd. rewrite <-insert_delete_eq, fd_count_insert by apply lookup_delete_eq.
  by rewrite (fd_count_delete _ _ v).
Qed.

Lemma fd_count_pos (m : gmap Z (option sid)) fd s : m !! fd = Some (Some s) → 0 < fd_count m s.
Proof.
  intros Hfd. pose proof (fd_count_delete m fd (Some s) s Hfd) as Hd.
  rewrite bool_decide_true in Hd by done. unfold fd_count, one_if in *. lia.
Qed.

Lemma fd_count_zero (m : gmap Z (option sid)) s :
  fd_count m s = 0 ↔ ∀ fd, m !! fd ≠ Some (Some s).
Proof.
  split; [intros Hc fd Hfd%fd_count_pos; lia|]. intros Hno. unfold fd_count.
  assert (filter (λ kv : Z * option sid, kv.2 = Some s) m = ∅) as ->; [|done].
  apply map_empty. intros fd. apply map_lookup_filter_None. right. intros v Hv E.
  simpl in E. subst v. by apply (Hno fd).
Qed.

Lemma fd_count_nonzero (m : gmap Z (option sid)) s :
  fd_count m s ≠ 0 ↔ ∃ fd, m !! fd = Some (Some s).
Proof.
  split; [|intros [fd Hfd%fd_count_pos]; lia]. unfold fd_count. intros Hn.
  destruct (map_choose (filter (λ kv : Z * option sid, kv.2 = Some s) m)) as (fd & v & Hv).
  { intros E. by rewrite E, map_size_empty in Hn. }
  apply map_lookup_filter_Some in Hv as [Hv E]. simpl in E. subst v. by exists fd.
Qed.

Lemma make_heap_spec l :
  NoDup l → StronglySorted Z.lt (make_heap l) ∧ ∀ x, x ∈ make_heap l ↔ x ∈ l.
Proof.
  intros Hl. split; [|intros x; unfold make_heap; by rewrite merge_sort_Permutation].
  assert (StronglySorted Z.le (make_heap l)) as Hs.
  { apply StronglySorted_merge_sort; [intros x y z|intros x y]; lia. }
  assert (NoDup (make_heap l)) as Hnd by (unfold make_heap; by rewrite merge_sort_Permutation).
  induction Hs as [|x l' Hs IH Hall]; [constructor|].
  apply NoDup_cons in Hnd as [Hx Hnd]. constructor; [by apply IH|].
  apply Forall_forall. intros y Hy. rewrite Forall_forall in Hall. specialize (Hall _ Hy).
  assert (x ≠ y) by (intros ->; done). lia.
Qed.

Lemma sorted_lt_nodup l : StronglySorted Z.lt l → NoDup l.
Proof.
  induction 1 as [|x l Hs IH Hall]; constructor; [|done].
  intros Hx. rewrite Forall_forall in Hall. apply Hall in Hx. lia.
Qed.

Lemma fd_range_spec lo hi fd : fd ∈ fd_range lo hi ↔ lo <= fd <= hi.
Proof.
  unfold fd_range. rewrite list_elem_of_In, in_map_iff. setoid_rewrite in_seq. split.
  - intros (i & <- & Hi). lia.
  - intros Hfd. exists (Z.to_nat (fd - lo)). lia.
Qed.

Lemma fd_range_nodup lo hi : NoDup (fd_range lo hi).
Proof.
  unfold fd_range. assert (Inj (=) (=) (λ i, lo + Z.of_nat i)) by (intros x y; lia).
  apply (NoDup_fmap_2 (λ i, lo + Z.of_nat i)), NoDup_seq.
Qed.

(** ** The table *)

Lemma table_ok_new lo hi :
  0 <= lo <= hi → ∃ t, FdToFileStreamMap_new lo hi = Done t ∧ table_ok t ∧ streams_ t = ∅.
Proof.
  intros Hlo. unfold FdToFileStreamMap_new. rewrite (proj2 (Z.leb_le lo hi)) by lia.
  eexists. split; [done|]. split; [|done].
  destruct (make_heap_spec _ (fd_range_nodup lo hi)) as [Hs He].
  split; simpl; [lia|done| |]; unfold in_range; simpl.
  - intros fd. rewrite He, fd_range_spec, lookup_empty. tauto.
  - intros fd [v Hv]. by rewrite lookup_empty in Hv.
Qed.

(** Claiming a number of the range. *)
Lemma table_ok_insert t fd v :
  table_ok t → in_range t fd →
  table_ok (set_unused (make_heap (filter (λ x, x ≠ fd) (unused_fds_ t)))
              (set_streams (<[fd := v]> (streams_ t)) t)).
Proof.
  intros Ht Hfd. pose proof (sorted_lt_nodup _ (ok_heap _ Ht)) as Hnd.
  destruct (make_heap_spec (filter (λ x, x ≠ fd) (unused_fds_ t))) as [Hs He];
    [by apply NoDup_filter|].
  split; simpl; [apply Ht|done| |]; unfold in_range; simpl.
  - intros x. rewrite He, list_elem_of_filter, (ok_unused _ Ht), lookup_insert. unfold in_range.
    destruct (decide (fd = x)) as [<-|]; naive_solver.
  - intros x. rewrite lookup_insert. case_decide; [by subst|]. apply (ok_used _ Ht).
Qed.

Lemma table_ok_set t fd v :
  table_ok t → is_Some (streams_ t !! fd) →
  table_ok (set_streams (<[fd := v]> (streams_ t)) t).
Proof.
  intros Ht Hfd. pose proof (ok_used _ Ht _ Hfd) as Hr.
  split; simpl; [apply Ht|apply Ht| |]; unfold in_range; simpl.
  - intros x. rewrite (ok_unused _ Ht), lookup_insert. unfold in_range.
    destruct (decide (fd = x)) as [<-|]; [|done]. destruct Hfd as [u ->]. naive_solver.
  - intros x. rewrite lookup_insert. case_decide; [by subst|]. apply (ok_used _ Ht).
Qed.

Lemma table_ok_delete t fd :
  table_ok t → is_Some (streams_ t !! fd) →
  table_ok (set_unused (make_heap (unused_fds_ t ++ [fd]))
              (set_streams (delete fd (streams_ t)) t)).
Proof.
  intros Ht Hfd. pose proof (ok_used _ Ht _ Hfd) as Hr.
  destruct (make_heap_spec (unused_fds_ t ++ [fd])) as [Hs He].
  { apply NoDup_app. split; [apply sorted_lt_nodup, Ht|]. split; [|by apply NoDup_singleton].
    intros x Hx ->%list_elem_of_singleton. apply (ok_unused _ Ht) in Hx as [_ Hx].
    rewrite Hx in Hfd. by destruct Hfd. }
  split; simpl; [apply Ht|done| |]; unfold in_range; simpl.
  - intros x. rewrite He, elem_of_app, list_elem_of_singleton, (ok_unused _ Ht), lookup_delete.
    unfold in_range in *. destruct (decide (fd = x)) as [<-|]; naive_solver.
  - intros x Hx. rewrite lookup_delete in Hx. case_decide; [by destruct Hx|].
    by apply (ok_used _ Ht).
Qed.

(** ** The streams *)

Lemma add_file_ref_spec w s :
  open_ok w s →
  ∃ f, objects w !! s = Some f ∧
    AddFileRef s w = Done (tt, {| objects := <[s := set_count (file_ref_count_ f + 1) true f]> (objects w);
                                  calls := calls w |}).
Proof.
  intros (f & Hf & Hc). exists f. split; [done|].
  unfold AddFileRef, CheckNotClosed, deref, check, set_object, modify, mbind, St_bind.
  rewrite Hf, Hc. cbn [negb]. by rewrite Hf.
Qed.

Lemma for_each_vcall (f : sid → vcall) ls w :
  for_each (λ l, vcall_ (f l)) ls w = Done (tt, {| objects := objects w; calls := calls w ++ map f ls |}).
Proof.
  revert w. induction ls as [|l ls IH]; intros w; simpl.
  - unfold mret, St_ret. rewrite app_nil_r. by destruct w.
  - unfold mbind, St_bind, vcall_ at 1, modify. rewrite IH. simpl. by rewrite <-app_assoc.
Qed.

(** The calls made when the last reference goes. *)
Definition closing_calls (s : sid) (f : FileStream) : list vcall :=
  map (λ l, CallHandleNotificationFrom l s true) (elements (listeners_ f)) ++ [CallOnLastFileRef s].

Lemma release_file_ref_spec w s f :
  objects w !! s = Some f → had_file_refs_ f = true → 0 < file_ref_count_ f →
  ReleaseFileRef s w =
  let f1 := set_count (file_ref_count_ f - 1) true f in
  Done (tt, if file_ref_count_ f =? 1
            then {| objects := <[s := set_listeners ∅ f1]> (objects w);
                    calls := calls w ++ closing_calls s f |}
            else {| objects := <[s := f1]> (objects w); calls := calls w |}).
Proof.
  intros Hf Hh Hc. unfold ReleaseFileRef, CheckNotClosed, deref, check, IsClosed.
  unfold mbind, St_bind. rewrite Hf, Hh. destruct (Z.eqb_spec (file_ref_count_ f) 0) as [?|_]; [lia|].
  cbn [andb negb]. rewrite Hf, Hh. rewrite (proj2 (Z.ltb_lt 0 _)) by done.
  unfold set_object at 1, modify. cbn [file_ref_count_ set_count].
  assert (file_ref_count_ f - 1 =? 0 = (file_ref_count_ f =? 1)) as ->.
  { destruct (Z.eqb_spec (file_ref_count_ f) 1), (Z.eqb_spec (file_ref_count_ f - 1) 0); lia. }
  destruct (file_ref_count_ f =? 1); [|done]. cbn [negb].
  rewrite for_each_vcall. unfold set_object, vcall_, modify. simpl.
  rewrite insert_insert_eq, <-app_assoc. done.
Qed.

(** ** One call *)

Lemma refs_ok_update extra extra' t t' w s f f' d c :
  refs_ok extra t w → objects w !! s = Some f →
  file_ref_count_ f' = file_ref_count_ f + d → (file_ref_count_ f' ≠ 0 → had_file_refs_ f' = true) →
  (∀ x, fd_count (streams_ t') x + extra' x =
        fd_count (streams_ t) x + extra x + if decide (x = s) then d else 0) →
  (∀ x, 0 <= extra' x ∧ (extra' x ≠ 0 → is_Some (objects w !! x))) →
  (∀ fd x, streams_ t' !! fd = Some (Some x) → x = s ∨ ∃ fd', streams_ t !! fd' = Some (Some x)) →
  refs_ok extra' t' {| objects := <[s := f']> (objects w); calls := c |}.
Proof.
  intros Hr Hf Hd Hhad Hcount Hextra Halive. split; simpl.
  - intros fd x Hx. rewrite lookup_insert. case_decide as E; [eauto|].
    apply Halive in Hx as [->|[fd' Hx]]; [done|]. by apply (ok_alive _ _ _ Hr) in Hx.
  - intros x. destruct (Hextra x) as [? Hs]. split; [done|]. intros Hx.
    rewrite lookup_insert. case_decide; [eauto|]. by apply Hs.
  - intros x g. rewrite lookup_insert. specialize (Hcount x).
    destruct (decide (s = x)) as [<-|E].
    + intros [= <-]. destruct (ok_count _ _ _ Hr _ _ Hf) as [Hc _].
      rewrite decide_True in Hcount by done. split; [lia|done].
    + intros Hg. destruct (ok_count _ _ _ Hr _ _ Hg) as [Hc Hh].
      rewrite decide_False in Hcount by done. split; [lia|done].
Qed.

Lemma refs_ok_same extra t t' w :
  refs_ok extra t w → (∀ x, fd_count (streams_ t') x = fd_count (streams_ t) x) →
  (∀ fd x, streams_ t' !! fd = Some (Some x) → ∃ fd', streams_ t !! fd' = Some (Some x)) →
  refs_ok extra t' w.
Proof.
  intros Hr Hc Ha. split; [|apply Hr|].
  - intros fd x [fd' Hx]%Ha. by apply (ok_alive _ _ _ Hr) in Hx.
  - intros s f Hf. rewrite Hc. by apply (ok_count _ _ _ Hr).
Qed.

(** All references of a stream. *)
Definition total (extra : sid → Z) (w : World) (s : sid) : Z := fd_count (streams_ w.1) s + extra s.

Lemma last_refs_app w t' o c :
  last_refs w (t', {| objects := o; calls := calls w.2 ++ c |}) =
  omap (λ c, match c with CallOnLastFileRef s => Some s | _ => None end) c.
Proof. unfold last_refs. simpl. by rewrite drop_app_length. Qed.

Lemma last_refs_same w t' o :
  last_refs w (t', {| objects := o; calls := calls w.2 |}) = [].
Proof. rewrite <-(app_nil_r (calls w.2)). apply last_refs_app. Qed.

Lemma closing_calls_last s f :
  omap (λ c, match c with CallOnLastFileRef s => Some s | _ => None end) (closing_calls s f) = [s].
Proof. unfold closing_calls. induction (elements (listeners_ f)); [done|]. simpl. done. Qed.

(** What a call must leave. *)
Record step_ok (extra : sid → Z) (w w' : World) (m' : gmap Z (option sid)) : Prop := {
  so_map : streams_ w'.1 = m';
  so_table : table_ok w'.1;
  so_range : ∀ fd, in_range w'.1 fd ↔ in_range w.1 fd;
  so_refs : refs_ok extra w'.1 w'.2;
  so_last : ∀ s, s ∈ last_refs w w' ↔ total extra w s ≠ 0 ∧ total extra w' s = 0;
  so_nodup : NoDup (last_refs w w');
}.

(** The calls that the release of the last of [n] references makes. *)
Definition release_calls (s : sid) (f : FileStream) : list vcall :=
  if file_ref_count_ f =? 1 then closing_calls s f else [].

(** [ReleaseFileRef] of a stream with a reference that the table, or [extra], no
    longer counts. *)
Lemma release_raw extra0 extra t0 t1 w s f :
  refs_ok extra0 t0 w → objects w !! s = Some f → 0 < fd_count (streams_ t0) s + extra0 s →
  (∀ x, fd_count (streams_ t1) x + extra x =
        fd_count (streams_ t0) x + extra0 x + if decide (x = s) then -1 else 0) →
  (∀ x, 0 <= extra x ∧ (extra x ≠ 0 → is_Some (objects w !! x))) →
  (∀ fd x, streams_ t1 !! fd = Some (Some x) → x = s ∨ ∃ fd', streams_ t0 !! fd' = Some (Some x)) →
  ∃ o, ReleaseFileRef s w = Done (tt, {| objects := o; calls := calls w ++ release_calls s f |}) ∧
       refs_ok extra t1 {| objects := o; calls := calls w ++ release_calls s f |}.
Proof.
  intros Hr Hf Hpos Hc Hex Ha. destruct (ok_count _ _ _ Hr _ _ Hf) as [Hcount Hhad].
  rewrite (release_file_ref_spec _ _ _ Hf) by (apply Hhad || idtac; lia). cbv zeta.
  unfold release_calls. destruct (Z.eqb_spec (file_ref_count_ f) 1) as [H1|H1].
  - eexists. split; [done|]. eapply refs_ok_update with (d := -1); eauto.
  - rewrite app_nil_r. eexists. split; [done|]. eapply refs_ok_update with (d := -1); eauto.
Qed.

Lemma release_calls_last s f :
  omap (λ c, match c with CallOnLastFileRef s => Some s | _ => None end) (release_calls s f) =
  if file_ref_count_ f =? 1 then [s] else [].
Proof. unfold release_calls. destruct (file_ref_count_ f =? 1); [apply closing_calls_last|done]. Qed.

(** The step made of a change of the table and a release. *)
Lemma released_step extra w t1 o s f :
  (∀ x, total extra w x ≠ 0 ∧ fd_count (streams_ t1) x + extra x = 0 ↔
        x = s ∧ file_ref_count_ f = 1) →
  table_ok t1 → (∀ fd, in_range t1 fd ↔ in_range w.1 fd) →
  refs_ok extra t1 {| objects := o; calls := calls w.2 ++ release_calls s f |} →
  step_ok extra w (t1, {| objects := o; calls := calls w.2 ++ release_calls s f |}) (streams_ t1).
Proof.
  intros Hlast Ht1 Hrg Hr. split; try done.
  - intros x. rewrite last_refs_app, release_calls_last. unfold total at 2. simpl. rewrite Hlast.
    destruct (Z.eqb_spec (file_ref_count_ f) 1).
    + rewrite list_elem_of_singleton. naive_solver.
    + split; [by intros ?%elem_of_nil|naive_solver].
  - rewrite last_refs_app, release_calls_last.
    destruct (file_ref_count_ f =? 1); [apply NoDup_singleton|constructor].
Qed.

Lemma release_step extra w t1 s :
  (∀ x, fd_count (streams_ t1) x = fd_count (streams_ w.1) x - if decide (x = s) then 1 else 0) →
  (∀ fd x, streams_ t1 !! fd = Some (Some x) → ∃ fd', streams_ w.1 !! fd' = Some (Some x)) →
  table_ok t1 → (∀ fd, in_range t1 fd ↔ in_range w.1 fd) →
  refs_ok extra w.1 w.2 → (∃ fd, streams_ w.1 !! fd = Some (Some s)) →
  ∃ s', ReleaseFileRef s w.2 = Done (tt, s') ∧ step_ok extra w (t1, s') (streams_ t1).
Proof.
  intros Hc Ha Ht1 Hrg Hr [fd Hfd]. destruct (ok_alive _ _ _ Hr _ _ Hfd) as [f Hf].
  apply fd_count_pos in Hfd. pose proof (proj1 (ok_extra _ _ _ Hr s)) as Hex.
  destruct (release_raw extra extra w.1 t1 w.2 s f) as (o & Ho & Hr1); try done; [lia| |apply Hr| |].
  - intros x. rewrite Hc. case_decide; lia.
  - intros fd' x Hx. right. by eapply Ha.
  - eexists. split; [exact Ho|]. apply released_step; try done.
    destruct (ok_count _ _ _ Hr _ _ Hf) as [Hcount _]. intros x. unfold total. rewrite Hc.
    case_decide as E; [subst x; lia|]. split; [lia|naive_solver].
Qed.

(** Nothing changes for the streams. *)
Lemma step_same extra w t1 :
  (∀ x, fd_count (streams_ t1) x = fd_count (streams_ w.1) x) →
  (∀ fd x, streams_ t1 !! fd = Some (Some x) → ∃ fd', streams_ w.1 !! fd' = Some (Some x)) →
  table_ok t1 → (∀ fd, in_range t1 fd ↔ in_range w.1 fd) → refs_ok extra w.1 w.2 →
  step_ok extra w (t1, w.2) (streams_ t1).
Proof.
  intros Hc Ha Ht1 Hrg Hr.
  assert (last_refs w (t1, w.2) = []) as Hl by (destruct w as [t [o c]]; apply (last_refs_same (t, mkStreams o c))).
  split; try done; simpl.
  - by eapply refs_ok_same.
  - intros x. rewrite Hl. unfold total. simpl. rewrite Hc.
    split; [by intros ?%elem_of_nil|naive_solver].
  - rewrite Hl. constructor.
Qed.

(** The streams after [AddFileRef]. *)
Definition with_ref (w : Streams) (s : sid) (f : FileStream) : Streams :=
  {| objects := <[s := set_count (file_ref_count_ f + 1) true f]> (objects w); calls := calls w |}.

Lemma step_add_ref extra w t1 s f :
  objects w.2 !! s = Some f → IsClosed f = false →
  (∀ x, fd_count (streams_ t1) x = fd_count (streams_ w.1) x + if decide (x = s) then 1 else 0) →
  (∀ fd x, streams_ t1 !! fd = Some (Some x) → x = s ∨ ∃ fd', streams_ w.1 !! fd' = Some (Some x)) →
  table_ok t1 → (∀ fd, in_range t1 fd ↔ in_range w.1 fd) → refs_ok extra w.1 w.2 →
  step_ok extra w (t1, with_ref w.2 s f) (streams_ t1).
Proof.
  intros Hf Hclosed Hc Ha Ht1 Hrg Hr.
  assert (∀ x, 0 <= fd_count (streams_ w.1) x) as Hpos by (intros; unfold fd_count; lia).
  split; try done; simpl.
  - eapply refs_ok_update with (d := 1); [exact Hr|exact Hf|done|done| |apply Hr|exact Ha].
    intros x. rewrite Hc. lia.
  - intros x. unfold with_ref. rewrite last_refs_same. unfold total. simpl. rewrite Hc.
    split; [by intros ?%elem_of_nil|]. intros [H1 H2].
    pose proof (proj1 (ok_extra _ _ _ Hr x)). specialize (Hpos x). case_decide; lia.
  - unfold with_ref. rewrite last_refs_same. constructor.
Qed.

Lemma fd_count_claim (m : gmap Z (option sid)) fd v x :
  m !! fd = None ∨ m !! fd = Some None →
  fd_count (<[fd := v]> m) x = fd_count m x + one_if (bool_decide (v = Some x)).
Proof.
  intros [Hm|Hm]; [by apply fd_count_insert|]. rewrite (fd_count_replace _ _ None) by done.
  rewrite bool_decide_false by done. simpl. lia.
Qed.

Lemma claim_alive (m : gmap Z (option sid)) fd v fd' x :
  <[fd := v]> m !! fd' = Some (Some x) → v = Some x ∨ ∃ fd'', m !! fd'' = Some (Some x).
Proof. rewrite lookup_insert. case_decide; [intros [= ->]; by left|by right; exists fd']. Qed.

(** [AddFileStream], after the reference is taken. *)
Lemma add_table_run fd v (w : World) :
  table_ok w.1 → in_range w.1 fd →
  streams_ w.1 !! fd = None ∨ streams_ w.1 !! fd = Some None →
  ∃ t1, (w ← get;
         match streams_ w.1 !! fd with
         | None =>
             on_table (λ t, set_unused (make_heap (filter (λ x, x ≠ fd) (unused_fds_ t)))
                              (set_streams (<[fd := v]> (streams_ t)) t))
         | Some old =>
             check (bool_decide (old = None));;
             on_table (λ t, set_streams (<[fd := v]> (streams_ t)) t)
         end) w = Done (tt, (t1, w.2)) ∧
    streams_ t1 = <[fd := v]> (streams_ w.1) ∧ table_ok t1 ∧
    (∀ x, in_range t1 x ↔ in_range w.1 x).
Proof.
  intros Ht Hfd Hm. unfold get, check, on_table, modify, mbind, St_bind.
  destruct (streams_ w.1 !! fd) as [old|] eqn:E.
  - destruct Hm as [?|[= ->]]; [done|]. rewrite bool_decide_true by done.
    eexists. split; [done|]. split; [done|]. split; [|done]. apply table_ok_set; [done|]. eauto.
  - eexists. split; [done|]. split; [done|]. split; [|done]. by apply table_ok_insert.
Qed.

Lemma add_file_stream_step extra w fd v :
  table_ok w.1 → refs_ok extra w.1 w.2 → fd_op_ok (FAdd fd v) w →
  ∃ w', AddFileStream fd v w = Done (tt, w') ∧ step_ok extra w w' (<[fd := v]> (streams_ w.1)).
Proof.
  intros Ht Hr (Hfd & Hm & Hopen). unfold AddFileStream.
  destruct v as [s|].
  - destruct (Hopen s eq_refl) as (f & Hf & Hc).
    destruct (add_file_ref_spec w.2 s) as (f' & Hf' & Hadd); [by exists f|].
    rewrite Hf in Hf'. injection Hf' as <-.
    rewrite (St_bind_run _ _ w tt (w.1, with_ref w.2 s f)) by (unfold on_streams; by rewrite Hadd).
    destruct (add_table_run fd (Some s) (w.1, with_ref w.2 s f)) as (t1 & -> & Hs & Ht1 & Hrg);
      [done..|].
    simpl in Hs. eexists. split; [done|]. rewrite <-Hs. apply step_add_ref; try done.
    + intros x. by rewrite Hs, fd_count_claim, one_if_some by done.
    + intros fd' x. rewrite Hs. intros [[= ->]|?]%claim_alive; auto.
  - rewrite (St_bind_run _ _ w tt w) by done.
    destruct (add_table_run fd None w) as (t1 & -> & Hs & Ht1 & Hrg); [done..|].
    eexists. split; [done|]. rewrite <-Hs. apply step_same; try done.
    + intros x. rewrite Hs, fd_count_claim by done. rewrite bool_decide_false by done. simpl. lia.
    + intros fd' x. rewrite Hs. by intros [?|?]%claim_alive.
Qed.

Lemma remove_file_stream_step extra w fd :
  table_ok w.1 → refs_ok extra w.1 w.2 → is_Some (streams_ w.1 !! fd) →
  ∃ w', RemoveFileStream fd w = Done (tt, w') ∧ step_ok extra w w' (delete fd (streams_ w.1)).
Proof.
  intros Ht Hr Hfd. pose proof (table_ok_delete _ _ Ht Hfd) as Ht1.
  set (t1 := set_unused _ _) in Ht1. destruct Hfd as [v Hv].
  assert (∀ fd' x, streams_ t1 !! fd' = Some (Some x) → ∃ fd'', streams_ w.1 !! fd'' = Some (Some x)) as Ha.
  { intros fd' x Hx. subst t1. simpl in Hx. apply lookup_delete_Some in Hx as [_ Hx]. eauto. }
  unfold RemoveFileStream, get, on_table, modify, mbind, St_bind. rewrite Hv. fold t1.
  destruct v as [s|].
  - destruct (release_step extra w t1 s) as (s' & Hrel & Hstep); try done.
    + intros x. simpl. by rewrite (fd_count_delete _ _ _ _ Hv), one_if_some.
    + by exists fd.
    + unfold on_streams. simpl. rewrite Hrel. by eexists.
  - eexists. split; [done|]. apply (step_same extra w t1); try done.
    intros x. simpl. rewrite (fd_count_delete _ _ _ _ Hv), bool_decide_false by done. simpl. lia.
Qed.

Lemma replace_file_stream_step extra w fd s :
  table_ok w.1 → refs_ok extra w.1 w.2 → fd_op_ok (FReplace fd s) w →
  ∃ w', ReplaceFileStream fd s w = Done (tt, w') ∧ step_ok extra w w' (<[fd := Some s]> (streams_ w.1)).
Proof.
  intros Ht Hr [[old Hold] Hopen]. unfold ReplaceFileStream. unfold get, mbind at 1, St_bind at 1.
  rewrite Hold. case_bool_decide as E.
  { subst old. rewrite insert_id by done. eexists. split; [done|]. destruct w as [t st].
    apply (step_same extra (t, st) t); naive_solver. }
  set (t1 := set_streams (<[fd := Some s]> (streams_ w.1)) w.1).
  assert (table_ok t1) as Ht1 by (apply table_ok_set; eauto).
  assert (∀ x, fd_count (streams_ t1) x = fd_count (streams_ w.1) x
     - (if decide (x = old) then 1 else 0) + if decide (x = s) then 1 else 0) as Hc.
  { intros x. rewrite <-!one_if_some. by apply fd_count_replace. }
  destruct Hopen as (f & Hf & Hcl). destruct (add_file_ref_spec w.2 s) as (f' & Hf' & Hadd); [by exists f|].
  rewrite Hf in Hf'. injection Hf' as <-.
  destruct (ok_alive _ _ _ Hr _ _ Hold) as [g Hg]. pose proof (fd_count_pos _ _ _ Hold) as Hpos.
  pose proof (proj1 (ok_extra _ _ _ Hr old)) as Hexo. pose proof (ok_extra _ _ _ Hr) as Hex.
  assert (∀ x, 0 <= fd_count (streams_ w.1) x) as Hnn by (intros; unfold fd_count; lia).
  (* the reference to [old] is counted by [extra1] in between *)
  set (extra1 := λ x, extra x + if decide (x = old) then 1 else 0).
  assert (refs_ok extra1 t1 (with_ref w.2 s f)) as Hr1.
  { eapply refs_ok_update with (d := 1); [exact Hr|exact Hf|done|done| | |].
    - intros x. rewrite Hc. unfold extra1. repeat case_decide; lia.
    - intros x. destruct (Hex x). unfold extra1. case_decide; [subst x; split; [lia|eauto]|].
      split; [lia|]. intros ?. apply H0. lia.
    - intros fd' x Hx. apply claim_alive in Hx as [[= ->]|?]; auto. }
  assert (objects (with_ref w.2 s f) !! old = Some g) as Hg1
    by (simpl; by rewrite lookup_insert_ne).
  destruct (release_raw extra1 extra t1 t1 (with_ref w.2 s f) old g) as (o & Ho & Hr2); try done.
  - unfold extra1. rewrite decide_True by done. unfold fd_count. lia.
  - intros x. unfold extra1. case_decide; lia.
  - intros x. destruct (Hex x) as [H1 H2]. split; [done|]. intros ?%H2. simpl.
    rewrite lookup_insert. case_decide; eauto.
  - intros fd' x Hx. right. eauto.
  - eexists. split.
    + unfold on_table, modify, mbind, St_bind. fold t1. unfold on_streams. simpl.
      unfold with_ref in *. rewrite Hadd. simpl in *. rewrite Ho. done.
    + apply (released_step extra w t1 o old g); [|done|done|done].
      destruct (ok_count _ _ _ Hr _ _ Hg) as [Hcount _]. intros x. unfold total. rewrite Hc.
      specialize (Hnn x). destruct (Hex x) as [Hexx _].
      destruct (decide (x = old)) as [E1|E1], (decide (x = s)) as [E2|E2]; subst;
        (split; intros [? ?]; try split; try done; lia).
Qed.

Lemma filter_cons_self fd (rest : list Z) :
  filter (λ x, x ≠ fd) (fd :: rest) = filter (λ x, x ≠ fd) rest.
Proof. rewrite filter_cons. by rewrite decide_False by auto. Qed.

(** The number that [GetFirstUnusedDescriptor] must give. *)
Definition first_unused (t : FdToFileStreamMap) (r : Z) : Prop :=
  (r = -1 ∧ ∀ fd, in_range t fd → is_Some (streams_ t !! fd)) ∨
  (in_range t r ∧ streams_ t !! r = None ∧
   ∀ fd, in_range t fd → streams_ t !! fd = None → r <= fd).

Lemma get_first_unused_step extra w :
  table_ok w.1 → refs_ok extra w.1 w.2 →
  ∃ r w', GetFirstUnusedDescriptor w = Done (r, w') ∧ first_unused w.1 r ∧
          step_ok extra w w' (spec_fd_op FGet r (streams_ w.1)).
Proof.
  intros Ht Hr. unfold GetFirstUnusedDescriptor, get, mbind at 1, St_bind at 1. simpl spec_fd_op.
  destruct (unused_fds_ w.1) as [|fd rest] eqn:E.
  - exists (-1). eexists. split; [done|]. split.
    + left. split; [done|]. intros fd Hfd. destruct (streams_ w.1 !! fd) eqn:Ef; [eauto|].
      assert (fd ∈ unused_fds_ w.1) as Hin by (by apply (ok_unused _ Ht)).
      rewrite E in Hin. by apply elem_of_nil in Hin.
    + simpl. destruct w as [t st]. apply (step_same extra (t, st) t); naive_solver.
  - assert (fd ∈ unused_fds_ w.1) as [Hfd Hn]%(ok_unused _ Ht) by (rewrite E; by left).
    pose proof (ok_min _ Ht). assert (fd =? -1 = false) as Hm
      by (apply Z.eqb_neq; unfold in_range in Hfd; lia).
    rewrite Hm. exists fd. rewrite Hm. unfold AddFileStream, get, on_table, modify, mbind, St_bind.
    cbn [mret St_ret fst snd set_unused streams_]. unfold mret, St_ret. rewrite Hn.
    eexists. split; [done|]. split.
    + right. split; [done|]. split; [done|]. intros x Hx Hxn.
      assert (x ∈ unused_fds_ w.1) as Hin by (by apply (ok_unused _ Ht)).
      pose proof (ok_heap _ Ht) as Hs. rewrite E in Hin, Hs. inversion Hs as [|?? _ Hall]; subst.
      apply elem_of_cons in Hin as [->|Hin]; [lia|]. rewrite Forall_forall in Hall.
      apply Hall in Hin. lia.
    + pose proof (table_ok_insert _ _ None Ht Hfd) as Ht1. rewrite E, filter_cons_self in Ht1.
      destruct w as [t st]. cbn [fst snd] in *.
      set (t1 := set_unused _ _) in Ht1.
      change (step_ok extra (t, st) (t1, st) (streams_ t1)).
      apply (step_same extra (t, st) t1); try done.
      * intros x. simpl. rewrite fd_count_claim by auto. rewrite bool_decide_false by done. simpl. lia.
      * intros fd' x Hx. simpl in Hx. by apply claim_alive in Hx as [?|?].
Qed.

Lemma run_fd_op_step extra o w :
  table_ok w.1 → refs_ok extra w.1 w.2 → fd_op_ok o w →
  ∃ r w', run_fd_op o w = Done (r, w') ∧ step_ok extra w w' (spec_fd_op o r (streams_ w.1)) ∧
          (o = FGet → first_unused w.1 r).
Proof.
  intros Ht Hr Ho. destruct o as [|fd v|fd s|fd].
  - destruct (get_first_unused_step extra w Ht Hr) as (r & w' & H1 & H2 & H3). by exists r, w'.
  - destruct (add_file_stream_step extra w fd v Ht Hr Ho) as (w' & H1 & H2).
    exists 0, w'. split; [by simpl; run_with H1|]. done.
  - destruct (replace_file_stream_step extra w fd s Ht Hr Ho) as (w' & H1 & H2).
    exists 0, w'. split; [by simpl; run_with H1|]. done.
  - destruct (remove_file_stream_step extra w fd Ht Hr Ho) as (w' & H1 & H2).
    exists 0, w'. split; [by simpl; run_with H1|]. done.
Qed.

Lemma fd_count_empty s : fd_count ∅ s = 0.
Proof. unfold fd_count. by rewrite map_filter_empty, map_size_empty. Qed.

Lemma fd_count_nonneg m s : 0 <= fd_count m s.
Proof. unfold fd_count. lia. Qed.

(** A stream in the table or counted is in the store. *)
Lemma fd_count_absent extra t w s :
  refs_ok extra t w → objects w !! s = None → fd_count (streams_ t) s = 0.
Proof.
  intros Hr Hs. apply fd_count_zero. intros fd Hfd.
  destruct (ok_alive _ _ _ Hr _ _ Hfd). congruence.
Qed.

Lemma reachable_ok lo hi w :
  0 <= lo <= hi → fd_reachable lo hi w → table_ok w.1 ∧ refs_ok no_extra w.1 w.2.
Proof.
  intros Hlo. induction 1 as [t Ht|t w s oflag listening Hreach [Ht Hr] Hs|w o r w' Hreach [Ht Hr] Ho Hrun].
  - destruct (table_ok_new lo hi Hlo) as (t' & Ht' & Hok & He).
    rewrite Ht in Ht'. injection Ht' as <-. split; [done|].
    split; simpl.
    + intros fd s. rewrite He. intros Hx. by rewrite lookup_empty in Hx.
    + intros s. unfold no_extra. split; [lia|done].
    + intros s f. by rewrite lookup_empty.
  - split; [done|]. simpl in *. split; simpl.
    + intros fd x Hx. rewrite lookup_insert. case_decide; [eauto|]. by apply (ok_alive _ _ _ Hr) in Hx.
    + intros x. unfold no_extra. split; [lia|done].
    + intros x f. rewrite lookup_insert. case_decide as E; [|apply (ok_count _ _ _ Hr)].
      intros [= <-]. subst x. rewrite (fd_count_absent _ _ _ _ Hr Hs). done.
  - destruct (run_fd_op_step no_extra o w Ht Hr Ho) as (r' & w1 & Hrun' & Hstep & _).
    rewrite Hrun in Hrun'. injection Hrun' as <- <-. split; apply Hstep.
Qed.

(** ** Properties *)

(** C2.  The descriptor table.  From a new table on, every call that keeps the
    protocol of the file system (adding to a free or claimed number of the range
    and only open streams, replacing and removing numbers in use) runs without
    tripping an assertion and changes the mapping as stated; every number of the
    range stays either in use or in the heap of unused numbers, exactly once; and
    the file reference count of every stream is the number of its descriptors. *)
Theorem fd_table_invariant lo hi o w :
  0 <= lo <= hi → fd_reachable lo hi w → fd_op_ok o w →
  ∃ r w', run_fd_op o w = Done (r, w') ∧
    streams_ w'.1 = spec_fd_op o r (streams_ w.1) ∧
    (∀ fd, in_range w'.1 fd ↔ in_range w.1 fd) ∧
    StronglySorted Z.lt (unused_fds_ w'.1) ∧
    (∀ fd, in_range w'.1 fd → fd ∈ unused_fds_ w'.1 ↔ streams_ w'.1 !! fd = None) ∧
    (∀ s f, objects w'.2 !! s = Some f → file_ref_count_ f = fd_count (streams_ w'.1) s).
Proof.
  intros Hlo Hreach Ho. destruct (reachable_ok lo hi w Hlo Hreach) as [Ht Hr].
  destruct (run_fd_op_step no_extra o w Ht Hr Ho) as (r & w' & Hrun & Hstep & _).
  exists r, w'. destruct Hstep as [Hm Ht' Hrg Hr' _ _]. split_and!; try done.
  - apply Ht'.
  - intros fd Hfd. rewrite (ok_unused _ Ht'). tauto.
  - intros s f Hf. apply (ok_count _ _ _ Hr') in Hf as [Hc _]. unfold no_extra in Hc. lia.
Qed.

(** [GetFirstUnusedDescriptor] gives the lowest number of the range that has
    no entry and marks it as used, or -1 and no change exactly when all numbers
    are in use. *)
Theorem first_unused_descriptor_is_lowest lo hi w :
  0 <= lo <= hi → fd_reachable lo hi w →
  ∃ r w', GetFirstUnusedDescriptor w = Done (r, w') ∧
    (if decide (r = -1) then w' = w ∧ ∀ fd, in_range w.1 fd → is_Some (streams_ w.1 !! fd)
     else in_range w.1 r ∧ streams_ w.1 !! r = None ∧ streams_ w'.1 = <[r := None]> (streams_ w.1) ∧
          ∀ fd, in_range w.1 fd → streams_ w.1 !! fd = None → r <= fd).
Proof.
  intros Hlo Hreach. destruct (reachable_ok lo hi w Hlo Hreach) as [Ht Hr].
  destruct (get_first_unused_step no_extra w Ht Hr) as (r & w' & Hrun & Hf & Hstep).
  exists r, w'. split; [done|]. pose proof (so_map _ _ _ _ Hstep) as Hm. simpl in Hm.
  destruct Hf as [[-> Hall]|(Hin & Hn & Hmin)].
  - rewrite decide_True by done. split; [|done].
    unfold GetFirstUnusedDescriptor, get, mbind, St_bind in Hrun.
    destruct (unused_fds_ w.1) as [|fd rest] eqn:E; [by injection Hrun|].
    assert (fd ∈ unused_fds_ w.1) as [Hfd Hfn]%(ok_unused _ Ht) by (rewrite E; by left).
    destruct (Hall _ Hfd). congruence.
  - assert (r ≠ -1) as Hne by (pose proof (ok_min _ Ht); unfold in_range in Hin; lia).
    rewrite decide_False by done. rewrite (proj2 (Z.eqb_neq r (-1))) in Hm by done. done.
Qed.

(** A stream is closed exactly when its last descriptor goes: a call makes
    [OnLastFileRef] on a stream if and only if the stream had descriptors before
    the call and has none after it, and then exactly once. *)
Theorem last_descriptor_closes lo hi o w r w' :
  0 <= lo <= hi → fd_reachable lo hi w → fd_op_ok o w → run_fd_op o w = Done (r, w') →
  NoDup (last_refs w w') ∧
  ∀ s, s ∈ last_refs w w' ↔
       (∃ fd, streams_ w.1 !! fd = Some (Some s)) ∧ ∀ fd, streams_ w'.1 !! fd ≠ Some (Some s).
Proof.
  intros Hlo Hreach Ho Hrun. destruct (reachable_ok lo hi w Hlo Hreach) as [Ht Hr].
  destruct (run_fd_op_step no_extra o w Ht Hr Ho) as (r' & w1 & Hrun' & Hstep & _).
  rewrite Hrun in Hrun'. injection Hrun' as <- <-. split; [apply Hstep|].
  intros s. rewrite (so_last _ _ _ _ Hstep). unfold total, no_extra.
  by rewrite !Z.add_0_r, fd_count_nonzero, fd_count_zero.
Qed.

(** ** Witnesses *)

(** Descriptors 0..3, stream 7 open at 0 and 1. *)
Definition witness_world : World :=
  match (GetFirstUnusedDescriptor;;
         (λ w, Done (tt, (w.1, {| objects := <[7%nat := new_stream 0 false]> (objects w.2);
                                  calls := calls w.2 |})));;
         AddFileStream 0 (Some 7%nat);; AddFileStream 1 (Some 7%nat))
          (match FdToFileStreamMap_new 0 3 with Done t => t | _ => mkFdMap ∅ [] 0 0 end,
           mkStreams ∅ []) with
  | Done (_, w) => w
  | _ => (mkFdMap ∅ [] 0 0, mkStreams ∅ [])
  end.

Lemma witness_reachable : fd_reachable 0 3 witness_world.
Proof.
  eapply (reach_call 0 3 _ (FAdd 1 (Some 7%nat)) 0).
  - eapply (reach_call 0 3 _ (FAdd 0 (Some 7%nat)) 0).
    + eapply (reach_stream 0 3 _ _ 7 0 false).
      * eapply (reach_call 0 3 _ FGet 0); [by eapply reach_new|done|reflexivity].
      * reflexivity.
    + split; [done|]. split; [by right|]. intros s [= <-]. by eexists.
    + reflexivity.
  - split; [done|]. split; [by left|]. intros s [= <-]. by eexists.
  - vm_compute. reflexivity.
Qed.

Lemma fd_table_invariant_witness :
  ∃ r w', run_fd_op (FRemove 0) witness_world = Done (r, w') ∧ unused_fds_ w'.1 = [0; 2; 3].
Proof.
  destruct (fd_table_invariant 0 3 (FRemove 0) witness_world) as (r & w' & Hrun & _).
  - lia.
  - exact witness_reachable.
  - by eexists.
  - exists r, w'. split; [exact Hrun|]. vm_compute in Hrun. injection Hrun as _ <-. reflexivity.
Defined.

Lemma first_unused_descriptor_is_lowest_witness :
  ∃ w', GetFirstUnusedDescriptor witness_world = Done (2, w').
Proof.
  destruct (first_unused_descriptor_is_lowest 0 3 witness_world) as (r & w' & Hrun & _).
  - lia.
  - exact witness_reachable.
  - exists w'. rewrite Hrun. vm_compute in Hrun. injection Hrun as <- _. reflexivity.
Defined.

Lemma last_descriptor_closes_witness :
  ∃ w1 w2, run_fd_op (FRemove 0) witness_world = Done (0, w1) ∧
    run_fd_op (FRemove 1) w1 = Done (0, w2) ∧ 7%nat ∉ last_refs witness_world w1 ∧
    7%nat ∈ last_refs w1 w2.
Proof.
  destruct (run_fd_op (FRemove 0) witness_world) as [[r w1]| |] eqn:E1; try (vm_compute in E1; discriminate).
  assert (fd_reachable 0 3 w1) as Hw1
    by (eapply reach_call; [exact witness_reachable| |exact E1]; by eexists).
  assert (r = 0) as -> by (vm_compute in E1; congruence).
  destruct (run_fd_op (FRemove 1) w1) as [[r w2]| |] eqn:E2;
    try (vm_compute in E1; injection E1 as <-; vm_compute in E2; discriminate).
  pose proof E1 as E1'. vm_compute in E1'. injection E1' as E1'.
  assert (r = 0) as -> by (subst w1; vm_compute in E2; congruence).
  exists w1, w2. split; [reflexivity|]. split; [exact E2|]. split.
  - rewrite (proj2 (last_descriptor_closes 0 3 (FRemove 0) witness_world 0 w1
      ltac:(lia) witness_reachable ltac:(by eexists) E1) 7%nat).
    intros [_ Hno]. apply (Hno 1). subst w1. reflexivity.
  - apply (last_descriptor_closes 0 3 (FRemove 1) w1 0 w2); [lia|exact Hw1| |exact E2|].
    + subst w1. by eexists.
    + split; [exists 1; subst w1; reflexivity|]. intros fd. subst w1. vm_compute in E2.
      injection E2 as <-. intros Hfd. vm_compute in Hfd. destruct fd as [|[]|]; try discriminate.
Defined.
