(* ===== verification/VfsFds.v ===== *)
(** * VfsFds: the descriptor calls of [virtual_file_system.cc]
    (under src/posix_translation/)

    [VirtualFileSystem] reaches its streams through the descriptor table: this
    file has the calls that change the table ([close], [dup], [dup2],
    [AddFileStreamLocked], [RegisterFileStream]) and the two that wait on many
    descriptors ([poll], [select]).  The system's state is the table with the
    streams of FdMap.v and an environment [E]: the clock and the states of the
    streams, which waiting lets other threads change. *)

From S2P Require Import Prelude Util FileStream FdMap.
Import Refs.

#[local] Open Scope Z_scope.

(** ** Descriptors *)

Section Descriptors.
(** [IsAllowedOnMainThread() || !IsMainThread()] and [permission().IsValid()]. *)
Context (allowed valid_permission : sid → bool).

Definition GetFirstUnusedDescriptorLocked : St World Z := GetFirstUnusedDescriptor.

Definition GetStreamLocked (fd : Z) : St World (option sid) := GetStream allowed fd.

Definition AddFileStreamLocked (stream : sid) : St World Z :=
  check (valid_permission stream);;
  fd ← GetFirstUnusedDescriptorLocked;
  if 0 <=? fd then AddFileStream fd (Some stream);; mret fd else mret fd.

Definition RegisterFileStream (fd : Z) (stream : sid) : St World bool :=
  known ← IsKnownDescriptor fd;
  if (known : bool) then mret false
  else check (valid_permission stream);; AddFileStream fd (Some stream);; mret true.

Definition CloseLocked (fd : Z) : St World bool :=
  stream ← GetStream allowed fd;
  match stream with
  | None => mret false
  | Some _ => RemoveFileStream fd;; mret true
  end.

Definition close (fd : Z) : St World (res Z) :=
  closed ← CloseLocked fd; mret (if (closed : bool) then Ok 0 else Err EBADF).

Definition DupLocked (fd newfd : Z) : St World (res Z) :=
  stream ← GetStream allowed fd;
  match stream with
  | None => mret (Err EBADF)
  | Some s =>
      newfd ← (if newfd <? 0 then GetFirstUnusedDescriptorLocked else mret newfd);
      if newfd <? 0 then mret (Err EMFILE)
      else if fd =? newfd then mret (Ok newfd)
      else CloseLocked newfd;; AddFileStream newfd (Some s);; mret (Ok newfd)
  end.

Definition dup (fd : Z) : St World (res Z) := DupLocked fd (-1).
Definition dup2 (fd newfd : Z) : St World (res Z) := DupLocked fd newfd.
End Descriptors.

(** ** Calls on a descriptor *)

Abbreviation Sys E := (World * E)%type.

Definition on_fds {E A} (m : St World A) : St (Sys E) A := λ w,
  match m w.1 with
  | Done (a, t) => Done (a, (t, w.2))
  | Abort => Abort
  | NoFuel => NoFuel
  end.

Section Calls.
Context {E : Type} (allowed : sid → bool).

(** [read], [write], [readv], [pread], [lseek], [fstat], [ioctl], the socket
    calls and the like: the stream's method, or EBADF. *)
Definition fd_call {A} (fd : Z) (method : sid → St (Sys E) (res A)) : St (Sys E) (res A) :=
  stream ← on_fds (GetStream allowed fd);
  match stream with
  | Some s => method s
  | None => mret (Err EBADF)
  end.

Definition ftruncate (method : sid → Z → St (Sys E) (res Z)) (fd length : Z) : St (Sys E) (res Z) :=
  if length <? 0 then mret (Err EINVAL) else fd_call fd (λ s, method s length).

(** A reserved descriptor without a stream is ignored. *)
Definition vfs_fcntl (method : sid → St (Sys E) (res Z)) (fd : Z) : St (Sys E) (res Z) :=
  stream ← on_fds (GetStream allowed fd);
  match stream with
  | Some s => method s
  | None =>
      known ← on_fds (IsKnownDescriptor fd);
      mret (if (known : bool) then Ok 0 else Err EBADF)
  end.

Definition shutdown (fd : Z) : St (Sys E) (res Z) := fd_call fd (λ _, mret (Ok 0)).

Definition vfs_epoll_ctl (method : sid → sid → St (Sys E) (res Z)) (epfd fd : Z) :
    St (Sys E) (res Z) :=
  epoll_stream ← on_fds (GetStream allowed epfd);
  target_stream ← on_fds (GetStream allowed fd);
  match epoll_stream, target_stream with
  | Some e, Some t => if epfd =? fd then mret (Err EINVAL) else method e t
  | _, _ => mret (Err EBADF)
  end.
End Calls.

(** ** poll and select *)

Definition POLLIN : Z := 1.
Definition POLLOUT : Z := 4.
Definition POLLERR : Z := 8.
Definition POLLHUP : Z := 16.
Definition POLLNVAL : Z := 32.

Record pollfd : Type := mkPollfd { pfd_fd : Z; pfd_events : Z; pfd_revents : Z }.

(** [SelectReadyEvent]. *)
Inductive SelectReadyEvent : Type := SELECT_READY_READ | SELECT_READY_WRITE | SELECT_READY_EXCEPTION.

Section Poll.
Context {E : Type} (allowed : sid → bool).
(** The streams' [GetPollEvents] and [IsSelect*Ready], which change nothing. *)
Context (GetPollEvents : sid → E → Z) (IsSelectReady : SelectReadyEvent → sid → E → bool).
(** The platform's clock and condition variable. *)
Context (Now : St (Sys E) Z) (Wait : St (Sys E) unit) (TimedWait : Z → St (Sys E) unit).

Definition WaitUntil (time_limit : Z) : St (Sys E) bool :=
  WaitUntilInternal Now Wait TimedWait time_limit.

(** [while (!ready) if (WaitUntil(time_limit)) break;] *)
Fixpoint wait_loop (fuel : nat) (ready : St (Sys E) bool) (time_limit : Z) : St (Sys E) unit :=
  match fuel with
  | O => λ _, NoFuel
  | S n =>
      r ← ready;
      if (r : bool) then mret tt
      else timedout ← WaitUntil time_limit;
           if (timedout : bool) then mret tt else wait_loop n ready time_limit
  end.

Fixpoint IsPollReadyLocked (fds : list pollfd) (apply : bool) : St (Sys E) (Z * list pollfd) :=
  match fds with
  | [] => mret (0, [])
  | p :: fds =>
      let events_mask := Z.lor (pfd_events p) (Z.lor POLLHUP (Z.lor POLLERR POLLNVAL)) in
      stream ← on_fds (GetStream allowed (pfd_fd p));
      env ← gets snd;
      let events :=
        Z.land (match stream with Some s => GetPollEvents s env | None => POLLNVAL end) events_mask in
      r ← IsPollReadyLocked fds apply;
      mret ((if negb (events =? 0) then r.1 + 1 else r.1),
            (if apply then {| pfd_fd := pfd_fd p; pfd_events := pfd_events p; pfd_revents := events |}
             else p) :: r.2)
  end.

Definition poll (fuel : nat) (fds : list pollfd) (timeout : Z) : St (Sys E) (Z * list pollfd) :=
  (if negb (timeout =? 0) then
     time_limit ← TimeOutToTimeLimit Now (Z.max 0 timeout * 1000);
     wait_loop fuel (r ← IsPollReadyLocked fds false; mret (negb (r.1 =? 0))) time_limit
   else mret tt);;
  IsPollReadyLocked fds true.

(** One set, from descriptor [i] on: how many are ready, and the set. *)
Fixpoint select_ready (n : nat) (i : Z) (event : SelectReadyEvent) (apply : bool) (fds : gset Z)
    (nset : Z) : St (Sys E) (Z * gset Z) :=
  match n with
  | O => mret (nset, fds)
  | S n =>
      if negb (bool_decide (i ∈ fds)) then select_ready n (i + 1) event apply fds nset
      else
        stream ← on_fds (GetStream allowed i);
        match stream with
        | None => select_ready n (i + 1) event apply fds nset
        | Some s =>
            env ← gets snd;
            if IsSelectReady event s env then
              if negb apply then mret (1, fds)
              else select_ready n (i + 1) event apply fds (nset + 1)
            else select_ready n (i + 1) event apply (if apply then fds ∖ {[i]} else fds) nset
        end
  end.

Definition IsSelectReadyLocked (nfds : Z) (fds : option (gset Z)) (event : SelectReadyEvent)
    (apply : bool) : St (Sys E) (Z * option (gset Z)) :=
  match fds with
  | None => mret (0, None)
  | Some fds => r ← select_ready (Z.to_nat nfds) 0 event apply fds 0; mret (r.1, Some r.2)
  end.

(** The number, the three sets and the timeout afterwards. *)
Definition select (fuel : nat) (nfds : Z) (readfds writefds exceptfds : option (gset Z))
    (timeout : option timeval) :
    St (Sys E) (res Z * (option (gset Z) * option (gset Z) * option (gset Z)) * option timeval) :=
  let is_polling :=
    match timeout with Some t => (tv_sec t =? 0) && (tv_usec t =? 0) | None => false end in
  timeout' ←
    (if negb is_polling then
       time_limit ← match timeout with
                    | Some t => TimeOutToTimeLimit Now (TimeValToTimeDelta t)
                    | None => mret 0
                    end;
       wait_loop fuel
         (r ← IsSelectReadyLocked nfds readfds SELECT_READY_READ false;
          if negb (r.1 =? 0) then mret true
          else
            r ← IsSelectReadyLocked nfds writefds SELECT_READY_WRITE false;
            if negb (r.1 =? 0) then mret true
            else
              r ← IsSelectReadyLocked nfds exceptfds SELECT_READY_EXCEPTION false;
              mret (negb (r.1 =? 0))) time_limit;;
       match timeout with
       | Some _ =>
           end_time ← Now;
           mret (Some (TimeDeltaToTimeVal 32
                         (if time_limit <=? end_time then 0 else time_limit - end_time)))
       | None => mret None
       end
     else mret timeout);
  nread ← IsSelectReadyLocked nfds readfds SELECT_READY_READ true;
  nwrite ← IsSelectReadyLocked nfds writefds SELECT_READY_WRITE true;
  nexcpt ← IsSelectReadyLocked nfds exceptfds SELECT_READY_EXCEPTION true;
  mret
    ((if (nread.1 <? 0) || (nwrite.1 <? 0) || (nexcpt.1 <? 0) then Err EBADF
      else Ok (nread.1 + nwrite.1 + nexcpt.1)),
     (nread.2, nwrite.2, nexcpt.2), timeout').
End Poll.

(* -------------------------------------------------------------------- *)
(** * Proofs *)

(** ** The table *)

Lemma table_stream_open extra w fd s :
  refs_ok extra w.1 w.2 → streams_ w.1 !! fd = Some (Some s) → open_ok w.2 s.
Proof.
  intros Hr Hfd. destruct (ok_alive _ _ _ Hr _ _ Hfd) as [f Hf]. exists f. split; [done|].
  destruct (ok_count _ _ _ Hr _ _ Hf) as [Hc _]. apply fd_count_pos in Hfd.
  pose proof (proj1 (ok_extra _ _ _ Hr s)). unfold IsClosed.
  destruct (Z.eqb_spec (file_ref_count_ f) 0); [lia|]. apply andb_false_r.
Qed.

(** The stream a descriptor stands for. *)
Definition stream_at (w : World) (fd : Z) : option sid := mjoin (streams_ w.1 !! fd).

Lemma get_stream_run extra allowed w fd :
  refs_ok extra w.1 w.2 → (∀ s, stream_at w fd = Some s → allowed s = true) →
  GetStream allowed fd w = Done (stream_at w fd, w).
Proof.
  intros Hr Ha. unfold GetStream, get, mbind, St_bind. unfold stream_at in *.
  destruct (streams_ w.1 !! fd) as [[s|]|] eqn:Efd; [|done|done].
  destruct (table_stream_open _ _ _ _ Hr Efd) as (f & Hf & Hc).
  unfold on_streams, CheckNotClosed, deref, check, mbind, St_bind. rewrite Hf, Hc.
  rewrite Ha by done. by destruct w.
Qed.

(** Every descriptor's stream may be used, and the table is well formed. *)
Record fds_ok (extra : sid → Z) (allowed : sid → bool) (w : World) : Prop := {
  fo_table : table_ok w.1;
  fo_refs : refs_ok extra w.1 w.2;
  fo_allowed : ∀ s, allowed s = true;
}.

Section Table.
Context (extra : sid → Z) (allowed : sid → bool).

Lemma get_stream_ok w fd :
  fds_ok extra allowed w → GetStream allowed fd w = Done (stream_at w fd, w).
Proof. intros [_ Hr Ha]. by eapply get_stream_run. Qed.

Lemma step_fds_ok w w' m : fds_ok extra allowed w → step_ok extra w w' m → fds_ok extra allowed w'.
Proof. intros [_ _ Ha] Hs. split; [apply Hs|apply Hs|done]. Qed.

Lemma close_locked_run w fd :
  fds_ok extra allowed w →
  ∃ w', CloseLocked allowed fd w = Done (bool_decide (is_Some (stream_at w fd)), w') ∧
    fds_ok extra allowed w' ∧ (∀ x, in_range w'.1 x ↔ in_range w.1 x) ∧
    streams_ w'.1 = match stream_at w fd with Some _ => delete fd (streams_ w.1) | None => streams_ w.1 end.
Proof.
  intros Hw. unfold CloseLocked. run_with (get_stream_ok w fd Hw).
  destruct (stream_at w fd) as [s|] eqn:Efd.
  - destruct (remove_file_stream_step extra w fd) as (w' & Hrun & Hs); [apply Hw|apply Hw| |].
    { unfold stream_at in Efd. destruct (streams_ w.1 !! fd); [eauto|done]. }
    exists w'. run_with Hrun. rewrite bool_decide_true by done. split; [done|].
    split; [by eapply step_fds_ok|]. split; [apply Hs|apply Hs].
  - exists w. by rewrite bool_decide_false by (by intros []).
Qed.

Lemma add_run w fd s :
  fds_ok extra allowed w → in_range w.1 fd →
  streams_ w.1 !! fd = None ∨ streams_ w.1 !! fd = Some None → open_ok w.2 s →
  ∃ w', AddFileStream fd (Some s) w = Done (tt, w') ∧ fds_ok extra allowed w' ∧
    (∀ x, in_range w'.1 x ↔ in_range w.1 x) ∧ streams_ w'.1 = <[fd := Some s]> (streams_ w.1).
Proof.
  intros Hw Hfd Hn Ho. destruct (add_file_stream_step extra w fd (Some s)) as (w' & Hrun & Hs);
    [apply Hw|apply Hw| |].
  - split; [done|]. split; [done|]. by intros ? [= <-].
  - exists w'. split; [done|]. split; [by eapply step_fds_ok|]. split; apply Hs.
Qed.

Lemma first_unused_run w :
  fds_ok extra allowed w →
  ∃ r w', GetFirstUnusedDescriptor w = Done (r, w') ∧ first_unused w.1 r ∧
    fds_ok extra allowed w' ∧ (∀ x, in_range w'.1 x ↔ in_range w.1 x) ∧
    streams_ w'.1 = if r =? -1 then streams_ w.1 else <[r := None]> (streams_ w.1).
Proof.
  intros Hw. destruct (get_first_unused_step extra w) as (r & w' & Hrun & Hf & Hs); [apply Hw..|].
  exists r, w'. split; [done|]. split; [done|]. split; [by eapply step_fds_ok|]. split; apply Hs.
Qed.

Lemma table_range_nonneg w fd : fds_ok extra allowed w → in_range w.1 fd → 0 <= fd.
Proof. intros [Ht _ _] [? ?]. pose proof (ok_min _ Ht). lia. Qed.
End Table.

(** ** New streams *)

Section Fds.
Context (extra : sid → Z) (allowed : sid → bool).

Lemma fds_ok_new_object t (st : Streams) s flags b :
  fds_ok extra allowed (t, st) → objects st !! s = None →
  fds_ok extra allowed (t, mkStreams (<[s := new_stream flags b]> (objects st)) (calls st)).
Proof.
  intros [Ht Hr Ha] Hs. split; [done| |done]. cbn [fst snd] in *.
  pose proof (fd_count_absent _ _ _ _ Hr Hs) as Hc. split; cbn [objects].
  - intros fd x Hx. rewrite lookup_insert. case_decide; [eauto|]. by apply (ok_alive _ _ _ Hr) in Hx.
  - intros x. destruct (ok_extra _ _ _ Hr x) as [H1 H2]. split; [done|]. intros H3.
    rewrite lookup_insert. case_decide; eauto.
  - intros x f. rewrite lookup_insert. case_decide as E; [|apply (ok_count _ _ _ Hr)].
    intros [= <-]. subst x. cbn. destruct (ok_extra _ _ _ Hr s) as [_ H2].
    destruct (decide (extra s = 0)) as [->|Hne]; [split; [lia|done]|].
    rewrite Hs in H2. by destruct (H2 Hne).
Qed.

(** Reserving a number does not touch the streams. *)
Lemma first_unused_streams (w w' : World) r :
  GetFirstUnusedDescriptor w = Done (r, w') → w'.2 = w.2.
Proof.
  unfold GetFirstUnusedDescriptor, get, on_table, modify, AddFileStream, mbind, St_bind, mret, St_ret.
  destruct (unused_fds_ w.1) as [|fd rest]; [by intros H; inv_ok|].
  destruct (fd =? -1); [by intros H; inv_ok|]. cbn [fst snd streams_ set_unused].
  unfold get, on_table, modify, check.
  cbn [fst snd streams_ set_unused].
  destruct (streams_ w.1 !! fd) as [old|]; [|by intros [= _ <-]].
  case_bool_decide; [by intros [= _ <-]|done].
Qed.

Lemma add_file_stream_run (w w' : World) fd s :
  AddFileStream fd (Some s) w = Done (tt, w') →
  ∃ f, objects w.2 !! s = Some f ∧ w'.2 = with_ref w.2 s f.
Proof.
  unfold AddFileStream, on_streams. unfold mbind at 1, St_bind at 1.
  destruct (AddFileRef s w.2) as [[[] st]| |] eqn:Ea; [|done|done].
  unfold AddFileRef, CheckNotClosed, deref, check, set_object, modify, mbind, St_bind in Ea.
  destruct (objects w.2 !! s) as [f|] eqn:Ef; [|done]. destruct (negb (IsClosed f)); [|done].
  rewrite Ef in Ea. injection Ea as <-.
  unfold get, mbind, St_bind, on_table, modify, check. cbn [fst snd].
  destruct (streams_ w.1 !! fd) as [old|]; [case_bool_decide; [|done]|];
    intros [= <-]; by exists f.
Qed.

Lemma new_stream_open (w : Streams) s flags b :
  objects w !! s = Some (new_stream flags b) → open_ok w s.
Proof. intros H. by exists (new_stream flags b). Qed.
End Fds.

Lemma on_fds_run {E A} (m : St World A) (w : Sys E) a t :
  m w.1 = Done (a, t) → on_fds m w = Done (a, (t, w.2)).
Proof. unfold on_fds. by intros ->. Qed.

(** The streams after [ReleaseFileRef]. *)
Definition released (w : Streams) (s : sid) (f : FileStream) : Streams :=
  {| objects :=
       <[s := let f1 := set_count (file_ref_count_ f - 1) true f in
              if file_ref_count_ f =? 1 then set_listeners ∅ f1 else f1]> (objects w);
     calls := calls w ++ release_calls s f |}.

Lemma table_stream_counted extra allowed (w : World) fd s :
  fds_ok extra allowed w → streams_ w.1 !! fd = Some (Some s) →
  ∃ f, objects w.2 !! s = Some f ∧ had_file_refs_ f = true ∧ 0 < file_ref_count_ f.
Proof.
  intros Hw Hfd. destruct (ok_alive _ _ _ (fo_refs _ _ _ Hw) _ _ Hfd) as [f Hf].
  destruct (ok_count _ _ _ (fo_refs _ _ _ Hw) _ _ Hf) as [Hc Hh]. apply fd_count_pos in Hfd.
  pose proof (proj1 (ok_extra _ _ _ (fo_refs _ _ _ Hw) s)).
  exists f. split; [done|]. split; [apply Hh|]; lia.
Qed.

(** What closing a descriptor does to the streams. *)
Lemma close_streams extra allowed (w w' : World) fd b :
  fds_ok extra allowed w → CloseLocked allowed fd w = Done (b, w') →
  match stream_at w fd with
  | None => w' = w
  | Some s => ∃ f, objects w.2 !! s = Some f ∧ 0 < file_ref_count_ f ∧ w'.2 = released w.2 s f
  end.
Proof.
  intros Hw. unfold CloseLocked. rewrite (St_bind_run _ _ _ _ _ (get_stream_ok extra allowed w fd Hw)).
  destruct (stream_at w fd) as [x|] eqn:Ex; [|by intros [= _ <-]].
  assert (streams_ w.1 !! fd = Some (Some x)) as Hfd.
  { unfold stream_at in Ex. by destruct (streams_ w.1 !! fd) as [[y|]|]; simplify_eq/=. }
  destruct (table_stream_counted extra allowed w fd x Hw Hfd) as (f & Hf & Hh & Hp).
  pose proof (release_file_ref_spec w.2 x f Hf Hh Hp) as Hrel.
  unfold RemoveFileStream, get, on_table, on_streams, modify, mbind, St_bind. rewrite Hfd. cbn [fst snd].
  rewrite Hrel. intros [= _ <-]. cbn [snd]. exists f. split; [done|]. split; [done|].
  unfold released, release_calls. destruct (file_ref_count_ f =? 1); by rewrite ?app_nil_r.
Qed.

(** Closing a descriptor destroys no object. *)
Lemma close_keeps_objects extra allowed (w w' : World) fd b s :
  fds_ok extra allowed w → CloseLocked allowed fd w = Done (b, w') →
  is_Some (objects w.2 !! s) → is_Some (objects w'.2 !! s).
Proof.
  intros Hw Hc Hs. pose proof (close_streams _ _ _ _ _ _ Hw Hc) as H.
  destruct (stream_at w fd) as [x|]; [|by subst]. destruct H as (f & _ & _ & ->).
  cbn [released objects]. rewrite lookup_insert. case_decide; eauto.
Qed.

(** [dup2]-like step: [newfd] is closed if it is open, and made to stand for [s]. *)
Lemma dup_into extra allowed w fd newfd s :
  fds_ok extra allowed w → stream_at w fd = Some s → in_range w.1 newfd → fd ≠ newfd →
  ∃ w', (CloseLocked allowed newfd;; AddFileStream newfd (Some s);; mret (Ok newfd)) w =
          Done (Ok newfd, w') ∧
    fds_ok extra allowed w' ∧ streams_ w'.1 = <[newfd := Some s]> (streams_ w.1).
Proof.
  intros Hw Hs Hn Hne.
  destruct (close_locked_run extra allowed w newfd Hw) as (w1 & H1 & Hw1 & Hr1 & Hm1).
  assert (streams_ w1.1 !! fd = Some (Some s)) as Hfd.
  { rewrite Hm1. unfold stream_at in Hs. destruct (streams_ w.1 !! fd) as [v|] eqn:E; [|done].
    simpl in Hs. subst v. destruct (stream_at w newfd); [by rewrite lookup_delete_ne|done]. }
  destruct (add_run extra allowed w1 newfd s) as (w2 & H2 & Hw2 & _ & Hm2); try done.
  - by apply Hr1.
  - rewrite Hm1. unfold stream_at. destruct (streams_ w.1 !! newfd) as [[x|]|] eqn:E; simpl;
      rewrite ?lookup_delete_eq; auto.
  - eapply (table_stream_open extra w1 fd); [apply Hw1|done].
  - run_with H1. run_with H2. exists w2. split; [done|]. split; [done|]. rewrite Hm2, Hm1.
    destruct (stream_at w newfd); [by rewrite insert_delete_eq|done].
Qed.

(** [DupLocked] with a new number. *)
Lemma dup_new_run extra allowed w fd s :
  fds_ok extra allowed w → streams_ w.1 !! fd = Some (Some s) →
  ∃ r w', DupLocked allowed fd (-1) w = Done (r, w') ∧ fds_ok extra allowed w' ∧
    match r with
    | Ok n => first_unused w.1 n ∧ n ≠ -1 ∧ streams_ w'.1 = <[n := Some s]> (streams_ w.1)
    | Err e => e = EMFILE ∧ first_unused w.1 (-1) ∧ streams_ w'.1 = streams_ w.1
    end.
Proof.
  intros Hw Hfd. pose proof (get_stream_ok extra allowed w fd Hw) as Hget.
  assert (stream_at w fd = Some s) as Hs by (unfold stream_at; by rewrite Hfd). rewrite Hs in Hget.
  unfold DupLocked. rewrite !(St_bind_run _ _ _ _ _ Hget). cbn [Z.ltb Z.compare].
  destruct (first_unused_run extra allowed w Hw) as (r & w1 & H1 & Hf & Hw1 & Hr1 & Hm1).
  unfold GetFirstUnusedDescriptorLocked. run_with H1.
  destruct (Z.eqb_spec r (-1)) as [->|Hr].
  - exists (Err EMFILE), w1. done.
  - destruct Hf as [[? _]|(Hin & Hnone & Hlow)]; [done|].
    pose proof (table_range_nonneg extra allowed w r Hw Hin).
    rewrite (proj2 (Z.ltb_ge r 0)) by lia. assert (fd ≠ r) by congruence.
    destruct (Z.eqb_spec fd r); [done|].
    destruct (dup_into extra allowed w1 fd r s) as (w2 & H2 & Hw2 & Hm2); try done.
    + unfold stream_at. by rewrite Hm1, lookup_insert_ne, Hfd by done.
    + by apply Hr1.
    + exists (Ok r), w2. split; [done|]. split; [done|]. split; [by right|]. split; [done|].
      by rewrite Hm2, Hm1, insert_insert_eq.
Qed.

(** Its effect on the streams: one more reference. *)
Lemma dup_new_streams extra allowed (w w' : World) fd r :
  fds_ok extra allowed w → DupLocked allowed fd (-1) w = Done (r, w') →
  match r with
  | Err _ => w'.2 = w.2
  | Ok _ => ∃ s f, stream_at w fd = Some s ∧ objects w.2 !! s = Some f ∧ w'.2 = with_ref w.2 s f
  end.
Proof.
  intros Hw. unfold DupLocked. rewrite (St_bind_run _ _ _ _ _ (get_stream_ok extra allowed w fd Hw)).
  destruct (stream_at w fd) as [s|] eqn:Hs; [|by intros [= <- <-]]. cbn [Z.ltb Z.compare].
  destruct (first_unused_run extra allowed w Hw) as (n & w1 & H1 & Hf & Hw1 & Hr1 & Hm1).
  pose proof (first_unused_streams w w1 n H1) as Hst.
  unfold GetFirstUnusedDescriptorLocked. rewrite (St_bind_run _ _ _ _ _ H1).
  destruct (Z.ltb_spec n 0) as [|Hn]; [by intros [= <- <-]|].
  rewrite (proj2 (Z.eqb_neq n (-1))) in Hm1 by lia.
  destruct Hf as [[? _]|(_ & Hnone & _)]; [lia|].
  destruct (Z.eqb_spec fd n) as [->|Hne]; [unfold stream_at in Hs; by rewrite Hnone in Hs|].
  destruct (CloseLocked allowed n w1) as [[b w2]| |] eqn:Hc; unfold mbind at 1, St_bind at 1; rewrite Hc; [|done..].
  pose proof (close_streams _ _ _ _ _ _ Hw1 Hc) as H2. unfold stream_at in H2. rewrite Hm1, lookup_insert_eq in H2.
  cbn in H2. subst w2. unfold mbind at 1, St_bind at 1.
  destruct (AddFileStream n (Some s) w1) as [[[] w3]| |] eqn:Ha; [|done..]. intros [= <- <-].
  destruct (add_file_stream_run w1 w3 n s Ha) as (f & Hf & ->). rewrite Hst in Hf |- *. by exists s, f.
Qed.

(** [AddFileStreamLocked] takes the lowest free number, if there is one. *)
Lemma add_locked_run extra allowed w s :
  fds_ok extra allowed w → open_ok w.2 s →
  ∃ r w', AddFileStreamLocked (λ _, true) s w = Done (r, w') ∧ first_unused w.1 r ∧
    fds_ok extra allowed w' ∧ (∀ x, in_range w'.1 x ↔ in_range w.1 x) ∧
    streams_ w'.1 = (if r =? -1 then streams_ w.1 else <[r := Some s]> (streams_ w.1)) ∧
    (r = -1 → w'.2 = w.2).
Proof.
  intros Hw Ho. unfold AddFileStreamLocked. rewrite (St_bind_run (check true) _ w tt w eq_refl).
  destruct (first_unused_run extra allowed w Hw) as (r & w1 & H1 & Hf & Hw1 & Hr1 & Hm1).
  pose proof (first_unused_streams w w1 r H1) as Hst.
  unfold GetFirstUnusedDescriptorLocked. run_with H1.
  destruct (Z.eqb_spec r (-1)) as [->|Hr].
  - exists (-1), w1. done.
  - destruct Hf as [[? _]|(Hin & Hnone & Hlow)]; [done|].
    pose proof (table_range_nonneg extra allowed w r Hw Hin). rewrite (proj2 (Z.leb_le 0 r)) by lia.
    destruct (add_run extra allowed w1 r s) as (w2 & H2 & Hw2 & Hr2 & Hm2); [done|by apply Hr1| | |].
    + rewrite Hm1, lookup_insert_eq. by right.
    + by rewrite Hst.
    + run_with H2. exists r, w2. rewrite (proj2 (Z.eqb_neq r (-1))) by done. split; [done|].
      split; [by right|]. split; [done|]. split; [intros x; by rewrite Hr2|].
      split; [by rewrite Hm2, Hm1, insert_insert_eq|done].
Qed.

Lemma add_locked_streams (w w' : World) s r :
  AddFileStreamLocked (λ _, true) s w = Done (r, w') →
  if 0 <=? r then ∃ f, objects w.2 !! s = Some f ∧ w'.2 = with_ref w.2 s f else w'.2 = w.2.
Proof.
  unfold AddFileStreamLocked. rewrite (St_bind_run (check true) _ w tt w eq_refl).
  unfold GetFirstUnusedDescriptorLocked, mbind, St_bind.
  destruct (GetFirstUnusedDescriptor w) as [[n w1]| |] eqn:H1; [|done..].
  apply first_unused_streams in H1. destruct (0 <=? n) eqn:Hn.
  - destruct (AddFileStream n (Some s) w1) as [[[] w2]| |] eqn:H2; [|done..]. intros [= <- <-]. rewrite Hn.
    apply add_file_stream_run in H2. by rewrite H1 in H2.
  - intros [= <- <-]. by rewrite Hn.
Qed.

Lemma first_unused_nonneg extra allowed (w : World) r :
  fds_ok extra allowed w → first_unused w.1 r → r ≠ -1 → 0 <= r.
Proof.
  intros Hw [[? _]|(Hin & _)]; [done|]. by intros _; eapply table_range_nonneg.
Qed.

Module DescriptorProperties.
(** C23.  [close], [dup] and [dup2] on a well formed table, with every reference
    count exact before and after.  A descriptor without a stream is EBADF
    everywhere and changes nothing.  On an open descriptor, [close] frees the
    number, so that a second [close] is EBADF; [dup] makes the lowest free
    number stand for the same stream, or is EMFILE when every number of the range
    is taken; [dup2] makes [newfd], closed first when it was open, stand for the
    same stream and gives [newfd]; on itself it does nothing. *)
Theorem dup_and_close extra allowed w fd newfd :
  fds_ok extra allowed w → in_range w.1 newfd →
  match stream_at w fd with
  | None =>
      close allowed fd w = Done (Err EBADF, w) ∧ dup allowed fd w = Done (Err EBADF, w) ∧
      dup2 allowed fd newfd w = Done (Err EBADF, w)
  | Some s =>
      (∃ w', close allowed fd w = Done (Ok 0, w') ∧ fds_ok extra allowed w' ∧
         streams_ w'.1 = delete fd (streams_ w.1) ∧ close allowed fd w' = Done (Err EBADF, w')) ∧
      (∃ r w', dup allowed fd w = Done (r, w') ∧ fds_ok extra allowed w' ∧
         match r with
         | Ok n => first_unused w.1 n ∧ n ≠ -1 ∧ streams_ w'.1 = <[n := Some s]> (streams_ w.1)
         | Err e => e = EMFILE ∧ first_unused w.1 (-1) ∧ streams_ w'.1 = streams_ w.1
         end) ∧
      (∃ w', dup2 allowed fd newfd w = Done (Ok newfd, w') ∧ fds_ok extra allowed w' ∧
         streams_ w'.1 = <[newfd := Some s]> (streams_ w.1)) ∧
      (0 <= fd → dup2 allowed fd fd w = Done (Ok fd, w))
  end.
Proof.
  intros Hw Hn. pose proof (get_stream_ok extra allowed w fd Hw) as Hget.
  unfold close, dup, dup2, DupLocked.
  destruct (stream_at w fd) as [s|] eqn:Hs.
  2: { unfold CloseLocked. split_and!; rewrite ?(St_bind_run _ _ _ _ _ Hget); try done.
       unfold mbind, St_bind. by rewrite Hget. }
  pose proof (table_range_nonneg extra allowed w newfd Hw Hn) as Hn0.
  assert (streams_ w.1 !! fd = Some (Some s)) as Hfd.
  { unfold stream_at in Hs. by destruct (streams_ w.1 !! fd) as [[x|]|]; simplify_eq/=. }
  split; [|split; [|split]].
  - destruct (close_locked_run extra allowed w fd Hw) as (w1 & H1 & Hw1 & Hr1 & Hm1).
    rewrite Hs in H1, Hm1. exists w1. run_with H1. rewrite bool_decide_true by done.
    split; [done|]. split; [done|]. split; [done|].
    assert (stream_at w1 fd = None) as Hnone by (unfold stream_at; by rewrite Hm1, lookup_delete_eq).
    destruct (close_locked_run extra allowed w1 fd Hw1) as (w2 & H2 & _).
    revert H2. unfold CloseLocked. pose proof (get_stream_ok extra allowed w1 fd Hw1) as Hg1.
    rewrite Hnone in Hg1. intros _. unfold mbind, St_bind. by rewrite Hg1.
  - by apply (dup_new_run extra allowed w fd s).
  - rewrite !(St_bind_run _ _ _ _ _ Hget). rewrite (proj2 (Z.ltb_ge newfd 0)) by lia.
    rewrite (St_bind_run (mret newfd) _ w newfd w eq_refl). rewrite (proj2 (Z.ltb_ge newfd 0)) by lia.
    destruct (Z.eqb_spec fd newfd) as [->|Hne].
    + exists w. by rewrite insert_id.
    + by apply (dup_into extra allowed w fd newfd s).
  - intros H0. rewrite !(St_bind_run _ _ _ _ _ Hget). rewrite (proj2 (Z.ltb_ge fd 0)) by lia.
    rewrite (St_bind_run (mret fd) _ w fd w eq_refl). rewrite (proj2 (Z.ltb_ge fd 0)) by lia.
    by rewrite Z.eqb_refl.
Qed.

Lemma witness_fds_ok : fds_ok no_extra (λ _, true) witness_world.
Proof.
  destruct (reachable_ok 0 3 witness_world ltac:(lia) witness_reachable) as [H1 H2]. by split.
Qed.

Lemma dup_and_close_witness :
  ∃ w', dup2 (λ _, true) 0 3 witness_world = Done (Ok 3, w') ∧
    streams_ w'.1 !! 3 = streams_ witness_world.1 !! 0.
Proof.
  pose proof (dup_and_close no_extra (λ _, true) witness_world 0 3 witness_fds_ok) as H.
  destruct H as (_ & _ & (w' & H1 & _ & H2) & _); [split; vm_compute; discriminate|].
  exists w'. split; [exact H1|]. rewrite H2. reflexivity.
Defined.
End DescriptorProperties.

(** ** Waiting *)

(** The platform keeps the table well formed while it waits. *)
Abbreviation fds_platform extra allowed clock :=
  (platform_ok (λ w, fds_ok extra allowed w.1) (λ w, clock w.2)).

Section Waiting.
Context {E : Type} (extra : sid → Z) (allowed : sid → bool) (clock : E → Z).
Context (Now : St (Sys E) Z) (Wait : St (Sys E) unit) (TimedWait : Z → St (Sys E) unit).

Context (Hpl : fds_platform extra allowed clock Now TimedWait).
Context (ready : St (Sys E) bool) (is_ready : Sys E → bool).
Context (Hready : ∀ w, fds_ok extra allowed w.1 → ready w = Done (is_ready w, w)).

(** The loop ends: something is ready, or the time is up. *)
Lemma wait_loop_ends limit w :
  limit ≠ 0 → fds_ok extra allowed w.1 →
  ∃ fuel w', wait_loop Now Wait TimedWait fuel ready limit w = Done (tt, w') ∧
    fds_ok extra allowed w'.1 ∧ (is_ready w' = true ∨ limit <= clock w'.2) ∧
    (is_ready w = true → w' = w).
Proof.
  intros Hl. remember (Z.to_nat (limit - clock w.2)) as n eqn:Hn.
  revert w Hn. induction (lt_wf n) as [n _ IH]. intros w -> Hw.
  destruct (is_ready w) eqn:Er.
  { exists 1%nat, w. cbn [wait_loop]. run_with (Hready w Hw). rewrite Er. auto. }
  destruct (wait_until_run _ _ Now Wait TimedWait Hpl limit w Hl Hw) as (w1 & Hrun & Hw1 & Hc).
  case_bool_decide as Hd.
  - exists 1%nat, w1. cbn [wait_loop]. run_with (Hready w Hw). rewrite Er. run_with Hrun.
    split; [done|]. split; [done|]. split; [by right|done].
  - destruct (decide (limit <= clock w.2)); [subst w1; done|].
    destruct (IH (Z.to_nat (limit - clock w1.2))) with (w := w1) as (fuel & w2 & Hrun2 & Hw2 & He & _);
      [lia|done|done|].
    exists (S fuel), w2. cbn [wait_loop]. run_with (Hready w Hw). rewrite Er. run_with Hrun.
    split; [done|]. split; [done|]. split; [done|]. done.
Qed.

(** Without a limit, the loop waits for the next wake-up until something is ready. *)
Lemma wait_loop_unlimited n w :
  fds_ok extra allowed w.1 →
  wait_loop Now Wait TimedWait (S n) ready 0 w =
  if is_ready w then Done (tt, w)
  else (Wait;; wait_loop Now Wait TimedWait n ready 0) w.
Proof.
  intros Hw. cbn [wait_loop]. run_with (Hready w Hw). destruct (is_ready w); [done|].
  unfold WaitUntil, WaitUntilInternal. cbn [Z.eqb]. unfold mbind, St_bind, mret, St_ret.
  by destruct (Wait w) as [[[] w']| |].
Qed.
End Waiting.

Lemma on_fds_get_stream {E} extra allowed (w : Sys E) fd :
  fds_ok extra allowed w.1 → on_fds (GetStream allowed fd) w = Done (stream_at w.1 fd, w).
Proof.
  intros Hw. unfold on_fds. rewrite (get_stream_ok extra allowed w.1 fd Hw). by destruct w.
Qed.

Section PollProofs.
Context {E : Type} (extra : sid → Z) (allowed : sid → bool).
Context (GetPollEvents : sid → E → Z).

(** What [poll] reports of a descriptor. *)
Definition poll_events (w : Sys E) (p : pollfd) : Z :=
  Z.land (match stream_at w.1 (pfd_fd p) with Some s => GetPollEvents s w.2 | None => POLLNVAL end)
         (Z.lor (pfd_events p) (Z.lor POLLHUP (Z.lor POLLERR POLLNVAL))).

Definition poll_count (w : Sys E) (fds : list pollfd) : Z :=
  Z.of_nat (List.length (filter (λ p, poll_events w p ≠ 0) fds)).

Definition poll_report (w : Sys E) (p : pollfd) : pollfd :=
  {| pfd_fd := pfd_fd p; pfd_events := pfd_events p; pfd_revents := poll_events w p |}.

Lemma is_poll_ready_run fds apply (w : Sys E) :
  fds_ok extra allowed w.1 →
  IsPollReadyLocked allowed GetPollEvents fds apply w =
  Done ((poll_count w fds, if apply then map (poll_report w) fds else fds), w).
Proof.
  intros Hw. induction fds as [|p fds IH]; [by destruct apply|].
  cbn [IsPollReadyLocked]. run_with (on_fds_get_stream extra allowed w (pfd_fd p) Hw).
  rewrite (St_bind_run (gets snd) _ w w.2 w eq_refl). run_with IH.
  unfold mret, St_ret. cbn [fst snd]. unfold poll_count. rewrite filter_cons.
  change (Z.land _ _) with (poll_events w p).
  destruct (Z.eqb_spec (poll_events w p) 0) as [E0|E0]; cbn [negb].
  - rewrite decide_False by (intros H; by apply H). by destruct apply.
  - rewrite decide_True by done. cbn [List.length]. rewrite Nat2Z.inj_succ. by destruct apply.
Qed.

End PollProofs.

Section SelectProofs.
Context {E : Type} (extra : sid → Z) (allowed : sid → bool).
Context (IsSelectReady : SelectReadyEvent → sid → E → bool).

(** A descriptor that [select] counts, and one that it takes out of the set. *)
Definition counted (w : Sys E) (event : SelectReadyEvent) (fd : Z) : bool :=
  match stream_at w.1 fd with Some s => IsSelectReady event s w.2 | None => false end.

Definition dropped (w : Sys E) (event : SelectReadyEvent) (fd : Z) : bool :=
  match stream_at w.1 fd with Some s => negb (IsSelectReady event s w.2) | None => false end.

Definition looked_at (i n : Z) (fd : Z) : Prop := i <= fd < i + n.

Definition ready_set (w : Sys E) event (i n : Z) (fds : gset Z) : gset Z :=
  filter (λ fd, looked_at i n fd ∧ counted w event fd = true) fds.

Definition left_set (w : Sys E) event (i n : Z) (fds : gset Z) : gset Z :=
  filter (λ fd, ¬ (looked_at i n fd ∧ dropped w event fd = true)) fds.

Lemma ready_set_step w event i (n : Z) fds :
  0 <= n →
  ready_set w event i (n + 1) fds =
  (if bool_decide (i ∈ fds) && counted w event i then {[i]} else ∅) ∪ ready_set w event (i + 1) n fds.
Proof.
  intros Hn. unfold ready_set, looked_at. apply set_eq. intros x.
  rewrite elem_of_union, !elem_of_filter.
  destruct (decide (x = i)) as [->|Hx].
  - case_bool_decide; destruct (counted w event i); cbn [andb]; set_solver by lia.
  - destruct (bool_decide (i ∈ fds) && counted w event i); set_solver by lia.
Qed.

Lemma ready_set_minus w event i j n fds :
  j < i → ready_set w event i n (fds ∖ {[j]}) = ready_set w event i n fds.
Proof. intros Hj. unfold ready_set, looked_at. set_solver by lia. Qed.

Lemma ready_set_fresh w event i n fds : i ∉ ready_set w event (i + 1) n fds.
Proof. unfold ready_set, looked_at. rewrite elem_of_filter. lia. Qed.

Lemma left_set_step w event i n fds :
  0 <= n →
  left_set w event i (n + 1) fds =
  left_set w event (i + 1) n (if dropped w event i then fds ∖ {[i]} else fds).
Proof.
  intros Hn. unfold left_set, looked_at. apply set_eq. intros x. rewrite !elem_of_filter.
  destruct (decide (x = i)) as [->|Hx].
  - destruct (dropped w event i) eqn:Ed; [set_solver by lia|]. set_solver by lia.
  - destruct (dropped w event i); set_solver by lia.
Qed.

Lemma left_set_not_in w event i n fds :
  i ∉ fds → 0 <= n → left_set w event i (n + 1) fds = left_set w event (i + 1) n fds.
Proof.
  intros Hi Hn. rewrite left_set_step by done. destruct (dropped w event i); [|done].
  f_equal. set_solver.
Qed.

Lemma select_ready_run n i event fds nset (w : Sys E) :
  fds_ok extra allowed w.1 →
  select_ready allowed IsSelectReady n i event true fds nset w =
  Done ((nset + Z.of_nat (size (ready_set w event i (Z.of_nat n) fds)),
         left_set w event i (Z.of_nat n) fds), w).
Proof.
  intros Hw. revert i fds nset. induction n as [|n IH]; intros i fds nset; cbn [select_ready].
  { assert (ready_set w event i (Z.of_nat 0) fds = ∅) as -> by (unfold ready_set, looked_at; set_solver by lia).
    assert (left_set w event i (Z.of_nat 0) fds = fds) as -> by (unfold left_set, looked_at; set_solver by lia).
    rewrite size_empty. unfold mret, St_ret. by rewrite Z.add_0_r. }
  rewrite Nat2Z.inj_succ, <-Z.add_1_r, ready_set_step by lia.
  case_bool_decide as Hi; cbn [negb andb].
  2: { rewrite IH, left_set_not_in by (done || lia). by rewrite union_empty_l_L. }
  rewrite left_set_step by lia. unfold counted, dropped.
  run_with (on_fds_get_stream extra allowed w i Hw).
  destruct (stream_at w.1 i) as [s|] eqn:Es; cbn [negb]; [|by rewrite IH, union_empty_l_L].
  rewrite (St_bind_run (gets snd) _ w w.2 w eq_refl).
  destruct (IsSelectReady event s w.2); cbn [negb]; rewrite IH.
  - rewrite size_union, size_singleton by (pose proof (ready_set_fresh w event i (Z.of_nat n) fds); set_solver).
    do 3 f_equal. lia.
  - by rewrite union_empty_l_L, ready_set_minus by lia.
Qed.

Lemma select_probe_run n i event fds (w : Sys E) :
  fds_ok extra allowed w.1 →
  ∃ k, select_ready allowed IsSelectReady n i event false fds 0 w = Done ((k, fds), w) ∧
    (k =? 0) = bool_decide (ready_set w event i (Z.of_nat n) fds = ∅).
Proof.
  intros Hw. revert i. induction n as [|n IH]; intros i; cbn [select_ready].
  { exists 0. split; [done|]. rewrite bool_decide_true; [done|].
    unfold ready_set, looked_at. set_solver by lia. }
  rewrite Nat2Z.inj_succ, <-Z.add_1_r, ready_set_step by lia.
  destruct (IH (i + 1)) as (k & Hk & Hz).
  destruct (bool_decide (i ∈ fds)); cbn [negb andb].
  2: { exists k. by rewrite union_empty_l_L. }
  unfold counted. run_with (on_fds_get_stream extra allowed w i Hw).
  destruct (stream_at w.1 i) as [s|] eqn:Es; cbn [negb]; [|exists k; by rewrite union_empty_l_L].
  rewrite (St_bind_run (gets snd) _ w w.2 w eq_refl).
  destruct (IsSelectReady event s w.2); cbn [negb].
  - exists 1. split; [done|]. rewrite bool_decide_false; [done|]. set_solver.
  - exists k. by rewrite union_empty_l_L.
Qed.

(** A whole call on one set, NULL being the set that asks nothing. *)
Definition set_ready (w : Sys E) (nfds : Z) event (fds : option (gset Z)) : gset Z :=
  match fds with Some fds => ready_set w event 0 (Z.of_nat (Z.to_nat nfds)) fds | None => ∅ end.

Definition set_left (w : Sys E) (nfds : Z) event (fds : option (gset Z)) : option (gset Z) :=
  left_set w event 0 (Z.of_nat (Z.to_nat nfds)) <$> fds.

Lemma is_select_ready_run nfds fds event (w : Sys E) :
  fds_ok extra allowed w.1 →
  IsSelectReadyLocked allowed IsSelectReady nfds fds event true w =
  Done ((Z.of_nat (size (set_ready w nfds event fds)), set_left w nfds event fds), w).
Proof.
  intros Hw. unfold IsSelectReadyLocked. destruct fds as [fds|]; [|done].
  by run_with (select_ready_run (Z.to_nat nfds) 0 event fds 0 w Hw).
Qed.

Lemma is_select_ready_probe nfds fds event (w : Sys E) :
  fds_ok extra allowed w.1 →
  ∃ k, IsSelectReadyLocked allowed IsSelectReady nfds fds event false w = Done ((k, fds), w) ∧
    (k =? 0) = bool_decide (set_ready w nfds event fds = ∅).
Proof.
  intros Hw. unfold IsSelectReadyLocked. destruct fds as [fds|].
  - destruct (select_probe_run (Z.to_nat nfds) 0 event fds w Hw) as (k & Hk & Hz).
    run_with Hk. by exists k.
  - exists 0. split; [done|]. by rewrite bool_decide_true.
Qed.
End SelectProofs.

Module PollProperties.
Section Properties.
Context {E : Type} (extra : sid → Z) (allowed : sid → bool) (clock : E → Z).
Context (GetPollEvents : sid → E → Z) (IsSelectReady : SelectReadyEvent → sid → E → bool).
Context (Now : St (Sys E) Z) (Wait : St (Sys E) unit) (TimedWait : Z → St (Sys E) unit).

(** C31.  [poll].  With a timeout that is not negative it ends, and reports the
    descriptors as they are when it ends: the result is the number of those with
    events that were asked for (POLLHUP, POLLERR and POLLNVAL always are; a
    descriptor that is not open is POLLNVAL), and each [revents] is exactly
    those events.  It does not wait when the timeout is 0 or something is ready
    at once, and gives 0 only when the timeout has passed.  With a negative
    timeout it waits, wake-up after wake-up, until something is ready. *)
Theorem poll_reports_ready fds timeout w :
  fds_platform extra allowed clock Now TimedWait → fds_ok extra allowed w.1 →
  if timeout <? 0 then
    ∀ n, poll allowed GetPollEvents Now Wait TimedWait (S n) fds timeout w =
      if poll_count GetPollEvents w fds =? 0 then
        (Wait;; poll allowed GetPollEvents Now Wait TimedWait n fds timeout) w
      else Done ((poll_count GetPollEvents w fds, map (poll_report GetPollEvents w) fds), w)
  else
    ∃ fuel w', poll allowed GetPollEvents Now Wait TimedWait fuel fds timeout w =
        Done ((poll_count GetPollEvents w' fds, map (poll_report GetPollEvents w') fds), w') ∧
      (timeout = 0 ∨ poll_count GetPollEvents w fds ≠ 0 → w' = w) ∧
      (poll_count GetPollEvents w' fds = 0 → clock w.2 + timeout * 1000 <= clock w'.2).
Proof.
  intros Hpl Hw. unfold poll.
  set (ready := r ← IsPollReadyLocked allowed GetPollEvents fds false; mret (negb (r.1 =? 0))).
  set (is_ready := λ w : Sys E, negb (poll_count GetPollEvents w fds =? 0)).
  assert (∀ w, fds_ok extra allowed w.1 → ready w = Done (is_ready w, w)) as Hready.
  { intros w0 Hw0. unfold ready.
    by run_with (is_poll_ready_run extra allowed GetPollEvents fds false w0 Hw0). }
  assert (∀ w, fds_ok extra allowed w.1 →
    IsPollReadyLocked allowed GetPollEvents fds true w =
    Done ((poll_count GetPollEvents w fds, map (poll_report GetPollEvents w) fds), w)) as Hreport
    by (intros w0 Hw0; exact (is_poll_ready_run extra allowed GetPollEvents fds true w0 Hw0)).
  destruct (Z.ltb_spec timeout 0) as [Hneg|Hpos].
  - intros n. destruct (Z.eqb_spec timeout 0); [lia|]. cbn [negb].
    rewrite Z.max_l by lia. unfold TimeOutToTimeLimit. cbn [Z.mul Z.eqb].
    unfold mbind at 1 2, St_bind at 1 2. unfold mret at 1, St_ret at 1.
    change (0 * 1000 =? 0) with true. cbv iota beta.
    rewrite (wait_loop_unlimited extra allowed Now Wait TimedWait ready is_ready Hready n w Hw).
    unfold is_ready. destruct (poll_count GetPollEvents w fds =? 0); cbn [negb]; [|by apply Hreport].
    unfold mbind, St_bind, mret, St_ret. by destruct (Wait w) as [[[] w1]| |].
  - destruct (Z.eqb_spec timeout 0) as [->|Hne]; cbn [negb].
    + exists 0%nat, w. rewrite (St_bind_run (mret tt) _ w tt w eq_refl), Hreport by done.
      split; [done|]. split; [done|]. intros _. lia.
    + rewrite Z.max_r by lia. pose proof (po_clock Hpl w).
      destruct (wait_loop_ends extra allowed clock Now Wait TimedWait Hpl ready is_ready Hready
        (clock w.2 + timeout * 1000) w) as (fuel & w' & Hrun & Hw' & Hend & Hnow); [lia|done|].
      exists fuel, w'. unfold TimeOutToTimeLimit. destruct (Z.eqb_spec (timeout * 1000) 0); [lia|].
      unfold mbind, St_bind. rewrite (po_now Hpl w). unfold mret, St_ret.
      rewrite Hrun. split; [by apply Hreport|]. unfold is_ready in *. split.
      * intros [?|Hc]; [done|]. apply Hnow. by apply negb_true_iff, Z.eqb_neq.
      * intros Hc. destruct Hend as [Hr|?]; [|done]. by rewrite Hc in Hr.
Qed.

(** The descriptors that are ready now, all sets together. *)
Definition select_count (w : Sys E) nfds (r wr ex : option (gset Z)) : Z :=
  Z.of_nat (size (set_ready IsSelectReady w nfds SELECT_READY_READ r)) +
  Z.of_nat (size (set_ready IsSelectReady w nfds SELECT_READY_WRITE wr)) +
  Z.of_nat (size (set_ready IsSelectReady w nfds SELECT_READY_EXCEPTION ex)).

(** The sets that [select] leaves. *)
Definition select_sets (w : Sys E) nfds (r wr ex : option (gset Z)) :=
  (set_left IsSelectReady w nfds SELECT_READY_READ r,
   set_left IsSelectReady w nfds SELECT_READY_WRITE wr,
   set_left IsSelectReady w nfds SELECT_READY_EXCEPTION ex).

Lemma select_count_zero w nfds r wr ex :
  (select_count w nfds r wr ex =? 0) =
  bool_decide (set_ready IsSelectReady w nfds SELECT_READY_READ r = ∅) &&
  (bool_decide (set_ready IsSelectReady w nfds SELECT_READY_WRITE wr = ∅) &&
   bool_decide (set_ready IsSelectReady w nfds SELECT_READY_EXCEPTION ex = ∅)).
Proof.
  unfold select_count. apply eq_true_iff_eq. rewrite Z.eqb_eq, !andb_true_iff, !bool_decide_eq_true.
  rewrite <-!leibniz_equiv_iff, <-!size_empty_iff. lia.
Qed.

Lemma select_report w nfds r wr ex (t : option timeval) :
  fds_ok extra allowed w.1 →
  (nread ← IsSelectReadyLocked allowed IsSelectReady nfds r SELECT_READY_READ true;
   nwrite ← IsSelectReadyLocked allowed IsSelectReady nfds wr SELECT_READY_WRITE true;
   nexcpt ← IsSelectReadyLocked allowed IsSelectReady nfds ex SELECT_READY_EXCEPTION true;
   mret ((if (nread.1 <? 0) || (nwrite.1 <? 0) || (nexcpt.1 <? 0) then Err EBADF
          else Ok (nread.1 + nwrite.1 + nexcpt.1)),
         (nread.2, nwrite.2, nexcpt.2), t)) w =
  Done ((Ok (select_count w nfds r wr ex), select_sets w nfds r wr ex, t), w).
Proof.
  intros Hw.
  run_with (is_select_ready_run extra allowed IsSelectReady nfds r SELECT_READY_READ w Hw).
  run_with (is_select_ready_run extra allowed IsSelectReady nfds wr SELECT_READY_WRITE w Hw).
  run_with (is_select_ready_run extra allowed IsSelectReady nfds ex SELECT_READY_EXCEPTION w Hw).
  cbn [fst snd]. rewrite !(proj2 (Z.ltb_ge (Z.of_nat _) 0)) by lia. done.
Qed.

(** [select] with a timeout.  It ends, and the result is the number of
    descriptors below [nfds] in the sets that are open and ready when it ends;
    exactly the open descriptors below [nfds] that are not ready are taken out
    of the sets.  (A descriptor of a set that is not open stays in the set
    without being counted, and the call never fails.)  A zero timeout, or
    something ready at once, does not wait; 0 means that the timeout has
    passed; and a timeout that is not zero is replaced by the time that is left. *)
Theorem select_reports_ready nfds r wr ex tv w :
  fds_platform extra allowed clock Now TimedWait → fds_ok extra allowed w.1 →
  (tv_sec tv = 0 ∧ tv_usec tv = 0) ∨ 0 < TimeValToTimeDelta tv →
  let limit := clock w.2 + TimeValToTimeDelta tv in
  ∃ fuel w', select allowed IsSelectReady Now Wait TimedWait fuel nfds r wr ex (Some tv) w =
      Done ((Ok (select_count w' nfds r wr ex), select_sets w' nfds r wr ex,
             Some (if TimeValToTimeDelta tv =? 0 then tv
                   else TimeDeltaToTimeVal 32 (Z.max 0 (limit - clock w'.2)))), w') ∧
    (TimeValToTimeDelta tv = 0 ∨ select_count w nfds r wr ex ≠ 0 → w' = w) ∧
    (select_count w' nfds r wr ex = 0 → limit <= clock w'.2).
Proof.
  intros Hpl Hw Htv limit. unfold select. destruct Htv as [[Hs Hu]|Hpos].
  - assert (TimeValToTimeDelta tv = 0) as Hz by (unfold TimeValToTimeDelta; rewrite Hs, Hu; lia).
    exists 0%nat, w. rewrite Hs, Hu, Hz. cbn [Z.eqb andb negb].
    rewrite (St_bind_run (mret (Some tv)) _ w (Some tv) w eq_refl), select_report by done.
    split; [done|]. split; [done|]. intros _. subst limit. lia.
  - assert ((tv_sec tv =? 0) && (tv_usec tv =? 0) = false) as Hpoll.
    { destruct (Z.eqb_spec (tv_sec tv) 0) as [Hs|]; [|done].
      destruct (Z.eqb_spec (tv_usec tv) 0) as [Hu|]; [|done].
      unfold TimeValToTimeDelta in Hpos. rewrite Hs, Hu in Hpos. lia. }
    rewrite Hpoll. cbn [negb].
    set (ready := r0 ← IsSelectReadyLocked allowed IsSelectReady nfds r SELECT_READY_READ false;
           if negb (r0.1 =? 0) then mret true else _).
    set (is_ready := λ w : Sys E, negb (select_count w nfds r wr ex =? 0)).
    assert (∀ w, fds_ok extra allowed w.1 → ready w = Done (is_ready w, w)) as Hready.
    { intros w0 Hw0. unfold ready, is_ready. rewrite select_count_zero.
      destruct (is_select_ready_probe extra allowed IsSelectReady nfds r SELECT_READY_READ w0 Hw0)
        as (k1 & H1 & Z1).
      destruct (is_select_ready_probe extra allowed IsSelectReady nfds wr SELECT_READY_WRITE w0 Hw0)
        as (k2 & H2 & Z2).
      destruct (is_select_ready_probe extra allowed IsSelectReady nfds ex SELECT_READY_EXCEPTION w0 Hw0)
        as (k3 & H3 & Z3).
      run_with H1. cbn [fst]. rewrite <-Z1, <-Z2, <-Z3. destruct (k1 =? 0); cbn [negb andb]; [|done].
      run_with H2. cbn [fst]. destruct (k2 =? 0); cbn [negb andb]; [|done]. by run_with H3. }
    pose proof (po_clock Hpl w).
    destruct (wait_loop_ends extra allowed clock Now Wait TimedWait Hpl ready is_ready Hready limit w)
      as (fuel & w' & Hrun & Hw' & Hend & Hnow); [subst limit; lia|done|].
    exists fuel, w'. unfold TimeOutToTimeLimit.
    destruct (Z.eqb_spec (TimeValToTimeDelta tv) 0) as [|_]; [lia|].
    rewrite (St_bind_run _ _ w (Some (TimeDeltaToTimeVal 32 (Z.max 0 (limit - clock w'.2)))) w').
    2: { rewrite (St_bind_run _ _ w limit w)
           by (unfold mbind, St_bind; by rewrite (po_now Hpl w)).
         run_with Hrun. run_with (po_now Hpl w'). unfold mret, St_ret. do 4 f_equal.
         destruct (Z.leb_spec limit (clock w'.2)); lia. }
    rewrite select_report by done. split; [done|]. unfold is_ready in *. split.
    + intros [?|Hc]; [lia|]. apply Hnow. by apply negb_true_iff, Z.eqb_neq.
    + intros Hc. destruct Hend as [Hr|?]; [|done]. by rewrite Hc in Hr.
Qed.
End Properties.

(** Descriptor 0 becomes readable at time 5000 of a clock that timed waits advance
    by half of the time to the limit. *)
Definition tick_events (_ : sid) (e : positive) : Z := if (5000 <=? Zpos e) then POLLIN else 0.
Definition tick_select (_ : SelectReadyEvent) (_ : sid) (e : positive) : bool := 5000 <=? Zpos e.
Definition tick_now : St (Sys positive) Z := λ w, Done (Zpos w.2, w).
Definition tick_wait : St (Sys positive) unit := λ _, NoFuel.
Definition tick_timed (d : Z) : St (Sys positive) unit := λ w,
  Done (tt, (w.1, (w.2 + Z.to_pos (d / 2 + 1))%positive)).

Lemma tick_platform : fds_platform no_extra (λ _, true) Zpos tick_now tick_timed.
Proof.
  split; [done|done|]. intros d w Hd Hw. eexists. split; [done|]. split; [done|]. simpl.
  lia.
Qed.

Lemma poll_reports_ready_witness :
  ∃ fuel w', poll (λ _, true) tick_events tick_now tick_wait tick_timed fuel
      [{| pfd_fd := 0; pfd_events := POLLIN; pfd_revents := 0 |}] 2 (witness_world, 1%positive) =
      Done ((poll_count tick_events w' [{| pfd_fd := 0; pfd_events := POLLIN; pfd_revents := 0 |}],
             map (poll_report tick_events w') [{| pfd_fd := 0; pfd_events := POLLIN; pfd_revents := 0 |}]), w').
Proof.
  pose proof (poll_reports_ready no_extra (λ _, true) Zpos tick_events tick_now tick_wait tick_timed
    [{| pfd_fd := 0; pfd_events := POLLIN; pfd_revents := 0 |}] 2 (witness_world, 1%positive)
    tick_platform DescriptorProperties.witness_fds_ok) as (fuel & w' & H & _).
  exists fuel, w'. exact H.
Defined.

Lemma select_reports_ready_witness :
  ∃ fuel w' t, select (λ _, true) tick_select tick_now tick_wait tick_timed fuel 4
      (Some {[0; 2]}) None None (Some {| tv_sec := 0; tv_usec := 9000 |}) (witness_world, 1%positive) =
    Done ((Ok (select_count tick_select w' 4 (Some {[0; 2]}) None None),
           select_sets tick_select w' 4 (Some {[0; 2]}) None None, Some t), w').
Proof.
  pose proof (select_reports_ready no_extra (λ _, true) Zpos tick_select tick_now tick_wait tick_timed
    4 (Some {[0; 2]}) None None {| tv_sec := 0; tv_usec := 9000 |} (witness_world, 1%positive)
    tick_platform DescriptorProperties.witness_fds_ok) as (fuel & w' & H & _).
  - right. reflexivity.
  - exists fuel, w'. eexists. exact H.
Defined.
End PollProperties.
