(* ===== verification/OrderedMap.v ===== *)
(** * OrderedMap: [std::map] and [std::multimap] with integer keys

    The list of elements in key order; an iterator is the key it points to
    ([None] is [end()]).  A multimap keeps elements with equal keys in the order
    of their insertion. *)

From S2P Require Import Prelude.

#[local] Open Scope Z_scope.

(** ** An ordered map with integer keys *)

Module OrderedMap.
Section OrderedMap.
Context {V : Type}.
Implicit Types l : list (Z * V).

Fixpoint find (k : Z) l : option V :=
  match l with [] => None | (x, v) :: l => if x =? k then Some v else find k l end.

Fixpoint erase (k : Z) l : list (Z * V) :=
  match l with [] => [] | (x, v) :: l => if x =? k then l else (x, v) :: erase k l end.

(** [insert] does nothing when the key is there. *)
Fixpoint insert (k : Z) (v : V) l : list (Z * V) * bool :=
  match l with
  | [] => ([(k, v)], true)
  | (x, u) :: l' =>
      if k <? x then ((k, v) :: l, true)
      else if x =? k then (l, false)
      else let '(l', b) := insert k v l' in ((x, u) :: l', b)
  end.

(** The iterators: the first key not below [k], after [k], before [k]. *)
Fixpoint lower_bound (k : Z) l : option Z :=
  match l with [] => None | (x, _) :: l => if k <=? x then Some x else lower_bound k l end.

Fixpoint next (k : Z) l : option Z :=
  match l with [] => None | (x, _) :: l => if k <? x then Some x else next k l end.

Fixpoint prev (k : Z) l : option Z :=
  match l with
  | [] => None
  | (x, _) :: l => if x <? k then match prev k l with Some y => Some y | None => Some x end
                   else None
  end.

Definition begin l : option Z := match l with [] => None | (x, _) :: _ => Some x end.

(** [std::distance] from the key [a] to the key [b]. *)
Definition distance (a b : Z) l : nat :=
  List.length (filter (λ kv : Z * V, a <= kv.1 < b) l).

(** Setting the value of a key that is there. *)
Definition update (k : Z) (v : V) l : list (Z * V) :=
  map (λ kv : Z * V, if kv.1 =? k then (kv.1, v) else kv) l.

(** [map[k] = v] *)
Definition assign (k : Z) (v : V) l : list (Z * V) :=
  match insert k v l with
  | (l', true) => l'
  | (_, false) => update k v l
  end.

(** Of a multimap: [insert] goes behind the elements with the same key; the
    elements of [lower_bound(lo)] up to [upper_bound(hi)]; [erase] of the first
    element that is [(k, v)]. *)
Fixpoint multi_insert (k : Z) (v : V) l : list (Z * V) :=
  match l with
  | [] => [(k, v)]
  | (x, u) :: l' => if k <? x then (k, v) :: l else (x, u) :: multi_insert k v l'
  end.

Fixpoint from (lo : Z) l : list (Z * V) :=
  match l with [] => [] | (x, v) :: l' => if lo <=? x then l else from lo l' end.

Fixpoint upto (hi : Z) l : list (Z * V) :=
  match l with [] => [] | (x, v) :: l => if x <=? hi then (x, v) :: upto hi l else [] end.

Definition range (lo hi : Z) l : list (Z * V) := upto hi (from lo l).

Fixpoint multi_erase `{EqDecision V} (k : Z) (v : V) l : option (list (Z * V)) :=
  match l with
  | [] => None
  | kv :: l => if decide (kv = (k, v)) then Some l else (kv ::.) <$> multi_erase k v l
  end.
End OrderedMap.
End OrderedMap.

Module OrderedMapFacts.
Import OrderedMap.
Section Facts.
Context {V : Type}.
Implicit Types p q : list (Z * V).

Definition below (k : Z) p : Prop := Forall (λ kv, kv.1 < k) p.
Definition above (k : Z) p : Prop := Forall (λ kv, k < kv.1) p.

Lemma find_below k p q : below k p → find k (p ++ q) = find k q.
Proof.
  induction 1 as [|[x v] p Hx Hp IH]; simpl in *; [done|].
  by destruct (Z.eqb_spec x k); [lia|].
Qed.

Lemma find_above k p : above k p → find k p = None.
Proof.
  induction 1 as [|[x v] p Hx Hp IH]; simpl in *; [done|].
  by destruct (Z.eqb_spec x k); [lia|].
Qed.

Lemma erase_below k p q : below k p → erase k (p ++ q) = p ++ erase k q.
Proof.
  induction 1 as [|[x v] p Hx Hp IH]; simpl in *; [done|].
  destruct (Z.eqb_spec x k); [lia|]. by rewrite IH.
Qed.

Lemma insert_below k v p q :
  below k p → insert k v (p ++ q) = (p ++ (insert k v q).1, (insert k v q).2).
Proof.
  induction 1 as [|[x u] p Hx Hp IH]; simpl in *; [by destruct (insert k v q)|].
  destruct (Z.ltb_spec k x); [lia|]. destruct (Z.eqb_spec x k); [lia|]. by rewrite IH.
Qed.

Lemma insert_above k v q : above k q → insert k v q = ((k, v) :: q, true).
Proof.
  intros Hq. destruct q as [|[x u] q]; [done|]. inversion Hq; simpl in *.
  by destruct (Z.ltb_spec k x); [|lia].
Qed.

Lemma lower_bound_below k p q : below k p → lower_bound k (p ++ q) = lower_bound k q.
Proof.
  induction 1 as [|[x v] p Hx Hp IH]; simpl in *; [done|].
  by destruct (Z.leb_spec k x); [lia|].
Qed.

Lemma next_upto k p q : Forall (λ kv, kv.1 <= k) p → next k (p ++ q) = next k q.
Proof.
  induction 1 as [|[x v] p Hx Hp IH]; simpl in *; [done|].
  by destruct (Z.ltb_spec k x); [lia|].
Qed.

Lemma below_upto k p : below k p → Forall (λ kv, kv.1 <= k) p.
Proof. intros Hp. eapply Forall_impl; [exact Hp|]. simpl. lia. Qed.

Lemma prev_below k p x v q :
  below k (p ++ [(x, v)]) → Forall (λ kv, k <= kv.1) q →
  prev k (p ++ (x, v) :: q) = Some x.
Proof.
  intros Hp Hq. induction p as [|[y u] p IH]; simpl in *.
  - inversion Hp as [|?? Hx _]; simpl in Hx. destruct (Z.ltb_spec x k); [|lia].
    destruct q as [|[z w] q]; [done|]. inversion Hq; simpl in *.
    by destruct (Z.ltb_spec z k); [lia|].
  - inversion Hp as [|?? Hy Hp']; simpl in Hy. destruct (Z.ltb_spec y k); [|lia].
    by rewrite IH.
Qed.

Lemma prev_none k q : Forall (λ kv, k <= kv.1) q → prev k q = None.
Proof.
  intros Hq. destruct q as [|[x v] q]; [done|]. inversion Hq; simpl in *.
  by destruct (Z.ltb_spec x k); [lia|].
Qed.

Lemma insert_in k v q kv : kv ∈ q → kv ∈ (insert k v q).1.
Proof.
  induction q as [|[x u] q IH]; simpl; [by intros ?%elem_of_nil|]. intros Hin.
  destruct (k <? x); [by right|]. destruct (x =? k); [done|].
  destruct (insert k v q) as [q' b]. simpl in *. rewrite elem_of_cons in *. naive_solver.
Qed.

Lemma insert_new k v q q' : insert k v q = (q', true) → (k, v) ∈ q'.
Proof.
  revert q'. induction q as [|[x u] q IH]; simpl; intros q'; [intros [= <-]; by left|].
  destruct (k <? x); [intros [= <-]; by left|]. destruct (x =? k); [done|].
  destruct (insert k v q) as [q1 b]. intros [= <- ->]. right. by apply IH.
Qed.

Lemma insert_fails k v q q' : insert k v q = (q', false) → q' = q.
Proof.
  revert q'. induction q as [|[x u] q IH]; simpl; intros q'; [done|].
  destruct (k <? x); [done|]. destruct (x =? k); [by intros [= <-]|].
  destruct (insert k v q) as [q1 b]. intros [= <- ->]. f_equal. by apply IH.
Qed.

Lemma erase_insert k v q q' : insert k v q = (q', true) → erase k q' = q.
Proof.
  revert q'. induction q as [|[x u] q IH]; simpl; intros q'.
  { intros [= <-]. simpl. by rewrite Z.eqb_refl. }
  destruct (Z.ltb_spec k x); [intros [= <-]; simpl; by rewrite Z.eqb_refl|].
  destruct (Z.eqb_spec x k); [done|].
  destruct (insert k v q) as [q1 b]. intros [= <- ->]. simpl.
  destruct (Z.eqb_spec x k); [done|]. by rewrite IH.
Qed.

Lemma erase_two a e v w q q1 q2 :
  a < e → insert a v q = (q1, true) → insert e w q1 = (q2, true) → erase e (erase a q2) = q.
Proof.
  intros Hae. revert q1 q2. induction q as [|[x u] q IH]; simpl; intros q1 q2.
  { intros [= <-]. simpl. destruct (Z.ltb_spec e a); [lia|]. destruct (Z.eqb_spec a e); [lia|].
    intros [= <-]. simpl. rewrite Z.eqb_refl. simpl. by rewrite Z.eqb_refl. }
  destruct (Z.ltb_spec a x).
  - intros [= <-] H2. change ((a, v) :: (x, u) :: q) with ([(a, v)] ++ (x, u) :: q) in H2.
    rewrite insert_below in H2 by (repeat constructor; simpl; lia).
    destruct (insert e w ((x, u) :: q)) as [q3 b] eqn:E. cbn [fst snd app] in H2.
    injection H2 as <- ->. cbn [erase]. rewrite Z.eqb_refl. by apply erase_insert in E.
  - destruct (Z.eqb_spec x a); [done|].
    destruct (insert a v q) as [q3 b] eqn:E. intros [= <- ->]. cbn [insert].
    destruct (Z.ltb_spec e x); [lia|]. destruct (Z.eqb_spec x e); [lia|].
    destruct (insert e w q3) as [q4 b] eqn:E2. intros [= <- ->]. cbn [erase].
    destruct (Z.eqb_spec x a); [lia|]. cbn [erase]. destruct (Z.eqb_spec x e); [lia|].
    f_equal. by eapply IH.
Qed.

Lemma distance_two a e k v u q :
  (a, v) ∈ q → (k, u) ∈ q → a < k < e → Nat.eqb (distance a e q) 1 = false.
Proof.
  intros Ha Hk Hake. apply Nat.eqb_neq. unfold distance. intros Hlen.
  assert ((a, v) ∈ filter (λ kv : Z * V, a <= kv.1 < e) q) as Ha'
    by (apply list_elem_of_filter; simpl; split; [lia|done]).
  assert ((k, u) ∈ filter (λ kv : Z * V, a <= kv.1 < e) q) as Hk'
    by (apply list_elem_of_filter; simpl; split; [lia|done]).
  destruct (filter _ q) as [|x [|y l]]; try done.
  apply list_elem_of_singleton in Ha', Hk'. simplify_eq. lia.
Qed.

Lemma update_id k v p : Forall (λ kv, kv.1 ≠ k) p → update k v p = p.
Proof.
  induction 1 as [|[x u] p Hx Hp IH]; [done|]. unfold update in *. simpl in *. rewrite IH.
  by destruct (Z.eqb_spec x k).
Qed.

Lemma update_app k v p q : update k v (p ++ q) = update k v p ++ update k v q.
Proof. apply map_app. Qed.
(** Multimaps. *)
Definition sorted_keys p : Prop := StronglySorted (λ a b, a.1 <= b.1) p.

Lemma multi_insert_perm k v p : multi_insert k v p ≡ₚ (k, v) :: p.
Proof.
  induction p as [|[x u] p IH]; simpl; [done|]. destruct (k <? x); [done|]. rewrite IH. constructor.
Qed.

Lemma multi_insert_sorted k v p : sorted_keys p → sorted_keys (multi_insert k v p).
Proof.
  induction 1 as [|[x u] p Hp IH Hx]; simpl; [by repeat constructor|].
  destruct (Z.ltb_spec k x); constructor; try done.
  - by constructor.
  - constructor; [simpl; lia|]. eapply Forall_impl; [exact Hx|]. simpl. lia.
  - rewrite multi_insert_perm. constructor; [simpl; lia|done].
Qed.

Lemma multi_erase_spec `{EqDecision V} k v p :
  (k, v) ∈ p → ∃ q, multi_erase k v p = Some q ∧ p ≡ₚ (k, v) :: q ∧ (sorted_keys p → sorted_keys q).
Proof.
  induction p as [|kv p IH]; intros Hin; [by apply elem_of_nil in Hin|]. cbn [multi_erase].
  case_decide as E.
  { subst kv. exists p. split; [done|]. split; [done|]. by inversion 1. }
  apply elem_of_cons in Hin as [?|Hin]; [done|]. destruct (IH Hin) as (q & -> & Hq & Hs).
  exists (kv :: q). split; [done|]. split; [rewrite Hq; constructor|].
  inversion 1 as [|?? Hp Hkv]; subst. constructor; [by apply Hs|].
  rewrite Hq in Hkv. by inversion Hkv.
Qed.

Lemma elem_of_range lo hi p k v :
  sorted_keys p → (k, v) ∈ range lo hi p ↔ (k, v) ∈ p ∧ lo <= k <= hi.
Proof.
  unfold range. induction 1 as [|[x u] p Hp IH Hx]; simpl.
  { rewrite elem_of_nil. tauto. }
  rewrite Forall_forall in Hx. rewrite elem_of_cons. destruct (Z.leb_spec lo x); [|rewrite IH; naive_solver lia].
  assert (∀ q, (∀ kv, kv ∈ q → lo <= kv.1) → sorted_keys q →
    (k, v) ∈ upto hi q ↔ (k, v) ∈ q ∧ k <= hi) as Hup.
  { clear. induction q as [|[x u] q IH]; intros Hlo; simpl; [rewrite elem_of_nil; tauto|].
    inversion 1 as [|?? Hq Hx]; subst. rewrite Forall_forall in Hx. destruct (Z.leb_spec x hi).
    - rewrite !elem_of_cons, IH by (try done; intros ??; apply Hlo; by right). naive_solver lia.
    - rewrite elem_of_nil, elem_of_cons. split; [done|]. intros [[[= -> ->]|Hin] ?]; [lia|].
      apply Hx in Hin. simpl in Hin. lia. }
  cbn [upto]. destruct (Z.leb_spec x hi).
  - rewrite elem_of_cons, Hup; [|intros ??%Hx; simpl in *; lia|done].
    split; [|naive_solver]. intros [[= -> ->]|[Hin ?]]; [naive_solver lia|].
    apply Hx in Hin as ?. simpl in *. naive_solver lia.
  - rewrite elem_of_nil. split; [done|]. intros [[[= -> ->]|Hin] ?]; [lia|].
    apply Hx in Hin. simpl in Hin. lia.
Qed.

Lemma range_sublist lo hi p : sublist (range lo hi p) p.
Proof.
  unfold range. trans (from lo p).
  - induction (from lo p) as [|[x v] q IH]; simpl; [done|].
    destruct (x <=? hi); [by constructor|apply sublist_nil_l].
  - induction p as [|[x v] p IH]; simpl; [done|]. destruct (lo <=? x); [done|by constructor].
Qed.
(** Maps whose keys are in order: [find] as a function of the key. *)
Definition strict_keys p : Prop := StronglySorted (λ a b, a.1 < b.1) p.

Lemma find_lower k p : Forall (λ kv, k < kv.1) p → find k p = None.
Proof. apply find_above. Qed.

Lemma find_elem k v p : strict_keys p → find k p = Some v ↔ (k, v) ∈ p.
Proof.
  induction 1 as [|[x u] p Hp IH Hx]; simpl; [by rewrite elem_of_nil|]. rewrite elem_of_cons.
  destruct (Z.eqb_spec x k) as [->|Hne]; [|rewrite IH; naive_solver].
  split; [intros [= ->]; by left|]. intros [[= ->]|Hin]; [done|]. rewrite Forall_forall in Hx.
  apply Hx in Hin. simpl in Hin. lia.
Qed.

Lemma insert_keys k v p j w : (j, w) ∈ (insert k v p).1 → j = k ∨ (j, w) ∈ p.
Proof.
  induction p as [|[x u] p IH]; simpl; [intros [[= -> _]|?]%elem_of_cons; [by left|by right]|].
  destruct (k <? x); [intros [[= -> _]|?]%elem_of_cons; [by left|by right]|].
  destruct (x =? k); [by right|]. destruct (insert k v p) as [p' b]. simpl in *.
  rewrite !elem_of_cons. naive_solver.
Qed.

Lemma insert_spec k v p :
  strict_keys p →
  strict_keys (insert k v p).1 ∧ (insert k v p).2 = bool_decide (find k p = None) ∧
  ∀ j, find j (insert k v p).1 =
       if decide (j = k) then match find k p with Some w => Some w | None => Some v end else find j p.
Proof.
  induction 1 as [|[x u] p Hp IH Hx]; simpl.
  { split; [by repeat constructor|]. split; [done|]. intros j.
    destruct (Z.eqb_spec k j), (decide (j = k)); congruence. }
  destruct (Z.ltb_spec k x).
  { assert (Forall (λ kv, k < kv.1) p) as Hk by (eapply Forall_impl; [exact Hx|]; simpl; lia).
    destruct (Z.eqb_spec x k); [lia|]. rewrite (find_lower k p Hk). simpl.
    split; [repeat constructor; done|]. split; [done|]. intros j.
    destruct (Z.eqb_spec k j), (decide (j = k)); congruence. }
  destruct (Z.eqb_spec x k) as [->|Hne].
  { simpl. split; [by constructor|]. split; [done|]. intros j.
    destruct (Z.eqb_spec k j), (decide (j = k)); congruence. }
  pose proof (insert_keys k v p) as Hkeys.
  destruct IH as (IH1 & IH2 & IH3). destruct (insert k v p) as [p' b]. simpl in *.
  split; [|split; [done|]].
  - constructor; [done|]. rewrite Forall_forall in Hx |- *. intros [j w] [->|Hj]%Hkeys; simpl; [lia|].
    by apply (Hx (j, w)).
  - intros j. rewrite IH3. destruct (Z.eqb_spec x j), (decide (j = k)); congruence.
Qed.

Lemma update_spec k v p :
  strict_keys p →
  strict_keys (update k v p) ∧
  ∀ j, find j (update k v p) =
       if decide (j = k) then match find k p with Some _ => Some v | None => None end else find j p.
Proof.
  induction 1 as [|[x u] p Hp (IH1 & IH2) Hx]; simpl.
  { split; [constructor|]. intros j. by destruct (decide (j = k)). }
  split.
  - constructor; [done|]. apply Forall_forall. intros kv (y & -> & Hy)%list_elem_of_fmap.
    rewrite Forall_forall in Hx. apply Hx in Hy. by destruct (x =? k), (y.1 =? k).
  - intros j. fold (update k v p). destruct (Z.eqb_spec x k); simpl;
      destruct (Z.eqb_spec x j), (decide (j = k)); subst; try congruence; rewrite IH2;
      repeat case_decide; try congruence; done.
Qed.

(** [upper_bound] of a key. *)
Lemma assign_spec k v p :
  strict_keys p → strict_keys (assign k v p) ∧
  ∀ j, find j (assign k v p) = if decide (j = k) then Some v else find j p.
Proof.
  intros Hl. unfold assign. destruct (insert_spec k v p Hl) as (H1 & H2 & H3).
  destruct (insert k v p) as [l' b]. simpl in *. destruct b.
  - split; [done|]. intros j. rewrite H3. case_decide; [|done].
    symmetry in H2. apply bool_decide_eq_true in H2. by rewrite H2.
  - destruct (update_spec k v p Hl) as [H4 H5]. split; [done|]. intros j. rewrite H5. case_decide; [|done].
    symmetry in H2. apply bool_decide_eq_false in H2. by destruct (find k p).
Qed.

Lemma next_spec k p :
  strict_keys p →
  match next k p with
  | Some x => k < x ∧ is_Some (find x p) ∧ ∀ y, is_Some (find y p) → k < y → x <= y
  | None => ∀ y, is_Some (find y p) → y <= k
  end.
Proof.
  induction 1 as [|[x u] p Hp IH Hx]; simpl; [by intros y []|].
  assert (∀ y, is_Some (find y p) → x < y) as Hlow.
  { intros y [v Hv%find_elem]; [|done]. rewrite Forall_forall in Hx. by apply Hx in Hv. }
  destruct (Z.ltb_spec k x).
  - split; [done|]. split; [by rewrite Z.eqb_refl; eexists|]. intros y Hy _.
    destruct (Z.eqb_spec x y); [lia|]. apply Hlow in Hy. lia.
  - destruct (next k p) as [z|].
    + destruct IH as (I1 & I2 & I3). split; [done|]. apply Hlow in I2 as I4. split.
      * by destruct (Z.eqb_spec x z).
      * intros y Hy Hk. destruct (Z.eqb_spec x y); [lia|by apply I3].
    + intros y Hy. destruct (Z.eqb_spec x y); [lia|by apply IH].
Qed.

Lemma strict_keys_above q x v p : strict_keys (q ++ (x, v) :: p) → above x p.
Proof.
  intros (_ & _ & Hs)%StronglySorted_app. by inversion Hs.
Qed.

Lemma strict_nodup p : strict_keys p → NoDup p.*1.
Proof.
  induction 1 as [|[x u] p Hp IH Hx]; simpl; constructor; [|done].
  intros ([y w] & Hy & Hin)%list_elem_of_fmap. simpl in Hy. subst y. rewrite Forall_forall in Hx.
  apply Hx in Hin. simpl in Hin. lia.
Qed.
End Facts.
End OrderedMapFacts.
