(* ===== verification/BacktraceMap.v ===== *)
(** * BacktraceMap: [MemoryMappingBacktraceMap] of [memory_state.{h,cc}] (under src/common/)

    Who mapped the memory: an ordered map from the start of a region to its end and the
    backtrace of the [mmap] that made it.  The backtraces themselves, and the names of
    their addresses, come from common/backtrace.h: parameters. *)

From S2P Require Import Prelude Util OrderedMap.
Import OrderedMapFacts.

#[local] Open Scope Z_scope.

Definition kBacktraceCapacity : nat := 100.

(** The first [backtrace_size] elements of the array; [end] is one behind the region. *)
Record MemoryMappingBacktrace : Type := mkTrace { end_ : Z; backtrace : list Z }.

Definition Map : Type := list (Z * MemoryMappingBacktrace).

Definition with_end (e : Z) (t : MemoryMappingBacktrace) : MemoryMappingBacktrace := mkTrace e (backtrace t).

Section Map.
(** What [end()->first] reads: no element is there. *)
Context (end_first : Map → Z).

Fixpoint last_key (m : Map) : option Z :=
  match m with [] => None | [(k, _)] => Some k | _ :: m => last_key m end.

(** [--i] *)
Definition before (i : option Z) (m : Map) : option Z :=
  match i with Some k => OrderedMap.prev k m | None => last_key m end.

Definition first_of (i : option Z) (m : Map) : Z := match i with Some k => k | None => end_first m end.

(** Where the loop of [Unmap] begins. *)
Definition start_of (addri : Z) (m : Map) : option Z :=
  let start := OrderedMap.lower_bound addri m in
  if negb (bool_decide (start = OrderedMap.begin m)) && negb (first_of start m =? addri) then before start m
  else start.

(** The loop: every iteration goes one element further. *)
Fixpoint unmap_loop (fuel : nat) (addri right_start : Z) (stop i : option Z) (m : Map) : outcome Map :=
  match fuel with
  | O => NoFuel
  | Datatypes.S fuel =>
      if bool_decide (i = stop) then mret m
      else
        match i with
        | None => Abort
        | Some left_start =>
            match OrderedMap.find left_start m with
            | None => Abort
            | Some trace =>
                let next := OrderedMap.next left_start m in
                if (right_start <=? left_start) || (end_ trace <=? addri)
                then unmap_loop fuel addri right_start stop next m
                else
                  let right_end := end_ trace in
                  let m := OrderedMap.erase left_start m in
                  let m := if left_start <? addri then OrderedMap.assign left_start (with_end addri trace) m else m in
                  let m := if right_start <? right_end then OrderedMap.assign right_start (with_end right_end trace) m else m in
                  unmap_loop fuel addri right_start stop next m
            end
        end
  end.

Definition Unmap (addri length : Z) (m : Map) : outcome Map :=
  let right_start := wrap32 (addri + length) in
  unmap_loop (S (List.length m)) addri right_start (OrderedMap.next right_start m) (start_of addri m) m.

(** [frames]: what the backtracer finds, of which it stores as many as there is room for. *)
Definition MapCurrentStackFrame (frames : list Z) (addri length : Z) (m : Map) : outcome Map :=
  Unmap addri length m ≫= λ m,
  mret (OrderedMap.assign addri (mkTrace (wrap32 (addri + length)) (take kBacktraceCapacity frames)) m).

Definition GetUninterestingLayers : nat := 3.

(** The backtrace that [ConvertBacktraceToJSON] prints. *)
Definition backtrace_of (addri : Z) (m : Map) : option (list Z) :=
  let i := OrderedMap.next addri m in
  if bool_decide (i = OrderedMap.begin m) then None
  else
    match before i m with
    | Some k =>
        match OrderedMap.find k m with
        | Some t => if (addri <? k) || (end_ t <=? addri) then None else Some (backtrace t)
        | None => None
        end
    | None => None
    end.

Definition quote : str := [ascii_of_nat 34].

(** Quoted names with commas between them; [name] is the demangled name of an address. *)
Fixpoint names_json (name : Z → str) (addresses : list Z) : str :=
  match addresses with
  | [] => []
  | [a] => quote ++ name a ++ quote
  | a :: addresses => quote ++ name a ++ quote ++ lit "," ++ names_json name addresses
  end.

Definition ConvertBacktraceToJSON (name : Z → str) (addri : Z) (m : Map) : str :=
  match backtrace_of addri m with
  | None => lit "[]"
  | Some frames => lit "[" ++ names_json name (drop GetUninterestingLayers frames) ++ lit "]"
  end.
End Map.
