(* ===== verification/BacktraceProperties.v ===== *)
(** * BacktraceProperties: the theorem on who mapped the memory

    [Unmap] cuts exactly the range out of a map of disjoint regions. *)

From S2P Require Import Prelude Util OrderedMap BacktraceMap.
Import OrderedMapFacts.

#[local] Open Scope Z_scope.

Implicit Types (m l t : Map).

Abbreviation entry := (Z * MemoryMappingBacktrace)%type.

(** Regions are not empty, and follow each other. *)
Definition follows_region (a b : entry) : Prop := end_ a.2 <= b.1.

Definition regions_ok m : Prop :=
  Forall (λ e : entry, 0 <= e.1 < end_ e.2 ∧ end_ e.2 < 2 ^ 32) m ∧ StronglySorted follows_region m.

(** Whose the address [x] is. *)
Fixpoint trace_at m (x : Z) : option (list Z) :=
  match m with
  | [] => None
  | (k, r) :: m => if (k <=? x) && (x <? end_ r) then Some (backtrace r) else trace_at m x
  end.

(** What is left of a region outside of [a, s), and of all of them. *)
Definition cut (a s : Z) (e : entry) : Map :=
  let '(k, r) := e in
  if (s <=? k) || (end_ r <=? a) then [(k, r)]
  else (if k <? a then [(k, with_end a r)] else []) ++ (if s <? end_ r then [(s, with_end (end_ r) r)] else []).

Definition cut_all (a s : Z) m : Map := m ≫= cut a s.

Lemma cut_all_app a s l t : cut_all a s (l ++ t) = cut_all a s l ++ cut_all a s t.
Proof. apply bind_app. Qed.

Lemma cut_all_none a s m : Forall (λ e : entry, s <= e.1 ∨ end_ e.2 <= a) m → cut_all a s m = m.
Proof.
  induction 1 as [|[k r] m Hk Hm IH]; [done|]. unfold cut_all in *. cbn in Hk |- *. rewrite IH.
  destruct (Z.leb_spec s k), (Z.leb_spec (end_ r) a); cbn; done || lia.
Qed.

Lemma regions_app l t : regions_ok (l ++ t) → regions_ok l ∧ regions_ok t ∧ ∀ a b, a ∈ l → b ∈ t → end_ a.2 <= b.1.
Proof.
  intros [[H1 H2]%Forall_app (H3 & H4 & H5)%StronglySorted_app]. by repeat split.
Qed.

Lemma regions_cons k r t :
  regions_ok ((k, r) :: t) → 0 <= k < end_ r ∧ end_ r < 2 ^ 32 ∧ regions_ok t ∧ above k t ∧ Forall (λ e : entry, end_ r <= e.1) t.
Proof.
  intros [H1 H2]. inversion H1 as [|?? [Hk He] Ht]; inversion H2 as [|?? Hs Hf]; subst. cbn in *.
  split; [done|]. split; [done|]. split; [done|]. split; [|done]. eapply Forall_impl; [exact Hf|]. unfold follows_region. cbn. lia.
Qed.

Lemma regions_strict m : regions_ok m → strict_keys m.
Proof.
  unfold strict_keys. induction m as [|[k r] m IH]; intros Hok; [constructor|].
  destruct (regions_cons k r m Hok) as (_ & _ & Hm & Ha & _). constructor; [by apply IH|exact Ha].
Qed.

(** ** [Unmap] *)

Lemma next_above s m x : OrderedMap.next s m = Some x → s < x.
Proof. induction m as [|[k r] m IH]; [done|]. cbn. destruct (Z.ltb_spec s k); [by intros [= <-]|done]. Qed.

Lemma next_begin k t : above k t → OrderedMap.next k t = OrderedMap.begin t.
Proof. intros Ht. destruct t as [|[x r] t]; [done|]. inversion Ht; subst. cbn in *. by destruct (Z.ltb_spec k x); [|lia]. Qed.

Lemma cut_below a s k l :
  k <= s → Forall (λ e : entry, e.1 < end_ e.2 ∧ end_ e.2 <= k) l → below k (cut_all a s l).
Proof.
  intros Hk. induction 1 as [|[x r] l [Hx He] Hl IH]; [constructor|]. unfold cut_all, below in *. cbn in Hx, He |- *.
  apply Forall_app. split; [|done]. destruct (_ || _); [repeat constructor; cbn; lia|].
  destruct (Z.ltb_spec s (end_ r)); [lia|]. rewrite app_nil_r. destruct (x <? a); repeat constructor. cbn. lia.
Qed.

Lemma assign_between k v (p q : Map) : below k p → above k q → OrderedMap.assign k v (p ++ q) = p ++ (k, v) :: q.
Proof.
  intros Hp Hq. unfold OrderedMap.assign. rewrite insert_below by done. by rewrite insert_above.
Qed.

(** What the loop does to one region, with the regions before and after it. *)
Lemma cut_step a s k r (p t : Map) :
  k < end_ r → k <= s → (s <=? k) || (end_ r <=? a) = false → below k p → above k t → Forall (λ e : entry, end_ r <= e.1) t →
  let m := p ++ t in
  let m := if k <? a then OrderedMap.assign k (with_end a r) m else m in
  (if s <? end_ r then OrderedMap.assign s (with_end (end_ r) r) m else m) = p ++ cut a s (k, r) ++ t.
Proof.
  intros Hk Hks Eskip Hp Ht Hends. cbn [cut]. rewrite Eskip.
  apply orb_false_iff in Eskip as [E1%Z.leb_gt E2%Z.leb_gt].
  assert (below s p) as Hps by (eapply Forall_impl; [exact Hp|]; cbn; lia).
  assert (s < end_ r → above s t) as Hright by (intros ?; eapply Forall_impl; [exact Hends|]; cbn; lia).
  destruct (Z.ltb_spec k a).
  - cbv zeta. rewrite assign_between by done. destruct (Z.ltb_spec s (end_ r)); [|done].
    change ((k, ?x) :: t) with ([(k, x)] ++ t). rewrite app_assoc, assign_between; [by rewrite <-!app_assoc| |by apply Hright].
    apply Forall_app. split; [done|]. by repeat constructor.
  - cbv zeta. cbn [app]. destruct (Z.ltb_spec s (end_ r)); [|done]. apply assign_between; [done|by apply Hright].
Qed.

Lemma unmap_loop_spec a s l t fuel :
  regions_ok (l ++ t) → Forall (λ e : entry, e.1 <= s) l → (List.length t < fuel)%nat →
  unmap_loop fuel a s (OrderedMap.next s (l ++ t)) (OrderedMap.begin t) (cut_all a s l ++ t) = Done (cut_all a s (l ++ t)).
Proof.
  revert l fuel. induction t as [|[k r] t IH]; intros l fuel Hok Hl Hf; (destruct fuel as [|fuel]; [cbn in Hf; lia|]); cbn [unmap_loop].
  { cbn [OrderedMap.begin]. rewrite next_upto by done. rewrite bool_decide_true by done. by rewrite !app_nil_r. }
  destruct (regions_app _ _ Hok) as (Hokl & Hokt & Hbetween). destruct (regions_cons k r t Hokt) as (Hk & Hend & Hokt' & Habove & Hends).
  cbn [OrderedMap.begin]. destruct (Z.lt_ge_cases s k) as [Hlt|Hge].
  { rewrite next_upto by done. cbn [OrderedMap.next]. rewrite (proj2 (Z.ltb_lt s k)), bool_decide_true by done.
    rewrite cut_all_app, (cut_all_none a s ((k, r) :: t)); [done|]. constructor; [by left; cbn; lia|].
    eapply Forall_impl; [exact Habove|]. cbn. lia. }
  rewrite bool_decide_false.
  2: { rewrite next_upto by done. cbn [OrderedMap.next]. rewrite (proj2 (Z.ltb_ge s k)) by done. intros Hn. symmetry in Hn.
       apply next_above in Hn. lia. }
  assert (below k (cut_all a s l)) as Hbelow.
  { apply cut_below; [done|]. apply Forall_forall. intros e He. split.
    - destruct Hokl as [Hf1 _]. rewrite Forall_forall in Hf1. apply Hf1 in He. lia.
    - apply (Hbetween e (k, r) He). by left. }
  rewrite find_below by done. cbn [OrderedMap.find]. rewrite Z.eqb_refl.
  assert (OrderedMap.next k (cut_all a s l ++ (k, r) :: t) = OrderedMap.begin t) as Hnext.
  { rewrite next_upto by by apply below_upto. cbn [OrderedMap.next]. rewrite Z.ltb_irrefl. by apply next_begin. }
  rewrite Hnext, erase_below by done. cbn [OrderedMap.erase]. rewrite Z.eqb_refl.
  assert (∀ m', m' = cut_all a s (l ++ [(k, r)]) ++ t →
    unmap_loop fuel a s (OrderedMap.next s (l ++ (k, r) :: t)) (OrderedMap.begin t) m' =
    Done (cut_all a s (l ++ (k, r) :: t))) as Hrest.
  { intros m' ->. pose proof (IH (l ++ [(k, r)]) fuel) as IH'. rewrite <-!app_assoc in IH'. apply IH'; [done| |cbn in Hf; lia].
    apply Forall_app. split; [done|]. by repeat constructor. }
  destruct ((s <=? k) || (end_ r <=? a)) eqn:Eskip.
  { apply Hrest. rewrite cut_all_app, <-app_assoc. f_equal. unfold cut_all. cbn. by rewrite Eskip. }
  apply Hrest. rewrite cut_all_app, <-app_assoc. assert (cut_all a s [(k, r)] = cut a s (k, r)) as -> by (unfold cut_all; simpl; by rewrite app_nil_r).
  by rewrite <-(cut_step a s k r (cut_all a s l) t) by (done || lia).
Qed.

(** The parts of a map around an address. *)
Lemma split_keys a m : strict_keys m →
  ∃ p q : Map, m = p ++ q ∧ below a p ∧ Forall (λ e : entry, a <= e.1) q ∧ OrderedMap.lower_bound a m = OrderedMap.begin q.
Proof.
  induction 1 as [|[k r] m Hm (p & q & -> & Hp & Hq & Hl) Hk].
  { exists [], []. split; [done|]. split; [constructor|]. by split; [constructor|]. }
  destruct (Z.lt_ge_cases k a).
  - exists ((k, r) :: p), q. split; [done|]. split; [by constructor|]. split; [done|].
    cbn [OrderedMap.lower_bound]. by rewrite (proj2 (Z.leb_gt a k)).
  - exists [], ((k, r) :: p ++ q). split; [done|]. split; [constructor|]. split.
    + constructor; [done|]. eapply Forall_impl; [exact Hk|]. cbn. lia.
    + cbn. by rewrite (proj2 (Z.leb_le a k)).
Qed.

Lemma last_key_snoc (p : Map) x v : last_key (p ++ [(x, v)]) = Some x.
Proof. induction p as [|[k r] p IH]; [done|]. cbn [app last_key]. destruct (p ++ [(x, v)]) eqn:E; [by destruct p|done]. Qed.

Lemma start_of_spec end_first a m :
  regions_ok m → (OrderedMap.lower_bound a m = None → end_first m ≠ a) →
  ∃ l t, m = l ++ t ∧ start_of end_first a m = OrderedMap.begin t ∧ Forall (λ e : entry, e.1 < a ∧ end_ e.2 <= a) l.
Proof.
  intros Hok Hend. destruct (split_keys a m (regions_strict m Hok)) as (p & q & -> & Hp & Hq & Hl).
  unfold start_of. rewrite Hl in Hend |- *. destruct p as [|[x v] p _] using rev_ind.
  { exists [], q. split; [done|]. cbn [app]. by rewrite bool_decide_true. }
  assert (OrderedMap.begin q ≠ OrderedMap.begin ((p ++ [(x, v)]) ++ q)) as Hne.
  { intros Heq. destruct q as [|[y u] q]; [by destruct p as [|[]]|]. inversion Hq as [|?? Hy _]; subst. cbn in Hy, Heq.
    destruct p as [|[z w] p]; cbn in Heq; injection Heq as ->; inversion Hp; cbn in *; lia. }
  rewrite (bool_decide_false _ Hne). cbn [negb andb].
  destruct (regions_app _ _ Hok) as (Hokp & _ & Hbetween).
  assert (∀ e : entry, e ∈ p → end_ e.2 <= x) as Hx.
  { intros e He. destruct (regions_app _ _ Hokp) as (_ & _ & Hb). apply (Hb e (x, v) He). by left. }
  apply Forall_app in Hp as [Hp Hxa]. apply Forall_cons in Hxa as [Hxa _]. cbn in Hxa.
  destruct (Z.eqb_spec (first_of end_first (OrderedMap.begin q) ((p ++ [(x, v)]) ++ q)) a) as [He|He]; cbn [negb].
  - exists (p ++ [(x, v)]), q. split; [done|]. split; [done|]. destruct q as [|[y u] q]; [by destruct Hend|].
    cbn in He. subst y. apply Forall_forall. intros e Hin. split.
    + apply elem_of_app in Hin as [Hin|Hin%list_elem_of_singleton]; [|by subst].
      rewrite Forall_forall in Hp. by apply Hp.
    + apply (Hbetween e (a, u) Hin). by left.
  - exists p, ((x, v) :: q). split; [by rewrite <-app_assoc|]. split.
    + destruct q as [|[y u] q]; cbn [before OrderedMap.begin]; [rewrite app_nil_r; apply last_key_snoc|].
      rewrite <-app_assoc. inversion Hq as [|?? Hy Hq']; subst. cbn in Hy.
      change ([(x, v)] ++ (y, u) :: q) with ((x, v) :: (y, u) :: q).
      apply prev_below; [|constructor; [cbn; lia|]].
      * apply Forall_app. split; [|by repeat constructor; cbn; lia]. eapply Forall_impl; [exact Hp|]. cbn. lia.
      * apply regions_app in Hok as (_ & Hokq & _). destruct (regions_cons _ _ _ Hokq) as (_ & _ & _ & Ha & _).
        eapply Forall_impl; [exact Ha|]. cbn. lia.
    + apply Forall_forall. intros e Hin. split; [rewrite Forall_forall in Hp; by apply Hp|]. pose proof (Hx e Hin). lia.
Qed.

Lemma unmap_spec end_first a n m :
  regions_ok m → (OrderedMap.lower_bound a m = None → end_first m ≠ a) → 0 <= a → 0 <= n → a + n < 2 ^ 32 →
  Unmap end_first a n m = Done (cut_all a (a + n) m).
Proof.
  intros Hok Hend Ha Hn Hs. destruct (start_of_spec end_first a m Hok Hend) as (l & t & -> & Hstart & Hl).
  unfold Unmap, wrap32. rewrite Hstart, Z.mod_small by lia.
  pose proof (unmap_loop_spec a (a + n) l t (S (List.length (l ++ t))) Hok) as Hloop.
  rewrite (cut_all_none a (a + n) l) in Hloop.
  - apply Hloop; [|rewrite length_app; lia]. eapply Forall_impl; [exact Hl|]. cbn. lia.
  - eapply Forall_impl; [exact Hl|]. cbn. lia.
Qed.

(** ** What a map means *)

(** Cases of the comparisons in the goal. *)
Ltac compare_all :=
  repeat match goal with
  | |- context [?a <=? ?b] => destruct (Z.leb_spec a b)
  | |- context [?a <? ?b] => destruct (Z.ltb_spec a b)
  end; cbn [andb orb]; try done; try lia.

Lemma trace_at_in m k r x : regions_ok m → (k, r) ∈ m → k <= x < end_ r → trace_at m x = Some (backtrace r).
Proof.
  induction m as [|[y u] m IH]; intros Hok Hin Hx; [by apply elem_of_nil in Hin|].
  destruct (regions_cons _ _ _ Hok) as (Hy & _ & Hm & _ & Hends). cbn [trace_at].
  apply elem_of_cons in Hin as [[= -> ->]|Hin]; [by rewrite (proj2 (Z.leb_le _ _)), (proj2 (Z.ltb_lt _ _)) by lia|].
  rewrite Forall_forall in Hends. pose proof (Hends _ Hin) as Hk. cbn in Hk.
  rewrite (proj2 (Z.ltb_ge x (end_ u))), andb_false_r by lia. by apply IH.
Qed.

Lemma trace_at_none m x : Forall (λ e : entry, x < e.1 ∨ end_ e.2 <= x) m → trace_at m x = None.
Proof.
  induction 1 as [|[k r] m Hk _ IH]; [done|]. cbn in Hk |- *. destruct (Z.leb_spec k x), (Z.ltb_spec x (end_ r)); done || lia.
Qed.

Lemma trace_at_app p q x : trace_at (p ++ q) x = match trace_at p x with Some fr => Some fr | None => trace_at q x end.
Proof. induction p as [|[k r] p IH]; [done|]. cbn. by destruct (_ && _). Qed.

Lemma cut_spec a s k r x :
  a <= s → k < end_ r →
  trace_at (cut a s (k, r)) x = (if decide (a <= x < s) then None else trace_at [(k, r)] x) ∧
  Forall (λ e : entry, k <= e.1 < end_ e.2 ∧ end_ e.2 <= end_ r) (cut a s (k, r)) ∧ StronglySorted follows_region (cut a s (k, r)).
Proof.
  intros Has Hk. cbn [cut trace_at]. destruct ((s <=? k) || (end_ r <=? a)) eqn:E.
  - split; [|by repeat constructor; cbn]. cbn. case_decide; [|done].
    apply orb_true_iff in E as [?%Z.leb_le|?%Z.leb_le]; destruct (Z.leb_spec k x), (Z.ltb_spec x (end_ r)); done || lia.
  - apply orb_false_iff in E as [?%Z.leb_gt ?%Z.leb_gt].
    destruct (Z.ltb_spec k a), (Z.ltb_spec s (end_ r)); cbn;
      (split; [case_decide; compare_all|]);
      repeat constructor; cbn; unfold follows_region; cbn; try lia.
Qed.

Lemma cut_all_spec a s m x :
  a <= s → regions_ok m →
  regions_ok (cut_all a s m) ∧ trace_at (cut_all a s m) x = (if decide (a <= x < s) then None else trace_at m x) ∧
  ∀ k, Forall (λ e : entry, k <= e.1) m → Forall (λ e : entry, k <= e.1) (cut_all a s m).
Proof.
  intros Has. induction m as [|[k r] m IH]; intros Hok.
  { split; [done|]. split; [by case_decide|done]. }
  destruct (regions_cons _ _ _ Hok) as (Hk & Hend & Hm & _ & Hends). destruct (IH Hm) as ([I1 I2] & I3 & I4).
  destruct (cut_spec a s k r x Has ltac:(lia)) as (C1 & C2 & C3). unfold cut_all in *. cbn [mbind list_bind].
  split; [split|split].
  - apply Forall_app. split; [|done]. eapply Forall_impl; [exact C2|]. cbn. lia.
  - apply StronglySorted_app. split; [|by split]. pose proof (I4 _ Hends) as Hafter.
    intros e1 e2 H1 H2. rewrite Forall_forall in C2, Hafter. pose proof (C2 _ H1). pose proof (Hafter _ H2).
    unfold follows_region. cbn in *. lia.
  - rewrite trace_at_app, C1, I3. cbn. case_decide; [done|]. by destruct (_ && _).
  - intros j Hj. apply Forall_cons in Hj as [Hj1 Hj2]. apply Forall_app. split; [|by apply I4].
    eapply Forall_impl; [exact C2|]. cbn in *. lia.
Qed.

(** A region where there was none. *)
Lemma assign_region a r m :
  regions_ok m → 0 <= a < end_ r → end_ r < 2 ^ 32 → (∀ x, a <= x < end_ r → trace_at m x = None) →
  regions_ok (OrderedMap.assign a r m) ∧
  ∀ x, trace_at (OrderedMap.assign a r m) x = if decide (a <= x < end_ r) then Some (backtrace r) else trace_at m x.
Proof.
  intros Hok Ha Hend Hfree. destruct (split_keys a m (regions_strict m Hok)) as (p & q & -> & Hp & Hq & _).
  assert (∀ k u, (k, u) ∈ p ++ q → end_ u <= a ∨ end_ r <= k) as Hout.
  { intros k u Hin. destruct Hok as [Hall Hs]. pose proof Hall as Hall'. rewrite Forall_forall in Hall'.
    pose proof (Hall' _ Hin) as Hku. cbn in Hku. destruct (Z.le_gt_cases (end_ u) a); [by left|right].
    destruct (Z.le_gt_cases (end_ r) k); [done|]. exfalso. pose proof (Hfree (Z.max a k) ltac:(lia)) as Hnone.
    rewrite (trace_at_in _ k u) in Hnone; [done|by split|done|lia]. }
  assert (Forall (λ e : entry, end_ e.2 <= a) p) as Hpa.
  { apply Forall_forall. intros [k u] Hin. cbn. destruct (Hout k u); [apply elem_of_app; by left|done|].
    unfold below in Hp. rewrite Forall_forall in Hp. apply Hp in Hin. cbn in Hin. lia. }
  assert (Forall (λ e : entry, end_ r <= e.1) q) as Hqr.
  { destruct (regions_app _ _ Hok) as (_ & [Hall _] & _). rewrite Forall_forall in Hall. apply Forall_forall. intros [k u] Hin. cbn.
    destruct (Hout k u); [apply elem_of_app; by right| |done]. rewrite Forall_forall in Hq. pose proof (Hq _ Hin).
    pose proof (Hall _ Hin). cbn in *. lia. }
  rewrite assign_between; [|done|eapply Forall_impl; [exact Hqr|]; cbn; lia].
  destruct (regions_app _ _ Hok) as ([P1 P2] & [Q1 Q2] & Hb). split; [split|].
  - apply Forall_app. split; [done|]. by constructor.
  - apply StronglySorted_app. split; [|split; [done|]].
    + intros e1 e2 H1 [->|H2]%elem_of_cons; [|by apply Hb]. unfold follows_region. cbn. rewrite Forall_forall in Hpa. by apply Hpa.
    + constructor; [done|]. eapply Forall_impl; [exact Hqr|]. done.
  - intros x. rewrite !trace_at_app. cbn. case_decide as Hx.
    + rewrite (trace_at_none p) by (eapply Forall_impl; [exact Hpa|]; cbn; lia).
      by rewrite (proj2 (Z.leb_le _ _)), (proj2 (Z.ltb_lt _ _)) by lia.
    + destruct (trace_at p x); [done|]. destruct (Z.leb_spec a x), (Z.ltb_spec x (end_ r)); done || lia.
Qed.

(** ** Looking up an address *)

Lemma split_after x m : strict_keys m →
  ∃ p q : Map, m = p ++ q ∧ Forall (λ e : entry, e.1 <= x) p ∧ above x q ∧ OrderedMap.next x m = OrderedMap.begin q.
Proof.
  induction 1 as [|[k r] m Hm (p & q & -> & Hp & Hq & Hn) Hk].
  { exists [], []. split; [done|]. split; [constructor|]. by split; [constructor|]. }
  cbn [OrderedMap.next]. destruct (Z.ltb_spec x k).
  - exists [], ((k, r) :: p ++ q). split; [done|]. split; [constructor|]. split; [|done].
    constructor; [done|]. eapply Forall_impl; [exact Hk|]. cbn. lia.
  - exists ((k, r) :: p), q. split; [done|]. split; [by constructor|]. by split.
Qed.

Lemma backtrace_of_spec x m : regions_ok m → backtrace_of x m = trace_at m x.
Proof.
  intros Hok. destruct (split_after x m (regions_strict m Hok)) as (p & q & -> & Hp & Hq & Hn).
  unfold backtrace_of. rewrite Hn. destruct p as [|[k r] p _] using rev_ind.
  { rewrite bool_decide_true by done. symmetry. apply trace_at_none. eapply Forall_impl; [exact Hq|]. cbn. lia. }
  apply Forall_app in Hp as [Hp Hk]. apply Forall_cons in Hk as [Hk _]. cbn in Hk.
  destruct (regions_app _ _ Hok) as (Hokp & _ & _). destruct (regions_app _ _ Hokp) as ([Hall _] & _ & Hb).
  assert (below k p) as Hbelow.
  { apply Forall_forall. intros e He. rewrite Forall_forall in Hall. pose proof (Hall _ He).
    pose proof (Hb e (k, r) He ltac:(by left)). cbn in *. lia. }
  rewrite bool_decide_false.
  2: { intros Heq. destruct q as [|[y u] q]; [by destruct p as [|[]]|]. inversion Hq as [|?? Hy _]; subst. cbn in Hy, Heq.
       destruct p as [|[z w] p]; cbn in Heq; injection Heq as ->; [lia|]. inversion Hp. cbn in *. lia. }
  assert (before (OrderedMap.begin q) ((p ++ [(k, r)]) ++ q) = Some k) as ->.
  { destruct q as [|[y u] q]; cbn [before OrderedMap.begin]; [rewrite app_nil_r; apply last_key_snoc|].
    rewrite <-app_assoc. inversion Hq as [|?? Hy Hq']; subst. cbn in Hy. cbn [app]. apply prev_below.
    - apply Forall_app. split; [|by repeat constructor; cbn; lia]. eapply Forall_impl; [exact Hbelow|]. cbn. lia.
    - constructor; [cbn; lia|]. apply regions_app in Hok as (_ & Hokq & _).
      destruct (regions_cons _ _ _ Hokq) as (_ & _ & _ & Ha & _). eapply Forall_impl; [exact Ha|]. cbn. lia. }
  rewrite <-app_assoc, find_below by done. cbn [app OrderedMap.find]. rewrite Z.eqb_refl, trace_at_app.
  rewrite (trace_at_none p).
  2: { apply Forall_forall. intros e He. right. pose proof (Hb e (k, r) He ltac:(by left)). cbn in *. lia. }
  cbn [trace_at]. rewrite (proj2 (Z.ltb_ge x k)), (proj2 (Z.leb_le k x)) by done. cbn [orb andb].
  rewrite (trace_at_none q) by (eapply Forall_impl; [exact Hq|]; cbn; lia).
  destruct (Z.leb_spec (end_ r) x), (Z.ltb_spec x (end_ r)); done || lia.
Qed.

(** ** Histories *)

Inductive region_op : Type :=
| OpMap (frames : list Z) (addr length : Z)
| OpUnmap (addr length : Z).

Definition op_addr (o : region_op) : Z := match o with OpMap _ a _ | OpUnmap a _ => a end.

(** The addresses have 32 bits; something is mapped. *)
Definition region_op_ok (o : region_op) : Prop :=
  match o with
  | OpMap _ a n => 0 <= a ∧ 0 < n ∧ a + n < 2 ^ 32
  | OpUnmap a n => 0 <= a ∧ 0 <= n ∧ a + n < 2 ^ 32
  end.

Section Histories.
Context (end_first : Map → Z).

Definition run_region_op (o : region_op) (m : Map) : outcome Map :=
  match o with
  | OpMap frames a n => MapCurrentStackFrame end_first frames a n m
  | OpUnmap a n => Unmap end_first a n m
  end.

Fixpoint run_region_ops (os : list region_op) (m : Map) : outcome Map :=
  match os with [] => mret m | o :: os => run_region_op o m ≫= run_region_ops os end.

(** Who an address belongs to: to the last one who mapped it, until it is unmapped. *)
Definition spec_region_op (o : region_op) (f : Z → option (list Z)) : Z → option (list Z) := λ x,
  match o with
  | OpMap frames a n => if decide (a <= x < a + n) then Some (take kBacktraceCapacity frames) else f x
  | OpUnmap a n => if decide (a <= x < a + n) then None else f x
  end.

Lemma region_op_spec o m :
  regions_ok m → region_op_ok o → (∀ m, end_first m ≠ op_addr o) →
  ∃ m', run_region_op o m = Done m' ∧ regions_ok m' ∧ ∀ x, trace_at m' x = spec_region_op o (trace_at m) x.
Proof.
  intros Hok Ho Hend. destruct o as [frames a n|a n]; destruct Ho as (Ha & Hn & Hs); cbn [run_region_op op_addr] in *.
  - unfold MapCurrentStackFrame. rewrite unmap_spec by (done || lia). rewrite done_bind.
    destruct (cut_all_spec a (a + n) m 0 ltac:(lia) Hok) as (Hcut & _ & _).
    unfold wrap32. rewrite Z.mod_small by lia.
    destruct (assign_region a (mkTrace (a + n) (take kBacktraceCapacity frames)) (cut_all a (a + n) m) Hcut) as [H1 H2]; [cbn; lia|cbn; lia| |].
    + intros x Hx. destruct (cut_all_spec a (a + n) m x ltac:(lia) Hok) as (_ & -> & _). by rewrite decide_True.
    + eexists. split; [done|]. split; [exact H1|]. intros x. rewrite H2. cbn. case_decide; [done|].
      destruct (cut_all_spec a (a + n) m x ltac:(lia) Hok) as (_ & -> & _). by rewrite decide_False.
  - rewrite unmap_spec by done. eexists. split; [done|].
    split; [by apply (cut_all_spec a (a + n) m 0 ltac:(lia) Hok)|]. intros x. by apply cut_all_spec; [lia|].
Qed.

Lemma region_ops_spec os m f :
  regions_ok m → (∀ x, trace_at m x = f x) → Forall region_op_ok os → (∀ o m, o ∈ os → end_first m ≠ op_addr o) →
  ∃ m', run_region_ops os m = Done m' ∧ regions_ok m' ∧ ∀ x, trace_at m' x = fold_left (λ f o, spec_region_op o f) os f x.
Proof.
  revert m f. induction os as [|o os IH]; intros m f Hok Hf Hos Hend; [by exists m|]. inversion Hos as [|?? Ho Hos']; subst.
  destruct (region_op_spec o m Hok Ho) as (m1 & Hm1 & Hok1 & Hf1); [intros m'; apply Hend; by left|].
  destruct (IH m1 (spec_region_op o f) Hok1) as (m2 & Hm2 & Hok2 & Hf2); [|done|intros o' m' Ho'; apply Hend; by right|].
  - intros x. rewrite Hf1. unfold spec_region_op. by destruct o; rewrite Hf.
  - exists m2. split; [|by split]. cbn [run_region_ops]. by rewrite Hm1.
Qed.

Lemma names_json_join name (l : list Z) : names_json name l = join_with ","%char (map (λ a, quote ++ name a ++ quote) l).
Proof.
  induction l as [|a l IH]; [done|]. cbn [names_json map join_with]. destruct l as [|b l]; [done|].
  cbn [map] in *. rewrite IH. by rewrite <-!app_assoc.
Qed.

(** C40.  Who mapped the memory.  Whatever is mapped and unmapped, in any order and
    overlapping in any way (regions are cut at both ends, split in two, removed, or
    replaced), the map of backtraces assigns to every address the backtrace of the [mmap]
    that it was mapped by last, and nothing when it was never mapped or was unmapped
    since; this is what [ConvertBacktraceToJSON] prints.  The loops end, and no element
    is used that is not there.  For an address above the start of all regions the code reads the
    key of [end()]: the theorem holds when what it reads there is not the address. *)
Theorem backtraces_of_regions os name :
  Forall region_op_ok os → (∀ o m, o ∈ os → end_first m ≠ op_addr o) →
  ∃ m, run_region_ops os [] = Done m ∧ regions_ok m ∧
    ∀ x, backtrace_of x m = fold_left (λ f o, spec_region_op o f) os (λ _, None) x ∧
      ConvertBacktraceToJSON name x m =
      match fold_left (λ f o, spec_region_op o f) os (λ _, None) x with
      | Some frames => lit "[" ++ join_with ","%char (map (λ a, quote ++ name a ++ quote) (drop GetUninterestingLayers frames)) ++ lit "]"
      | None => lit "[]"
      end.
Proof.
  intros Hos Hend. destruct (region_ops_spec os [] (λ _, None)) as (m & Hm & Hok & Hf); [by repeat constructor|done|done|done|].
  exists m. split; [done|]. split; [done|]. intros x. unfold ConvertBacktraceToJSON. rewrite backtrace_of_spec, Hf by done.
  split; [done|]. destruct (fold_left _ _ _ x) as [frames|]; [|done]. by rewrite names_json_join.
Qed.
End Histories.

(** ** A witness *)

Module BacktraceWitness.
(** A mapping, a second one over its middle, and a hole in that. *)
Definition history : list region_op :=
  [OpMap [1; 2; 3; 4; 5] 4096 12288; OpMap [1; 2; 3; 9] 8192 4096; OpUnmap 8192 1000].

Definition name (a : Z) : str := [ascii_of_nat (65 + Z.to_nat a)].

Lemma backtraces_of_regions_witness :
  ∃ m, run_region_ops (λ _, -1) history [] = Done m ∧ backtrace_of 4096 m = Some [1; 2; 3; 4; 5] ∧
    backtrace_of 9000 m = None ∧ ConvertBacktraceToJSON name 10000 m = lit "[" ++ quote ++ lit "J" ++ quote ++ lit "]".
Proof.
  destruct (backtraces_of_regions (λ _, -1) history name) as (m & Hm & _ & Hx).
  - repeat constructor; cbn; lia.
  - intros o m Ho. unfold history in Ho. repeat (apply elem_of_cons in Ho as [->|Ho]; [done|]). by apply elem_of_nil in Ho.
  - exists m. split; [exact Hm|]. destruct (Hx 4096) as [H1 _], (Hx 9000) as [H2 _], (Hx 10000) as [_ H3].
    split; [etrans; [exact H1|]; vm_compute; reflexivity|].
    split; [etrans; [exact H2|]; vm_compute; reflexivity|].
    etrans; [exact H3|]. vm_compute. reflexivity.
Defined.
End BacktraceWitness.
