(* ===== verification/ProcessEmulator.v ===== *)
(** * ProcessEmulator: [process_emulator.{h,cc}] (under src/common/)

    Threads of one process that seem to belong to several, with the numbers and
    users that [getpid] and [getuid] answer, and the change of process in calls of
    Binder.  A thread has its state in thread-local storage: here a map from threads
    to states, in which a thread without a state is missing. *)

From S2P Require Import Prelude Util MountPoints OrderedMap.
Import UpdateTracking.

#[local] Open Scope Z_scope.

Definition kInitPid : Z := 1.
Definition kSystemUid : Z := 1000.
Definition kFirstAppUid : Z := 10000.
Definition kFirstPidMinusOne : Z := 200.
Definition kMinUid : Z := 1000.
Definition kDefaultProcessName : str := "app_process".

Definition IsAppUid (uid : Z) : bool := kFirstAppUid <=? uid.

Record EmulatedProcessInfo : Type := mkProcess { pid : Z; uid : Z }.

#[export] Instance process_info_eq_dec : EqDecision EmulatedProcessInfo.
Proof. solve_decision. Defined.

Record EmulatedBinderMethodFrame : Type := mkFrame { caller_ : EmulatedProcessInfo; has_cookie_ : bool; cookie_ : Z }.

(** The top of the stack of frames comes first. *)
Record ProcessEmulatorThreadState : Type := mkThreadState {
  process_ : EmulatedProcessInfo;
  thread_creation_process_ : EmulatedProcessInfo;
  binder_frames_ : list EmulatedBinderMethodFrame;
}.

Definition ThreadState_new (process : EmulatedProcessInfo) : ProcessEmulatorThreadState :=
  mkThreadState process process [].

Definition HasSetNextThreadEmulatedProcess (s : ProcessEmulatorThreadState) : bool :=
  bool_decide (pid (thread_creation_process_ s) ≠ pid (process_ s)).

Definition SetNextThreadEmulatedProcess (process : EmulatedProcessInfo) (s : ProcessEmulatorThreadState) :
    ProcessEmulatorThreadState :=
  mkThreadState (process_ s) process (binder_frames_ s).

Definition GetAndClearThreadCreationProcess (s : ProcessEmulatorThreadState) :
    EmulatedProcessInfo * ProcessEmulatorThreadState :=
  (thread_creation_process_ s, mkThreadState (process_ s) (process_ s) (binder_frames_ s)).

Definition PushBinderFrame (new_process : EmulatedProcessInfo) (has_cookie : bool) (cookie : Z)
    (s : ProcessEmulatorThreadState) : ProcessEmulatorThreadState :=
  mkThreadState new_process new_process (mkFrame (process_ s) has_cookie cookie :: binder_frames_ s).

(** The cookie, if there is one; [back] of an empty vector is undefined. *)
Definition PopBinderFrame (s : ProcessEmulatorThreadState) : outcome (option Z * ProcessEmulatorThreadState) :=
  match binder_frames_ s with
  | [] => Abort
  | frame :: frames =>
      Done (if has_cookie_ frame then Some (cookie_ frame) else None,
            mkThreadState (caller_ frame) (caller_ frame) frames)
  end.

(** ** The singleton and the static variables *)

Record Emulator (W : Type) : Type := mkEmulator {
  s_prev_pid : Z;
  s_is_multi_threaded : bool;
  s_fallback_uid : Z;
  argv0_per_emulated_process_ : list (Z * str);
  uid_per_emulated_process_ : list (Z * Z);
  update_producer_ : Z;
  threads : gmap nat ProcessEmulatorThreadState;
  binder_enter_function_ : option (St W Z);
  binder_exit_function_ : option (Z → St W unit);
  (* what the functions of Binder work on *)
  binder_world : W;
}.
Arguments mkEmulator {W}.
Arguments s_prev_pid {W}.
Arguments s_is_multi_threaded {W}.
Arguments s_fallback_uid {W}.
Arguments argv0_per_emulated_process_ {W}.
Arguments uid_per_emulated_process_ {W}.
Arguments update_producer_ {W}.
Arguments threads {W}.
Arguments binder_enter_function_ {W}.
Arguments binder_exit_function_ {W}.
Arguments binder_world {W}.

(** What [pthread_create] is called with: its arguments, or the wrapper of them. *)
Inductive start (A : Type) : Type :=
| Original (routine : A)
| ThreadStartWrapper (process : EmulatedProcessInfo) (routine : A).
Arguments Original {A}.
Arguments ThreadStartWrapper {A}.

Section Emulator.
Context {W : Type}.

Definition Emulator_new (w : W) : Emulator W :=
  mkEmulator kFirstPidMinusOne false kSystemUid [] [] kInitialUpdateNumber ∅ None None w.

Definition with_threads (t : gmap nat ProcessEmulatorThreadState) (e : Emulator W) : Emulator W :=
  mkEmulator (s_prev_pid e) (s_is_multi_threaded e) (s_fallback_uid e) (argv0_per_emulated_process_ e)
    (uid_per_emulated_process_ e) (update_producer_ e) t (binder_enter_function_ e) (binder_exit_function_ e)
    (binder_world e).

Definition with_argv0 (l : list (Z * str)) (e : Emulator W) : Emulator W :=
  mkEmulator (s_prev_pid e) (s_is_multi_threaded e) (s_fallback_uid e) l (uid_per_emulated_process_ e)
    (update_producer_ e) (threads e) (binder_enter_function_ e) (binder_exit_function_ e) (binder_world e).

Definition with_world (w : W) (e : Emulator W) : Emulator W :=
  mkEmulator (s_prev_pid e) (s_is_multi_threaded e) (s_fallback_uid e) (argv0_per_emulated_process_ e)
    (uid_per_emulated_process_ e) (update_producer_ e) (threads e) (binder_enter_function_ e)
    (binder_exit_function_ e) w.

Definition set_thread (self : nat) (s : ProcessEmulatorThreadState) : St (Emulator W) unit :=
  modify (λ e, with_threads (<[self := s]> (threads e)) e).

Definition IsMultiThreaded (e : Emulator W) : bool := s_is_multi_threaded e.

Definition GetFirstPid (e : Emulator W) : Z := default 0 (OrderedMap.begin (argv0_per_emulated_process_ e)).

(** [upper_bound] is the first key after [last_pid]. *)
Definition GetNextPid (last_pid : Z) (e : Emulator W) : Z :=
  default 0 (OrderedMap.next last_pid (argv0_per_emulated_process_ e)).

Definition AllocateNewPid (uid : Z) : St (Emulator W) Z :=
  e ← get;
  check (s_prev_pid e <? 2 ^ 31 - 1);;
  let result := s_prev_pid e + 1 in
  put (mkEmulator result (s_is_multi_threaded e) (s_fallback_uid e)
         (OrderedMap.assign result kDefaultProcessName (argv0_per_emulated_process_ e))
         (OrderedMap.assign result uid (uid_per_emulated_process_ e)) (ProduceUpdate (update_producer_ e))
         (threads e) (binder_enter_function_ e) (binder_exit_function_ e) (binder_world e));;
  mret result.

(** The destructor of the key, when a thread ends. *)
Definition DestroyEmulatedProcessThreadState (self : nat) : St (Emulator W) unit :=
  modify (λ e, with_threads (delete self (threads e)) e).

Definition GetThreadState (self : nat) : St (Emulator W) (option ProcessEmulatorThreadState) :=
  gets (λ e, threads e !! self).

(** Using the state of a thread that must have one. *)
Definition deref_state (self : nat) : St (Emulator W) ProcessEmulatorThreadState :=
  s ← GetThreadState self;
  match s with Some s => mret s | None => fatal end.

Definition InitProcessEmulatorTLS (self : nat) (process : EmulatedProcessInfo) : St (Emulator W) unit :=
  s ← GetThreadState self;
  check (bool_decide (s = None));;
  set_thread self (ThreadState_new process).

Definition CreateNewEmulatedProcess (uid : Z) : St (Emulator W) EmulatedProcessInfo :=
  pid ← AllocateNewPid uid; mret (mkProcess pid uid).

Definition SetFirstEmulatedProcessThread (self : nat) (uid : Z) : St (Emulator W) unit :=
  process ← CreateNewEmulatedProcess uid;
  InitProcessEmulatorTLS self process.

Definition PrepareNewEmulatedProcess (self : nat) (uid : Z) : St (Emulator W) Z :=
  check (negb (bool_decide (uid ≠ 0) && (uid <? kMinUid)));;
  state ← deref_state self;
  check (negb (HasSetNextThreadEmulatedProcess state));;
  process ← CreateNewEmulatedProcess uid;
  set_thread self (SetNextThreadEmulatedProcess process state);;
  mret (pid process).

(** [GetCurrentPidAndUid] *)
Definition current (self : nat) (e : Emulator W) : EmulatedProcessInfo :=
  match threads e !! self with
  | Some s => process_ s
  | None => mkProcess kInitPid (s_fallback_uid e)
  end.

Definition GetPid (self : nat) (e : Emulator W) : Z := pid (current self e).
Definition GetUid (self : nat) (e : Emulator W) : Z := uid (current self e).

(** [GetEuid], and [GetRuidEuidSuid], whose three answers are this one; group numbers
    are user numbers. *)
Definition GetEuid (self : nat) : St (Emulator W) Z := s ← deref_state self; mret (uid (process_ s)).
Definition GetGid (self : nat) : St (Emulator W) Z := GetEuid self.

Definition minus_one : Z := 2 ^ 32 - 1.

(** [SetUid], [SetEuid], [SetGid], [SetEgid]. *)
Definition SetUid (self : nat) (id : Z) : St (Emulator W) (res unit) :=
  s ← deref_state self;
  mret (if bool_decide (id ≠ uid (process_ s)) then Err EPERM else Ok tt).

(** [SetRuidEuid], [SetRuidEuidSuid] and those of groups: each number in turn, where -1
    leaves it.  The state is used only for a number that is not -1. *)
Fixpoint SetIds (self : nat) (ids : list Z) : St (Emulator W) (res unit) :=
  match ids with
  | [] => mret (Ok tt)
  | id :: ids =>
      if bool_decide (id ≠ minus_one) then
        s ← deref_state self;
        if bool_decide (id ≠ uid (process_ s)) then mret (Err EPERM) else SetIds self ids
      else SetIds self ids
  end.

(** *** Binder *)

Definition SetBinderEmulationFunctions (enterFunc : option (St W Z)) (exitFunc : option (Z → St W unit)) :
    St (Emulator W) unit :=
  check (match enterFunc, exitFunc with Some _, Some _ => true | _, _ => false end);;
  e ← get;
  check (match binder_enter_function_ e, binder_exit_function_ e with None, None => true | _, _ => false end);;
  put (mkEmulator (s_prev_pid e) (s_is_multi_threaded e) (s_fallback_uid e) (argv0_per_emulated_process_ e)
         (uid_per_emulated_process_ e) (update_producer_ e) (threads e) enterFunc exitFunc (binder_world e)).

(** An [int64_t]. *)
Definition GetPidToken (self : nat) (e : Emulator W) : Z :=
  Z.lor (Z.shiftl (GetPid self e) 32) (GetUid self e).

Definition on_binder {A} (m : St W A) : St (Emulator W) A := λ e,
  match m (binder_world e) with
  | Done (a, w) => Done (a, with_world w e)
  | Abort => Abort
  | NoFuel => NoFuel
  end.

Definition callee (pidToken : Z) : EmulatedProcessInfo :=
  mkProcess (to_signed 32 (Z.land (Z.shiftr pidToken 32) (2 ^ 32 - 1))) (Z.land pidToken (2 ^ 32 - 1)).

Definition EnterBinderCall (self : nat) (pidToken : Z) : St (Emulator W) bool :=
  state ← GetThreadState self;
  match state with
  | None => mret false
  | Some state =>
      if bool_decide (process_ state = callee pidToken) then mret false
      else
        e ← get;
        match binder_enter_function_ e with
        | Some enter =>
            cookie ← on_binder enter;
            set_thread self (PushBinderFrame (callee pidToken) true cookie state)
        | None => set_thread self (PushBinderFrame (callee pidToken) false 0 state)
        end;;
        mret true
  end.

Definition ExitBinderCall (self : nat) : St (Emulator W) unit :=
  state ← deref_state self;
  popped ← lift (PopBinderFrame state);
  set_thread self popped.2;;
  e ← get;
  match popped.1, binder_exit_function_ e with
  | Some cookie, Some exit => on_binder (exit cookie)
  | _, _ => mret tt
  end.

(** *** Names *)

Definition SetArgV0 (self : nat) (argv0 : str) : St (Emulator W) unit :=
  modify (λ e, with_argv0 (OrderedMap.assign (GetPid self e) argv0 (argv0_per_emulated_process_ e)) e).

Definition GetInfoByPid (pid : Z) (e : Emulator W) : option (str * Z) :=
  match OrderedMap.find pid (argv0_per_emulated_process_ e), OrderedMap.find pid (uid_per_emulated_process_ e) with
  | Some argv0, Some uid => Some (argv0, uid)
  | _, _ => None
  end.

(** *** Threads *)

Definition set_multi_threaded (e : Emulator W) : Emulator W :=
  mkEmulator (s_prev_pid e) true (s_fallback_uid e) (argv0_per_emulated_process_ e)
    (uid_per_emulated_process_ e) (update_producer_ e) (threads e) (binder_enter_function_ e)
    (binder_exit_function_ e) (binder_world e).

(** [UpdateAndAllocatePthreadCreateArgsIfNewEmulatedProcess] *)
Definition UpdateAndAllocatePthreadCreateArgs {A} (self : nat) (routine : A) : St (Emulator W) (start A) :=
  modify set_multi_threaded;;
  state ← GetThreadState self;
  match state with
  | None => mret (Original routine)
  | Some state =>
      let '(process, state) := GetAndClearThreadCreationProcess state in
      set_thread self state;;
      mret (ThreadStartWrapper process routine)
  end.

(** What runs first in the new thread. *)
Definition start_thread {A} (new : nat) (s : start A) : St (Emulator W) A :=
  match s with
  | Original routine => mret routine
  | ThreadStartWrapper process routine => InitProcessEmulatorTLS new process;; mret routine
  end.
End Emulator.
