(* ===== verification/ProcessProperties.v ===== *)
(** * ProcessProperties: the theorems on emulated processes

    Steps of any thread, what they keep, nested calls of Binder, the listing of
    processes, and the threads that a new process gets. *)

From S2P Require Import Prelude Util MountPoints OrderedMap ProcessEmulator.
Import UpdateTracking OrderedMapFacts.

#[local] Open Scope Z_scope.

(** A call of a method of the process with the number [token], and the calls that it makes. *)
Inductive binder_call : Type := BinderCall (token : Z) (inner : list binder_call).

Lemma binder_call_nested_ind (P : binder_call → Prop) :
  (∀ token inner, Forall P inner → P (BinderCall token inner)) → ∀ c, P c.
Proof.
  intros IH. fix call 1. intros [token inner]. apply IH. induction inner as [|c inner]; constructor; [apply call|done].
Qed.

(** Computations one after the other, with what all of them saw. *)
Definition in_order {S A} (ms : list (St S (list A))) : St S (list A) :=
  foldr (λ m ms, a ← m; b ← ms; mret (a ++ b)) (mret []) ms.

Lemma in_order_cons {S A} (m : St S (list A)) ms w :
  in_order (m :: ms) w =
  match m w with
  | Done (a, w1) =>
      match in_order ms w1 with Done (b, w2) => Done (a ++ b, w2) | Abort => Abort | NoFuel => NoFuel end
  | Abort => Abort
  | NoFuel => NoFuel
  end.
Proof. done. Qed.

Section Processes.
Context {W : Type}.
Implicit Types e : Emulator W.

Definition uid_of (p : Z) e : option Z := OrderedMap.find p (uid_per_emulated_process_ e).
Definition name_of (p : Z) e : option str := OrderedMap.find p (argv0_per_emulated_process_ e).

(** The process of threads without a state. *)
Definition init_process e : EmulatedProcessInfo := mkProcess kInitPid (s_fallback_uid e).

(** A process with the user that was recorded for it. *)
Definition recorded e (p : EmulatedProcessInfo) : Prop := uid_of (pid p) e = Some (uid p) ∨ p = init_process e.

(** ** Steps *)

(** A step of the thread [self].  The numbers given to Binder are those of a process. *)
Inductive process_step e : Emulator W → Prop :=
| step_first self u e' : 0 <= u < 2 ^ 32 → SetFirstEmulatedProcessThread self u e = Done (tt, e') → process_step e e'
| step_prepare self u p e' : 0 <= u < 2 ^ 32 → PrepareNewEmulatedProcess self u e = Done (p, e') → process_step e e'
| step_functions en ex e' : SetBinderEmulationFunctions en ex e = Done (tt, e') → process_step e e'
| step_enter self token b e' : recorded e (callee token) → EnterBinderCall self token e = Done (b, e') → process_step e e'
| step_exit self e' : ExitBinderCall self e = Done (tt, e') → process_step e e'
| step_name self argv0 e' : SetArgV0 self argv0 e = Done (tt, e') → process_step e e'
| step_create self (s : start unit) e' : UpdateAndAllocatePthreadCreateArgs self tt e = Done (s, e') → process_step e e'
| step_start self p e' : recorded e p → start_thread self (ThreadStartWrapper p tt) e = Done (tt, e') → process_step e e'
| step_end self e' : DestroyEmulatedProcessThreadState self e = Done (tt, e') → process_step e e'.

Definition reachable e : Prop := ∃ w, rtc process_step (Emulator_new w) e.

(** ** The invariant *)

Record state_ok e (s : ProcessEmulatorThreadState) : Prop := {
  so_process : recorded e (process_ s);
  so_creation : recorded e (thread_creation_process_ s);
  so_frames : Forall (λ f, recorded e (caller_ f)) (binder_frames_ s);
}.

Record process_ok e : Prop := {
  po_prev : kFirstPidMinusOne <= s_prev_pid e < 2 ^ 31;
  po_fallback : s_fallback_uid e = kSystemUid;
  po_argv : strict_keys (argv0_per_emulated_process_ e);
  po_uids : strict_keys (uid_per_emulated_process_ e);
  po_pids : ∀ p, is_Some (uid_of p e) ↔ kFirstPidMinusOne < p <= s_prev_pid e;
  po_names : ∀ p, is_Some (uid_of p e) → is_Some (name_of p e);
  po_named : ∀ p, is_Some (name_of p e) → is_Some (uid_of p e) ∨ p = kInitPid;
  po_range : ∀ p u, uid_of p e = Some u → 0 <= u < 2 ^ 32;
  po_threads : ∀ t s, threads e !! t = Some s → state_ok e s;
}.

(** What no step takes back. *)
Record later e e' : Prop := {
  la_prev : s_prev_pid e <= s_prev_pid e';
  la_uids : ∀ p u, uid_of p e = Some u → uid_of p e' = Some u;
  la_fallback : s_fallback_uid e' = s_fallback_uid e;
  la_names : ∀ p, is_Some (name_of p e) → is_Some (name_of p e');
}.

#[export] Instance later_preorder : PreOrder later.
Proof.
  split.
  - intros e. by split.
  - intros a b c [] []. split; [lia|eauto|congruence|eauto].
Qed.

Lemma recorded_later e e' p : later e e' → recorded e p → recorded e' p.
Proof.
  intros [_ Hu Hf _] [Hp| ->]; [left; by apply Hu|right]. unfold init_process. by rewrite Hf.
Qed.

Lemma state_ok_later e e' s : later e e' → state_ok e s → state_ok e' s.
Proof.
  intros Hl [H1 H2 H3]. split; try by eapply recorded_later.
  eapply Forall_impl; [exact H3|]. intros f. by apply recorded_later.
Qed.

(** *** Changes of the threads, and of the processes *)

Lemma process_ok_threads e t :
  process_ok e → (∀ i s, t !! i = Some s → state_ok e s) → process_ok (with_threads t e).
Proof. intros [] Ht. split; try done. intros i s Hi. destruct (Ht i s Hi). by split. Qed.

Lemma process_ok_thread e self s : process_ok e → state_ok e s → process_ok (with_threads (<[self := s]> (threads e)) e).
Proof.
  intros Hok Hs. apply process_ok_threads; [done|]. intros i s' [[_ <-]|[_ Hi]]%lookup_insert_Some; [done|].
  by apply (po_threads _ Hok i).
Qed.

Lemma process_ok_world e w : process_ok e → process_ok (with_world w e).
Proof. intros []. split; try done. intros i s Hi. destruct (po_threads0 i s Hi). by split. Qed.

Lemma later_threads e t : later e (with_threads t e).
Proof. by split. Qed.
Lemma later_world e w : later e (with_world w e).
Proof. by split. Qed.

Lemma allocate_run e u r e' :
  process_ok e → 0 <= u < 2 ^ 32 → AllocateNewPid u e = Done (r, e') →
  r = s_prev_pid e + 1 ∧ process_ok e' ∧ later e e' ∧ uid_of r e' = Some u ∧ uid_of r e = None ∧ threads e' = threads e.
Proof.
  intros Hok Hu. unfold AllocateNewPid, mbind, St_bind, get, check.
  destruct (Z.ltb_spec (s_prev_pid e) (2 ^ 31 - 1)) as [Hlt|]; [|done]. cbn. intros [= <- <-].
  destruct (Hok) as [Hprev Hfb Ha Hus Hp Hn Hnd Hr Ht].
  destruct (assign_spec (s_prev_pid e + 1) kDefaultProcessName _ Ha) as [Ha1 Ha2].
  destruct (assign_spec (s_prev_pid e + 1) u _ Hus) as [Hu1 Hu2].
  assert (uid_of (s_prev_pid e + 1) e = None) as Hnew by (apply eq_None_not_Some; rewrite Hp; lia).
  match goal with |- _ ∧ process_ok ?x ∧ _ => set (e1 := x) end.
  assert (∀ p, uid_of p e1 = if decide (p = s_prev_pid e + 1) then Some u else uid_of p e) as Huid by apply Hu2.
  assert (∀ p, name_of p e1 = if decide (p = s_prev_pid e + 1) then Some kDefaultProcessName else name_of p e) as Hname by apply Ha2.
  assert (later e e1) as Hlater.
  { split; [simpl; lia| |done|].
    - intros p v Hv. rewrite Huid. case_decide; [congruence|done].
    - intros p Hv. rewrite Hname. case_decide; [by eexists|done]. }
  split; [done|]. split; [|split; [done|split; [by rewrite Huid, decide_True|done]]].
  split; [simpl; lia|done|done|done|..].
  - intros p. rewrite Huid. case_decide as E; [|rewrite Hp]; simpl; [|lia]. split; [lia|by eexists].
  - intros p. rewrite Huid, Hname. case_decide; [by eexists|apply Hn].
  - intros p. rewrite Huid, Hname. case_decide; [by left; eexists|apply Hnd].
  - intros p v. rewrite Huid. case_decide; [by intros [= <-]|apply Hr].
  - intros i s Hi. eapply state_ok_later; [exact Hlater|by eapply Ht].
Qed.

(** *** Each step *)

Definition keeps e e' : Prop := process_ok e' ∧ later e e'.

Lemma state_ok_new e p : recorded e p → state_ok e (ThreadState_new p).
Proof. intros Hp. by split. Qed.

Lemma init_tls_keeps e self p e' :
  process_ok e → recorded e p → InitProcessEmulatorTLS self p e = Done (tt, e') → keeps e e'.
Proof.
  intros Hok Hp. unfold InitProcessEmulatorTLS, GetThreadState, mbind, St_bind, gets, check, set_thread, modify.
  case_bool_decide; [|done]. intros [= <-]. split; [|apply later_threads].
  apply process_ok_thread; [done|by apply state_ok_new].
Qed.

Lemma prepare_keeps e self u p e' :
  process_ok e → 0 <= u < 2 ^ 32 → PrepareNewEmulatedProcess self u e = Done (p, e') →
  ∃ s, threads e !! self = Some s ∧ HasSetNextThreadEmulatedProcess s = false ∧
    uid_of p e = None ∧ uid_of p e' = Some u ∧
    threads e' = <[self := SetNextThreadEmulatedProcess (mkProcess p u) s]> (threads e) ∧ keeps e e'.
Proof.
  intros Hok Hu. unfold PrepareNewEmulatedProcess, deref_state, GetThreadState, mbind, St_bind, gets, check.
  destruct (negb _) eqn:Euid; [|done]. destruct (threads e !! self) as [s|] eqn:Es; [|done].
  cbn [mret St_ret]. unfold mret, St_ret.
  destruct (HasSetNextThreadEmulatedProcess s) eqn:Enext; [done|]. cbn [negb]. unfold CreateNewEmulatedProcess, mbind, St_bind.
  destruct (AllocateNewPid u e) as [[r e1]| |] eqn:Ea; [|done..].
  destruct (allocate_run e u r e1 Hok Hu Ea) as (-> & Hok1 & Hl & Hnew & Hnone & Ht).
  unfold mret, St_ret, set_thread, modify. intros [= <- <-]. exists s.
  split; [done|]. split; [done|]. split; [done|]. split; [done|]. split; [cbn; by rewrite Ht|].
  destruct (state_ok_later _ _ _ Hl (po_threads _ Hok _ _ Es)) as [H1 H2 H3].
  split; [|etrans; [done|apply later_threads]].
  apply process_ok_thread; [done|]. split; [done|by left|done].
Qed.

Lemma on_binder_keeps {A} (m : St W A) e a e' : process_ok e → on_binder m e = Done (a, e') → keeps e e' ∧ threads e' = threads e.
Proof.
  intros Hok. unfold on_binder. destruct (m _) as [[b w]| |]; [|done..]. intros [= <- <-].
  split; [|done]. split; [by apply process_ok_world|apply later_world].
Qed.

Lemma enter_keeps e self token b e' :
  process_ok e → recorded e (callee token) → EnterBinderCall self token e = Done (b, e') → keeps e e'.
Proof.
  intros Hok Hc. unfold EnterBinderCall, GetThreadState, mbind, St_bind, gets.
  destruct (threads e !! self) as [s|] eqn:Es; [|intros [= <- <-]; by split].
  case_bool_decide; [intros [= <- <-]; by split|]. unfold get.
  pose proof (po_threads _ Hok _ _ Es) as [H1 H2 H3].
  assert (∀ h c, state_ok e (PushBinderFrame (callee token) h c s)) as Hpush
    by (intros h c; split; [done|done|by constructor]).
  destruct (binder_enter_function_ e) as [enter|].
  - destruct (on_binder enter e) as [[c e1]| |] eqn:Eb; [|done..].
    destruct (on_binder_keeps enter e c e1 Hok Eb) as [[Hok1 Hl] Ht].
    unfold set_thread, modify. intros [= <- <-]. split; [|etrans; [done|apply later_threads]].
    apply process_ok_thread; [done|]. by eapply state_ok_later.
  - unfold set_thread, modify. intros [= <- <-]. split; [|apply later_threads]. by apply process_ok_thread.
Qed.

Lemma exit_keeps e self e' : process_ok e → ExitBinderCall self e = Done (tt, e') → keeps e e'.
Proof.
  intros Hok. unfold ExitBinderCall, deref_state, GetThreadState, mbind, St_bind, gets.
  destruct (threads e !! self) as [s|] eqn:Es; [|done]. unfold mret, St_ret, lift, PopBinderFrame.
  destruct (binder_frames_ s) as [|f fs] eqn:Ef; [done|]. unfold set_thread, modify, get. cbn [fst snd].
  pose proof (po_threads _ Hok _ _ Es) as [H1 H2 H3]. rewrite Ef in H3. inversion H3 as [|?? Hf Hfs]; subst.
  set (e1 := with_threads _ e).
  assert (process_ok e1) as Hok1 by (apply process_ok_thread; [done|by split]).
  assert (keeps e e1) as Hk by (split; [done|apply later_threads]).
  destruct (if has_cookie_ f then Some (cookie_ f) else None) as [c|]; [|by intros [= <-]].
  destruct (binder_exit_function_ e1) as [exit|]; [|by intros [= <-]].
  intros Hb. destruct (on_binder_keeps _ _ _ _ Hok1 Hb) as [[Hok2 Hl] _]. split; [done|]. by etrans; [apply Hk|].
Qed.

Lemma name_keeps e self argv0 e' : process_ok e → SetArgV0 self argv0 e = Done (tt, e') → keeps e e'.
Proof.
  intros Hok. unfold SetArgV0, modify. intros [= <-].
  destruct (Hok) as [Hprev Hfb Ha Hus Hp Hn Hnd Hr Ht].
  destruct (assign_spec (GetPid self e) argv0 _ Ha) as [Ha1 Ha2].
  split; [|split; try done; intros p Hv; unfold name_of; cbn; rewrite Ha2; case_decide; [by eexists|done]].
  assert (is_Some (uid_of (GetPid self e) e) ∨ GetPid self e = kInitPid) as Hknown.
  { unfold GetPid, current. destruct (threads e !! self) as [s|] eqn:Es; [|by right].
    destruct (so_process _ _ (Ht _ _ Es)) as [Hu| ->]; [left; by eexists|by right]. }
  split; try done.
  - intros p Hu. unfold name_of. cbn. rewrite Ha2. case_decide; [by eexists|by apply Hn].
  - intros p. unfold name_of. cbn. rewrite Ha2. case_decide as E; [by rewrite E|apply Hnd].
  - intros i s Hi. destruct (Ht i s Hi). by split.
Qed.

Lemma create_keeps e self (s : start unit) e' :
  process_ok e → UpdateAndAllocatePthreadCreateArgs self tt e = Done (s, e') → keeps e e'.
Proof.
  intros Hok. unfold UpdateAndAllocatePthreadCreateArgs, GetThreadState, mbind, St_bind, gets, modify, set_thread.
  cbn [threads set_multi_threaded].
  assert (process_ok (set_multi_threaded e)) as Hok1.
  { destruct Hok. split; try done. intros i u Hi. destruct (po_threads0 i u Hi). by split. }
  assert (later e (set_multi_threaded e)) as Hl by by split.
  destruct (threads e !! self) as [st|] eqn:Es; [|intros [= <- <-]; by split].
  cbn. unfold modify, mret, St_ret. intros [= <- <-]. split; [|by split].
  apply (process_ok_thread (set_multi_threaded e)); [done|].
  destruct (po_threads _ Hok _ _ Es) as [H1 H2 H3]. by split.
Qed.

Lemma functions_keep e en ex e' : process_ok e → SetBinderEmulationFunctions en ex e = Done (tt, e') → keeps e e'.
Proof.
  intros Hok. unfold SetBinderEmulationFunctions, check, get, put, mbind, St_bind.
  destruct en, ex; try done. destruct (binder_enter_function_ e), (binder_exit_function_ e); try done.
  intros [= <-]. split; [|by split]. destruct Hok. split; try done. intros i th Hi. destruct (po_threads0 i th Hi). by split.
Qed.

Lemma step_keeps e e' : process_step e e' → process_ok e → keeps e e'.
Proof.
  intros [self u e1 Hu H|self u p e1 Hu H|en ex e1 H|self tk b e1 Hc H|self e1 H|self a e1 H|self s e1 H|self p e1 Hp H|self e1 H] Hok.
  - unfold SetFirstEmulatedProcessThread, CreateNewEmulatedProcess, mbind, St_bind in H.
    destruct (AllocateNewPid u e) as [[r e2]| |] eqn:Ea; [|done..].
    destruct (allocate_run e u r e2 Hok Hu Ea) as (_ & Hok2 & Hl & Hnew & _ & _).
    unfold mret, St_ret in H. destruct (init_tls_keeps e2 self (mkProcess r u) e1 Hok2 ltac:(by left) H) as [? ?].
    split; [done|]. by etrans.
  - by destruct (prepare_keeps e self u p e1 Hok Hu H) as (s & _ & _ & _ & _ & _ & Hk).
  - by eapply functions_keep.
  - by eapply enter_keeps.
  - by eapply exit_keeps.
  - by eapply name_keeps.
  - by eapply create_keeps.
  - unfold start_thread, mbind, St_bind in H.
    destruct (InitProcessEmulatorTLS self p e) as [[[] e2]| |] eqn:Ei; [|done..]. injection H as <-. by eapply init_tls_keeps.
  - unfold DestroyEmulatedProcessThreadState, modify in H. injection H as <-. split; [|apply later_threads].
    apply process_ok_threads; [done|]. intros i s [_ Hi]%lookup_delete_Some. by eapply po_threads.
Qed.

Lemma steps_keep e e' : rtc process_step e e' → process_ok e → keeps e e'.
Proof.
  induction 1 as [e|e e1 e' Hs _ IH]; intros Hok; [by split|].
  destruct (step_keeps e e1 Hs Hok) as [Hok1 Hl]. destruct (IH Hok1) as [? ?]. split; [done|]. by etrans.
Qed.

Lemma new_ok (w : W) : process_ok (Emulator_new w).
Proof.
  split; try done; cbn; try (by constructor).
  - intros p. split; [by intros []|]. unfold kFirstPidMinusOne. lia.
  - intros p. by intros [].
Qed.

Lemma processes_ok e : reachable e → process_ok e.
Proof. intros [w Hr]. by apply (steps_keep _ _ Hr), new_ok. Qed.

(** Numbers and users of processes.  Whatever the threads do from the start on, with
    numbers of processes as tokens: the recorded processes are those numbered from 201
    to the last number given, each with a name; the user of a process never changes,
    neither does its number come up again; and what a thread answers to [getpid] and
    [getuid] is always a process with the user recorded for it (or the init process),
    so that threads of the same process have the same user.  *)
Theorem process_numbers e e' t t' :
  reachable e → rtc process_step e e' →
  (∀ p, is_Some (uid_of p e) ↔ kFirstPidMinusOne < p <= s_prev_pid e) ∧
  (∀ p, is_Some (uid_of p e) → is_Some (GetInfoByPid p e)) ∧
  (∀ p u, uid_of p e = Some u → uid_of p e' = Some u) ∧
  recorded e' (current t e') ∧
  (GetPid t e' = GetPid t' e' → GetUid t e' = GetUid t' e').
Proof.
  intros He Hs. pose proof (processes_ok e He) as Hok. destruct (steps_keep _ _ Hs Hok) as [Hok' Hl].
  split; [apply Hok|]. split; [|split; [apply Hl|]].
  { intros p Hp. unfold GetInfoByPid. fold (uid_of p e) (name_of p e).
    destruct (po_names _ Hok p Hp) as [n ->]. destruct Hp as [u ->]. by eexists. }
  assert (∀ i, recorded e' (current i e')) as Hrec.
  { intros i. unfold current. destruct (threads e' !! i) as [s|] eqn:Es; [|by right].
    apply (so_process _ _ (po_threads _ Hok' _ _ Es)). }
  split; [done|]. unfold GetPid, GetUid. intros Hpid.
  assert (uid_of kInitPid e' = None) as Hinit.
  { apply eq_None_not_Some. rewrite (po_pids _ Hok'). unfold kInitPid, kFirstPidMinusOne. lia. }
  destruct (Hrec t) as [H1|H1], (Hrec t') as [H2|H2]; try congruence.
  - rewrite H2 in Hpid. cbn in Hpid. rewrite Hpid in H1. congruence.
  - rewrite H1 in Hpid. cbn in Hpid. rewrite <-Hpid in H2. congruence.
Qed.

(** ** The listing of processes *)

(** What a caller gets that starts with [GetFirstPid] and goes on with [GetNextPid]. *)
Fixpoint pids_from (fuel : nat) (p : Z) e : list Z :=
  match fuel with
  | O => []
  | Datatypes.S n => if p =? 0 then [] else p :: pids_from n (GetNextPid p e) e
  end.

(** The same, with steps of any threads before each call; [p] is the number that the
    caller got last. *)
Inductive listing : Z → Emulator W → list Z → Emulator W → Prop :=
| listing_end p e e' : rtc process_step e e' → GetNextPid p e' = 0 → listing p e [] e'
| listing_next p e e1 l e' :
    rtc process_step e e1 → GetNextPid p e1 ≠ 0 → listing (GetNextPid p e1) e1 l e' →
    listing p e (GetNextPid p e1 :: l) e'.

Lemma name_positive e p : process_ok e → is_Some (name_of p e) → 0 < p.
Proof.
  intros Hok Hp. destruct (po_named _ Hok p Hp) as [Hu| ->]; [|done].
  apply (po_pids _ Hok) in Hu. unfold kFirstPidMinusOne in Hu. lia.
Qed.

Lemma next_pid e p :
  process_ok e →
  if decide (GetNextPid p e = 0) then ∀ q, is_Some (name_of q e) → q <= p
  else p < GetNextPid p e ∧ is_Some (name_of (GetNextPid p e) e) ∧ ∀ q, is_Some (name_of q e) → p < q → GetNextPid p e <= q.
Proof.
  intros Hok. pose proof (next_spec p _ (po_argv _ Hok)) as Hn. unfold GetNextPid.
  destruct (OrderedMap.next p (argv0_per_emulated_process_ e)) as [x|]; cbn [from_option]; unfold id.
  - destruct Hn as (H1 & H2 & H3). pose proof (name_positive e x Hok H2). rewrite decide_False by lia. done.
  - by rewrite decide_True.
Qed.

Lemma listing_spec p e l e' :
  listing p e l e' → process_ok e →
  StronglySorted Z.lt l ∧ Forall (Z.lt p) l ∧ (∀ q, is_Some (name_of q e) → p < q → q ∈ l) ∧
  (∀ q, q ∈ l → is_Some (name_of q e')) ∧ keeps e e'.
Proof.
  induction 1 as [p e e' Hs Hz|p e e1 l e' Hs Hz Hl IH]; intros Hok;
    destruct (steps_keep _ _ Hs Hok) as [Hok1 Hla]; pose proof (next_pid _ p Hok1) as Hn.
  - rewrite decide_True in Hn by done. split; [constructor|]. split; [constructor|]. split; [|split; [|done]].
    + intros q Hq Hpq. apply (la_names _ _ Hla) in Hq. apply Hn in Hq. lia.
    + intros q []%elem_of_nil.
  - rewrite decide_False in Hn by done. destruct Hn as (H1 & H2 & H3), (IH Hok1) as (I1 & I2 & I3 & I4 & [I5 I6]).
    split; [by constructor|]. split; [constructor; [done|]; eapply Forall_impl; [exact I2|]; simpl; lia|].
    split; [|split].
    + intros q Hq Hpq. apply (la_names _ _ Hla) in Hq. pose proof (H3 q Hq Hpq).
      destruct (decide (q = GetNextPid p e1)) as [->|]; [by left|right]. apply I3; [done|lia].
    + intros q [->|Hq]%elem_of_cons; [by apply (la_names _ _ I6)|by apply I4].
    + split; [done|]. by etrans.
Qed.

(** A caller that lists without steps in between gets the keys. *)
Lemma pids_from_spec e fuel l p v :
  process_ok e → argv0_per_emulated_process_ e = l ++ p → (List.length p < fuel)%nat → Forall (λ kv, kv.1 <= v) l →
  above v p →
  pids_from fuel (GetNextPid v e) e = p.*1.
Proof.
  intros Hok. revert l v fuel. induction p as [|[x n] p IH]; intros l v fuel Ha Hf Hl Hp.
  - destruct fuel; [simpl in Hf; lia|]. cbn [pids_from]. unfold GetNextPid. rewrite Ha, next_upto by done. done.
  - destruct fuel as [|fuel]; [simpl in Hf; lia|]. cbn [pids_from]. inversion Hp as [|?? Hx Hp']; subst. cbn in Hx.
    assert (GetNextPid v e = x) as Hnext.
    { unfold GetNextPid. rewrite Ha, next_upto by done. cbn. by destruct (Z.ltb_spec v x); [|lia]. }
    pose proof (po_argv _ Hok) as Hsk. rewrite Ha in Hsk.
    assert (above x p) as Hab by (by apply strict_keys_above in Hsk).
    assert (0 < x) as Hpos.
    { apply (name_positive e); [done|]. unfold name_of. exists n. apply find_elem; [by rewrite Ha|].
      rewrite Ha. apply elem_of_app. right. by left. }
    rewrite Hnext. destruct (Z.eqb_spec x 0); [lia|]. cbn [fmap list_fmap fst]. f_equal.
    apply (IH (l ++ [(x, n)])); [by rewrite <-app_assoc|simpl in Hf; lia| |done].
    apply Forall_app. split; [|by repeat constructor]. eapply Forall_impl; [exact Hl|]. simpl. lia.
Qed.

Lemma all_above e : process_ok e → above 0 (argv0_per_emulated_process_ e).
Proof.
  intros Hok. apply Forall_forall. intros [x n] Hx. cbn. apply (name_positive e); [done|].
  unfold name_of. exists n. by apply find_elem; [apply Hok|].
Qed.

Lemma first_is_next e : process_ok e → GetFirstPid e = GetNextPid 0 e.
Proof.
  intros Hok. pose proof (all_above e Hok) as Hab. unfold GetFirstPid, GetNextPid.
  destruct (argv0_per_emulated_process_ e) as [|[x n] q]; [done|].
  cbn. inversion Hab as [|?? Hx _]; subst. cbn in Hx. by destruct x.
Qed.

Lemma first_pids e fuel :
  process_ok e → (List.length (argv0_per_emulated_process_ e) < fuel)%nat →
  pids_from fuel (GetFirstPid e) e = (argv0_per_emulated_process_ e).*1.
Proof.
  intros Hok Hf. rewrite first_is_next by done. by apply (pids_from_spec e fuel []); [done|done|done|done|apply all_above].
Qed.

(** The listing of processes.  A caller that starts with [GetFirstPid] and asks for
    the next number until it gets 0 is done after as many calls as there are names, with
    all of them in increasing order.  With other threads' steps between its calls it
    still gets increasing numbers, each of a named process, and misses none that had a
    name when it began. *)
Theorem listing_of_processes e l e' fuel :
  reachable e → (List.length (argv0_per_emulated_process_ e) < fuel)%nat → listing 0 e l e' →
  pids_from fuel (GetFirstPid e) e = (argv0_per_emulated_process_ e).*1 ∧
  GetFirstPid e = GetNextPid 0 e ∧
  StronglySorted Z.lt l ∧ (∀ p, is_Some (name_of p e) → p ∈ l) ∧ (∀ p, p ∈ l → is_Some (name_of p e')).
Proof.
  intros He Hf Hl. pose proof (processes_ok e He) as Hok.
  destruct (listing_spec _ _ _ _ Hl Hok) as (H1 & _ & H3 & H4 & _).
  split; [by apply first_pids|]. split; [by apply first_is_next|]. split; [done|]. split; [|done].
  intros p Hp. apply H3; [done|]. by apply (name_positive e).
Qed.
(** ** Calls of Binder *)

(** What Dalvik does for a call: enter, run the method, and exit if the answer of
    [EnterBinderCall] was to do so.  A method sees the process it runs in. *)
Fixpoint run_call (self : nat) (c : binder_call) : St (Emulator W) (list EmulatedProcessInfo) :=
  match c with
  | BinderCall token inner =>
      entered ← EnterBinderCall self token;
      e ← get;
      seen ← in_order (map (run_call self) inner);
      (if entered : bool then ExitBinderCall self else mret tt);;
      mret (current self e :: seen)
  end.

(** The contract: a method runs in the process it belongs to, a call leaves no trace, and
    a call into another process is between [enter] and [exit] with the cookie of this
    [enter]. *)
Section Scoped.
Context (enter : option (St W Z)) (exit : option (Z → St W unit)).

Definition enter_cookie : St W (option Z) :=
  match enter with Some f => c ← f; mret (Some c) | None => mret None end.

Definition exit_cookie (cookie : option Z) : St W unit :=
  match cookie, exit with Some c, Some f => f c | _, _ => mret tt end.

Fixpoint scoped_call (p : EmulatedProcessInfo) (c : binder_call) : St W (list EmulatedProcessInfo) :=
  match c with
  | BinderCall token inner =>
      let q := callee token in
      if bool_decide (p = q) then seen ← in_order (map (scoped_call p) inner); mret (q :: seen)
      else
        cookie ← enter_cookie;
        seen ← in_order (map (scoped_call q) inner);
        exit_cookie cookie;;
        mret (q :: seen)
  end.
End Scoped.

(** Whether a call from [p] leads to a call into another process. *)
Fixpoint switches (p : EmulatedProcessInfo) (c : binder_call) : bool :=
  match c with
  | BinderCall token inner => if bool_decide (p = callee token) then existsb (switches p) inner else true
  end.

(** The thread's state afterwards: a process that was prepared for the next thread is lost. *)
Definition returned (b : bool) (s : ProcessEmulatorThreadState) : ProcessEmulatorThreadState :=
  if b then SetNextThreadEmulatedProcess (process_ s) s else s.

Definition after_calls (self : nat) (s : ProcessEmulatorThreadState) (b : bool) e
    (r : outcome (list EmulatedProcessInfo * W)) : outcome (list EmulatedProcessInfo * Emulator W) :=
  match r with
  | Done (seen, w) => Done (seen, with_world w (with_threads (<[self := returned b s]> (threads e)) e))
  | Abort => Abort
  | NoFuel => NoFuel
  end.

Definition call_scoped (self : nat) (c : binder_call) : Prop := ∀ e s, threads e !! self = Some s →
  run_call self c e =
  after_calls self s (switches (process_ s) c) e
    (scoped_call (binder_enter_function_ e) (binder_exit_function_ e) (process_ s) c (binder_world e)).

Lemma with_same e self s : threads e !! self = Some s → with_world (binder_world e) (with_threads (<[self := s]> (threads e)) e) = e.
Proof. intros Hs. rewrite insert_id by done. by destruct e. Qed.

Lemma returned_twice a b s : returned b (returned a s) = returned (a || b) s.
Proof. by destruct a, b. Qed.

Lemma process_returned b s : process_ (returned b s) = process_ s.
Proof. by destruct b. Qed.

Lemma calls_scoped self cs : Forall (call_scoped self) cs → ∀ e s, threads e !! self = Some s →
  in_order (map (run_call self) cs) e =
  after_calls self s (existsb (switches (process_ s)) cs) e
    (in_order (map (scoped_call (binder_enter_function_ e) (binder_exit_function_ e) (process_ s)) cs) (binder_world e)).
Proof.
  induction 1 as [|c cs Hc _ IH]; intros e s Hs.
  { cbn. unfold mret, St_ret. cbn. by rewrite with_same. }
  cbn [map existsb]. rewrite !in_order_cons, (Hc e s Hs). unfold after_calls at 1.
  destruct (scoped_call _ _ _ c (binder_world e)) as [[a w]| |]; [|done..].
  rewrite (IH _ (returned (switches (process_ s) c) s)) by (cbn; by rewrite lookup_insert_eq).
  cbn [binder_enter_function_ binder_exit_function_ with_world with_threads binder_world].
  rewrite process_returned. unfold after_calls.
  destruct (in_order _ w) as [[b w']| |]; [|done..]. rewrite returned_twice. cbn.
  by rewrite insert_insert_eq.
Qed.

Lemma enter_run e self s token :
  threads e !! self = Some s → process_ s ≠ callee token →
  EnterBinderCall self token e =
  match enter_cookie (binder_enter_function_ e) (binder_world e) with
  | Done (c, w) =>
      Done (true, with_world w (with_threads
        (<[self := PushBinderFrame (callee token) (bool_decide (is_Some c)) (default 0 c) s]> (threads e)) e))
  | Abort => Abort
  | NoFuel => NoFuel
  end.
Proof.
  intros Hs Hne. unfold EnterBinderCall, GetThreadState, enter_cookie, mbind, St_bind, gets. rewrite Hs.
  rewrite bool_decide_false by done. unfold get. destruct (binder_enter_function_ e) as [f|].
  - unfold on_binder. by destruct (f (binder_world e)) as [[c w]| |].
  - unfold set_thread, modify, mret, St_ret. cbn. by destruct e.
Qed.

Lemma exit_run e self s f fs :
  threads e !! self = Some s → binder_frames_ s = f :: fs →
  ExitBinderCall self e =
  match exit_cookie (binder_exit_function_ e) (if has_cookie_ f then Some (cookie_ f) else None) (binder_world e) with
  | Done (_, w) =>
      Done (tt, with_world w (with_threads (<[self := mkThreadState (caller_ f) (caller_ f) fs]> (threads e)) e))
  | Abort => Abort
  | NoFuel => NoFuel
  end.
Proof.
  intros Hs Hf. unfold ExitBinderCall, deref_state, GetThreadState, exit_cookie, mbind, St_bind, gets. rewrite Hs.
  unfold mret, St_ret, lift, PopBinderFrame. rewrite Hf. unfold set_thread, modify, get. cbn [fst snd].
  destruct (if has_cookie_ f then Some (cookie_ f) else None) as [c|]; [|by destruct e].
  cbn [binder_exit_function_ with_threads].
  destruct (binder_exit_function_ e) as [g|]; [|by destruct e]. unfold on_binder. cbn.
  by destruct (g c (binder_world e)) as [[[] w]| |].
Qed.

Lemma every_call_scoped self c : call_scoped self c.
Proof.
  induction c as [token inner IH] using binder_call_nested_ind. intros e s Hs.
  cbn [run_call scoped_call switches]. unfold mbind, St_bind. case_bool_decide as Hp.
  - replace (EnterBinderCall self token e) with (@Done (bool * Emulator W) (false, e)).
    2: { unfold EnterBinderCall, GetThreadState, mbind, St_bind, gets. rewrite Hs. by rewrite bool_decide_true. }
    unfold get. rewrite (calls_scoped self inner IH e s Hs). unfold after_calls.
    destruct (in_order _ _) as [[seen w]| |]; [|done..]. unfold mret, St_ret, current. rewrite Hs. by rewrite <-Hp.
  - rewrite (enter_run e self s token Hs Hp). unfold get.
    destruct (enter_cookie _ _) as [[c w]| |]; [|done..].
    set (s1 := PushBinderFrame _ _ _ s). set (e1 := with_world w _).
    assert (threads e1 !! self = Some s1) as Hs1 by apply lookup_insert_eq.
    rewrite (calls_scoped self inner IH e1 s1 Hs1). unfold after_calls at 1.
    change (process_ s1) with (callee token). change (binder_world e1) with w.
    change (binder_enter_function_ e1) with (binder_enter_function_ e).
    change (binder_exit_function_ e1) with (binder_exit_function_ e).
    destruct (in_order _ w) as [[seen w']| |]; [|done..].
    set (b := existsb _ inner). set (e2 := with_world w' _).
    rewrite (exit_run e2 self (returned b s1) (mkFrame (process_ s) (bool_decide (is_Some c)) (default 0 c)) (binder_frames_ s));
      [|apply lookup_insert_eq|by destruct b].
    cbn [caller_ has_cookie_ cookie_]. change (binder_exit_function_ e2) with (binder_exit_function_ e).
    change (binder_world e2) with w'.
    replace (if bool_decide (is_Some c) then Some (default 0 c) else None) with c by (by destruct c).
    unfold after_calls. destruct (exit_cookie _ c w') as [[[] w'']| |]; [|done..].
    unfold mret, St_ret, current. rewrite Hs1. cbn. by rewrite !insert_insert_eq.
Qed.

(** C36.  Calls of Binder.  Whatever calls a thread makes, nested as they are: each method
    runs in the process of its token, afterwards the thread is in the process it was in,
    with the frames it had, and the functions of Binder have been called in pairs, around
    each call into another process, [exit] with what its own [enter] gave.  (A call into
    another process loses the process prepared with [PrepareNewEmulatedProcess].) *)
Theorem binder_calls_are_scoped self cs e s :
  threads e !! self = Some s →
  in_order (map (run_call self) cs) e =
  after_calls self s (existsb (switches (process_ s)) cs) e
    (in_order (map (scoped_call (binder_enter_function_ e) (binder_exit_function_ e) (process_ s)) cs) (binder_world e)).
Proof. apply calls_scoped, Forall_forall. intros c _. apply every_call_scoped. Qed.
(** ** Tokens *)

Lemma token_sum p u : 0 <= u < 2 ^ 32 → Z.lor (Z.shiftl p 32) u = p * 2 ^ 32 + u.
Proof.
  intros Hu. assert (Z.land (Z.shiftl p 32) u = 0) as H0.
  { apply Z.bits_inj'. intros n Hn. rewrite Z.land_spec, Z.bits_0, Z.shiftl_mul_pow2 by lia.
    destruct (Z.ltb_spec n 32) as [|Hge]; [by rewrite Z.mul_pow2_bits_low|].
    destruct (decide (u = 0)) as [->|]; [by rewrite Z.bits_0, andb_false_r|].
    rewrite (Z.bits_above_log2 u n); [by rewrite andb_false_r|lia|].
    apply Z.log2_lt_pow2; [lia|]. assert (2 ^ 32 <= 2 ^ n) by (apply Z.pow_le_mono_r; lia). lia. }
  by rewrite <-Z.lxor_lor, <-Z.add_nocarry_lxor, Z.shiftl_mul_pow2 by (done || lia).
Qed.

Lemma token_roundtrip p u : 0 <= p < 2 ^ 31 → 0 <= u < 2 ^ 32 → callee (Z.lor (Z.shiftl p 32) u) = mkProcess p u.
Proof.
  intros Hp Hu. rewrite token_sum by done.
  unfold callee. change (2 ^ 32 - 1) with (Z.ones 32). rewrite !Z.land_ones, Z.shiftr_div_pow2 by lia.
  rewrite Z.div_add_l, (Z.div_small u), Z.add_0_r by lia.
  rewrite (Z.add_comm _ u), Z_mod_plus_full, (Z.mod_small u), (Z.mod_small p) by lia. f_equal.
  apply to_signed_id; lia.
Qed.

Lemma recorded_range e p : process_ok e → recorded e p → 0 <= pid p < 2 ^ 31 ∧ 0 <= uid p < 2 ^ 32.
Proof.
  intros Hok [Hp| ->].
  - pose proof (po_range _ Hok _ _ Hp). assert (is_Some (uid_of (pid p) e)) as Hs by (by eexists).
    apply (po_pids _ Hok) in Hs. pose proof (po_prev _ Hok). unfold kFirstPidMinusOne in *. lia.
  - cbn. rewrite (po_fallback _ Hok). unfold kInitPid, kSystemUid. lia.
Qed.

Lemma recorded_current e t : process_ok e → recorded e (current t e).
Proof.
  intros Hok. unfold current. destruct (threads e !! t) as [s|] eqn:Es; [|by right].
  apply (so_process _ _ (po_threads _ Hok _ _ Es)).
Qed.

(** The token of a process.  The number that a thread hands out with [GetPidToken]
    stands for the process it is in, for no other, and fits an [int64_t]; another thread
    that enters a call with it is then in that process (and is told to leave it again if it
    was not there before). *)
Theorem pid_token_roundtrip e t t' :
  reachable e →
  0 <= GetPidToken t e < 2 ^ 63 ∧
  callee (GetPidToken t e) = current t e ∧
  (GetPidToken t e = GetPidToken t' e ↔ current t e = current t' e) ∧
  (∀ b e', EnterBinderCall t' (GetPidToken t e) e = Done (b, e') →
     is_Some (threads e !! t') → current t' e' = current t e ∧ b = bool_decide (current t' e ≠ current t e)).
Proof.
  intros He. pose proof (processes_ok e He) as Hok.
  assert (∀ i, callee (GetPidToken i e) = current i e) as Hcallee.
  { intros i. destruct (recorded_range e _ Hok (recorded_current e i Hok)) as [Hp Hu].
    unfold GetPidToken, GetPid, GetUid. rewrite token_roundtrip by done. by destruct (current i e). }
  split; [|split; [done|split]].
  - destruct (recorded_range e _ Hok (recorded_current e t Hok)) as [Hp Hu].
    unfold GetPidToken, GetPid, GetUid. rewrite token_sum by done. lia.
  - split; [|by intros H; unfold GetPidToken, GetPid, GetUid; rewrite H].
    intros H. by rewrite <-(Hcallee t), H, Hcallee.
  - intros b e' Hr [s Hs]. assert (current t' e = process_ s) as Hc by (unfold current; by rewrite Hs).
    destruct (decide (process_ s = callee (GetPidToken t e))) as [Heq|Hne].
    + rewrite bool_decide_false by (rewrite Hc, <-Hcallee; tauto).
      unfold EnterBinderCall, GetThreadState, mbind, St_bind, gets in Hr. rewrite Hs in Hr.
      rewrite bool_decide_true in Hr by done. injection Hr as <- <-. by rewrite Hc, Heq, Hcallee.
    + rewrite (enter_run e t' s _ Hs Hne) in Hr. destruct (enter_cookie _ _) as [[c w]| |]; [|done..].
      injection Hr as <- <-. rewrite (bool_decide_true (current t' e ≠ _)) by (by rewrite Hc, <-Hcallee). split; [|done].
      unfold current at 1. cbn. by rewrite lookup_insert_eq, <-Hcallee.
Qed.
(** ** New processes *)

Definition known_user (u : Z) : Prop := u = 0 ∨ kMinUid <= u < 2 ^ 32.

Lemma prepare_run e self s u :
  process_ok e → threads e !! self = Some s → HasSetNextThreadEmulatedProcess s = false → known_user u →
  s_prev_pid e < 2 ^ 31 - 1 →
  ∃ e', PrepareNewEmulatedProcess self u e = Done (s_prev_pid e + 1, e') ∧ keeps e e' ∧
    uid_of (s_prev_pid e + 1) e' = Some u ∧
    threads e' = <[self := SetNextThreadEmulatedProcess (mkProcess (s_prev_pid e + 1) u) s]> (threads e).
Proof.
  intros Hok Hs Hn Hu Hp.
  assert (∃ e', PrepareNewEmulatedProcess self u e = Done (s_prev_pid e + 1, e')) as [e' He].
  { unfold PrepareNewEmulatedProcess, deref_state, GetThreadState, mbind, St_bind, gets, check.
    replace (negb _) with true; [|symmetry; apply negb_true_iff, andb_false_iff].
    2: { destruct Hu as [->|Hu]; [by left|right]. apply Z.ltb_ge. unfold kMinUid in *. lia. }
    rewrite Hs. unfold mret, St_ret. rewrite Hn. cbn [negb].
    unfold CreateNewEmulatedProcess, AllocateNewPid, mbind, St_bind, get, check.
    destruct (Z.ltb_spec (s_prev_pid e) (2 ^ 31 - 1)); [|lia]. by eexists. }
  exists e'. split; [done|].
  destruct (prepare_keeps e self u _ e' Hok ltac:(unfold known_user, kMinUid in Hu; lia) He) as (s' & H1 & _ & _ & H2 & H3 & H4).
  simplify_eq. done.
Qed.

Lemma create_thread_run {A} e self s (r : A) :
  threads e !! self = Some s →
  UpdateAndAllocatePthreadCreateArgs self r e =
  Done (ThreadStartWrapper (thread_creation_process_ s) r,
        with_threads (<[self := SetNextThreadEmulatedProcess (process_ s) s]> (threads e)) (set_multi_threaded e)).
Proof.
  intros Hs. unfold UpdateAndAllocatePthreadCreateArgs, GetThreadState, mbind, St_bind, gets, modify. cbn [threads set_multi_threaded].
  by rewrite Hs.
Qed.

Lemma start_thread_run {A} e new p (r : A) :
  threads e !! new = None →
  start_thread new (ThreadStartWrapper p r) e = Done (r, with_threads (<[new := ThreadState_new p]> (threads e)) e).
Proof.
  intros Hn. unfold start_thread, InitProcessEmulatorTLS, GetThreadState, mbind, St_bind, gets, check.
  by rewrite bool_decide_true.
Qed.

(** The creator prepares a process and creates two threads, which start. *)
Definition two_new_threads (self new1 new2 : nat) (u : Z) : St (Emulator W) Z :=
  p ← PrepareNewEmulatedProcess self u;
  s1 ← UpdateAndAllocatePthreadCreateArgs self tt;
  s2 ← UpdateAndAllocatePthreadCreateArgs self tt;
  start_thread new1 s1;;
  start_thread new2 s2;;
  mret p.

(** A prepared process gets one thread.  [PrepareNewEmulatedProcess] gives a new
    number, recorded with the user asked for; preparing a second process before a thread
    was created is fatal; of the threads created then the first starts in the new process
    and the next ones, like the creator, in the creator's. *)
Theorem new_process_gets_one_thread self new1 new2 e s u :
  reachable e → threads e !! self = Some s → HasSetNextThreadEmulatedProcess s = false → known_user u →
  s_prev_pid e < 2 ^ 31 - 1 → threads e !! new1 = None → threads e !! new2 = None → new1 ≠ new2 →
  uid_of (s_prev_pid e + 1) e = None ∧
  (∃ e1, PrepareNewEmulatedProcess self u e = Done (s_prev_pid e + 1, e1) ∧
     ∀ u2, PrepareNewEmulatedProcess self u2 e1 = Abort) ∧
  ∃ e', two_new_threads self new1 new2 u e = Done (s_prev_pid e + 1, e') ∧
    current new1 e' = mkProcess (s_prev_pid e + 1) u ∧ uid_of (s_prev_pid e + 1) e' = Some u ∧
    current new2 e' = current self e ∧ current self e' = current self e ∧
    ∀ t, t ≠ new1 → t ≠ new2 → current t e' = current t e.
Proof.
  intros He Hs Hn Hu Hp Hn1 Hn2 Hne. pose proof (processes_ok e He) as Hok.
  destruct (prepare_run e self s u Hok Hs Hn Hu Hp) as (e1 & Hr & [Hok1 Hl] & Hu1 & Ht1).
  assert (new1 ≠ self ∧ new2 ≠ self) as [Hs1 Hs2] by (split; intros ->; congruence).
  assert (is_Some (uid_of (pid (process_ s)) e) ∨ pid (process_ s) = kInitPid) as Hself.
  { destruct (so_process _ _ (po_threads _ Hok _ _ Hs)) as [?| ->]; [left; by eexists|by right]. }
  assert (pid (process_ s) ≠ s_prev_pid e + 1) as Hfresh.
  { rewrite (po_pids _ Hok) in Hself. pose proof (po_prev _ Hok). unfold kInitPid, kFirstPidMinusOne in *. lia. }
  split; [apply eq_None_not_Some; rewrite (po_pids _ Hok); lia|]. split.
  - exists e1. split; [done|]. intros u2. unfold PrepareNewEmulatedProcess, deref_state, GetThreadState, mbind, St_bind, gets, check.
    destruct (negb _); [|done]. rewrite Ht1, lookup_insert_eq. unfold mret, St_ret.
    unfold HasSetNextThreadEmulatedProcess. cbn. by rewrite bool_decide_true.
  - unfold two_new_threads, mbind, St_bind. rewrite Hr.
    erewrite create_thread_run by (rewrite Ht1; apply lookup_insert_eq).
    erewrite create_thread_run by apply lookup_insert_eq.
    rewrite start_thread_run; [|cbn; rewrite !lookup_insert_ne by done; by rewrite Ht1, lookup_insert_ne].
    rewrite start_thread_run; [|cbn; rewrite !lookup_insert_ne by done; by rewrite Ht1, lookup_insert_ne].
    eexists. split; [done|]. unfold current, uid_of. cbn. split_and!.
    + by rewrite lookup_insert_ne, lookup_insert_eq.
    + done.
    + by rewrite lookup_insert_eq, Hs.
    + by rewrite !lookup_insert_ne, lookup_insert_eq, Hs by done.
    + intros t Ht Ht'. rewrite !(lookup_insert_ne _ _ t) by done. destruct (decide (t = self)) as [->|Ht0].
      * by rewrite lookup_insert_eq, Hs.
      * rewrite !lookup_insert_ne, Ht1, lookup_insert_ne by done. by rewrite (la_fallback _ _ Hl).
Qed.
End Processes.

(** ** Witnesses *)

Module ProcessWitness.
(** The functions of Binder: [enter] gives the number of calls so far, [exit] logs its cookie. *)
Definition enter : St (list Z) Z := λ w, Done (Z.of_nat (List.length w), w).
Definition exit (c : Z) : St (list Z) unit := λ w, Done (tt, w ++ [c]).

Definition state {A} (d : Emulator (list Z)) (r : outcome (A * Emulator (list Z))) : Emulator (list Z) :=
  match r with Done (_, e) => e | _ => d end.

Definition fresh : Emulator (list Z) := Emulator_new [].
Definition first : Emulator (list Z) := state fresh (SetFirstEmulatedProcessThread 0 1000 fresh).
Definition ready : Emulator (list Z) := state first (SetBinderEmulationFunctions (Some enter) (Some exit) first).
Definition prepared : Emulator (list Z) := state ready (PrepareNewEmulatedProcess 0 10001 ready).

Lemma ready_reachable : reachable ready.
Proof.
  exists []. apply (rtc_l _ _ first); [|apply rtc_once].
  - by apply (step_first _ 0 1000).
  - by apply (step_functions _ (Some enter) (Some exit)).
Qed.

Lemma prepared_step : process_step ready prepared.
Proof. by apply (step_prepare _ 0 10001 202). Qed.

Lemma process_numbers_witness :
  recorded prepared (current 0 prepared) ∧ uid_of 201 prepared = Some 1000.
Proof.
  destruct (process_numbers ready prepared 0 1 ready_reachable (rtc_once _ _ prepared_step)) as (_ & _ & H3 & H4 & _).
  split; [exact H4|]. apply H3. vm_compute. reflexivity.
Defined.

Lemma listing_of_processes_witness : 201 ∈ [201; 202] ∧ pids_from 2 (GetFirstPid ready) ready = [201].
Proof.
  assert (listing 0 ready [201; 202] prepared) as Hl.
  { apply (listing_next 0 ready ready [202] prepared); [done|done|].
    apply (listing_next 201 ready prepared [] prepared); [apply rtc_once, prepared_step|done|].
    by apply listing_end. }
  destruct (listing_of_processes ready [201; 202] prepared 2 ready_reachable ltac:(vm_compute; lia) Hl) as (H1 & _ & _ & H4 & _).
  split; [apply H4; vm_compute; by eexists|exact H1].
Defined.

(** A call into process 300 that calls back and into 301. *)
Definition token (p : Z) : Z := p * 2 ^ 32 + 1000.
Definition calls : list binder_call :=
  [BinderCall (token 300) [BinderCall (token 201) []; BinderCall (token 301) []]; BinderCall (token 201) []].

Lemma binder_calls_are_scoped_witness :
  ∃ e', in_order (map (run_call 0) calls) ready = Done (map (λ p, mkProcess p 1000) [300; 201; 301; 201], e') ∧
    binder_world e' = [0; 1; 0] ∧ current 0 e' = mkProcess 201 1000.
Proof.
  pose proof (binder_calls_are_scoped 0 calls ready (ThreadState_new (mkProcess 201 1000)) eq_refl) as H.
  eexists. split; [rewrite H; vm_compute; reflexivity|]. split; vm_compute; reflexivity.
Defined.

Lemma pid_token_roundtrip_witness : callee (GetPidToken 0 ready) = mkProcess 201 1000.
Proof. destruct (pid_token_roundtrip ready 0 1 ready_reachable) as (_ & H & _). exact H. Defined.

Lemma new_process_gets_one_thread_witness :
  ∃ e', two_new_threads 0 1 2 10001 ready = Done (202, e') ∧ current 1 e' = mkProcess 202 10001.
Proof.
  assert (threads ready !! 0%nat = Some (ThreadState_new (mkProcess 201 1000))) as H0 by (vm_compute; reflexivity).
  assert (known_user 10001) as Hu by (right; unfold kMinUid; lia).
  assert (s_prev_pid ready = 201) as Hp by (vm_compute; reflexivity).
  assert (s_prev_pid ready < 2 ^ 31 - 1) as Hlt by (rewrite Hp; lia).
  assert (threads ready !! 1%nat = None) as H1 by (vm_compute; reflexivity).
  assert (threads ready !! 2%nat = None) as H2 by (vm_compute; reflexivity).
  pose proof (new_process_gets_one_thread 0 1 2 ready _ 10001 ready_reachable H0 eq_refl Hu Hlt H1 H2 ltac:(done))
    as (_ & _ & e' & H3 & H4 & _).
  rewrite Hp in H3, H4. exists e'. split; [exact H3|exact H4].
Defined.
End ProcessWitness.
