(* ===== verification/MemoryRegion.v ===== *)
(** * MemoryRegion: [memory_region.{h,cc}] (under src/posix_translation/)

    The map of memory-mapped files.  [map_] is a [std::map] from addresses to
    values in which an even address starts a region and an odd one ends it; it is
    modelled by the list of its elements in key order, and an iterator by the key
    it points to ([None] is [end()]).  The specification is a list of disjoint
    intervals ([region]); [encode] gives the map of a list of regions.  What the
    code reads from streams, and the results of the virtual calls it makes on
    them, are parameters; the calls are recorded in [made]. *)

From S2P Require Import Prelude OrderedMap FileStream.

Import OrderedMap.

#[local] Open Scope Z_scope.

(** ** Data *)

Record PageMapValue : Type := mkPageMapValue { ref : Z; offset : Z; stream : option sid }.

#[export] Instance page_map_value_eq_dec : EqDecision PageMapValue.
Proof. solve_decision. Defined.

Abbreviation PageToStream := (list (Z * PageMapValue)).

(** The virtual calls on streams. *)
Inductive mcall : Type :=
| CallMunmap (s : sid) (addr length : Z)
| CallOnUnmapByOverwritingMmap (s : sid) (addr length : Z)
| CallMadvise (s : sid) (addr length advice : Z)
| CallMprotect (s : sid) (addr length prot : Z).

#[export] Instance mcall_eq_dec : EqDecision mcall.
Proof. solve_decision. Defined.

Record MemoryRegion : Type := mkMemoryRegion {
  map_ : PageToStream;
  abort_on_unexpected_memory_maps_ : bool;
  write_mapped_ : gset Z;
  made : list mcall;
}.

Definition set_map (m : PageToStream) (r : MemoryRegion) : MemoryRegion :=
  {| map_ := m; abort_on_unexpected_memory_maps_ := abort_on_unexpected_memory_maps_ r;
     write_mapped_ := write_mapped_ r; made := made r |}.

Definition set_write_mapped (s : gset Z) (r : MemoryRegion) : MemoryRegion :=
  {| map_ := map_ r; abort_on_unexpected_memory_maps_ := abort_on_unexpected_memory_maps_ r;
     write_mapped_ := s; made := made r |}.

Definition record (c : mcall) (r : MemoryRegion) : MemoryRegion :=
  {| map_ := map_ r; abort_on_unexpected_memory_maps_ := abort_on_unexpected_memory_maps_ r;
     write_mapped_ := write_mapped_ r; made := made r ++ [c] |}.

(** Linux values. *)
Definition PROT_WRITE : Z := 2.
Definition MAP_FIXED : Z := 16.
Definition kTextEndAddress : Z := 256 * 1024 * 1024.

Definition flag (x f : Z) : bool := negb (Z.land x f =? 0).

Definition IsPageEndAddress (addr : Z) : bool := negb (Z.land addr 1 =? 0).

(** What a stream must provide: its path, its inode, whether its [mmap] returns
    the same address again, and the results of the calls made on it: 0 is
    [Ok 0], a negative result [Err errno], a positive one [Ok n]. *)
Record stream_ops : Type := mkStreamOps {
  pathname : sid → str;
  inode : sid → Z;
  ReturnsSameAddressForMultipleMmaps : sid → bool;
  munmap_result : sid → Z → Z → bool;
  madvise_result : sid → Z → Z → Z → res Z;
  mprotect_result : sid → Z → Z → Z → bool;
}.

Section MemoryRegion.
Context (ops : stream_ops).
Import OrderedMap.

(** The value of the region that is exactly [addr, addr + length). *)
Definition FindRegion (addr length : Z) (m : PageToStream) : outcome (option PageMapValue) :=
  match find addr m with
  | None => mret None
  | Some v =>
      match next addr m with
      | None => Abort
      | Some end_key =>
          if end_key =? addr + length - 1 then mret (Some v) else mret None
      end
  end.

Definition IsOverlap (begin_key end_key : Z) (m : PageToStream) : outcome bool :=
  if negb (Nat.eqb (distance begin_key end_key m) 1) then mret true
  else
    let previous := prev begin_key m in
    if match previous with Some p => negb (IsPageEndAddress p) | None => false end
    then mret true
    else
      match next end_key m with
      | Some n => require (negb (IsPageEndAddress n)) ≫= λ _, mret false
      | None => mret false
      end.

(** The checks on a region that is mapped already, then [++(region->ref)]. *)
Definition add_same_region (addr : Z) (region : PageMapValue) (flags : Z) (s : sid) :
    St MemoryRegion bool :=
  r ← get;
  match stream region with
  | None => fatal
  | Some rs =>
      let same := bool_decide (pathname ops s = pathname ops rs) in
      (if abort_on_unexpected_memory_maps_ r then
         check (negb (flag flags MAP_FIXED));;
         check (ReturnsSameAddressForMultipleMmaps ops s);;
         check (ReturnsSameAddressForMultipleMmaps ops rs);;
         check same
       else mret tt);;
      if flag flags MAP_FIXED || negb (ReturnsSameAddressForMultipleMmaps ops s)
         || negb (ReturnsSameAddressForMultipleMmaps ops rs) || negb same
      then mret false
      else
        modify (λ r, set_map (update addr {| ref := ref region + 1; offset := offset region;
                                             stream := stream region |} (map_ r)) r);;
        mret true
  end.

Definition add_new_region (addr length off prot : Z) (s : option sid) :
    St MemoryRegion bool :=
  r ← get;
  let value := {| ref := 1; offset := off; stream := s |} in
  let '(m1, ok1) := insert addr value (map_ r) in
  if negb ok1 then mret false
  else
    let addr_end := addr + length - 1 in
    check (IsPageEndAddress addr_end);;
    let '(m2, ok2) := insert addr_end value m1 in
    if negb ok2 then modify (set_map (erase addr m2));; mret false
    else
      overlap ← lift (IsOverlap addr addr_end m2);
      if (overlap : bool) then modify (set_map (erase addr_end (erase addr m2)));; mret false
      else
        modify (set_map m2);;
        match s with
        | Some s =>
            if flag prot PROT_WRITE
            then modify (λ r, set_write_mapped ({[inode ops s]} ∪ write_mapped_ r) r)
            else mret tt
        | None => mret tt
        end;;
        mret true.

Definition AddFileStreamByAddr (addr length off prot flags : Z) (s : option sid) :
    St MemoryRegion bool :=
  check (negb (IsPageEndAddress addr) && (length mod 2 =? 0));;
  if length =? 0 then mret false
  else
    match s with
    | Some s' =>
        r ← get;
        region ← lift (FindRegion addr length (map_ r));
        match region with
        | Some region => add_same_region addr region flags s'
        | None => add_new_region addr length off prot s
        end
    | None => add_new_region addr length off prot s
    end.

Definition RemoveOneRegion (value : PageMapValue)
    (remove_start remove_end region_start region_end : Z) (m : PageToStream) :
    outcome PageToStream :=
  require (negb (IsPageEndAddress remove_start)) ≫= λ _,
  require (IsPageEndAddress remove_end) ≫= λ _,
  require (negb (IsPageEndAddress region_start)) ≫= λ _,
  require (IsPageEndAddress region_end) ≫= λ _,
  let new_region_right_start := remove_end + 1 in
  let new_region_right_len := region_end - new_region_right_start + 1 in
  require (0 <=? new_region_right_len) ≫= λ _,
  let new_region_left_end := remove_start - 1 in
  let new_region_left_len := new_region_left_end - region_start + 1 in
  require (0 <=? new_region_left_len) ≫= λ _,
  m ← (if 0 <? new_region_left_len then
         require (IsPageEndAddress new_region_left_end) ≫= λ _,
         let '(m, result) := insert new_region_left_end value m in
         require result ≫= λ _, mret m
       else
         require (bool_decide (is_Some (find region_start m))) ≫= λ _,
         mret (erase region_start m));
  if 0 <? new_region_right_len then
    require (negb (IsPageEndAddress new_region_right_start)) ≫= λ _,
    let '(m, result) := insert new_region_right_start value m in
    require result ≫= λ _, mret m
  else
    require (bool_decide (is_Some (find region_end m))) ≫= λ _,
    mret (erase region_end m).

(** Telling the stream, in a NaCl build. *)
Definition unmap_stream (call_munmap : bool) (s : sid) (addr length : Z) : St MemoryRegion unit :=
  if call_munmap then
    modify (record (CallMunmap s addr length));;
    if munmap_result ops s addr length then mret tt
    else if addr <? kTextEndAddress then mret tt
    else fatal
  else modify (record (CallOnUnmapByOverwritingMmap s addr length)).

(** The loop over the regions from the iterator [it]; [found] is
    [is_region_found]. *)
Fixpoint remove_loop (fuel : nat) (call_munmap : bool) (remove_start remove_end : Z)
    (it : option Z) (found : bool) : St MemoryRegion (res bool) :=
  match fuel with
  | O => λ _, NoFuel
  | Datatypes.S fuel =>
      match it with
      | None => mret (Ok found)
      | Some region_start =>
          r ← get;
          match find region_start (map_ r), next region_start (map_ r) with
          | Some region, Some region_end =>
              if remove_end <? region_start then mret (Ok found)
              else
                check (negb (abort_on_unexpected_memory_maps_ r) || (ref region =? 1));;
                if 1 <? ref region then mret (Err ENOSYS)
                else
                  let remove_start_in_region := Z.max remove_start region_start in
                  let remove_end_in_region := Z.min remove_end region_end in
                  let it := next region_end (map_ r) in
                  let value := {| ref := 1; offset := offset region; stream := stream region |} in
                  m ← lift (RemoveOneRegion value remove_start_in_region remove_end_in_region
                              region_start region_end (map_ r));
                  modify (set_map m);;
                  match stream region with
                  | Some s =>
                      unmap_stream call_munmap s remove_start_in_region
                        (remove_end_in_region - remove_start_in_region + 1)
                  | None => mret tt
                  end;;
                  check (match it with None => true | Some k => negb (IsPageEndAddress k) end);;
                  remove_loop fuel call_munmap remove_start remove_end it true
          | _, _ => fatal
          end
      end
  end.

(** The first region that may overlap: [lower_bound], then one back when it is
    the end of a region. *)
Definition first_region (addr : Z) (m : PageToStream) : outcome (option Z) :=
  match lower_bound addr m with
  | None => mret None
  | Some k =>
      if IsPageEndAddress k then
        match prev k m with Some p => mret (Some p) | None => Abort end
      else mret (Some k)
  end.

Definition remove_overlapping (addr length : Z) (call_munmap : bool) :
    St MemoryRegion (res unit) :=
  r ← get;
  it ← lift (first_region addr (map_ r));
  found ← remove_loop (Datatypes.S (List.length (map_ r))) call_munmap addr
            (addr + length - 1) it false;
  mret (match (found : res bool) with Err e => Err e | Ok f => if f then Ok tt else Err ENOSYS end).

(** [remove_end] is [addr + length - 1] as an integer, which is the pointer of the code
    for a range that ends in the address space; past it, pointer arithmetic is
    undefined. *)
Definition RemoveFileStreamsByAddr (addr length : Z) (call_munmap : bool) :
    St MemoryRegion (res unit) :=
  check (negb (IsPageEndAddress addr) && (length mod 2 =? 0));;
  if length =? 0 then mret (Err EINVAL)
  else
    r ← get;
    region ← lift (FindRegion addr length (map_ r));
    match region with
    | Some region =>
        if 1 <? ref region then
          modify (λ r, set_map (update addr {| ref := ref region - 1; offset := offset region;
                                               stream := stream region |} (map_ r)) r);;
          mret (Ok tt)
        else remove_overlapping addr length call_munmap
    | None => remove_overlapping addr length call_munmap
    end.

(** [PageMapVisitor::Visit], with the visitor's state [A]: [false] ends the
    walk. *)
Definition visit (A : Type) : Type := PageMapValue → sid → Z → Z → St (A * MemoryRegion) bool.

Fixpoint call_loop {A} (visitor : visit A) (m : PageToStream) (start_addr end_addr : Z)
    (fuel : nat) (it : option Z) : St (A * MemoryRegion) unit :=
  match fuel with
  | O => λ _, NoFuel
  | Datatypes.S fuel =>
      match it with
      | None => mret tt
      | Some region_start =>
          match find region_start m, next region_start m with
          | Some page_map, Some region_end =>
              if end_addr <? region_start then mret tt
              else
                go_on ← match stream page_map with
                        | Some s => visitor page_map s (Z.max start_addr region_start)
                                            (Z.min end_addr region_end)
                        | None => mret true
                        end;
                if (go_on : bool) then
                  let it := next region_end m in
                  check (match it with None => true | Some k => negb (IsPageEndAddress k) end);;
                  call_loop visitor m start_addr end_addr fuel it
                else mret tt
          | _, _ => fatal
          end
      end
  end.

Definition CallByAddr {A} (visitor : visit A) (addr length : Z) : St (A * MemoryRegion) unit :=
  check (length mod 2 =? 0);;
  check (negb (IsPageEndAddress addr));;
  s ← get;
  it ← lift (first_region addr (map_ s.2));
  call_loop visitor (map_ s.2) addr (addr + length - 1)
    (Datatypes.S (List.length (map_ s.2))) it.

(** [AdviseVisitor]: [visited_] and [errno_]. *)
Definition AdviseVisitor_Visit (advice : Z) : visit (bool * option errno) :=
  λ (_ : PageMapValue) (s : sid) (start_addr end_addr : Z)
    (st : bool * option errno * MemoryRegion),
  let len := end_addr - start_addr + 1 in
  let '((visited, err), r) := st in
  let r := record (CallMadvise s start_addr len advice) r in
  match madvise_result ops s start_addr len advice with
  | Err e => Done (false, ((true, Some e), r))
  | Ok n => if n =? 0 then Done (true, ((true, err), r)) else Abort
  end.

Definition SetAdviceByAddr (addr length advice : Z) : St MemoryRegion (res unit) :=
  if length =? 0 then mret (Ok tt)
  else λ r,
    match CallByAddr (AdviseVisitor_Visit advice) addr length ((false, None), r) with
    | Done (_, ((visited, err), r)) =>
        Done (if negb visited then Err ENOSYS
              else match err with Some e => Err e | None => Ok tt end, r)
    | Abort => Abort
    | NoFuel => NoFuel
    end.

(** [ProtectionVisitor]: [visited_]. *)
Definition ProtectionVisitor_Visit (prot : Z) : visit bool :=
  λ (_ : PageMapValue) (s : sid) (start_addr end_addr : Z) (st : bool * MemoryRegion),
  let len := end_addr - start_addr + 1 in
  let '(visited, r) := st in
  let r := record (CallMprotect s start_addr len prot) r in
  if mprotect_result ops s start_addr len prot then
    Done (true, (true, if flag prot PROT_WRITE
                       then set_write_mapped ({[inode ops s]} ∪ write_mapped_ r) r else r))
  else Abort.

Definition ChangeProtectionModeByAddr (addr length prot : Z) : St MemoryRegion (res unit) :=
  if length =? 0 then mret (Ok tt)
  else λ r,
    match CallByAddr (ProtectionVisitor_Visit prot) addr length (false, r) with
    | Done (_, (visited, r)) => Done (if negb visited then Err ENOSYS else Ok tt, r)
    | Abort => Abort
    | NoFuel => NoFuel
    end.

Definition IsWriteMapped (i : Z) (r : MemoryRegion) : bool :=
  bool_decide (i ∈ write_mapped_ r).

Definition IsCurrentlyMapped (i : Z) (r : MemoryRegion) : bool :=
  existsb (λ kv : Z * PageMapValue,
    match stream kv.2 with Some s => inode ops s =? i | None => false end) (map_ r).
End MemoryRegion.

(* -------------------------------------------------------------------- *)
(** * Specification: disjoint intervals *)

Record region : Type := mkRegion {
  r_start : Z;
  r_end : Z;
  r_ref : Z;
  r_offset : Z;
  r_stream : option sid;
}.

Implicit Types rs : list region.

Definition start_value (r : region) : PageMapValue :=
  {| ref := r_ref r; offset := r_offset r; stream := r_stream r |}.

Definition end_value (r : region) : PageMapValue :=
  {| ref := 1; offset := r_offset r; stream := r_stream r |}.

Definition encode1 (r : region) : PageToStream :=
  [(r_start r, start_value r); (r_end r, end_value r)].

Definition encode (rs : list region) : PageToStream := rs ≫= encode1.

Definition region_ok (r : region) : Prop :=
  r_start r mod 2 = 0 ∧ r_end r mod 2 = 1 ∧ r_start r < r_end r ∧ 1 <= r_ref r.

Definition before (a b : region) : Prop := r_end a < r_start b.

(** Regions in order, disjoint. *)
Definition regions_ok (rs : list region) : Prop :=
  Forall region_ok rs ∧ StronglySorted before rs.

Definition overlaps (a b : Z) (r : region) : bool := (r_start r <=? b) && (a <=? r_end r).

(** Which region's stream an address belongs to. *)
Fixpoint owner (rs : list region) (x : Z) : option (option sid) :=
  match rs with
  | [] => None
  | r :: rs => if overlaps x x r then Some (r_stream r) else owner rs x
  end.

Fixpoint insert_region (n : region) (rs : list region) : list region :=
  match rs with
  | [] => [n]
  | r :: rs' => if r_end n <? r_start r then n :: rs else r :: insert_region n rs'
  end.

(** What is left of a region outside [a..b]. *)
Definition with_bounds (s e : Z) (r : region) : region :=
  {| r_start := s; r_end := e; r_ref := 1; r_offset := r_offset r; r_stream := r_stream r |}.

Definition pieces (a b : Z) (r : region) : list region :=
  (if r_start r <? a then [with_bounds (r_start r) (a - 1) r] else []) ++
  (if b <? r_end r then [with_bounds (b + 1) (r_end r) r] else []).

Definition subtract (a b : Z) (rs : list region) : list region :=
  rs ≫= λ r, if overlaps a b r then pieces a b r else [r].

Definition overlapping (a b : Z) (rs : list region) : list region :=
  List.filter (overlaps a b) rs.

(** The parts of the mapped files inside [a..b], in order. *)
Definition parts (a b : Z) (rs : list region) : list (sid * Z * Z) :=
  omap (λ r, s ← r_stream r; Some (s, Z.max a (r_start r), Z.min b (r_end r)))
       (overlapping a b rs).

Definition represents (m : MemoryRegion) (rs : list region) : Prop :=
  regions_ok rs ∧ map_ m = encode rs.

(* -------------------------------------------------------------------- *)
(** * Proofs *)

Ltac zmod := Z.div_mod_to_equations; lia.


Import OrderedMapFacts.

Lemma page_end_eq x : IsPageEndAddress x = (x mod 2 =? 1).
Proof.
  unfold IsPageEndAddress. change 1 with (Z.ones 1) at 1. rewrite Z.land_ones by lia.
  change (2 ^ 1) with 2. destruct (Z.eqb_spec (x mod 2) 0), (Z.eqb_spec (x mod 2) 1); simpl; zmod.
Qed.

Lemma page_end_true x : x mod 2 = 1 → IsPageEndAddress x = true.
Proof. rewrite page_end_eq. intros ->. done. Qed.

Lemma page_end_false x : x mod 2 = 0 → IsPageEndAddress x = false.
Proof. rewrite page_end_eq. intros ->. done. Qed.

Lemma encode_app rs1 rs2 : encode (rs1 ++ rs2) = encode rs1 ++ encode rs2.
Proof. apply bind_app. Qed.

Lemma encode_cons r rs : encode (r :: rs) = (r_start r, start_value r) :: (r_end r, end_value r) :: encode rs.
Proof. done. Qed.

Lemma regions_ok_app rs1 rs2 :
  regions_ok (rs1 ++ rs2) ↔
  regions_ok rs1 ∧ regions_ok rs2 ∧ ∀ a b, a ∈ rs1 → b ∈ rs2 → before a b.
Proof. unfold regions_ok. rewrite Forall_app, StronglySorted_app. naive_solver. Qed.

Lemma regions_ok_cons r rs :
  regions_ok (r :: rs) ↔ region_ok r ∧ regions_ok rs ∧ Forall (before r) rs.
Proof.
  unfold regions_ok. rewrite Forall_cons. split.
  - intros [[? ?] Hs]. inversion Hs; subst. naive_solver.
  - intros (? & [? ?] & ?). split; [done|]. by constructor.
Qed.

Lemma encode_below k rs : Forall (λ r, region_ok r ∧ r_end r < k) rs → below k (encode rs).
Proof.
  induction 1 as [|r rs [(? & ? & ? & ?) Hr] Hrs IH]; [constructor|].
  rewrite encode_cons. repeat constructor; simpl; [lia|lia|done].
Qed.

Lemma encode_above k rs : Forall (λ r, region_ok r ∧ k < r_start r) rs → above k (encode rs).
Proof.
  induction 1 as [|r rs [(? & ? & ? & ?) Hr] Hrs IH]; [constructor|].
  rewrite encode_cons. repeat constructor; simpl; [lia|lia|done].
Qed.

(** The regions that end before [a], and the rest. *)
Lemma split_at a rs :
  regions_ok rs →
  ∃ l r, rs = l ++ r ∧ Forall (λ x, region_ok x ∧ r_end x < a) l ∧ Forall (λ x, a <= r_end x) r.
Proof.
  induction rs as [|x rs IH]; [by exists [], []|]. intros (Hx & Hrs & Hall)%regions_ok_cons.
  destruct (decide (r_end x < a)) as [Hlt|Hge].
  - destruct (IH Hrs) as (l & r & -> & Hl & Hr). exists (x :: l), r.
    split; [done|]. split; [by constructor|done].
  - exists [], (x :: rs). split; [done|]. split; [constructor|]. constructor; [lia|].
    rewrite Forall_forall in Hall |- *. intros y Hy. pose proof (Hall _ Hy) as Hb.
    destruct Hrs as [Hok _]. rewrite Forall_forall in Hok. destruct (Hok _ Hy) as (_ & _ & ? & _).
    unfold before in Hb. lia.
Qed.

Lemma FindRegion_spec rs addr len :
  regions_ok rs → addr mod 2 = 0 →
  (∃ l r t, rs = l ++ r :: t ∧ r_start r = addr ∧ r_end r = addr + len - 1 ∧
     Forall (λ x, region_ok x ∧ r_end x < addr) l ∧
     FindRegion addr len (encode rs) = Done (Some (start_value r))) ∨
  ((∀ r, r ∈ rs → r_start r = addr → r_end r ≠ addr + len - 1) ∧
   FindRegion addr len (encode rs) = Done None).
Proof.
  intros Hrs Hev. destruct (split_at addr rs Hrs) as (l & r & -> & Hl & Hr).
  pose proof (encode_below _ _ Hl) as Hbelow.
  assert (∀ x, x ∈ l → r_start x = addr → False) as Hnl.
  { intros x Hx Hs. rewrite Forall_forall in Hl. destruct (Hl _ Hx) as [(_ & _ & ? & _) ?]. lia. }
  unfold FindRegion. rewrite encode_app, find_below, next_upto by (done || by apply below_upto).
  destruct r as [|x t].
  { right. split; [|done]. intros y [Hy|Hy%elem_of_nil]%elem_of_app; [|done]. intros ?. by destruct (Hnl y). }
  apply regions_ok_app in Hrs as (_ & Hrt & _).
  apply regions_ok_cons in Hrt as (Hx & Ht & Hall). pose proof Hx as (Hxs & Hxe & Hlt & _).
  assert (∀ y, y ∈ t → r_start y = addr → r_start x = addr → False) as Hnt.
  { intros y Hy Hs Hs'. rewrite Forall_forall in Hall. pose proof (Hall _ Hy). unfold before in *. lia. }
  rewrite encode_cons. cbn [find next]. destruct (Z.eqb_spec (r_start x) addr) as [Es|Es].
  - destruct (Z.ltb_spec addr (r_start x)); [lia|]. destruct (Z.ltb_spec addr (r_end x)); [|lia].
    destruct (Z.eqb_spec (r_end x) (addr + len - 1)) as [Ee|Ee].
    + left. by exists l, x, t.
    + right. split; [|done]. intros y [Hy|[->|Hy]%elem_of_cons]%elem_of_app Hs; [|done|].
      * by destruct (Hnl y).
      * by destruct (Hnt y).
  - inversion Hr as [|?? Hxa Hta]; subst. rewrite (proj2 (Z.eqb_neq (r_end x) addr)) by zmod.
    right. split.
    + intros y [Hy|[->|Hy]%elem_of_cons]%elem_of_app Hs; [by destruct (Hnl y)|done|].
      rewrite Forall_forall in Hall. pose proof (Hall _ Hy). unfold before in *. lia.
    + rewrite find_above; [done|]. apply encode_above. apply Forall_forall. intros y Hy.
      destruct Ht as [Hok _]. rewrite Forall_forall in Hok, Hall. split; [by apply Hok|].
      pose proof (Hall _ Hy). unfold before in *. lia.
Qed.

Lemma set_map_id m : set_map (map_ m) m = m.
Proof. by destruct m. Qed.

Lemma in_encode rs r :
  r ∈ rs → (r_start r, start_value r) ∈ encode rs ∧ (r_end r, end_value r) ∈ encode rs.
Proof.
  intros Hr. split; apply list_elem_of_bind; exists r; (split; [|done]); unfold encode1; set_solver.
Qed.

(** A region inside, around or across the border of [a..e] is noticed. *)
Lemma overlap_noticed rs a e v q1 q2 x :
  regions_ok rs → a mod 2 = 0 → e mod 2 = 1 → a < e → x ∈ rs → overlaps a e x = true →
  insert a v (encode rs) = (q1, true) → insert e v q1 = (q2, true) → IsOverlap a e q2 = Done true.
Proof.
  intros Hrs Ha He Hae Hx Hov H1 H2.
  apply andb_true_iff in Hov as [Hov1%Z.leb_le Hov2%Z.leb_le].
  destruct (proj1 (Forall_forall _ _) (proj1 Hrs) x Hx) as (Hxs & Hxe & Hxlt & _).
  pose proof (in_encode _ _ Hx) as [Hin1 Hin2].
  assert (∀ kv, kv ∈ encode rs → kv ∈ q2) as Hkeep.
  { intros kv Hkv. pose proof (insert_in a v _ _ Hkv) as Hq. rewrite H1 in Hq. cbn [fst] in Hq.
    pose proof (insert_in e v _ _ Hq) as Hq'. by rewrite H2 in Hq'. }
  assert ((a, v) ∈ q2) as Hav.
  { pose proof (insert_in e v _ _ (insert_new _ _ _ _ H1)) as Hq. by rewrite H2 in Hq. }
  unfold IsOverlap.
  destruct (decide (a < r_start x)) as [Hs|Hs].
  { rewrite (distance_two a e _ _ _ _ Hav (Hkeep _ Hin1)); [done|zmod]. }
  destruct (decide (r_end x < e)) as [Hee|Hee].
  { rewrite (distance_two a e _ _ _ _ Hav (Hkeep _ Hin2)); [done|zmod]. }
  destruct (negb (Nat.eqb (distance a e q2) 1)); [done|].
  apply list_elem_of_split in Hx as (l & t & ->).
  pose proof Hrs as (Hl & Hxt & Hlx)%regions_ok_app.
  assert (Forall (λ y, region_ok y ∧ r_end y < r_start x) l) as Hlb.
  { apply Forall_forall. intros y Hy. split; [by apply (proj1 (Forall_forall _ _) (proj1 Hl))|].
    apply Hlx; [done|by left]. }
  apply encode_below in Hlb. rewrite encode_app, encode_cons in H1.
  assert (below a (encode l)) as Hla by (eapply Forall_impl; [exact Hlb|]; simpl; lia).
  assert (below e (encode l)) as Hle by (eapply Forall_impl; [exact Hlb|]; simpl; lia).
  rewrite insert_below in H1 by done. cbn [insert] in H1.
  destruct (Z.ltb_spec a (r_start x)) as [?|_]; [lia|].
  destruct (Z.eqb_spec (r_start x) a) as [?|Hne]; [done|].
  destruct (Z.ltb_spec a (r_end x)) as [_|?]; [|zmod]. cbn [fst snd] in H1.
  injection H1 as <-. rewrite insert_below in H2 by done. cbn [insert] in H2.
  destruct (Z.ltb_spec e (r_start x)) as [?|_]; [lia|].
  destruct (Z.eqb_spec (r_start x) e) as [?|_]; [zmod|].
  destruct (Z.ltb_spec e a) as [?|_]; [lia|]. destruct (Z.eqb_spec a e) as [?|_]; [lia|].
  destruct (Z.ltb_spec e (r_end x)) as [Hlt|?].
  - cbn [fst snd] in H2. injection H2 as <-.
    assert (prev a (encode l ++ (r_start x, start_value x) :: (a, v) :: (e, v) ::
              (r_end x, end_value x) :: encode t) = Some (r_start x)) as Hprev.
    { apply prev_below.
      - apply Forall_app. split; [done|]. repeat constructor. simpl. lia.
      - apply regions_ok_cons in Hxt as (_ & Ht & Hxt).
        constructor; [simpl; lia|]. constructor; [simpl; lia|]. constructor; [simpl; lia|].
        assert (above (r_end x) (encode t)) as Hab.
        { apply encode_above, Forall_forall. intros y Hy.
          split; [by apply (proj1 (Forall_forall _ _) (proj1 Ht))|].
          by apply (proj1 (Forall_forall _ _) Hxt). }
        eapply Forall_impl; [exact Hab|]. simpl. lia. }
    rewrite Hprev, page_end_false by done. done.
  - assert (r_end x = e) as Heq by lia.
    destruct (Z.eqb_spec (r_end x) e) as [_|?]; [|done]. cbn [fst snd] in H2. discriminate.
Qed.

Lemma add_new_overlap ops rs m addr len off prot s :
  represents m rs → addr mod 2 = 0 → len mod 2 = 0 → 0 < len →
  existsb (overlaps addr (addr + len - 1)) rs = true →
  add_new_region ops addr len off prot s m = Done (false, m).
Proof.
  intros [Hrs Hm] Ha Hlen Hpos (x & Hx%list_elem_of_In & Hov)%existsb_exists.
  unfold add_new_region, get, check, modify. unfold mbind at 1, St_bind at 1. rewrite Hm.
  set (v := {| ref := 1; offset := off; stream := s |}).
  destruct (insert addr v (encode rs)) as [q1 [|]] eqn:E1; [|done]. cbn [negb].
  unfold mbind, St_bind. rewrite page_end_true by zmod.
  destruct (insert (addr + len - 1) v q1) as [q2 [|]] eqn:E2; cbn [negb].
  - unfold lift. rewrite (overlap_noticed rs addr (addr + len - 1) v q1 q2 x) by (done || zmod).
    assert (addr < addr + len - 1) as Hlt by zmod.
    rewrite (erase_two _ _ _ _ _ _ _ Hlt E1 E2), <-Hm, set_map_id. done.
  - apply insert_fails in E2 as ->. apply erase_insert in E1. rewrite E1, <-Hm, set_map_id. done.
Qed.

Lemma insert_region_app n l r :
  Forall (λ x, r_end x < r_start n ∧ region_ok x) l → region_ok n → Forall (before n) r →
  insert_region n (l ++ r) = l ++ n :: r.
Proof.
  intros Hl (_ & _ & Hn & _) Hr. induction Hl as [|x l [Hx (_ & _ & Hxlt & _)] Hl IH]; simpl.
  - destruct r as [|y r]; [done|]. inversion Hr as [|?? Hy _]; unfold before in Hy. simpl.
    by destruct (Z.ltb_spec (r_end n) (r_start y)); [|lia].
  - destruct (Z.ltb_spec (r_end n) (r_start x)); [lia|]. by rewrite IH.
Qed.

(** Without an overlap, the new region falls between two regions. *)
Lemma split_around rs a e :
  regions_ok rs → a < e → existsb (overlaps a e) rs = false →
  ∃ l r, rs = l ++ r ∧ Forall (λ x, region_ok x ∧ r_end x < a) l ∧
         Forall (λ x, region_ok x ∧ e < r_start x) r.
Proof.
  intros Hrs Hae Hno. destruct (split_at a rs Hrs) as (l & r & -> & Hl & Hr).
  exists l, r. split; [done|]. split; [done|]. apply Forall_forall. intros x Hx.
  apply regions_ok_app in Hrs as (_ & [Hok _] & _). rewrite Forall_forall in Hok, Hr.
  split; [by apply Hok|]. specialize (Hr _ Hx).
  apply not_true_iff_false in Hno. destruct (Z.lt_ge_cases e (r_start x)) as [?|Hge]; [done|].
  exfalso. apply Hno, existsb_exists. exists x. split; [apply list_elem_of_In; set_solver|].
  apply andb_true_iff. split; by apply Z.leb_le.
Qed.

Definition add_write_mapped (ops : stream_ops) (prot : Z) (s : option sid) (m : MemoryRegion) : gset Z :=
  match s with
  | Some s => if flag prot PROT_WRITE then {[inode ops s]} ∪ write_mapped_ m else write_mapped_ m
  | None => write_mapped_ m
  end.

Lemma add_new_fresh ops rs m addr len off prot s :
  represents m rs → addr mod 2 = 0 → len mod 2 = 0 → 0 < len →
  existsb (overlaps addr (addr + len - 1)) rs = false →
  let n := {| r_start := addr; r_end := addr + len - 1; r_ref := 1; r_offset := off; r_stream := s |} in
  add_new_region ops addr len off prot s m =
    Done (true, set_write_mapped (add_write_mapped ops prot s m) (set_map (encode (insert_region n rs)) m)) ∧
  regions_ok (insert_region n rs).
Proof.
  intros [Hrs Hm] Ha Hlen Hpos Hno n. set (e := addr + len - 1) in *.
  assert (e mod 2 = 1) as He by (unfold e; zmod).
  destruct (split_around rs addr e Hrs ltac:(unfold e; zmod) Hno) as (l & r & -> & Hl & Hr).
  assert (region_ok n) as Hn by (repeat split; simpl; try done; unfold e in *; zmod).
  assert (insert_region n (l ++ r) = l ++ n :: r) as Hins.
  { apply insert_region_app; [|done|].
    - eapply Forall_impl; [exact Hl|]. naive_solver.
    - eapply Forall_impl; [exact Hr|]. unfold before. naive_solver. }
  pose proof (encode_below _ _ Hl) as Hbl. pose proof (encode_above _ _ Hr) as Har.
  assert (below e (encode l)) as Hble by (eapply Forall_impl; [exact Hbl|]; unfold e; simpl; lia).
  assert (above addr (encode r)) as Hara by (eapply Forall_impl; [exact Har|]; unfold e; simpl; lia).
  rewrite Hins. split.
  2: { apply regions_ok_app in Hrs as (Hlo & Hro & Hlr). apply regions_ok_app.
       split; [done|]. split; [apply regions_ok_cons; split; [done|]; split; [done|]|].
       - eapply Forall_impl; [exact Hr|]. unfold before. simpl. tauto.
       - intros x y Hx [->|Hy]%elem_of_cons; [|by apply Hlr].
         rewrite Forall_forall in Hl. by destruct (Hl _ Hx). }
  set (v := {| ref := 1; offset := off; stream := s |}).
  assert (insert addr v (encode (l ++ r)) = (encode l ++ (addr, v) :: encode r, true)) as E1.
  { rewrite encode_app, insert_below, insert_above by done. done. }
  assert (insert e v (encode l ++ (addr, v) :: encode r) =
          (encode l ++ (addr, v) :: (e, v) :: encode r, true)) as E2.
  { rewrite insert_below by done. cbn [insert]. destruct (Z.ltb_spec e addr); [unfold e in *; lia|].
    destruct (Z.eqb_spec addr e); [unfold e in *; zmod|]. by rewrite insert_above. }
  assert (encode (l ++ n :: r) = encode l ++ (addr, v) :: (e, v) :: encode r) as Eenc
    by (by rewrite encode_app).
  assert (IsOverlap addr e (encode l ++ (addr, v) :: (e, v) :: encode r) = Done false) as Hio.
  { unfold IsOverlap, distance. rewrite filter_app.
    assert (filter (λ kv : Z * PageMapValue, addr <= kv.1 < e) (encode l) = []) as ->.
    { apply list_filter_none. eapply Forall_impl; [exact Hbl|]. simpl. lia. }
    assert (filter (λ kv : Z * PageMapValue, addr <= kv.1 < e) ((addr, v) :: (e, v) :: encode r) = [(addr, v)]) as ->.
    { rewrite filter_cons_True by (simpl; unfold e; zmod).
      rewrite filter_cons_False by (simpl; lia). f_equal.
      apply list_filter_none. eapply Forall_impl; [exact Har|]. simpl. lia. }
    cbn [app List.length Nat.eqb negb].
    assert (next e (encode l ++ (addr, v) :: (e, v) :: encode r) = begin (encode r)) as ->.
    { rewrite next_upto by (by apply below_upto). cbn [next].
      destruct (Z.ltb_spec e addr); [unfold e in *; lia|]. destruct (Z.ltb_spec e e); [lia|].
      destruct (encode r) as [|[k u] q]; [done|]. inversion Har; simpl in *.
      by destruct (Z.ltb_spec e k); [|lia]. }
    assert (match prev addr (encode l ++ (addr, v) :: (e, v) :: encode r) with
            | Some p => negb (IsPageEndAddress p) | None => false end = false) as ->.
    { assert (Forall (λ kv : Z * PageMapValue, addr <= kv.1) ((addr, v) :: (e, v) :: encode r)) as Hge.
      { constructor; [simpl; lia|]. constructor; [simpl; unfold e; lia|].
        eapply Forall_impl; [exact Hara|]. simpl. lia. }
      destruct l as [|x l _] using rev_ind; [by rewrite prev_none|].
      apply Forall_app in Hl as [_ Hx]. inversion Hx as [|?? [(_ & Hxe & _) _] _]; subst.
      rewrite encode_app. change (encode [x]) with ([(r_start x, start_value x)] ++ [(r_end x, end_value x)]).
      rewrite (app_assoc (encode l)), <-(app_assoc _ [(r_end x, end_value x)]). cbn [app].
      rewrite prev_below; [by rewrite page_end_true| |done].
      rewrite <-app_assoc. cbn [app]. rewrite encode_app in Hbl. exact Hbl. }
    destruct r as [|y r]; [done|]. inversion Hr as [|?? [(Hys & _) _] _]; subst. simpl.
    by rewrite page_end_false. }
  unfold add_new_region, get, check, modify, lift. unfold mbind, St_bind.
  fold v. rewrite Hm, E1. fold e. rewrite page_end_true, E2, Hio by done. rewrite Eenc.
  unfold add_write_mapped. cbn [negb]. destruct s as [s|]; [|by destruct m].
  destruct (flag prot PROT_WRITE); [done|by destruct m].
Qed.

(** ** Walking over the regions *)

Lemma regions_before l x t :
  regions_ok (l ++ x :: t) →
  region_ok x ∧ below (r_start x) (encode l) ∧ above (r_end x) (encode t) ∧ regions_ok t ∧
  Forall (before x) t.
Proof.
  intros (Hl & Hxt & Hlx)%regions_ok_app. pose proof Hxt as (Hx & Ht & Hall)%regions_ok_cons.
  split; [done|]. split; [|split; [|done]].
  - apply encode_below, Forall_forall. intros y Hy.
    split; [by apply (proj1 (Forall_forall _ _) (proj1 Hl))|]. apply Hlx; [done|by left].
  - apply encode_above, Forall_forall. intros y Hy.
    split; [by apply (proj1 (Forall_forall _ _) (proj1 Ht))|].
    by apply (proj1 (Forall_forall _ _) Hall).
Qed.

(** The elements around the iterator at a region's start. *)
Lemma walk l x t :
  regions_ok (l ++ x :: t) →
  let m := encode (l ++ x :: t) in
  find (r_start x) m = Some (start_value x) ∧ next (r_start x) m = Some (r_end x) ∧
  next (r_end x) m = begin (encode t).
Proof.
  intros Hok m. subst m. apply regions_before in Hok as ((_ & _ & Hlt & _) & Hb & Ha & _ & _).
  assert (below (r_end x) (encode l)) as Hb' by (eapply Forall_impl; [exact Hb|]; simpl; lia).
  rewrite encode_app, encode_cons.
  rewrite find_below, !next_upto by (done || by apply below_upto). cbn [find next].
  rewrite Z.eqb_refl. destruct (Z.ltb_spec (r_start x) (r_start x)); [lia|].
  destruct (Z.ltb_spec (r_start x) (r_end x)); [|lia].
  destruct (Z.ltb_spec (r_end x) (r_start x)); [lia|].
  destruct (Z.ltb_spec (r_end x) (r_end x)); [lia|]. split_and!; try done.
  destruct (encode t) as [|[k u] q]; [done|]. inversion Ha; simpl in *.
  by destruct (Z.ltb_spec (r_end x) k); [|lia].
Qed.

Lemma begin_start x t : begin (encode (x :: t)) = Some (r_start x).
Proof. done. Qed.

Lemma begin_is_start t :
  regions_ok t →
  match begin (encode t) with None => true | Some k => negb (IsPageEndAddress k) end = true.
Proof.
  destruct t as [|x t]; [done|]. intros ((Hs & _) & _)%regions_ok_cons.
  rewrite begin_start. by rewrite page_end_false.
Qed.

Lemma first_region_spec a l r :
  regions_ok (l ++ r) → Forall (λ x, region_ok x ∧ r_end x < a) l → Forall (λ x, a <= r_end x) r →
  first_region a (encode (l ++ r)) = Done (begin (encode r)).
Proof.
  intros Hok Hl Hr. unfold first_region.
  pose proof (encode_below _ _ Hl) as Hb. rewrite encode_app, lower_bound_below by done.
  destruct r as [|x t]; [done|]. apply regions_before in Hok as ((Hs & He & Hlt & _) & Hb' & Ha & _).
  inversion Hr as [|?? Hax _]; subst. rewrite encode_cons. cbn [lower_bound].
  destruct (Z.leb_spec a (r_start x)) as [Hle|Hgt].
  - by rewrite page_end_false.
  - destruct (Z.leb_spec a (r_end x)) as [_|?]; [|lia]. rewrite page_end_true by done.
    rewrite prev_below; [done| |].
    + apply Forall_app. split; [|by repeat constructor].
      eapply Forall_impl; [exact Hb'|]. simpl. lia.
    + constructor; [simpl; lia|]. eapply Forall_impl; [exact Ha|]. simpl. lia.
Qed.

(** ** Removing from one region *)

Lemma remove_one_region_spec a b l x t :
  regions_ok (l ++ x :: t) → a mod 2 = 0 → b mod 2 = 1 → a < b → overlaps a b x = true →
  r_ref x = 1 →
  RemoveOneRegion (end_value x) (Z.max a (r_start x)) (Z.min b (r_end x)) (r_start x) (r_end x)
    (encode (l ++ x :: t)) = Done (encode (l ++ pieces a b x ++ t)).
Proof.
  intros Hok Ha Hb Hab0 [Hsb%Z.leb_le Hae%Z.leb_le]%andb_true_iff Href.
  apply regions_before in Hok as ((Hs & He & Hlt & _) & Hbl & Hab & _).
  assert (start_value x = end_value x) as Hv by (unfold start_value, end_value; by rewrite Href).
  unfold RemoveOneRegion.
  assert (Z.max a (r_start x) mod 2 = 0) as Hmax by (destruct (Z.max_spec a (r_start x)) as [[_ ->]|[_ ->]]; done).
  assert (Z.min b (r_end x) mod 2 = 1) as Hmin by (destruct (Z.min_spec b (r_end x)) as [[_ ->]|[_ ->]]; done).
  rewrite (page_end_false _ Hmax), (page_end_true _ Hmin), (page_end_false _ Hs), (page_end_true _ He).
  cbn [negb]. rewrite !require_true.
  rewrite (proj2 (Z.leb_le 0 (r_end x - (Z.min b (r_end x) + 1) + 1))) by lia.
  rewrite (proj2 (Z.leb_le 0 (Z.max a (r_start x) - 1 - r_start x + 1))) by lia. rewrite !require_true.
  assert (∀ k, r_start x < k → below k (encode l ++ [(r_start x, end_value x)])) as Hbk.
  { intros k Hk. apply Forall_app. split; [|by repeat constructor].
    eapply Forall_impl; [exact Hbl|]. simpl. lia. }
  rewrite encode_app, encode_cons, Hv. unfold pieces. rewrite !encode_app.
  (* the part on the left *)
  set (m1 := encode l ++ encode (if r_start x <? a then [with_bounds (r_start x) (a - 1) x] else []) ++
             (r_end x, end_value x) :: encode t).
  assert ((if 0 <? Z.max a (r_start x) - 1 - r_start x + 1 then
           require (IsPageEndAddress (Z.max a (r_start x) - 1)) ≫= λ _,
           let '(m, result) := insert (Z.max a (r_start x) - 1) (end_value x)
               (encode l ++ (r_start x, end_value x) :: (r_end x, end_value x) :: encode t) in
           require result ≫= λ _, mret m
         else
           require (bool_decide (is_Some (find (r_start x)
             (encode l ++ (r_start x, end_value x) :: (r_end x, end_value x) :: encode t)))) ≫= λ _,
           mret (erase (r_start x)
             (encode l ++ (r_start x, end_value x) :: (r_end x, end_value x) :: encode t))) = Done m1) as ->.
  { subst m1. destruct (Z.ltb_spec (r_start x) a).
    - rewrite Z.max_l by lia. rewrite (proj2 (Z.ltb_lt 0 _)) by lia.
      rewrite page_end_true, require_true by zmod.
      change ((r_start x, end_value x) :: (r_end x, end_value x) :: encode t)
        with ([(r_start x, end_value x)] ++ (r_end x, end_value x) :: encode t).
      rewrite app_assoc, insert_below by (apply Hbk; zmod). cbn [insert].
      destruct (Z.ltb_spec (a - 1) (r_end x)) as [_|?]; [|lia]. cbn [fst snd].
      rewrite require_true, <-app_assoc. done.
    - rewrite Z.max_r by lia. rewrite (proj2 (Z.ltb_ge 0 _)) by lia.
      rewrite find_below by done. cbn [find]. rewrite Z.eqb_refl, bool_decide_true, require_true by eauto.
      rewrite erase_below by done. cbn [erase]. by rewrite Z.eqb_refl. }
  (* the part on the right *)
  unfold mbind, outcome_bind. subst m1.
  set (lft := encode (if r_start x <? a then [with_bounds (r_start x) (a - 1) x] else [])).
  assert (∀ k, a <= k → r_start x < k → below k (encode l ++ lft)) as Hbl'.
  { intros k Hak Hk. apply Forall_app. split; [eapply Forall_impl; [exact Hbl|]; simpl; lia|].
    subst lft. destruct (r_start x <? a); [|constructor].
    repeat constructor; unfold with_bounds; simpl; lia. }
  destruct (Z.ltb_spec b (r_end x)).
  - rewrite Z.min_l by lia. rewrite (proj2 (Z.ltb_lt 0 _)) by lia.
    rewrite page_end_false by zmod. cbn [negb require].
    rewrite app_assoc, insert_below by (apply Hbl'; lia). cbn [insert].
    destruct (Z.ltb_spec (b + 1) (r_end x)) as [_|?]; [|zmod]. cbn [fst snd require].
    unfold mret, outcome_ret. f_equal. by rewrite <-!app_assoc.
  - rewrite Z.min_r by lia. rewrite (proj2 (Z.ltb_ge 0 _)) by lia.
    rewrite app_assoc, find_below by (apply Hbl'; lia). cbn [find].
    rewrite Z.eqb_refl, bool_decide_true by eauto. cbn [require].
    rewrite erase_below by (apply Hbl'; lia). cbn [erase]. rewrite Z.eqb_refl.
    unfold mret, outcome_ret. f_equal. by rewrite <-!app_assoc.
Qed.

Lemma pieces_ok a b x :
  region_ok x → a mod 2 = 0 → b mod 2 = 1 →
  Forall (λ y, region_ok y ∧ r_start x <= r_start y ∧ r_end y <= r_end x) (pieces a b x) ∨ b < r_start x ∨ r_end x < a.
Proof.
  intros (Hs & He & Hlt & Hr) Ha Hb.
  destruct (decide (b < r_start x)); [auto|]. destruct (decide (r_end x < a)); [auto|]. left.
  unfold pieces. apply Forall_app. split.
  - destruct (Z.ltb_spec (r_start x) a); [|constructor]. repeat constructor; simpl; zmod.
  - destruct (Z.ltb_spec b (r_end x)); [|constructor]. repeat constructor; simpl; zmod.
Qed.

Lemma pieces_sorted a b x : a < b → StronglySorted before (pieces a b x).
Proof.
  intros Hab. unfold pieces.
  destruct (r_start x <? a), (b <? r_end x); simpl; repeat constructor; unfold before; simpl; lia.
Qed.

(** Cutting a region keeps the others disjoint from it. *)
Lemma regions_ok_cut a b l x t :
  regions_ok (l ++ x :: t) → a mod 2 = 0 → b mod 2 = 1 → a < b → overlaps a b x = true →
  regions_ok (l ++ pieces a b x ++ t).
Proof.
  intros (Hl & Hxt & Hlx)%regions_ok_app Ha Hb Hab [Hsb%Z.leb_le Hae%Z.leb_le]%andb_true_iff.
  apply regions_ok_cons in Hxt as (Hx & Ht & Hall).
  destruct (pieces_ok a b x Hx Ha Hb) as [Hp|[?|?]]; [|lia|lia].
  rewrite Forall_forall in Hp.
  apply regions_ok_app. split; [done|]. split.
  - apply regions_ok_app. split; [|split; [done|]].
    + split; [|by apply pieces_sorted]. apply Forall_forall. intros y Hy. by apply Hp.
    + intros y z Hy Hz. rewrite Forall_forall in Hall. specialize (Hall _ Hz).
      destruct (Hp _ Hy). unfold before in *. lia.
  - intros y z Hy [Hz|Hz]%elem_of_app.
    + pose proof (Hlx y x Hy ltac:(by left)). destruct (Hp _ Hz). unfold before in *. lia.
    + apply Hlx; [done|by right].
Qed.

(** ** The loop of RemoveFileStreamsByAddr *)

Definition unmap_call (call_munmap : bool) (p : sid * Z * Z) : mcall :=
  let '(s, st, e) := p in
  if call_munmap then CallMunmap s st (e - st + 1) else CallOnUnmapByOverwritingMmap s st (e - st + 1).

(** [munmap] succeeds, or may fail because it is for text. *)
Definition munmap_ok (ops : stream_ops) (p : sid * Z * Z) : Prop :=
  let '(s, st, e) := p in munmap_result ops s st (e - st + 1) = true ∨ st < kTextEndAddress.

Lemma subtract_none a b rs : Forall (λ x, overlaps a b x = false) rs → subtract a b rs = rs.
Proof. induction 1 as [|x rs Hx Hrs IH]; [done|].
  unfold subtract in *. simpl. rewrite Hx. simpl. f_equal. exact IH. Qed.

Lemma overlapping_none a b rs : Forall (λ x, overlaps a b x = false) rs → overlapping a b rs = [].
Proof. induction 1 as [|x rs Hx Hrs IH]; [done|]. unfold overlapping in *. simpl. by rewrite Hx. Qed.

Lemma overlapping_app a b l r : overlapping a b (l ++ r) = overlapping a b l ++ overlapping a b r.
Proof. apply List.filter_app. Qed.

Lemma subtract_app a b l r : subtract a b (l ++ r) = subtract a b l ++ subtract a b r.
Proof. apply bind_app. Qed.

Lemma after_none a b x t :
  b < r_start x → Forall region_ok (x :: t) → Forall (before x) t → Forall (λ y, overlaps a b y = false) (x :: t).
Proof.
  intros Hb Hok Hall. apply Forall_forall. intros y Hy. apply andb_false_iff. left. apply Z.leb_gt.
  apply elem_of_cons in Hy as [->|Hy]; [done|]. rewrite Forall_forall in Hall, Hok.
  pose proof (Hall _ Hy). destruct (Hok x ltac:(by left)) as (_ & _ & ? & _). unfold before in *. lia.
Qed.

Lemma before_none a b l : Forall (λ x, region_ok x ∧ r_end x < a) l → Forall (λ y, overlaps a b y = false) l.
Proof.
  intros Hl. eapply Forall_impl; [exact Hl|]. intros y [_ Hy]. apply andb_false_iff. right.
  by apply Z.leb_gt.
Qed.

Lemma unmap_stream_run ops cm s st e m :
  (cm = true → munmap_ok ops (s, st, e)) →
  unmap_stream ops cm s st (e - st + 1) m = Done (tt, record (unmap_call cm (s, st, e)) m).
Proof.
  intros Hok. unfold unmap_stream, modify, mbind, St_bind. destruct cm; [|done].
  destruct (Hok eq_refl) as [->|Hlt]; [done|]. destruct (munmap_result _ _ _ _); [done|].
  by rewrite (proj2 (Z.ltb_lt _ _)).
Qed.

Lemma remove_loop_spec ops cm a b t l m found fuel :
  regions_ok (l ++ t) → map_ m = encode (l ++ t) → a mod 2 = 0 → b mod 2 = 1 → a < b →
  Forall (λ x, a <= r_end x) t → Forall (λ x, r_ref x = 1) (overlapping a b t) →
  (cm = true → Forall (munmap_ok ops) (parts a b t)) → (List.length t < fuel)%nat →
  ∃ m', remove_loop ops fuel cm a b (begin (encode t)) found m =
          Done (Ok (found || existsb (overlaps a b) t), m') ∧
    map_ m' = encode (l ++ subtract a b t) ∧ regions_ok (l ++ subtract a b t) ∧
    made m' = made m ++ map (unmap_call cm) (parts a b t) ∧
    write_mapped_ m' = write_mapped_ m ∧
    abort_on_unexpected_memory_maps_ m' = abort_on_unexpected_memory_maps_ m.
Proof.
  intros Hok Hm Ha Hb Hab. revert l m found fuel Hok Hm.
  induction t as [|x t IH]; intros l m found fuel Hok Hm Hat Href Hun Hfuel;
    (destruct fuel as [|fuel]; [simpl in Hfuel; lia|]).
  { exists m. cbn [existsb]. change (parts a b []) with (@nil (sid * Z * Z)).
    change (subtract a b []) with (@nil region). cbn [map].
    rewrite orb_false_r, (app_nil_r (made m)). split_and!; try done; by rewrite app_nil_r in *. }
  destruct (walk l x t Hok) as (Hfind & Hnext & Hnext'). rewrite <-Hm in Hfind, Hnext, Hnext'.
  pose proof (regions_before l x t Hok) as (Hx & _ & _ & Ht & Hall).
  rewrite begin_start. cbn [remove_loop]. unfold get. unfold mbind at 1, St_bind at 1.
  rewrite Hfind, Hnext. destruct (Z.ltb_spec b (r_start x)) as [Hlt|Hge].
  { assert (Forall (λ y, overlaps a b y = false) (x :: t)) as Hno.
    { apply after_none; [done| |done]. apply Forall_cons. split; [done|apply Ht]. }
    exists m. rewrite subtract_none by done. unfold parts. rewrite overlapping_none by done.
    assert (existsb (overlaps a b) (x :: t) = false) as ->.
    { apply not_true_iff_false. intros (y & Hy%list_elem_of_In & Hov)%existsb_exists.
      rewrite Forall_forall in Hno. rewrite (Hno _ Hy) in Hov. done. }
    cbn [omap list_omap map]. rewrite orb_false_r, (app_nil_r (made m)). by split_and!. }
  inversion Hat as [|?? Hax Hat']; subst.
  assert (overlaps a b x = true) as Hov by (apply andb_true_iff; split; by apply Z.leb_le).
  unfold overlapping in Href. simpl in Href. rewrite Hov in Href. inversion Href as [|?? Hrefx Href']; subst.
  cbn [start_value ref]. rewrite Hrefx. unfold check. unfold mbind at 1, St_bind at 1.
  rewrite orb_true_r. change (1 <? 1) with false. cbv beta iota.
  pose proof (remove_one_region_spec a b l x t Hok Ha Hb Hab Hov Hrefx) as Hone.
  rewrite <-Hm in Hone. unfold end_value in Hone. cbn [offset stream start_value].
  unfold lift at 1. unfold mbind at 1, St_bind at 1. rewrite Hone.
  unfold modify at 1. unfold mbind at 1, St_bind at 1.
  set (m1 := set_map (encode (l ++ pieces a b x ++ t)) m).
  set (ps := match r_stream x with Some s => [(s, Z.max a (r_start x), Z.min b (r_end x))] | None => [] end).
  assert (parts a b (x :: t) = ps ++ parts a b t) as Hparts.
  { unfold parts, overlapping. simpl. rewrite Hov. simpl. subst ps. by destruct (r_stream x). }
  set (m2 := {| map_ := map_ m1; abort_on_unexpected_memory_maps_ := abort_on_unexpected_memory_maps_ m1;
                write_mapped_ := write_mapped_ m1; made := made m1 ++ map (unmap_call cm) ps |}).
  assert (match r_stream x with
          | Some s => unmap_stream ops cm s (Z.max a (r_start x))
                        (Z.min b (r_end x) - Z.max a (r_start x) + 1)
          | None => mret tt end m1 = Done (tt, m2)) as Hu.
  { subst m2 ps. rewrite Hparts in Hun. destruct (r_stream x) as [s|].
    - rewrite unmap_stream_run; [done|]. intros Hcm. specialize (Hun Hcm). by inversion Hun.
    - unfold mret, St_ret. rewrite app_nil_r. by destruct m1. }
  run_with Hu. rewrite Hnext', (begin_is_start _ Ht). unfold mbind at 1, St_bind at 1.
  assert (encode (l ++ pieces a b x ++ t) = encode ((l ++ pieces a b x) ++ t)) as Happ by (by rewrite app_assoc).
  destruct (IH (l ++ pieces a b x) m2 true fuel) as (m' & Hrun & Hm' & Hok' & Hmade & Hw & Hab').
  - rewrite <-app_assoc. by apply regions_ok_cut.
  - subst m2 m1. simpl. exact Happ.
  - done.
  - done.
  - intros Hcm. specialize (Hun Hcm). rewrite Hparts in Hun. by apply Forall_app in Hun as [_ ?].
  - simpl in Hfuel. lia.
  - exists m'. rewrite Hrun. cbn [existsb]. rewrite Hov, orb_true_r. cbn [orb].
    assert (subtract a b (x :: t) = pieces a b x ++ subtract a b t) as ->.
    { unfold subtract. simpl. by rewrite Hov. }
    rewrite app_assoc. split_and!; try done.
    rewrite Hmade, Hparts, map_app. subst m2 m1. simpl. by rewrite app_assoc.
Qed.

(** ** Owners of addresses *)

Lemma represents_unique m rs rs' : represents m rs → represents m rs' → rs = rs'.
Proof.
  intros [_ H1] [_ H2]. rewrite H1 in H2. clear H1. revert rs' H2. unfold encode.
  induction rs as [|[] rs IH]; intros [|[] rs']; cbn; try done. intros [= -> -> -> -> -> Hrs]. f_equal. by apply IH.
Qed.

Lemma owner_app l r x : owner (l ++ r) x = match owner l x with Some s => Some s | None => owner r x end.
Proof. induction l as [|y l IH]; simpl; [done|]. by destruct (overlaps x x y). Qed.

Lemma overlaps_spec a b r : overlaps a b r = bool_decide (r_start r <= b ∧ a <= r_end r).
Proof.
  unfold overlaps. apply eq_true_iff_eq. rewrite andb_true_iff, !Z.leb_le. by rewrite bool_decide_eq_true.
Qed.

Lemma owner_one r x :
  owner [r] x = if decide (r_start r <= x <= r_end r) then Some (r_stream r) else None.
Proof. simpl. rewrite overlaps_spec. case_bool_decide; case_decide; naive_solver. Qed.

Lemma owner_pieces a b r x :
  overlaps a b r = true →
  owner (pieces a b r) x = if decide (a <= x <= b) then None else owner [r] x.
Proof.
  rewrite overlaps_spec. intros Hov%bool_decide_eq_true. unfold pieces. rewrite owner_app.
  assert (owner (if r_start r <? a then [with_bounds (r_start r) (a - 1) r] else []) x =
          if decide (r_start r <= x < a) then Some (r_stream r) else None) as ->.
  { destruct (Z.ltb_spec (r_start r) a); [rewrite owner_one; simpl|simpl];
      repeat case_decide; try done; lia. }
  assert (owner (if b <? r_end r then [with_bounds (b + 1) (r_end r) r] else []) x =
          if decide (b < x <= r_end r) then Some (r_stream r) else None) as ->.
  { destruct (Z.ltb_spec b (r_end r)); [rewrite owner_one; simpl|simpl];
      repeat case_decide; try done; lia. }
  rewrite owner_one. repeat case_decide; try done; lia.
Qed.

Lemma owner_subtract a b rs x :
  owner (subtract a b rs) x = if decide (a <= x <= b) then None else owner rs x.
Proof.
  induction rs as [|r rs IH]; [by case_decide|].
  assert (subtract a b (r :: rs) = (if overlaps a b r then pieces a b r else [r]) ++ subtract a b rs) as -> by done.
  change (r :: rs) with ([r] ++ rs). rewrite !owner_app, IH.
  destruct (overlaps a b r) eqn:E.
  - rewrite owner_pieces by done. by case_decide.
  - rewrite overlaps_spec in E. apply bool_decide_eq_false in E. rewrite owner_one.
    repeat case_decide; try done. exfalso. apply E. lia.
Qed.

Lemma owner_insert rs n x :
  regions_ok rs → region_ok n → existsb (overlaps (r_start n) (r_end n)) rs = false →
  owner (insert_region n rs) x = if overlaps x x n then Some (r_stream n) else owner rs x.
Proof.
  intros Hrs Hn Hno. pose proof Hn as (_ & _ & Hlt & _).
  destruct (split_around rs _ _ Hrs Hlt Hno) as (l & r & -> & Hl & Hr).
  rewrite insert_region_app; [|eapply Forall_impl; [exact Hl|]; naive_solver|done|
    eapply Forall_impl; [exact Hr|]; unfold before; naive_solver].
  rewrite !owner_app. simpl. destruct (overlaps x x n) eqn:E; [|done].
  apply andb_true_iff in E as [E1%Z.leb_le E2%Z.leb_le].
  assert (owner l x = None) as ->; [|done].
  induction Hl as [|y l [_ Hy] Hl IH]; [done|]. simpl. unfold overlaps.
  destruct (Z.leb_spec x (r_end y)); [lia|]. rewrite andb_false_r. apply IH.
  - apply (regions_ok_cons y (l ++ r)). done.
  - simpl in Hno. by apply orb_false_iff in Hno as [_ ?].
Qed.

(** A range whose addresses belong to nobody overlaps no region. *)
Lemma no_owner_no_overlap rs a b :
  Forall region_ok rs → a <= b → (∀ x, a <= x <= b → owner rs x = None) → existsb (overlaps a b) rs = false.
Proof.
  intros Hok Hab Hno. apply not_true_iff_false. intros (r & Hr%list_elem_of_In & Hov)%existsb_exists.
  apply andb_true_iff in Hov as [H1%Z.leb_le H2%Z.leb_le].
  rewrite Forall_forall in Hok. destruct (Hok r Hr) as (_ & _ & Hlt & _).
  assert (is_Some (owner rs (Z.max a (r_start r)))) as [s Hs].
  { apply list_elem_of_split in Hr as (l & t & ->). rewrite owner_app.
    destruct (owner l _); [eauto|]. cbn [owner]. unfold overlaps.
    rewrite (proj2 (Z.leb_le _ _)), (proj2 (Z.leb_le _ _)) by lia. eauto. }
  by rewrite Hno in Hs by lia.
Qed.

Lemma overlap_has_owner rs a b x :
  existsb (overlaps a b) rs = false → a <= x <= b → owner rs x = None.
Proof.
  induction rs as [|r rs IH]; [done|]. cbn [existsb owner]. intros [Hr Hrs]%orb_false_iff Hx.
  destruct (overlaps x x r) eqn:E; [|by apply IH].
  unfold overlaps in *. apply andb_true_iff in E as [H1%Z.leb_le H2%Z.leb_le].
  apply andb_false_iff in Hr as [Hr%Z.leb_gt|Hr%Z.leb_gt]; lia.
Qed.

Lemma no_overlap_not_exact rs addr len :
  0 < len → existsb (overlaps addr (addr + len - 1)) rs = false → Forall (λ r, ¬ (r_start r = addr ∧ r_end r = addr + len - 1)) rs.
Proof.
  intros Hlen Hno. apply Forall_forall. intros r Hr [H1 H2]. apply not_true_iff_false in Hno. apply Hno.
  apply existsb_exists. exists r. split; [by apply list_elem_of_In|]. unfold overlaps.
  apply andb_true_iff. split; apply Z.leb_le; lia.
Qed.

(** ** AddFileStreamByAddr *)

Definition exact (addr len : Z) (r : region) : Prop := r_start r = addr ∧ r_end r = addr + len - 1.

Definition with_ref_count (n : Z) (r : region) : region :=
  {| r_start := r_start r; r_end := r_end r; r_ref := n; r_offset := r_offset r; r_stream := r_stream r |}.

Lemma update_encode l r t n :
  regions_ok (l ++ r :: t) →
  update (r_start r) (start_value (with_ref_count n r)) (encode (l ++ r :: t)) =
  encode (l ++ with_ref_count n r :: t).
Proof.
  intros Hok. apply regions_before in Hok as ((_ & _ & Hlt & _) & Hb & Ha & _).
  rewrite !encode_app, !encode_cons, update_app. f_equal.
  - apply update_id. eapply Forall_impl; [exact Hb|]. simpl. lia.
  - unfold update. cbn [map fst]. rewrite Z.eqb_refl.
    destruct (Z.eqb_spec (r_end r) (r_start r)); [lia|]. f_equal. f_equal.
    apply (update_id (r_start r)). eapply Forall_impl; [exact Ha|]. simpl. lia.
Qed.

Lemma with_ref_ok l r t n :
  regions_ok (l ++ r :: t) → 1 <= n → regions_ok (l ++ with_ref_count n r :: t).
Proof.
  intros (Hl & Hrt & Hlr)%regions_ok_app Hn. apply regions_ok_cons in Hrt as (Hr & Ht & Hall).
  apply regions_ok_app. split; [done|]. split.
  - apply regions_ok_cons. split; [|done]. destruct Hr as (? & ? & ? & _). by repeat split.
  - intros x y Hx [->|Hy]%elem_of_cons; [|apply Hlr; [done|by right]].
    apply (Hlr x r); [done|by left].
Qed.

Lemma add_region_run ops rs m addr len off prot flags s :
  represents m rs → addr mod 2 = 0 → len mod 2 = 0 → 0 < len →
  AddFileStreamByAddr ops addr len off prot flags s m =
  match s with
  | None => add_new_region ops addr len off prot s m
  | Some s' =>
      match FindRegion addr len (encode rs) with
      | Done (Some r) => add_same_region ops addr r flags s' m
      | Done None => add_new_region ops addr len off prot s m
      | Abort => Abort
      | NoFuel => NoFuel
      end
  end.
Proof.
  intros [Hrs Hm] Ha Hl Hpos. unfold AddFileStreamByAddr, check, get, lift. unfold mbind, St_bind.
  rewrite page_end_false, Hl by done. cbn [negb andb Z.eqb].
  rewrite (proj2 (Z.eqb_neq len 0)) by lia. destruct s as [s|]; [|done]. rewrite Hm.
  by destruct (FindRegion addr len (encode rs)) as [[r|]| |].
Qed.

Lemma add_by_addr_spec ops rs m addr len off prot flags s :
  represents m rs → addr mod 2 = 0 → len mod 2 = 0 → 0 < len →
  s = None ∨ Forall (λ r, ¬ exact addr len r) rs →
  if existsb (overlaps addr (addr + len - 1)) rs then
    AddFileStreamByAddr ops addr len off prot flags s m = Done (false, m)
  else
    ∃ m' rs', AddFileStreamByAddr ops addr len off prot flags s m = Done (true, m') ∧
      represents m' rs' ∧
      (∀ x, owner rs' x = if decide (addr <= x <= addr + len - 1) then Some s else owner rs x) ∧
      (∀ s' i, s = Some s' → IsWriteMapped i m' =
         IsWriteMapped i m || (flag prot PROT_WRITE && bool_decide (i = inode ops s'))).
Proof.
  intros Hrep Ha Hl Hpos Hex. rewrite (add_region_run ops rs) by done.
  assert (match s with
          | None => add_new_region ops addr len off prot s m
          | Some s' =>
              match FindRegion addr len (encode rs) with
              | Done (Some r) => add_same_region ops addr r flags s' m
              | Done None => add_new_region ops addr len off prot s m
              | Abort => Abort
              | NoFuel => NoFuel
              end
          end = add_new_region ops addr len off prot s m) as ->.
  { destruct s as [s|]; [|done]. destruct Hex as [?|Hex]; [done|].
    destruct (FindRegion_spec rs addr len (proj1 Hrep) Ha) as [(l & r & t & -> & H1 & H2 & _)|[_ ->]]; [|done].
    rewrite Forall_forall in Hex. exfalso. apply (Hex r); [|by split]. apply elem_of_app. right. by left. }
  destruct (existsb _ rs) eqn:E; [by apply (add_new_overlap ops rs)|].
  destruct (add_new_fresh ops rs m addr len off prot s Hrep Ha Hl Hpos E) as [-> Hok].
  eexists _, _. split; [done|]. split; [by split|]. split.
  - intros x. rewrite owner_insert; [|apply Hrep|repeat split; simpl; try done; zmod|done].
    unfold overlaps. simpl. case_decide as Hx.
    + by rewrite (proj2 (Z.leb_le _ _)), (proj2 (Z.leb_le _ _)) by lia.
    + destruct (Z.leb_spec addr x), (Z.leb_spec x (addr + len - 1)); simpl; try done. lia.
  - intros s' i ->. unfold IsWriteMapped, add_write_mapped. simpl.
    destruct (flag prot PROT_WRITE); [|by rewrite orb_false_r].
    cbn [andb]. apply eq_true_iff_eq.
    rewrite orb_true_iff, !bool_decide_eq_true, elem_of_union, elem_of_singleton. tauto.
Qed.

(** Mapping a file.  [AddFileStreamByAddr] of a range that is not exactly a
    mapped region never trips an assertion; it answers whether the range is free.
    When it is, the map afterwards is a map of disjoint intervals in which every
    address of the range belongs to the stream and every other address to what it
    belonged before, and the file counts as mapped for writing from then on if the
    protection has PROT_WRITE; when an address of the range is taken, nothing
    changes. *)
Theorem add_file_stream_by_addr_refines ops rs m addr len off prot flags s :
  represents m rs → addr mod 2 = 0 → len mod 2 = 0 → 0 < len →
  s = None ∨ Forall (λ r, ¬ exact addr len r) rs →
  if existsb (overlaps addr (addr + len - 1)) rs then
    AddFileStreamByAddr ops addr len off prot flags s m = Done (false, m)
  else
    ∃ m' rs', AddFileStreamByAddr ops addr len off prot flags s m = Done (true, m') ∧
      represents m' rs' ∧
      (∀ x, owner rs' x = if decide (addr <= x <= addr + len - 1) then Some s else owner rs x) ∧
      (∀ s' i, s = Some s' → IsWriteMapped i m' =
         IsWriteMapped i m || (flag prot PROT_WRITE && bool_decide (i = inode ops s'))).
Proof. apply add_by_addr_spec. Qed.

(** ** RemoveFileStreamsByAddr *)

Lemma remove_overlapping_spec ops rs m addr len cm :
  represents m rs → addr mod 2 = 0 → len mod 2 = 0 → 0 < len →
  let b := addr + len - 1 in
  Forall (λ r, r_ref r = 1) (overlapping addr b rs) →
  (cm = true → Forall (munmap_ok ops) (parts addr b rs)) →
  ∃ m', remove_overlapping ops addr len cm m =
          Done (if existsb (overlaps addr b) rs then Ok tt else Err ENOSYS, m') ∧
    represents m' (subtract addr b rs) ∧
    made m' = made m ++ map (unmap_call cm) (parts addr b rs) ∧
    write_mapped_ m' = write_mapped_ m.
Proof.
  intros [Hrs Hm] Ha Hl Hpos b Href Hun.
  destruct (split_at addr rs Hrs) as (l & t & -> & Hlt & Ht).
  pose proof (before_none addr b l Hlt) as Hnl.
  unfold parts in Hun. rewrite overlapping_app, (overlapping_none _ _ l Hnl) in Href, Hun.
  unfold parts. rewrite subtract_app, overlapping_app, (subtract_none _ _ l Hnl), (overlapping_none _ _ l Hnl).
  cbn [app] in *. rewrite existsb_app.
  assert (existsb (overlaps addr b) l = false) as ->.
  { apply not_true_iff_false. intros (y & Hy%list_elem_of_In & Hov)%existsb_exists.
    rewrite Forall_forall in Hnl. by rewrite (Hnl _ Hy) in Hov. }
  destruct (remove_loop_spec ops cm addr b t l m false
              (Datatypes.S (List.length (map_ m)))) as (m' & Hrun & Hm' & Hok' & Hmade & Hw & _);
    try done; try (unfold b; zmod).
  { rewrite Hm, encode_app, length_app.
    assert (List.length t ≤ List.length (encode t))%nat; [|lia].
    clear. induction t as [|x t IH]; [done|]. rewrite encode_cons. simpl. lia. }
  exists m'. unfold remove_overlapping, get, lift. unfold mbind, St_bind.
  rewrite Hm, (first_region_spec _ _ _ Hrs Hlt Ht). fold b. rewrite Hm in Hrun. rewrite Hrun.
  split; [|by split_and!]. cbn [orb]. by destruct (existsb (overlaps addr b) t).
Qed.

Lemma remove_by_addr_spec ops rs m addr len cm :
  represents m rs → addr mod 2 = 0 → len mod 2 = 0 → 0 < len →
  let b := addr + len - 1 in
  (∀ r, r ∈ rs → exact addr len r → 1 < r_ref r →
     ∃ m' rs', RemoveFileStreamsByAddr ops addr len cm m = Done (Ok tt, m') ∧
       represents m' rs' ∧ made m' = made m ∧ ∀ x, owner rs' x = owner rs x) ∧
  (Forall (λ r, r_ref r = 1) (overlapping addr b rs) →
   (cm = true → Forall (munmap_ok ops) (parts addr b rs)) →
   ∃ m', RemoveFileStreamsByAddr ops addr len cm m =
           Done (if existsb (overlaps addr b) rs then Ok tt else Err ENOSYS, m') ∧
     represents m' (subtract addr b rs) ∧
     made m' = made m ++ map (unmap_call cm) (parts addr b rs) ∧
     write_mapped_ m' = write_mapped_ m).
Proof.
  intros Hrep Ha Hl Hpos b. pose proof Hrep as [Hrs Hm].
  assert (RemoveFileStreamsByAddr ops addr len cm m =
    match FindRegion addr len (encode rs) with
    | Done (Some region) =>
        if 1 <? ref region then
          Done (Ok tt, set_map (update addr {| ref := ref region - 1; offset := offset region;
                                               stream := stream region |} (encode rs)) m)
        else remove_overlapping ops addr len cm m
    | Done None => remove_overlapping ops addr len cm m
    | Abort => Abort
    | NoFuel => NoFuel
    end) as Hrun.
  { unfold RemoveFileStreamsByAddr, check, get, lift, modify. unfold mbind, St_bind.
    rewrite page_end_false, Hl by done. cbn [negb andb Z.eqb].
    rewrite (proj2 (Z.eqb_neq len 0)) by lia. rewrite Hm.
    destruct (FindRegion addr len (encode rs)) as [[r|]| |]; try done.
    destruct (1 <? ref r); [|done]. unfold mret, St_ret. by rewrite Hm. }
  setoid_rewrite Hrun. clear Hrun.
  destruct (FindRegion_spec rs addr len Hrs Ha) as [(l & r & t & -> & H1 & H2 & Hlb & ->)|[Hno ->]].
  - assert (r ∈ l ++ r :: t) as Hin by (apply elem_of_app; right; by left).
    cbn [ref start_value]. split.
    + intros r' Hr' [Hs He] Hrf.
      assert (r' = r) as ->.
      { apply regions_before in Hrs as ((_ & _ & Hlt & _) & _ & _ & _ & Hall).
        apply elem_of_app in Hr' as [Hr'|[->|Hr']%elem_of_cons]; [|done|].
        - rewrite Forall_forall in Hlb. destruct (Hlb _ Hr') as [(_ & _ & ? & _) ?]. lia.
        - rewrite Forall_forall in Hall. pose proof (Hall _ Hr'). unfold before in *. lia. }
      rewrite (proj2 (Z.ltb_lt 1 (r_ref r))) by done. eexists _, _. split; [done|].
      split; [split|split; [done|]].
      * apply (with_ref_ok l r t (r_ref r - 1)); [done|lia].
      * simpl. rewrite <-H1. by apply update_encode.
      * intros x. by rewrite !owner_app.
    + intros Href Hun. assert (r_ref r = 1) as ->.
      { rewrite Forall_forall in Href. apply Href. apply list_elem_of_In, List.filter_In.
        split; [by apply list_elem_of_In|]. apply andb_true_iff.
        split; apply Z.leb_le; unfold b; lia. }
      change (1 <? 1) with false. cbv iota.
      destruct (remove_overlapping_spec ops _ m addr len cm Hrep Ha Hl Hpos Href Hun)
        as (m' & Hrun & Hrep' & Hmade & Hw).
      exists m'. by split.
  - split.
    + intros r Hr [Hs He] _. by destruct (Hno r).
    + intros Href Hun.
      destruct (remove_overlapping_spec ops _ m addr len cm Hrep Ha Hl Hpos Href Hun)
        as (m' & Hrun & Hrep' & Hmade & Hw).
      exists m'. by split.
Qed.

(** C4.  Unmapping.  Unless the range is exactly a region that is mapped several
    times (which only loses one of its references), [RemoveFileStreamsByAddr] on a
    map of disjoint intervals whose regions in the range are mapped once, and
    whose streams' [munmap] does not fail, trips no assertion and leaves a map of
    disjoint intervals that is the old one with exactly the addresses of the range
    taken out (regions at the borders are cut, or split in two); each mapped file
    is told, in address order, about its part of the range, with [munmap] or, for
    an overwriting [mmap], with [OnUnmapByOverwritingMmap]; the answer is ENOSYS
    exactly when the range met no region, and what was mapped for writing is
    remembered.  Addresses are integers here: this is the code where the range ends in
    the address space, as the code's own pointer arithmetic asks. *)
Theorem remove_file_streams_by_addr_refines ops rs m addr len cm :
  represents m rs → addr mod 2 = 0 → len mod 2 = 0 → 0 < len →
  let b := addr + len - 1 in
  (∀ r, r ∈ rs → exact addr len r → 1 < r_ref r →
     ∃ m' rs', RemoveFileStreamsByAddr ops addr len cm m = Done (Ok tt, m') ∧
       represents m' rs' ∧ made m' = made m ∧ ∀ x, owner rs' x = owner rs x) ∧
  (Forall (λ r, r_ref r = 1) (overlapping addr b rs) →
   (cm = true → Forall (munmap_ok ops) (parts addr b rs)) →
   ∃ m' rs', RemoveFileStreamsByAddr ops addr len cm m =
               Done (if existsb (overlaps addr b) rs then Ok tt else Err ENOSYS, m') ∧
     represents m' rs' ∧
     (∀ x, owner rs' x = if decide (addr <= x <= b) then None else owner rs x) ∧
     made m' = made m ++ map (unmap_call cm) (parts addr b rs) ∧
     write_mapped_ m' = write_mapped_ m).
Proof.
  intros Hrep Ha Hl Hpos b. destruct (remove_by_addr_spec ops rs m addr len cm Hrep Ha Hl Hpos) as [H1 H2].
  split; [exact H1|]. intros Href Hun. destruct (H2 Href Hun) as (m' & Hrun & Hrep' & Hrest).
  exists m', (subtract addr b rs). split; [exact Hrun|]. split; [done|]. split; [|done]. intros x. apply owner_subtract.
Qed.

(** ** CallByAddr and its visitors *)

(** The visitor on the parts of the mapped files, until it answers [false]. *)
Fixpoint visit_regions {A} (visitor : visit A) (a b : Z) (rs : list region) :
    St (A * MemoryRegion) unit :=
  match rs with
  | [] => mret tt
  | r :: rs =>
      go_on ← match r_stream r with
              | Some s => visitor (start_value r) s (Z.max a (r_start r)) (Z.min b (r_end r))
              | None => mret true
              end;
      if (go_on : bool) then visit_regions visitor a b rs else mret tt
  end.

Lemma call_loop_spec {A} (visitor : visit A) a b l t fuel st :
  regions_ok (l ++ t) → Forall (λ x, a <= r_end x) t → (List.length t < fuel)%nat →
  call_loop visitor (encode (l ++ t)) a b fuel (begin (encode t)) st =
  visit_regions visitor a b (overlapping a b t) st.
Proof.
  revert l fuel st. induction t as [|x t IH]; intros l fuel st Hok Hat Hfuel;
    (destruct fuel as [|fuel]; [simpl in Hfuel; lia|]); [done|].
  destruct (walk l x t Hok) as (Hfind & Hnext & Hnext').
  pose proof (regions_before l x t Hok) as (Hx & _ & _ & Ht & Hall).
  inversion Hat as [|?? Hax Hat']; subst.
  rewrite begin_start. cbn [call_loop]. rewrite Hfind, Hnext.
  destruct (Z.ltb_spec b (r_start x)) as [Hlt|Hge].
  - rewrite overlapping_none; [done|]. apply after_none; [done| |done].
    apply Forall_cons. split; [done|apply Ht].
  - assert (overlaps a b x = true) as Hov by (apply andb_true_iff; split; by apply Z.leb_le).
    unfold overlapping. cbn [List.filter]. rewrite Hov. cbn [visit_regions].
    unfold mbind, St_bind. cbn [stream start_value].
    destruct (match r_stream x with
              | Some s => visitor (start_value x) s (Z.max a (r_start x)) (Z.min b (r_end x))
              | None => mret true end st) as [[[] st']| |]; try done.
    unfold check. rewrite Hnext', (begin_is_start _ Ht).
    replace (l ++ x :: t) with ((l ++ [x]) ++ t) in * by (by rewrite <-app_assoc).
    apply IH; [done|done|simpl in Hfuel; lia].
Qed.

Lemma call_by_addr_spec {A} (visitor : visit A) rs addr len (st : A) m :
  represents m rs → addr mod 2 = 0 → len mod 2 = 0 →
  CallByAddr visitor addr len (st, m) =
  visit_regions visitor addr (addr + len - 1) (overlapping addr (addr + len - 1) rs) (st, m).
Proof.
  intros [Hrs Hm] Ha Hl. destruct (split_at addr rs Hrs) as (l & t & -> & Hlt & Ht).
  unfold CallByAddr, check, get, lift. unfold mbind, St_bind. rewrite Hl, page_end_false by done.
  cbn [negb Z.eqb snd]. rewrite Hm, (first_region_spec _ _ _ Hrs Hlt Ht).
  rewrite call_loop_spec; [|done|done|].
  - by rewrite overlapping_app, (overlapping_none _ _ l (before_none addr _ l Hlt)).
  - rewrite encode_app, length_app.
    assert (List.length t ≤ List.length (encode t))%nat; [|lia].
    clear. induction t as [|x t IH]; [done|]. rewrite encode_cons. simpl. lia.
Qed.

(** [madvise] on each part until one fails: the calls, and the error. *)
Fixpoint advise_parts (ops : stream_ops) (advice : Z) (ps : list (sid * Z * Z)) :
    list mcall * option errno :=
  match ps with
  | [] => ([], None)
  | (s, st, e) :: ps =>
      match madvise_result ops s st (e - st + 1) advice with
      | Err err => ([CallMadvise s st (e - st + 1) advice], Some err)
      | Ok _ => (CallMadvise s st (e - st + 1) advice :: (advise_parts ops advice ps).1,
                 (advise_parts ops advice ps).2)
      end
  end.

Definition add_made (cs : list mcall) (m : MemoryRegion) : MemoryRegion :=
  {| map_ := map_ m; abort_on_unexpected_memory_maps_ := abort_on_unexpected_memory_maps_ m;
     write_mapped_ := write_mapped_ m; made := made m ++ cs |}.

Definition madvise_not_fatal (ops : stream_ops) (advice : Z) (p : sid * Z * Z) : Prop :=
  ∀ n, madvise_result ops p.1.1 p.1.2 (p.2 - p.1.2 + 1) advice = Ok n → n = 0.

Definition part_of (a b : Z) (r : region) : option (sid * Z * Z) :=
  s ← r_stream r; Some (s, Z.max a (r_start r), Z.min b (r_end r)).

Lemma advise_visits ops advice a b rs visited m :
  Forall (madvise_not_fatal ops advice) (omap (part_of a b) rs) →
  visit_regions (AdviseVisitor_Visit ops advice) a b rs ((visited, None), m) =
  let ps := omap (part_of a b) rs in
  Done (tt, ((visited || bool_decide (ps ≠ []), (advise_parts ops advice ps).2),
             add_made (advise_parts ops advice ps).1 m)).
Proof.
  revert visited m. induction rs as [|r rs IH]; intros visited m Hnf.
  { simpl. unfold mret, St_ret, add_made. rewrite orb_false_r, app_nil_r. by destruct m. }
  cbn [visit_regions]. unfold mbind, St_bind.
  destruct (r_stream r) as [s|] eqn:E.
  - set (p := (s, Z.max a (r_start r), Z.min b (r_end r))).
    assert (omap (part_of a b) (r :: rs) = p :: omap (part_of a b) rs) as Hps
      by (simpl; unfold part_of; by rewrite E).
    cbv zeta. rewrite Hps in *. inversion Hnf as [|?? Hp Hnf']; subst.
    rewrite (bool_decide_true (p :: _ ≠ [])), orb_true_r by done.
    cbn [advise_parts p]. unfold AdviseVisitor_Visit. unfold madvise_not_fatal in Hp.
    cbn [fst snd p] in Hp.
    destruct (madvise_result _ _ _ _ _) as [e|n]; [done|]. rewrite (Hp n eq_refl). cbn [Z.eqb].
    rewrite IH by done. cbv zeta. cbn [orb fst snd]. unfold add_made, record. simpl.
    by rewrite <-app_assoc.
  - assert (omap (part_of a b) (r :: rs) = omap (part_of a b) rs) as Hps
      by (simpl; unfold part_of; by rewrite E).
    cbv zeta. rewrite Hps in *. unfold mret at 1, St_ret at 1. by apply IH.
Qed.

Definition protect_calls (prot : Z) (ps : list (sid * Z * Z)) : list mcall :=
  map (λ p : sid * Z * Z, CallMprotect p.1.1 p.1.2 (p.2 - p.1.2 + 1) prot) ps.

Definition mprotect_ok (ops : stream_ops) (prot : Z) (p : sid * Z * Z) : Prop :=
  mprotect_result ops p.1.1 p.1.2 (p.2 - p.1.2 + 1) prot = true.

Lemma protect_visits ops prot a b rs visited m :
  Forall (mprotect_ok ops prot) (omap (part_of a b) rs) →
  let ps := omap (part_of a b) rs in
  ∃ m', visit_regions (ProtectionVisitor_Visit ops prot) a b rs (visited, m) =
          Done (tt, (visited || bool_decide (ps ≠ []), m')) ∧
    map_ m' = map_ m ∧ made m' = made m ++ protect_calls prot ps ∧
    (∀ i, i ∈ write_mapped_ m' ↔
       i ∈ write_mapped_ m ∨ flag prot PROT_WRITE = true ∧ ∃ p, p ∈ ps ∧ i = inode ops p.1.1).
Proof.
  revert visited m. induction rs as [|r rs IH]; intros visited m Hok ps; subst ps.
  { exists m. rewrite orb_false_r. cbn [omap list_omap protect_calls map]. rewrite app_nil_r.
    split_and!; try done. intros i. split; [auto|]. intros [?|[_ (p & Hp & _)]]; [done|].
    by apply elem_of_nil in Hp. }
  cbn [visit_regions]. unfold mbind, St_bind.
  destruct (r_stream r) as [s|] eqn:E.
  - set (p := (s, Z.max a (r_start r), Z.min b (r_end r))).
    assert (omap (part_of a b) (r :: rs) = p :: omap (part_of a b) rs) as Hps
      by (simpl; unfold part_of; by rewrite E).
    rewrite Hps in *. inversion Hok as [|?? Hp Hok']; subst.
    rewrite (bool_decide_true (p :: _ ≠ [])), orb_true_r by done.
    unfold ProtectionVisitor_Visit at 1. unfold mprotect_ok in Hp. cbn [fst snd p] in Hp. rewrite Hp.
    edestruct IH as (m' & -> & Hm' & Hmade & Hw); [done|]. exists m'. cbn [orb]. split; [done|].
    cbn [protect_calls map fst snd p]. destruct (flag prot PROT_WRITE) eqn:Ef.
    + rewrite Hm', Hmade. split; [done|]. split; [simpl; by rewrite <-app_assoc|].
      intros i. rewrite Hw. simpl. setoid_rewrite elem_of_cons. rewrite elem_of_union, elem_of_singleton.
      naive_solver.
    + rewrite Hm', Hmade. split; [done|]. split; [simpl; by rewrite <-app_assoc|].
      intros i. rewrite Hw. simpl. naive_solver.
  - assert (omap (part_of a b) (r :: rs) = omap (part_of a b) rs) as Hps
      by (simpl; unfold part_of; by rewrite E).
    rewrite Hps in *. unfold mret at 1, St_ret at 1. by apply IH.
Qed.

(** Walking the map.  For a map of disjoint intervals, [SetAdviceByAddr]
    calls [madvise], and [ChangeProtectionModeByAddr] [mprotect], on exactly the
    mapped files that meet the range, in address order and with the part of the
    region inside the range; the map itself stays.  [SetAdviceByAddr] stops at the
    first file that refuses and gives its error; both give ENOSYS when there is no
    file in the range; a successful PROT_WRITE marks the files as mapped for
    writing; a zero length succeeds. *)
Theorem page_map_visitors ops rs m addr len advice prot :
  represents m rs → addr mod 2 = 0 → len mod 2 = 0 → 0 < len →
  let ps := parts addr (addr + len - 1) rs in
  (Forall (madvise_not_fatal ops advice) ps →
   SetAdviceByAddr ops addr len advice m =
   Done (if bool_decide (ps = []) then Err ENOSYS
         else match (advise_parts ops advice ps).2 with Some e => Err e | None => Ok tt end,
         add_made (advise_parts ops advice ps).1 m)) ∧
  (Forall (mprotect_ok ops prot) ps →
   ∃ m', ChangeProtectionModeByAddr ops addr len prot m =
           Done (if bool_decide (ps = []) then Err ENOSYS else Ok tt, m') ∧
     represents m' rs ∧ made m' = made m ++ protect_calls prot ps ∧
     (∀ i, IsWriteMapped i m' = true ↔
        IsWriteMapped i m = true ∨ flag prot PROT_WRITE = true ∧ ∃ p, p ∈ ps ∧ i = inode ops p.1.1)) ∧
  SetAdviceByAddr ops addr 0 advice m = Done (Ok tt, m) ∧
  ChangeProtectionModeByAddr ops addr 0 prot m = Done (Ok tt, m).
Proof.
  intros Hrep Ha Hl Hpos ps. split_and!; [| |done|done].
  - intros Hnf. unfold SetAdviceByAddr. rewrite (proj2 (Z.eqb_neq len 0)) by lia.
    rewrite (call_by_addr_spec _ rs) by done.
    change ps with (omap (part_of addr (addr + len - 1)) (overlapping addr (addr + len - 1) rs)) in *.
    rewrite advise_visits by done. cbv zeta. cbn [orb].
    destruct (omap _ _); [done|]. by rewrite bool_decide_true.
  - intros Hok. unfold ChangeProtectionModeByAddr. rewrite (proj2 (Z.eqb_neq len 0)) by lia.
    rewrite (call_by_addr_spec _ rs) by done.
    change ps with (omap (part_of addr (addr + len - 1)) (overlapping addr (addr + len - 1) rs)) in *.
    destruct (protect_visits ops prot addr (addr + len - 1) (overlapping addr (addr + len - 1) rs)
                false m Hok) as (m' & -> & Hm' & Hmade & Hw).
    exists m'. cbn [orb]. split; [|split; [|split; [done|]]].
    + destruct (omap _ _); [done|]. by rewrite bool_decide_true.
    + destruct Hrep as [? Hm]. split; [done|congruence].
    + intros i. unfold IsWriteMapped. rewrite !bool_decide_eq_true. apply Hw.
Qed.

(** ** Witnesses *)

Definition witness_ops : stream_ops :=
  {| pathname := λ _, lit "/dev/x"; inode := λ s, Z.of_nat s;
     ReturnsSameAddressForMultipleMmaps := λ _, true;
     munmap_result := λ _ _ _, true; madvise_result := λ _ _ _ _, Ok 0;
     mprotect_result := λ _ _ _ _, true |}.

Definition witness_regions : list region :=
  [ {| r_start := 4096; r_end := 16383; r_ref := 1; r_offset := 0; r_stream := Some 1%nat |};
    {| r_start := 20480; r_end := 24575; r_ref := 2; r_offset := 0; r_stream := Some 2%nat |} ].

Definition witness_map : MemoryRegion :=
  {| map_ := encode witness_regions; abort_on_unexpected_memory_maps_ := true;
     write_mapped_ := ∅; made := [] |}.

Lemma witness_represents : represents witness_map witness_regions.
Proof.
  split; [|done]. split; repeat constructor; unfold before; simpl; lia.
Qed.

Lemma add_file_stream_by_addr_refines_witness :
  ∃ m' rs', AddFileStreamByAddr witness_ops 16384 4096 0 3 0 (Some 3%nat) witness_map = Done (true, m') ∧
    represents m' rs' ∧ owner rs' 16384 = Some (Some 3%nat).
Proof.
  pose proof (add_file_stream_by_addr_refines witness_ops witness_regions witness_map 16384 4096 0 3 0
    (Some 3%nat) witness_represents eq_refl eq_refl ltac:(lia)) as H.
  destruct H as (m' & rs' & Hrun & Hrep & How & _).
  - right. repeat constructor; intros [H1 H2]; discriminate.
  - exists m', rs'. split; [exact Hrun|]. split; [exact Hrep|]. rewrite How. reflexivity.
Defined.

Lemma remove_file_streams_by_addr_refines_witness :
  ∃ m' rs', RemoveFileStreamsByAddr witness_ops 8192 4096 true witness_map = Done (Ok tt, m') ∧
    represents m' rs' ∧ owner rs' 8192 = None ∧ owner rs' 12288 = Some (Some 1%nat) ∧
    made m' = [CallMunmap 1 8192 4096].
Proof.
  destruct (remove_file_streams_by_addr_refines witness_ops witness_regions witness_map 8192 4096 true
    witness_represents eq_refl eq_refl ltac:(lia)) as [_ H].
  destruct H as (m' & rs' & Hrun & Hrep & How & Hmade & _).
  - repeat constructor.
  - intros _. repeat constructor.
  - exists m', rs'. split; [exact Hrun|]. split; [exact Hrep|]. rewrite !How, Hmade. repeat split.
Defined.

Lemma page_map_visitors_witness :
  SetAdviceByAddr witness_ops 12288 12288 4 witness_map =
    Done (Ok tt, add_made [CallMadvise 1 12288 4096 4; CallMadvise 2 20480 4096 4] witness_map).
Proof.
  destruct (page_map_visitors witness_ops witness_regions witness_map 12288 12288 4 1
    witness_represents eq_refl eq_refl ltac:(lia)) as [H _].
  apply H. repeat constructor; intros n [= <-]; reflexivity.
Defined.
