(* ===== verification/VfsMemory.v ===== *)
(** * VfsMemory: the memory calls of [virtual_file_system.cc]
    (under src/posix_translation/)

    [mmap], [munmap], [mprotect] and [madvise] bring addresses and lengths to page
    boundaries, find the stream, let it map, and keep the map of MemoryRegion.v up
    to date.  The state is that of VfsFds.v with the map and the streams' own state
    [E]; the streams' [mmap] is a parameter, as their other methods are in
    MemoryRegion.v. *)

From S2P Require Import Prelude Util FileStream FdMap VfsFds MemoryRegion.
Import Refs.

#[local] Open Scope Z_scope.

(** MAP_ANON and MAP_ANONYMOUS are the same bit. *)
Definition MAP_ANONYMOUS : Z := 32.
Definition PROT_NONE : Z := 0.
Definition kBadInode : Z := -1.

Section Memory.
Context {E : Type} (page_size : Z) (allowed : sid → bool) (ops : stream_ops).
(** [stream->mmap(addr, length, prot, flags, offset)] *)
Context (stream_mmap : sid → Z → Z → Z → Z → Z → St E (res Z)).
(** [abort_on_unexpected_memory_maps_] of the file system. *)
Context (abort_on_unexpected : bool).

Abbreviation MS := (Sys (MemoryRegion * E)).

Definition on_memory {A} (m : St MemoryRegion A) : St MS A := λ w,
  match m w.2.1 with
  | Done (a, r) => Done (a, (w.1, (r, w.2.2)))
  | Abort => Abort
  | NoFuel => NoFuel
  end.

Definition on_stream_state {A} (m : St E A) : St MS A := λ w,
  match m w.2.2 with
  | Done (a, e) => Done (a, (w.1, (w.2.1, e)))
  | Abort => Abort
  | NoFuel => NoFuel
  end.

(** The stream that is mapped: a new [PassthroughStream] for anonymous memory. *)
Definition mmap_stream (flags fd : Z) : St MS (option sid) :=
  if flag flags MAP_ANONYMOUS then
    w ← get;
    let s := fresh (dom (objects (w : MS).1.2)) in
    on_fds (on_streams (set_object s (new_stream 0 false)));;
    mret (Some s)
  else on_fds (GetStream allowed fd).

(** The address, or errno with MAP_FAILED. *)
Definition mmap (addr length prot flags fd offset : Z) : St MS (res Z) :=
  if length =? 0 then mret (Err EINVAL)
  else if negb (IsPageAligned page_size addr) && flag flags MAP_FIXED then mret (Err EINVAL)
  else
    let addr := if negb (IsPageAligned page_size addr)
                then Z.land addr (wrap32 (Z.lnot (GetPageSize page_size - 1))) else addr in
    if negb (RoundToPageSize page_size offset =? wrap32 offset) then mret (Err EINVAL)
    else
      stream ← mmap_stream flags fd;
      match stream with
      | None => mret (Err EBADF)
      | Some stream =>
          let length := RoundToPageSize page_size length in
          new_addr ← on_stream_state (stream_mmap stream addr length prot flags offset);
          match new_addr with
          | Err e => mret (Err e)
          | Ok new_addr =>
              check (IsPageAligned page_size new_addr);;
              (if flag flags MAP_FIXED
               then on_memory (RemoveFileStreamsByAddr ops addr length false);; mret tt else mret tt);;
              result ← on_memory (AddFileStreamByAddr ops new_addr length offset prot flags (Some stream));
              if (result : bool) then mret (Ok new_addr)
              else check (negb abort_on_unexpected);; mret (Err ENODEV)
          end
      end.

Definition munmap (addr length : Z) : St MS (res unit) :=
  if negb (IsPageAligned page_size addr) || (length =? 0) then mret (Err EINVAL)
  else on_memory (RemoveFileStreamsByAddr ops addr (RoundToPageSize page_size length) true).

Definition mprotect (addr length prot : Z) : St MS (res unit) :=
  if negb (IsPageAligned page_size addr) then mret (Err EINVAL)
  else on_memory (ChangeProtectionModeByAddr ops addr (RoundToPageSize page_size length) prot).

Definition madvise (addr length advice : Z) : St MS (res unit) :=
  if negb (IsPageAligned page_size addr) then mret (Err EINVAL)
  else on_memory (SetAdviceByAddr ops addr (RoundToPageSize page_size length) advice).

Definition IsMemoryRangeAvailableLocked (addr length : Z) : St MS bool :=
  added ← on_memory (AddFileStreamByAddr ops addr length kBadInode PROT_NONE 0 None);
  if negb (added : bool) then mret false
  else
    result ← on_memory (RemoveFileStreamsByAddr ops addr length true);
    check (bool_decide (result = Ok tt));;
    mret true.
End Memory.

(** ** Pages *)

Section Pages.
Context (k : Z) (Hk : 1 <= k < 32).

Lemma page_even x : IsPageAligned (2 ^ k) x = true → x mod 2 = 0.
Proof.
  unfold IsPageAligned, GetPageSize. rewrite land_pred_pow2 by lia. intros Hx%Z.eqb_eq.
  assert (2 ^ k = 2 * 2 ^ (k - 1)) as Hp by (rewrite <-Z.pow_succ_r by lia; f_equal; lia).
  pose proof (Z.pow_pos_nonneg 2 (k - 1) ltac:(lia) ltac:(lia)).
  apply Z.mod_divide in Hx as [c ->]; [|lia]. rewrite Hp.
  replace (c * (2 * 2 ^ (k - 1))) with (c * 2 ^ (k - 1) * 2) by lia. by rewrite Z.mod_mul by lia.
Qed.

Lemma rounded_page len : 0 <= len < 2 ^ 32 →
  IsPageAligned (2 ^ k) (RoundToPageSize (2 ^ k) len) = true ∧
  (0 < len → len + 2 ^ k <= 2 ^ 32 → len <= RoundToPageSize (2 ^ k) len < len + 2 ^ k).
Proof.
  intros Hlen. rewrite round_to_page_eq by lia.
  pose proof (Z.pow_pos_nonneg 2 k ltac:(lia) ltac:(lia)) as Hpos.
  unfold IsPageAligned, GetPageSize. rewrite land_pred_pow2, Z.eqb_eq by lia. case_decide as Hd.
  - rewrite Z.mod_mul by lia. split; [done|].
    pose proof (Z_div_mod_eq_full (len + 2 ^ k - 1) (2 ^ k)).
    pose proof (Z.mod_pos_bound (len + 2 ^ k - 1) (2 ^ k) Hpos). lia.
  - rewrite Z.mod_0_l by lia. split; [done|lia].
Qed.

(** The address that the streams are asked for. *)
Lemma aligned_down addr :
  0 <= addr < 2 ^ 32 →
  (if negb (IsPageAligned (2 ^ k) addr) then Z.land addr (wrap32 (Z.lnot (GetPageSize (2 ^ k) - 1))) else addr) =
  addr / 2 ^ k * 2 ^ k.
Proof.
  intros Ha. pose proof (Z.pow_pos_nonneg 2 k ltac:(lia) ltac:(lia)).
  unfold IsPageAligned, GetPageSize. rewrite land_pred_pow2 by lia. destruct (Z.eqb_spec (addr mod 2 ^ k) 0) as [He|He]; cbn [negb].
  - pose proof (Z_div_mod_eq_full addr (2 ^ k)). lia.
  - by rewrite land_not_pred_pow2 by lia.
Qed.

Lemma down_aligned addr : IsPageAligned (2 ^ k) (addr / 2 ^ k * 2 ^ k) = true.
Proof.
  unfold IsPageAligned, GetPageSize. pose proof (Z.pow_pos_nonneg 2 k ltac:(lia) ltac:(lia)).
  by rewrite land_pred_pow2, Z.mod_mul by lia.
Qed.
End Pages.

(** ** The calls on intervals *)

Section MemoryFacts.
Context {E : Type} (k : Z) (Hk : 1 <= k < 32) (allowed : sid → bool) (ops : stream_ops).
Context (stream_mmap : sid → Z → Z → Z → Z → Z → St E (res Z)) (abort_on_unexpected : bool).

Abbreviation MS := (Sys (MemoryRegion * E)).
Abbreviation page := (2 ^ k).
Implicit Types w : MS.

Lemma on_memory_run {A} (m : St MemoryRegion A) w a r :
  m w.2.1 = Done (a, r) → on_memory m w = Done (a, (w.1, (r, w.2.2))).
Proof. unfold on_memory. by intros ->. Qed.

Lemma on_stream_state_run {A} (m : St E A) w a e :
  m w.2.2 = Done (a, e) → on_stream_state m w = Done (a, (w.1, (w.2.1, e))).
Proof. unfold on_stream_state. by intros ->. Qed.

(** The memory of [w'] is that of [w] with the addresses of [a..b] given to [s]. *)
Definition remapped rs (a b : Z) (s : option (option sid)) (m' : MemoryRegion) : Prop :=
  ∃ rs', represents m' rs' ∧ ∀ x, owner rs' x = if decide (a <= x <= b) then s else owner rs x.

(** The region that a new mapping makes. *)
Definition fresh_region (a len off : Z) (s : option sid) : region :=
  mkRegion a (a + len - 1) 1 off s.

Lemma fresh_region_ok a len off s : a mod 2 = 0 → len mod 2 = 0 → 0 < len → region_ok (fresh_region a len off s).
Proof. intros Ha Hl Hpos. repeat split; cbn; try done; zmod. Qed.

Lemma add_free rs m a len off prot flags s :
  represents m rs → a mod 2 = 0 → len mod 2 = 0 → 0 < len →
  existsb (overlaps a (a + len - 1)) rs = false →
  ∃ m', AddFileStreamByAddr ops a len off prot flags s m = Done (true, m') ∧
    represents m' (insert_region (fresh_region a len off s) rs) ∧ made m' = made m.
Proof.
  intros Hrep Ha Hl Hpos Hno.
  destruct (add_new_fresh ops rs m a len off prot s Hrep Ha Hl Hpos Hno) as [Hnew Hok].
  assert (AddFileStreamByAddr ops a len off prot flags s m = add_new_region ops a len off prot s m) as ->.
  { rewrite (add_region_run ops rs) by done. destruct s as [s|]; [|done].
    destruct (FindRegion_spec rs a len (proj1 Hrep) Ha) as [(l & r & t & -> & H1 & H2 & _)|[_ ->]]; [|done].
    pose proof (no_overlap_not_exact _ a len Hpos Hno) as Hex. rewrite Forall_forall in Hex.
    exfalso. apply (Hex r); [|by split]. apply elem_of_app. right. by left. }
  eexists. split; [exact Hnew|]. split; [by split|done].
Qed.

Lemma inserted_remapped rs m' a len off s :
  regions_ok rs → a mod 2 = 0 → len mod 2 = 0 → 0 < len → existsb (overlaps a (a + len - 1)) rs = false →
  represents m' (insert_region (fresh_region a len off s) rs) → remapped rs a (a + len - 1) (Some s) m'.
Proof.
  intros Hrs Ha Hl Hpos Hno Hrep. eexists. split; [exact Hrep|]. intros x.
  rewrite owner_insert by (done || by apply fresh_region_ok). rewrite overlaps_spec. cbn.
  case_bool_decide; case_decide; done || lia.
Qed.

(** The new region is alone in its range. *)
Lemma inserted_overlapping rs a len off s :
  regions_ok rs → a mod 2 = 0 → len mod 2 = 0 → 0 < len → existsb (overlaps a (a + len - 1)) rs = false →
  overlapping a (a + len - 1) (insert_region (fresh_region a len off s) rs) = [fresh_region a len off s].
Proof.
  intros Hrs Ha Hl Hpos Hno. pose proof (fresh_region_ok a len off s Ha Hl Hpos) as (_ & _ & Hlt & _). cbn in Hlt.
  destruct (split_around rs _ _ Hrs Hlt Hno) as (l & t & -> & Hlb & Htb).
  rewrite insert_region_app; cbn.
  - rewrite overlapping_app, (overlapping_none _ _ l); [|apply before_none; exact Hlb].
    cbn [app]. unfold overlapping. cbn [List.filter]. rewrite overlaps_spec, bool_decide_true by (cbn; lia).
    fold (overlapping a (a + len - 1) t). rewrite overlapping_none; [done|].
    eapply Forall_impl; [exact Htb|]. intros x [_ Hx]. rewrite overlaps_spec, bool_decide_false; [done|lia].
  - eapply Forall_impl; [exact Hlb|]. cbn. naive_solver.
  - by apply fresh_region_ok.
  - eapply Forall_impl; [exact Htb|]. unfold before. cbn. naive_solver.
Qed.

Lemma remove_mapped rs m a len cm :
  represents m rs → a mod 2 = 0 → len mod 2 = 0 → 0 < len →
  let b := a + len - 1 in
  Forall (λ r, r_ref r = 1) (overlapping a b rs) → (cm = true → Forall (munmap_ok ops) (parts a b rs)) →
  ∃ m', RemoveFileStreamsByAddr ops a len cm m =
          Done (if existsb (overlaps a b) rs then Ok tt else Err ENOSYS, m') ∧
    represents m' (subtract a b rs) ∧ made m' = made m ++ map (unmap_call cm) (parts a b rs).
Proof.
  intros Hrep Ha Hl Hpos b Href Hun.
  destruct (remove_by_addr_spec ops rs m a len cm Hrep Ha Hl Hpos) as [_ Hrem].
  destruct (Hrem Href Hun) as (m' & Hrun & Hrep' & Hmade & _). by exists m'.
Qed.

Lemma subtract_remapped rs m a b : represents m (subtract a b rs) → remapped rs a b None m.
Proof. intros Hrep. exists (subtract a b rs). split; [done|]. intros x. apply owner_subtract. Qed.

(** A range that was taken away and is given again. *)
Lemma remapped_over rs rs' a b s m m' :
  represents m rs' → (∀ x, owner rs' x = if decide (a <= x <= b) then None else owner rs x) →
  remapped rs' a b s m' → remapped rs a b s m'.
Proof.
  intros _ How (rs2 & Hrep & How2). exists rs2. split; [done|]. intros x. rewrite How2, How. by case_decide.
Qed.

Lemma mmap_rejected addr length prot flags fd off w :
  0 <= addr < 2 ^ 32 →
  (length =? 0) || (negb (IsPageAligned page addr) && flag flags MAP_FIXED)
    || negb (RoundToPageSize page off =? wrap32 off) = true →
  mmap page allowed ops stream_mmap abort_on_unexpected addr length prot flags fd off w = Done (Err EINVAL, w).
Proof.
  intros Ha. unfold mmap. destruct (length =? 0); [done|]. destruct (_ && _); [done|]. cbn [orb].
  by intros ->.
Qed.

(** The stream of the call, and what it answers. *)
Lemma mmap_run addr length prot flags fd off w t s r e :
  0 <= addr < 2 ^ 32 →
  (length =? 0) || (negb (IsPageAligned page addr) && flag flags MAP_FIXED)
    || negb (RoundToPageSize page off =? wrap32 off) = false →
  mmap_stream allowed flags fd w = Done (Some s, (t, w.2)) →
  let a := addr / page * page in let len := RoundToPageSize page length in
  stream_mmap s a len prot flags off w.2.2 = Done (r, e) →
  mmap page allowed ops stream_mmap abort_on_unexpected addr length prot flags fd off w =
  match r with
  | Err err => Done (Err err, (t, (w.2.1, e)))
  | Ok new_addr =>
      (check (IsPageAligned page new_addr);;
       (if flag flags MAP_FIXED
        then on_memory (RemoveFileStreamsByAddr ops a len false);; mret tt else mret tt);;
       result ← on_memory (AddFileStreamByAddr ops new_addr len off prot flags (Some s));
       if (result : bool) then mret (Ok new_addr)
       else check (negb abort_on_unexpected);; mret (Err ENODEV)) (t, (w.2.1, e))
  end.
Proof.
  intros Ha Hok Hs a len Hm. apply orb_false_iff in Hok as [[H1 H2]%orb_false_iff H3].
  unfold mmap. rewrite H1, H2. cbv zeta. rewrite H3, (aligned_down k) by lia.
  run_with Hs. pose proof (on_stream_state_run (stream_mmap s a len prot flags off) (t, w.2) r e Hm) as Hrun.
  run_with Hrun. cbn [fst snd]. by destruct r.
Qed.

(** The stream that [mmap] finds or makes. *)
Definition stream_to_map (flags fd : Z) w : option sid :=
  if flag flags MAP_ANONYMOUS then Some (fresh (dom (objects w.1.2))) else stream_at w.1 fd.

Lemma mmap_stream_run extra flags fd w :
  fds_ok extra allowed w.1 →
  ∃ t, mmap_stream allowed flags fd w = Done (stream_to_map flags fd w, (t, w.2)) ∧ fds_ok extra allowed t ∧
    (∀ x, stream_at t x = stream_at w.1 x) ∧ (stream_to_map flags fd w = None → t = w.1).
Proof.
  intros Hw. unfold mmap_stream, stream_to_map. destruct (flag flags MAP_ANONYMOUS).
  - destruct w as [[t st] [m e]]. cbn [fst snd]. set (s := fresh (dom (objects st))).
    exists (t, mkStreams (<[s := new_stream 0 false]> (objects st)) (calls st)). split; [done|]. split; [|done].
    apply fds_ok_new_object; [done|]. apply not_elem_of_dom, is_fresh.
  - exists w.1. by rewrite (on_fds_run _ w _ _ (get_stream_ok extra allowed w.1 fd Hw)).
Qed.

Lemma munmap_run rs w addr length :
  represents w.2.1 rs → IsPageAligned page addr = true → 0 < length → length + page <= 2 ^ 32 →
  let b := addr + RoundToPageSize page length - 1 in
  Forall (λ r, r_ref r = 1) (overlapping addr b rs) → Forall (munmap_ok ops) (parts addr b rs) →
  ∃ m', munmap page ops addr length w = Done (if existsb (overlaps addr b) rs then Ok tt else Err ENOSYS, (w.1, (m', w.2.2))) ∧
    represents m' (subtract addr b rs) ∧ made m' = made w.2.1 ++ map (unmap_call true) (parts addr b rs).
Proof.
  intros Hrep Ha Hpos Hlen b Href Hun. pose proof (Z.pow_pos_nonneg 2 k ltac:(lia) ltac:(lia)).
  destruct (rounded_page k Hk length ltac:(lia)) as [Hpage Hround]. specialize (Hround Hpos Hlen).
  destruct (remove_mapped rs w.2.1 addr (RoundToPageSize page length) true Hrep) as (m' & Hrun & Hm' & Hmade);
    [by apply (page_even k)|by apply (page_even k)|lia|done|done|].
  exists m'. split; [|done]. unfold munmap. rewrite Ha, (proj2 (Z.eqb_neq length 0)) by lia. cbn [negb orb].
  by rewrite (on_memory_run _ w _ _ Hrun).
Qed.

(** What [mmap] does to the map when the stream has answered [new]. *)
Definition mmap_tail (a len prot flags off : Z) (s : sid) (new : Z) : St MS (res Z) :=
  check (IsPageAligned page new);;
  (if flag flags MAP_FIXED
   then on_memory (RemoveFileStreamsByAddr ops a len false);; mret tt else mret tt);;
  result ← on_memory (AddFileStreamByAddr ops new len off prot flags (Some s));
  if (result : bool) then mret (Ok new)
  else check (negb abort_on_unexpected);; mret (Err ENODEV).

Section Answered.
Context (rs : list region) (t : World) (m : MemoryRegion) (e : E) (a len prot flags off new : Z) (s : sid).
Context (Hrep : represents m rs) (Hnew : IsPageAligned page new = true) (Hlen : IsPageAligned page len = true).
Context (Hpos : 0 < len).

Lemma new_even : new mod 2 = 0.
Proof. by apply (page_even k). Qed.

Lemma len_even : len mod 2 = 0.
Proof. by apply (page_even k). Qed.

Lemma mmap_fixed :
  flag flags MAP_FIXED = true → new = a → let b := a + len - 1 in
  Forall (λ r, r_ref r = 1) (overlapping a b rs) →
  ∃ m', mmap_tail a len prot flags off s new (t, (m, e)) = Done (Ok a, (t, (m', e))) ∧
    represents m' (insert_region (fresh_region a len off (Some s)) (subtract a b rs)) ∧
    remapped rs a b (Some (Some s)) m' ∧ made m' = made m ++ map (unmap_call false) (parts a b rs).
Proof.
  intros Hf Hna b Href. pose proof new_even as Hneven. pose proof len_even as Hleven.
  assert (a mod 2 = 0) as Haeven by congruence.
  destruct (remove_mapped rs m a len false Hrep Haeven Hleven Hpos Href) as (m1 & Hrem & Hrep1 & Hmade); [done|].
  pose proof (owner_subtract a b rs) as How1.
  assert (existsb (overlaps a b) (subtract a b rs) = false) as Hno.
  { apply no_owner_no_overlap; [apply Hrep1|unfold b; lia|]. intros x Hx. by rewrite How1, decide_True. }
  destruct (add_free _ m1 a len off prot flags (Some s) Hrep1 Haeven Hleven Hpos Hno) as (m2 & Hadd & Hrep2 & Hmade2).
  exists m2. split; [|split; [done|split; [|by rewrite Hmade2]]].
  - unfold mmap_tail. rewrite Hf, Hnew, Hna.
    rewrite (St_bind_run (check true) _ (t, (m, e)) tt (t, (m, e)) eq_refl).
    rewrite (St_bind_run _ _ (t, (m, e)) tt (t, (m1, e))).
    2: { by rewrite (St_bind_run _ _ _ _ _ (on_memory_run _ (t, (m, e)) _ _ Hrem)). }
    by rewrite (St_bind_run _ _ _ _ _ (on_memory_run _ (t, (m1, e)) _ _ Hadd)).
  - eapply remapped_over; [exact Hrep1|exact How1|]. by apply (inserted_remapped _ m2 a len off); [apply Hrep1|..].
Qed.

Lemma mmap_refused :
  flag flags MAP_FIXED = false → existsb (overlaps new (new + len - 1)) rs = true →
  Forall (λ r, ¬ exact new len r) rs →
  mmap_tail a len prot flags off s new (t, (m, e)) =
  if abort_on_unexpected then Abort else Done (Err ENODEV, (t, (m, e))).
Proof.
  intros Hf Hov Hex.
  pose proof (add_by_addr_spec ops rs m new len off prot flags (Some s) Hrep new_even len_even Hpos (or_intror Hex)) as Hadd.
  rewrite Hov in Hadd. unfold mmap_tail. rewrite Hf, Hnew.
  rewrite (St_bind_run (check true) _ (t, (m, e)) tt (t, (m, e)) eq_refl).
  rewrite (St_bind_run (mret tt) _ (t, (m, e)) tt (t, (m, e)) eq_refl).
  rewrite (St_bind_run _ _ _ _ _ (on_memory_run _ (t, (m, e)) _ _ Hadd)). by destruct abort_on_unexpected.
Qed.

Lemma mmap_placed :
  flag flags MAP_FIXED = false → let b := new + len - 1 in existsb (overlaps new b) rs = false →
  ∃ m', mmap_tail a len prot flags off s new (t, (m, e)) = Done (Ok new, (t, (m', e))) ∧
    represents m' (insert_region (fresh_region new len off (Some s)) rs) ∧ remapped rs new b (Some (Some s)) m' ∧
    made m' = made m.
Proof.
  intros Hf b Hno.
  destruct (add_free rs m new len off prot flags (Some s) Hrep new_even len_even Hpos Hno) as (m2 & Hadd & Hrep2 & Hmade).
  exists m2. split; [|split; [done|split; [|done]]].
  - unfold mmap_tail. rewrite Hf, Hnew.
    rewrite (St_bind_run (check true) _ (t, (m, e)) tt (t, (m, e)) eq_refl).
    rewrite (St_bind_run (mret tt) _ (t, (m, e)) tt (t, (m, e)) eq_refl).
    by rewrite (St_bind_run _ _ _ _ _ (on_memory_run _ (t, (m, e)) _ _ Hadd)).
  - by apply (inserted_remapped rs m2 new len off); [apply Hrep|apply new_even|apply len_even|..].
Qed.

(** [munmap] of what was just mapped. *)
Lemma munmap_placed m' length :
  existsb (overlaps new (new + len - 1)) rs = false → 0 < length → length + page <= 2 ^ 32 →
  RoundToPageSize page length = len → Forall (munmap_ok ops) [(s, new, new + len - 1)] →
  represents m' (insert_region (fresh_region new len off (Some s)) rs) →
  ∃ m2, munmap page ops new length (t, (m', e)) = Done (Ok tt, (t, (m2, e))) ∧
    remapped rs new (new + len - 1) None m2.
Proof.
  intros Hno Hlpos Hlength Hround Hmun Hrep2. set (n := fresh_region new len off (Some s)) in *.
  pose proof (inserted_overlapping rs new len off (Some s) (proj1 Hrep) new_even len_even Hpos Hno) as Hov. fold n in Hov.
  destruct (munmap_run _ (t, (m', e)) new length Hrep2 Hnew Hlpos Hlength) as (m3 & Hrun3 & Hrep3 & _).
  - rewrite Hround, Hov. by repeat constructor.
  - rewrite Hround. unfold parts. rewrite Hov. cbn. rewrite Z.max_id, Z.min_id. exact Hmun.
  - rewrite Hround in Hrun3, Hrep3. exists m3. split.
    + rewrite Hrun3. assert (existsb (overlaps new (new + len - 1)) (insert_region n rs) = true) as ->; [|done].
      apply existsb_exists. exists n.
      assert (n ∈ overlapping new (new + len - 1) (insert_region n rs)) as Hin by (rewrite Hov; by left).
      by apply list_elem_of_In, List.filter_In in Hin.
    + eexists. split; [exact Hrep3|]. intros x. rewrite owner_subtract. case_decide; [done|].
      rewrite owner_insert by (done || apply Hrep || apply fresh_region_ok; done || apply new_even || apply len_even).
      rewrite overlaps_spec, bool_decide_false; [done|]. cbn. lia.
Qed.
End Answered.

(** What [munmap] does, addresses that are not aligned and empty ranges included. *)
Definition unmapped rs w addr length : Prop :=
  let len := RoundToPageSize page length in
  let b := addr + len - 1 in
  let run := munmap page ops addr length w in
  if negb (IsPageAligned page addr) || (length =? 0) then run = Done (Err EINVAL, w)
  else
    length + page <= 2 ^ 32 → addr + len <= 2 ^ 32 →
    Forall (λ r, r_ref r = 1) (overlapping addr b rs) → Forall (munmap_ok ops) (parts addr b rs) →
    ∃ m', run = Done (if existsb (overlaps addr b) rs then Ok tt else Err ENOSYS, (w.1, (m', w.2.2))) ∧
      remapped rs addr b None m' ∧ made m' = made w.2.1 ++ map (unmap_call true) (parts addr b rs).

Lemma munmap_unmaps rs w addr length : represents w.2.1 rs → 0 <= length → unmapped rs w addr length.
Proof.
  intros Hrep Hlength. unfold unmapped. cbv zeta. destruct (negb _ || _) eqn:Ebad.
  - unfold munmap. by rewrite Ebad.
  - apply orb_false_iff in Ebad as [Ha%negb_false_iff Hl%Z.eqb_neq]. intros Hmax _ Href Hun.
    destruct (munmap_run rs w addr length Hrep Ha ltac:(lia) Hmax Href Hun) as (m' & Hrun & Hrep' & Hmade).
    exists m'. split; [exact Hrun|]. split; [by apply subtract_remapped|exact Hmade].
Qed.

(** C8.  Mapping and unmapping, over a map of disjoint intervals.  [mmap] fails with
    EINVAL for an empty range, for an offset that rounding to pages changes, and for an
    address that is not aligned under MAP_FIXED.  Otherwise, for a length that rounding
    does not wrap, it fails with EBADF when the descriptor has no stream, and else asks
    that stream, or a new one for anonymous memory, to map whole pages from the page of
    the address on, and passes the stream's error on.  The stream answers with a
    page-aligned range inside the address space (and, under MAP_FIXED, the range asked
    for).  If the mapping was not fixed and its range is free, every address of those
    pages belongs to the stream afterwards and every other address to what it belonged
    before, and [munmap] undoes it; if a mapping of another extent is in the range, the
    call trips the assertion on unexpected memory maps, or, when those are allowed, fails
    with ENODEV and leaves the map as it is.  A mapping under MAP_FIXED takes the range
    from its former streams, whose regions in it are mapped once, and each of them is told
    about its part.  [munmap] fails with EINVAL for an empty range and for an address that
    is not aligned; otherwise, in the address space, over regions that are mapped once and
    whose streams' [munmap] does not fail, it takes exactly the pages of the range out,
    telling each stream about its part, and answers ENOSYS when nothing was there.  No
    other assertion trips. *)
Theorem mmap_and_munmap extra rs w addr length prot flags fd off :
  fds_ok extra allowed w.1 → represents w.2.1 rs → 0 <= addr < 2 ^ 32 → 0 <= length →
  let a := addr / page * page in
  let len := RoundToPageSize page length in
  let run := mmap page allowed ops stream_mmap abort_on_unexpected addr length prot flags fd off w in
  unmapped rs w addr length ∧
  if (length =? 0) || (negb (IsPageAligned page addr) && flag flags MAP_FIXED)
       || negb (RoundToPageSize page off =? wrap32 off)
  then run = Done (Err EINVAL, w)
  else length + page <= 2 ^ 32 →
    match stream_to_map flags fd w with
    | None => run = Done (Err EBADF, w)
    | Some s =>
        ∃ t, fds_ok extra allowed t ∧ (∀ x, stream_at t x = stream_at w.1 x) ∧
        match stream_mmap s a len prot flags off w.2.2 with
        | Done (Err err, e) => run = Done (Err err, (t, (w.2.1, e)))
        | Done (Ok new, e) =>
            IsPageAligned page new = true → 0 <= new → new + len <= 2 ^ 32 →
            let b := new + len - 1 in
            if flag flags MAP_FIXED then
              new = a → Forall (λ r, r_ref r = 1) (overlapping a b rs) →
              ∃ m', run = Done (Ok a, (t, (m', e))) ∧ remapped rs a b (Some (Some s)) m' ∧
                made m' = made w.2.1 ++ map (unmap_call false) (parts a b rs)
            else if existsb (overlaps new b) rs then
              Forall (λ r, ¬ exact new len r) rs →
              run = if abort_on_unexpected then Abort else Done (Err ENODEV, (t, (w.2.1, e)))
            else
              ∃ m', run = Done (Ok new, (t, (m', e))) ∧ remapped rs new b (Some (Some s)) m' ∧
                (Forall (munmap_ok ops) [(s, new, b)] →
                 ∃ m2, munmap page ops new length (t, (m', e)) = Done (Ok tt, (t, (m2, e))) ∧
                   remapped rs new b None m2)
        | Abort => run = Abort
        | NoFuel => run = NoFuel
        end
    end.
Proof.
  intros Hw Hrep Haddr Hlength a len run. split; [by apply munmap_unmaps|]. destruct ((length =? 0) || _ || _) eqn:Ebad; [by apply mmap_rejected|].
  intros Hlen. destruct (mmap_stream_run extra flags fd w Hw) as (t & Hs & Ht & Hsame & Hnone).
  assert (0 < length) as Hpos.
  { apply orb_false_iff in Ebad as [[Hl%Z.eqb_neq _]%orb_false_iff _]. lia. }
  pose proof (Z.pow_pos_nonneg 2 k ltac:(lia) ltac:(lia)).
  destruct (rounded_page k Hk length ltac:(lia)) as [Hpage Hround]. specialize (Hround Hpos Hlen). fold len in Hpage, Hround.
  destruct (stream_to_map flags fd w) as [s|] eqn:Es.
  2: { rewrite (Hnone eq_refl) in Hs. unfold run, mmap. apply orb_false_iff in Ebad as [[H1 H2]%orb_false_iff H3].
       rewrite H1, H2. cbv zeta. rewrite H3. run_with Hs. by destruct w. }
  exists t. split; [done|]. split; [done|].
  pose proof Ebad as Ebad'. apply orb_false_iff in Ebad' as [[H1 H2]%orb_false_iff H3].
  destruct (stream_mmap s a len prot flags off w.2.2) as [[r e]| |] eqn:Em;
    [|unfold run, mmap; rewrite H1, H2; cbv zeta; rewrite H3, (aligned_down k) by lia; run_with Hs;
      unfold mbind, St_bind, on_stream_state; cbn [fst snd]; fold a len; by rewrite Em..].
  pose proof (mmap_run addr length prot flags fd off w t s r e Haddr Ebad Hs Em) as Hrun. fold run a len in Hrun.
  destruct r as [err|new]; [done|]. intros Hnew _ _ b. change (run = mmap_tail a len prot flags off s new (t, (w.2.1, e))) in Hrun.
  rewrite Hrun. destruct (flag flags MAP_FIXED) eqn:Ef.
  - intros Hna Href. subst new.
    destruct (mmap_fixed rs t w.2.1 e a len prot flags off a s Hrep Hnew Hpage ltac:(lia) Ef eq_refl Href) as (m' & H1' & _ & H2' & H3').
    by exists m'.
  - destruct (existsb (overlaps new b) rs) eqn:Eno.
    + intros Hex. by apply (mmap_refused rs); [..|lia|done|done|].
    + destruct (mmap_placed rs t w.2.1 e a len prot flags off new s) as (m' & Hplaced & Hrep' & Hmap & _); try done; [lia|].
      exists m'. split; [done|]. split; [done|]. intros Hmun.
      by apply (munmap_placed rs t w.2.1 e len off new s); [..|lia| | | | | |].
Qed.
End MemoryFacts.

(** ** Witness *)

Module MemoryProperties.
Import DescriptorProperties.

(** The stream maps where it is asked to. *)
Definition at_hint (_ : sid) (addr _ _ _ _ : Z) : St unit (res Z) := mret (Ok addr).

Definition memory_world : Sys (MemoryRegion * unit) := (FdMap.witness_world, (witness_map, tt)).

Lemma mmap_and_munmap_witness :
  (∃ m', munmap 4096 witness_ops 8192 5000 memory_world = Done (Ok tt, (memory_world.1, (m', tt))) ∧
     remapped witness_regions 8192 16383 None m' ∧ made m' = [CallMunmap 1 8192 8192]) ∧
  ∃ t m m2, mmap 4096 (λ _, true) witness_ops at_hint true 32769 5000 3 MAP_ANONYMOUS (-1) 0 memory_world =
      Done (Ok 32768, (t, (m, tt))) ∧
    remapped witness_regions 32768 40959 (Some (stream_to_map MAP_ANONYMOUS (-1) memory_world)) m ∧
    munmap 4096 witness_ops 32768 5000 (t, (m, tt)) = Done (Ok tt, (t, (m2, tt))).
Proof.
  split.
  { destruct (mmap_and_munmap 12 ltac:(lia) (λ _, true) witness_ops at_hint true no_extra witness_regions memory_world
      8192 5000 3 0 (-1) 0 witness_fds_ok witness_represents ltac:(lia) ltac:(lia)) as [Hun _].
    destruct (Hun ltac:(lia) ltac:(vm_compute; discriminate)) as (m' & Hrun & Hre & Hmade).
    - vm_compute. repeat constructor.
    - repeat constructor.
    - exists m'. split; [exact Hrun|]. split; [exact Hre|exact Hmade]. }
  destruct (mmap_and_munmap 12 ltac:(lia) (λ _, true) witness_ops at_hint true no_extra witness_regions memory_world
    32769 5000 3 MAP_ANONYMOUS (-1) 0 witness_fds_ok witness_represents ltac:(lia) ltac:(lia)) as [_ Hboth].
  destruct (Hboth ltac:(lia)) as (t & _ & _ & Hmap).
  destruct (Hmap ltac:(reflexivity) ltac:(vm_compute; discriminate) ltac:(vm_compute; discriminate)) as (m & Hrun & Hre & Hun).
  destruct Hun as (m2 & Hrun2 & _); [repeat constructor|].
  exists t, m, m2. split; [exact Hrun|]. split; [exact Hre|exact Hrun2].
Defined.
End MemoryProperties.
