(* ===== verification/HostMemory.v ===== *)
(** * HostMemory: the memory of the process

    The [mmap], [munmap] and [mprotect] of the host (NaCl's, under the file system)
    and the loads and stores of a program: an interface with its laws, for the
    streams that call them.  [Logged] is a concrete memory, a log of what was done. *)

From S2P Require Import Prelude Util MemoryRegion VfsMemory.

#[local] Open Scope Z_scope.

Definition PROT_READ : Z := 1.
Definition MAP_SHARED : Z := 1.
Definition MAP_PRIVATE : Z := 2.
Definition MAP_TYPE : Z := 15.
Definition NUL : ascii := Ascii.zero.

Class HostMemory (M : Type) := {
  (* addr, length, prot, flags, fd, offset; an error is MAP_FAILED with errno *)
  host_mmap : Z → Z → Z → Z → Z → Z → St M (res Z);
  host_munmap : Z → Z → St M (res unit);
  host_mprotect : Z → Z → Z → St M (res unit);
  (* None: not mapped *)
  byte_at : M → Z → option ascii;
  write_bytes : Z → str → M → M;
}.

(** [n] bytes from the address [a] on, if all of them are mapped. *)
Definition load `{HostMemory M} (m : M) (a : Z) (n : nat) : option str := mapM (byte_at m) (seqZ a (Z.of_nat n)).

(** What the streams rely on: lengths are multiples of the page size. *)
Class HostMemorySpec (page_size : Z) (M : Type) `{HostMemory M} : Prop := {
  mmap_law : ∀ addr length prot flags fd offset (m : M),
    0 < length → (page_size | length) → flag flags MAP_ANONYMOUS = true →
    ∃ r m', host_mmap addr length prot flags fd offset m = Done (r, m') ∧
      match r with
      | Err _ => ∀ i, byte_at m' i = byte_at m i
      | Ok a =>
          0 < a ∧ a + length < 2 ^ 32 ∧ (flag flags MAP_FIXED = true → a = addr) ∧
          (flag flags MAP_FIXED = false → (page_size | a) ∧ ∀ i, a <= i < a + length → byte_at m i = None) ∧
          ∀ i, byte_at m' i = if decide (a <= i < a + length) then Some NUL else byte_at m i
      end;
  munmap_law : ∀ addr length (m : M), 0 < length → (page_size | length) →
    ∃ r m', host_munmap addr length m = Done (r, m') ∧
      match r with
      | Err _ => ∀ i, byte_at m' i = byte_at m i
      | Ok _ => ∀ i, byte_at m' i = if decide (addr <= i < addr + length) then None else byte_at m i
      end;
  mprotect_law : ∀ addr length prot (m : M),
    ∃ r m', host_mprotect addr length prot m = Done (r, m') ∧ ∀ i, byte_at m' i = byte_at m i;
  write_law : ∀ a bs (m : M) i,
    byte_at (write_bytes a bs m) i =
    if decide (a <= i < a + Z.of_nat (List.length bs)) then byte_at m i ≫= λ _, bs !! Z.to_nat (i - a) else byte_at m i;
}.

(** ** A concrete memory *)

Module Logged.
Inductive event : Type :=
| Mapped (addr length : Z)
| Unmapped (addr length : Z)
| Written (addr : Z) (bs : str).

(** The latest event comes first. *)
Definition log : Type := list event.

Fixpoint log_byte (m : log) (i : Z) : option ascii :=
  match m with
  | [] => None
  | Mapped a n :: m => if decide (a <= i < a + n) then Some NUL else log_byte m i
  | Unmapped a n :: m => if decide (a <= i < a + n) then None else log_byte m i
  | Written a bs :: m =>
      if decide (a <= i < a + Z.of_nat (List.length bs)) then log_byte m i ≫= λ _, bs !! Z.to_nat (i - a)
      else log_byte m i
  end.

Definition page : Z := 4096.

(** Above all that was ever mapped. *)
Fixpoint log_end (m : log) : Z :=
  match m with
  | [] => page
  | Mapped a n :: m => Z.max (a + n) (log_end m)
  | _ :: m => log_end m
  end.

Definition free_address (m : log) : Z := (log_end m + page - 1) / page * page.

Definition log_mmap (addr length prot flags fd offset : Z) : St log (res Z) := λ m,
  if negb (flag flags MAP_ANONYMOUS) then Done (Err ENODEV, m)
  else
    let a := if flag flags MAP_FIXED then addr else free_address m in
    if (0 <? a) && (a + length <? 2 ^ 32) then Done (Ok a, Mapped a length :: m) else Done (Err ENOMEM, m).

#[export] Instance log_memory : HostMemory log := {
  host_mmap := log_mmap;
  host_munmap addr length := λ m, Done (Ok tt, Unmapped addr length :: m);
  host_mprotect addr length prot := λ m, Done (Ok tt, m);
  byte_at := log_byte;
  write_bytes a bs m := Written a bs :: m;
}.

Lemma log_end_above m i c : log_byte m i = Some c → i < log_end m.
Proof.
  revert c. induction m as [|[a n|a n|a bs] m IH]; intros c; cbn [log_byte log_end]; [done|..].
  - case_decide; [lia|]. intros Hc. apply IH in Hc. lia.
  - case_decide; [done|]. apply IH.
  - case_decide; [|apply IH]. destruct (log_byte m i) as [d|] eqn:E; [|done]. intros _. by apply (IH d).
Qed.

Lemma free_address_above m : log_end m <= free_address m.
Proof. unfold free_address, page. Z.to_euclidean_division_equations. lia. Qed.

#[export] Instance log_memory_spec : HostMemorySpec page log.
Proof.
  split.
  - intros addr length prot flags fd offset m Hl _ Hanon. cbn. unfold log_mmap. rewrite Hanon. cbn.
    destruct ((0 <? _) && _) eqn:Ha; [|by eexists _, _].
    apply andb_true_iff in Ha as [H1%Z.ltb_lt H2%Z.ltb_lt]. eexists _, _. split; [done|]. cbn.
    split; [done|]. split; [done|]. split; [by intros ->|]. split; [|done]. intros Hf. rewrite Hf. split; [by exists ((log_end m + page - 1) / page)|]. intros i Hi.
    destruct (log_byte m i) as [c|] eqn:E; [|done]. apply log_end_above in E.
    pose proof (free_address_above m). lia.
  - intros addr length m _ _. by eexists _, _.
  - intros addr length prot m. by eexists _, _.
  - done.
Qed.
End Logged.

(** ** Loads *)

Section Loads.
Context `{HostMemory M}.
Implicit Types m : M.

Lemma load_ext m m' a n :
  (∀ i, a <= i < a + Z.of_nat n → byte_at m i = byte_at m' i) → load m a n = load m' a n.
Proof.
  intros Heq. unfold load. revert a Heq. induction n as [|n IH]; intros a Heq; [done|].
  replace (Z.of_nat (S n)) with (Z.succ (Z.of_nat n)) by lia. rewrite seqZ_cons by lia. cbn [mapM].
  rewrite (Heq a) by lia. replace (Z.pred (Z.succ (Z.of_nat n))) with (Z.of_nat n) by lia.
  rewrite (IH (Z.succ a)); [done|]. intros i Hi. apply Heq. lia.
Qed.

Lemma load_Some m a s :
  load m a (List.length s) = Some s ↔ ∀ i, (i < List.length s)%nat → byte_at m (a + Z.of_nat i) = s !! i.
Proof.
  unfold load. revert a. induction s as [|c s IH]; intros a.
  { split; [intros _ i; cbn; lia|done]. }
  cbn [List.length]. replace (Z.of_nat (S (List.length s))) with (Z.succ (Z.of_nat (List.length s))) by lia.
  rewrite seqZ_cons by lia. cbn [mapM]. replace (Z.pred (Z.succ _)) with (Z.of_nat (List.length s)) by lia.
  split.
  - intros Hm. destruct (byte_at m a) as [d|] eqn:Ed; [|done]. cbn in Hm.
    destruct (mapM _ _) as [t|] eqn:Et; [|done]. injection Hm as -> ->.
    intros [|i] Hi; [by rewrite Z.add_0_r, Ed|].
    change ((c :: s) !! S i) with (s !! i). rewrite <-(proj1 (IH (Z.succ a)) Et i ltac:(lia)). f_equal. lia.
  - intros Hi. pose proof (Hi O ltac:(lia)) as H0. rewrite Z.add_0_r in H0. rewrite H0. cbn.
    rewrite (proj2 (IH (Z.succ a))); [done|]. intros i Hlt.
    change (s !! i) with ((c :: s) !! S i). rewrite <-(Hi (S i) ltac:(lia)). f_equal. lia.
Qed.

Lemma load_length m a n s : load m a n = Some s → List.length s = n.
Proof. intros Hl. apply length_mapM in Hl. rewrite length_seqZ in Hl. lia. Qed.
End Loads.
