(* ===== verification/DevAshmem.v ===== *)
(** * DevAshmem: [dev_ashmem.{h,cc}] (under src/posix_translation/)

    Android's shared memory, emulated with anonymous memory of the process: the
    memory of the first MAP_SHARED mapping is kept for all later ones, and for
    reads after it was unmapped.  The states are those of the header's diagram.
    [fd_], for printouts, is left out. *)

From S2P Require Import Prelude Util FileStream MemoryRegion VfsMemory HostMemory.

#[local] Open Scope Z_scope.

Inductive ashmem_state : Type :=
| STATE_INITIAL
| STATE_MAPPED
| STATE_UNMAP_DELAYED
| STATE_PARTIALLY_UNMAPPED.

#[export] Instance ashmem_state_eq_dec : EqDecision ashmem_state.
Proof. solve_decision. Defined.

(** [content_] is [None] for MAP_FAILED. *)
Record DevAshmem : Type := mkAshmem {
  da_oflag : Z;
  size_ : Z;
  name_ : str;
  content_ : option Z;
  mmap_length_ : Z;
  offset_ : Z;
  has_private_mapping_ : bool;
  state_ : ashmem_state;
}.

Definition DevAshmem_new (oflag : Z) : DevAshmem := mkAshmem oflag 0 [] None 0 0 false STATE_INITIAL.

Definition with_state (s : ashmem_state) (d : DevAshmem) : DevAshmem :=
  mkAshmem (da_oflag d) (size_ d) (name_ d) (content_ d) (mmap_length_ d) (offset_ d) (has_private_mapping_ d) s.
Definition with_offset (o : Z) (d : DevAshmem) : DevAshmem :=
  mkAshmem (da_oflag d) (size_ d) (name_ d) (content_ d) (mmap_length_ d) o (has_private_mapping_ d) (state_ d).

Definition O_ACCMODE : Z := 3.
Definition O_WRONLY : Z := 1.
Definition ASHMEM_NAME_LEN : Z := 256.
Definition ASHMEM_NOT_PURGED : Z := 0.
Definition ASHMEM_IS_UNPINNED : Z := 0.

(** The request and its argument; a null pointer is [None] or [false]. *)
Inductive ashmem_request : Type :=
| ASHMEM_SET_NAME (name : option str)
| ASHMEM_GET_NAME (buffer : bool)
| ASHMEM_SET_SIZE (size : Z)
| ASHMEM_GET_SIZE
| ASHMEM_SET_PROT_MASK (prot : Z)
| ASHMEM_PIN
| ASHMEM_UNPIN
| OtherRequest.

Section Ashmem.
Context `{HostMemory M} (off_bits : Z).

Abbreviation A := (M * DevAshmem)%type.

Definition this : St A DevAshmem := gets snd.
Definition update (g : DevAshmem → DevAshmem) : St A unit := modify (λ w, (w.1, g w.2)).

Definition on_host {B} (m : St M B) : St A B := λ w,
  match m w.1 with
  | Done (b, u) => Done (b, (u, w.2))
  | Abort => Abort
  | NoFuel => NoFuel
  end.

(** Pointers have 32 bits. *)
Definition IsMapShared (addr : Z) (d : DevAshmem) : bool :=
  match content_ d with
  | Some content => (content <=? addr) && (addr <? wrap32 (content + mmap_length_ d))
  | None => false
  end.

(** Not mapped in any way so far. *)
Definition unmapped_so_far (d : DevAshmem) : bool :=
  bool_decide (state_ d = STATE_INITIAL) && negb (has_private_mapping_ d).

Definition IoctlSetName (name : option str) : St A (res Z) :=
  d ← this;
  if negb (unmapped_so_far d) then mret (Err EINVAL)
  else
    match name with
    | None => fatal
    | Some name =>
        update (λ d, mkAshmem (da_oflag d) (size_ d) name (content_ d) (mmap_length_ d) (offset_ d)
                       (has_private_mapping_ d) (state_ d));;
        mret (Ok 0)
    end.

Definition IoctlSetSize (size : Z) : St A (res Z) :=
  d ← this;
  if negb (unmapped_so_far d) then mret (Err EINVAL)
  else
    update (λ d, mkAshmem (da_oflag d) size (name_ d) (content_ d) (mmap_length_ d) (offset_ d)
                   (has_private_mapping_ d) (state_ d));;
    mret (Ok 0).

(** The answer, and what is copied into the caller's buffer by [strlcpy]. *)
Definition ioctl (request : ashmem_request) : St A (res Z * str) :=
  d ← this;
  match request with
  | ASHMEM_SET_NAME name => r ← IoctlSetName name; mret (r, [])
  | ASHMEM_GET_NAME buffer =>
      check buffer;; mret (Ok 0, take (Z.to_nat (ASHMEM_NAME_LEN - 1)) (name_ d))
  | ASHMEM_SET_SIZE size => r ← IoctlSetSize size; mret (r, [])
  | ASHMEM_GET_SIZE => mret (Ok (to_signed 32 (size_ d)), [])
  | ASHMEM_SET_PROT_MASK _ => mret (Ok 0, [])
  | ASHMEM_PIN => mret (Ok ASHMEM_NOT_PURGED, [])
  | ASHMEM_UNPIN => mret (Ok ASHMEM_IS_UNPINNED, [])
  | OtherRequest => mret (Err EINVAL, [])
  end.

Definition lseek (offset : Z) (whence : option Defaults.whence) : St A (res Z) :=
  d ← this;
  if size_ d =? 0 then mret (Err EINVAL)
  else if unmapped_so_far d then mret (Err EBADF)
  else
    let move pos := update (with_offset (to_signed off_bits pos));; mret (Ok (to_signed off_bits pos)) in
    match whence with
    | Some Defaults.SEEK_SET => move offset
    | Some Defaults.SEEK_CUR => move (offset_ d + offset)
    | Some Defaults.SEEK_END => move (size_ d + offset)
    | None => mret (Err EINVAL)
    end.

Definition PROT_RW : Z := Z.lor PROT_READ PROT_WRITE.
Definition MAP_ANONYMOUS_PRIVATE : Z := Z.lor MAP_ANONYMOUS MAP_PRIVATE.

(** Ok 1 for an error that the caller cannot recover from. *)
Definition madvise (addr length : Z) (advice : Defaults.advice) : St A (res Z) :=
  match advice with
  | Defaults.MADV_DONTNEED =>
      result ← on_host (host_mmap addr length PROT_RW (Z.lor MAP_ANONYMOUS_PRIVATE MAP_FIXED) (-1) 0);
      mret (if bool_decide (result = Ok addr) then Ok 0 else Ok 1)
  | _ => mret (Defaults.madvise advice)
  end.

Definition set_private_mapping (d : DevAshmem) : DevAshmem :=
  mkAshmem (da_oflag d) (size_ d) (name_ d) (content_ d) (mmap_length_ d) (offset_ d) true (state_ d).

(** After the first MAP_SHARED mapping. *)
Definition set_content (content : option Z) (length : Z) (d : DevAshmem) : DevAshmem :=
  mkAshmem (da_oflag d) (size_ d) (name_ d) content length (offset_ d) (has_private_mapping_ d) STATE_MAPPED.

Definition ok_of {B} (r : res B) : option B := match r with Ok b => Some b | Err _ => None end.

Definition mmap (addr length prot flags offset : Z) : St A (res Z) :=
  d ← this;
  let fixed_flag := Z.land flags MAP_FIXED in
  if size_ d =? 0 then mret (Err EINVAL)
  else if negb (flag flags MAP_SHARED) then
    result ← on_host (host_mmap addr length prot (Z.lor MAP_ANONYMOUS_PRIVATE fixed_flag) (-1) 0);
    (if is_ok result then update set_private_mapping else mret tt);;
    mret result
  else if negb (offset =? 0) then mret (Err EINVAL)
  else
    match content_ d with
    | None =>
        check (bool_decide (state_ d = STATE_INITIAL));;
        result ← on_host (host_mmap addr length PROT_RW (Z.lor MAP_ANONYMOUS_PRIVATE fixed_flag) (-1) 0);
        update (set_content (ok_of result) length);;
        mret result
    | Some content =>
        check (bool_decide (state_ d ≠ STATE_INITIAL));;
        if bool_decide (state_ d = STATE_PARTIALLY_UNMAPPED) then mret (Err EINVAL)
        else if negb (length =? mmap_length_ d) then mret (Err EINVAL)
        else if negb (fixed_flag =? 0) && negb (addr =? content) then mret (Err EINVAL)
        else
          (if bool_decide (state_ d = STATE_UNMAP_DELAYED) then update (with_state STATE_MAPPED) else mret tt);;
          mret (Ok content)
    end.

(** [::munmap], of which an error trips the assertion. *)
Definition unmap (addr length : Z) : St A (res Z) :=
  result ← on_host (host_munmap addr length); check (is_ok result);; mret (Ok 0).

Definition munmap (addr length : Z) : St A (res Z) :=
  d ← this;
  if negb (IsMapShared addr d) then unmap addr length
  else if bool_decide (state_ d = STATE_MAPPED) && bool_decide (content_ d = Some addr)
          && (length =? mmap_length_ d) then
    update (with_state STATE_UNMAP_DELAYED);; mret (Ok 0)
  else if bool_decide (state_ d = STATE_UNMAP_DELAYED) then mret (Ok 0)
  else update (with_state STATE_PARTIALLY_UNMAPPED);; unmap addr length.

(** [ssize_t] has 32 bits.  Reading memory that is not mapped is a crash. *)
Definition pread (count offset : Z) : St A (res str) :=
  d ← this;
  if Z.land (da_oflag d) O_ACCMODE =? O_WRONLY then mret (Err EBADF)
  else if size_ d =? 0 then mret (Ok [])
  else if unmapped_so_far d then mret (Err EBADF)
  else
    let read_max := to_signed 32 (size_ d - offset) in
    if read_max <=? 0 then mret (Ok [])
    else if bool_decide (state_ d = STATE_PARTIALLY_UNMAPPED) then
      check (bool_decide (content_ d ≠ None));; mret (Err EBADF)
    else
      let read_size := Z.to_nat (Z.min count read_max) in
      match content_ d with
      | Some content =>
          w ← get;
          match load (w : A).1 (content + offset) read_size with
          | Some bs => mret (Ok bs)
          | None => fatal
          end
      | None => mret (Ok (replicate read_size NUL))
      end.

Definition read (count : Z) : St A (res str) :=
  d ← this;
  result ← pread count (offset_ d);
  (match result with
   | Ok bs => update (λ d, with_offset (to_signed off_bits (offset_ d + Z.of_nat (List.length bs))) d)
   | Err _ => mret tt
   end);;
  mret result.

Definition write (buf : str) : St A (res Z) := mret (Err EINVAL).

Definition ReturnsSameAddressForMultipleMmaps : bool := true.

Definition OnUnmapByOverwritingMmap (addr length : Z) : St A unit :=
  d ← this;
  if negb (IsMapShared addr d) then mret tt
  else if bool_decide (state_ d = STATE_MAPPED) then update (with_state STATE_PARTIALLY_UNMAPPED)
  else mret tt.

Definition GetSize (d : DevAshmem) : Z := size_ d.
Definition GetAuxInfo (d : DevAshmem) : str := name_ d.
Definition GetStreamType : str := "ashmem".

(** [~DevAshmem] *)
Definition destroy : St A unit :=
  d ← this;
  match state_ d, content_ d with
  | STATE_UNMAP_DELAYED, Some content => on_host (host_munmap content (mmap_length_ d));; mret tt
  | _, _ => mret tt
  end.
End Ashmem.
