(* ===== verification/DevAshmemProperties.v ===== *)
(** * DevAshmemProperties: the theorems on shared memory

    The states that a stream goes through, and that a stream with its memory is a
    file that programs share: what is stored is read, through any mapping and after
    all of them are gone. *)

From S2P Require Import Prelude Util FileStream MemoryRegion VfsMemory HostMemory DevAshmem.

#[local] Open Scope Z_scope.

(** ** States *)

(** The arrows of the diagram in dev_ashmem.h. *)
Definition arrow (s s' : ashmem_state) : bool :=
  bool_decide (s = s') ||
  match s, s' with
  | STATE_INITIAL, STATE_MAPPED | STATE_MAPPED, STATE_UNMAP_DELAYED | STATE_UNMAP_DELAYED, STATE_MAPPED
  | STATE_MAPPED, STATE_PARTIALLY_UNMAPPED => true
  | _, _ => false
  end.

Inductive ashmem_call : Type :=
| CallIoctl (r : ashmem_request)
| CallLseek (offset : Z) (whence : option Defaults.whence)
| CallMadvise (addr length : Z) (a : Defaults.advice)
| CallMmap (addr length prot flags offset : Z)
| CallMunmap (addr length : Z)
| CallPread (count offset : Z)
| CallRead (count : Z)
| CallWrite (buf : str)
| CallOverwritten (addr length : Z).

Section States.
Context `{HostMemory M} (off_bits : Z).
Implicit Types w : M * DevAshmem.
Implicit Types d : DevAshmem.

Definition run_call (c : ashmem_call) : St (M * DevAshmem) unit :=
  match c with
  | CallIoctl r => ioctl r;; mret tt
  | CallLseek o wh => lseek off_bits o wh;; mret tt
  | CallMadvise a l adv => madvise a l adv;; mret tt
  | CallMmap a l p f o => mmap a l p f o;; mret tt
  | CallMunmap a l => munmap a l;; mret tt
  | CallPread c o => pread c o;; mret tt
  | CallRead c => read off_bits c;; mret tt
  | CallWrite b => write b;; mret tt
  | CallOverwritten a l => OnUnmapByOverwritingMmap a l
  end.

(** A call, or a change of the memory by anyone. *)
Inductive ashmem_step : M * DevAshmem → M * DevAshmem → Prop :=
| step_call c w w' : run_call c w = Done (tt, w') → ashmem_step w w'
| step_memory m m' d : ashmem_step (m, d) (m', d).

Definition ashmem_reachable (w : M * DevAshmem) : Prop := ∃ m oflag, rtc ashmem_step (m, DevAshmem_new oflag) w.

(** What a call may do to a stream. *)
Record change d d' : Prop := {
  ch_arrow : arrow (state_ d) (state_ d') = true;
  ch_content : state_ d ≠ STATE_INITIAL → content_ d' = content_ d ∧ mmap_length_ d' = mmap_length_ d;
  ch_fixed : unmapped_so_far d = false → size_ d' = size_ d ∧ name_ d' = name_ d ∧ unmapped_so_far d' = false;
  ch_initial : (state_ d = STATE_INITIAL → content_ d = None) → state_ d' = STATE_INITIAL → content_ d' = None;
  ch_partial : (state_ d = STATE_PARTIALLY_UNMAPPED → is_Some (content_ d)) →
    state_ d' = STATE_PARTIALLY_UNMAPPED → is_Some (content_ d');
}.

Lemma arrow_refl s : arrow s s = true.
Proof. unfold arrow. by rewrite bool_decide_true. Qed.

Lemma change_refl d : change d d.
Proof. split; try done. apply arrow_refl. Qed.

(** A change that leaves the state, the content and the settings. *)
Definition same_settings d d' : Prop :=
  state_ d' = state_ d ∧ content_ d' = content_ d ∧ mmap_length_ d' = mmap_length_ d ∧ size_ d' = size_ d ∧ name_ d' = name_ d ∧
  (has_private_mapping_ d = true → has_private_mapping_ d' = true).

Lemma change_same d d' : same_settings d d' → change d d'.
Proof.
  intros (H1 & H2 & H3 & H4 & H5 & H6). split.
  - rewrite H1. apply arrow_refl.
  - intros _. by rewrite H2, H3.
  - intros Hu. split; [done|]. split; [done|]. unfold unmapped_so_far in *. rewrite H1.
    apply andb_false_iff. apply andb_false_iff in Hu as [Hu|Hu]; [by left|right].
    apply negb_false_iff. apply negb_false_iff in Hu. by apply H6.
  - intros Hi Hs. rewrite H2. apply Hi. by rewrite <-H1.
  - intros Hi Hs. rewrite H2. apply Hi. by rewrite <-H1.
Qed.

Lemma on_host_run {B} (m : St M B) w b w' : on_host m w = Done (b, w') → w'.2 = w.2.
Proof. unfold on_host. destruct (m w.1) as [[? ?]| |]; [|done..]. by intros [= <- <-]. Qed.

Lemma unmap_run a l w r w' : unmap a l w = Done (r, w') → w'.2 = w.2.
Proof.
  unfold unmap, mbind, St_bind. destruct (on_host _ w) as [[b w1]| |] eqn:E; [|done..].
  apply on_host_run in E. unfold check. destruct (is_ok b); [|done]. by intros [= _ <-].
Qed.

Lemma pread_run c o w r w' : pread c o w = Done (r, w') → w'.2 = w.2.
Proof.
  unfold pread, this, mbind, St_bind, gets, get, check, mret, St_ret, fatal.
  repeat (case_match; simplify_eq; try done); by intros [= _ <-].
Qed.

Lemma change_settings d size name : unmapped_so_far d = true → change d
  (mkAshmem (da_oflag d) size name (content_ d) (mmap_length_ d) (offset_ d) (has_private_mapping_ d) (state_ d)).
Proof. intros Hu. split; try done; [apply arrow_refl|by rewrite Hu]. Qed.

Lemma change_state d s :
  arrow (state_ d) s = true → s ≠ STATE_INITIAL → state_ d ≠ STATE_INITIAL →
  (s = STATE_PARTIALLY_UNMAPPED → is_Some (content_ d)) → change d (with_state s d).
Proof.
  intros Ha Hs Hi Hp. split; cbn; try done. intros Hu. split; [done|]. split; [done|].
  apply andb_false_iff. left. by apply bool_decide_eq_false.
Qed.

Lemma ioctl_change r w a w' : ioctl r w = Done (a, w') → change w.2 w'.2.
Proof.
  unfold ioctl, IoctlSetName, IoctlSetSize, this, update, mbind, St_bind, gets, check, modify, mret, St_ret, fatal.
  repeat (case_match; simplify_eq; try done); intros [= _ <-]; try apply change_refl;
    by apply change_settings, negb_false_iff.
Qed.

Lemma lseek_change o wh w r w' : lseek off_bits o wh w = Done (r, w') → change w.2 w'.2.
Proof.
  unfold lseek, this, update, mbind, St_bind, gets, modify, mret, St_ret.
  repeat (case_match; simplify_eq; try done); intros [= _ <-]; by apply change_same.
Qed.

Lemma read_change c w r w' : read off_bits c w = Done (r, w') → change w.2 w'.2.
Proof.
  unfold read, this, update, mbind, St_bind, gets, modify, mret, St_ret.
  destruct (pread c _ w) as [[x w1]| |] eqn:E; [|done..]. apply pread_run in E. rewrite <-E.
  destruct x; intros [= _ <-]; [apply change_refl|]; by apply change_same.
Qed.

Lemma shared_content a d : IsMapShared a d = true → is_Some (content_ d).
Proof. unfold IsMapShared. by destruct (content_ d). Qed.

Lemma munmap_change a l w r w' : (state_ w.2 = STATE_INITIAL → content_ w.2 = None) → munmap a l w = Done (r, w') → change w.2 w'.2.
Proof.
  intros Hi. unfold munmap, this, update, mbind, St_bind, gets, modify, mret, St_ret.
  destruct (IsMapShared a w.2) eqn:Es; cbn [negb]; [|intros Hr%unmap_run; rewrite Hr; apply change_refl].
  apply shared_content in Es. assert (state_ w.2 ≠ STATE_INITIAL) as Hs by (intros ?%Hi; destruct Es; congruence).
  destruct (bool_decide (state_ w.2 = STATE_MAPPED)) eqn:Em; [apply bool_decide_eq_true in Em|apply bool_decide_eq_false in Em].
  - cbn [andb]. destruct (bool_decide (content_ w.2 = Some a) && _).
    + intros [= _ <-]. by apply change_state; [rewrite Em|..].
    + rewrite bool_decide_false by (by rewrite Em). intros Hr%unmap_run. rewrite Hr.
      by apply change_state; [rewrite Em|..].
  - cbn [andb]. case_bool_decide; [intros [= _ <-]; apply change_refl|]. intros Hr%unmap_run. rewrite Hr.
    destruct (decide (state_ w.2 = STATE_PARTIALLY_UNMAPPED)) as [Hp|].
    + by apply change_state; [rewrite Hp|..].
    + by destruct (state_ w.2).
Qed.

Lemma mmap_change a l p f o w r w' : mmap a l p f o w = Done (r, w') → change w.2 w'.2.
Proof.
  unfold mmap, this, update, mbind, St_bind, gets, modify, mret, St_ret.
  destruct (size_ w.2 =? 0); [intros [= _ <-]; apply change_refl|].
  destruct (negb (flag f MAP_SHARED)).
  { destruct (on_host _ w) as [[x w1]| |] eqn:E; [|done..]. apply on_host_run in E. rewrite <-E.
    destruct (is_ok x); intros [= _ <-]; [|apply change_refl]. by apply change_same. }
  destruct (negb (o =? 0)); [intros [= _ <-]; apply change_refl|]. unfold check.
  destruct (content_ w.2) as [c|] eqn:Ec.
  - destruct (bool_decide (state_ w.2 ≠ _)); [|done].
    destruct (bool_decide (state_ w.2 = STATE_PARTIALLY_UNMAPPED)); [intros [= _ <-]; apply change_refl|].
    destruct (negb (l =? _)); [intros [= _ <-]; apply change_refl|].
    destruct (negb _ && _); [intros [= _ <-]; apply change_refl|].
    case_bool_decide as Hs; intros [= _ <-]; [|apply change_refl]. by apply change_state; rewrite ?Hs.
  - case_bool_decide as Hs; [|done]. destruct (on_host _ w) as [[x w1]| |] eqn:E; [|done..].
    apply on_host_run in E. rewrite <-E. intros [= _ <-]. split; cbn.
    + by rewrite E, Hs.
    + by rewrite E, Hs.
    + intros _. split; [done|]. by split.
    + done.
    + done.
Qed.

Lemma overwritten_change a l w w' :
  OnUnmapByOverwritingMmap a l w = Done (tt, w') → change w.2 w'.2.
Proof.
  unfold OnUnmapByOverwritingMmap, this, update, mbind, St_bind, gets, modify, mret, St_ret.
  destruct (IsMapShared a w.2) eqn:Ec; [apply shared_content in Ec|intros [= <-]; apply change_refl]. cbn [negb].
  case_bool_decide as Hs; intros [= <-]; [|apply change_refl]. by apply change_state; rewrite ?Hs.
Qed.

Lemma call_change c w w' :
  (state_ w.2 = STATE_INITIAL → content_ w.2 = None) → run_call c w = Done (tt, w') → change w.2 w'.2.
Proof.
  intros Hi. destruct c as [r|o wh|a l adv|a l p f o|a l|n o|n|b|a l]; cbn [run_call];
    [..|apply overwritten_change]; unfold mbind, St_bind;
    match goal with |- match ?m w with _ => _ end = _ → _ => destruct (m w) as [[x w1]| |] eqn:E; [|done..] end;
    intros [= <-].
  - by eapply ioctl_change.
  - by eapply lseek_change.
  - assert (w1.2 = w.2) as ->; [|apply change_refl].
    unfold madvise, mbind, St_bind, mret, St_ret in E. destruct adv; try by injection E as _ <-.
    destruct (on_host _ w) as [[y w2]| |] eqn:E2; [|done..]. injection E as _ <-. by apply on_host_run in E2.
  - by eapply mmap_change.
  - by eapply munmap_change.
  - apply pread_run in E. rewrite E. apply change_refl.
  - by eapply read_change.
  - injection E as _ <-. apply change_refl.
Qed.

Lemma ashmem_step_change w w' :
  ashmem_step w w' → (state_ w.2 = STATE_INITIAL → content_ w.2 = None) → change w.2 w'.2.
Proof. intros [c v v' Hr|m m' d] Hi; [by eapply call_change|apply change_refl]. Qed.

Lemma initial_without_content w : ashmem_reachable w → state_ w.2 = STATE_INITIAL → content_ w.2 = None.
Proof.
  intros (m & oflag & Hr). set (Q := λ v : M * DevAshmem, state_ v.2 = STATE_INITIAL → content_ v.2 = None).
  change (Q w). eapply (rtc_ind_r Q); [| |exact Hr]; [done|].
  intros v v' _ Hs IH. exact (ch_initial _ _ (ashmem_step_change _ _ Hs IH) IH).
Qed.

Lemma partial_with_content w : ashmem_reachable w → state_ w.2 = STATE_PARTIALLY_UNMAPPED → is_Some (content_ w.2).
Proof.
  intros (m & oflag & Hr).
  set (Q := λ v : M * DevAshmem, (state_ v.2 = STATE_INITIAL → content_ v.2 = None) ∧
    (state_ v.2 = STATE_PARTIALLY_UNMAPPED → is_Some (content_ v.2))).
  assert (Q w) as [_ HQ]; [|exact HQ]. eapply (rtc_ind_r Q); [| |exact Hr]; [by split|].
  intros v v' _ Hs [IH1 IH2]. pose proof (ashmem_step_change _ _ Hs IH1) as Hc.
  split; [exact (ch_initial _ _ Hc IH1)|exact (ch_partial _ _ Hc IH2)].
Qed.

(** What [pread] answers when the memory was unmapped in part. *)
Definition unmapped_pread d (offset : Z) : res str :=
  if negb (Z.land (da_oflag d) O_ACCMODE =? O_WRONLY) && ((size_ d =? 0) || (to_signed 32 (size_ d - offset) <=? 0))
  then Ok [] else Err EBADF.

(** C37.  The states of shared memory, for a new stream and any sequence of calls and of
    changes of the memory by others.  Every call that ends goes along an arrow of the
    diagram in dev_ashmem.h or stays; once there was a mapping, neither the size nor the
    name change any more, and after the first MAP_SHARED mapping neither does the memory;
    from STATE_PARTIALLY_UNMAPPED there is no way out: mapping the shared memory again
    fails with EINVAL, and reading it fails with EBADF, except that nothing is read, without
    an error, at offsets where no byte is left (and the size, in 32 bits, says so).  When
    the first MAP_SHARED mapping failed, the next one (at offset 0) trips the assertion. *)
Theorem ashmem_state_machine w w' :
  ashmem_reachable w → ashmem_step w w' →
  arrow (state_ w.2) (state_ w'.2) = true ∧
  (unmapped_so_far w.2 = false → size_ w'.2 = size_ w.2 ∧ name_ w'.2 = name_ w.2 ∧ unmapped_so_far w'.2 = false) ∧
  (state_ w.2 ≠ STATE_INITIAL → content_ w'.2 = content_ w.2 ∧ mmap_length_ w'.2 = mmap_length_ w.2) ∧
  (state_ w.2 = STATE_PARTIALLY_UNMAPPED →
   state_ w'.2 = STATE_PARTIALLY_UNMAPPED ∧
   (∀ a l p f o, flag f MAP_SHARED = true → mmap a l p f o w = Done (Err EINVAL, w)) ∧
   ∀ n o, pread n o w = Done (unmapped_pread w.2 o, w)) ∧
  (state_ w.2 ≠ STATE_INITIAL → content_ w.2 = None → size_ w.2 ≠ 0 →
   ∀ a l p f, flag f MAP_SHARED = true → mmap a l p f 0 w = Abort).
Proof.
  intros Hr Hs. pose proof (ashmem_step_change w w' Hs (initial_without_content w Hr)) as [H1 H2 H3 H4 _].
  split; [done|]. split; [done|]. split; [done|]. split.
  - intros Hp. split; [rewrite Hp in H1; by destruct (state_ w'.2)|].
    destruct (partial_with_content w Hr Hp) as [c Hc]. split.
    2: { intros n o. unfold pread, unmapped_pread, this, mbind, St_bind, gets, check, mret, St_ret, unmapped_so_far.
         rewrite Hp. destruct (_ =? O_WRONLY); [done|]. destruct (size_ w.2 =? 0); [done|]. cbn [negb andb orb].
         rewrite (bool_decide_false (STATE_PARTIALLY_UNMAPPED = STATE_INITIAL)) by done. cbn [andb].
         destruct (_ <=? 0); [done|]. by rewrite bool_decide_true, Hc by done. }
    intros a l p f o Hf. unfold mmap, this, mbind, St_bind, gets, check, mret, St_ret. rewrite Hf, Hc. cbn [negb].
    destruct (size_ w.2 =? 0); [done|]. destruct (negb (o =? 0)); [done|].
    rewrite bool_decide_true by (by rewrite Hp). by rewrite bool_decide_true.
  - intros Hi Hc Hn a l p f Hf. unfold mmap, this, mbind, St_bind, gets, check. rewrite Hf, Hc. cbn.
    destruct (Z.eqb_spec (size_ w.2) 0); [done|]. by rewrite bool_decide_false.
Qed.
End States.

(** ** A file that is shared *)

(** What a program does with the memory: it stores into a mapping, reads through the
    descriptor, and unmaps and maps again. *)
Inductive shared_op : Type :=
| Store (at_ : Z) (bs : str)
| ReadNext (count : Z)
| ReadAt (count at_ : Z)
| SeekTo (pos : Z)
| UnmapAll
| MapAgain (prot : Z).

Inductive shared_answer : Type :=
| Stored
| Bytes (r : res str)
| Number (r : res Z).

(** [n] bytes of [s] from [o] on. *)
Definition slice (s : str) (o n : Z) : str := take (Z.to_nat n) (drop (Z.to_nat o) s).

(** [s] with [bs] stored at [o]. *)
Definition splice (s : str) (o : Z) (bs : str) : str :=
  take (Z.to_nat o) s ++ bs ++ drop (Z.to_nat o + List.length bs) s.

(** The specification: [size] bytes of a shared string can be read, the string is as
    long as the mapping; a position; [address] is where it is mapped. *)
Definition read_shared (size : Z) (s : str) (count pos : Z) : str := slice s pos (Z.min count (Z.max 0 (size - pos))).

Definition shared_spec (size address : Z) (o : shared_op) (f : str * Z) : shared_answer * (str * Z) :=
  match o with
  | Store at_ bs => (Stored, (splice f.1 at_ bs, f.2))
  | ReadNext count =>
      let bs := read_shared size f.1 count f.2 in (Bytes (Ok bs), (f.1, f.2 + Z.of_nat (List.length bs)))
  | ReadAt count at_ => (Bytes (Ok (read_shared size f.1 count at_)), f)
  | SeekTo pos => (Number (Ok pos), (f.1, pos))
  | UnmapAll => (Number (Ok 0), f)
  | MapAgain _ => (Number (Ok address), f)
  end.

Fixpoint shared_specs (size address : Z) (os : list shared_op) (f : str * Z) : list shared_answer * (str * Z) :=
  match os with
  | [] => ([], f)
  | o :: os =>
      let '(a, f) := shared_spec size address o f in
      let '(l, f) := shared_specs size address os f in (a :: l, f)
  end.

Definition shared_op_ok (len : Z) (o : shared_op) : Prop :=
  match o with
  | Store at_ bs => 0 <= at_ ∧ at_ + Z.of_nat (List.length bs) <= len
  | ReadNext count => 0 <= count
  | ReadAt count at_ => 0 <= count ∧ 0 <= at_ < 2 ^ 31
  | SeekTo pos => 0 <= pos < 2 ^ 31
  | UnmapAll | MapAgain _ => True
  end.

Section SharedFile.
Context `{HostMemory M} (off_bits : Z).

Definition run_shared (len address : Z) (o : shared_op) : St (M * DevAshmem) shared_answer :=
  match o with
  | Store at_ bs => modify (λ w, (write_bytes (address + at_) bs w.1, w.2));; mret Stored
  | ReadNext count => r ← read off_bits count; mret (Bytes r)
  | ReadAt count at_ => r ← pread count at_; mret (Bytes r)
  | SeekTo pos => r ← lseek off_bits pos (Some Defaults.SEEK_SET); mret (Number r)
  | UnmapAll => r ← munmap address len; mret (Number r)
  | MapAgain prot => r ← mmap 0 len prot MAP_SHARED 0; mret (Number r)
  end.

Fixpoint run_shareds (len address : Z) (os : list shared_op) : St (M * DevAshmem) (list shared_answer) :=
  match os with
  | [] => mret []
  | o :: os => a ← run_shared len address o; l ← run_shareds len address os; mret (a :: l)
  end.

(** The stream [d] and the memory [m] hold the string and the position [f]. *)
Record holds_shared (len size address : Z) (f : str * Z) (m : M) (d : DevAshmem) : Prop := {
  hs_size : size_ d = size;
  hs_content : content_ d = Some address;
  hs_length : mmap_length_ d = len;
  hs_state : state_ d = STATE_MAPPED ∨ state_ d = STATE_UNMAP_DELAYED;
  hs_readable : Z.land (da_oflag d) O_ACCMODE ≠ O_WRONLY;
  hs_pos : offset_ d = f.2 ∧ 0 <= f.2 < 2 ^ 31;
  hs_bytes : load m address (List.length f.1) = Some f.1;
  hs_len : Z.of_nat (List.length f.1) = len;
}.

Context (page_size : Z) `{!HostMemorySpec page_size M} (len size address : Z).
Context (Hoff : 32 <= off_bits) (Hsize : 0 < size <= len) (Hmax : size < 2 ^ 31).
Context (Haddress : 0 < address) (Hend : address + len < 2 ^ 32).
Implicit Types m : M.

Lemma slice_length s o n : 0 <= n → 0 <= o → o + n <= Z.of_nat (List.length s) → List.length (slice s o n) = Z.to_nat n.
Proof. intros Hn Ho Hl. unfold slice. rewrite length_take, length_drop. lia. Qed.

Lemma load_slice m a s o n :
  load m a (List.length s) = Some s → 0 <= n → 0 <= o → o + n <= Z.of_nat (List.length s) →
  load m (a + o) (Z.to_nat n) = Some (slice s o n).
Proof.
  intros Hs Hn Ho Hl. rewrite <-(slice_length s o n) at 1 by done. apply load_Some. rewrite slice_length by done.
  intros i Hi. unfold slice. rewrite lookup_take_lt, lookup_drop by lia.
  rewrite <-(proj1 (load_Some m a s) Hs) by lia. f_equal. lia.
Qed.

Lemma splice_length s o bs : 0 <= o → o + Z.of_nat (List.length bs) <= Z.of_nat (List.length s) →
  List.length (splice s o bs) = List.length s.
Proof. intros Ho Hl. unfold splice. rewrite !length_app, length_take, length_drop. lia. Qed.

Lemma load_splice m a s o bs :
  load m a (List.length s) = Some s → 0 <= o → o + Z.of_nat (List.length bs) <= Z.of_nat (List.length s) →
  load (write_bytes (a + o) bs m) a (List.length (splice s o bs)) = Some (splice s o bs).
Proof.
  intros Hs Ho Hl. apply load_Some. intros i Hi. rewrite splice_length in Hi by done.
  pose proof (proj1 (load_Some m a s) Hs i Hi) as Hb. rewrite write_law, Hb. unfold splice.
  destruct (lookup_lt_is_Some_2 s i Hi) as [c Hc]. case_decide as Hin.
  - rewrite Hc. cbn. rewrite lookup_app_r by (rewrite length_take; lia). rewrite length_take.
    rewrite lookup_app_l by lia. f_equal. lia.
  - destruct (decide (Z.of_nat i < o)) as [Hlt|Hge].
    + rewrite lookup_app_l by (rewrite length_take; lia). by rewrite lookup_take_lt by lia.
    + rewrite lookup_app_r by (rewrite length_take; lia). rewrite length_take.
      rewrite lookup_app_r by lia. rewrite lookup_drop. f_equal. lia.
Qed.

Lemma read_shared_length s count pos :
  Z.of_nat (List.length s) = len → 0 <= count → 0 <= pos →
  Z.of_nat (List.length (read_shared size s count pos)) = Z.min count (Z.max 0 (size - pos)).
Proof.
  intros Hs Hc Hp. unfold read_shared, slice. rewrite length_take, length_drop. lia.
Qed.

Lemma pread_holds f m d count pos :
  holds_shared len size address f m d → 0 <= count → 0 <= pos < 2 ^ 31 →
  pread count pos (m, d) = Done (Ok (read_shared size f.1 count pos), (m, d)).
Proof.
  intros [H1 H2 H3 H4 H5 H6 H7 H8] Hc Hp. unfold pread, this, mbind, St_bind, gets, get, mret, St_ret. cbn [snd fst].
  rewrite (proj2 (Z.eqb_neq _ _)) by done. rewrite H1, (proj2 (Z.eqb_neq size 0)) by lia.
  replace (unmapped_so_far d) with false.
  2: { symmetry. apply andb_false_iff. left. apply bool_decide_eq_false. by destruct H4 as [-> | ->]. }
  rewrite to_signed_id by lia. unfold read_shared. destruct (Z.leb_spec (size - pos) 0).
  { rewrite Z.max_l, Z.min_r by lia. done. }
  rewrite bool_decide_false by (by destruct H4 as [-> | ->]). rewrite H2, Z.max_r by lia.
  by rewrite (load_slice m address f.1) by (done || lia).
Qed.

Lemma shared_op_holds o f m d :
  holds_shared len size address f m d → shared_op_ok len o →
  ∃ m' d', run_shared len address o (m, d) = Done ((shared_spec size address o f).1, (m', d')) ∧
    holds_shared len size address (shared_spec size address o f).2 m' d'.
Proof.
  intros Hh Hok. pose proof Hh as [H1 H2 H3 H4 H5 [H6 H7] H8 H9].
  destruct o as [at_ bs|count|count at_|pos| |prot]; cbn [run_shared shared_spec fst snd shared_op_ok] in *;
    unfold mbind, St_bind.
  - eexists _, _. split; [done|]. cbn. split; cbn; try done; [|by rewrite splice_length by lia].
    by apply load_splice; [|lia|lia].
  - unfold read, this, update, mbind, St_bind, gets, modify, mret, St_ret. cbn [snd]. rewrite H6.
    rewrite (pread_holds f m d count f.2 Hh Hok H7). eexists _, _. split; [done|]. cbn.
    pose proof (read_shared_length f.1 count f.2 H9 Hok (proj1 H7)) as Hlen.
    rewrite Hlen. split; cbn; try done. rewrite H6, to_signed_id; [split; [done|lia]|lia|].
    assert (2 ^ 31 <= 2 ^ (off_bits - 1)) by (apply Z.pow_le_mono_r; lia). lia.
  - rewrite (pread_holds f m d count at_ Hh) by lia. by eexists _, _.
  - unfold lseek, this, update, mbind, St_bind, gets, modify, mret, St_ret. cbn [snd].
    rewrite H1, (proj2 (Z.eqb_neq size 0)) by lia.
    replace (unmapped_so_far d) with false.
    2: { symmetry. apply andb_false_iff. left. apply bool_decide_eq_false. by destruct H4 as [-> | ->]. }
    rewrite to_signed_id; [|lia|assert (2 ^ 31 <= 2 ^ (off_bits - 1)) by (apply Z.pow_le_mono_r; lia); lia].
    eexists _, _. split; [done|]. by split.
  - unfold munmap, this, update, mbind, St_bind, gets, modify, mret, St_ret. cbn [snd].
    unfold IsMapShared. rewrite H2, H3. unfold wrap32. rewrite Z.mod_small by lia.
    rewrite (proj2 (Z.leb_le _ _)), (proj2 (Z.ltb_lt _ _)) by lia. cbn [negb andb].
    rewrite (bool_decide_true (Some address = Some address)) by done. rewrite Z.eqb_refl, !andb_true_r.
    destruct H4 as [Hs|Hs].
    + rewrite bool_decide_true by done. eexists _, _. split; [done|]. split; cbn; try done. by right.
    + rewrite bool_decide_false by (by rewrite Hs). rewrite bool_decide_true by done. by eexists _, _.
  - unfold mmap, this, update, mbind, St_bind, gets, modify, mret, St_ret. cbn [snd].
    rewrite H1, (proj2 (Z.eqb_neq size 0)) by lia. change (flag MAP_SHARED MAP_SHARED) with true. cbn [negb].
    change (0 =? 0) with true. cbn [negb]. rewrite H2. unfold check.
    rewrite bool_decide_true by (by destruct H4 as [-> | ->]).
    rewrite bool_decide_false by (by destruct H4 as [-> | ->]). rewrite H3, Z.eqb_refl. cbn [negb andb].
    change (Z.land MAP_SHARED MAP_FIXED =? 0) with true. cbn [negb andb].
    case_bool_decide as Hs; eexists _, _; (split; [done|]); [|done]. split; cbn; try done. by left.
Qed.

Lemma shared_ops_hold os f m d :
  holds_shared len size address f m d → Forall (shared_op_ok len) os →
  ∃ m' d', run_shareds len address os (m, d) = Done ((shared_specs size address os f).1, (m', d')) ∧
    holds_shared len size address (shared_specs size address os f).2 m' d'.
Proof.
  intros Hh Hos. revert f m d Hh. induction Hos as [|o os Ho _ IH]; intros f m d Hh; [by eexists _, _|].
  cbn [run_shareds shared_specs]. unfold mbind, St_bind.
  destruct (shared_op_holds o f m d Hh Ho) as (m1 & d1 & Hr & Hh1). rewrite Hr.
  destruct (shared_spec size address o f) as [a f1]. cbn [fst snd] in *.
  destruct (IH f1 m1 d1 Hh1) as (m2 & d2 & Hr2 & Hh2). rewrite Hr2.
  destruct (shared_specs size address os f1) as [l f2]. by eexists _, _.
Qed.
End SharedFile.

Lemma private_flags flags :
  let fl := Z.lor MAP_ANONYMOUS_PRIVATE (Z.land flags MAP_FIXED) in
  flag fl MAP_ANONYMOUS = true ∧ flag fl MAP_FIXED = flag flags MAP_FIXED.
Proof.
  cbv zeta. unfold flag. rewrite !Z.land_lor_distr_l, <-!Z.land_assoc.
  change (Z.land MAP_FIXED MAP_ANONYMOUS) with 0. change (Z.land MAP_FIXED MAP_FIXED) with MAP_FIXED.
  change (Z.land MAP_ANONYMOUS_PRIVATE MAP_ANONYMOUS) with 32. change (Z.land MAP_ANONYMOUS_PRIVATE MAP_FIXED) with 0.
  by rewrite Z.land_0_r.
Qed.

Section SharedMapping.
Context `{HostMemory M} (off_bits page_size : Z) `{!HostMemorySpec page_size M}.

(** A stream of which only the size was set. *)
Definition sized_ashmem (oflag size : Z) : DevAshmem := mkAshmem oflag size [] None 0 0 false STATE_INITIAL.

(** C38.  Shared memory is a file.  A stream that is open for reading, of which nothing but
    the size was set and which was not mapped before, is mapped MAP_SHARED, with a length in
    whole pages that is not smaller than the size (behind a shorter mapping [read] reads
    other memory).  The mapping is full of zeros and, without MAP_FIXED, takes memory that
    nobody had.  From then on, whatever is stored inside the mapping, read through the
    descriptor, unmapped as a whole and mapped again with the same length, in any order and
    at positions below 2^31: reads give, up to the size of the stream, what was stored last,
    at the position of a file; a later mapping is at the same address, and the memory keeps
    its bytes also while no mapping is left. *)
Theorem ashmem_is_a_shared_file m oflag size len addr prot flags address w os :
  32 <= off_bits → 0 < size <= len → size < 2 ^ 31 → (page_size | len) →
  Z.land oflag O_ACCMODE ≠ O_WRONLY → flag flags MAP_SHARED = true →
  mmap addr len prot flags 0 (m, sized_ashmem oflag size) = Done (Ok address, w) →
  Forall (shared_op_ok len) os →
  let f := (replicate (Z.to_nat len) NUL, 0) in
  (flag flags MAP_FIXED = false → ∀ i, address <= i < address + len → byte_at m i = None) ∧
  ∃ m' d', run_shareds off_bits len address os w = Done ((shared_specs size address os f).1, (m', d')) ∧
    load m' address (Z.to_nat len) = Some (shared_specs size address os f).2.1.
Proof.
  intros Hoff Hsize Hmax Hpage Hread Hshared Hmap Hos f.
  unfold mmap, this, update, mbind, St_bind, gets, modify, mret, St_ret, check in Hmap. cbn [snd sized_ashmem size_ content_ state_] in Hmap.
  rewrite (proj2 (Z.eqb_neq size 0)), Hshared in Hmap by lia. change (0 =? 0) with true in Hmap.
  cbn [negb] in Hmap. rewrite bool_decide_true in Hmap by done. unfold on_host in Hmap. cbn [fst snd] in Hmap.
  destruct (private_flags flags) as [Hanon Hfixed].
  destruct (mmap_law addr len PROT_RW (Z.lor MAP_ANONYMOUS_PRIVATE (Z.land flags MAP_FIXED)) (-1) 0 m ltac:(lia) Hpage Hanon)
    as (r & m1 & Hr & Hpost). rewrite Hr in Hmap. injection Hmap as -> <-.
  destruct Hpost as (H1 & H2 & _ & Hfree & Hbytes). rewrite Hfixed in Hfree. split; [by intros Hnf; apply Hfree|].
  destruct (shared_ops_hold off_bits page_size len size address Hoff Hsize Hmax H1 H2 os f m1
              (set_content (Some address) len (sized_ashmem oflag size))) as (m2 & d2 & Hrun & Hh).
  - split; try done; cbn; [by left| |by rewrite length_replicate; lia]. apply load_Some. rewrite length_replicate.
    intros i Hi. rewrite Hbytes, decide_True by lia. symmetry. by apply lookup_replicate_2.
  - done.
  - exists m2, d2. split; [done|]. destruct Hh as [_ _ _ _ _ _ Hl Hlen].
    by replace (Z.to_nat len) with (List.length (shared_specs size address os f).2.1) by lia.
Qed.
End SharedMapping.

(** ** Witnesses *)

Module AshmemWitness.
Import Logged.
Definition O_RDWR : Z := 2.

(** Two pages are mapped, and the first is unmapped. *)
Definition two_pages : log * DevAshmem :=
  ([Mapped page (2 * page)], set_content (Some page) (2 * page) (sized_ashmem O_RDWR 5000)).
Definition one_page : log * DevAshmem :=
  ([Unmapped page page; Mapped page (2 * page)], with_state STATE_PARTIALLY_UNMAPPED two_pages.2).

Lemma reachable_call c w w' : ashmem_reachable 64 w → run_call 64 c w = Done (tt, w') → ashmem_reachable 64 w'.
Proof.
  intros (m & oflag & Hr) Hc. exists m, oflag. eapply rtc_r; [exact Hr|]. by eapply step_call.
Qed.

Lemma two_pages_reachable : ashmem_reachable 64 two_pages.
Proof.
  apply (reachable_call (CallMmap 0 (2 * page) 3 MAP_SHARED 0) ([], sized_ashmem O_RDWR 5000)); [|done].
  apply (reachable_call (CallIoctl (ASHMEM_SET_SIZE 5000)) ([], DevAshmem_new O_RDWR)); [|done].
  exists [], O_RDWR. apply rtc_refl.
Qed.

Lemma ashmem_state_machine_witness :
  run_call 64 (CallMunmap page page) two_pages = Done (tt, one_page) ∧
  arrow (state_ two_pages.2) (state_ one_page.2) = true ∧
  size_ one_page.2 = size_ two_pages.2 ∧ content_ one_page.2 = content_ two_pages.2 ∧
  (∀ l, mmap 0 l 3 MAP_SHARED 0 one_page = Done (Err EINVAL, one_page)) ∧
  pread 10 100 one_page = Done (Err EBADF, one_page) ∧ pread 10 6000 one_page = Done (Ok [], one_page).
Proof.
  assert (run_call 64 (CallMunmap page page) two_pages = Done (tt, one_page)) as Hc by (vm_compute; reflexivity).
  destruct (ashmem_state_machine 64 two_pages one_page two_pages_reachable (step_call 64 _ _ _ Hc))
    as (Ha & Hs & Hn & _).
  destruct (ashmem_state_machine 64 one_page one_page (reachable_call _ _ _ two_pages_reachable Hc)
    (step_memory 64 _ _ _)) as (_ & _ & _ & Hp & _).
  destruct (Hp eq_refl) as (_ & Hm & Hr).
  split; [exact Hc|]. split; [exact Ha|]. split; [apply Hs; reflexivity|]. split; [apply Hn; discriminate|].
  split; [intros l; apply Hm; reflexivity|]. split; [exact (Hr 10 100)|exact (Hr 10 6000)].
Defined.

(** Eleven bytes stored and read after the mapping is gone. *)
Definition hello_ops : list shared_op :=
  [Store 0 "hello world"; UnmapAll; ReadNext 5; MapAgain 3; Store 6 "W"; ReadNext 100].

Lemma ashmem_is_a_shared_file_witness :
  ∃ w m' d',
    mmap 0 page 3 MAP_SHARED 0 ([] : log, sized_ashmem O_RDWR 11) = Done (Ok page, w) ∧
    run_shareds 64 page page hello_ops w =
    Done ([Stored; Number (Ok 0); Bytes (Ok (lit "hello")); Number (Ok page); Stored; Bytes (Ok (lit " World"))], (m', d')).
Proof.
  assert (mmap 0 page 3 MAP_SHARED 0 ([] : log, sized_ashmem O_RDWR 11) =
          Done (Ok page, ([Mapped page page], set_content (Some page) page (sized_ashmem O_RDWR 11)))) as Hm
    by (vm_compute; reflexivity).
  assert (Forall (shared_op_ok page) hello_ops) as Hok by (unfold page; repeat constructor; cbn; lia).
  assert (0 < 11 <= page) as H1 by (unfold page; lia).
  destruct (ashmem_is_a_shared_file 64 page [] O_RDWR 11 page 0 3 MAP_SHARED page _ hello_ops
              ltac:(lia) H1 ltac:(lia) ltac:(by exists 1) ltac:(done) eq_refl Hm Hok) as (_ & m' & d' & Hr & _).
  eexists _, m', d'. split; [exact Hm|]. etrans; [exact Hr|]. vm_compute. reflexivity.
Defined.
End AshmemWitness.
