(* ===== verification/CircularBuffer.v ===== *)
(** * CircularBuffer: [src/common/circular_buffer.{h,cc}]

    The ring buffer of stream sockets and pipes.  The memory behind [buffer_] is
    a list of bytes ([None] is NULL); the specification is a bounded queue. *)

From S2P Require Import Prelude.

Record CircularBuffer : Type := mkCircularBuffer {
  buffer_ : option (list ascii);
  start_ : nat;
  end_ : nat;
  capacity_ : nat;
  size_ : nat;
}.

(** [memcpy(b + at, bytes, length)]: within the allocation. *)
Definition memcpy (at_ : nat) (bytes b : list ascii) : outcome (list ascii) :=
  require (Nat.leb (at_ + List.length bytes) (List.length b)) ≫= λ _,
  mret (take at_ b ++ bytes ++ drop (at_ + List.length bytes) b).

Section CircularBuffer.
(** [new char\[n\]]: whatever the memory holds. *)
Context (fresh : nat → list ascii).

Definition CircularBuffer_new : CircularBuffer :=
  {| buffer_ := None; start_ := 0; end_ := 0; capacity_ := 0; size_ := 0 |}.

Definition clear (c : CircularBuffer) : CircularBuffer :=
  {| buffer_ := buffer_ c; start_ := 0; end_ := 0; capacity_ := capacity_ c; size_ := 0 |}.

Definition remaining (c : CircularBuffer) : nat := capacity_ c - size_ c.

(** The bytes of [buffer_]; copying no bytes is fine when it is NULL. *)
Definition memory (c : CircularBuffer) : list ascii :=
  match buffer_ c with Some b => b | None => [] end.

Definition write (buf : list ascii) : St CircularBuffer nat := λ c,
  let len := Nat.min (List.length buf) (capacity_ c - size_ c) in
  (if Nat.leb len (capacity_ c - end_ c) then
     b ← memcpy (end_ c) (take len buf) (memory c);
     mret (b, end_ c + len)
   else
     let end_size := capacity_ c - end_ c in
     let front_size := len - end_size in
     b ← memcpy (end_ c) (take end_size buf) (memory c);
     b ← memcpy 0 (take front_size (drop end_size buf)) b;
     mret (b, front_size)) ≫= λ be : list ascii * nat,
  let size := size_ c + len in
  require (Nat.leb size (capacity_ c)) ≫= λ _,
  require (Nat.leb len (capacity_ c)) ≫= λ _,
  mret (len, {| buffer_ := match buffer_ c with Some _ => Some be.1 | None => None end;
                start_ := start_ c; end_ := be.2; capacity_ := capacity_ c; size_ := size |}).

(** The bytes read, and the buffer. *)
Definition read (len : nat) : St CircularBuffer (list ascii) := λ c,
  let end_size := capacity_ c - start_ c in
  let len := Nat.min len (size_ c) in
  if Nat.eqb len 0 then mret ([], c)
  else
    match buffer_ c with
    | None => Abort
    | Some b =>
        let '(bytes, start) :=
          if Nat.leb len end_size then
            let start := start_ c + len in
            (take len (drop (start_ c) b), if Nat.eqb start (capacity_ c) then 0 else start)
          else
            let start_size := len - end_size in
            (take end_size (drop (start_ c) b) ++ take start_size b, start_size) in
        let size := size_ c - len in
        require (Nat.leb size (capacity_ c)) ≫= λ _,
        require (Nat.leb len (capacity_ c)) ≫= λ _,
        mret (bytes, {| buffer_ := buffer_ c; start_ := start; end_ := end_ c;
                        capacity_ := capacity_ c; size_ := size |})
    end.

Definition set_capacity (capacity : nat) : St CircularBuffer unit := λ c,
  let new_size := Nat.min (size_ c) capacity in
  (if Nat.ltb 0 new_size then
     match buffer_ c with
     | None => Abort
     | Some _ => r ← read new_size c; memcpy 0 r.1 (fresh capacity)
     end
   else mret (fresh capacity)) ≫= λ new_buffer,
  mret (tt, {| buffer_ := Some new_buffer; start_ := 0; end_ := new_size;
               capacity_ := capacity; size_ := new_size |}).
End CircularBuffer.

(** ** Specification *)

(** Where the [i]-th byte of the queue is. *)
Definition position (c : CircularBuffer) (i : nat) : nat :=
  if Nat.ltb (start_ c + i) (capacity_ c) then start_ c + i else start_ c + i - capacity_ c.

Record holds (c : CircularBuffer) (q : list ascii) : Prop := {
  h_memory : List.length (memory c) = capacity_ c;
  h_size : List.length q = size_ c;
  h_fits : size_ c ≤ capacity_ c;
  h_null : buffer_ c = None → capacity_ c = 0;
  h_start : start_ c < capacity_ c ∨ (start_ c = 0 ∧ capacity_ c = 0);
  h_end : end_ c ≤ capacity_ c;
  h_ring : start_ c + size_ c = end_ c ∨ start_ c + size_ c = end_ c + capacity_ c ∨
           start_ c + size_ c + capacity_ c = end_ c;
  h_bytes : ∀ i, i < size_ c → memory c !! position c i = q !! i;
}.

(** A bounded queue: its capacity and its bytes. *)
Inductive cb_op : Type :=
| CbWrite (buf : list ascii)
| CbRead (len : nat)
| CbSetCapacity (capacity : nat)
| CbClear.

(** The bytes read, or the number written (as the bytes taken), and the queue. *)
Definition spec_op (o : cb_op) (s : nat * list ascii) : list ascii * (nat * list ascii) :=
  let '(cap, q) := s in
  match o with
  | CbWrite buf =>
      let taken := take (cap - List.length q) buf in (taken, (cap, q ++ taken))
  | CbRead len => (take len q, (cap, drop len q))
  | CbSetCapacity cap' => ([], (cap', take cap' q))
  | CbClear => ([], (cap, []))
  end.

Definition run_op (fresh : nat → list ascii) (o : cb_op) : St CircularBuffer (list ascii) :=
  match o with
  | CbWrite buf => n ← write buf; mret (take n buf)
  | CbRead len => read len
  | CbSetCapacity cap => set_capacity fresh cap;; mret []
  | CbClear => modify clear;; mret []
  end.

Fixpoint run_ops fresh (os : list cb_op) : St CircularBuffer (list (list ascii)) :=
  match os with
  | [] => mret []
  | o :: os => r ← run_op fresh o; rs ← run_ops fresh os; mret (r :: rs)
  end.

Fixpoint spec_ops (os : list cb_op) (s : nat * list ascii) : list (list ascii) * (nat * list ascii) :=
  match os with
  | [] => ([], s)
  | o :: os => let '(r, s) := spec_op o s in let '(rs, s) := spec_ops os s in (r :: rs, s)
  end.

(* -------------------------------------------------------------------- *)
(** * Proofs *)

Lemma memcpy_spec at_ bytes b :
  at_ + List.length bytes ≤ List.length b →
  ∃ b', memcpy at_ bytes b = Done b' ∧ List.length b' = List.length b ∧
    ∀ j, b' !! j = if decide (at_ ≤ j < at_ + List.length bytes) then bytes !! (j - at_) else b !! j.
Proof.
  intros Hle. unfold memcpy. rewrite (proj2 (Nat.leb_le _ _)), require_true by done.
  eexists. split; [done|]. split.
  - rewrite !length_app, length_take, length_drop. lia.
  - intros j. case_decide as Hj.
    + rewrite lookup_app_r; rewrite length_take, Nat.min_l by lia; [|lia].
      by rewrite lookup_app_l by lia.
    + destruct (decide (j < at_)).
      * rewrite lookup_app_l by (rewrite length_take; lia). by rewrite lookup_take_lt.
      * rewrite lookup_app_r; rewrite length_take, Nat.min_l by lia; [|lia].
        rewrite lookup_app_r by lia. rewrite lookup_drop. f_equal. lia.
Qed.

Lemma holds_new : holds CircularBuffer_new [].
Proof. split; simpl; try done; try lia; auto. Qed.

Lemma holds_clear c q : holds c q → holds (clear c) [].
Proof.
  intros [H1 H2 H3 H4 H5 H6 H7 H8]. split; simpl; try done; try lia; intros; lia.
Qed.

Lemma write_spec c q buf :
  holds c q →
  let taken := take (capacity_ c - List.length q) buf in
  ∃ c', write buf c = Done (List.length taken, c') ∧ capacity_ c' = capacity_ c ∧ holds c' (q ++ taken).
Proof.
  intros [H1 H2 H3 H4 H5 H6 H7 H8] taken. unfold write.
  assert (Nat.min (List.length buf) (capacity_ c - size_ c) = List.length taken) as Hlen
    by (subst taken; rewrite length_take; lia).
  rewrite Hlen. set (len := List.length taken) in *.
  assert (take len buf = taken) as Htk.
  { subst taken len. rewrite length_take.
    destruct (decide (capacity_ c - List.length q ≤ List.length buf)).
    - by rewrite Nat.min_l.
    - by rewrite Nat.min_r, !take_ge by lia. }
  assert (∀ be, (∃ d, be = (d, if Nat.leb len (capacity_ c - end_ c) then end_ c + len
                             else len - (capacity_ c - end_ c)) ∧
      List.length d = capacity_ c ∧
      (∀ j, d !! j = if decide (end_ c ≤ j < Nat.min (end_ c + len) (capacity_ c)) then taken !! (j - end_ c)
                     else if decide (j + capacity_ c < end_ c + len)
                          then taken !! (j + capacity_ c - end_ c) else memory c !! j)) →
    ∃ c', (require (Nat.leb (size_ c + len) (capacity_ c)) ≫= λ _,
           require (Nat.leb len (capacity_ c)) ≫= λ _,
           mret (len, {| buffer_ := match buffer_ c with Some _ => Some be.1 | None => None end;
                  start_ := start_ c; end_ := be.2; capacity_ := capacity_ c;
                  size_ := size_ c + len |})) = Done (len, c') ∧
      capacity_ c' = capacity_ c ∧ holds c' (q ++ taken)) as Hfinish.
  { intros be (d & -> & Hd & Hj).
    rewrite (proj2 (Nat.leb_le (size_ c + len) _)), require_true by lia.
    rewrite (proj2 (Nat.leb_le len (capacity_ c))), require_true by lia.
    eexists. split; [done|]. split; [done|].
    assert (memory {| buffer_ := match buffer_ c with Some _ => Some d | None => None end;
        start_ := start_ c; end_ := if Nat.leb len (capacity_ c - end_ c) then end_ c + len
          else len - (capacity_ c - end_ c); capacity_ := capacity_ c;
        size_ := size_ c + len |} = d) as Hmem.
    { unfold memory. simpl. destruct (buffer_ c); [done|]. rewrite H4 in Hd by done.
      by destruct d. }
    split; simpl; rewrite ?Hmem; try done; try lia.
    - rewrite length_app. lia.
    - intros Hn. apply H4. by destruct (buffer_ c).
    - destruct (Nat.leb_spec len (capacity_ c - end_ c)); lia.
    - destruct (Nat.leb_spec len (capacity_ c - end_ c)); lia.
    - intros i Hi. assert (len ≤ capacity_ c - size_ c) as Hl by lia. clear Hlen Htk Hmem.
      change (position _ i) with (position c i). rewrite Hj.
      destruct (decide (i < size_ c)) as [Hs|Hs].
      + rewrite lookup_app_l by lia. rewrite <-(H8 i Hs). unfold position.
        destruct (Nat.ltb_spec (start_ c + i) (capacity_ c));
          rewrite !decide_False by lia; done.
      + rewrite lookup_app_r, H2 by lia. unfold position.
        destruct (Nat.ltb_spec (start_ c + i) (capacity_ c)).
        * case_decide; [f_equal; lia|]. rewrite decide_True by lia. f_equal. lia.
        * case_decide; [f_equal; lia|]. rewrite decide_True by lia. f_equal. lia. }
  destruct (Nat.leb_spec len (capacity_ c - end_ c)) as [Hfit|Hwrap].
  - rewrite Htk. destruct (memcpy_spec (end_ c) taken (memory c)) as (d & -> & Hd & Hj); [fold len; lia|].
    apply Hfinish. exists d. split; [done|]. split; [lia|]. intros j. rewrite Hj. fold len.
    repeat case_decide; try done; lia.
  - set (es := capacity_ c - end_ c) in *.
    assert (List.length (take es buf) = es) as Hes.
    { rewrite length_take. subst len taken. rewrite length_take in Hwrap. lia. }
    destruct (memcpy_spec (end_ c) (take es buf) (memory c)) as (d & -> & Hd & Hj); [lia|].
    rewrite done_bind. cbv beta.
    assert (List.length (take (len - es) (drop es buf)) = len - es) as Hfs.
    { rewrite length_take, length_drop. subst len taken. rewrite length_take in *. lia. }
    destruct (memcpy_spec 0 (take (len - es) (drop es buf)) d) as (d' & -> & Hd' & Hj'); [lia|].
    apply Hfinish. exists d'. split; [done|]. split; [lia|].
    assert (∀ k, k < len → taken !! k = buf !! k) as Hb.
    { intros k Hk. rewrite <-Htk. by apply lookup_take_lt. }
    intros j. rewrite Hj', Hfs, Hj, Hes.
    repeat case_decide; try done; try lia.
    all: rewrite lookup_take_lt by lia; rewrite ?lookup_drop, Hb by lia; f_equal; lia.
Qed.

Lemma read_spec c q len :
  holds c q →
  ∃ c', read len c = Done (take len q, c') ∧ capacity_ c' = capacity_ c ∧ holds c' (drop len q).
Proof.
  intros Hc. pose proof Hc as [H1 H2 H3 H4 H5 H6 H7 H8]. unfold read.
  assert (take (Nat.min len (size_ c)) q = take len q ∧ drop (Nat.min len (size_ c)) q = drop len q) as [<- <-].
  { destruct (decide (len ≤ size_ c)); [by rewrite Nat.min_l|].
    rewrite Nat.min_r, !take_ge, !drop_ge by lia. done. }
  assert (Nat.min len (size_ c) ≤ size_ c) as Hle by lia.
  generalize dependent (Nat.min len (size_ c)). clear len. intros len Hle.
  destruct (Nat.eqb_spec len 0) as [->|Hne]; [by exists c|].
  destruct (buffer_ c) as [b|] eqn:Eb; [|specialize (H4 eq_refl); lia].
  assert (memory c = b) as Hmem by (unfold memory; by rewrite Eb).
  rewrite Hmem in *.
  assert (∀ bytes start,
    List.length bytes = len → (∀ i, i < len → bytes !! i = b !! position c i) →
    start = (if Nat.ltb (start_ c + len) (capacity_ c) then start_ c + len
             else start_ c + len - capacity_ c) →
    ∃ c', (require (Nat.leb (size_ c - len) (capacity_ c)) ≫= λ _,
           require (Nat.leb len (capacity_ c)) ≫= λ _,
           mret (bytes, {| buffer_ := Some b; start_ := start; end_ := end_ c;
                           capacity_ := capacity_ c; size_ := size_ c - len |})) =
          Done (take len q, c') ∧ capacity_ c' = capacity_ c ∧ holds c' (drop len q)) as Hfinish.
  { intros bytes start Hlen Hbytes ->.
    rewrite (proj2 (Nat.leb_le (size_ c - len) _)), require_true by lia.
    rewrite (proj2 (Nat.leb_le len _)), require_true by lia.
    assert (bytes = take len q) as ->.
    { apply list_eq_same_length with len; [rewrite length_take; lia|done|].
      intros i x y Hi. rewrite Hbytes, H8, lookup_take_lt by lia. congruence. }
    eexists. split; [done|]. split; [done|].
    split; unfold memory; simpl; try done; try lia.
    - rewrite length_drop. lia.
    - destruct (Nat.ltb_spec (start_ c + len) (capacity_ c)); lia.
    - destruct (Nat.ltb_spec (start_ c + len) (capacity_ c)); lia.
    - intros i Hi. rewrite lookup_drop, <-H8 by lia. f_equal. unfold position. simpl.
      destruct (Nat.ltb_spec (start_ c + len) (capacity_ c));
        repeat match goal with
        | |- context [Nat.ltb ?u ?v] => destruct (Nat.ltb_spec u v)
        end; lia. }
  destruct (Nat.leb_spec len (capacity_ c - start_ c)) as [Hfit|Hwrap].
  - apply Hfinish.
    + rewrite length_take, length_drop. lia.
    + intros i Hi. rewrite lookup_take_lt, lookup_drop by lia. unfold position.
      destruct (Nat.ltb_spec (start_ c + i) (capacity_ c)); [done|lia].
    + destruct (Nat.eqb_spec (start_ c + len) (capacity_ c)), (Nat.ltb_spec (start_ c + len) (capacity_ c)); lia.
  - apply Hfinish.
    + rewrite length_app, !length_take, length_drop. lia.
    + intros i Hi. unfold position. destruct (Nat.ltb_spec (start_ c + i) (capacity_ c)).
      * rewrite lookup_app_l by (rewrite length_take, length_drop; lia).
        by rewrite lookup_take_lt, lookup_drop by lia.
      * rewrite lookup_app_r; rewrite length_take, length_drop, Nat.min_l by lia; [|lia].
        rewrite lookup_take_lt by lia. f_equal. lia.
    + destruct (Nat.ltb_spec (start_ c + len) (capacity_ c)); lia.
Qed.

Lemma set_capacity_spec fresh c q cap :
  (∀ n, List.length (fresh n) = n) → holds c q →
  ∃ c', set_capacity fresh cap c = Done (tt, c') ∧ capacity_ c' = cap ∧ holds c' (take cap q).
Proof.
  intros Hfresh Hc. pose proof Hc as [H1 H2 H3 H4 H5 H6 H7 H8]. unfold set_capacity.
  assert (∀ b, List.length b = cap →
    (∀ i, i < Nat.min (size_ c) cap → b !! i = q !! i) →
    holds {| buffer_ := Some b; start_ := 0; end_ := Nat.min (size_ c) cap; capacity_ := cap;
             size_ := Nat.min (size_ c) cap |} (take cap q)) as Hfinish.
  { intros b Hb Hq. split; unfold memory; cbn [buffer_ start_ end_ capacity_ size_]; try done; try lia.
    - rewrite length_take. lia.
    - intros i Hi. unfold position. cbn [start_ capacity_].
      destruct (Nat.ltb_spec (0 + i) cap); [|lia]. rewrite lookup_take_lt by lia. by apply Hq. }
  destruct (Nat.ltb_spec 0 (Nat.min (size_ c) cap)) as [Hpos|Hzero].
  - destruct (buffer_ c) as [b|] eqn:Eb; [|specialize (H4 eq_refl); lia].
    destruct (read_spec c q (Nat.min (size_ c) cap) Hc) as (c' & -> & _ & _).
    rewrite done_bind. cbn [fst].
    assert (List.length (take (Nat.min (size_ c) cap) q) = Nat.min (size_ c) cap) as Hlen
      by (rewrite length_take; lia).
    destruct (memcpy_spec 0 (take (Nat.min (size_ c) cap) q) (fresh cap)) as (d & -> & Hd & Hj).
    { rewrite Hlen, Hfresh. lia. }
    eexists. split; [done|]. split; [done|]. apply Hfinish; [by rewrite Hd|].
    intros i Hi. rewrite Hj, Hlen, decide_True by lia. by rewrite Nat.sub_0_r, lookup_take_lt.
  - eexists. split; [done|]. split; [done|]. apply Hfinish; [done|]. intros. lia.
Qed.

Lemma run_cb_op_spec fresh o c q :
  (∀ n, List.length (fresh n) = n) → holds c q →
  ∃ c', run_op fresh o c = Done ((spec_op o (capacity_ c, q)).1, c') ∧
    capacity_ c' = (spec_op o (capacity_ c, q)).2.1 ∧ holds c' (spec_op o (capacity_ c, q)).2.2.
Proof.
  intros Hfresh Hc. destruct o as [buf|len|cap|]; simpl.
  - destruct (write_spec c q buf Hc) as (c' & Hw & ? & ?). exists c'. run_with Hw.
    split; [|done]. unfold mret, St_ret. do 2 f_equal.
    rewrite length_take. destruct (decide (capacity_ c - List.length q ≤ List.length buf)).
    + by rewrite Nat.min_l.
    + by rewrite Nat.min_r, !take_ge by lia.
  - destruct (read_spec c q len Hc) as (c' & Hr & ? & ?). by exists c'.
  - destruct (set_capacity_spec fresh c q cap Hfresh Hc) as (c' & Hs & ? & ?). exists c'.
    by run_with Hs.
  - exists (clear c). split; [done|]. split; [done|]. by eapply holds_clear.
Qed.

(** C22.  The circular buffer is a bounded queue.  From construction on, any
    sequence of [write], [read], [set_capacity] and [clear] runs without tripping
    an assertion or leaving the allocation, and behaves as the queue: [write]
    takes the bytes that fit and answers how many they are, [read] gives the oldest
    bytes in the order they were written, [set_capacity] keeps the oldest bytes
    that fit in the new capacity, wherever the data wraps around. *)
Theorem circular_buffer_is_a_queue fresh os c q :
  (∀ n, List.length (fresh n) = n) → holds c q →
  ∃ c', run_ops fresh os c = Done ((spec_ops os (capacity_ c, q)).1, c') ∧
    (capacity_ c', size_ c') = ((spec_ops os (capacity_ c, q)).2.1,
                                List.length (spec_ops os (capacity_ c, q)).2.2) ∧
    holds c' (spec_ops os (capacity_ c, q)).2.2.
Proof.
  intros Hfresh. revert c q. induction os as [|o os IH]; intros c q Hc; cbn [run_ops spec_ops].
  { exists c. split; [done|]. split; [|done]. cbn [fst snd]. by rewrite (h_size _ _ Hc). }
  destruct (run_cb_op_spec fresh o c q Hfresh Hc) as (c1 & Hrun & Hcap & Hc1). run_with Hrun.
  destruct (spec_op o (capacity_ c, q)) as [r [cap1 q1]]. cbn [fst snd] in *. subst cap1.
  destruct (IH c1 q1 Hc1) as (c' & Hrun' & Hs & Hc'). run_with Hrun'.
  revert Hs Hc'. destruct (spec_ops os (capacity_ c1, q1)) as [rs s']. intros Hs Hc'. exists c'. by split_and!.
Qed.

Lemma circular_buffer_is_a_queue_witness :
  ∃ c', run_ops (λ n, repeat "?"%char n)
          [CbSetCapacity 4; CbWrite (lit "abc"); CbRead 2; CbWrite (lit "defg"); CbSetCapacity 3; CbRead 9]
          CircularBuffer_new =
        Done ([[]; lit "abc"; lit "ab"; lit "def"; []; lit "cde"], c') ∧ holds c' [].
Proof.
  destruct (circular_buffer_is_a_queue (λ n, repeat "?"%char n)
    [CbSetCapacity 4; CbWrite (lit "abc"); CbRead 2; CbWrite (lit "defg"); CbSetCapacity 3; CbRead 9]
    CircularBuffer_new [] (repeat_length _) holds_new) as (c' & Hrun & _ & Hc').
  exists c'. split; [exact Hrun|exact Hc'].
Defined.
