(* ===== verification/SocketStream.v ===== *)
(** * SocketStream: [socket_util.cc], [socket_stream.{h,cc}],
    [abstract_socket_namespace.cc], [logd_socket_namespace.cc]
    (under src/posix_translation/)

    What all sockets share: checks and conversions of socket addresses, socket
    options, and the two namespaces of bound local sockets. *)

From S2P Require Import Prelude Util MountPoints FileStream.

#[local] Open Scope Z_scope.

(** ** socket_util.cc *)

Module SocketUtil.
(** A [sockaddr_storage]: ports and addresses are kept in network order. *)
Inductive sockaddr_storage : Type :=
| sockaddr_in (sin_port : Z) (s_addr : list Z)
| sockaddr_in6 (sin6_port : Z) (s6_addr : list Z)
| sockaddr_other (family : Z).

#[export] Instance sockaddr_eq_dec : EqDecision sockaddr_storage.
Proof. solve_decision. Defined.

(** A [pp::NetAddress] of Pepper. *)
Inductive NetAddress : Type :=
| NetAddress_IPv4 (port : Z) (addr : list Z)
| NetAddress_IPv6 (port : Z) (addr : list Z)
| NetAddress_none.

Definition AF_UNSPEC : Z := 0.
Definition AF_UNIX : Z := 1.
Definition AF_INET : Z := 2.
Definition AF_INET6 : Z := 10.

Definition ss_family (a : sockaddr_storage) : Z :=
  match a with
  | sockaddr_in _ _ => AF_INET
  | sockaddr_in6 _ _ => AF_INET6
  | sockaddr_other f => f
  end.

(** [offsetof(sin_addr) + sizeof(in_addr)] and the like; sizes of the structs. *)
Definition kIPv4MinAddrLen : Z := 8.
Definition kIPv6MinAddrLen : Z := 24.
Definition sizeof_sockaddr_in : Z := 16.
Definition sizeof_sockaddr_in6 : Z := 28.
Definition sizeof_sockaddr_storage : Z := 128.

Definition v4mapped (addr : list Z) : list Z := repeat 0 10 ++ [255; 255] ++ addr.

(** [addr] is [None] for NULL; 0 is success. *)
Definition VerifyInputSocketAddress (addr : option sockaddr_storage) (addrlen address_family : Z) :
    outcome (option errno) :=
  require ((address_family =? AF_INET) || (address_family =? AF_INET6)) ≫= λ _,
  mret
    (if addrlen <=? 0 then Some EINVAL
     else match addr with
          | None => Some EFAULT
          | Some addr =>
              let kMinAddrLen :=
                if address_family =? AF_INET then kIPv4MinAddrLen else kIPv6MinAddrLen in
              if (addrlen <? kMinAddrLen) || (sizeof_sockaddr_storage <? addrlen)
              then Some EINVAL
              else if negb (ss_family addr =? address_family) then Some EAFNOSUPPORT
              else None
          end).

Definition VerifyOutputSocketAddress (addr_null : bool) (addrlen : option Z) : option errno :=
  match addrlen with
  | None => Some EFAULT
  | Some len => if len <? 0 then Some EINVAL
                else if negb (len =? 0) && addr_null then Some EFAULT else None
  end.

(** How many bytes of the address are copied, and the new [*namelen]. *)
Definition CopySocketAddress (address : sockaddr_storage) (name_null : bool) (namelen : Z) :
    outcome (Z * Z) :=
  let family := ss_family address in
  require ((family =? AF_INET) || (family =? AF_INET6)) ≫= λ _,
  let address_length := if family =? AF_INET then sizeof_sockaddr_in else sizeof_sockaddr_in6 in
  mret (if name_null then 0 else Z.min namelen address_length, address_length).

Definition SocketAddressEqual (addr1 addr2 : sockaddr_storage) : bool :=
  if negb (ss_family addr1 =? ss_family addr2) then false
  else
    match addr1, addr2 with
    | sockaddr_in p1 a1, sockaddr_in p2 a2 => (p1 =? p2) && bool_decide (a1 = a2)
    | sockaddr_in6 p1 a1, sockaddr_in6 p2 a2 => (p1 =? p2) && bool_decide (a1 = a2)
    | _, _ => false
    end.

Definition is_dest_family (f : Z) : bool :=
  (f =? AF_UNSPEC) || (f =? AF_INET) || (f =? AF_INET6).

(** [None] is the answer false. *)
Definition NetAddressToSockAddrStorage (net_address : NetAddress) (dest_family : Z)
    (allow_v4mapped : bool) : outcome (option sockaddr_storage) :=
  require (is_dest_family dest_family) ≫= λ _,
  mret
    match net_address with
    | NetAddress_IPv4 port addr =>
        if (dest_family =? AF_INET6) && negb allow_v4mapped then None
        else if dest_family =? AF_INET6 then Some (sockaddr_in6 port (v4mapped addr))
        else Some (sockaddr_in port addr)
    | NetAddress_IPv6 port addr =>
        if dest_family =? AF_INET then None else Some (sockaddr_in6 port addr)
    | NetAddress_none => None
    end.

Definition SockAddrToNetAddress (saddr : sockaddr_storage) : outcome NetAddress :=
  match saddr with
  | sockaddr_in port addr => mret (NetAddress_IPv4 port addr)
  | sockaddr_in6 port addr => mret (NetAddress_IPv6 port addr)
  | sockaddr_other _ => Abort
  end.

(** [inet_pton] of the C library, for the two families. *)
Definition StringToSockAddrStorage (inet_pton4 inet_pton6 : str → option (list Z))
    (hostname : str) (port dest_family : Z) (allow_v4mapped : bool) :
    outcome (option sockaddr_storage) :=
  require (is_dest_family dest_family) ≫= λ _,
  mret
    match inet_pton6 hostname with
    | Some addr6 => if dest_family =? AF_INET then None else Some (sockaddr_in6 port addr6)
    | None =>
        match inet_pton4 hostname with
        | Some addr4 =>
            if dest_family =? AF_INET6 then
              if negb allow_v4mapped then None else Some (sockaddr_in6 port (v4mapped addr4))
            else Some (sockaddr_in port addr4)
        | None => None
        end
    end.

Definition VerifyGetSocketOption (optval_null : bool) (optlen : option Z) : option errno :=
  match optlen with
  | None => Some EFAULT
  | Some len => if len <? 0 then Some EINVAL
                else if negb (len =? 0) && optval_null then Some EFAULT else None
  end.

Definition VerifySetSocketOption (optval_null : bool) (optlen expected_optlen : Z) : option errno :=
  if optlen <? expected_optlen then Some EINVAL
  else if optval_null then Some EFAULT else None.

Definition VerifyTimeoutSocketOption (timeout : timeval) : option errno :=
  if (tv_usec timeout <? 0) || (1000000 <=? tv_usec timeout) then Some EDOM else None.
End SocketUtil.

(** ** socket_stream.cc *)

Module SocketOptions.
Import SocketUtil.

Inductive sockopt : Type :=
| SO_ERROR | SO_REUSEADDR | SO_RCVBUF | SO_SNDBUF | SO_BROADCAST | SO_LINGER
| IPV6_MULTICAST_HOPS | SO_RCVTIMEO | SO_SNDTIMEO | SO_OTHER.

#[export] Instance sockopt_eq_dec : EqDecision sockopt.
Proof. solve_decision. Defined.

(** Memory of options is in 32-bit words: an [int] is one, a [linger] and a
    [timeval] two. *)
Record SocketStream : Type := mkSocketStream {
  broadcast_ : Z;
  error_ : Z;
  linger_ : Z * Z;
  reuse_addr_ : Z;
  recv_timeout_ : Z;
  send_timeout_ : Z;
  recv_buffer_size_ : Z;
  send_buffer_size_ : Z;
}.

Definition SocketStream_new : SocketStream :=
  {| broadcast_ := 0; error_ := 0; linger_ := (0, 0); reuse_addr_ := 0; recv_timeout_ := 0;
     send_timeout_ := 0; recv_buffer_size_ := 0; send_buffer_size_ := 0 |}.

Definition kMinSocketBuffSize : Z := 128.
Definition kMaxSocketBuffSize : Z := 4 * 1024 * 1024.
Definition sizeof_timeval : Z := 8.

(** The length of an option, and whether it has storage; [None] is false.
    [user_data] is what [setsockopt] is given. *)
Definition GetOptNameData (o : sockopt) (user_data : option (list Z)) (user_data_len : Z) :
    option (Z * bool) :=
  match o with
  | SO_ERROR | SO_REUSEADDR | SO_BROADCAST => Some (4, true)
  | SO_RCVBUF | SO_SNDBUF =>
      match user_data with
      | Some words =>
          if 4 <=? user_data_len then
            let value := List.hd 0 words in
            if (value <? kMinSocketBuffSize) || (kMaxSocketBuffSize <? value) then None
            else Some (4, true)
          else Some (4, true)
      | None => Some (4, true)
      end
  | SO_LINGER => Some (8, true)
  | IPV6_MULTICAST_HOPS => Some (4, false)
  | _ => None
  end.

Definition storage (o : sockopt) (s : SocketStream) : list Z :=
  match o with
  | SO_ERROR => [error_ s]
  | SO_REUSEADDR => [reuse_addr_ s]
  | SO_RCVBUF => [recv_buffer_size_ s]
  | SO_SNDBUF => [send_buffer_size_ s]
  | SO_BROADCAST => [broadcast_ s]
  | SO_LINGER => [(linger_ s).1; (linger_ s).2]
  | _ => []
  end.

Definition set_storage (o : sockopt) (w : list Z) (s : SocketStream) : SocketStream :=
  let w0 := List.nth 0 w 0 in
  {| broadcast_ := if decide (o = SO_BROADCAST) then w0 else broadcast_ s;
     error_ := if decide (o = SO_ERROR) then w0 else error_ s;
     linger_ := if decide (o = SO_LINGER) then (w0, List.nth 1 w 0) else linger_ s;
     reuse_addr_ := if decide (o = SO_REUSEADDR) then w0 else reuse_addr_ s;
     recv_timeout_ := recv_timeout_ s; send_timeout_ := send_timeout_ s;
     recv_buffer_size_ := if decide (o = SO_RCVBUF) then w0 else recv_buffer_size_ s;
     send_buffer_size_ := if decide (o = SO_SNDBUF) then w0 else send_buffer_size_ s |}.

(** [getsockopt] answers what the first bytes of [optval] become (words, and how
    many bytes of them are copied) and the new [*optlen]. *)
Definition GetTimeoutSocketOption (value : Z) (optval_null : bool) (optlen : option Z) :
    res (list Z * Z) :=
  match VerifyGetSocketOption optval_null optlen, optlen with
  | Some e, _ => Err e
  | None, None => Err EFAULT
  | None, Some len =>
      let tv := if 0 <? value then TimeDeltaToTimeVal 32 value else {| tv_sec := 0; tv_usec := 0 |} in
      Ok ([tv_sec tv; tv_usec tv], Z.min len sizeof_timeval)
  end.

Definition SetTimeoutSocketOption (optval : option (list Z)) (optlen : Z) : res Z :=
  match VerifySetSocketOption (bool_decide (optval = None)) optlen sizeof_timeval, optval with
  | Some e, _ => Err e
  | None, None => Err EFAULT
  | None, Some w =>
      let timeout := {| tv_sec := List.nth 0 w 0; tv_usec := List.nth 1 w 0 |} in
      match VerifyTimeoutSocketOption timeout with
      | Some e => Err e
      | None => Ok (TimeValToTimeDelta timeout)
      end
  end.

Definition getsockopt (o : sockopt) (optval_null : bool) (optlen : option Z) (s : SocketStream) :
    res (list Z * Z) :=
  match o with
  | SO_RCVTIMEO => GetTimeoutSocketOption (recv_timeout_ s) optval_null optlen
  | SO_SNDTIMEO => GetTimeoutSocketOption (send_timeout_ s) optval_null optlen
  | _ =>
      match optlen with
      | None => Err EFAULT
      | Some given =>
          match GetOptNameData o None 0 with
          | None => Err EINVAL
          | Some (len, has_storage) =>
              if (given <? len) && negb optval_null then Err EINVAL
              else Ok (if (has_storage : bool) then storage o s else [0], len)
          end
      end
  end.

Definition setsockopt (o : sockopt) (optval : option (list Z)) (optlen : Z) (s : SocketStream) :
    res unit * SocketStream :=
  match o with
  | SO_RCVTIMEO =>
      match SetTimeoutSocketOption optval optlen with
      | Err e => (Err e, s)
      | Ok t => (Ok tt, {| broadcast_ := broadcast_ s; error_ := error_ s; linger_ := linger_ s;
                           reuse_addr_ := reuse_addr_ s; recv_timeout_ := t;
                           send_timeout_ := send_timeout_ s;
                           recv_buffer_size_ := recv_buffer_size_ s;
                           send_buffer_size_ := send_buffer_size_ s |})
      end
  | SO_SNDTIMEO =>
      match SetTimeoutSocketOption optval optlen with
      | Err e => (Err e, s)
      | Ok t => (Ok tt, {| broadcast_ := broadcast_ s; error_ := error_ s; linger_ := linger_ s;
                           reuse_addr_ := reuse_addr_ s; recv_timeout_ := recv_timeout_ s;
                           send_timeout_ := t; recv_buffer_size_ := recv_buffer_size_ s;
                           send_buffer_size_ := send_buffer_size_ s |})
      end
  | _ =>
      match GetOptNameData o optval optlen with
      | None => (Err EINVAL, s)
      | Some (len, has_storage) =>
          if optlen <? len then (Err EINVAL, s)
          else match optval with
               | Some w => (Ok tt, if (has_storage : bool) then set_storage o w s else s)
               | None => (Ok tt, s)
               end
      end
  end.

Definition O_NONBLOCK : Z := 2048.

(** [ioctl(FIONBIO)] on the flags. *)
Definition ioctl_FIONBIO (val oflag : Z) : Z :=
  if negb (val =? 0) then Z.lor oflag O_NONBLOCK else Z.land oflag (Z.lnot O_NONBLOCK).

(** [fdatasync], [fsync]. *)
Definition sync : res Z := Err EINVAL.
End SocketOptions.

(** ** Namespaces *)

Module AbstractSocketNamespace.
Record AbstractSocketNamespace : Type := mkAbstract {
  map_ : gmap str sid;
  update_number : Z;   (* [update_producer_] *)
}.

(** [stream] is [None] for NULL. *)
Definition Bind (name : str) (stream : option sid) (n : AbstractSocketNamespace) :
    res unit * AbstractSocketNamespace :=
  let u := UpdateTracking.ProduceUpdate (update_number n) in
  match stream with
  | None => (Ok tt, {| map_ := delete name (map_ n); update_number := u |})
  | Some s =>
      match map_ n !! name with
      | None => (Ok tt, {| map_ := <[name := s]> (map_ n); update_number := u |})
      | Some _ => (Err EADDRINUSE, {| map_ := map_ n; update_number := u |})
      end
  end.

Definition GetByName (name : str) (n : AbstractSocketNamespace) : option sid := map_ n !! name.

(** The order is the hash map's. *)
Definition GetAllStreams (n : AbstractSocketNamespace) : list sid := (map_to_list (map_ n)).*2.
End AbstractSocketNamespace.

Module LogdSocketNamespace.
Definition IsNameAccepted (name : str) : bool :=
  bool_decide (name ∈ [lit "/dev/socket/logd"; lit "/dev/socket/logdr"; lit "/dev/socket/logdw";
                       lit "/dev/socket/testlogd"; lit "/dev/socket/testlogdr";
                       lit "/dev/socket/testlogdw"]).

(** A [scoped_refptr] in the map may be NULL. *)
Definition Bind (name : str) (stream : option sid) (m : gmap str (option sid)) :
    res unit * gmap str (option sid) :=
  if negb (IsNameAccepted name) then (Err EOPNOTSUPP, m)
  else if bool_decide (stream ≠ None) && bool_decide (is_Some (m !! name))
  then (Err EADDRINUSE, m)
  else (Ok tt, <[name := stream]> m).

Definition GetByName (name : str) (m : gmap str (option sid)) : option sid :=
  match m !! name with Some s => s | None => None end.
End LogdSocketNamespace.

(* -------------------------------------------------------------------- *)
(** * Properties *)

Section Properties.
Import SocketUtil SocketOptions.

Definition inet (a : sockaddr_storage) : Prop := ss_family a = AF_INET ∨ ss_family a = AF_INET6.

(** Struct values: the family of [sockaddr_other] is another one. *)
Definition sockaddr_ok (a : sockaddr_storage) : Prop :=
  match a with sockaddr_other f => f ≠ AF_INET ∧ f ≠ AF_INET6 | _ => True end.

(** Addresses between sockets and Pepper.  An internet address survives the
    conversion to Pepper and back, into its own family and into AF_UNSPEC; into
    the other family an IPv4 address comes back exactly when v4-mapped addresses
    are allowed, behind the prefix 0::FFFF, and an IPv6 address never; and two
    addresses of the internet families are [SocketAddressEqual] exactly when
    they are the same. *)
Theorem socket_address_conversions a b :
  sockaddr_ok a → sockaddr_ok b → inet a →
  (∃ n, SockAddrToNetAddress a = Done n ∧
     (∀ f allow, f = AF_UNSPEC ∨ f = ss_family a →
        NetAddressToSockAddrStorage n f allow = Done (Some a)) ∧
     (∀ allow, ss_family a = AF_INET →
        ∃ port addr, a = sockaddr_in port addr ∧
          NetAddressToSockAddrStorage n AF_INET6 allow =
          Done (if allow then Some (sockaddr_in6 port (v4mapped addr)) else None)) ∧
     (∀ allow, ss_family a = AF_INET6 → NetAddressToSockAddrStorage n AF_INET allow = Done None)) ∧
  (SocketAddressEqual a b = true ↔ a = b).
Proof.
  intros Ha Hb Hi. split.
  - destruct a as [p x|p x|f]; [| |by destruct Hi as [?|?], Ha]; (eexists; split; [done|]).
    + split; [by intros f allow [-> | ->]|]. split; [|done].
      intros allow _. exists p, x. split; [done|]. by destruct allow.
    + split; [by intros f allow [-> | ->]|]. done.
  - unfold SocketAddressEqual.
    assert (∀ f g, f ≠ g → (f =? g) = false) as Hn by (intros; by apply Z.eqb_neq).
    destruct Hi as [Hi|Hi], a as [p x|p x|f]; try discriminate Hi;
      try (exfalso; cbn [ss_family sockaddr_ok] in *; by destruct Ha);
      destruct b as [q y|q y|g]; cbn [ss_family sockaddr_ok] in *;
      first [ by split; [cbn|discriminate]
            | by rewrite Hn by (by destruct Hb)
            | rewrite Z.eqb_refl; cbn [negb];
              rewrite andb_true_iff, Z.eqb_eq, bool_decide_eq_true; naive_solver ].
Qed.

Lemma socket_address_conversions_witness :
  ∃ n, SockAddrToNetAddress (sockaddr_in 80 [127; 0; 0; 1]) = Done n ∧
    NetAddressToSockAddrStorage n AF_INET6 true =
    Done (Some (sockaddr_in6 80 [0; 0; 0; 0; 0; 0; 0; 0; 0; 0; 255; 255; 127; 0; 0; 1])).
Proof.
  destruct (socket_address_conversions (sockaddr_in 80 [127; 0; 0; 1]) (sockaddr_in 0 []))
    as [(n & Hn & _ & H4 & _) _]; [done|done|by left|].
  exists n. split; [exact Hn|]. destruct (H4 true eq_refl) as (p & x & [= <- <-] & H). exact H.
Defined.

(** The options that keep words. *)
Definition stored (o : sockopt) : bool :=
  match o with
  | SO_ERROR | SO_REUSEADDR | SO_RCVBUF | SO_SNDBUF | SO_BROADCAST | SO_LINGER => true
  | _ => false
  end.

Definition words (o : sockopt) : nat := match o with SO_LINGER => 2 | _ => 1 end.

(** A value that [setsockopt] takes. *)
Definition value_ok (o : sockopt) (w : list Z) : bool :=
  match o with
  | SO_RCVBUF | SO_SNDBUF =>
      (kMinSocketBuffSize <=? List.hd 0 w) && (List.hd 0 w <=? kMaxSocketBuffSize)
  | _ => true
  end.

(** Socket options.  [setsockopt] of a stored option with a long enough
    value takes it, unless it is a buffer size out of 128..4M (EINVAL, nothing
    changes); then [getsockopt] gives it back and every other option is as
    before.  A timeout needs microseconds in 0..999999 (EDOM otherwise); what
    [getsockopt] gives back is the normalized time, or zero when it is negative.
    Short values are EINVAL. *)
Theorem socket_options_roundtrip o w tv (s : SocketStream) :
  stored o = true → List.length w = words o →
  - 2 ^ 31 <= tv_sec tv < 2 ^ 31 →
  let n := 4 * Z.of_nat (words o) in
  (value_ok o w = true →
     ∃ s', setsockopt o (Some w) n s = (Ok tt, s') ∧ getsockopt o false (Some n) s' = Ok (w, n) ∧
       ∀ o', o' ≠ o → ∀ l, getsockopt o' false l s' = getsockopt o' false l s) ∧
  (value_ok o w = false → setsockopt o (Some w) n s = (Err EINVAL, s)) ∧
  (∀ k, k < n → setsockopt o (Some w) k s = (Err EINVAL, s)) ∧
  (if VerifyTimeoutSocketOption tv then
     setsockopt SO_RCVTIMEO (Some [tv_sec tv; tv_usec tv]) 8 s = (Err EDOM, s)
   else
     ∃ s', setsockopt SO_RCVTIMEO (Some [tv_sec tv; tv_usec tv]) 8 s = (Ok tt, s') ∧
       getsockopt SO_RCVTIMEO false (Some 8) s' =
       Ok (if tv_sec tv <? 0 then [0; 0] else [tv_sec tv; tv_usec tv], 8) ∧
       getsockopt SO_SNDTIMEO false (Some 8) s' = getsockopt SO_SNDTIMEO false (Some 8) s).
Proof.
  intros Ho Hw Htv n. subst n. split; [|split; [|split]].
  - intros Hv. destruct o; simpl in *; try done;
      (destruct w as [|x [|y [|z w]]]; simpl in *; try done);
      try (apply andb_true_iff in Hv as [H1%Z.leb_le H2%Z.leb_le];
           unfold setsockopt, GetOptNameData; cbn [List.hd Z.leb Z.mul Z.of_nat];
           rewrite (proj2 (Z.ltb_ge x kMinSocketBuffSize)), (proj2 (Z.ltb_ge kMaxSocketBuffSize x)) by done);
      (eexists; split; [reflexivity|]; split; [reflexivity|];
       intros o' Ho' l; destruct o'; try done).
  - intros Hv. destruct o; simpl in *; try done;
      (destruct w as [|x [|y [|z w]]]; simpl in *; try done);
      (apply andb_false_iff in Hv; unfold setsockopt, GetOptNameData; cbn [List.hd Z.leb];
       destruct (Z.ltb_spec x kMinSocketBuffSize); [done|];
       destruct (Z.ltb_spec kMaxSocketBuffSize x); [done|];
       rewrite !Z.leb_gt in Hv; lia).
  - intros k Hk. destruct o; simpl in *; try done;
      try (destruct (Z.ltb_spec k 4); [done|lia]); try (destruct (Z.ltb_spec k 8); [done|lia]);
      (destruct (Z.leb_spec 4 k); [lia|]; destruct (Z.ltb_spec k 4); [done|lia]).
  - unfold setsockopt, SetTimeoutSocketOption. cbn [List.nth].
    assert ({| tv_sec := tv_sec tv; tv_usec := tv_usec tv |} = tv) as -> by (by destruct tv).
    change (VerifySetSocketOption (bool_decide (Some [tv_sec tv; tv_usec tv] = None)) 8 sizeof_timeval)
      with (@None errno).
    destruct (VerifyTimeoutSocketOption tv) as [e|] eqn:E; unfold VerifyTimeoutSocketOption in E.
    + destruct (_ || _) in E; [by injection E as <-|done].
    + destruct (Z.ltb_spec (tv_usec tv) 0); [done|]. destruct (Z.leb_spec 1000000 (tv_usec tv)); [done|].
      eexists. split; [done|]. split; [|done]. unfold getsockopt, GetTimeoutSocketOption.
      cbn [VerifyGetSocketOption recv_timeout_ Z.ltb Z.compare Z.eqb negb andb].
      unfold TimeValToTimeDelta, kMicrosecondsPerSecond.
      change (Z.min 8 sizeof_timeval) with 8. do 2 f_equal.
      assert (tv_sec tv * (1000 * 1000) + tv_usec tv = tv_sec tv * 1000000 + tv_usec tv) as -> by done.
      destruct (Z.ltb_spec (tv_sec tv) 0) as [Hs|Hs].
      * destruct (Z.ltb_spec 0 (tv_sec tv * 1000000 + tv_usec tv)); [lia|done].
      * destruct (Z.ltb_spec 0 (tv_sec tv * 1000000 + tv_usec tv)) as [Hp|Hp].
        -- rewrite time_delta_to_timeval_eq;
             change kMicrosecondsPerSecond with 1000000 in *; cbn [tv_sec tv_usec];
             [|lia|Z.to_euclidean_division_equations; lia].
           repeat f_equal; Z.to_euclidean_division_equations; lia.
        -- destruct tv as [x y]. cbn in *. repeat f_equal; lia.
Qed.

Lemma socket_options_roundtrip_witness :
  let s := SocketStream_new in
  let '(r, s') := setsockopt SO_RCVTIMEO (Some [1; 500000]) 8 s in
  r = Ok tt ∧ getsockopt SO_RCVTIMEO false (Some 8) s' = Ok ([1; 500000], 8) ∧
  setsockopt SO_RCVBUF (Some [127]) 4 s = (Err EINVAL, s).
Proof.
  destruct (socket_options_roundtrip SO_RCVBUF [127] {| tv_sec := 1; tv_usec := 500000 |}
              SocketStream_new) as (_ & Hbad & _ & s' & H1 & H2 & _); [done|done|by vm_compute|].
  cbv zeta. cbn [tv_sec tv_usec] in H1, H2. rewrite H1.
  split; [done|]. split; [exact H2|]. by apply Hbad.
Defined.

(** The namespaces of bound local sockets.  In the abstract namespace a
    name belongs to the first socket bound to it: a second socket gets
    EADDRINUSE and [GetByName] keeps answering the first, until the name is
    bound to NULL, after which it is free for the next socket; other names are
    not touched, and every call produces an update.  In the logd namespace only
    the logd names are accepted; binding a name to NULL makes [GetByName] answer
    NULL, but the name stays taken for ever. *)
Theorem socket_namespaces (name other : str) (s t : sid)
    (n : AbstractSocketNamespace.AbstractSocketNamespace) (m : gmap str (option sid)) :
  other ≠ name →
  let '(r, n1) := AbstractSocketNamespace.Bind name (Some s) n in
  let '(r0, n0) := AbstractSocketNamespace.Bind name None n in
  (r = match AbstractSocketNamespace.GetByName name n with
       | None => Ok tt | Some _ => Err EADDRINUSE end) ∧
  AbstractSocketNamespace.GetByName name n1 =
    Some (default s (AbstractSocketNamespace.GetByName name n)) ∧
  AbstractSocketNamespace.GetByName other n1 = AbstractSocketNamespace.GetByName other n ∧
  r0 = Ok tt ∧ AbstractSocketNamespace.GetByName name n0 = None ∧
  AbstractSocketNamespace.GetByName other n0 = AbstractSocketNamespace.GetByName other n ∧
  (AbstractSocketNamespace.Bind name (Some t) n0).1 = Ok tt ∧
  AbstractSocketNamespace.update_number n1 =
    UpdateTracking.ProduceUpdate (AbstractSocketNamespace.update_number n) ∧
  (s ∈ AbstractSocketNamespace.GetAllStreams n ↔
     ∃ x, AbstractSocketNamespace.GetByName x n = Some s) ∧
  (if LogdSocketNamespace.IsNameAccepted name then
     let '(r, m1) := LogdSocketNamespace.Bind name (Some s) m in
     let '(r0, m0) := LogdSocketNamespace.Bind name None m in
     (r = if m !! name then Err EADDRINUSE else Ok tt) ∧
     (r = Ok tt → LogdSocketNamespace.GetByName name m1 = Some s) ∧
     r0 = Ok tt ∧ LogdSocketNamespace.GetByName name m0 = None ∧
     LogdSocketNamespace.Bind name (Some t) m0 = (Err EADDRINUSE, m0)
   else LogdSocketNamespace.Bind name (Some s) m = (Err EOPNOTSUPP, m)).
Proof.
  intros Hne.
  unfold AbstractSocketNamespace.Bind, AbstractSocketNamespace.GetByName. cbn [fst].
  destruct (AbstractSocketNamespace.map_ n !! name) as [x|] eqn:E; cbn [AbstractSocketNamespace.map_];
    rewrite ?lookup_delete_eq, ?lookup_insert_eq, ?lookup_delete_ne, ?lookup_insert_ne, ?E by done;
    (split_and!; try done;
     [ unfold AbstractSocketNamespace.GetAllStreams; rewrite list_elem_of_fmap;
       setoid_rewrite elem_of_map_to_list'; split;
       [ intros ([k v] & -> & Hk); by exists k | intros [k Hk]; by exists (k, s) ] | ]);
    unfold LogdSocketNamespace.Bind, LogdSocketNamespace.GetByName;
    (destruct (LogdSocketNamespace.IsNameAccepted name); [|done]); cbn [negb];
    rewrite (bool_decide_true (Some s ≠ None)) by done;
    rewrite (bool_decide_true (Some t ≠ None)) by done;
    rewrite (bool_decide_false (None ≠ None)) by (by intros []);
    cbn [andb]; rewrite !lookup_insert_eq;
    (destruct (m !! name) as [y|] eqn:E';
     [rewrite !bool_decide_true by (by eexists)
     |rewrite (bool_decide_false (is_Some None)) by (by intros []);
      rewrite !bool_decide_true by (by eexists)]);
    split_and!; try done; intros _; by rewrite lookup_insert_eq.
Qed.

Lemma socket_namespaces_witness :
  (LogdSocketNamespace.Bind (lit "/dev/socket/logd") (Some 7%nat)
     (LogdSocketNamespace.Bind (lit "/dev/socket/logd") None ∅).2).1 = Err EADDRINUSE.
Proof.
  pose proof (socket_namespaces (lit "/dev/socket/logd") (lit "x") 1%nat 7%nat
    (AbstractSocketNamespace.mkAbstract ∅ 1) ∅ ltac:(done)) as H.
  cbv beta in H. destruct H as (_ & _ & _ & _ & _ & _ & _ & _ & _ & H).
  destruct H as (_ & _ & _ & _ & H). exact (f_equal fst H).
Defined.
End Properties.
