(* ===== verification/LocalSocket.v ===== *)
(** * LocalSocket: [local_socket.{h,cc}] (under src/posix_translation/)

    Unix sockets, socket pairs and pipes.  A [LocalSocket] object is in two
    places: its [FileStream] part is in the store of FileStream.v under the same
    identity, and the fields of [LocalSocket] are in [sockets].  Descriptors are
    dup'ed and closed through the table of VfsFds.v, listeners are notified
    through FileStream.v, bytes are in a CircularBuffer.v.  [connect], [accept] and
    [recvmsg] give the lock up while they wait; the code up to the wait, the wait
    and the code after it are separate definitions, which the interleavings of
    the properties use. *)

From S2P Require Import Prelude Util FileStream FdMap VfsFds CircularBuffer SocketStream.
Import Refs SocketUtil.

#[local] Open Scope Z_scope.

Inductive socket_type : Type := SOCK_STREAM | SOCK_DGRAM | SOCK_SEQPACKET.
Inductive StreamDir : Type := READ_ONLY | WRITE_ONLY | READ_WRITE.
Inductive ConnectState : Type :=
| SOCKET_NEW | SOCKET_CONNECTING | SOCKET_CONNECTED | SOCKET_LISTENING.

#[export] Instance socket_type_eq_dec : EqDecision socket_type.
Proof. solve_decision. Defined.
#[export] Instance stream_dir_eq_dec : EqDecision StreamDir.
Proof. solve_decision. Defined.
#[export] Instance connect_state_eq_dec : EqDecision ConnectState.
Proof. solve_decision. Defined.

Record ucred : Type := mkUcred { cr_pid : Z; cr_uid : Z; cr_gid : Z }.

#[export] Instance ucred_eq_dec : EqDecision ucred.
Proof. solve_decision. Defined.

Record Datagram : Type := mkDatagram { cred_ : ucred; content_ : str }.

Record LocalSocket : Type := mkLocalSocket {
  socket_type_ : socket_type;
  connect_state_ : ConnectState;
  stream_dir_ : StreamDir;
  connection_queue_ : list sid;
  connection_backlog_ : Z;
  buffer_ : CircularBuffer;
  peer_ : option sid;
  queue_ : list Datagram;
  cmsg_fd_queue_ : list (list Z);
  abstract_name_ : str;
  logd_name_ : str;
  logd_target_name_ : str;
  my_cred_ : ucred;
  peer_cred_ : ucred;
  pass_cred_ : Z;
  options_ : SocketOptions.SocketStream;
}.

(** What sockets share, apart from the descriptors. *)
Record LocalEnv : Type := mkLocalEnv {
  sockets : gmap sid LocalSocket;
  abstract_ns : AbstractSocketNamespace.AbstractSocketNamespace;
  logd_ns : gmap str (option sid);
  broadcasts : nat;   (* calls of [VirtualFileSystem::Broadcast] *)
}.

Abbreviation Net := (Sys LocalEnv).

(** ** Fields *)

Definition with_state (v : ConnectState) (s : LocalSocket) : LocalSocket :=
  mkLocalSocket (socket_type_ s) v (stream_dir_ s) (connection_queue_ s) (connection_backlog_ s)
    (buffer_ s) (peer_ s) (queue_ s) (cmsg_fd_queue_ s) (abstract_name_ s) (logd_name_ s)
    (logd_target_name_ s) (my_cred_ s) (peer_cred_ s) (pass_cred_ s) (options_ s).

Definition with_connections (q : list sid) (s : LocalSocket) : LocalSocket :=
  mkLocalSocket (socket_type_ s) (connect_state_ s) (stream_dir_ s) q (connection_backlog_ s)
    (buffer_ s) (peer_ s) (queue_ s) (cmsg_fd_queue_ s) (abstract_name_ s) (logd_name_ s)
    (logd_target_name_ s) (my_cred_ s) (peer_cred_ s) (pass_cred_ s) (options_ s).

Definition with_backlog (n : Z) (s : LocalSocket) : LocalSocket :=
  mkLocalSocket (socket_type_ s) (connect_state_ s) (stream_dir_ s) (connection_queue_ s) n
    (buffer_ s) (peer_ s) (queue_ s) (cmsg_fd_queue_ s) (abstract_name_ s) (logd_name_ s)
    (logd_target_name_ s) (my_cred_ s) (peer_cred_ s) (pass_cred_ s) (options_ s).

Definition with_buffer (b : CircularBuffer) (s : LocalSocket) : LocalSocket :=
  mkLocalSocket (socket_type_ s) (connect_state_ s) (stream_dir_ s) (connection_queue_ s)
    (connection_backlog_ s) b (peer_ s) (queue_ s) (cmsg_fd_queue_ s) (abstract_name_ s)
    (logd_name_ s) (logd_target_name_ s) (my_cred_ s) (peer_cred_ s) (pass_cred_ s) (options_ s).

Definition with_peer (p : option sid) (cred : ucred) (s : LocalSocket) : LocalSocket :=
  mkLocalSocket (socket_type_ s) (connect_state_ s) (stream_dir_ s) (connection_queue_ s)
    (connection_backlog_ s) (buffer_ s) p (queue_ s) (cmsg_fd_queue_ s) (abstract_name_ s)
    (logd_name_ s) (logd_target_name_ s) (my_cred_ s) cred (pass_cred_ s) (options_ s).

Definition with_queue (q : list Datagram) (s : LocalSocket) : LocalSocket :=
  mkLocalSocket (socket_type_ s) (connect_state_ s) (stream_dir_ s) (connection_queue_ s)
    (connection_backlog_ s) (buffer_ s) (peer_ s) q (cmsg_fd_queue_ s) (abstract_name_ s)
    (logd_name_ s) (logd_target_name_ s) (my_cred_ s) (peer_cred_ s) (pass_cred_ s) (options_ s).

Definition with_cmsg (q : list (list Z)) (s : LocalSocket) : LocalSocket :=
  mkLocalSocket (socket_type_ s) (connect_state_ s) (stream_dir_ s) (connection_queue_ s)
    (connection_backlog_ s) (buffer_ s) (peer_ s) (queue_ s) q (abstract_name_ s)
    (logd_name_ s) (logd_target_name_ s) (my_cred_ s) (peer_cred_ s) (pass_cred_ s) (options_ s).

Definition with_names (abstract logd : str) (s : LocalSocket) : LocalSocket :=
  mkLocalSocket (socket_type_ s) (connect_state_ s) (stream_dir_ s) (connection_queue_ s)
    (connection_backlog_ s) (buffer_ s) (peer_ s) (queue_ s) (cmsg_fd_queue_ s) abstract logd
    (logd_target_name_ s) (my_cred_ s) (peer_cred_ s) (pass_cred_ s) (options_ s).

Definition with_target (name : str) (s : LocalSocket) : LocalSocket :=
  mkLocalSocket (socket_type_ s) (connect_state_ s) (stream_dir_ s) (connection_queue_ s)
    (connection_backlog_ s) (buffer_ s) (peer_ s) (queue_ s) (cmsg_fd_queue_ s)
    (abstract_name_ s) (logd_name_ s) name (my_cred_ s) (peer_cred_ s) (pass_cred_ s) (options_ s).

Definition with_options (pass_cred : Z) (o : SocketOptions.SocketStream) (s : LocalSocket) : LocalSocket :=
  mkLocalSocket (socket_type_ s) (connect_state_ s) (stream_dir_ s) (connection_queue_ s)
    (connection_backlog_ s) (buffer_ s) (peer_ s) (queue_ s) (cmsg_fd_queue_ s)
    (abstract_name_ s) (logd_name_ s) (logd_target_name_ s) (my_cred_ s) (peer_cred_ s) pass_cred o.

(** ** Access to the state *)

Definition env_sockets (m : gmap sid LocalSocket) (e : LocalEnv) : LocalEnv :=
  mkLocalEnv m (abstract_ns e) (logd_ns e) (broadcasts e).

Definition socket (s : sid) : St Net LocalSocket := λ w,
  match sockets w.2 !! s with Some l => Done (l, w) | None => Abort end.

Definition set_socket (s : sid) (l : LocalSocket) : St Net unit :=
  modify (λ w, (w.1, env_sockets (<[s := l]> (sockets w.2)) w.2)).

Definition update (s : sid) (f : LocalSocket → LocalSocket) : St Net unit :=
  l ← socket s; set_socket s (f l).

(** A method of [FileStream]. *)
Definition on_stream {A} (m : St Streams A) : St Net A := on_fds (on_streams m).

Definition Broadcast : St Net unit :=
  modify (λ w, (w.1, mkLocalEnv (sockets w.2) (abstract_ns w.2) (logd_ns w.2) (S (broadcasts w.2)))).

Definition oflag (s : sid) : St Net Z := f ← on_stream (deref s); mret (oflag_ f).

Definition is_block (s : sid) : St Net bool :=
  o ← oflag s; mret (Z.land o SocketOptions.O_NONBLOCK =? 0).

(** ** Construction and destruction *)

(** 224K *)
Definition kBufferSize : nat := Z.to_nat (224 * 1024).

Definition no_peer_cred : ucred := mkUcred 0 (2 ^ 32 - 1) (2 ^ 32 - 1).

(** [pid] and [uid] are the calling thread's; [fresh] is new memory. *)
Definition LocalSocket_new (fresh : nat → list ascii) (pid uid : Z) (type : socket_type)
    (dir : StreamDir) : outcome LocalSocket :=
  (if bool_decide (type = SOCK_STREAM) && negb (bool_decide (dir = WRITE_ONLY))
   then r ← set_capacity fresh kBufferSize CircularBuffer_new; mret r.2
   else mret CircularBuffer_new) ≫= λ b,
  mret (mkLocalSocket type SOCKET_NEW dir [] 0 b None [] [] [] [] [] (mkUcred pid uid uid)
          no_peer_cred 0 SocketOptions.SocketStream_new).

(** [new LocalSocket(oflag, ...)] at the address [s], with its [FileStream] part. *)
Definition new_socket (fresh : nat → list ascii) (pid uid : Z) (s : sid) (flags : Z)
    (type : socket_type) (dir : StreamDir) : St Net unit :=
  w ← get;
  check (bool_decide (objects w.1.2 !! s = None));;
  l ← lift (LocalSocket_new fresh pid uid type dir);
  on_stream (set_object s (new_stream flags true));;
  set_socket s l.

Definition set_peer (s peer : sid) : St Net unit :=
  p ← socket peer;
  update s (λ l, with_peer (Some peer) (my_cred_ p) (with_state SOCKET_CONNECTED l)).

Definition OnLastFileRef (s : sid) : St Net unit :=
  l ← socket s;
  match peer_ l with
  | Some p =>
      update p (λ q, with_peer None (peer_cred_ q) q);;
      update s (λ q, with_peer None (peer_cred_ q) q);;
      Broadcast
  | None => mret tt
  end;;
  (if negb (bool_decide (abstract_name_ l = [])) then
     modify (λ w, (w.1, mkLocalEnv (sockets w.2)
       (AbstractSocketNamespace.Bind (abstract_name_ l) None (abstract_ns w.2)).2
       (logd_ns w.2) (broadcasts w.2)))
   else mret tt);;
  (if negb (bool_decide (logd_name_ l = [])) then
     modify (λ w, (w.1, mkLocalEnv (sockets w.2) (abstract_ns w.2)
       (LogdSocketNamespace.Bind (logd_name_ l) None (logd_ns w.2)).2 (broadcasts w.2)))
   else mret tt).

(** [CloseLocked] of a descriptor; the [OnLastFileRef] that [ReleaseFileRef] ends
    with is this class's when the stream is a local socket. *)
Definition close_fd (allowed : sid → bool) (fd : Z) : St Net bool :=
  w ← get;
  closed ← on_fds (CloseLocked allowed fd);
  w' ← get;
  for_each (λ s, if bool_decide (is_Some (sockets w'.2 !! s)) then OnLastFileRef s else mret tt)
           (last_refs w.1 w'.1);;
  mret closed.

(** ** Names *)

(** A [sockaddr_un]: the memory behind [sun_path]. *)
Record sockaddr_un : Type := mkSockaddrUn { sun_family : Z; sun_path : str }.

Definition kSunPathOffset : Z := 2.
Definition NUL : ascii := Ascii.zero.

Definition ValidateSockaddr (addr : sockaddr_un) (addrlen : Z) : option errno :=
  if negb (sun_family addr =? AF_UNIX) then Some EINVAL
  else if addrlen <? kSunPathOffset + 1 then Some EINVAL else None.

(** [strnlen]: the bytes before the first NUL. *)
Fixpoint until_nul (s : str) : str :=
  match s with
  | [] => []
  | c :: s => if bool_decide (c = NUL) then [] else c :: until_nul s
  end.

Definition sun_path_bytes (addr : sockaddr_un) (addrlen : Z) : str :=
  take (Z.to_nat (addrlen - kSunPathOffset)) (sun_path addr).

Definition ConvertSockaddrToName (addr : sockaddr_un) (addrlen : Z) : option str :=
  if bool_decide (List.hd NUL (sun_path addr) = NUL) then None
  else Some (until_nul (sun_path_bytes addr addrlen)).

Definition ConvertSockaddrToAbstractName (addr : sockaddr_un) (addrlen : Z) : option str :=
  if negb (bool_decide (List.hd NUL (sun_path addr) = NUL)) then None
  else Some (List.tl (sun_path_bytes addr addrlen)).

Definition bind (s : sid) (addr : sockaddr_un) (addrlen : Z) : St Net (res Z) :=
  match ValidateSockaddr addr addrlen with
  | Some e => mret (Err e)
  | None =>
      l ← socket s;
      if negb (bool_decide (abstract_name_ l = [])) || negb (bool_decide (logd_name_ l = []))
      then mret (Err EINVAL)
      else
        match ConvertSockaddrToName addr addrlen, ConvertSockaddrToAbstractName addr addrlen with
        | Some name, _ =>
            w ← get;
            let '(r, ns) := LogdSocketNamespace.Bind name (Some s) (logd_ns w.2) in
            modify (λ w, (w.1, mkLocalEnv (sockets w.2) (abstract_ns w.2) ns (broadcasts w.2)));;
            match r with
            | Ok _ => update s (with_names (abstract_name_ l) name);; mret (Ok 0)
            | Err e => mret (Err e)
            end
        | None, Some name =>
            w ← get;
            let '(r, ns) := AbstractSocketNamespace.Bind name (Some s) (abstract_ns w.2) in
            modify (λ w, (w.1, mkLocalEnv (sockets w.2) ns (logd_ns w.2) (broadcasts w.2)));;
            match r with
            | Ok _ => update s (with_names name (logd_name_ l));; mret (Ok 0)
            | Err e => mret (Err e)
            end
        | None, None => mret (Err ENOSYS)
        end
  end.

(** ** Connections *)

(** [backlog] becomes a [size_t]. *)
Definition listen (s : sid) (backlog : Z) : St Net (res Z) :=
  l ← socket s;
  if bool_decide (socket_type_ l = SOCK_DGRAM) then mret (Err EOPNOTSUPP)
  else if bool_decide (abstract_name_ l = []) && bool_decide (logd_name_ l = []) then mret (Err EINVAL)
  else update s (λ l, with_backlog (wrap32 backlog) (with_state SOCKET_LISTENING l));; mret (Ok 0).

(** [this->HandleConnectLocked(bound_socket)]. *)
Definition HandleConnectLocked (this bound_socket : sid) : St Net bool :=
  l ← socket this;
  if bool_decide (socket_type_ l = SOCK_STREAM) || bool_decide (socket_type_ l = SOCK_SEQPACKET) then
    if negb (bool_decide (connect_state_ l = SOCKET_LISTENING)) then mret false
    else if connection_backlog_ l =? Z.of_nat (List.length (connection_queue_ l)) then mret false
    else
      let q := connection_queue_ l ++ [bound_socket] in
      update this (with_connections q);;
      (if Nat.eqb (List.length q) 1 then Broadcast;; on_stream (NotifyListeners this) else mret tt);;
      mret true
  else mret true.

(** [connect] up to the wait. *)
Definition connect_start (s : sid) (addr : sockaddr_un) (addrlen : Z) : St Net (res Z) :=
  l ← socket s;
  block ← is_block s;
  if bool_decide (connect_state_ l = SOCKET_CONNECTED) || bool_decide (connect_state_ l = SOCKET_LISTENING)
  then mret (Err EISCONN)
  else if negb (bool_decide (socket_type_ l = SOCK_DGRAM)) && negb block then mret (Err ENOSYS)
  else
    match ValidateSockaddr addr addrlen with
    | Some e => mret (Err e)
    | None =>
        w ← get;
        match ConvertSockaddrToName addr addrlen, ConvertSockaddrToAbstractName addr addrlen with
        | None, None => mret (Err ENOSYS)
        | logd_name, abstract_name =>
            let bound_socket :=
              match logd_name, abstract_name with
              | Some name, _ => LogdSocketNamespace.GetByName name (logd_ns w.2)
              | None, Some name => AbstractSocketNamespace.GetByName name (abstract_ns w.2)
              | None, None => None
              end in
            match bound_socket with
            | None => mret (Err ECONNREFUSED)
            | Some b =>
                bl ← socket b;
                if negb (bool_decide (socket_type_ bl = socket_type_ l)) then mret (Err ECONNREFUSED)
                else
                  handled ← HandleConnectLocked b s;
                  if negb handled then mret (Err ECONNREFUSED)
                  else
                    update s (with_target (default [] logd_name));;
                    (if bool_decide (socket_type_ l = SOCK_DGRAM) then mret tt
                     else update s (with_state SOCKET_CONNECTING));;
                    mret (Ok 0)
            end
        end
    end.

(** [while (cond) sys->Wait();] *)
Fixpoint wait_while (fuel : nat) (Wait : St Net unit) (cond : St Net bool) : St Net unit :=
  match fuel with
  | O => λ _, NoFuel
  | S n => c ← cond; if (c : bool) then Wait;; wait_while n Wait cond else mret tt
  end.

Definition connecting (s : sid) : St Net bool :=
  l ← socket s; mret (bool_decide (connect_state_ l = SOCKET_CONNECTING)).

Definition connect (fuel : nat) (Wait : St Net unit) (s : sid) (addr : sockaddr_un) (addrlen : Z) :
    St Net (res Z) :=
  r ← connect_start s addr addrlen;
  match r with
  | Err e => mret (Err e)
  | Ok v =>
      l ← socket s;
      (if bool_decide (socket_type_ l = SOCK_DGRAM) then mret tt
       else wait_while fuel Wait (connecting s));;
      mret (Ok v)
  end.

(** The closed sockets at the front of the queue are skipped. *)
Fixpoint skip_closed (closed : sid → bool) (q : list sid) : list sid :=
  match q with
  | [] => []
  | c :: q' => if closed c then skip_closed closed q' else q
  end.

Definition is_closed (w : Net) (s : sid) : bool :=
  match objects w.1.2 !! s with Some f => IsClosed f | None => true end.

Definition prune_connections (s : sid) : St Net bool :=
  w ← get;
  update s (λ l, with_connections (skip_closed (is_closed w) (connection_queue_ l)) l);;
  l ← socket s;
  mret (negb (bool_decide (connection_queue_ l = []))).

Fixpoint WaitForOpenedConnectToAccept (fuel : nat) (WaitUntil : Z → St Net bool) (time_limit : Z)
    (s : sid) : St Net unit :=
  match fuel with
  | O => λ _, NoFuel
  | S n =>
      found ← prune_connections s;
      if (found : bool) then mret tt
      else
        timedout ← WaitUntil time_limit;
        if (timedout : bool) then mret tt else WaitForOpenedConnectToAccept n WaitUntil time_limit s
  end.

(** [accept] up to the wait. *)
Definition accept_start (s : sid) (addr : bool) (addrlen : option Z) : St Net (res unit) :=
  l ← socket s;
  block ← is_block s;
  mret (if bool_decide (socket_type_ l = SOCK_DGRAM) then Err EOPNOTSUPP
        else match (if addr then VerifyOutputSocketAddress false addrlen else None) with
             | Some e => Err e
             | None =>
                 if negb (bool_decide (connect_state_ l = SOCKET_LISTENING)) then Err EINVAL
                 else if negb block then Err ENOSYS else Ok tt
             end).

Section Accept.
Context (fresh : nat → list ascii) (pid uid : Z) (allowed valid_permission : sid → bool).

(** [accept] after the wait; [server] is the new socket.  The result is the
    descriptor and [*addrlen]. *)
Definition accept_finish (s server : sid) (addr : bool) (addrlen : option Z) :
    St Net (res (Z * option Z)) :=
  w ← get;
  l ← socket s;
  if is_closed w s then mret (Err EBADF)
  else
    match connection_queue_ l with
    | [] => mret (Err EAGAIN)
    | client :: rest =>
        flags ← oflag s;
        new_socket fresh pid uid server flags (socket_type_ l) READ_WRITE;;
        accept_fd ← on_fds (AddFileStreamLocked valid_permission server);
        if accept_fd <? 0 then mret (Err EMFILE)
        else
          update s (with_connections rest);;
          set_peer server client;;
          set_peer client server;;
          Broadcast;;
          on_stream (NotifyListeners s);;
          mret (Ok (accept_fd, if addr then Some 2 else addrlen))
    end.

Definition accept (fuel : nat) (WaitUntil : Z → St Net bool) (Now : St Net Z) (s server : sid)
    (addr : bool) (addrlen : option Z) : St Net (res (Z * option Z)) :=
  r ← accept_start s addr addrlen;
  match r with
  | Err e => mret (Err e)
  | Ok _ =>
      l ← socket s;
      time_limit ← TimeOutToTimeLimit Now (SocketOptions.recv_timeout_ (options_ l));
      WaitForOpenedConnectToAccept fuel WaitUntil time_limit s;;
      accept_finish s server addr addrlen
  end.
End Accept.

(** ** Readiness *)

Definition lor_if (b : bool) (bit : Z) (events : Z) : Z := if b then Z.lor events bit else events.

Definition CanRead (l : LocalSocket) : bool :=
  if negb (bool_decide (socket_type_ l = SOCK_DGRAM)) && bool_decide (peer_ l = None) then true
  else if bool_decide (socket_type_ l = SOCK_STREAM) then Nat.ltb 0 (size_ (buffer_ l))
  else negb (Nat.eqb (List.length (queue_ l)) 0).

Definition peer_has_room (w : Net) (p : sid) : outcome bool :=
  match sockets w.2 !! p with
  | Some q => mret (Nat.ltb (size_ (buffer_ q)) (capacity_ (buffer_ q)))
  | None => Abort
  end.

Definition CanWrite (w : Net) (l : LocalSocket) : outcome bool :=
  match peer_ l with
  | None => mret true
  | Some p => if bool_decide (socket_type_ l = SOCK_STREAM) then peer_has_room w p else mret true
  end.

Definition GetPollEvents (s : sid) : St Net Z :=
  l ← socket s;
  w ← get;
  let no_peer := bool_decide (peer_ l = None) in
  match connect_state_ l with
  | SOCKET_NEW => mret (Z.lor POLLOUT POLLHUP)
  | SOCKET_CONNECTING => mret 0
  | SOCKET_CONNECTED =>
      match stream_dir_ l with
      | READ_ONLY =>
          mret (lor_if no_peer POLLHUP (lor_if (Nat.ltb 0 (size_ (buffer_ l))) POLLIN 0))
      | WRITE_ONLY =>
          match peer_ l with
          | None => mret (Z.lor POLLOUT POLLERR)
          | Some p => room ← lift (peer_has_room w p); mret (if (room : bool) then POLLOUT else 0)
          end
      | READ_WRITE =>
          can_write ← lift (CanWrite w l);
          mret (lor_if (negb (bool_decide (socket_type_ l = SOCK_DGRAM)) && no_peer) POLLHUP
                 (lor_if can_write POLLOUT (lor_if (CanRead l) POLLIN 0)))
      end
  | SOCKET_LISTENING =>
      mret (if negb (bool_decide (connection_queue_ l = [])) then Z.lor POLLIN POLLOUT else POLLOUT)
  end.

Definition IsSelectReadReady (s : sid) : St Net bool :=
  e ← GetPollEvents s; mret (negb (Z.land e (Z.lor POLLIN (Z.lor POLLHUP POLLERR)) =? 0)).

Definition IsSelectWriteReady (s : sid) : St Net bool :=
  e ← GetPollEvents s; mret (negb (Z.land e (Z.lor POLLOUT POLLERR) =? 0)).

Definition IsSelectExceptionReady : bool := false.

(** [FIONREAD]. *)
Definition ioctl_FIONREAD (l : LocalSocket) : Z :=
  if bool_decide (socket_type_ l = SOCK_STREAM) then Z.of_nat (size_ (buffer_ l))
  else match queue_ l with d :: _ => Z.of_nat (List.length (content_ d)) | [] => 0 end.

Definition lseek : res Z := Err ESPIPE.

(** ** Control messages *)

(** [CMSG_LEN] and [CMSG_SPACE] of a payload, with a [cmsghdr] of 12 bytes. *)
Definition sizeof_cmsghdr : Z := 12.
Definition CMSG_ALIGN (len : Z) : Z := Z.land (len + 3) (Z.lnot 3).
Definition CMSG_LEN (len : Z) : Z := CMSG_ALIGN sizeof_cmsghdr + len.
Definition CMSG_SPACE (len : Z) : Z := CMSG_ALIGN sizeof_cmsghdr + CMSG_ALIGN len.
Definition sizeof_ucred : Z := 12.
Definition sizeof_int : Z := 4.

Inductive cmsg : Type :=
| ScmRights (fds : list Z)
| ScmCredentials (cred : ucred)
| ScmOther.

Definition MSG_CTRUNC : Z := 8.
Definition MSG_TRUNC : Z := 32.
Definition MSG_DONTWAIT : Z := 64.

(** [cmsg_len] of [n] descriptors. *)
Definition fds_cmsg_len (n : nat) : Z := CMSG_LEN (Z.of_nat n * sizeof_int).

(** The descriptors that are handed over, last first; the others are closed. *)
Fixpoint trim_fds (close : Z → St Net bool) (controllen : Z) (rfds : list Z) : St Net (list Z) :=
  match rfds with
  | [] => mret []
  | fd :: rfds' =>
      if controllen <? CMSG_SPACE (fds_cmsg_len (List.length rfds)) then
        close fd;; trim_fds close controllen rfds'
      else mret rfds
  end.

(** What [recvmsg] gives back: the bytes of each segment, [msg_flags], the control
    messages with [msg_controllen], and the result. *)
Record received : Type := mkReceived {
  rv_segments : list str;
  rv_flags : Z;
  rv_control : list cmsg;
  rv_controllen : Z;
  rv_result : res Z;
}.

(** The control part, when bytes were read. *)
Definition recv_control (close : Z → St Net bool) (s : sid) (cred : ucred) (controllen : Z) :
    St Net (list cmsg * Z * Z) :=
  l ← socket s;
  rights ←
    match cmsg_fd_queue_ l with
    | [] => mret ([], 0, 0)
    | fds :: rest =>
        kept ← trim_fds close controllen (rev fds);
        let kept := rev kept in
        let flags := if Nat.ltb (List.length kept) (List.length fds) then MSG_CTRUNC else 0 in
        update s (with_cmsg rest);;
        let cmsg_len := fds_cmsg_len (List.length kept) in
        if controllen <? CMSG_SPACE cmsg_len then mret ([], 0, flags)
        else mret ([ScmRights kept], CMSG_SPACE cmsg_len, flags)
    end;
  let '(control, used, flags) := rights : list cmsg * Z * Z in
  mret (if negb (pass_cred_ l =? 0) && (CMSG_SPACE sizeof_ucred + used <=? controllen)
        then (control ++ [ScmCredentials cred], used + CMSG_LEN sizeof_ucred, flags)
        else (control, used, flags)).

(** ** Receiving *)

(** [buffer_.read] into the segments while there are bytes. *)
Fixpoint read_segments (lens : list nat) : St CircularBuffer (list str) :=
  match lens with
  | [] => mret []
  | n :: lens =>
      c ← get;
      if Nat.eqb (size_ c) 0 then mret []
      else bytes ← read n; rest ← read_segments lens; mret (bytes :: rest)
  end.

(** A datagram into the segments: the bytes and what is left. *)
Fixpoint copy_segments (lens : list nat) (content : str) : list str * str :=
  match lens, content with
  | [], _ => ([], content)
  | _, [] => ([], [])
  | n :: lens, _ => let '(bs, rest) := copy_segments lens (drop n content) in (take n content :: bs, rest)
  end.

(** Waiting for data. *)
Definition recv_blocked (s : sid) : St Net bool :=
  l ← socket s;
  if bool_decide (peer_ l = None) then mret false
  else ready ← IsSelectReadReady s; mret (negb ready).

(** What comes before the wait. *)
Definition recv_start (s : sid) : St Net (option errno) :=
  l ← socket s;
  mret (if bool_decide (stream_dir_ l = WRITE_ONLY) then Some EBADF
        else if negb (bool_decide (socket_type_ l = SOCK_DGRAM)) &&
                negb (bool_decide (connect_state_ l = SOCKET_CONNECTED)) then Some EINVAL
        else None).

(** The bytes: segments, flags, and the sender's credentials. *)
Definition recv_data (s : sid) (lens : list nat) : St Net (list str * Z * ucred) :=
  l ← socket s;
  if bool_decide (socket_type_ l = SOCK_STREAM) then
    r ← lift (read_segments lens (buffer_ l));
    set_socket s (with_buffer r.2 l);;
    mret (r.1, 0, peer_cred_ l)
  else
    match queue_ l with
    | [] => mret ([], 0, peer_cred_ l)
    | d :: rest =>
        let '(bs, remaining) := copy_segments lens (content_ d) in
        set_socket s (with_queue rest l);;
        mret (bs, (if Nat.eqb (List.length remaining) 0 then 0 else MSG_TRUNC), cred_ d)
    end.

(** What comes after the wait. *)
Definition recv_finish (close : Z → St Net bool) (s : sid) (lens : list nat) (controllen : Z) :
    St Net received :=
  d ← recv_data s lens;
  let '(segments, flags, cred) := d : list str * Z * ucred in
  let bytes_read := Z.of_nat (List.length (List.concat segments)) in
  c ← (if bytes_read <=? 0 then mret ([], 0, 0) else recv_control close s cred controllen);
  let '(control, used, cflags) := c : list cmsg * Z * Z in
  let done := mkReceived segments (Z.lor flags cflags) control used in
  l ← socket s;
  if 0 <? bytes_read then
    match peer_ l with
    | Some p => on_stream (NotifyListeners p);; mret (done (Ok bytes_read))
    | None => mret (done (Ok bytes_read))
    end
  else mret (done (if bool_decide (peer_ l = None) && negb (bool_decide (socket_type_ l = SOCK_DGRAM))
                   then Ok 0 else Err EAGAIN)).

Definition recv_failed (e : errno) : received := mkReceived [] 0 [] 0 (Err e).

Definition recvmsg (fuel : nat) (Wait : St Net unit) (close : Z → St Net bool) (s : sid)
    (lens : list nat) (controllen flags : Z) : St Net received :=
  r ← recv_start s;
  match r with
  | Some e => mret (recv_failed e)
  | None =>
      block ← is_block s;
      (if block && (Z.land flags MSG_DONTWAIT =? 0) then wait_while fuel Wait (recv_blocked s)
       else mret tt);;
      recv_finish close s lens controllen
  end.

(** [recvfrom], [recv] and [read]: the flags do not reach [recvmsg]. *)
Definition recvfrom (fuel : nat) (Wait : St Net unit) (close : Z → St Net bool) (s : sid)
    (len : nat) (flags : Z) (has_addr : bool) : St Net (res Z * str) :=
  if has_addr then mret (Err EINVAL, [])
  else if Nat.eqb len 0 then mret (Ok 0, [])
  else r ← recvmsg fuel Wait close s [len] 0 0; mret (rv_result r, List.concat (rv_segments r)).

(** ** Sending *)

(** [buffer_.write] of the segments. *)
Fixpoint write_segments (iov : list str) (sent : nat) : St CircularBuffer nat :=
  match iov with
  | [] => mret sent
  | b :: iov => n ← write b; write_segments iov (sent + n)
  end.

(** The control messages of [sendmsg]: descriptors are dup'ed, -1 when that fails. *)
Fixpoint dup_fds (dup : Z → St Net (res Z)) (fds : list Z) : St Net (list Z) :=
  match fds with
  | [] => mret []
  | fd :: fds =>
      r ← dup fd;
      rest ← dup_fds dup fds;
      mret (match r with Ok n => n | Err _ => -1 end :: rest)
  end.

Fixpoint send_control (dup : Z → St Net (res Z)) (control : list cmsg) : St Net (list Z) :=
  match control with
  | [] => mret []
  | ScmRights fds :: control =>
      sent ← dup_fds dup fds; rest ← send_control dup control; mret (sent ++ rest)
  | _ => fatal
  end.

(** [this->HandleSendmsgLocked(msg, peer_cred)]. *)
Definition HandleSendmsgLocked (dup : Z → St Net (res Z)) (this : sid) (iov : list str)
    (control : list cmsg) (controllen : Z) (peer_cred : ucred) : St Net (res Z) :=
  l ← socket this;
  let attempted := Z.of_nat (List.length (List.concat iov)) in
  sent ←
    match iov with
    | [] => mret 0%nat
    | _ =>
        if bool_decide (socket_type_ l = SOCK_STREAM) then
          check (bool_decide (peer_cred = peer_cred_ l));;
          r ← lift (write_segments iov 0 (buffer_ l));
          set_socket this (with_buffer r.2 l);;
          mret r.1
        else
          set_socket this (with_queue (queue_ l ++ [mkDatagram peer_cred (List.concat iov)]) l);;
          mret (List.length (List.concat iov))
    end;
  (if negb (Nat.eqb sent 0) && (0 <? controllen) then
     fds ← send_control dup control;
     update this (λ l, with_cmsg (cmsg_fd_queue_ l ++ [fds]) l)
   else mret tt);;
  (if Nat.ltb 0 sent then Broadcast;; on_stream (NotifyListeners this) else mret tt);;
  mret (if Nat.eqb sent 0 && negb (attempted =? 0) then Err EAGAIN else Ok (Z.of_nat sent)).

Definition sendmsg (dup : Z → St Net (res Z)) (s : sid) (iov : list str) (control : list cmsg)
    (controllen : Z) : St Net (res Z) :=
  l ← socket s;
  if bool_decide (stream_dir_ l = READ_ONLY) then mret (Err EBADF)
  else if negb (bool_decide (socket_type_ l = SOCK_DGRAM)) &&
          negb (bool_decide (connect_state_ l = SOCKET_CONNECTED)) then mret (Err EINVAL)
  else
    match peer_ l with
    | Some p => HandleSendmsgLocked dup p iov control controllen (my_cred_ l)
    | None =>
        if bool_decide (socket_type_ l = SOCK_DGRAM) then
          w ← get;
          match (if bool_decide (logd_target_name_ l = []) then None
                 else LogdSocketNamespace.GetByName (logd_target_name_ l) (logd_ns w.2)) with
          | Some b => HandleSendmsgLocked dup b iov control controllen (my_cred_ l)
          | None => mret (Err ECONNREFUSED)
          end
        else mret (Err ECONNRESET)
    end.

(** [sendto], [send] and [write]. *)
Definition sendto (dup : Z → St Net (res Z)) (s : sid) (buf : str) (has_addr : bool) : St Net (res Z) :=
  if has_addr then mret (Err EINVAL)
  else if Nat.eqb (List.length buf) 0 then mret (Ok 0)
  else sendmsg dup s [buf] [] 0.

(** ** Options *)

(** SO_PEERCRED and SO_PASSCRED answer their words and how many bytes are copied. *)
Definition GetCredOption (words : list Z) (size : Z) (optval_null : bool) (optlen : option Z) :
    res (list Z * Z) :=
  match VerifyGetSocketOption optval_null optlen, optlen with
  | Some e, _ => Err e
  | None, None => Err EFAULT
  | None, Some len => Ok (words, Z.min len size)
  end.

Inductive local_sockopt : Type := SO_PEERCRED | SO_PASSCRED | SO_BASE (o : SocketOptions.sockopt).

Definition getsockopt (o : local_sockopt) (optval_null : bool) (optlen : option Z) (l : LocalSocket) :
    res (list Z * Z) :=
  match o with
  | SO_PEERCRED =>
      GetCredOption [cr_pid (peer_cred_ l); cr_uid (peer_cred_ l); cr_gid (peer_cred_ l)]
        sizeof_ucred optval_null optlen
  | SO_PASSCRED => GetCredOption [pass_cred_ l] sizeof_int optval_null optlen
  | SO_BASE o => SocketOptions.getsockopt o optval_null optlen (options_ l)
  end.

Definition setsockopt (o : local_sockopt) (optval : option (list Z)) (optlen : Z) (l : LocalSocket) :
    res unit * LocalSocket :=
  match o with
  | SO_PASSCRED =>
      match VerifySetSocketOption (bool_decide (optval = None)) optlen sizeof_int, optval with
      | Some e, _ => (Err e, l)
      | None, Some w => (Ok tt, with_options (List.nth 0 w 0) (options_ l) l)
      | None, None => (Err EFAULT, l)
      end
  | SO_PEERCRED =>
      let '(r, o) := SocketOptions.setsockopt SocketOptions.SO_OTHER optval optlen (options_ l) in
      (r, with_options (pass_cred_ l) o l)
  | SO_BASE o =>
      let '(r, o) := SocketOptions.setsockopt o optval optlen (options_ l) in
      (r, with_options (pass_cred_ l) o l)
  end.

(** ** [socketpair] and [pipe2] (virtual_file_system.cc) *)

Section Pairs.
Context (fresh : nat → list ascii) (pid uid : Z).

Definition connect_pair (s1 s2 : sid) (fd1 fd2 flags : Z) (type : socket_type)
    (dir1 dir2 : StreamDir) : St Net (res (Z * Z)) :=
  new_socket fresh pid uid s1 flags type dir1;;
  new_socket fresh pid uid s2 flags type dir2;;
  set_peer s1 s2;;
  set_peer s2 s1;;
  on_fds (AddFileStream fd1 (Some s1));;
  on_fds (AddFileStream fd2 (Some s2));;
  mret (Ok (fd1, fd2)).

(** Two descriptors, or EMFILE and none. *)
Definition two_descriptors (k : Z → Z → St Net (res (Z * Z))) : St Net (res (Z * Z)) :=
  fd1 ← on_fds GetFirstUnusedDescriptorLocked;
  if fd1 <? 0 then mret (Err EMFILE)
  else
    fd2 ← on_fds GetFirstUnusedDescriptorLocked;
    if fd2 <? 0 then on_fds (RemoveFileStream fd1);; mret (Err EMFILE)
    else k fd1 fd2.

(** [type] is [None] for the types that are refused; [sv_null] for a NULL [sv]. *)
Definition socketpair (s1 s2 : sid) (family : Z) (type : option socket_type) (protocol : Z)
    (sv_null : bool) : St Net (res (Z * Z)) :=
  if negb (family =? AF_UNIX) then mret (Err EAFNOSUPPORT)
  else if negb (protocol =? 0) then mret (Err EOPNOTSUPP)
  else
    match type with
    | None => mret (Err EOPNOTSUPP)
    | Some type =>
        if sv_null then mret (Err EFAULT)
        else two_descriptors (λ fd1 fd2, connect_pair s1 s2 fd1 fd2 0 type READ_WRITE READ_WRITE)
    end.

Definition pipe2 (s1 s2 : sid) (flags : Z) : St Net (res (Z * Z)) :=
  two_descriptors (λ fd1 fd2, connect_pair s1 s2 fd1 fd2 flags SOCK_STREAM READ_ONLY WRITE_ONLY).
End Pairs.
