(* ===== verification/LocalSocketFacts.v ===== *)
(** * LocalSocketFacts: what the local sockets of LocalSocket.v promise

    A connected pair (two sockets, or the ends of a pipe) is two channels, one
    per direction: bounded queues of bytes for SOCK_STREAM, queues of packets
    otherwise; descriptors travel with the data; readiness agrees with what the
    calls do; peers stay symmetric through connections, accepts and closes. *)

From S2P Require Import Prelude Util FileStream FdMap VfsFds CircularBuffer SocketStream LocalSocket.
Import Refs SocketUtil.

#[local] Open Scope Z_scope.

(** ** Running the plumbing *)

Lemma socket_run (w : Net) s l : sockets w.2 !! s = Some l → socket s w = Done (l, w).
Proof. unfold socket. by intros ->. Qed.

Definition put_socket (s : sid) (l : LocalSocket) (w : Net) : Net :=
  (w.1, env_sockets (<[s := l]> (sockets w.2)) w.2).

Lemma set_socket_run (w : Net) s l : set_socket s l w = Done (tt, put_socket s l w).
Proof. done. Qed.

Lemma update_run (w : Net) s l f :
  sockets w.2 !! s = Some l → update s f w = Done (tt, put_socket s (f l) w).
Proof. intros Hl. unfold update. by run_with (socket_run w s l Hl). Qed.

(** Nobody who listens to [s] is closed. *)
Definition listeners_fine (w : Streams) (s : sid) : Prop :=
  ∃ f, objects w !! s = Some f ∧ is_listening_enabled_ f = true ∧
    ∀ l, l ∈ listeners_ f → open_ok w l.

(** The calls that a notification makes. *)
Definition with_calls (c : list vcall) (w : Net) : Net :=
  ((w.1.1, {| objects := objects w.1.2; calls := c |}), w.2).

Lemma notify_each w f (s : sid) ls :
  (∀ l, l ∈ ls → open_ok (mkStreams (objects w) f) l) →
  ∃ c, for_each (λ l, CheckNotClosed l;; vcall_ (CallHandleNotificationFrom l s false)) ls
         (mkStreams (objects w) f) = Done (tt, mkStreams (objects w) c).
Proof.
  revert f. induction ls as [|l ls IH]; intros f Hls; [by exists f|]. cbn [for_each].
  destruct (Hls l) as (g & Hg & Hc); [by left|].
  unfold CheckNotClosed, deref, check, vcall_, modify, mbind, St_bind. cbn [objects calls] in *.
  rewrite Hg, Hc. cbn [negb].
  destruct (IH (f ++ [CallHandleNotificationFrom l s false])) as (c & Hrun); [|by exists c].
  intros x Hx. destruct (Hls x) as (g' & ? & ?); [by right|]. by exists g'.
Qed.

Lemma notify_listeners_run (w : Net) s :
  listeners_fine w.1.2 s → ∃ c, on_stream (NotifyListeners s) w = Done (tt, with_calls c w).
Proof.
  intros (f & Hf & He & Hl). unfold on_stream, on_fds, on_streams, NotifyListeners.
  unfold deref, check, mbind, St_bind. rewrite Hf, He.
  destruct (IsClosed f).
  - exists (calls w.1.2). destruct w as [[t [o c]] e]. done.
  - destruct (notify_each w.1.2 (calls w.1.2) s (elements (listeners_ f))) as (c & Hrun).
    { intros l Hin. apply elem_of_elements in Hin. destruct (Hl l Hin) as (g & ? & ?). by exists g. }
    exists c. destruct w as [[t [o c0]] e]. cbn [fst snd objects calls] in *.
    unfold mbind, St_bind in Hrun. by rewrite Hrun.
Qed.

(** ** Bytes in segments *)

(** The first bytes of [q], cut for the segments. *)
Fixpoint chop (lens : list nat) (q : str) : list str :=
  match lens, q with
  | n :: lens, _ :: _ => take n q :: chop lens (drop n q)
  | _, _ => []
  end.

Lemma concat_chop lens q : List.concat (chop lens q) = take (list_sum lens) q.
Proof.
  revert q. induction lens as [|n lens IH]; intros q; [done|]. cbn [chop list_sum].
  destruct q as [|x q]; [by rewrite take_nil|]. cbn [List.concat]. rewrite IH.
  apply take_take_drop.
Qed.

Lemma chop_length lens q : List.length (List.concat (chop lens q)) = Nat.min (list_sum lens) (List.length q).
Proof. by rewrite concat_chop, length_take. Qed.

Lemma copy_segments_chop lens content :
  copy_segments lens content = (chop lens content, drop (list_sum lens) content).
Proof.
  revert content. induction lens as [|n lens IH]; intros content; [done|]. cbn [copy_segments chop].
  destruct content as [|x content]; [by rewrite drop_nil|]. rewrite IH, drop_drop. done.
Qed.

Lemma read_segments_spec lens c q :
  holds c q →
  ∃ c', read_segments lens c = Done (chop lens q, c') ∧ capacity_ c' = capacity_ c ∧
    holds c' (drop (list_sum lens) q).
Proof.
  revert c q. induction lens as [|n lens IH]; intros c q Hc; cbn [read_segments chop].
  { by exists c. }
  rewrite (St_bind_run get _ c c c eq_refl). pose proof (h_size _ _ Hc) as Hs.
  destruct (Nat.eqb_spec (size_ c) 0) as [Hz|Hz].
  - destruct q; [|by rewrite Hz in Hs]. exists c. by rewrite drop_nil.
  - destruct q as [|x q]; [by rewrite <-Hs in Hz|].
    destruct (read_spec c (x :: q) n Hc) as (c1 & Hr & Hcap & Hc1). run_with Hr.
    destruct (IH c1 _ Hc1) as (c2 & Hr2 & Hcap2 & Hc2). run_with Hr2. exists c2.
    rewrite drop_drop in Hc2. split; [done|]. split; [congruence|done].
Qed.

Lemma write_segments_spec iov sent c q :
  holds c q →
  let taken := take (capacity_ c - List.length q) (List.concat iov) in
  ∃ c', write_segments iov sent c = Done ((sent + List.length taken)%nat, c') ∧
    capacity_ c' = capacity_ c ∧ holds c' (q ++ taken).
Proof.
  revert sent c q. induction iov as [|b iov IH]; intros sent c q Hc; cbn [write_segments List.concat].
  { exists c. rewrite take_nil, app_nil_r. simpl. by rewrite Nat.add_0_r. }
  destruct (write_spec c q b Hc) as (c1 & Hw & Hcap & Hc1). run_with Hw.
  destruct (IH (sent + List.length (take (capacity_ c - List.length q) b))%nat c1 _ Hc1)
    as (c2 & Hw2 & Hcap2 & Hc2).
  exists c2. rewrite Hw2. rewrite length_app, Hcap, <-app_assoc in *.
  assert (take (capacity_ c - List.length q) b ++
          take (capacity_ c - (List.length q + List.length (take (capacity_ c - List.length q) b)))
            (List.concat iov) =
          take (capacity_ c - List.length q) (b ++ List.concat iov)) as Heq.
  { rewrite take_app, length_take. f_equal.
    destruct (decide (List.length b <= capacity_ c - List.length q)%nat); [f_equal; lia|].
    replace (capacity_ c - List.length q - List.length b)%nat with 0%nat by lia.
    replace (capacity_ c - _)%nat with 0%nat by lia. done. }
  rewrite Heq in Hc2. split; [|split; [congruence|done]]. rewrite <-Heq, length_app. do 2 f_equal. lia.
Qed.

(** ** Channels *)

Module Channels.
Inductive side : Type := Left | Right.

#[export] Instance side_eq_dec : EqDecision side.
Proof. solve_decision. Defined.

Definition other (e : side) : side := match e with Left => Right | Right => Left end.

(** What is on its way to an end: bytes, or packets with their sender. *)
Record channel : Type := mkChannel {
  ch_capacity : nat;
  ch_bytes : str;
  ch_packets : list Datagram;
}.

(** What a call gives back. *)
Record answer : Type := mkAnswer {
  an_segments : list str;
  an_flags : Z;
  an_control : list cmsg;
  an_result : res Z;
}.

Definition sent (r : res Z) : answer := mkAnswer [] 0 [] r.

Section Spec.
Context (type : socket_type).

(** Sending into a channel: a stream takes the bytes that fit, and refuses when
    none does; a packet is taken whole. *)
Definition spec_send (dir : StreamDir) (cred : ucred) (iov : list str) (c : channel) :
    answer * channel :=
  if bool_decide (dir = READ_ONLY) then (sent (Err EBADF), c)
  else if bool_decide (type = SOCK_STREAM) then
    let bytes := List.concat iov in
    let taken := take (ch_capacity c - List.length (ch_bytes c)) bytes in
    (sent (if bool_decide (taken = []) && negb (bool_decide (bytes = [])) then Err EAGAIN
           else Ok (Z.of_nat (List.length taken))),
     mkChannel (ch_capacity c) (ch_bytes c ++ taken) (ch_packets c))
  else
    match iov with
    | [] => (sent (Ok 0), c)
    | _ => (sent (Ok (Z.of_nat (List.length (List.concat iov)))),
            mkChannel (ch_capacity c) (ch_bytes c) (ch_packets c ++ [mkDatagram cred (List.concat iov)]))
    end.

Definition count (segments : list str) : res Z :=
  if bool_decide (List.concat segments = []) then Err EAGAIN
  else Ok (Z.of_nat (List.length (List.concat segments))).

(** Receiving without waiting: the oldest bytes; or the oldest packet, what
    does not fit being lost and flagged. *)
Definition spec_recv (dir : StreamDir) (lens : list nat) (c : channel) : answer * channel :=
  if bool_decide (dir = WRITE_ONLY) then (sent (Err EBADF), c)
  else if bool_decide (type = SOCK_STREAM) then
    let segments := chop lens (ch_bytes c) in
    (mkAnswer segments 0 [] (count segments),
     mkChannel (ch_capacity c) (drop (list_sum lens) (ch_bytes c)) (ch_packets c))
  else
    match ch_packets c with
    | [] => (mkAnswer [] 0 [] (Err EAGAIN), c)
    | d :: packets =>
        let segments := chop lens (content_ d) in
        (mkAnswer segments
           (if Nat.leb (List.length (content_ d)) (list_sum lens) then 0 else MSG_TRUNC) []
           (count segments),
         mkChannel (ch_capacity c) (ch_bytes c) packets)
    end.
End Spec.

Inductive pair_op : Type :=
| PSend (e : side) (iov : list str)
| PRecv (e : side) (lens : list nat).

(** A connected pair: its type, the directions and credentials of the ends, and
    the channel into each end. *)
Record pair : Type := mkPair {
  pr_type : socket_type;
  pr_dir : side → StreamDir;
  pr_cred : side → ucred;
  pr_in : side → channel;
}.

Definition set_in (e : side) (c : channel) (p : pair) : pair :=
  mkPair (pr_type p) (pr_dir p) (pr_cred p) (λ x, if decide (x = e) then c else pr_in p x).

Definition spec_pair_op (o : pair_op) (p : pair) : answer * pair :=
  match o with
  | PSend e iov =>
      let '(a, c) := spec_send (pr_type p) (pr_dir p e) (pr_cred p e) iov (pr_in p (other e)) in
      (a, set_in (other e) c p)
  | PRecv e lens =>
      let '(a, c) := spec_recv (pr_type p) (pr_dir p e) lens (pr_in p e) in (a, set_in e c p)
  end.

Fixpoint spec_pair_ops (os : list pair_op) (p : pair) : list answer * pair :=
  match os with
  | [] => ([], p)
  | o :: os =>
      let '(a, p) := spec_pair_op o p in let '(r, p) := spec_pair_ops os p in (a :: r, p)
  end.

Section Run.
Context (dup : Z → St Net (res Z)) (close : Z → St Net bool) (Wait : St Net unit).
Context (at_ : side → sid).

(** The calls on the ends. *)
Definition run_pair_op (o : pair_op) : St Net answer :=
  match o with
  | PSend e iov => r ← sendmsg dup (at_ e) iov [] 0; mret (sent r)
  | PRecv e lens =>
      v ← recvmsg 0 Wait close (at_ e) lens 0 MSG_DONTWAIT;
      mret (mkAnswer (rv_segments v) (rv_flags v) (rv_control v) (rv_result v))
  end.

Fixpoint run_pair_ops (os : list pair_op) : St Net (list answer) :=
  match os with
  | [] => mret []
  | o :: os => a ← run_pair_op o; r ← run_pair_ops os; mret (a :: r)
  end.
End Run.

(** The socket of an end represents the channel into it. *)
Record end_ok (w : Net) (at_ : side → sid) (p : pair) (e : side) (l : LocalSocket) : Prop := {
  eo_socket : sockets w.2 !! at_ e = Some l;
  eo_type : socket_type_ l = pr_type p;
  eo_state : connect_state_ l = SOCKET_CONNECTED;
  eo_dir : stream_dir_ l = pr_dir p e;
  eo_peer : peer_ l = Some (at_ (other e));
  eo_bytes : holds (buffer_ l) (ch_bytes (pr_in p e));
  eo_capacity : capacity_ (buffer_ l) = ch_capacity (pr_in p e);
  eo_packets : queue_ l = ch_packets (pr_in p e);
  eo_cmsg : cmsg_fd_queue_ l = [];
  eo_my : my_cred_ l = pr_cred p e;
  eo_cred : peer_cred_ l = pr_cred p (other e);
  eo_listeners : listeners_fine w.1.2 (at_ e);
}.

Record represents (w : Net) (at_ : side → sid) (p : pair) : Prop := {
  rp_distinct : at_ Left ≠ at_ Right;
  rp_end : ∀ e, ∃ l, end_ok w at_ p e l;
}.
End Channels.

Module ChannelProofs.
Import Channels.

Lemma side_other e : e ≠ other e.
Proof. by destruct e. Qed.

Lemma at_distinct w at_ p e : represents w at_ p → at_ e ≠ at_ (other e).
Proof. intros [Hd _]. destruct e; [done|]. intros H. by apply Hd. Qed.

Lemma represents_env w w' at_ p :
  represents w at_ p → sockets w'.2 = sockets w.2 → objects w'.1.2 = objects w.1.2 →
  represents w' at_ p.
Proof.
  intros [Hd He] Hs Ho. split; [done|]. intros e. destruct (He e) as (l & Hl). exists l.
  destruct Hl. split; try done; [by rewrite Hs|].
  destruct eo_listeners0 as (f & ? & ? & Hf). exists f. rewrite Ho. split; [done|]. split; [done|].
  intros x Hx. destruct (Hf x Hx) as (g & ? & ?). exists g. by rewrite Ho.
Qed.

Lemma represents_put w at_ p e l b q c :
  represents w at_ p → end_ok w at_ p e l →
  holds b (ch_bytes c) → capacity_ b = ch_capacity c → q = ch_packets c →
  represents (put_socket (at_ e) (with_buffer b (with_queue q l)) w) at_ (set_in e c p).
Proof.
  intros Hr Hl Hb Hcap ->. pose proof (at_distinct _ _ _ e Hr) as Hne. destruct Hr as [Hd He].
  split; [done|]. intros e'. destruct (decide (e' = e)) as [->|Hee].
  - exists (with_buffer b (with_queue (ch_packets c) l)). destruct Hl.
    split; simpl; try done; rewrite ?decide_True by done; try done. by rewrite lookup_insert_eq.
  - assert (e' = other e) as -> by (by destruct e, e').
    destruct (He (other e)) as (l' & Hl'). exists l'. destruct Hl'.
    split; simpl; try done; rewrite ?decide_False by done; try done.
    by rewrite lookup_insert_ne.
Qed.

Lemma represents_same w at_ p e c :
  represents w at_ p → c = pr_in p e → represents w at_ (set_in e c p).
Proof.
  intros [Hd He] ->. split; [done|]. intros e'. destruct (He e') as (l & []). exists l.
  split; simpl; try done; destruct (decide (e' = e)); by subst.
Qed.

Lemma represents_notify w at_ p e (k : bool) :
  represents w at_ p →
  ∃ w', (if k then Broadcast;; on_stream (NotifyListeners (at_ e)) else mret tt) w = Done (tt, w') ∧
    represents w' at_ p.
Proof.
  intros Hr. destruct k; [|by exists w].
  assert (represents (w.1, mkLocalEnv (sockets w.2) (abstract_ns w.2) (logd_ns w.2) (S (broadcasts w.2))) at_ p)
    as Hr1 by (by eapply represents_env).
  destruct (rp_end _ _ _ Hr1 e) as (l & Hl).
  destruct (notify_listeners_run _ _ (eo_listeners _ _ _ _ _ Hl)) as (c & Hn).
  unfold Broadcast, modify. unfold mbind at 1, St_bind at 1. rewrite Hn. eexists. split; [done|].
  by eapply represents_env.
Qed.

Section Ops.
Context (dup : Z → St Net (res Z)) (close : Z → St Net bool) (Wait : St Net unit).
Context (at_ : side → sid).

(** The end of [HandleSendmsgLocked], when there are no control messages. *)
Lemma send_tail (n : nat) e (iov : list str) w p :
  represents w at_ p →
  ∃ w', ((if negb (Nat.eqb n 0) && (0 <? 0) then
            fds ← send_control dup [];
            update (at_ e) (λ l, with_cmsg (cmsg_fd_queue_ l ++ [fds]) l)
          else mret tt);;
         (if Nat.ltb 0 n then Broadcast;; on_stream (NotifyListeners (at_ e)) else mret tt);;
         mret (if Nat.eqb n 0 && negb (Z.of_nat (List.length (List.concat iov)) =? 0) then Err EAGAIN
               else Ok (Z.of_nat n))) w =
      Done (if Nat.eqb n 0 && negb (Z.of_nat (List.length (List.concat iov)) =? 0) then Err EAGAIN
            else Ok (Z.of_nat n), w') ∧ represents w' at_ p.
Proof.
  intros Hr. rewrite andb_false_r, (St_bind_run (mret tt) _ w tt w eq_refl).
  destruct (represents_notify w at_ p e (Nat.ltb 0 n) Hr) as (w' & Hn & Hr').
  exists w'. by run_with Hn.
Qed.

Lemma zero_length {A} (xs : list A) : (Z.of_nat (List.length xs) =? 0) = bool_decide (xs = []).
Proof. destruct xs; [done|]. rewrite bool_decide_false by done. by apply Z.eqb_neq. Qed.

Lemma zero_length_nat {A} (xs : list A) : Nat.eqb (List.length xs) 0 = bool_decide (xs = []).
Proof. by destruct xs. Qed.

Lemma handle_sendmsg_run w p e iov :
  represents w at_ p → pr_dir p e ≠ READ_ONLY →
  let r := spec_send (pr_type p) (pr_dir p e) (pr_cred p e) iov (pr_in p (other e)) in
  ∃ w', HandleSendmsgLocked dup (at_ (other e)) iov [] 0 (pr_cred p e) w = Done (an_result r.1, w') ∧
    r.1 = sent (an_result r.1) ∧ represents w' at_ (set_in (other e) r.2 p).
Proof.
  intros Hr Hdir r. subst r. unfold spec_send. rewrite bool_decide_false by done.
  destruct (rp_end _ _ _ Hr (other e)) as (l & Hl). pose proof Hl as [].
  assert (other (other e) = e) as Hoo by (by destruct e).
  unfold HandleSendmsgLocked. run_with (socket_run w (at_ (other e)) l eo_socket0).
  rewrite eo_type0, eo_cred0, Hoo.
  set (c := pr_in p (other e)) in *.
  destruct iov as [|b iov].
  { rewrite (St_bind_run (mret 0%nat) _ w 0%nat w eq_refl).
    destruct (send_tail 0 (other e) [] w p Hr) as (w' & Hrun & Hr').
    exists w'. cbn [List.concat]. rewrite take_nil, app_nil_r.
    case_bool_decide as Ht; cbn [fst snd an_result sent]; (split; [exact Hrun|]);
      (split; [done|]); apply represents_same; try done.
    subst c. by destruct (pr_in p (other e)). }
  set (bytes := List.concat (b :: iov)). case_bool_decide as Ht; cbn [fst snd an_result sent].
  - rewrite bool_decide_true by done.
    destruct (write_segments_spec (b :: iov) 0 (buffer_ l) (ch_bytes c) eo_bytes0)
      as (c' & Hw & Hcap & Hc'). fold bytes in Hw, Hc'. rewrite eo_capacity0 in Hw, Hc', Hcap.
    set (taken := take _ bytes) in *.
    rewrite (St_bind_run _ _ w (List.length taken) (put_socket (at_ (other e)) (with_buffer c' l) w)).
    2: { unfold lift, check, mbind, St_bind. by rewrite Hw. }
    destruct (send_tail (List.length taken) (other e) (b :: iov)
      (put_socket (at_ (other e)) (with_buffer c' l) w)
      (set_in (other e) (mkChannel (ch_capacity c) (ch_bytes c ++ taken) (ch_packets c)) p))
      as (w' & Hrun & Hr').
    { by apply (represents_put w at_ p (other e) l c' (queue_ l)). }
    exists w'. fold bytes in Hrun. rewrite Hrun. by rewrite zero_length, zero_length_nat.
  - rewrite (St_bind_run _ _ w (List.length bytes)
      (put_socket (at_ (other e)) (with_queue (queue_ l ++ [mkDatagram (pr_cred p e) bytes]) l) w)) by done.
    destruct (send_tail (List.length bytes) (other e) (b :: iov)
      (put_socket (at_ (other e)) (with_queue (queue_ l ++ [mkDatagram (pr_cred p e) bytes]) l) w)
      (set_in (other e) (mkChannel (ch_capacity c) (ch_bytes c)
         (ch_packets c ++ [mkDatagram (pr_cred p e) bytes])) p)) as (w' & Hrun & Hr').
    { apply (represents_put w at_ p (other e) l (buffer_ l) (queue_ l ++ [_])); try done.
      cbn [ch_packets]. by rewrite eo_packets0. }
    exists w'. fold bytes in Hrun. rewrite Hrun. rewrite zero_length, zero_length_nat.
    by destruct (bool_decide (bytes = [])).
Qed.

Lemma send_run w p e iov :
  represents w at_ p →
  ∃ w', run_pair_op dup close Wait at_ (PSend e iov) w = Done ((spec_pair_op (PSend e iov) p).1, w') ∧
    represents w' at_ (spec_pair_op (PSend e iov) p).2.
Proof.
  intros Hr. cbn [run_pair_op spec_pair_op]. destruct (rp_end _ _ _ Hr e) as (l & Hl). destruct Hl.
  pose proof (handle_sendmsg_run w p e iov Hr) as Hh. cbv zeta in Hh.
  unfold sendmsg. unfold mbind at 1 2, St_bind at 1 2.
  rewrite (socket_run w (at_ e) l eo_socket0), eo_dir0, eo_state0, eo_peer0, eo_my0.
  case_bool_decide as Hd.
  - exists w. unfold spec_send in *. rewrite bool_decide_true by done. split; [done|].
    by apply represents_same.
  - rewrite andb_false_r. destruct (Hh Hd) as (w' & Hrun & Ha & Hr'). exists w'. rewrite Hrun.
    revert Ha Hr'. destruct (spec_send _ _ _ _ _) as [a c]. cbn [fst snd]. by intros ->.
Qed.

(** Without waiting descriptors and room for control messages there are none. *)
Lemma recv_control_none w s l cred :
  sockets w.2 !! s = Some l → cmsg_fd_queue_ l = [] →
  recv_control close s cred 0 w = Done (([], 0, 0), w).
Proof.
  intros Hl Hq. unfold recv_control. run_with (socket_run w s l Hl). rewrite Hq.
  rewrite (St_bind_run (mret ([], 0, 0)) _ w ([], 0, 0) w eq_refl).
  change (CMSG_SPACE sizeof_ucred + 0 <=? 0) with false. by rewrite andb_false_r.
Qed.

Lemma put_socket_same (w : Net) s l : sockets w.2 !! s = Some l → put_socket s l w = w.
Proof. intros Hl. unfold put_socket, env_sockets. rewrite insert_id by done. by destruct w as [? []]. Qed.

(** The data part, for any socket whose buffer and queue hold the channel. *)
Lemma recv_data_raw (w : Net) s l dir c lens :
  sockets w.2 !! s = Some l → dir ≠ WRITE_ONLY →
  holds (buffer_ l) (ch_bytes c) → capacity_ (buffer_ l) = ch_capacity c → queue_ l = ch_packets c →
  let r := spec_recv (socket_type_ l) dir lens c in
  ∃ cred b, recv_data s lens w =
      Done ((an_segments r.1, an_flags r.1, cred),
            put_socket s (with_buffer b (with_queue (ch_packets r.2) l)) w) ∧
    r.1 = mkAnswer (an_segments r.1) (an_flags r.1) [] (count (an_segments r.1)) ∧
    holds b (ch_bytes r.2) ∧ capacity_ b = ch_capacity r.2.
Proof.
  intros Hl Hdir Hb Hcap Hq r. subst r. unfold spec_recv. rewrite bool_decide_false by done.
  unfold recv_data. run_with (socket_run w s l Hl). rewrite Hq. case_bool_decide as Ht.
  - destruct (read_segments_spec lens _ _ Hb) as (c' & Hread & Hcap' & Hc').
    rewrite (St_bind_run _ _ w (chop lens (ch_bytes c), c') w) by (unfold lift; by rewrite Hread).
    run_with (set_socket_run w s (with_buffer c' l)). eexists _, c'. rewrite <-Hq.
    split; [done|]. split; [done|]. split; [done|]. cbn. congruence.
  - destruct (ch_packets c) as [|d packets] eqn:Ep.
    + eexists _, (buffer_ l). cbn [fst snd]. rewrite Ep, <-Hq.
      rewrite (put_socket_same w s (with_buffer (buffer_ l) (with_queue (queue_ l) l)))
        by (rewrite Hl; f_equal; by destruct l). done.
    + rewrite copy_segments_chop. run_with (set_socket_run w s (with_queue packets l)).
      eexists _, (buffer_ l). split; [|done].
      unfold mret, St_ret. cbn [fst an_segments an_flags]. do 4 f_equal.
      rewrite length_drop.
      destruct (Nat.leb_spec (List.length (content_ d)) (list_sum lens)) as [H|H];
        destruct (Nat.eqb_spec (List.length (content_ d) - list_sum lens) 0); (done || lia).
Qed.

Lemma recv_data_run w p e l lens :
  represents w at_ p → end_ok w at_ p e l → pr_dir p e ≠ WRITE_ONLY →
  let r := spec_recv (pr_type p) (pr_dir p e) lens (pr_in p e) in
  ∃ cred w', recv_data (at_ e) lens w = Done ((an_segments r.1, an_flags r.1, cred), w') ∧
    r.1 = mkAnswer (an_segments r.1) (an_flags r.1) [] (count (an_segments r.1)) ∧
    represents w' at_ (set_in e r.2 p).
Proof.
  intros Hr Hl Hdir r. pose proof Hl as [].
  destruct (recv_data_raw w (at_ e) l (pr_dir p e) (pr_in p e) lens) as (cred & b & H1 & H2 & H3 & H4);
    [done..|]. rewrite eo_type0 in *. eexists _, _. split; [exact H1|]. split; [exact H2|].
  by apply (represents_put w at_ p e l).
Qed.

Lemma recv_finish_run w p e lens :
  represents w at_ p → pr_dir p e ≠ WRITE_ONLY →
  let r := spec_recv (pr_type p) (pr_dir p e) lens (pr_in p e) in
  ∃ w', recv_finish close (at_ e) lens 0 w =
      Done (mkReceived (an_segments r.1) (an_flags r.1) [] 0 (an_result r.1), w') ∧
    an_control r.1 = [] ∧ represents w' at_ (set_in e r.2 p).
Proof.
  intros Hr Hdir r. destruct (rp_end _ _ _ Hr e) as (l & Hl).
  destruct (recv_data_run w p e l lens Hr Hl Hdir) as (cred & w1 & Hdata & Ha & Hr1). fold r in Hdata, Ha, Hr1.
  unfold recv_finish. run_with Hdata. rewrite Ha. cbn [an_segments an_flags an_control an_result].
  destruct (rp_end _ _ _ Hr1 e) as (l1 & Hl1). pose proof Hl1 as [].
  set (segs := an_segments r.1) in *.
  rewrite (St_bind_run _ _ w1 ([], 0, 0) w1).
  2: { destruct (_ <=? 0); [done|]. by apply (recv_control_none w1 (at_ e) l1). }
  cbv beta iota. run_with (socket_run w1 (at_ e) l1 eo_socket0). rewrite Z.lor_0_r, eo_peer0.
  unfold count. rewrite <-zero_length.
  destruct (Z.ltb_spec 0 (Z.of_nat (List.length (List.concat segs)))) as [Hpos|Hz].
  - destruct (rp_end _ _ _ Hr1 (other e)) as (l2 & Hl2).
    destruct (notify_listeners_run w1 (at_ (other e)) (eo_listeners _ _ _ _ _ Hl2)) as (c & Hn).
    run_with Hn. destruct (Z.eqb_spec (Z.of_nat (List.length (List.concat segs))) 0); [lia|].
    eexists. split; [done|]. split; [done|]. by eapply represents_env.
  - destruct (Z.eqb_spec (Z.of_nat (List.length (List.concat segs))) 0); [|lia].
    eexists. split; [done|]. by split.
Qed.

Lemma is_block_run w s f :
  objects w.1.2 !! s = Some f →
  is_block s w = Done (Z.land (oflag_ f) SocketOptions.O_NONBLOCK =? 0, w).
Proof.
  intros Hf. unfold is_block, oflag, on_stream, on_fds, on_streams, deref, mbind, St_bind.
  rewrite Hf. by destruct w as [[t o] e].
Qed.

Lemma recv_start_run w p e :
  represents w at_ p →
  recv_start (at_ e) w = Done (if bool_decide (pr_dir p e = WRITE_ONLY) then Some EBADF else None, w).
Proof.
  intros Hr. destruct (rp_end _ _ _ Hr e) as (l & []). unfold recv_start.
  run_with (socket_run w (at_ e) l eo_socket0). rewrite eo_dir0, eo_state0. cbn.
  by rewrite andb_false_r.
Qed.

Lemma recv_run w p e lens :
  represents w at_ p →
  ∃ w', run_pair_op dup close Wait at_ (PRecv e lens) w = Done ((spec_pair_op (PRecv e lens) p).1, w') ∧
    represents w' at_ (spec_pair_op (PRecv e lens) p).2.
Proof.
  intros Hr. cbn [run_pair_op spec_pair_op]. destruct (rp_end _ _ _ Hr e) as (l & Hl). destruct Hl.
  pose proof (recv_finish_run w p e lens Hr) as Hfin. cbv zeta in Hfin.
  pose proof (recv_start_run w p e Hr) as Hstart.
  unfold recvmsg. unfold mbind at 1, St_bind at 1. run_with Hstart.
  case_bool_decide as Hd.
  - exists w. unfold spec_recv in *. rewrite bool_decide_true by done. split; [done|].
    by apply represents_same.
  - destruct eo_listeners0 as (f & Hf & _). run_with (is_block_run w (at_ e) f Hf).
    change (Z.land MSG_DONTWAIT MSG_DONTWAIT =? 0) with false. rewrite andb_false_r.
    rewrite (St_bind_run (mret tt) _ w tt w eq_refl).
    destruct (Hfin Hd) as (w' & Hrun & Hc & Hr'). rewrite Hrun. exists w'.
    cbn [rv_segments rv_flags rv_control rv_result]. revert Hc Hr'.
    destruct (spec_recv _ _ _ _) as [[segs fl ct r] c]. cbn [fst snd an_control]. by intros ->.
Qed.

Lemma pair_op_run w p o :
  represents w at_ p →
  ∃ w', run_pair_op dup close Wait at_ o w = Done ((spec_pair_op o p).1, w') ∧
    represents w' at_ (spec_pair_op o p).2.
Proof. destruct o; [apply send_run|apply recv_run]. Qed.
End Ops.
End ChannelProofs.

(** ** Readiness *)

Module Readiness.
Import Channels ChannelProofs.

(** Something is waiting in a channel; a channel takes at least a byte. *)
Definition has_data (type : socket_type) (c : channel) : bool :=
  if bool_decide (type = SOCK_STREAM) then negb (bool_decide (ch_bytes c = []))
  else negb (bool_decide (ch_packets c = [])).

Definition has_room (type : socket_type) (c : channel) : bool :=
  negb (bool_decide (type = SOCK_STREAM)) || Nat.ltb (List.length (ch_bytes c)) (ch_capacity c).

Definition poll_bits (type : socket_type) (dir : StreamDir) (incoming outgoing : channel) : Z :=
  let room := if bool_decide (dir = READ_ONLY) then false else has_room type outgoing in
  let data := if bool_decide (dir = WRITE_ONLY) then false else has_data type incoming in
  lor_if room POLLOUT (lor_if data POLLIN 0).

(** Only streams have one direction. *)
Definition dirs_ok (p : pair) : Prop := ∀ e, pr_dir p e ≠ READ_WRITE → pr_type p = SOCK_STREAM.

Lemma holds_size c q : holds c q → Nat.ltb 0 (size_ c) = negb (bool_decide (q = [])).
Proof. intros H. rewrite <-(h_size _ _ H). by destruct q. Qed.

Lemma get_poll_events_run w at_ p e :
  represents w at_ p → dirs_ok p →
  GetPollEvents (at_ e) w =
  Done (poll_bits (pr_type p) (pr_dir p e) (pr_in p e) (pr_in p (other e)), w).
Proof.
  intros Hr Hdirs. destruct (rp_end _ _ _ Hr e) as (l & []).
  destruct (rp_end _ _ _ Hr (other e)) as (l2 & Hl2).
  assert (peer_has_room w (at_ (other e)) =
    Done (Nat.ltb (List.length (ch_bytes (pr_in p (other e)))) (ch_capacity (pr_in p (other e))))) as Hroom.
  { destruct Hl2. unfold peer_has_room. rewrite eo_socket1, eo_capacity1.
    by rewrite <-(h_size _ _ eo_bytes1). }
  unfold GetPollEvents. run_with (socket_run w (at_ e) l eo_socket0).
  rewrite (St_bind_run get _ w w w eq_refl). rewrite eo_state0, eo_dir0, eo_peer0.
  unfold poll_bits, has_room, has_data. specialize (Hdirs e).
  destruct (pr_dir p e) eqn:Ed.
  - rewrite Hdirs by done. rewrite bool_decide_false by done. by rewrite (holds_size _ _ eo_bytes0).
  - rewrite Hdirs by done. unfold lift. unfold mbind at 1, St_bind at 1. rewrite Hroom. cbn.
    by destruct (Nat.ltb _ _).
  - rewrite (bool_decide_false (Some (at_ (other e)) = None)), andb_false_r by done.
    rewrite (bool_decide_false (READ_WRITE = READ_ONLY)), (bool_decide_false (READ_WRITE = WRITE_ONLY)) by done.
    unfold CanWrite, CanRead. rewrite eo_peer0, eo_type0, eo_packets0.
    rewrite (bool_decide_false (Some (at_ (other e)) = None)), andb_false_r by done. rewrite (holds_size _ _ eo_bytes0).
    unfold lift. unfold mbind at 1, St_bind at 1. case_bool_decide; [by rewrite Hroom|].
    cbn. by destruct (ch_packets (pr_in p e)).
Qed.

Lemma poll_bits_in type dir i o :
  Z.land (poll_bits type dir i o) POLLIN = 0 ↔ (dir = WRITE_ONLY ∨ has_data type i = false).
Proof.
  unfold poll_bits, lor_if. case_bool_decide as H1; case_bool_decide as H2;
    destruct (has_room type o), (has_data type i); cbn; naive_solver.
Qed.

Lemma poll_bits_out type dir i o :
  Z.land (poll_bits type dir i o) POLLOUT = 0 ↔ (dir = READ_ONLY ∨ has_room type o = false).
Proof.
  unfold poll_bits, lor_if. case_bool_decide as H1; case_bool_decide as H2;
    destruct (has_room type o), (has_data type i); cbn; naive_solver.
Qed.

Lemma spec_recv_data type dir lens c :
  dir ≠ WRITE_ONLY → (0 < list_sum lens)%nat → Forall (λ d, content_ d ≠ []) (ch_packets c) →
  ∃ n, 0 < n ∧
    an_result (spec_recv type dir lens c).1 = if has_data type c then Ok n else Err EAGAIN.
Proof.
  intros Hdir Hlens Hp. unfold spec_recv, has_data. rewrite bool_decide_false by done.
  assert (∀ q, q ≠ [] → ∃ n, 0 < n ∧ count (chop lens q) = Ok n) as Hcount.
  { intros q Hq. pose proof (chop_length lens q) as Hl. unfold count.
    destruct (List.concat (chop lens q)) as [|x bytes]; [destruct q; [done|]; cbn [List.length] in Hl; lia|].
    rewrite bool_decide_false by done. eexists. split; [|done]. cbn [List.length]. lia. }
  case_bool_decide as Ht.
  - cbn [fst an_result]. destruct (ch_bytes c) as [|x q]; [exists 1; by destruct lens|].
    rewrite (bool_decide_false (_ :: _ = [])) by done. by apply Hcount.
  - destruct (ch_packets c) as [|d ds]; [by exists 1|]. cbn [fst an_result].
    rewrite (bool_decide_false (_ :: _ = [])) by done. inversion Hp; subst. by apply Hcount.
Qed.

Section Calls.
Context (dup : Z → St Net (res Z)) (close : Z → St Net bool) (Wait : St Net unit).
Context (at_ : side → sid).

(** Reading readiness is data in the channel. *)
Lemma recv_blocked_run w p e :
  represents w at_ p → dirs_ok p → pr_dir p e ≠ WRITE_ONLY →
  recv_blocked (at_ e) w = Done (negb (has_data (pr_type p) (pr_in p e)), w).
Proof.
  intros Hr Hdirs Hd. destruct (rp_end _ _ _ Hr e) as (l & []).
  unfold recv_blocked. run_with (socket_run w (at_ e) l eo_socket0). rewrite eo_peer0.
  rewrite bool_decide_false by done. unfold IsSelectReadReady.
  unfold mbind at 1 2, St_bind at 1 2. rewrite (get_poll_events_run w at_ p e Hr Hdirs).
  unfold mret, St_ret. do 3 f_equal. unfold poll_bits, lor_if.
  rewrite (bool_decide_false (pr_dir p e = WRITE_ONLY)) by done.
  case_bool_decide; destruct (has_room (pr_type p) (pr_in p (other e))),
    (has_data (pr_type p) (pr_in p e)); done.
Qed.

(** With data there, [recvmsg] does not wait. *)
Lemma recvmsg_ready w p e lens flags :
  represents w at_ p → dirs_ok p → pr_dir p e ≠ WRITE_ONLY →
  has_data (pr_type p) (pr_in p e) = true →
  recvmsg 1 Wait close (at_ e) lens 0 flags w = recvmsg 0 Wait close (at_ e) lens 0 MSG_DONTWAIT w.
Proof.
  intros Hr Hdirs Hd Hdata. pose proof (recv_blocked_run w p e Hr Hdirs Hd) as Hb.
  rewrite Hdata in Hb. destruct (rp_end _ _ _ Hr e) as (l & []).
  destruct eo_listeners0 as (f & Hf & _).
  assert (∀ fuel flags, recvmsg fuel Wait close (at_ e) lens 0 flags w =
    (if (Z.land (oflag_ f) SocketOptions.O_NONBLOCK =? 0) && (Z.land flags MSG_DONTWAIT =? 0)
     then wait_while fuel Wait (recv_blocked (at_ e)) ≫= λ _, recv_finish close (at_ e) lens 0
     else recv_finish close (at_ e) lens 0) w) as Heq.
  { intros fuel fl. unfold recvmsg. run_with (recv_start_run at_ w p e Hr).
    rewrite (bool_decide_false (pr_dir p e = WRITE_ONLY)) by done.
    run_with (is_block_run w (at_ e) f Hf). by destruct (_ && _). }
  rewrite !Heq. change (Z.land MSG_DONTWAIT MSG_DONTWAIT =? 0) with false. rewrite andb_false_r.
  destruct (_ && _); [|done].
  assert (wait_while 1 Wait (recv_blocked (at_ e)) w = Done (tt, w)) as Hw.
  { cbn [wait_while]. by run_with Hb. }
  by run_with Hw.
Qed.

Lemma recvmsg_result w p e lens :
  represents w at_ p →
  ∃ v w', recvmsg 0 Wait close (at_ e) lens 0 MSG_DONTWAIT w = Done (v, w') ∧
    rv_result v = an_result (spec_recv (pr_type p) (pr_dir p e) lens (pr_in p e)).1.
Proof.
  intros Hr. destruct (recv_run dup close Wait at_ w p e lens Hr) as (w' & Hrun & _).
  cbn [run_pair_op spec_pair_op] in Hrun. unfold mbind, St_bind in Hrun.
  destruct (recvmsg 0 Wait close (at_ e) lens 0 MSG_DONTWAIT w) as [[v w1]| |]; [|done|done].
  exists v, w1. split; [done|]. destruct (spec_recv _ _ _ _) as [a c]. cbn in Hrun.
  by injection Hrun as <- _.
Qed.

Lemma sendmsg_result w p e iov :
  represents w at_ p →
  ∃ w', sendmsg dup (at_ e) iov [] 0 w =
    Done (an_result (spec_send (pr_type p) (pr_dir p e) (pr_cred p e) iov (pr_in p (other e))).1, w').
Proof.
  intros Hr. destruct (send_run dup close Wait at_ w p e iov Hr) as (w' & Hrun & _).
  cbn [run_pair_op spec_pair_op] in Hrun. unfold mbind, St_bind in Hrun.
  destruct (sendmsg dup (at_ e) iov [] 0 w) as [[v w1]| |]; [|done|done].
  exists w1. destruct (spec_send _ _ _ _ _) as [a c]. cbn in Hrun. by injection Hrun as <- _.
Qed.
End Calls.

Lemma spec_send_data type dir cred iov c :
  dir ≠ READ_ONLY → List.concat iov ≠ [] →
  ∃ n, 0 < n ∧ an_result (spec_send type dir cred iov c).1 = if has_room type c then Ok n else Err EAGAIN.
Proof.
  intros Hdir Hiov. unfold spec_send, has_room. rewrite bool_decide_false by done.
  destruct (List.concat iov) as [|x bytes] eqn:E; [done|].
  case_bool_decide as Ht; cbn [negb orb].
  - cbn [fst an_result sent]. rewrite (bool_decide_false (_ :: _ = [])), andb_true_r by done.
    destruct (Nat.ltb_spec (List.length (ch_bytes c)) (ch_capacity c)) as [H|H].
    + destruct (ch_capacity c - List.length (ch_bytes c))%nat as [|k] eqn:Ek; [lia|].
      cbn [take]. rewrite bool_decide_false by done. eexists. split; [|done]. simpl. lia.
    + replace (ch_capacity c - List.length (ch_bytes c))%nat with 0%nat by lia. by exists 1.
  - destruct iov as [|b iov]; [done|]. exists (Z.of_nat (List.length (x :: bytes))).
    split; [cbn [List.length]; lia|done].
Qed.
End Readiness.

(** ** After the other end is closed *)

Module HalfOpen.
Import Channels ChannelProofs Readiness.

(** The socket of end [e] once its peer is gone: it keeps its channel. *)
Record half_open (w : Net) (at_ : side → sid) (p : pair) (e : side) (l : LocalSocket) : Prop := {
  ho_socket : sockets w.2 !! at_ e = Some l;
  ho_type : socket_type_ l = pr_type p;
  ho_state : connect_state_ l = SOCKET_CONNECTED;
  ho_dir : stream_dir_ l = pr_dir p e;
  ho_peer : peer_ l = None;
  ho_bytes : holds (buffer_ l) (ch_bytes (pr_in p e));
  ho_capacity : capacity_ (buffer_ l) = ch_capacity (pr_in p e);
  ho_packets : queue_ l = ch_packets (pr_in p e);
  ho_cmsg : cmsg_fd_queue_ l = [];
  ho_object : is_Some (objects w.1.2 !! at_ e);
}.

(** The end of [OnLastFileRef] is about names only. *)
Lemma unbind_names_run (l : LocalSocket) (w : Net) :
  ∃ w', ((if negb (bool_decide (abstract_name_ l = [])) then
            modify (λ w, (w.1, mkLocalEnv (sockets w.2)
              (AbstractSocketNamespace.Bind (abstract_name_ l) None (abstract_ns w.2)).2
              (logd_ns w.2) (broadcasts w.2)))
          else mret tt);;
         (if negb (bool_decide (logd_name_ l = [])) then
            modify (λ w, (w.1, mkLocalEnv (sockets w.2) (abstract_ns w.2)
              (LogdSocketNamespace.Bind (logd_name_ l) None (logd_ns w.2)).2 (broadcasts w.2)))
          else mret tt)) w = Done (tt, w') ∧
    w'.1 = w.1 ∧ sockets w'.2 = sockets w.2 ∧ broadcasts w'.2 = broadcasts w.2.
Proof.
  unfold mbind, St_bind, modify. destruct (negb _), (negb _); eexists; (split; [reflexivity|]); done.
Qed.

Lemma on_last_file_ref_run w at_ p e :
  represents w at_ p →
  ∃ w' l, OnLastFileRef (at_ e) w = Done (tt, w') ∧ w'.1 = w.1 ∧
    half_open w' at_ p (other e) l ∧ broadcasts w'.2 = S (broadcasts w.2).
Proof.
  intros Hr. destruct (rp_end _ _ _ Hr e) as (l & Hl). destruct (rp_end _ _ _ Hr (other e)) as (l2 & Hl2).
  pose proof (at_distinct _ _ _ e Hr) as Hne. unfold OnLastFileRef.
  run_with (socket_run w (at_ e) l (eo_socket _ _ _ _ _ Hl)). rewrite (eo_peer _ _ _ _ _ Hl).
  set (w1 := put_socket (at_ (other e)) (with_peer None (peer_cred_ l2) l2) w).
  set (w2 := put_socket (at_ e) (with_peer None (peer_cred_ l) l) w1).
  set (w3 := (w2.1, mkLocalEnv (sockets w2.2) (abstract_ns w2.2) (logd_ns w2.2) (S (broadcasts w2.2))) : Net).
  rewrite (St_bind_run _ _ w tt w3).
  2: { run_with (update_run w _ _ (λ q, with_peer None (peer_cred_ q) q) (eo_socket _ _ _ _ _ Hl2)).
       assert (sockets w1.2 !! at_ e = Some l) as Hl1.
       { unfold w1. cbn [put_socket snd env_sockets sockets]. rewrite lookup_insert_ne by done.
         apply (eo_socket _ _ _ _ _ Hl). }
       by run_with (update_run w1 (at_ e) l (λ q, with_peer None (peer_cred_ q) q) Hl1). }
  destruct (unbind_names_run l w3) as (w' & Hrun & H1 & H2 & H3). exists w', (with_peer None (peer_cred_ l2) l2).
  rewrite Hrun. split; [done|]. split; [by rewrite H1|]. split; [|by rewrite H3].
  destruct Hl2. split; cbn; try done.
  - rewrite H2. cbn. rewrite lookup_insert_ne by done. by rewrite lookup_insert_eq.
  - rewrite H1. destruct eo_listeners0 as (f & Hf & _). by exists f.
Qed.

Section Calls.
Context (dup : Z → St Net (res Z)) (close : Z → St Net bool) (Wait : St Net unit).
Context (at_ : side → sid) (w : Net) (p : pair) (e : side) (l : LocalSocket).
Context (Hl : half_open w at_ p e l) (Htype : pr_type p ≠ SOCK_DGRAM).

(** What a receiver sees: the rest of the data, then the end of the file. *)
Definition drained (r : answer) : answer :=
  mkAnswer (an_segments r) (an_flags r) (an_control r)
    (match an_result r with Err EAGAIN => Ok 0 | x => x end).

Lemma half_open_send iov :
  sendmsg dup (at_ e) iov [] 0 w =
  Done (Err (if bool_decide (pr_dir p e = READ_ONLY) then EBADF else ECONNRESET), w).
Proof.
  destruct Hl. unfold sendmsg. run_with (socket_run w (at_ e) l ho_socket0).
  rewrite ho_dir0, ho_state0, ho_peer0, ho_type0. case_bool_decide; [done|].
  rewrite andb_false_r. by rewrite bool_decide_false.
Qed.

Lemma half_open_recv lens flags :
  ∃ w', recvmsg 1 Wait close (at_ e) lens 0 flags w =
    Done ((let a := drained (spec_recv (pr_type p) (pr_dir p e) lens (pr_in p e)).1 in
           mkReceived (an_segments a) (an_flags a) (an_control a) 0 (an_result a)), w').
Proof.
  destruct Hl. destruct ho_object0 as [f Hf].
  assert (recv_start (at_ e) w = Done (if bool_decide (pr_dir p e = WRITE_ONLY) then Some EBADF else None, w)) as Hs.
  { unfold recv_start. run_with (socket_run w (at_ e) l ho_socket0). rewrite ho_dir0, ho_state0.
    cbn. by rewrite andb_false_r. }
  unfold recvmsg. run_with Hs. case_bool_decide as Hd.
  { exists w. unfold spec_recv. by rewrite bool_decide_true. }
  run_with (is_block_run w (at_ e) f Hf).
  assert (wait_while 1 Wait (recv_blocked (at_ e)) w = Done (tt, w)) as Hw.
  { assert (recv_blocked (at_ e) w = Done (false, w)) as Hb.
    { unfold recv_blocked. run_with (socket_run w (at_ e) l ho_socket0). by rewrite ho_peer0. }
    cbn [wait_while]. by run_with Hb. }
  rewrite (St_bind_run _ _ w tt w) by (by destruct (_ && _)).
  destruct (recv_data_raw w (at_ e) l (pr_dir p e) (pr_in p e) lens) as (cred & b & H1 & H2 & _);
    [done..|]. rewrite ho_type0 in *. unfold recv_finish. run_with H1. cbv beta iota.
  set (r := (spec_recv _ _ _ _).1) in *. rewrite H2. unfold drained. cbn [an_segments an_flags an_control an_result].
  set (w1 := put_socket _ _ w).
  set (l1 := with_buffer b _) in w1.
  assert (sockets w1.2 !! at_ e = Some l1) as Hl1 by apply lookup_insert_eq.
  rewrite (St_bind_run _ _ w1 ([], 0, 0) w1).
  2: { destruct (_ <=? 0); [done|]. by apply (recv_control_none close w1 (at_ e) l1). }
  cbv beta iota. run_with (socket_run w1 (at_ e) l1 Hl1). rewrite Z.lor_0_r.
  change (peer_ l1) with (peer_ l). change (socket_type_ l1) with (socket_type_ l).
  rewrite ho_peer0, ho_type0. unfold count. rewrite <-zero_length.
  destruct (Z.ltb_spec 0 (Z.of_nat (List.length (List.concat (an_segments r))))).
  - destruct (Z.eqb_spec (Z.of_nat (List.length (List.concat (an_segments r)))) 0); [lia|]. by eexists.
  - destruct (Z.eqb_spec (Z.of_nat (List.length (List.concat (an_segments r)))) 0); [|lia].
    rewrite (bool_decide_false (pr_type p = SOCK_DGRAM)) by done. by eexists.
Qed.

Lemma half_open_poll :
  ∃ events, GetPollEvents (at_ e) w = Done (events, w) ∧ Z.land events (Z.lor POLLHUP POLLERR) ≠ 0.
Proof.
  destruct Hl. unfold GetPollEvents. run_with (socket_run w (at_ e) l ho_socket0).
  rewrite (St_bind_run get _ w w w eq_refl). rewrite ho_state0, ho_peer0, ho_type0.
  destruct (stream_dir_ l).
  - eexists. split; [done|]. by destruct (Nat.ltb _ _).
  - eexists. by split.
  - unfold CanWrite. rewrite ho_peer0, (bool_decide_false (pr_type p = SOCK_DGRAM)) by done.
    eexists. split; [done|]. by destruct (CanRead l).
Qed.
End Calls.
End HalfOpen.

Module ChannelProperties.
Import Channels ChannelProofs.

(** C1.  A connected pair of local sockets, or a pipe, is two channels.  Any
    sequence of [sendmsg] and not waiting [recvmsg] calls on its two ends, in any
    order, runs without tripping an assertion (that of the sender's credentials
    included) and gives what the two queues give: for SOCK_STREAM the bytes sent
    at an end come out at the other in order, cut by the receiver's segments,
    with no byte lost or invented, [sendmsg] taking what fits and being EAGAIN
    when nothing does; for the other types packets come out whole and in order,
    what does not fit the segments being cut off and flagged MSG_TRUNC; an empty
    queue is EAGAIN, and the wrong direction of a pipe is EBADF. *)
Theorem connected_pair_is_two_channels dup close Wait at_ os w p :
  represents w at_ p →
  ∃ w', run_pair_ops dup close Wait at_ os w = Done ((spec_pair_ops os p).1, w') ∧
    represents w' at_ (spec_pair_ops os p).2.
Proof.
  revert w p. induction os as [|o os IH]; intros w p Hr; cbn [run_pair_ops spec_pair_ops].
  { by exists w. }
  destruct (pair_op_run dup close Wait at_ w p o Hr) as (w1 & Hrun & Hr1). run_with Hrun.
  destruct (spec_pair_op o p) as [a p1]. cbn [fst snd] in *.
  destruct (IH w1 p1 Hr1) as (w2 & Hrun2 & Hr2). run_with Hrun2.
  revert Hr2. destruct (spec_pair_ops os p1) as [r p2]. intros Hr2. by exists w2.
Qed.

(** A pipe that holds four bytes, from socket 2 to socket 1. *)
Definition pipe_socket (dir : StreamDir) (peer : sid) (cap : nat) : LocalSocket :=
  mkLocalSocket SOCK_STREAM SOCKET_CONNECTED dir [] 0
    (mkCircularBuffer (Some (repeat "?"%char cap)) 0 0 cap 0) (Some peer) [] [] [] [] []
    (mkUcred 1 2 3) (mkUcred 1 2 3) 0 SocketOptions.SocketStream_new.

Definition pipe_world : Net :=
  ((mkFdMap ∅ [] 0 0, mkStreams {[1%nat := new_stream 0 true; 2%nat := new_stream 0 true]} []),
   mkLocalEnv {[1%nat := pipe_socket READ_ONLY 2 4; 2%nat := pipe_socket WRITE_ONLY 1 0]}
     (AbstractSocketNamespace.mkAbstract ∅ 1) ∅ 0).

Definition pipe_at (e : side) : sid := match e with Left => 1%nat | Right => 2%nat end.

Definition pipe_pair : pair :=
  mkPair SOCK_STREAM (λ e, match e with Left => READ_ONLY | Right => WRITE_ONLY end)
    (λ _, mkUcred 1 2 3) (λ e, mkChannel (match e with Left => 4 | Right => 0 end)%nat [] []).

Lemma empty_buffer_holds cap : holds (mkCircularBuffer (Some (repeat "?"%char cap)) 0 0 cap 0) [].
Proof.
  split; unfold memory; cbn [buffer_ start_ end_ capacity_ size_]; try done; try lia.
  apply repeat_length.
Qed.

Lemma pipe_represents : represents pipe_world pipe_at pipe_pair.
Proof.
  split; [done|]. intros [|]; eexists; split; try reflexivity; try apply empty_buffer_holds;
    eexists; (split; [reflexivity|]); (split; [reflexivity|]); intros l Hl; by apply elem_of_empty in Hl.
Qed.

Lemma connected_pair_is_two_channels_witness :
  ∃ w', run_pair_ops (λ _, fatal) (λ _, fatal) fatal pipe_at
      [PSend Right [lit "ab"; lit "cde"]; PSend Right [lit "x"]; PRecv Left [1%nat; 2%nat];
       PSend Left [lit "y"]; PRecv Left [9%nat]; PRecv Left [9%nat]] pipe_world =
    Done ([sent (Ok 4); sent (Err EAGAIN); mkAnswer [lit "a"; lit "bc"] 0 [] (Ok 3);
           sent (Err EBADF); mkAnswer [lit "d"] 0 [] (Ok 1); mkAnswer [] 0 [] (Err EAGAIN)], w').
Proof.
  destruct (connected_pair_is_two_channels (λ _, fatal) (λ _, fatal) fatal pipe_at
    [PSend Right [lit "ab"; lit "cde"]; PSend Right [lit "x"]; PRecv Left [1%nat; 2%nat];
     PSend Left [lit "y"]; PRecv Left [9%nat]; PRecv Left [9%nat]] pipe_world pipe_pair pipe_represents)
    as (w' & Hrun & _).
  exists w'. exact Hrun.
Defined.

Import Readiness.

(** C25.  Readiness is the truth.  On a connected pair (streams in one direction
    only), [GetPollEvents] runs and changes nothing.  POLLIN is set exactly when
    receiving gives data: with it, [recvmsg] into non-empty segments gives at
    least a byte, does not wait whatever its flags, and changes the same as the
    call with MSG_DONTWAIT; without it, the call that does not wait is EAGAIN.
    POLLOUT is set exactly when sending at least a byte is taken: without it,
    [sendmsg] is EAGAIN.  Packets without content are excluded, since receiving
    one is EAGAIN though POLLIN is set. *)
Theorem readiness_agrees_with_calls dup close Wait at_ w p e lens iov flags :
  represents w at_ p → dirs_ok p → (0 < list_sum lens)%nat → List.concat iov ≠ [] →
  Forall (λ d, content_ d ≠ []) (ch_packets (pr_in p e)) →
  ∃ events, GetPollEvents (at_ e) w = Done (events, w) ∧
    (pr_dir p e ≠ WRITE_ONLY →
       if decide (Z.land events POLLIN = 0) then
         ∃ v w', recvmsg 0 Wait close (at_ e) lens 0 MSG_DONTWAIT w = Done (v, w') ∧
           rv_result v = Err EAGAIN
       else
         recvmsg 1 Wait close (at_ e) lens 0 flags w = recvmsg 0 Wait close (at_ e) lens 0 MSG_DONTWAIT w ∧
         ∃ v w' n, recvmsg 0 Wait close (at_ e) lens 0 MSG_DONTWAIT w = Done (v, w') ∧
           rv_result v = Ok n ∧ 0 < n) ∧
    (pr_dir p e ≠ READ_ONLY →
       ∃ r w', sendmsg dup (at_ e) iov [] 0 w = Done (r, w') ∧
         if decide (Z.land events POLLOUT = 0) then r = Err EAGAIN else ∃ n, r = Ok n ∧ 0 < n).
Proof.
  intros Hr Hdirs Hlens Hiov Hp. eexists. split; [by apply get_poll_events_run|]. split.
  - intros Hd. destruct (recvmsg_result dup close Wait at_ w p e lens Hr) as (v & w' & Hrun & Hres).
    destruct (spec_recv_data (pr_type p) (pr_dir p e) lens (pr_in p e) Hd Hlens Hp) as (n & Hn & Hspec).
    rewrite Hspec in Hres.
    case_decide as Hin; rewrite poll_bits_in in Hin.
    + exists v, w'. split; [done|]. destruct Hin as [?|Hin]; [done|]. by rewrite Hin in Hres.
    + assert (has_data (pr_type p) (pr_in p e) = true) as Hdata by (apply not_false_is_true; tauto).
      split; [by eapply recvmsg_ready|]. rewrite Hdata in Hres. by exists v, w', n.
  - intros Hd. destruct (sendmsg_result dup close Wait at_ w p e iov Hr) as (w' & Hrun).
    destruct (spec_send_data (pr_type p) (pr_dir p e) (pr_cred p e) iov (pr_in p (other e)) Hd Hiov)
      as (n & Hn & Hres).
    eexists _, w'. split; [exact Hrun|]. rewrite Hres.
    case_decide as Hout; rewrite poll_bits_out in Hout.
    + destruct Hout as [?|Hout]; [done|]. by rewrite Hout.
    + assert (has_room (pr_type p) (pr_in p (other e)) = true) as -> by (apply not_false_is_true; tauto).
      by exists n.
Qed.

Lemma readiness_agrees_with_calls_witness :
  ∃ events, GetPollEvents 2%nat pipe_world = Done (events, pipe_world) ∧
    ∃ r w', sendmsg (λ _, fatal) 2%nat [lit "hello"] [] 0 pipe_world = Done (r, w') ∧
      if decide (Z.land events POLLOUT = 0) then r = Err EAGAIN else ∃ n, r = Ok n ∧ 0 < n.
Proof.
  destruct (readiness_agrees_with_calls (λ _, fatal) (λ _, fatal) fatal pipe_at pipe_world pipe_pair Right
    [1%nat] [lit "hello"] 0) as (events & Hev & _ & Hout).
  - exact pipe_represents.
  - intros [|] _; done.
  - simpl. lia.
  - done.
  - constructor.
  - exists events. split; [exact Hev|]. by apply Hout.
Defined.

Import HalfOpen.

(** C24.  Closing an end.  When the last descriptor of one end of a connected
    stream, packet stream or pipe goes, nothing aborts, waiting threads are woken
    once, and the other end sees it: [recvmsg] never waits, gives the rest of the
    data, cut and flagged as before, and then 0, the end of the file; [sendmsg]
    is ECONNRESET (EBADF for the reading end of a pipe); and polling reports
    POLLHUP or POLLERR. *)
Theorem closing_an_end dup close Wait at_ w p e lens iov flags :
  represents w at_ p → pr_type p ≠ SOCK_DGRAM →
  let o := other e in
  ∃ w1, OnLastFileRef (at_ e) w = Done (tt, w1) ∧ broadcasts w1.2 = S (broadcasts w.2) ∧
    (∃ w2, recvmsg 1 Wait close (at_ o) lens 0 flags w1 =
       Done ((let a := drained (spec_recv (pr_type p) (pr_dir p o) lens (pr_in p o)).1 in
              mkReceived (an_segments a) (an_flags a) (an_control a) 0 (an_result a)), w2)) ∧
    sendmsg dup (at_ o) iov [] 0 w1 =
      Done (Err (if bool_decide (pr_dir p o = READ_ONLY) then EBADF else ECONNRESET), w1) ∧
    ∃ events, GetPollEvents (at_ o) w1 = Done (events, w1) ∧
      Z.land events (Z.lor POLLHUP POLLERR) ≠ 0.
Proof.
  intros Hr Ht o. destruct (on_last_file_ref_run w at_ p e Hr) as (w1 & l & Hrun & _ & Ho & Hb).
  exists w1. split; [done|]. split; [done|]. split; [by eapply half_open_recv|].
  split; [by eapply half_open_send|]. by eapply half_open_poll.
Qed.

Lemma closing_an_end_witness :
  ∃ w1, OnLastFileRef 2%nat pipe_world = Done (tt, w1) ∧
    ∃ w2, recvmsg 1 fatal (λ _, fatal) 1%nat [5%nat] 0 0 w1 = Done (mkReceived [] 0 [] 0 (Ok 0), w2).
Proof.
  destruct (closing_an_end (λ _, fatal) (λ _, fatal) fatal pipe_at pipe_world pipe_pair Right [5%nat] [] 0)
    as (w1 & H1 & _ & (w2 & H2) & _).
  - exact pipe_represents.
  - done.
  - exists w1. split; [exact H1|]. exists w2. exact H2.
Defined.
End ChannelProperties.

(** ** Descriptors in control messages *)

Module Rights.
(** How many of [n] descriptors fit [L] bytes, as the code counts: two headers. *)
Definition kept_count (n : nat) (L : Z) : nat := Nat.min n (Z.to_nat ((L - 24) / 4)).

(** [close] for each, in order. *)
Definition close_all (close : Z → St Net bool) (fds : list Z) : St Net unit :=
  for_each (λ fd, close fd;; mret tt) fds.

Lemma align_spec x : CMSG_ALIGN x = 4 * ((x + 3) / 4).
Proof.
  unfold CMSG_ALIGN. generalize (x + 3). intros y. change (Z.lnot 3) with (Z.shiftl (-1) 2).
  transitivity (Z.shiftl (Z.shiftr y 2) 2).
  2: { rewrite Z.shiftl_mul_pow2, Z.shiftr_div_pow2 by lia. change (2 ^ 2) with 4. lia. }
  apply Z.bits_inj'. intros i Hi. rewrite Z.land_spec, !Z.shiftl_spec by done.
  destruct (Z.ltb_spec i 2).
  - rewrite !(Z.testbit_neg_r _ (i - 2)) by lia. by rewrite andb_false_r.
  - rewrite Z.shiftr_spec, Z.bits_m1 by lia. rewrite andb_true_r. f_equal. lia.
Qed.

Lemma align_words n : CMSG_ALIGN (4 * n) = 4 * n.
Proof. rewrite align_spec. Z.div_mod_to_equations. lia. Qed.

Lemma space_of_fds n : CMSG_SPACE (fds_cmsg_len n) = 24 + 4 * Z.of_nat n.
Proof.
  unfold CMSG_SPACE, fds_cmsg_len, CMSG_LEN, sizeof_int. change (CMSG_ALIGN sizeof_cmsghdr) with 12.
  replace (12 + Z.of_nat n * 4) with (4 * (3 + Z.of_nat n)) by lia. rewrite align_words. lia.
Qed.

(** The whole list fits. *)
Lemma kept_all n L : 24 + 4 * Z.of_nat n <= L → kept_count n L = n.
Proof.
  intros H. unfold kept_count. assert (Z.of_nat n <= (L - 24) / 4) by (apply Z.div_le_lower_bound; lia). lia.
Qed.

Lemma kept_less n L : L < 24 + 4 * Z.of_nat (S n) → kept_count (S n) L = kept_count n L.
Proof.
  intros H. unfold kept_count.
  assert ((L - 24) / 4 < Z.of_nat (S n)) by (apply Z.div_lt_upper_bound; lia). lia.
Qed.

Lemma trim_fds_spec close L fds w :
  trim_fds close L (rev fds) w =
  (close_all close (rev (drop (kept_count (List.length fds) L) fds));;
   mret (rev (take (kept_count (List.length fds) L) fds))) w.
Proof.
  revert w. induction fds as [|fd fds IH] using rev_ind; intros w; [done|].
  rewrite rev_app_distr. cbn [rev app trim_fds]. rewrite length_app. cbn [List.length].
  rewrite length_rev, Nat.add_1_r, space_of_fds.
  destruct (Z.ltb_spec L (24 + 4 * Z.of_nat (S (List.length fds)))) as [H|H].
  - rewrite kept_less by done. assert (kept_count (List.length fds) L ≤ List.length fds)%nat
      by (unfold kept_count; lia).
    rewrite drop_app_le, take_app_le by done. rewrite rev_app_distr. cbn [rev app].
    unfold close_all. cbn [for_each]. unfold mbind, St_bind, mret, St_ret in *.
    destruct (close fd w) as [[b w']| |]; [|done|done]. apply IH.
  - rewrite kept_all by done. rewrite take_ge, drop_ge by (rewrite length_app; simpl; lia).
    by rewrite rev_app_distr.
Qed.

(** Descriptors that arrive with data.  When [recvmsg] has read bytes and a
    set of descriptors is waiting, it hands over the first of them, in order, as
    one SCM_RIGHTS message: as many as fit the room for control messages with two
    headers; the others are closed, the last first, and flagged MSG_CTRUNC; the
    set is taken off the queue.  With less room than two headers there is no
    message and all are closed.  In particular room of CMSG_SPACE of the
    descriptors' size, one header, loses three of them. *)
Theorem passed_descriptors close s cred L fds rest l w w1 l1 :
  sockets w.2 !! s = Some l → cmsg_fd_queue_ l = fds :: rest → pass_cred_ l = 0 →
  let k := kept_count (List.length fds) L in
  close_all close (rev (drop k fds)) w = Done (tt, w1) → sockets w1.2 !! s = Some l1 →
  recv_control close s cred L w =
    Done ((if L <? 24 then [] else [ScmRights (take k fds)],
           if L <? 24 then 0 else 24 + 4 * Z.of_nat k,
           if Nat.ltb k (List.length fds) then MSG_CTRUNC else 0),
          put_socket s (with_cmsg rest l1) w1) ∧
  (L = CMSG_SPACE (sizeof_int * Z.of_nat (List.length fds)) → k = (List.length fds - 3)%nat).
Proof.
  intros Hl Hq Hp k Hclose Hl1. split.
  - unfold recv_control. run_with (socket_run w s l Hl). rewrite Hq, Hp. cbn [Z.eqb negb andb].
    assert (trim_fds close L (rev fds) w = Done (rev (take k fds), w1)) as Ht.
    { rewrite trim_fds_spec. by run_with Hclose. }
    assert (k ≤ List.length fds)%nat by (unfold k, kept_count; lia).
    unfold mbind at 1 2, St_bind at 1 2. rewrite Ht. rewrite rev_involutive, length_take, Nat.min_l by done.
    run_with (update_run w1 s l1 (with_cmsg rest) Hl1). rewrite space_of_fds.
    destruct (Z.ltb_spec L 24) as [H24|H24].
    + destruct (Z.ltb_spec L (24 + 4 * Z.of_nat k)); [done|lia].
    + destruct (Z.ltb_spec L (24 + 4 * Z.of_nat k)) as [Hlt|]; [|done]. exfalso.
      unfold k, kept_count in Hlt. pose proof (Z.mul_div_le (L - 24) 4).
      assert (0 <= (L - 24) / 4) by (apply Z.div_pos; lia). lia.
  - intros ->. unfold k, kept_count, CMSG_SPACE, sizeof_int. rewrite align_words.
    change (CMSG_ALIGN sizeof_cmsghdr) with 12.
    replace (12 + 4 * Z.of_nat (List.length fds) - 24) with ((Z.of_nat (List.length fds) - 3) * 4) by lia.
    rewrite Z.div_mul by lia. lia.
Qed.

Lemma passed_descriptors_witness :
  let l := with_cmsg [[7; 8]] (ChannelProperties.pipe_socket READ_ONLY 2 4) in
  let w := put_socket 1 l ChannelProperties.pipe_world in
  recv_control (λ _ w, Done (true, w)) 1 (mkUcred 0 0 0) 29 w =
    Done (([ScmRights [7]], 28, MSG_CTRUNC), put_socket 1 (with_cmsg [] l) w).
Proof.
  intros l w.
  destruct (passed_descriptors (λ _ w, Done (true, w)) 1%nat (mkUcred 0 0 0) 29 [7; 8] [] l w w l) as [H _].
  - reflexivity.
  - reflexivity.
  - reflexivity.
  - reflexivity.
  - reflexivity.
  - exact H.
Defined.
End Rights.
