(* ===== verification/LocalConnections.v ===== *)
(** * LocalConnections: how local sockets of LocalSocket.v become connected

    [socketpair], [pipe2], and the handshake of [bind], [listen], [connect] and
    [accept]; both end in the connected pairs of LocalSocketFacts.v. *)

From S2P Require Import Prelude Util FileStream FdMap VfsFds CircularBuffer SocketStream.
From S2P Require Import LocalSocket LocalSocketFacts.
Import Refs SocketUtil Channels ChannelProofs.

#[local] Open Scope Z_scope.

(** ** New sockets *)

(** The fields that the constructor gives. *)
Definition fresh_socket (pid uid : Z) (type : socket_type) (dir : StreamDir) (b : CircularBuffer) :
    LocalSocket :=
  mkLocalSocket type SOCKET_NEW dir [] 0 b None [] [] [] [] [] (mkUcred pid uid uid)
    no_peer_cred 0 SocketOptions.SocketStream_new.

Definition capacity_of (type : socket_type) (dir : StreamDir) : nat :=
  if bool_decide (type = SOCK_STREAM) && negb (bool_decide (dir = WRITE_ONLY)) then kBufferSize else 0%nat.

Lemma local_socket_new_spec fresh pid uid type dir :
  (∀ n, List.length (fresh n) = n) →
  ∃ b, LocalSocket_new fresh pid uid type dir = Done (fresh_socket pid uid type dir b) ∧
    holds b [] ∧ capacity_ b = capacity_of type dir.
Proof.
  intros Hf. unfold LocalSocket_new, capacity_of. destruct (_ && _).
  - destruct (set_capacity_spec fresh CircularBuffer_new [] kBufferSize Hf holds_new) as (b & Hb & Hcap & Hh).
    exists b. rewrite Hb. rewrite take_nil in Hh. done.
  - exists CircularBuffer_new. split; [done|]. split; [apply holds_new|done].
Qed.

(** The world with a new object. *)
Definition with_object (s : sid) (flags : Z) (l : LocalSocket) (w : Net) : Net :=
  ((w.1.1, mkStreams (<[s := new_stream flags true]> (objects w.1.2)) (calls w.1.2)),
   env_sockets (<[s := l]> (sockets w.2)) w.2).

Lemma new_socket_run fresh pid uid s flags type dir (w : Net) :
  (∀ n, List.length (fresh n) = n) → objects w.1.2 !! s = None →
  ∃ b, new_socket fresh pid uid s flags type dir w =
      Done (tt, with_object s flags (fresh_socket pid uid type dir b) w) ∧
    holds b [] ∧ capacity_ b = capacity_of type dir.
Proof.
  intros Hf Hs. destruct (local_socket_new_spec fresh pid uid type dir Hf) as (b & Hb & Hh).
  exists b. split; [|done]. unfold new_socket. rewrite (St_bind_run get _ w w w eq_refl).
  rewrite bool_decide_true by done. rewrite (St_bind_run (check true) _ w tt w eq_refl).
  unfold lift. unfold mbind at 1, St_bind at 1. rewrite Hb. done.
Qed.

Lemma set_peer_run (w : Net) s peer l p :
  sockets w.2 !! s = Some l → sockets w.2 !! peer = Some p →
  set_peer s peer w =
  Done (tt, put_socket s (with_peer (Some peer) (my_cred_ p) (with_state SOCKET_CONNECTED l)) w).
Proof.
  intros Hl Hp. unfold set_peer. run_with (socket_run w peer p Hp).
  by rewrite (update_run w s l _ Hl).
Qed.

(** ** Pairs *)

Section Pairs.
Context (extra : sid → Z) (allowed : sid → bool).
Context (fresh : nat → list ascii) (Hfresh : ∀ n, List.length (fresh n) = n) (pid uid : Z).

Definition two_ends (s1 s2 : sid) (e : side) : sid := match e with Left => s1 | Right => s2 end.

(** A pair with nothing on its way. *)
Definition new_pair (type : socket_type) (dir1 dir2 : StreamDir) (cred1 cred2 : ucred) : pair :=
  mkPair type (λ e, match e with Left => dir1 | Right => dir2 end)
    (λ e, match e with Left => cred1 | Right => cred2 end)
    (λ e, mkChannel (capacity_of type (match e with Left => dir1 | Right => dir2 end)) [] []).

(** The two sockets refer to each other. *)
Definition joined (type : socket_type) (l1 l2 : LocalSocket) (s1 s2 : sid) : Prop :=
  socket_type_ l1 = type ∧ connect_state_ l1 = SOCKET_CONNECTED ∧ peer_ l1 = Some s2 ∧
  peer_cred_ l1 = my_cred_ l2 ∧ holds (buffer_ l1) [] ∧
  capacity_ (buffer_ l1) = capacity_of type (stream_dir_ l1) ∧ queue_ l1 = [] ∧ cmsg_fd_queue_ l1 = [].

Lemma joined_represents (w : Net) s1 s2 l1 l2 type :
  s1 ≠ s2 → sockets w.2 !! s1 = Some l1 → sockets w.2 !! s2 = Some l2 →
  joined type l1 l2 s1 s2 → joined type l2 l1 s2 s1 →
  listeners_fine w.1.2 s1 → listeners_fine w.1.2 s2 →
  represents w (two_ends s1 s2)
    (new_pair type (stream_dir_ l1) (stream_dir_ l2) (my_cred_ l1) (my_cred_ l2)).
Proof.
  intros Hne H1 H2 J1 J2 F1 F2. split; [done|].
  intros [|]; eexists; (split; [eassumption|..]); cbn; unfold joined in *; naive_solver.
Qed.

Lemma connect_pair_run (w : Net) s1 s2 fd1 fd2 flags type dir1 dir2 :
  fds_ok extra allowed w.1 → in_range w.1.1 fd1 → in_range w.1.1 fd2 → fd1 ≠ fd2 →
  streams_ w.1.1 !! fd1 = Some None → streams_ w.1.1 !! fd2 = Some None →
  s1 ≠ s2 → objects w.1.2 !! s1 = None → objects w.1.2 !! s2 = None →
  ∃ w', connect_pair fresh pid uid s1 s2 fd1 fd2 flags type dir1 dir2 w = Done (Ok (fd1, fd2), w') ∧
    fds_ok extra allowed w'.1 ∧
    streams_ w'.1.1 = <[fd2 := Some s2]> (<[fd1 := Some s1]> (streams_ w.1.1)) ∧
    represents w' (two_ends s1 s2)
      (new_pair type dir1 dir2 (mkUcred pid uid uid) (mkUcred pid uid uid)).
Proof.
  intros Hw R1 R2 Hfd M1 M2 Hne O1 O2. unfold connect_pair.
  destruct (new_socket_run fresh pid uid s1 flags type dir1 w Hfresh O1) as (b1 & N1 & B1 & C1).
  run_with N1. set (w1 := with_object _ _ _ w).
  assert (objects w1.1.2 !! s2 = None) as O2' by (cbn; by rewrite lookup_insert_ne).
  destruct (new_socket_run fresh pid uid s2 flags type dir2 w1 Hfresh O2') as (b2 & N2 & B2 & C2).
  run_with N2. set (w2 := with_object _ _ _ w1).
  set (l1 := fresh_socket pid uid type dir1 b1) in *. set (l2 := fresh_socket pid uid type dir2 b2) in *.
  assert (sockets w2.2 !! s1 = Some l1) as L1.
  { cbn. rewrite lookup_insert_ne by done. apply lookup_insert_eq. }
  assert (sockets w2.2 !! s2 = Some l2) as L2 by apply lookup_insert_eq.
  run_with (set_peer_run w2 s1 s2 l1 l2 L1 L2). set (w3 := put_socket s1 _ w2).
  set (l1' := with_peer _ _ _) in w3.
  assert (sockets w3.2 !! s1 = Some l1') as L1' by apply lookup_insert_eq.
  assert (sockets w3.2 !! s2 = Some l2) as L2'.
  { unfold w3, put_socket. cbn [snd env_sockets sockets]. by rewrite lookup_insert_ne. }
  run_with (set_peer_run w3 s2 s1 l2 l1' L2' L1'). set (w4 := put_socket s2 _ w3).
  set (l2' := with_peer _ _ _) in w4.
  assert (fds_ok extra allowed w4.1) as Hw4.
  { pose proof (fds_ok_new_object extra allowed w.1.1 w.1.2 s1 flags true) as H1.
    pose proof (fds_ok_new_object extra allowed w1.1.1 w1.1.2 s2 flags true) as H2.
    apply H2; [|done]. apply H1; [|done]. by destruct w as [[t o] e]. }
  assert (objects w4.1.2 !! s1 = Some (new_stream flags true)) as Q1.
  { cbn. rewrite lookup_insert_ne by done. apply lookup_insert_eq. }
  assert (objects w4.1.2 !! s2 = Some (new_stream flags true)) as Q2 by apply lookup_insert_eq.
  destruct (add_run extra allowed w4.1 fd1 s1 Hw4 R1) as (t5 & A5 & Hw5 & R5 & M5);
    [by right|by eapply new_stream_open|].
  run_with (on_fds_run _ w4 _ _ A5). destruct (add_file_stream_run _ _ _ _ A5) as (f1 & F1 & S5).
  rewrite Q1 in F1. injection F1 as <-.
  assert (objects t5.2 !! s2 = Some (new_stream flags true)) as Q2'
    by (rewrite S5; cbn; by rewrite !lookup_insert_ne, lookup_insert_eq by done).
  destruct (add_run extra allowed t5 fd2 s2 Hw5) as (t6 & A6 & Hw6 & R6 & M6).
  { by apply R5. } { right. rewrite M5. by rewrite lookup_insert_ne. } { by eapply new_stream_open. }
  run_with (on_fds_run _ (t5, w4.2) _ _ A6). destruct (add_file_stream_run _ _ _ _ A6) as (f2 & F2 & S6).
  rewrite Q2' in F2. injection F2 as <-.
  eexists. split; [done|]. split; [done|]. split; [cbn [fst]; by rewrite M6, M5|].
  apply (joined_represents _ s1 s2 l1' l2' type); cbn [fst snd]; try done.
  - cbn. rewrite lookup_insert_ne by done. apply lookup_insert_eq.
  - apply lookup_insert_eq.
  - rewrite S6, S5. eexists. cbn. rewrite lookup_insert_ne, lookup_insert_eq by done.
    split; [done|]. split; [done|]. intros x Hx. by apply elem_of_empty in Hx.
  - rewrite S6. eexists. cbn. rewrite lookup_insert_eq.
    split; [done|]. split; [done|]. intros x Hx. by apply elem_of_empty in Hx.
Qed.

(** What a call that makes a pair of sockets must do. *)
Definition pair_made (w : Net) (s1 s2 : sid) (p : pair) (r : res (Z * Z)) (w' : Net) : Prop :=
  fds_ok extra allowed w'.1 ∧
  match r with
  | Ok (fd1, fd2) =>
      first_unused w.1.1 fd1 ∧ in_range w.1.1 fd1 ∧ in_range w.1.1 fd2 ∧
      streams_ w.1.1 !! fd2 = None ∧ fd1 < fd2 ∧
      (∀ x, in_range w.1.1 x → streams_ w.1.1 !! x = None → x ≠ fd1 → fd2 <= x) ∧
      streams_ w'.1.1 = <[fd2 := Some s2]> (<[fd1 := Some s1]> (streams_ w.1.1)) ∧
      represents w' (two_ends s1 s2) p
  | Err e =>
      e = EMFILE ∧ streams_ w'.1.1 = streams_ w.1.1 ∧ sockets w'.2 = sockets w.2 ∧
      ∃ fd, ∀ x, in_range w.1.1 x → x ≠ fd → is_Some (streams_ w.1.1 !! x)
  end.

Lemma two_descriptors_run (w : Net) s1 s2 flags type dir1 dir2 :
  fds_ok extra allowed w.1 → s1 ≠ s2 → objects w.1.2 !! s1 = None → objects w.1.2 !! s2 = None →
  ∃ r w', two_descriptors (λ fd1 fd2, connect_pair fresh pid uid s1 s2 fd1 fd2 flags type dir1 dir2) w =
      Done (r, w') ∧
    pair_made w s1 s2 (new_pair type dir1 dir2 (mkUcred pid uid uid) (mkUcred pid uid uid)) r w'.
Proof.
  intros Hw Hne O1 O2. unfold two_descriptors, GetFirstUnusedDescriptorLocked.
  destruct (first_unused_run extra allowed w.1 Hw) as (fd1 & t1 & G1 & F1 & Hw1 & R1 & M1).
  run_with (on_fds_run _ w _ _ G1). pose proof (first_unused_streams _ _ _ G1) as S1.
  destruct (decide (fd1 = -1)) as [->|Hn1].
  { exists (Err EMFILE), (t1, w.2). split; [done|]. split; [done|]. split; [done|]. split; [done|].
    split; [done|]. exists 0. intros x Hx _.
    destruct F1 as [[_ F1]|[[Hr _] _]]; [by apply F1|].
    pose proof (ok_min _ (fo_table _ _ _ Hw)). lia. }
  destruct F1 as [[? _]|(I1 & N1 & Low1)]; [done|].
  pose proof (table_range_nonneg extra allowed _ _ Hw I1). rewrite (proj2 (Z.ltb_ge fd1 0)) by lia.
  rewrite (proj2 (Z.eqb_neq fd1 (-1))) in M1 by done. cbv iota in M1.
  destruct (first_unused_run extra allowed t1 Hw1) as (fd2 & t2 & G2 & F2 & Hw2 & R2 & M2).
  run_with (on_fds_run _ (t1, w.2) _ _ G2). pose proof (first_unused_streams _ _ _ G2) as S2.
  cbn [fst snd] in *.
  destruct (decide (fd2 = -1)) as [->|Hn2].
  1: change (-1 =? -1) with true in M2; cbv iota in M2.
  - destruct (remove_file_stream_step extra t2 fd1) as (t3 & G3 & Hs3); [apply Hw2|apply Hw2| |].
    { rewrite M2, M1, lookup_insert_eq. eauto. }
    change (-1 <? 0) with true. cbv iota. run_with (on_fds_run _ (t2, w.2) _ _ G3). exists (Err EMFILE), (t3, w.2). split; [done|].
    split; [by eapply step_fds_ok|]. split; [done|]. split.
    { cbn [fst]. rewrite (so_map _ _ _ _ Hs3), M2. by rewrite M1, delete_insert_id. }
    split; [done|]. exists fd1. intros x Hx Hxne.
    destruct F2 as [[_ F2]|[[Hr _] _]].
    + apply R1 in Hx. apply F2 in Hx. rewrite M1, lookup_insert_ne in Hx by done. done.
    + pose proof (ok_min _ (fo_table _ _ _ Hw1)). lia.
  - destruct F2 as [[? _]|(I2 & N2 & Low2)]; [done|]. apply R1 in I2 as I2'.
    pose proof (table_range_nonneg extra allowed _ _ Hw1 I2). rewrite (proj2 (Z.ltb_ge fd2 0)) by lia.
    rewrite (proj2 (Z.eqb_neq fd2 (-1))) in M2 by done. cbv iota in M2.
    assert (fd1 ≠ fd2) as Hfd by (intros <-; by rewrite M1, lookup_insert_eq in N2).
    assert (streams_ w.1.1 !! fd2 = None) as N2' by (by rewrite M1, lookup_insert_ne in N2).
    destruct (connect_pair_run (t2, w.2) s1 s2 fd1 fd2 flags type dir1 dir2) as (w' & Hrun & Hw' & M' & Hp);
      cbn [fst snd]; try done.
    + by apply R2, R1.
    + by apply R2.
    + by rewrite M2, M1, lookup_insert_ne, lookup_insert_eq by done.
    + by rewrite M2, lookup_insert_eq.
    + by rewrite S2, S1.
    + by rewrite S2, S1.
    + exists (Ok (fd1, fd2)), w'. split; [done|]. split; [done|]. split; [by right|]. split_and!; try done.
      * specialize (Low1 fd2 I2' N2'). lia.
      * intros x Hx Hxn Hxne. apply Low2; [by apply R1|]. by rewrite M1, lookup_insert_ne.
      * rewrite M'. cbn [fst]. rewrite M2, M1. apply map_eq. intros x.
        rewrite !lookup_insert. repeat case_decide; congruence.
Qed.
End Pairs.

Module PairProperties.
(** The arguments that [socketpair] refuses. *)
Definition check_socketpair (family : Z) (type : option socket_type) (protocol : Z) (sv_null : bool) :
    res socket_type :=
  if negb (family =? AF_UNIX) then Err EAFNOSUPPORT
  else if negb (protocol =? 0) then Err EOPNOTSUPP
  else match type with
       | None => Err EOPNOTSUPP
       | Some t => if sv_null then Err EFAULT else Ok t
       end.

(** C33.  [socketpair] and [pipe2].  The arguments that are refused change nothing.
    Otherwise the two lowest free descriptors become the ends of a new connected
    pair without data, both ends of the asked type (a pipe: the first reads, the
    second writes), the rest of the table as it was; or, with fewer than two free
    descriptors, the call is EMFILE and every descriptor is as before. *)
Theorem pair_creation extra allowed fresh pid uid (w : Net) s1 s2 flags family
    (type : option socket_type) protocol sv_null :
  (∀ n, List.length (fresh n) = n) → fds_ok extra allowed w.1 → s1 ≠ s2 →
  objects w.1.2 !! s1 = None → objects w.1.2 !! s2 = None →
  let cred := mkUcred pid uid uid in
  (∃ r w', pipe2 fresh pid uid s1 s2 flags w = Done (r, w') ∧
     pair_made extra allowed w s1 s2 (new_pair SOCK_STREAM READ_ONLY WRITE_ONLY cred cred) r w') ∧
  match check_socketpair family type protocol sv_null with
  | Err e => socketpair fresh pid uid s1 s2 family type protocol sv_null w = Done (Err e, w)
  | Ok t =>
      ∃ r w', socketpair fresh pid uid s1 s2 family type protocol sv_null w = Done (r, w') ∧
        pair_made extra allowed w s1 s2 (new_pair t READ_WRITE READ_WRITE cred cred) r w'
  end.
Proof.
  intros Hf Hw Hne O1 O2 cred. split; [by apply two_descriptors_run|]. unfold socketpair, check_socketpair.
  destruct (negb _); [done|]. destruct (negb _); [done|]. destruct type as [t|]; [|done].
  destruct sv_null; [done|]. by apply two_descriptors_run.
Qed.

Lemma pair_creation_witness :
  ∃ w', pipe2 (λ n, repeat "?"%char n) 1 2 8 9 0
      (witness_world, mkLocalEnv ∅ (AbstractSocketNamespace.mkAbstract ∅ 1) ∅ 0) = Done (Ok (2, 3), w') ∧
    represents w' (two_ends 8 9) (new_pair SOCK_STREAM READ_ONLY WRITE_ONLY (mkUcred 1 2 2) (mkUcred 1 2 2)).
Proof.
  destruct (pair_creation no_extra (λ _, true) (λ n, repeat "?"%char n) 1 2
    (witness_world, mkLocalEnv ∅ (AbstractSocketNamespace.mkAbstract ∅ 1) ∅ 0) 8 9 0 0 None 0 true)
    as ((r & w' & Hrun & _ & Hr) & _).
  - apply repeat_length.
  - exact DescriptorProperties.witness_fds_ok.
  - done.
  - reflexivity.
  - reflexivity.
  - destruct r as [e|[fd1 fd2]].
    + destruct Hr as (_ & _ & _ & fd & Hfull).
      destruct (decide (fd = 2)) as [->|H2].
      * destruct (Hfull 3) as [x Hx]; [split; vm_compute; discriminate|done|]. vm_compute in Hx. discriminate.
      * destruct (Hfull 2) as [x Hx]; [split; vm_compute; discriminate|done|]. vm_compute in Hx. discriminate.
    + destruct Hr as (Hlow & _ & _ & H2 & Hlt & Hmin & _ & Hrep).
      assert (fd1 = 2) as ->.
      { destruct Hlow as [[-> Hall]|([Ha Hb] & Hn & Hl)].
        - destruct (Hall 2) as [x Hx]; [split; vm_compute; discriminate|]. vm_compute in Hx. discriminate.
        - vm_compute in Ha, Hb. assert (fd1 <= 2) by (apply Hl; [split; vm_compute; discriminate|reflexivity]).
          assert (fd1 ≠ 0) by (intros ->; vm_compute in Hn; discriminate).
          assert (fd1 ≠ 1) by (intros ->; vm_compute in Hn; discriminate).
          assert (0 <= fd1) by (destruct fd1; [lia|lia|by destruct Ha]). lia. }
      assert (fd2 = 3) as ->.
      { assert (fd2 <= 3) by (apply Hmin; [split; vm_compute; discriminate|reflexivity|done]). lia. }
      exists w'. split; [exact Hrun|exact Hrep].
Defined.
End PairProperties.
