(* ===== verification/UdpSocket.v ===== *)
(** * UdpSocket: [udp_socket.{h,cc}] (under src/posix_translation/)

    A datagram socket over Pepper.  Threads call it under the mutex of the file
    system; the calls of Pepper that move datagrams are made on the main thread,
    by tasks that the socket posts there, and complete there later.  The state is
    therefore a [World]: the socket, the closed flag of its wrapper, the posted
    tasks that have not run, the calls of Pepper that have not completed, and what
    the socket did to the outside.  A call that waits is paused: [resume] goes on
    with it when the wait ends. *)

From S2P Require Import Prelude Util MountPoints FileStream FdMap VfsFds SocketStream.
Import SocketUtil SocketOptions.

#[local] Open Scope Z_scope.

(** ** Pepper's error numbers *)

Definition PP_OK : Z := 0.
Definition PP_OK_COMPLETIONPENDING : Z := -1.
Definition PP_ERROR_ADDRESS_IN_USE : Z := -109.

(** ** The state *)

Inductive State : Type := UDP_SOCKET_NEW | UDP_SOCKET_BINDING | UDP_SOCKET_BOUND.

#[export] Instance State_eq_dec : EqDecision State.
Proof. solve_decision. Defined.

Record Message : Type := mkMessage { addr : sockaddr_storage; data : str }.

Record UDPSocket : Type := mkUDPSocket {
  socket_family_ : Z;
  oflag : Z;
  options : SocketStream;
  state_ : State;
  in_queue_ : list Message;
  out_queue_ : list Message;
  read_sent_ : bool;
  write_sent_ : bool;
  connected_addr_ : sockaddr_storage;
}.

(** Callbacks made by [factory_] and given to [CallOnMainThread]. *)
Inductive task : Type := TaskRead | TaskWrite | TaskClose.

#[export] Instance task_eq_dec : EqDecision task.
Proof. solve_decision. Defined.

Inductive effect : Type :=
| Broadcast                                   (* wakes the threads that wait *)
| NotifyListeners
| SetOption (name : sockopt) (value : bool)   (* [pp::UDPSocket::SetOption] *)
| PepperSendTo (address : NetAddress) (data : str)   (* [pp::UDPSocket::SendTo] *)
| PepperClose.                                  (* [pp::UDPSocket::Close] *)

Record World : Type := mkWorld {
  sock : UDPSocket;
  closed_ : bool;                       (* of the [SocketWrapper] *)
  tasks : list task;
  receiving : nat;                      (* [RecvFrom] calls that have not completed *)
  sending : nat;                        (* [SendTo] calls that have not completed *)
  effects : list effect;
}.

Definition kQueueSize : nat := 16.
Definition kBufSize : Z := 64 * 1024.

Definition unconnected : sockaddr_storage := sockaddr_other AF_UNSPEC.

(** The constructor. *)
Definition UDPSocket_new (socket_family oflag : Z) : outcome World :=
  require ((socket_family =? AF_INET) || (socket_family =? AF_INET6)) ≫= λ _,
  mret {| sock := {| socket_family_ := socket_family; oflag := oflag;
                     options := SocketStream_new; state_ := UDP_SOCKET_NEW;
                     in_queue_ := []; out_queue_ := [];
                     read_sent_ := false; write_sent_ := false;
                     connected_addr_ := unconnected |};
          closed_ := false; tasks := []; receiving := 0; sending := 0; effects := [] |}.

Definition set_sock (f : UDPSocket → UDPSocket) (w : World) : World :=
  {| sock := f (sock w); closed_ := closed_ w; tasks := tasks w; receiving := receiving w;
     sending := sending w; effects := effects w |}.
Definition set_tasks (t : list task) (w : World) : World :=
  {| sock := sock w; closed_ := closed_ w; tasks := t; receiving := receiving w;
     sending := sending w; effects := effects w |}.
Definition set_receiving (n : nat) (w : World) : World :=
  {| sock := sock w; closed_ := closed_ w; tasks := tasks w; receiving := n;
     sending := sending w; effects := effects w |}.
Definition set_sending (l : nat) (w : World) : World :=
  {| sock := sock w; closed_ := closed_ w; tasks := tasks w; receiving := receiving w;
     sending := l; effects := effects w |}.
Definition set_closed (w : World) : World :=
  {| sock := sock w; closed_ := true; tasks := tasks w; receiving := receiving w;
     sending := sending w; effects := effects w |}.
Definition add_effect (e : effect) (w : World) : World :=
  {| sock := sock w; closed_ := closed_ w; tasks := tasks w; receiving := receiving w;
     sending := sending w; effects := effects w ++ [e] |}.

Definition set_state (x : State) (u : UDPSocket) : UDPSocket :=
  {| socket_family_ := socket_family_ u; oflag := oflag u; options := options u; state_ := x;
     in_queue_ := in_queue_ u; out_queue_ := out_queue_ u; read_sent_ := read_sent_ u;
     write_sent_ := write_sent_ u; connected_addr_ := connected_addr_ u |}.
Definition set_in_queue (q : list Message) (u : UDPSocket) : UDPSocket :=
  {| socket_family_ := socket_family_ u; oflag := oflag u; options := options u;
     state_ := state_ u; in_queue_ := q; out_queue_ := out_queue_ u; read_sent_ := read_sent_ u;
     write_sent_ := write_sent_ u; connected_addr_ := connected_addr_ u |}.
Definition set_out_queue (q : list Message) (u : UDPSocket) : UDPSocket :=
  {| socket_family_ := socket_family_ u; oflag := oflag u; options := options u;
     state_ := state_ u; in_queue_ := in_queue_ u; out_queue_ := q; read_sent_ := read_sent_ u;
     write_sent_ := write_sent_ u; connected_addr_ := connected_addr_ u |}.
Definition set_read_sent (b : bool) (u : UDPSocket) : UDPSocket :=
  {| socket_family_ := socket_family_ u; oflag := oflag u; options := options u;
     state_ := state_ u; in_queue_ := in_queue_ u; out_queue_ := out_queue_ u; read_sent_ := b;
     write_sent_ := write_sent_ u; connected_addr_ := connected_addr_ u |}.
Definition set_write_sent (b : bool) (u : UDPSocket) : UDPSocket :=
  {| socket_family_ := socket_family_ u; oflag := oflag u; options := options u;
     state_ := state_ u; in_queue_ := in_queue_ u; out_queue_ := out_queue_ u;
     read_sent_ := read_sent_ u; write_sent_ := b; connected_addr_ := connected_addr_ u |}.
Definition set_connected_addr (a : sockaddr_storage) (u : UDPSocket) : UDPSocket :=
  {| socket_family_ := socket_family_ u; oflag := oflag u; options := options u;
     state_ := state_ u; in_queue_ := in_queue_ u; out_queue_ := out_queue_ u;
     read_sent_ := read_sent_ u; write_sent_ := write_sent_ u; connected_addr_ := a |}.
Definition set_options (o : SocketStream) (u : UDPSocket) : UDPSocket :=
  {| socket_family_ := socket_family_ u; oflag := oflag u; options := o;
     state_ := state_ u; in_queue_ := in_queue_ u; out_queue_ := out_queue_ u;
     read_sent_ := read_sent_ u; write_sent_ := write_sent_ u;
     connected_addr_ := connected_addr_ u |}.
Definition set_oflag (f : Z) (u : UDPSocket) : UDPSocket :=
  {| socket_family_ := socket_family_ u; oflag := f; options := options u;
     state_ := state_ u; in_queue_ := in_queue_ u; out_queue_ := out_queue_ u;
     read_sent_ := read_sent_ u; write_sent_ := write_sent_ u;
     connected_addr_ := connected_addr_ u |}.

Definition this {A} (f : UDPSocket → A) : St World A := gets (λ w, f (sock w)).
Definition update (f : UDPSocket → UDPSocket) : St World unit := modify (set_sock f).
Definition effect_ (e : effect) : St World unit := modify (add_effect e).

Definition is_block (u : UDPSocket) : bool := Z.land (oflag u) O_NONBLOCK =? 0.

Definition is_connected (u : UDPSocket) : bool := negb (ss_family (connected_addr_ u) =? AF_UNSPEC).

(** [CallOnMainThread(0, ...)]. *)
Definition CallOnMainThread (t : task) : St World unit :=
  modify (λ w, set_tasks (tasks w ++ [t]) w).

(** ** Work on the main thread *)

Section Pepper.
(** What Pepper's [RecvFrom] and [SendTo] return at once. *)
Context (RecvFrom SendTo : World → Z).

Definition ReadLocked : St World unit :=
  w ← get;
  let result := RecvFrom w in
  modify (λ w, set_receiving (S (receiving w)) w);;
  check (result =? PP_OK_COMPLETIONPENDING).

Definition PostReadTaskLocked (IsMainThread : bool) : St World unit :=
  u ← this id;
  if read_sent_ u || (kQueueSize <=? List.length (in_queue_ u))%nat then mret tt
  else
    update (set_read_sent true);;
    if negb IsMainThread then CallOnMainThread TaskRead else ReadLocked.

Definition WriteLocked : St World unit :=
  queue ← this out_queue_;
  match queue with
  | [] => fatal
  | message :: _ =>
      address ← lift (SockAddrToNetAddress (addr message));
      w ← get;
      let result := SendTo w in
      effect_ (PepperSendTo address (data message));;
      modify (λ w, set_sending (S (sending w)) w);;
      check (result =? PP_OK_COMPLETIONPENDING)
  end.

Definition PostWriteTaskLocked (IsMainThread : bool) : St World unit :=
  u ← this id;
  if write_sent_ u || bool_decide (out_queue_ u = []) then mret tt
  else
    update (set_write_sent true);;
    if negb IsMainThread then CallOnMainThread TaskWrite else WriteLocked.

Definition Read : St World unit := ReadLocked.
Definition Write : St World unit := WriteLocked.

(** Pepper has run a [RecvFrom] call: [read_buf] is the memory of [read_buf_],
    [uninitialized] that of [src_addr]. *)
Definition OnRead (result : Z) (read_buf : str) (address : NetAddress)
    (uninitialized : sockaddr_storage) : St World unit :=
  update (set_read_sent false);;
  if result <? 0 then mret tt
  else
    converted ← lift (NetAddressToSockAddrStorage address AF_UNSPEC false);
    let src_addr := default uninitialized converted in
    u ← this id;
    if is_connected u && negb (SocketAddressEqual (connected_addr_ u) src_addr)
    then PostReadTaskLocked true
    else
      update (λ u, set_in_queue (in_queue_ u ++
                     [{| addr := src_addr; data := take (Z.to_nat result) read_buf |}]) u);;
      PostReadTaskLocked true;;
      effect_ Broadcast;;
      effect_ NotifyListeners.

Definition OnWrite (result : Z) : St World unit :=
  update (set_write_sent false);;
  queue ← this out_queue_;
  match queue with
  | [] => fatal
  | front :: rest =>
      (if result <? 0 then mret tt else check (result =? Z.of_nat (List.length (data front))));;
      update (set_out_queue rest);;
      effect_ Broadcast;;
      effect_ NotifyListeners;;
      PostWriteTaskLocked true
  end.

(** [factory_.CancelAll] takes back the posted tasks and the callbacks of the
    calls that have not completed. *)
Definition CancelAll : St World unit :=
  modify (λ w, set_sending 0 (set_receiving 0 (set_tasks [] w))).

(** [SocketWrapper::Close]. *)
Definition wrapper_Close : St World unit :=
  w ← get;
  if (closed_ w : bool) then mret tt
  else modify set_closed;; effect_ PepperClose.

Definition Close : St World unit :=
  CancelAll;;
  wrapper_Close;;
  effect_ NotifyListeners;;
  effect_ Broadcast.

(** ** System calls *)

Inductive value : Type :=
| Int (n : Z)
| Received (message : str) (name : option (sockaddr_storage * Z * Z)).

(** What a thread that waits keeps. *)
Inductive pause : Type :=
| InBind (address : NetAddress)
| InSendToBind (address : NetAddress) (buf : str) (dest_addr : option sockaddr_storage)
| InSendTo (len : nat)
| InRecvFrom (len : nat) (peek addr_null : bool) (addrlen : option Z)
| InClose.

Inductive progress : Type := Returned (r : res value) | Paused (p : pause).

Definition fail (e : errno) : progress := Returned (Err e).
Definition ret (n : Z) : progress := Returned (Ok (Int n)).

(** [bind] up to Pepper's blocking [Bind], which is left with the address. *)
Definition bind_begin (saddr : option sockaddr_storage) (addrlen : Z) :
    St World (res NetAddress) :=
  u ← this id;
  error ← lift (VerifyInputSocketAddress saddr addrlen (socket_family_ u));
  match error, saddr with
  | Some e, _ => mret (Err e)
  | None, None => fatal
  | None, Some saddr =>
      if negb (bool_decide (state_ u = UDP_SOCKET_NEW)) then mret (Err EISCONN)
      else
        address ← lift (SockAddrToNetAddress saddr);
        update (set_state UDP_SOCKET_BINDING);;
        mret (Ok address)
  end.

(** [bind] after it. *)
Definition bind_end (IsMainThread : bool) (result : Z) : St World (res unit) :=
  w ← get;
  if (closed_ w : bool) then mret (Err EBADF)
  else if negb (result =? PP_OK) then
    update (set_state UDP_SOCKET_NEW);;
    mret (Err (if result =? PP_ERROR_ADDRESS_IN_USE then EADDRINUSE else EACCES))
  else
    effect_ Broadcast;;
    effect_ NotifyListeners;;
    update (set_state UDP_SOCKET_BOUND);;
    PostReadTaskLocked IsMainThread;;
    mret (Ok tt).

Definition bind (saddr : option sockaddr_storage) (addrlen : Z) : St World progress :=
  r ← bind_begin saddr addrlen;
  match r with
  | Err e => mret (fail e)
  | Ok address => mret (Paused (InBind address))
  end.

Definition kUnspecMinAddrLen : Z := 2.

Definition connect (saddr : option sockaddr_storage) (addrlen : Z) : St World progress :=
  u ← this id;
  error ← lift (VerifyInputSocketAddress saddr addrlen (socket_family_ u));
  match error, saddr with
  | Some e, None => mret (fail e)
  | Some e, Some a =>
      if (addrlen <? kUnspecMinAddrLen) || negb (ss_family a =? AF_UNSPEC) then mret (fail e)
      else update (set_connected_addr unconnected);; mret (ret 0)
  | None, Some a => update (set_connected_addr a);; mret (ret 0)
  | None, None => fatal
  end.

Definition SetSocketBooleanOptionInternal (name : sockopt) (optval : option (list Z)) (optlen : Z)
    (storage : UDPSocket → Z) : St World progress :=
  match VerifySetSocketOption (bool_decide (optval = None)) optlen 4, optval with
  | Some e, _ => mret (fail e)
  | None, None => fatal
  | None, Some words =>
      let new_value := List.hd 0 words in
      old ← this storage;
      (if negb (Bool.eqb (negb (new_value =? 0)) (negb (old =? 0)))
       then effect_ (SetOption name (negb (new_value =? 0))) else mret tt);;
      update (λ u, set_options (set_storage name [new_value] (options u)) u);;
      mret (ret 0)
  end.

Definition setsockopt (name : sockopt) (optval : option (list Z)) (optlen : Z) :
    St World progress :=
  match name with
  | SO_REUSEADDR =>
      SetSocketBooleanOptionInternal name optval optlen (λ u, reuse_addr_ (options u))
  | SO_BROADCAST =>
      SetSocketBooleanOptionInternal name optval optlen (λ u, broadcast_ (options u))
  | _ =>
      u ← this id;
      let '(r, o) := SocketOptions.setsockopt name optval optlen (options u) in
      update (set_options o);;
      mret (match r with Err e => fail e | Ok _ => ret 0 end)
  end.

(** The address, how many bytes of it are copied, and the new [*namelen]. *)
Definition name_of (a : sockaddr_storage) (name_null : bool) (namelen : Z) :
    outcome (sockaddr_storage * Z * Z) :=
  '(copied, len) ← CopySocketAddress a name_null namelen; mret (a, copied, len).

Definition getpeername (name_null : bool) (namelen : option Z) :
    St World (res (sockaddr_storage * Z * Z)) :=
  match VerifyOutputSocketAddress name_null namelen, namelen with
  | Some e, _ => mret (Err e)
  | None, None => fatal
  | None, Some len =>
      u ← this id;
      if negb (is_connected u) then mret (Err ENOTCONN)
      else r ← lift (name_of (connected_addr_ u) name_null len); mret (Ok r)
  end.

(** The address of a family with no host and port. *)
Definition any_address (family : Z) : sockaddr_storage :=
  if family =? AF_INET then sockaddr_in 0 (repeat 0 4)
  else if family =? AF_INET6 then sockaddr_in6 0 (repeat 0 16)
  else sockaddr_other family.

(** [bound] is Pepper's [GetBoundAddress]. *)
Definition getsockname (bound : NetAddress) (name_null : bool) (namelen : option Z) :
    St World (res (sockaddr_storage * Z * Z)) :=
  match VerifyOutputSocketAddress name_null namelen, namelen with
  | Some e, _ => mret (Err e)
  | None, None => fatal
  | None, Some len =>
      u ← this id;
      converted ← lift (NetAddressToSockAddrStorage bound AF_UNSPEC false);
      r ← lift (name_of (default (any_address (socket_family_ u)) converted) name_null len);
      mret (Ok r)
  end.

(** [65535 - sizeof(udphdr) - sizeof(iphdr)] and [65535 - sizeof(udphdr)]. *)
Definition kMaxUDPPacketSize (socket_family : Z) : Z :=
  if socket_family =? AF_INET then 65535 - 8 - 20 else 65535 - 8.

(** [sendto] from where the socket is known not to be new.  A [dest_addr] that the
    caller did not give points to [connected_addr_], which is read here. *)
Definition sendto_queue (IsMainThread : bool) (buf : str) (dest_addr : option sockaddr_storage) :
    St World progress :=
  u ← this id;
  let dest_addr := default (connected_addr_ u) dest_addr in
  if kMaxUDPPacketSize (socket_family_ u) <? Z.of_nat (List.length buf) then mret (fail EMSGSIZE)
  else
    update (λ u, set_out_queue (out_queue_ u ++ [{| addr := dest_addr; data := buf |}]) u);;
    PostWriteTaskLocked IsMainThread;;
    u ← this id;
    if is_block u && negb (bool_decide (out_queue_ u = []))
    then mret (Paused (InSendTo (List.length buf)))
    else mret (ret (Z.of_nat (List.length buf))).

(** [dest_addr] is [None] for NULL. *)
Definition sendto (IsMainThread : bool) (buf : str) (dest_addr : option sockaddr_storage)
    (addrlen : Z) : St World progress :=
  u ← this id;
  if bool_decide (dest_addr = None) && negb (is_connected u) then mret (fail EDESTADDRREQ)
  else
    let '(dest, addrlen) :=
      match dest_addr with
      | Some a => (a, addrlen)
      | None => (connected_addr_ u, sizeof_sockaddr_storage)
      end in
    error ← lift (VerifyInputSocketAddress (Some dest) addrlen (socket_family_ u));
    match error with
    | Some e => mret (fail e)
    | None =>
        if bool_decide (state_ u = UDP_SOCKET_NEW) then
          r ← bind_begin (Some (any_address (socket_family_ u))) sizeof_sockaddr_storage;
          match r with
          | Err e => mret (fail e)
          | Ok address => mret (Paused (InSendToBind address buf dest_addr))
          end
        else sendto_queue IsMainThread buf dest_addr
    end.

Definition send (IsMainThread : bool) (buf : str) : St World progress :=
  sendto IsMainThread buf None 0.

Definition write (IsMainThread : bool) (buf : str) : St World progress := send IsMainThread buf.

(** [recvfrom] after its wait. *)
Definition recvfrom_end (IsMainThread : bool) (len : nat) (peek addr_null : bool)
    (addrlen : option Z) : St World progress :=
  queue ← this in_queue_;
  match queue with
  | [] => mret (fail EAGAIN)
  | message :: rest =>
      name ← match addrlen with
             | Some l =>
                 if (addr_null : bool) then mret None
                 else r ← lift (name_of (addr message) false l); mret (Some r)
             | None => mret None
             end;
      let len := Nat.min len (List.length (data message)) in
      (if (peek : bool) then mret tt else update (set_in_queue rest));;
      PostReadTaskLocked IsMainThread;;
      mret (Returned (Ok (Received (take len (data message)) name)))
  end.

Definition recvfrom (IsMainThread : bool) (len : nat) (peek addr_null : bool)
    (addrlen : option Z) : St World progress :=
  u ← this id;
  if is_block u && bool_decide (in_queue_ u = [])
  then mret (Paused (InRecvFrom len peek addr_null addrlen))
  else recvfrom_end IsMainThread len peek addr_null addrlen.

Definition recv (IsMainThread : bool) (len : nat) (peek : bool) : St World progress :=
  u ← this id;
  if negb (is_connected u) then mret (fail ENOTCONN)
  else recvfrom IsMainThread len peek true None.

Definition read (IsMainThread : bool) (count : nat) : St World progress :=
  recv IsMainThread count false.

Definition IsSelectReadReady (w : World) : bool :=
  closed_ w || negb (bool_decide (in_queue_ (sock w) = [])).
Definition IsSelectWriteReady (w : World) : bool := true.
Definition IsSelectExceptionReady (w : World) : bool := closed_ w.

Definition GetPollEvents (w : World) : Z :=
  Z.lor (if IsSelectReadReady w then POLLIN else 0)
        (Z.lor (if IsSelectWriteReady w then POLLOUT else 0)
               (if IsSelectExceptionReady w then POLLERR else 0)).

(** [CloseLocked] posts the task and waits for it. *)
Definition CloseLocked : St World progress :=
  CallOnMainThread TaskClose;; mret (Paused InClose).

Definition OnLastFileRef : St World progress :=
  w ← get; check (negb (closed_ w));; CloseLocked.

(** [ioctl(FIONBIO)]. *)
Definition ioctl (val : Z) : St World progress :=
  update (λ u, set_oflag (ioctl_FIONBIO val (oflag u)) u);; mret (ret 0).

(** A wait of a paused thread has ended: a [Broadcast], or, for [bind], the end of
    Pepper's call with [result].  [is_timedout] is the answer of [WaitUntil]. *)
Definition resume (IsMainThread : bool) (result : Z) (is_timedout : bool) (p : pause) :
    St World progress :=
  w ← get;
  match p with
  | InBind _ =>
      r ← bind_end IsMainThread result;
      mret (match r with Err e => fail e | Ok _ => ret 0 end)
  | InSendToBind _ buf dest =>
      r ← bind_end IsMainThread result;
      match r with
      | Err e => mret (fail e)
      | Ok _ => sendto_queue IsMainThread buf dest
      end
  | InSendTo len =>
      if (closed_ w : bool) then mret (fail EBADF)
      else if bool_decide (out_queue_ (sock w) = []) then mret (ret (Z.of_nat len))
      else mret (Paused p)
  | InRecvFrom len peek addr_null addrlen =>
      if (closed_ w : bool) then mret (fail EBADF)
      else if negb is_timedout && bool_decide (in_queue_ (sock w) = []) then mret (Paused p)
      else recvfrom_end IsMainThread len peek addr_null addrlen
  | InClose => if (closed_ w : bool) then mret (ret 0) else mret (Paused p)
  end.

Definition GetStreamType : str := "udp".
End Pepper.
