(* ===== verification/UdpProperties.v ===== *)
(** * UdpProperties: runs of a datagram socket and what holds in them

    Threads make and resume calls, the main thread runs posted tasks, and Pepper
    completes its calls, in any order.  A [History] keeps what went through the
    socket; the invariant relates the queues to it. *)

From S2P Require Import Prelude Util MountPoints FileStream FdMap VfsFds SocketStream UdpSocket.
Import SocketUtil SocketOptions.

#[local] Open Scope Z_scope.

(** ** Runs *)

Inductive syscall : Type :=
| sys_bind (saddr : option sockaddr_storage) (addrlen : Z)
| sys_connect (saddr : option sockaddr_storage) (addrlen : Z)
| sys_sendto (buf : str) (dest_addr : option sockaddr_storage) (addrlen : Z)
| sys_send (buf : str)
| sys_recvfrom (len : nat) (peek addr_null : bool) (addrlen : option Z)
| sys_recv (len : nat) (peek : bool)
| sys_setsockopt (name : sockopt) (optval : option (list Z)) (optlen : Z)
| sys_ioctl (val : Z)
| sys_close.

(** [IsMainThread] says on which thread the event happens; [i] is the place of the
    task that the main thread runs. *)
Inductive event : Type :=
| Start (t : nat) (IsMainThread : bool) (c : syscall)
| Resume (t : nat) (IsMainThread : bool) (result : Z) (is_timedout : bool)
| Main (i : nat)
| Datagram (result : Z) (read_buf : str) (address : NetAddress) (uninitialized : sockaddr_storage)
| Sent (result : Z).

(** The socket, the threads that wait, and whether a descriptor refers to it. *)
Record System : Type := mkSystem { world : World; paused : gmap nat pause; is_open : bool }.

Record History : Type := mkHistory {
  accepted : list Message;   (* taken over from callers of [sendto] *)
  completed : nat;           (* [SendTo] calls that have completed *)
  arrived : list Message;    (* received from Pepper, from an acceptable source *)
  taken : nat;               (* given to callers of [recvfrom], for good *)
  failures : nat;            (* [RecvFrom] calls that failed *)
}.

Section Runs.
Context (RecvFrom SendTo : World → Z).

Definition start (m : bool) (c : syscall) : St World progress :=
  match c with
  | sys_bind a l => bind a l
  | sys_connect a l => connect a l
  | sys_sendto buf d l => sendto SendTo m buf d l
  | sys_send buf => send SendTo m buf
  | sys_recvfrom len p n l => recvfrom RecvFrom m len p n l
  | sys_recv len p => recv RecvFrom m len p
  | sys_setsockopt n v l => UdpSocket.setsockopt n v l
  | sys_ioctl v => ioctl v
  | sys_close => OnLastFileRef
  end.

Definition run_task (k : task) : St World unit :=
  match k with TaskRead => Read RecvFrom | TaskWrite => Write SendTo | TaskClose => Close end.

(** Which events can happen: a thread makes one call at a time and needs a
    descriptor, and Pepper completes what it was asked to do, [SendTo] with an error
    or the whole datagram, [RecvFrom] with an error or a datagram within the buffer. *)
Definition enabled (e : event) (s : System) : bool :=
  match e with
  | Start t _ _ => is_open s && bool_decide (paused s !! t = None)
  | Resume t _ _ _ => bool_decide (is_Some (paused s !! t))
  | Main i => bool_decide (is_Some (tasks (world s) !! i))
  | Datagram result read_buf a _ =>
      (0 <? receiving (world s))%nat && (result <=? Z.of_nat (List.length read_buf)) &&
      ((result <? 0) || match a with NetAddress_none => false | _ => true end)
  | Sent result =>
      (0 <? sending (world s))%nat &&
      match out_queue_ (sock (world s)) with
      | front :: _ => (result <? 0) || (result =? Z.of_nat (List.length (data front)))
      | [] => true
      end
  end.

Definition on_world {A} (m : St World A) : St System A := λ s,
  match m (world s) with
  | Done (a, w) => Done (a, {| world := w; paused := paused s; is_open := is_open s |})
  | Abort => Abort
  | NoFuel => NoFuel
  end.

Definition set_pause (t : nat) (p : progress) : St System unit :=
  modify (λ s, {| world := world s;
                  paused := match p with
                            | Paused q => <[t := q]> (paused s)
                            | Returned _ => delete t (paused s)
                            end;
                  is_open := is_open s |}).

Definition forget_descriptor : St System unit :=
  modify (λ s, {| world := world s; paused := paused s; is_open := false |}).

(** What happens, and what the thread's call does next. *)
Definition perform (e : event) : St System (option progress) :=
  match e with
  | Start t m c =>
      p ← on_world (start m c);
      match c with sys_close => forget_descriptor | _ => mret tt end;;
      set_pause t p;; mret (Some p)
  | Resume t m result is_timedout =>
      s ← get;
      match paused s !! t with
      | None => fatal
      | Some p =>
          p ← on_world (resume RecvFrom SendTo m result is_timedout p);
          set_pause t p;; mret (Some p)
      end
  | Main i =>
      s ← get;
      match tasks (world s) !! i with
      | None => fatal
      | Some k =>
          on_world (modify (λ w, set_tasks (delete i (tasks w)) w);; run_task k);;
          mret None
      end
  | Datagram result read_buf a x =>
      on_world (modify (λ w, set_receiving (Nat.pred (receiving w)) w);;
                OnRead RecvFrom result read_buf a x);;
      mret None
  | Sent result =>
      on_world (modify (λ w, set_sending (Nat.pred (sending w)) w);; OnWrite SendTo result);;
      mret None
  end.

(** ** Histories *)

(** The datagram that a call hands over when it gets that far; the address of a
    [NULL] destination is the socket's peer at that time. *)
Definition offered (e : event) (s : System) : option Message :=
  let peer := connected_addr_ (sock (world s)) in
  match e with
  | Start _ _ (sys_sendto buf d _) => Some {| addr := default peer d; data := buf |}
  | Start _ _ (sys_send buf) => Some {| addr := peer; data := buf |}
  | Resume t _ _ _ =>
      match paused s !! t with
      | Some (InSendToBind _ buf d) => Some {| addr := default peer d; data := buf |}
      | _ => None
      end
  | _ => None
  end.

(** A call of [sendto] has taken the datagram over when it succeeds or waits for
    the queue to drain. *)
Definition takes_over (p : option progress) : bool :=
  match p with
  | Some (Paused (InSendTo _)) | Some (Returned (Ok (Int _))) => true
  | _ => false
  end.

(** Whether the call of [recvfrom] that the event starts or resumes only peeks, how
    many bytes it wants, and whether it wants the address. *)
Definition receives (e : event) (s : System) : option (nat * bool * bool) :=
  match e with
  | Start _ _ (sys_recvfrom len peek addr_null l) =>
      Some (len, peek, negb addr_null && bool_decide (is_Some l))
  | Start _ _ (sys_recv len peek) => Some (len, peek, false)
  | Resume t _ _ _ =>
      match paused s !! t with
      | Some (InRecvFrom len peek addr_null l) =>
          Some (len, peek, negb addr_null && bool_decide (is_Some l))
      | _ => None
      end
  | _ => None
  end.

Definition is_received (p : option progress) : bool :=
  match p with Some (Returned (Ok (Received _ _))) => true | _ => false end.

(** A socket that is connected accepts datagrams from its peer only. *)
Definition acceptable (u : UDPSocket) (from : sockaddr_storage) : bool :=
  negb (is_connected u) || SocketAddressEqual (connected_addr_ u) from.

Definition source (a : NetAddress) (uninitialized : sockaddr_storage) : sockaddr_storage :=
  match a with
  | NetAddress_IPv4 port x => sockaddr_in port x
  | NetAddress_IPv6 port x => sockaddr_in6 port x
  | NetAddress_none => uninitialized
  end.

Definition observe (e : event) (s : System) (p : option progress) (h : History) : History :=
  {| accepted := accepted h ++
       match offered e s with Some m => if takes_over p then [m] else [] | None => [] end;
     completed := completed h + match e with Sent _ => 1 | _ => 0 end;
     arrived := arrived h ++
       match e with
       | Datagram result read_buf a x =>
           if (0 <=? result) && acceptable (sock (world s)) (source a x)
           then [{| addr := source a x; data := take (Z.to_nat result) read_buf |}] else []
       | _ => []
       end;
     taken := taken h +
       match receives e s with
       | Some (_, false, _) => if is_received p then 1 else 0
       | _ => 0
       end;
     failures := failures h +
       match e with Datagram result _ _ _ => if result <? 0 then 1 else 0 | _ => 0 end |}.

Definition no_history : History :=
  {| accepted := []; completed := 0; arrived := []; taken := 0; failures := 0 |}.

(** The states of a new socket's runs, with what went through it. *)
Inductive reach (allowed : event → System → bool) : System → History → Prop :=
| reach_new family oflag w :
    UDPSocket_new family oflag = Done w →
    reach allowed {| world := w; paused := ∅; is_open := true |} no_history
| reach_step e p s s' h :
    reach allowed s h → enabled e s = true → allowed e s = true →
    perform e s = Done (p, s') →
    reach allowed s' (observe e s p h).

Definition any_event (e : event) (s : System) : bool := true.

Fixpoint run_events (allowed : event → System → bool) (es : list event) (s : System) (h : History) :
    option (System * History) :=
  match es with
  | [] => Some (s, h)
  | e :: es =>
      if enabled e s && allowed e s then
        match perform e s with
        | Done (p, s') => run_events allowed es s' (observe e s p h)
        | _ => None
        end
      else None
  end.

Lemma run_events_reach allowed es s h s' h' :
  reach allowed s h → run_events allowed es s h = Some (s', h') → reach allowed s' h'.
Proof.
  revert s h. induction es as [|e es IH]; intros s h Hr; cbn [run_events].
  { by intros [= <- <-]. }
  destruct (enabled e s) eqn:He, (allowed e s) eqn:Ha; cbn [andb]; try done.
  destruct (perform e s) as [[p s1]| |] eqn:E; try done.
  apply IH. by econstructor.
Qed.

(** ** What the operations do to the world *)

Definition count (k : task) (l : list task) : nat := List.length (filter (k =.) l).

Definition of_bool (b : bool) : nat := if b then 1%nat else 0%nat.

Lemma count_app k l l' : count k (l ++ l') = (count k l + count k l')%nat.
Proof. unfold count. by rewrite filter_app, length_app. Qed.

Lemma count_delete k l i x :
  l !! i = Some x → count k l = (count k (delete i l) + of_bool (bool_decide (k = x)))%nat.
Proof.
  intros Hi. unfold count. rewrite (filter_Permutation _ _ _ (delete_Permutation _ _ _ Hi)).
  rewrite filter_cons. case_decide; [rewrite bool_decide_true by done|rewrite bool_decide_false by done];
    cbn [List.length of_bool]; lia.
Qed.

(** [PostReadTaskLocked] as a function of the world. *)
Definition post_read (m : bool) (w : World) : World :=
  if read_sent_ (sock w) || (kQueueSize <=? List.length (in_queue_ (sock w)))%nat then w
  else
    let w := set_sock (set_read_sent true) w in
    if m then set_receiving (S (receiving w)) w else set_tasks (tasks w ++ [TaskRead]) w.

Lemma post_read_run m w x w' :
  PostReadTaskLocked RecvFrom m w = Done (x, w') → w' = post_read m w.
Proof.
  unfold PostReadTaskLocked, post_read, this, update, ReadLocked, CallOnMainThread. mon.
  destruct (_ || _); [naive_solver|]. destruct m; simpl; [|naive_solver].
  destruct (_ =? _); naive_solver.
Qed.

(** [WriteLocked] hands the front of the queue to Pepper. *)
Lemma write_run w x w' :
  WriteLocked SendTo w = Done (x, w') →
  ∃ m rest a, out_queue_ (sock w) = m :: rest ∧ SockAddrToNetAddress (addr m) = Done a ∧
    w' = set_sending (S (sending w)) (add_effect (PepperSendTo a (data m)) w).
Proof.
  unfold WriteLocked, this, effect_. mon.
  destruct (out_queue_ (sock w)) as [|m rest]; [done|].
  destruct (SockAddrToNetAddress (addr m)) as [a| |] eqn:Ea; [|done|done].
  destruct (_ =? _); [|done]. intros [= <- <-]. by exists m, rest, a.
Qed.

Lemma post_write_run m w x w' :
  PostWriteTaskLocked SendTo m w = Done (x, w') →
  ((write_sent_ (sock w) = true ∨ out_queue_ (sock w) = []) ∧ w' = w) ∨
  (write_sent_ (sock w) = false ∧ out_queue_ (sock w) ≠ [] ∧
   let w1 := set_sock (set_write_sent true) w in
   (w' = set_tasks (tasks w1 ++ [TaskWrite]) w1 ∨ WriteLocked SendTo w1 = Done (x, w'))).
Proof.
  unfold PostWriteTaskLocked, this, update, CallOnMainThread. mon.
  destruct (write_sent_ (sock w)) eqn:Ew; cbn [orb].
  { intros [= <- <-]. by left; split; [left|]. }
  case_bool_decide as Eo; [intros [= <- <-]; by left; split; [right|]|].
  intros H. right. split; [done|]. split; [done|]. destruct m; cbn [negb] in H; [by right|].
  left. by injection H as <- <-.
Qed.

Lemma bind_begin_run a l w r w' :
  bind_begin a l w = Done (r, w') →
  (∃ e, r = Err e ∧ w' = w) ∨
  (∃ x, r = Ok x ∧ state_ (sock w) = UDP_SOCKET_NEW ∧
        w' = set_sock (set_state UDP_SOCKET_BINDING) w).
Proof.
  unfold bind_begin, this, update. mon.
  destruct (VerifyInputSocketAddress a l _) as [[e|]| |]; try done.
  { intros [= <- <-]. left. by exists e. }
  destruct a as [a|]; [|done]. case_bool_decide as Es; cbn [negb].
  - destruct (SockAddrToNetAddress a) as [x| |]; try done. intros [= <- <-]. right. by exists x.
  - intros [= <- <-]. left. by exists EISCONN.
Qed.

Lemma bind_end_run m result w r w' :
  bind_end RecvFrom m result w = Done (r, w') →
  (closed_ w = true ∧ r = Err EBADF ∧ w' = w) ∨
  (closed_ w = false ∧ (∃ e, r = Err e) ∧ w' = set_sock (set_state UDP_SOCKET_NEW) w) ∨
  (closed_ w = false ∧ r = Ok tt ∧
   w' = post_read m (set_sock (set_state UDP_SOCKET_BOUND)
          (add_effect NotifyListeners (add_effect Broadcast w)))).
Proof.
  unfold bind_end, update, effect_. mon. destruct (closed_ w) eqn:Ec; [naive_solver|].
  destruct (negb _); [naive_solver|].
  destruct (PostReadTaskLocked _ _ _) as [[x w1]| |] eqn:E; try done.
  apply post_read_run in E as ->. naive_solver.
Qed.

Definition push_out (m : Message) (u : UDPSocket) : UDPSocket :=
  set_out_queue (out_queue_ u ++ [m]) u.

Lemma sendto_queue_run m buf d w p w' :
  sendto_queue SendTo m buf d w = Done (p, w') →
  ((∃ e, p = fail e) ∧ w' = w) ∨
  (takes_over (Some p) = true ∧
   (∀ q, p = Paused q → ∃ n, q = InSendTo n) ∧
   ∃ x, PostWriteTaskLocked SendTo m
          (set_sock (push_out {| addr := default (connected_addr_ (sock w)) d; data := buf |}) w) =
        Done (x, w')).
Proof.
  unfold sendto_queue, this, update, push_out. mon. destruct (_ <? _); [naive_solver|].
  destruct (PostWriteTaskLocked _ _ _) as [[x w1]| |]; try done. destruct (_ && _).
  - intros [= <- <-]. right. split; [done|]. split; [intros q [= <-]; by eexists|by exists x].
  - intros [= <- <-]. right. split; [done|]. split; [done|by exists x].
Qed.

Lemma sendto_run m buf d l w p w' :
  sendto SendTo m buf d l w = Done (p, w') →
  ((∃ e, p = fail e) ∧ w' = w) ∨
  ((∃ a, p = Paused (InSendToBind a buf d)) ∧ state_ (sock w) = UDP_SOCKET_NEW ∧
   w' = set_sock (set_state UDP_SOCKET_BINDING) w) ∨
  sendto_queue SendTo m buf d w = Done (p, w').
Proof.
  unfold sendto, this. mon. destruct (_ && _); [naive_solver|].
  destruct (match d with Some _ => _ | None => _ end) as [dest len].
  destruct (VerifyInputSocketAddress _ _ _) as [[e|]| |]; try done; [naive_solver|].
  case_bool_decide as Es; [|auto].
  destruct (bind_begin _ _ _) as [[r w1]| |] eqn:E; try done.
  apply bind_begin_run in E as [(e & -> & ->)|(x & -> & _ & ->)]; naive_solver.
Qed.

Lemma name_of_run a n k r : name_of a n k = Done r → ∃ c j, r = (a, c, j).
Proof.
  unfold name_of. mon. destruct (CopySocketAddress _ _ _) as [[c j]| |]; try done.
  intros [= <-]. by exists c, j.
Qed.

Lemma recvfrom_end_run m len peek n l w p w' :
  recvfrom_end RecvFrom m len peek n l w = Done (p, w') →
  (in_queue_ (sock w) = [] ∧ p = fail EAGAIN ∧ w' = w) ∨
  (∃ d rest name, in_queue_ (sock w) = d :: rest ∧
     p = Returned (Ok (Received (take len (data d)) name)) ∧
     w' = post_read m (if peek then w else set_sock (set_in_queue rest) w) ∧
     (if negb n && bool_decide (is_Some l) then ∃ c k, name = Some (addr d, c, k) else name = None)).
Proof.
  unfold recvfrom_end, this, update. unfold mbind, mret, St_bind, St_ret, gets, lift, modify.
  destruct (in_queue_ (sock w)) as [|d rest]; [intros [= <- <-]; by left|]. rewrite take_min.
  set (want := negb n && bool_decide (is_Some l)). intros H. right. exists d, rest.
  destruct (PostReadTaskLocked RecvFrom m (if peek then w else set_sock (set_in_queue rest) w))
    as [[x w1]| |] eqn:Ep.
  2,3: destruct l as [k|], n, peek; try destruct (name_of _ _ _); simplify_eq/=; by rewrite Ep in H.
  pose proof (post_read_run _ _ _ _ Ep) as Hw1.
  destruct l as [k|]; [destruct n; [|destruct (name_of (addr d) false k) as [r| |] eqn:En; try done]|];
    destruct peek; simplify_eq/=; rewrite Ep in H; injection H as <- <-;
    (eexists; split_and!; [done|done|done|]); subst want; try done;
    first [ apply name_of_run in En as (c & j & ->); by exists c, j | by destruct n ].
Qed.

(** ** The invariant *)

(** The [SendTo] calls that were made. *)
Definition handed (w : World) : list (NetAddress * str) :=
  omap (λ e, match e with PepperSendTo a d => Some (a, d) | _ => None end) (effects w).

Definition hands (m : Message) (call : NetAddress * str) : Prop :=
  SockAddrToNetAddress (addr m) = Done call.1 ∧ data m = call.2.

Record queues (w : World) (h : History) : Prop := {
  q_out : out_queue_ (sock w) = drop (completed h) (accepted h);
  q_in : in_queue_ (sock w) = drop (taken h) (arrived h);
  q_taken : (taken h <= List.length (arrived h))%nat;
  q_room : (List.length (in_queue_ (sock w)) + of_bool (read_sent_ (sock w)) <= kQueueSize)%nat;
  q_read : closed_ w = false →
    (receiving w + count TaskRead (tasks w) = of_bool (read_sent_ (sock w)))%nat;
  q_write : closed_ w = false →
    (sending w + count TaskWrite (tasks w) = of_bool (write_sent_ (sock w)))%nat;
  q_sent : write_sent_ (sock w) = true → out_queue_ (sock w) ≠ [];
  q_handed : ∃ n, (completed h <= n <= List.length (accepted h))%nat ∧
    (closed_ w = false → n = completed h + sending w)%nat ∧ (n <= S (completed h))%nat ∧
    Forall2 hands (take n (accepted h)) (handed w);
  q_closed : closed_ w = true → tasks w = [] ∧ receiving w = 0%nat ∧ sending w = 0%nat;
  q_unbound : state_ (sock w) ≠ UDP_SOCKET_BOUND →
    in_queue_ (sock w) = [] ∧ read_sent_ (sock w) = false;
}.

(** Nothing that could be on its way is left lying. *)
Definition busy (w : World) (h : History) : Prop :=
  closed_ w = false →
  (out_queue_ (sock w) ≠ [] → write_sent_ (sock w) = true) ∧
  (state_ (sock w) = UDP_SOCKET_BOUND → failures h = 0%nat → read_sent_ (sock w) = false →
   (kQueueSize <= List.length (in_queue_ (sock w)))%nat).

Lemma handed_app w e : handed (add_effect e w) =
  handed w ++ match e with PepperSendTo a d => [(a, d)] | _ => [] end.
Proof. unfold handed. cbn [effects add_effect]. rewrite omap_app. by destruct e. Qed.

Lemma queues_frame w w' h :
  queues w h →
  in_queue_ (sock w') = in_queue_ (sock w) → out_queue_ (sock w') = out_queue_ (sock w) →
  read_sent_ (sock w') = read_sent_ (sock w) → write_sent_ (sock w') = write_sent_ (sock w) →
  closed_ w' = closed_ w → handed w' = handed w → receiving w' = receiving w →
  sending w' = sending w →
  (count TaskRead (tasks w') = count TaskRead (tasks w)) →
  (count TaskWrite (tasks w') = count TaskWrite (tasks w)) →
  (closed_ w = true → tasks w = [] → tasks w' = []) →
  (state_ (sock w') ≠ UDP_SOCKET_BOUND → state_ (sock w) = UDP_SOCKET_BOUND →
   in_queue_ (sock w) = [] ∧ read_sent_ (sock w) = false) →
  queues w' h.
Proof.
  intros [] E1 E2 E3 E4 E5 E6 E7 E8 E9 E10 E11 E12.
  constructor; rewrite ?E1, ?E2, ?E3, ?E4, ?E5, ?E6, ?E7, ?E8, ?E9, ?E10; try done.
  - intros Hc. destruct (q_closed0 Hc) as (? & ? & ?). auto.
  - intros Hs. destruct (decide (state_ (sock w) = UDP_SOCKET_BOUND)); auto.
Qed.

Lemma queues_history w h h' :
  queues w h → completed h' = completed h → taken h' = taken h →
  accepted h' = accepted h → arrived h' = arrived h → queues w h'.
Proof. intros [] E1 E2 E3 E4. constructor; by rewrite ?E1, ?E2, ?E3, ?E4. Qed.

Lemma post_read_queues m w h :
  queues w h → closed_ w = false → state_ (sock w) = UDP_SOCKET_BOUND → queues (post_read m w) h.
Proof.
  intros Hq Hc Hb. unfold post_read.
  destruct (read_sent_ (sock w)) eqn:Er; cbn [orb]; [done|].
  destruct (Nat.leb_spec kQueueSize (List.length (in_queue_ (sock w)))) as [?|Hlt]; [done|].
  destruct Hq. rewrite Er in *. specialize (q_read0 Hc). specialize (q_write0 Hc). cbn [of_bool] in *.
  destruct m; constructor; cbn [set_receiving set_tasks set_sock set_read_sent sock in_queue_ out_queue_
    read_sent_ write_sent_ closed_ receiving sending tasks state_ of_bool]; try done;
    rewrite ?count_app; try (intros; change (count TaskRead [TaskRead]) with 1%nat;
                             change (count TaskWrite [TaskRead]) with 0%nat); try lia; congruence.
Qed.

Lemma post_read_busy m w h :
  closed_ w = false →
  (out_queue_ (sock w) ≠ [] → write_sent_ (sock w) = true) → busy (post_read m w) h.
Proof.
  intros Hc Hw _. unfold post_read.
  destruct (read_sent_ (sock w)) eqn:Er; cbn [orb]; [split; [done|congruence]|].
  destruct (Nat.leb_spec kQueueSize (List.length (in_queue_ (sock w)))); [by split|].
  destruct m; (split; [done|]); intros; done.
Qed.

(** A step that reads nothing and whose tasks for reading and closing are the same. *)
Definition same_reading (w w' : World) : Prop :=
  (sock w' = sock w ∨ sock w' = set_write_sent true (sock w)) ∧ closed_ w' = closed_ w ∧
  receiving w' = receiving w ∧ count TaskRead (tasks w') = count TaskRead (tasks w) ∧
  count TaskClose (tasks w') = count TaskClose (tasks w).

Lemma write_handed w x w' h :
  WriteLocked SendTo w = Done (x, w') →
  out_queue_ (sock w) = drop (completed h) (accepted h) →
  Forall2 hands (take (completed h) (accepted h)) (handed w) →
  (S (completed h) <= List.length (accepted h))%nat ∧
  Forall2 hands (take (S (completed h)) (accepted h)) (handed w').
Proof.
  intros (m & rest & a & Em & Ea & ->)%write_run Ho Hh. rewrite Ho in Em.
  assert (accepted h !! completed h = Some m) as Hm.
  { rewrite <-(Nat.add_0_r (completed h)), <-lookup_drop, Em. done. }
  split; [by apply lookup_lt_Some in Hm|].
  rewrite (take_S_r _ _ _ Hm). unfold handed. cbn [effects set_sending add_effect].
  rewrite omap_app. apply Forall2_app; [done|]. by repeat constructor.
Qed.

(** [WriteLocked], when the flag says that a write is on its way and it is this one. *)
Lemma write_locked_queues w x w' h :
  WriteLocked SendTo w = Done (x, w') → queues (set_tasks (tasks w ++ [TaskWrite]) w) h →
  closed_ w = false → queues w' h.
Proof.
  intros Hw Hq Hc. pose proof (write_run _ _ _ Hw) as (m & rest & a & Em & Ea & E).
  destruct Hq. cbn [set_tasks sock closed_ receiving sending tasks] in *.
  specialize (q_read0 Hc). specialize (q_write0 Hc). destruct q_handed0 as (n & Hn & Hs & _ & Hh).
  specialize (Hs Hc). rewrite count_app in q_read0, q_write0.
  change (count TaskWrite [TaskWrite]) with 1%nat in q_write0.
  change (count TaskRead [TaskWrite]) with 0%nat in q_read0.
  assert (of_bool (write_sent_ (sock w)) <= 1)%nat by (destruct (write_sent_ _); cbn; lia).
  assert (sending w = 0%nat) as Hz by lia. rewrite Hz, Nat.add_0_r in Hs. subst n.
  destruct (write_handed _ _ _ _ Hw q_out0) as [Hle Hh']; [done|].
  rewrite E in Hh' |- *.
  constructor; cbn [set_sending add_effect sock closed_ receiving sending tasks]; try done; try lia.
  - exists (S (completed h)). rewrite Hz. split_and!; try done; lia.
  - congruence.
Qed.

Lemma post_write_queues m w x w' h :
  PostWriteTaskLocked SendTo m w = Done (x, w') → queues w h → closed_ w = false →
  queues w' h ∧ same_reading w w' ∧ (out_queue_ (sock w') ≠ [] → write_sent_ (sock w') = true).
Proof.
  intros [[Hs ->]|(Ew & Eo & Hw)]%post_write_run Hq Hc.
  { split; [done|]. split; [by split_and!; auto|]. intros ?. by destruct Hs. }
  assert (queues (set_tasks (tasks w ++ [TaskWrite]) (set_sock (set_write_sent true) w)) h) as Hq'.
  { destruct Hq. rewrite Ew in *. specialize (q_read0 Hc). specialize (q_write0 Hc).
    constructor; cbn [set_tasks set_sock set_write_sent sock in_queue_ out_queue_
      read_sent_ write_sent_ closed_ receiving sending tasks state_ of_bool] in *; try done;
      rewrite ?count_app; try (intros; change (count TaskRead [TaskWrite]) with 0%nat;
                             change (count TaskWrite [TaskWrite]) with 1%nat); try lia; congruence. }
  destruct Hw as [-> | Hw].
  - split; [done|]. split; [|done]. split_and!; auto; cbn [set_tasks set_sock tasks];
      rewrite count_app; apply Nat.add_0_r.
  - split; [by apply (write_locked_queues _ _ _ _ Hw)|].
    apply write_run in Hw as (k & rest & a & _ & _ & ->). split; [by split_and!; auto|done].
Qed.

Lemma push_out_queues m w h :
  queues w h → queues (set_sock (push_out m) w)
    {| accepted := accepted h ++ [m]; completed := completed h; arrived := arrived h;
       taken := taken h; failures := failures h |}.
Proof.
  intros []. destruct q_handed0 as (n & Hn & Hs & Hle & Hh).
  constructor; cbn [set_sock push_out set_out_queue sock in_queue_ out_queue_ read_sent_ write_sent_
    closed_ receiving sending tasks state_ accepted completed arrived taken]; try done.
  - rewrite q_out0, drop_app_le by lia. done.
  - intros _ ?. by destruct (out_queue_ (sock w)).
  - exists n. rewrite length_app. cbn [List.length]. split; [lia|]. split; [done|]. split; [done|].
    by rewrite take_app_le by lia.
Qed.

Lemma converted_source a x c :
  NetAddressToSockAddrStorage a AF_UNSPEC false = Done c → default x c = source a x.
Proof. destruct a; by intros [= <-]. Qed.

Lemma OnRead_run result buf a x w y w' :
  OnRead RecvFrom result buf a x w = Done (y, w') →
  let w1 := set_sock (set_read_sent false) w in
  let d := {| addr := source a x; data := take (Z.to_nat result) buf |} in
  w' = if result <? 0 then w1
       else if acceptable (sock w) (source a x) then
         add_effect NotifyListeners (add_effect Broadcast
           (post_read true (set_sock (λ u, set_in_queue (in_queue_ u ++ [d]) u) w1)))
       else post_read true w1.
Proof.
  unfold OnRead, this, update, effect_, acceptable, mbind, mret, St_bind, St_ret, gets, lift, modify.
  cbv beta. destruct (result <? 0); [by intros [= <- <-]|].
  destruct (NetAddressToSockAddrStorage a AF_UNSPEC false) as [c| |] eqn:Ec; try done.
  rewrite (converted_source _ x _ Ec). unfold id. cbn [set_sock sock].
  change (is_connected (set_read_sent false (sock w))) with (is_connected (sock w)).
  change (connected_addr_ (set_read_sent false (sock w))) with (connected_addr_ (sock w)).
  destruct (is_connected (sock w)), (SocketAddressEqual (connected_addr_ (sock w)) (source a x));
    cbn [andb orb negb]; try (intros H; by apply post_read_run in H);
    (destruct (PostReadTaskLocked RecvFrom true _) as [[z w1]| |] eqn:E; try done);
    apply post_read_run in E as ->; by intros [= <- <-].
Qed.

Lemma OnRead_queues result buf a x w y w' h :
  queues w h → (0 < receiving w)%nat →
  OnRead RecvFrom result buf a x (set_receiving (Nat.pred (receiving w)) w) = Done (y, w') →
  queues w' {| accepted := accepted h; completed := completed h;
               arrived := arrived h ++
                 (if (0 <=? result) && acceptable (sock w) (source a x)
                  then [{| addr := source a x; data := take (Z.to_nat result) buf |}] else []);
               taken := taken h;
               failures := (failures h + (if (result <? 0)%Z then 1 else 0))%nat |}.
Proof.
  intros Hq Hr E. pose proof (OnRead_run _ _ _ _ _ _ _ E) as ->. clear E.
  assert (closed_ w = false) as Hc.
  { destruct (closed_ w) eqn:Hc; [|done]. destruct (q_closed _ _ Hq Hc) as (_ & ? & _). lia. }
  pose proof (q_read _ _ Hq Hc) as Hn.
  assert (read_sent_ (sock w) = true) as Es by (destruct (read_sent_ (sock w)); [done|cbn in Hn; lia]).
  assert (state_ (sock w) = UDP_SOCKET_BOUND) as Hb.
  { destruct (decide (state_ (sock w) = UDP_SOCKET_BOUND)); [done|].
    destruct (q_unbound _ _ Hq); [done|congruence]. }
  pose proof (q_room _ _ Hq) as Hroom. rewrite Es in *. cbn [of_bool] in *.
  set (w1 := set_sock (set_read_sent false) (set_receiving (Nat.pred (receiving w)) w)).
  assert (queues w1 h) as Hq1.
  { destruct Hq. constructor; cbn [w1 set_sock set_read_sent set_receiving sock in_queue_ out_queue_
      read_sent_ write_sent_ closed_ receiving sending tasks state_ of_bool] in *; try done; try lia;
      try congruence. }
  destruct (Z.ltb_spec result 0) as [Hneg|Hpos].
  - rewrite (proj2 (Z.leb_gt 0 result)) by done. cbn [andb]. rewrite app_nil_r.
    by apply (queues_history _ _ _ Hq1).
  - rewrite (proj2 (Z.leb_le 0 result)) by done. cbn [andb set_receiving sock]. rewrite Nat.add_0_r.
    destruct (acceptable _ _).
    + set (d := {| addr := _; data := _ |}).
      eapply (queues_frame (post_read true (set_sock (λ u, set_in_queue (in_queue_ u ++ [d]) u) w1)));
        try done; [|unfold handed; cbn [effects add_effect]; by rewrite !omap_app, !app_nil_r].
      apply post_read_queues; [|done|done].
      destruct Hq1. constructor; cbn [w1 set_sock set_in_queue set_read_sent set_receiving sock in_queue_
        out_queue_ read_sent_ write_sent_ closed_ receiving sending tasks state_ of_bool
        accepted completed arrived taken] in *; try done.
      * by rewrite q_in0, drop_app_le.
      * rewrite length_app. lia.
      * rewrite length_app. cbn [List.length]. lia.
    + rewrite app_nil_r. apply (queues_history _ h); [|done..]. by apply post_read_queues.
Qed.

(** What work on the main thread and on queues leaves alone. *)
Definition keeps (w w' : World) : Prop :=
  closed_ w' = closed_ w ∧ state_ (sock w') = state_ (sock w) ∧
  count TaskClose (tasks w') = count TaskClose (tasks w).

Lemma keeps_trans w1 w2 w3 : keeps w1 w2 → keeps w2 w3 → keeps w1 w3.
Proof. unfold keeps. intros (? & ? & ?) (? & ? & ?). split_and!; congruence. Qed.

Lemma post_read_keeps m w : keeps w (post_read m w).
Proof.
  unfold post_read. destruct (_ || _); [done|].
  destruct m; split_and!; try done. cbn [tasks set_tasks set_sock].
  rewrite count_app. apply Nat.add_0_r.
Qed.

Lemma same_reading_keeps w w' : same_reading w w' → keeps w w'.
Proof. unfold keeps. intros ([-> | ->] & ? & ? & ? & ?); by split_and!. Qed.

Lemma OnRead_keeps result buf a x w y w' h :
  queues w h → (0 < receiving w)%nat →
  (out_queue_ (sock w) ≠ [] → write_sent_ (sock w) = true) →
  OnRead RecvFrom result buf a x (set_receiving (Nat.pred (receiving w)) w) = Done (y, w') →
  keeps w w' ∧ ∀ h', failures h' = (failures h + (if (result <? 0)%Z then 1 else 0))%nat → busy w' h'.
Proof.
  intros Hq Hr Hw E. apply OnRead_run in E as ->.
  assert (closed_ w = false) as Hc.
  { destruct (closed_ w) eqn:Hc; [|done]. destruct (q_closed _ _ Hq Hc) as (_ & ? & _). lia. }
  destruct (result <? 0).
  { split; [done|]. intros h' Hf Hc'. split; [done|]. intros _ Hf'. lia. }
  destruct (acceptable _ _); (split; [exact (post_read_keeps true _)|]); intros h' _; by apply post_read_busy.
Qed.

Lemma OnWrite_run result w y w' :
  OnWrite SendTo result w = Done (y, w') →
  ∃ front rest z, out_queue_ (sock w) = front :: rest ∧
    PostWriteTaskLocked SendTo true
      (add_effect NotifyListeners (add_effect Broadcast
         (set_sock (set_out_queue rest) (set_sock (set_write_sent false) w)))) = Done (z, w').
Proof.
  unfold OnWrite, this, update, effect_, mbind, mret, St_bind, St_ret, gets, lift, modify, check.
  cbv beta. cbn [set_sock sock set_write_sent out_queue_].
  destruct (out_queue_ (sock w)) as [|front rest]; [done|].
  intros H. exists front, rest, y. split; [done|].
  destruct (result <? 0); [done|]. by destruct (_ =? _).
Qed.

Lemma OnWrite_queues result w y w' h :
  queues w h → (0 < sending w)%nat →
  OnWrite SendTo result (set_sending (Nat.pred (sending w)) w) = Done (y, w') →
  queues w' {| accepted := accepted h; completed := completed h + 1; arrived := arrived h;
               taken := taken h; failures := failures h |} ∧
  same_reading (set_sock (set_out_queue (out_queue_ (sock w')))
                  (set_sock (set_write_sent false) w)) w' ∧
  (out_queue_ (sock w') ≠ [] → write_sent_ (sock w') = true).
Proof.
  intros Hq Hs (front & rest & z & Eo & E)%OnWrite_run. cbn [set_sending sock] in Eo.
  assert (closed_ w = false) as Hc.
  { destruct (closed_ w) eqn:Hc; [|done]. destruct (q_closed _ _ Hq Hc) as (_ & _ & ?). lia. }
  pose proof (q_write _ _ Hq Hc) as Hn.
  assert (write_sent_ (sock w) = true) as Es by (destruct (write_sent_ (sock w)); [done|cbn in Hn; lia]).
  apply post_write_queues with (h := {| accepted := accepted h; completed := completed h + 1;
    arrived := arrived h; taken := taken h; failures := failures h |}) in E as (Hq' & Hsame & Hb); [|..|done].
  - split; [done|]. split; [|done].
    assert (out_queue_ (sock w') = rest) as -> by (by destruct Hsame as ([-> | ->] & _)).
    exact Hsame.
  - eapply (queues_frame (set_sock (set_out_queue rest) (set_sock (set_write_sent false)
      (set_sending (Nat.pred (sending w)) w)))); try done;
      [|unfold handed; cbn [effects add_effect]; by rewrite !omap_app, !app_nil_r].
    destruct Hq. rewrite Es in *. cbn [of_bool] in *. destruct q_handed0 as (n & Hl & Hn' & Hle & Hh).
    specialize (Hn' Hc). assert (drop (completed h) (accepted h) = front :: rest) as Ed by congruence.
    constructor; cbn [set_sock set_out_queue set_write_sent set_sending sock in_queue_ out_queue_
      read_sent_ write_sent_ closed_ receiving sending tasks state_ of_bool
      accepted completed arrived taken] in *; try done; try lia; try congruence.
    + rewrite Nat.add_1_r, <-(Nat.add_1_r (completed h)), <-drop_drop, Ed. done.
    + exists n. split_and!; try done; lia.
Qed.

(** ** Calls keep the invariant *)

(** [observe] of a call that offers [off] and wants to receive [rc]. *)
Definition after_call (off : option Message) (rc : option (nat * bool * bool)) (p : progress)
    (h : History) : History :=
  {| accepted := accepted h ++
       match off with Some m => if takes_over (Some p) then [m] else [] | None => [] end;
     completed := completed h + 0;
     arrived := arrived h ++ [];
     taken := taken h +
       match rc with Some (_, false, _) => if is_received (Some p) then 1 else 0 | _ => 0 end;
     failures := failures h + 0 |}.

Definition binds (p : pause) : bool :=
  match p with InBind _ | InSendToBind _ _ _ => true | _ => false end.

Definition binds_now (p : progress) : bool := match p with Paused q => binds q | _ => false end.

Record call_ok (off : option Message) (rc : option (nat * bool * bool)) (w : World) (p : progress)
    (w' : World) : Prop := {
  k_queues : ∀ h, queues w h → queues w' (after_call off rc p h);
  k_busy : ∀ h, queues w h → busy w h → busy w' (after_call off rc p h);
  k_closed : closed_ w' = closed_ w;
  k_tasks : count TaskClose (tasks w') = count TaskClose (tasks w);
}.

Definition quiet (off : option Message) (rc : option (nat * bool * bool)) (p : progress) : Prop :=
  (off = None ∨ takes_over (Some p) = false) ∧ is_received (Some p) = false.

Lemma quiet_queues off rc p w h : quiet off rc p → queues w h → queues w (after_call off rc p h).
Proof.
  intros [Ho Hr] Hq.
  apply (queues_history _ _ _ Hq); unfold after_call; cbn [accepted completed arrived taken];
    rewrite ?Nat.add_0_r, ?app_nil_r, ?Hr; try done.
  - by destruct rc as [[[? []] ?]|]; rewrite ?Nat.add_0_r.
  - destruct off; [|by rewrite app_nil_r]. destruct Ho as [?|Ho]; [done|]. by rewrite Ho, app_nil_r.
Qed.

(** A call that only changes what the queues do not depend on. *)
Lemma call_ok_same off rc w p f :
  quiet off rc p →
  (∀ u, in_queue_ (f u) = in_queue_ u ∧ out_queue_ (f u) = out_queue_ u ∧
        read_sent_ (f u) = read_sent_ u ∧ write_sent_ (f u) = write_sent_ u) →
  (state_ (f (sock w)) = state_ (sock w) ∨
   state_ (sock w) = UDP_SOCKET_NEW ∧ state_ (f (sock w)) = UDP_SOCKET_BINDING) →
  call_ok off rc w p (set_sock f w).
Proof.
  intros Hqt Hf Hs. destruct (Hf (sock w)) as (E1 & E2 & E3 & E4). constructor; try done.
  - intros h Hq. apply quiet_queues; [done|]. apply (queues_frame w); try done.
    intros Hn Hb. cbn [set_sock sock] in Hn. destruct Hs as [Hs|[? ?]]; congruence.
  - intros h Hq Hb Hc. destruct (Hb Hc) as [H1 H2]. cbn [set_sock sock]. rewrite E1, E2, E3, E4.
    split; [done|]. unfold after_call. cbn [failures]. rewrite Nat.add_0_r.
    intros Hb'. apply H2. destruct Hs as [Hs|[? ?]]; congruence.
Qed.

Lemma call_ok_none off rc w p : quiet off rc p → call_ok off rc w p w.
Proof.
  intros Hq. replace w with (set_sock id w) at 2 by (by destruct w).
  apply call_ok_same; [done|done|by left].
Qed.

Lemma fail_quiet off rc e : quiet off rc (fail e).
Proof. split; [by right|done]. Qed.

Lemma sendto_queue_ok m buf d rc w p w' :
  closed_ w = false → sendto_queue SendTo m buf d w = Done (p, w') →
  call_ok (Some {| addr := default (connected_addr_ (sock w)) d; data := buf |}) rc w p w' ∧
  state_ (sock w') = state_ (sock w) ∧ binds_now p = false.
Proof.
  intros Hc [[[e ->] ->]|(Ht & Hp & x & E)]%sendto_queue_run.
  { split; [|done]. apply call_ok_none, fail_quiet. }
  set (d' := {| addr := _; data := _ |}) in *. set (w1 := set_sock (push_out d') w) in *.
  assert (is_received (Some p) = false) as Hr.
  { destruct p as [[e|[|]]|]; done. }
  assert (∀ h, queues w h → queues w' (after_call (Some d') rc p h) ∧ same_reading w1 w' ∧
               (out_queue_ (sock w') ≠ [] → write_sent_ (sock w') = true)) as Hall.
  { intros h Hq. apply (push_out_queues d') in Hq.
    apply post_write_queues with (2 := Hq) in E as (Hq' & Hsame & Hw); [|done].
    split; [|done]. apply (queues_history _ _ _ Hq'); unfold after_call; cbn [accepted completed arrived taken];
      rewrite ?Hr, ?Ht, ?Nat.add_0_r, ?app_nil_r; try done.
    by destruct rc as [[[? []] ?]|]; rewrite ?Nat.add_0_r. }
  assert (same_reading w1 w') as Hsame.
  { apply post_write_run in E as [[_ ->]|(_ & _ & [-> |(? & ? & ? & _ & _ & ->)%write_run])];
      split_and!; auto; cbn [set_tasks tasks set_sock]; rewrite count_app; apply Nat.add_0_r. }
  split; [constructor|].
  - intros h Hq. by destruct (Hall h Hq).
  - intros h Hq Hb. destruct (Hall h Hq) as (_ & _ & Hw).
    assert (busy w' h) as Hb'.
    { intros Hc'. destruct (Hb Hc) as [_ H2]. split; [done|]. destruct Hsame as ([-> | ->] & _); exact H2. }
    intros Hc'. destruct (Hb' Hc') as [H1 H2]. split; [done|]. unfold after_call. cbn [failures].
    by rewrite Nat.add_0_r.
  - by destruct Hsame as (_ & -> & _).
  - by destruct Hsame as (_ & _ & _ & _ & ->).
  - split; [by destruct Hsame as ([-> | ->] & _)|].
    destruct p as [|q]; [done|]. by destruct (Hp q eq_refl) as [n ->].
Qed.

Lemma pop_queues d rest w h :
  queues w h → in_queue_ (sock w) = d :: rest →
  queues (set_sock (set_in_queue rest) w)
    {| accepted := accepted h; completed := completed h; arrived := arrived h;
       taken := taken h + 1; failures := failures h |} ∧ arrived h !! taken h = Some d.
Proof.
  intros [] Hd. rewrite Hd in *.
  assert (arrived h !! taken h = Some d) as Hl.
  { rewrite <-(Nat.add_0_r (taken h)), <-lookup_drop, <-q_in0. done. }
  split; [|done]. apply lookup_lt_Some in Hl. cbn [List.length] in q_room0.
  constructor; cbn [set_sock set_in_queue sock in_queue_ out_queue_ read_sent_ write_sent_
    closed_ receiving sending tasks state_ accepted completed arrived taken]; try done; try lia.
  - by rewrite <-drop_drop, <-q_in0.
  - intros Hn. by destruct (q_unbound0 Hn).
Qed.

Lemma recvfrom_end_ok off m len peek n l w p w' :
  closed_ w = false → recvfrom_end RecvFrom m len peek n l w = Done (p, w') →
  let want := negb n && bool_decide (is_Some l) in
  (∀ h, queues w h → call_ok off (Some (len, peek, want)) w p w') ∧
  state_ (sock w') = state_ (sock w) ∧ binds_now p = false ∧ takes_over (Some p) = false ∧
  ∀ h b name, queues w h → p = Returned (Ok (Received b name)) →
    ∃ d, arrived h !! taken h = Some d ∧ b = take len (data d) ∧
      (if want then ∃ c k, name = Some (addr d, c, k) else name = None).
Proof.
  intros Hc [(_ & -> & ->)|(d & rest & name & Hq & -> & -> & Hn)]%recvfrom_end_run want.
  { split; [|done]. intros h Hq. apply call_ok_none, fail_quiet. }
  set (w1 := if peek then w else set_sock (set_in_queue rest) w).
  assert (closed_ w1 = false) as Hc1 by (by destruct peek).
  assert (state_ (sock w1) = state_ (sock w)) as Hs1 by (by destruct peek).
  destruct (post_read_keeps m w1) as (Kc & Ks & Kt).
  assert (∀ h, queues w h → state_ (sock w) = UDP_SOCKET_BOUND) as Hb.
  { intros h HQ. destruct (decide (state_ (sock w) = UDP_SOCKET_BOUND)); [done|].
    destruct (q_unbound _ _ HQ) as [E _]; [done|]. by rewrite Hq in E. }
  split; [intros h0 HQ0; constructor|].
  - intros h HQ. apply post_read_queues; [|done|by rewrite Hs1, (Hb h0)].
    unfold after_call, w1. destruct (pop_queues d rest w h HQ Hq) as [Hpop _].
    destruct peek; [apply (queues_history _ _ _ HQ)|apply (queues_history _ _ _ Hpop)];
      cbn [accepted completed arrived taken]; rewrite ?Nat.add_0_r, ?app_nil_r; try done;
      by destruct off; rewrite ?app_nil_r.
  - intros h HQ Hbz. apply post_read_busy; [done|]. destruct (Hbz Hc) as [H1 _]. by destruct peek.
  - by rewrite Kc, Hc1.
  - rewrite Kt. by destruct peek.
  - rewrite Ks, Hs1. split_and!; try done.
    intros h b nm HQ [= <- <-]. destruct (pop_queues d rest w h HQ Hq) as [_ Hl]. by exists d.
Qed.

Lemma bind_end_ok off m result w r w' h :
  bind_end RecvFrom m result w = Done (r, w') → queues w h → busy w h →
  state_ (sock w) = UDP_SOCKET_BINDING ∨ closed_ w = true →
  (∀ p, quiet off None p → queues w' (after_call off None p h) ∧ busy w' (after_call off None p h)) ∧
  queues w' h ∧ busy w' h ∧ closed_ w' = closed_ w ∧
  count TaskClose (tasks w') = count TaskClose (tasks w) ∧
  (state_ (sock w') ≠ UDP_SOCKET_BINDING ∨ closed_ w' = true) ∧
  connected_addr_ (sock w') = connected_addr_ (sock w) ∧ (closed_ w = true → ∃ e, r = Err e).
Proof.
  intros E Hq Hb Hs.
  assert (queues w' h ∧ busy w' h ∧ closed_ w' = closed_ w ∧
    count TaskClose (tasks w') = count TaskClose (tasks w) ∧
    (state_ (sock w') ≠ UDP_SOCKET_BINDING ∨ closed_ w' = true) ∧
    connected_addr_ (sock w') = connected_addr_ (sock w) ∧ (closed_ w = true → ∃ e, r = Err e))
    as (Hq' & Hb' & Hrest).
  { destruct (bind_end_run _ _ _ _ _ E) as [(Hc & -> & ->)|[(Hc & He & ->)|(Hc & -> & ->)]].
    - split_and!; try done; [by right|by eexists].
    - destruct Hs as [Hs|?]; [|congruence]. split_and!; try done; [| |by left].
      + apply (queues_frame w); try done. intros _ ?. congruence.
      + intros Hc'. by destruct (Hb Hc').
    - destruct Hs as [Hs|?]; [|congruence].
      set (w1 := set_sock (set_state UDP_SOCKET_BOUND) _).
      destruct (post_read_keeps m w1) as (Kc & Ks & Kt). rewrite Kc, Kt, Ks.
      split_and!; try done; [| |by left| |congruence].
      + apply post_read_queues; [|done|done].
        apply (queues_frame w); try done.
        unfold handed. cbn [w1 effects set_sock add_effect]. by rewrite !omap_app, !app_nil_r.
      + apply post_read_busy; [done|]. by destruct (Hb Hc).
      + unfold post_read. destruct (_ || _); [done|]. by destruct m. }
  split; [|done]. intros p Hp. split; [by apply quiet_queues|].
  intros Hc'. destruct (Hb' Hc') as [H1 H2]. split; [done|]. unfold after_call. cbn [failures].
  by rewrite Nat.add_0_r.
Qed.

(** How a call leaves the state of the socket. *)
Definition call_state (w : World) (p : progress) (w' : World) : Prop :=
  if binds_now p then state_ (sock w) = UDP_SOCKET_NEW ∧ state_ (sock w') = UDP_SOCKET_BINDING
  else state_ (sock w') = state_ (sock w).

Lemma Forall_call_none off rc w p :
  quiet off rc p → binds_now p = false →
  (∀ h, queues w h → call_ok off rc w p w) ∧ call_state w p w.
Proof. intros Hq Hb. unfold call_state. rewrite Hb. split; [|done]. intros h _. by apply call_ok_none. Qed.

Lemma call_ok_effect off rc name b w p w' :
  call_ok off rc (add_effect (SetOption name b) w) p w' → call_ok off rc w p w'.
Proof.
  assert (∀ h, queues w h → queues (add_effect (SetOption name b) w) h) as Hq.
  { intros h Hq. apply (queues_frame w); try done. by rewrite handed_app, app_nil_r. }
  intros []. constructor; try done; intros h Hh; [by apply k_queues0, Hq|].
  intros Hb. by apply k_busy0; [apply Hq|].
Qed.

Lemma setsockopt_ok rc n v l w p w' :
  UdpSocket.setsockopt n v l w = Done (p, w') →
  (∀ h, queues w h → call_ok None rc w p w') ∧ call_state w p w'.
Proof.
  assert (∀ p, p = fail EINVAL ∨ (∃ e, p = fail e) ∨ p = ret 0 → quiet None rc p ∧ binds_now p = false)
    as Hquiet by (intros ? [->|[[? ->]| ->]]; (split; [split; [by left|done]|done])).
  assert (∀ storage, SetSocketBooleanOptionInternal n v l storage w = Done (p, w') →
    (∀ h, queues w h → call_ok None rc w p w') ∧ call_state w p w') as Hbool.
  { intros storage. unfold SetSocketBooleanOptionInternal, this, update, effect_. mon.
    destruct (VerifySetSocketOption _ _ _) as [e|].
    { intros [= <- <-]. apply Forall_call_none; apply Hquiet; eauto. }
    destruct v as [words|]; [|done]. destruct (negb (Bool.eqb _ _)); intros [= <- <-].
    - split; [|done]. intros h _. eapply call_ok_effect, call_ok_same; [apply Hquiet; auto|done|by left].
    - split; [|done]. intros h _. apply call_ok_same; [apply Hquiet; auto|done|by left]. }
  assert (∀ r : res unit * SocketStream,
    (let '(x, o) := r in update (set_options o);; mret (match x with Err e => fail e | Ok _ => ret 0 end))
      w = Done (p, w') → (∀ h, queues w h → call_ok None rc w p w') ∧ call_state w p w') as Hother.
  { intros [[e|[]] o]; intros [= <- <-]; (split; [|done]); intros h _;
      (apply call_ok_same; [apply Hquiet; eauto|done|by left]). }
  unfold UdpSocket.setsockopt.
  pose proof (Hother (SocketOptions.setsockopt n v l (options (sock w)))) as Ho.
  destruct n; first [ exact (Hbool _) | exact Ho ].
Qed.

Lemma start_ok t m c s p w' :
  c ≠ sys_close → closed_ (world s) = false → start m c (world s) = Done (p, w') →
  (∀ h, queues (world s) h →
     call_ok (offered (Start t m c) s) (receives (Start t m c) s) (world s) p w') ∧
  call_state (world s) p w'.
Proof.
  set (w := world s). intros Hclose Hc.
  assert (∀ off rc e, (∀ h, queues w h → call_ok off rc w (fail e) w) ∧ call_state w (fail e) w) as Hfail.
  { intros. apply Forall_call_none; [apply fail_quiet|done]. }
  assert (∀ buf d l, sendto SendTo m buf d l w = Done (p, w') →
    (∀ rc h, queues w h → call_ok (Some {| addr := default (connected_addr_ (sock w)) d; data := buf |})
       rc w p w') ∧ call_state w p w') as Hsend.
  { intros buf d l [[[e ->] ->]|[([a ->] & Hs & ->)|Hq]]%sendto_run.
    - split; [|done]. intros rc h _. apply call_ok_none, fail_quiet.
    - split; [|done]. intros rc h _. apply call_ok_same; [split; [by right|done]|done|by right].
    - split; [intros rc h _|];
        destruct (sendto_queue_ok _ _ _ None _ _ _ Hc Hq) as (_ & Hs & Hb);
        [by apply (sendto_queue_ok _ _ _ rc _ _ _ Hc Hq)|].
      unfold call_state. by rewrite Hb. }
  assert (∀ len peek n l, recvfrom RecvFrom m len peek n l w = Done (p, w') →
    (∀ h, queues w h → call_ok None (Some (len, peek, negb n && bool_decide (is_Some l))) w p w') ∧
    call_state w p w') as Hrecv.
  { intros len peek n l. unfold recvfrom, this. mon. destruct (_ && _).
    - intros [= <- <-]. apply Forall_call_none; [split; [by left|done]|done].
    - intros E. destruct (recvfrom_end_ok None _ _ _ _ _ _ _ _ Hc E) as (Hk & Hs & Hb & _ & _).
      split; [done|]. unfold call_state. by rewrite Hb. }
  destruct c as [a l|a l|buf d l|buf|len peek n l|len peek|n v l|v|]; cbn [start offered receives]; try done.
  - unfold bind, mbind, St_bind. destruct (bind_begin a l w) as [[r w1]| |] eqn:E; try done.
    apply bind_begin_run in E as [(e & -> & ->)|(x & -> & Hs & ->)]; intros [= <- <-]; [apply Hfail|].
    split; [|done]. intros h _. apply call_ok_same; [split; [by left|done]|done|by right].
  - unfold connect, this, update. mon.
    destruct (VerifyInputSocketAddress _ _ _) as [[e|]| |]; try done.
    + destruct a as [a|]; [|intros [= <- <-]; apply Hfail]. destruct (_ || _); [intros [= <- <-]; apply Hfail|].
      intros [= <- <-]. split; [|done]. intros h _. apply call_ok_same; [split; [by left|done]|done|by left].
    + destruct a as [a|]; [|done]. intros [= <- <-]. split; [|done]. intros h _.
      apply call_ok_same; [split; [by left|done]|done|by left].
  - intros E. destruct (Hsend _ _ _ E) as [Hk Hs]. by split; [intros h; apply Hk|].
  - intros E. destruct (Hsend buf None 0 E) as [Hk Hs]. by split; [intros h; apply Hk|].
  - apply Hrecv.
  - unfold recv, this. mon. destruct (negb _); [intros [= <- <-]; apply Hfail|]. apply Hrecv.
  - intros E. by apply (setsockopt_ok None) in E.
  - unfold ioctl, update. mon. intros [= <- <-]. split; [|done]. intros h _.
    apply call_ok_same; [split; [by left|done]|done|by left].
Qed.

Lemma quiet_busy off rc p w h : busy w h → busy w (after_call off rc p h).
Proof.
  intros Hb Hc. destruct (Hb Hc) as [H1 H2]. split; [done|]. unfold after_call. cbn [failures].
  by rewrite Nat.add_0_r.
Qed.

Lemma resume_ok t m result tl s q p w' h :
  paused s !! t = Some q →
  (binds q = true → state_ (sock (world s)) = UDP_SOCKET_BINDING ∨ closed_ (world s) = true) →
  queues (world s) h → busy (world s) h →
  resume RecvFrom SendTo m result tl q (world s) = Done (p, w') →
  let e := Resume t m result tl in
  let h' := after_call (offered e s) (receives e s) p h in
  queues w' h' ∧ busy w' h' ∧ closed_ w' = closed_ (world s) ∧
  count TaskClose (tasks w') = count TaskClose (tasks (world s)) ∧ binds_now p = false ∧
  (if binds q then state_ (sock w') ≠ UDP_SOCKET_BINDING ∨ closed_ w' = true
   else state_ (sock w') = state_ (sock (world s))).
Proof.
  intros Ht Hs Hq Hb. cbv zeta. cbn [offered receives]. rewrite Ht. set (w := world s) in *.
  assert (∀ off rc p, quiet off rc p → queues w (after_call off rc p h) ∧ busy w (after_call off rc p h))
    as Hnone by (intros; by split; [apply quiet_queues|apply quiet_busy]).
  unfold resume, get, mbind, mret, St_bind, St_ret. cbv beta.
  destruct q as [a|a buf d|n|len peek nn l|]; cbn [binds].
  - destruct (bind_end _ _ _ _) as [[r w1]| |] eqn:E; try done. intros [= <- <-].
    destruct (bind_end_ok None _ _ _ _ _ _ E Hq Hb (Hs eq_refl)) as (H1 & _ & _ & H2 & H3 & H4 & _ & _).
    destruct (H1 (match r with Err e => fail e | Ok _ => ret 0 end)) as [Hq' Hb'].
    { destruct r; (split; [by left|done]). }
    split_and!; try done. by destruct r.
  - destruct (bind_end _ _ _ _) as [[r w1]| |] eqn:E; try done.
    destruct (bind_end_ok None _ _ _ _ _ _ E Hq Hb (Hs eq_refl))
      as (_ & Hq1 & Hb1 & H2 & H3 & H4 & H5 & H6).
    destruct r as [e|[]].
    + intros [= <- <-]. split_and!; try done; [|by apply quiet_busy].
      apply quiet_queues; [apply fail_quiet|done].
    + intros E2.
      assert (closed_ w1 = false) as Hc.
      { rewrite H2. destruct (closed_ w); [|done]. by destruct (H6 eq_refl). }
      destruct (sendto_queue_ok _ _ _ None _ _ _ Hc E2) as ([K1 K2 K3 K4] & Hst & Hbn).
      rewrite H5 in *. split_and!; [by apply K1|by apply K2|congruence|congruence|done|].
      rewrite Hst, K3, H2. destruct H4 as [?|?]; [by left|right; congruence].
  - destruct (closed_ w) eqn:Hc; [|case_bool_decide]; intros [= <- <-];
      (split_and!; [by apply Hnone; split; [left|]..|done|done|done|done]).
  - destruct (closed_ w) eqn:Hc; [|destruct (_ && _)];
      try (intros [= <- <-]; split_and!; [by apply Hnone; split; [left|]..|done|done|done|done]).
    intros E. destruct (recvfrom_end_ok None _ _ _ _ _ _ _ _ Hc E) as (Hk & Hst & Hbn & _ & _).
    destruct (Hk h Hq). split_and!; try done; [by auto..|congruence].
  - destruct (closed_ w) eqn:Hc; intros [= <- <-];
      (split_and!; [by apply Hnone; split; [left|]..|done|done|done|done]).
Qed.

(** Evaluates whether two given tasks are the same. *)
Ltac counted H := first [ rewrite bool_decide_true in H by done | rewrite bool_decide_false in H by done ];
  cbn [of_bool] in H.

Lemma run_task_ok i k w x w' h :
  tasks w !! i = Some k → queues w h → busy w h →
  run_task k (set_tasks (delete i (tasks w)) w) = Done (x, w') →
  queues w' h ∧ busy w' h ∧ state_ (sock w') = state_ (sock w) ∧
  (k ≠ TaskClose → closed_ w' = closed_ w ∧
     count TaskClose (tasks w') = count TaskClose (tasks w)) ∧
  (closed_ w = true → closed_ w' = true).
Proof.
  intros Hi Hq Hb.
  assert (closed_ w = false) as Hc.
  { destruct (closed_ w) eqn:Hc; [|done]. destruct (q_closed _ _ Hq Hc) as (E & _). by rewrite E in Hi. }
  pose proof (λ j, count_delete j _ _ _ Hi) as Hn.
  set (w0 := set_tasks (delete i (tasks w)) w).
  destruct k; cbn [run_task].
  - unfold Read, ReadLocked. mon. destruct (_ =? _); [|done]. intros [= <- <-].
    split; [|split; [by destruct (Hb Hc)|split; [done|split; [|done]]]].
    + pose proof (Hn TaskRead) as Hr. pose proof (Hn TaskWrite) as Hw. counted Hr. counted Hw.
      destruct Hq. specialize (q_read0 Hc). specialize (q_write0 Hc).
      constructor; cbn [w0 set_tasks set_receiving sock closed_ receiving sending tasks]; try done;
        [lia|lia|congruence].
    + intros _. split; [done|]. pose proof (Hn TaskClose) as Hr. counted Hr.
      cbn [w0 set_tasks set_receiving set_sending add_effect tasks]. lia.
  - unfold Write. intros E. pose proof (write_run _ _ _ E) as (m & rest & a & _ & _ & Ew).
    split.
    + apply (write_locked_queues _ _ _ _ E); [|done]. apply (queues_frame w); try done.
      * cbn [w0 set_tasks tasks]. rewrite count_app. pose proof (Hn TaskRead) as Hr. counted Hr.
        change (count TaskRead [TaskWrite]) with 0%nat. lia.
      * cbn [w0 set_tasks tasks]. rewrite count_app. pose proof (Hn TaskWrite) as Hr. counted Hr.
        change (count TaskWrite [TaskWrite]) with 1%nat. lia.
      * congruence.
    + subst w'. split; [by destruct (Hb Hc)|]. split; [done|]. split; [|done]. intros _. split; [done|].
      pose proof (Hn TaskClose) as Hr. counted Hr.
      cbn [w0 set_tasks set_receiving set_sending add_effect tasks]. lia.
  - unfold Close, CancelAll, wrapper_Close, effect_. mon. rewrite Hc. intros [= <- <-].
    split; [|split; [by intros ?|split; [done|split; [done|done]]]].
    destruct Hq. destruct q_handed0 as (n & H1 & H2 & H3 & H4).
    constructor; cbn [w0 set_tasks set_receiving set_sending set_closed add_effect sock closed_ receiving
      sending tasks]; try done. exists n. split_and!; try done; try lia.
    unfold handed. cbn. by rewrite !omap_app, !app_nil_r.
Qed.

Record sinv (s : System) (h : History) : Prop := {
  s_queues : queues (world s) h;
  s_busy : busy (world s) h;
  s_open : is_open s = true → closed_ (world s) = false ∧ count TaskClose (tasks (world s)) = 0%nat;
  s_bind : ∀ t p, paused s !! t = Some p → binds p = true →
    closed_ (world s) = true ∨ state_ (sock (world s)) = UDP_SOCKET_BINDING;
  s_alone : closed_ (world s) = false → ∀ t p t' p', paused s !! t = Some p → binds p = true →
    paused s !! t' = Some p' → binds p' = true → t = t';
}.

Definition pause_of (t : nat) (p : progress) (m : gmap nat pause) : gmap nat pause :=
  match p with Paused q => <[t := q]> m | Returned _ => delete t m end.

Lemma pause_of_binds t p m t' q :
  pause_of t p m !! t' = Some q → binds q = true →
  (t' = t ∧ binds_now p = true) ∨ (t' ≠ t ∧ m !! t' = Some q).
Proof.
  unfold pause_of. destruct p as [r|q'], (decide (t' = t)) as [-> |Hne].
  - by rewrite lookup_delete_eq.
  - rewrite lookup_delete_ne by done. auto.
  - rewrite lookup_insert_eq. intros [= ->] Hb. by left.
  - rewrite lookup_insert_ne by done. auto.
Qed.

Lemma start_step t m c s p s' h :
  sinv s h → enabled (Start t m c) s = true → perform (Start t m c) s = Done (p, s') →
  sinv s' (observe (Start t m c) s p h).
Proof.
  intros [Hq Hb Ho Hbd Hal] [Hop Hnt%bool_decide_eq_true]%andb_true_iff.
  destruct (Ho Hop) as [Hc Hcl].
  assert (∀ x, start m c (world s) = Done x → c ≠ sys_close ∨ c = sys_close) as Hdec.
  { intros _ _. destruct c; by (left + right). }
  unfold perform, on_world, set_pause, forget_descriptor, mbind, mret, St_bind, St_ret, modify. cbv beta.
  destruct (start m c (world s)) as [[q w']| |] eqn:E; try done.
  destruct (Hdec _ eq_refl) as [Hne| ->].
  - destruct (start_ok t m c s q w' Hne Hc E) as [Hk Hst]. destruct (Hk h Hq) as [K1 K2 K3 K4].
    intros Heq. assert (p = Some q ∧ s' = {| world := w'; paused := pause_of t q (paused s);
                                              is_open := is_open s |}) as [-> ->]
      by (destruct c; try done; by injection Heq as <- <-).
    assert (∀ t' p', pause_of t q (paused s) !! t' = Some p' → binds p' = true →
      closed_ w' = true ∨ state_ (sock w') = UDP_SOCKET_BINDING ∧
        (binds_now q = true → t' = t) ∧ (binds_now q = false → paused s !! t' = Some p')) as Hall.
    { intros t' p' Hl Hp. unfold call_state in Hst.
      destruct (pause_of_binds _ _ _ _ _ Hl Hp) as [[-> Hbn]|[Hnt' Hl']].
      - rewrite Hbn in *. right. split; [by destruct Hst|done].
      - destruct (Hbd _ _ Hl' Hp) as [?|Hs]; [left; congruence|].
        destruct (binds_now q); [destruct Hst; congruence|]. right. split; [congruence|done]. }
    constructor; cbn [world paused is_open]; [by apply K1|by apply K2| | |].
    + intros _. by rewrite K3, K4.
    + intros t' p' Hl Hp. destruct (Hall t' p' Hl Hp) as [?|[? _]]; auto.
    + intros Hc' t1 p1 t2 p2 H1 B1 H2 B2.
      destruct (Hall _ _ H1 B1) as [?|(_ & A1 & A1')]; [congruence|].
      destruct (Hall _ _ H2 B2) as [?|(_ & A2 & A2')]; [congruence|].
      destruct (binds_now q); [by rewrite A1, A2|]. eapply (Hal Hc); eauto.
  - unfold start, OnLastFileRef, CloseLocked, CallOnMainThread in E. mon. rewrite Hc in E.
    injection E as <- <-. intros [= <- <-].
    constructor; cbn [world paused is_open set_tasks closed_ tasks sock]; try done.
    + apply (quiet_queues None None); [split; [by left|done]|].
      apply (queues_frame (world s)); try done; cbn [set_tasks tasks];
        [by rewrite count_app, Nat.add_0_r..|congruence].
    + by apply (quiet_busy None None).
    + intros t' p' Hl Hp. apply (pause_of_binds t (Paused InClose)) in Hl as [[_ ?]|[_ Hl]]; [done|by apply (Hbd t' p')|done].
    + intros _ t1 p1 t2 p2 H1 B1 H2 B2.
      apply (pause_of_binds t (Paused InClose)) in H1 as [[_ ?]|[_ H1]]; [done| |done].
      apply (pause_of_binds t (Paused InClose)) in H2 as [[_ ?]|[_ H2]]; [done| |done].
      eapply (Hal Hc); eauto.
Qed.

Lemma resume_step t m result tl s p s' h :
  sinv s h → perform (Resume t m result tl) s = Done (p, s') →
  sinv s' (observe (Resume t m result tl) s p h).
Proof.
  intros [Hq Hb Ho Hbd Hal].
  unfold perform, on_world, set_pause, get, mbind, mret, St_bind, St_ret, modify. cbv beta.
  destruct (paused s !! t) as [q0|] eqn:Ht; [|done].
  destruct (resume _ _ _ _ _ _ _) as [[q w']| |] eqn:E; try done. intros [= <- <-].
  destruct (resume_ok t m result tl s q0 q w' h Ht) as (K1 & K2 & K3 & K4 & K5 & K6); try done.
  { intros Hbq. destruct (Hbd _ _ Ht Hbq); auto. }
  change (match q with Returned _ => delete t (paused s) | Paused q => <[t:=q]> (paused s) end)
    with (pause_of t q (paused s)).
  assert (∀ t' p', pause_of t q (paused s) !! t' = Some p' → binds p' = true →
    t' ≠ t ∧ paused s !! t' = Some p') as Hall.
  { intros t' p' Hl Hp. destruct (pause_of_binds _ _ _ _ _ Hl Hp) as [[_ ?]|?]; [congruence|done]. }
  constructor; cbn [world paused is_open]; try done.
  - intros Hop. rewrite K3, K4. auto.
  - intros t' p' Hl Hp. destruct (Hall _ _ Hl Hp) as [Hne Hl'].
    destruct (Hbd _ _ Hl' Hp) as [?|Hs]; [left; congruence|].
    destruct (closed_ w') eqn:Hc'; [by left|]. destruct (binds q0) eqn:Hb0; [|right; congruence].
    destruct Hne. eapply (Hal ltac:(congruence)); eauto.
  - intros Hc' t1 p1 t2 p2 H1 B1 H2 B2.
    destruct (Hall _ _ H1 B1) as [_ L1], (Hall _ _ H2 B2) as [_ L2].
    eapply (Hal ltac:(congruence)); eauto.
Qed.

(** Work on the main thread leaves the threads alone. *)
Lemma sinv_world s w' h h' :
  sinv s h → queues w' h' → busy w' h' → state_ (sock w') = state_ (sock (world s)) →
  (closed_ (world s) = true → closed_ w' = true) →
  (is_open s = true → closed_ w' = false ∧ count TaskClose (tasks w') = 0%nat) →
  sinv {| world := w'; paused := paused s; is_open := is_open s |} h'.
Proof.
  intros [Hq Hb Ho Hbd Hal] Hq' Hb' Hs Hcl Ho'. constructor; cbn [world paused is_open]; try done.
  - intros t p Ht Hp. rewrite Hs. destruct (Hbd t p Ht Hp); auto.
  - intros Hc. apply Hal. destruct (closed_ (world s)); [|done]. by rewrite Hcl in Hc.
Qed.

Lemma sinv_keeps s w' h h' :
  sinv s h → queues w' h' → busy w' h' → keeps (world s) w' →
  sinv {| world := w'; paused := paused s; is_open := is_open s |} h'.
Proof.
  intros Hi Hq Hb (K1 & K2 & K3). apply (sinv_world s w' h); try done; [congruence|].
  intros Hop. rewrite K1, K3. by apply (s_open _ _ Hi).
Qed.

Lemma busy_history w h h' : busy w h → failures h' = failures h → busy w h'.
Proof. intros Hb Hf Hc. destruct (Hb Hc) as [H1 H2]. split; [done|]. by rewrite Hf. Qed.

Lemma sinv_step e s p s' h :
  sinv s h → enabled e s = true → perform e s = Done (p, s') → sinv s' (observe e s p h).
Proof.
  intros Hi He. pose proof Hi as [Hq Hb Ho Hbd Hal].
  destruct e as [t m c|t m r tl|i|r buf a x|r].
  - intros E. destruct (perform (Start t m c) s) as [[[q|] s1]| |] eqn:E'; try done;
      injection E as <- <-; by apply start_step.
  - by apply resume_step.
  - unfold perform, on_world, get, mbind, mret, St_bind, St_ret, modify. cbv beta.
    destruct (tasks (world s) !! i) as [k|] eqn:Hk; [|done].
    destruct (run_task k _) as [[y w']| |] eqn:E; try done. intros [= <- <-].
    destruct (run_task_ok i k _ _ _ h Hk Hq Hb E) as (K1 & K2 & K3 & K4 & K5).
    apply (sinv_world s w' h); [done|..|done|done|].
    + apply (queues_history _ _ _ K1); cbn; by rewrite ?Nat.add_0_r, ?app_nil_r.
    + apply (busy_history _ _ _ K2). cbn. by rewrite Nat.add_0_r.
    + intros Hop. destruct (Ho Hop) as [Hc Hn]. destruct (decide (k = TaskClose)) as [-> |Hne].
      * rewrite (count_delete _ _ _ _ Hk) in Hn. counted Hn. lia.
      * destruct (K4 Hne) as [-> ->]. done.
  - cbn [enabled] in He. apply andb_true_iff in He as [[He _]%andb_true_iff _].
    apply Nat.ltb_lt in He.
    unfold perform, on_world, mbind, mret, St_bind, St_ret, modify. cbv beta.
    destruct (OnRead _ _ _ _ _ _) as [[y w']| |] eqn:E; try done. intros [= <- <-].
    assert (closed_ (world s) = false) as Hc.
    { destruct (closed_ (world s)) eqn:Hc; [|done]. destruct (q_closed _ _ Hq Hc) as (_ & ? & _). lia. }
    pose proof (OnRead_queues _ _ _ _ _ _ _ _ Hq He E) as K1.
    destruct (OnRead_keeps _ _ _ _ _ _ _ _ Hq He (proj1 (Hb Hc)) E) as [K2 K3].
    apply (sinv_keeps s w' h); [done| |by apply K3|done].
    apply (queues_history _ _ _ K1); cbn; by rewrite ?Nat.add_0_r, ?app_nil_r.
  - cbn [enabled] in He. apply andb_true_iff in He as [He _]. apply Nat.ltb_lt in He.
    unfold perform, on_world, mbind, mret, St_bind, St_ret, modify. cbv beta.
    destruct (OnWrite _ _ _) as [[y w']| |] eqn:E; try done. intros [= <- <-].
    assert (closed_ (world s) = false) as Hc.
    { destruct (closed_ (world s)) eqn:Hc; [|done]. destruct (q_closed _ _ Hq Hc) as (_ & _ & ?). lia. }
    destruct (OnWrite_queues _ _ _ _ _ Hq He E) as (K1 & K2 & K3).
    apply (sinv_keeps s w' h); [done| | |exact (same_reading_keeps _ _ K2)].
    + apply (queues_history _ _ _ K1); cbn; by rewrite ?Nat.add_0_r, ?app_nil_r.
    + intros _. split; [done|]. destruct (Hb Hc) as [_ H2].
      destruct K2 as (Hs & _). cbn [observe failures]. rewrite Nat.add_0_r.
      destruct Hs as [-> | ->]; exact H2.
Qed.

Lemma new_sinv family oflag w :
  UDPSocket_new family oflag = Done w →
  sinv {| world := w; paused := ∅; is_open := true |} no_history.
Proof.
  unfold UDPSocket_new. mon. destruct (_ || _); [|done]. intros [= <-].
  constructor; cbn; try done.
  constructor; cbn; try done; try (unfold kQueueSize; lia).
  exists 0%nat. split_and!; try done; lia.
Qed.

Lemma reach_sinv allowed s h : reach allowed s h → sinv s h.
Proof. induction 1; [by eapply new_sinv|by eapply sinv_step]. Qed.

(** ** A socket that hears nothing more *)

(** Bound, with nothing queued and no read on its way. *)
Definition deaf (w : World) : Prop :=
  state_ (sock w) = UDP_SOCKET_BOUND ∧ read_sent_ (sock w) = false ∧ in_queue_ (sock w) = [].

Inductive later : System → System → Prop :=
| later_refl s : later s s
| later_step s1 e p s2 s3 :
    enabled e s1 = true → perform e s1 = Done (p, s2) → later s2 s3 → later s1 s3.

Lemma deaf_same w w' :
  deaf w → state_ (sock w') = state_ (sock w) → read_sent_ (sock w') = read_sent_ (sock w) →
  in_queue_ (sock w') = in_queue_ (sock w) → deaf w'.
Proof. unfold deaf. by intros (? & ? & ?) -> -> ->. Qed.

Lemma same_reading_deaf w w' : same_reading w w' → deaf w → deaf w'.
Proof. intros ([E | E] & _) Hd; apply (deaf_same w); try done; by rewrite E. Qed.

Lemma sendto_queue_deaf m buf d w p w' :
  sendto_queue SendTo m buf d w = Done (p, w') → deaf w → deaf w' ∧ is_received (Some p) = false.
Proof.
  intros [[[e ->] ->]|(Ht & _ & x & E)]%sendto_queue_run Hd; [done|].
  split; [|by destruct p as [[|[|]]|]].
  set (d' := {| addr := _; data := _ |}) in *.
  assert (deaf (set_sock (push_out d') w)) as Hd' by done. revert E Hd'. generalize (set_sock (push_out d') w).
  intros w1 [[_ ->]|(_ & _ & [-> |(? & ? & ? & _ & _ & ->)%write_run])]%post_write_run; done.
Qed.

Lemma recvfrom_end_deaf m len peek n l w p w' :
  recvfrom_end RecvFrom m len peek n l w = Done (p, w') → deaf w → deaf w' ∧ is_received (Some p) = false.
Proof.
  intros [(_ & -> & ->)|(d & rest & name & Hq & _)]%recvfrom_end_run Hd; [done|].
  destruct Hd as (_ & _ & Hd). congruence.
Qed.

Lemma start_deaf m c w p w' :
  start m c w = Done (p, w') → deaf w → deaf w' ∧ is_received (Some p) = false.
Proof.
  intros E Hd. pose proof Hd as (Hs & _ & Hq).
  assert (∀ buf d l, sendto SendTo m buf d l w = Done (p, w') → deaf w' ∧ is_received (Some p) = false)
    as Hsend.
  { intros buf d l [[[e ->] ->]|[(_ & Hn & _)|H]]%sendto_run; [done|congruence|].
    by eapply sendto_queue_deaf. }
  assert (∀ len peek n l, recvfrom RecvFrom m len peek n l w = Done (p, w') →
    deaf w' ∧ is_received (Some p) = false) as Hrecv.
  { intros len peek n l. unfold recvfrom, this. mon. destruct (_ && _); [by intros [= <- <-]|].
    intros H. by eapply recvfrom_end_deaf. }
  destruct c as [a l|a l|buf d l|buf|len peek n l|len peek|n v l|v|]; cbn [start] in E.
  - unfold bind, mbind, St_bind in E. destruct (bind_begin a l w) as [[r w1]| |] eqn:Eb; try done.
    apply bind_begin_run in Eb as [(e & -> & ->)|(x & _ & Hn & _)]; [|congruence]. by injection E as <- <-.
  - revert E. unfold connect, this, update. mon.
    destruct (VerifyInputSocketAddress _ _ _) as [[e|]| |]; try done;
      (destruct a as [a|]; [|by intros [= <- <-] || done]); [destruct (_ || _)|]; by intros [= <- <-].
  - by eapply Hsend.
  - by apply (Hsend buf None 0).
  - by eapply Hrecv.
  - revert E. unfold recv, this. mon. destruct (negb _); [by intros [= <- <-]|]. apply Hrecv.
  - assert (∀ f, w' = set_sock (λ u, set_options (f u) u) w ∨
        (∃ b, w' = set_sock (λ u, set_options (f u) u) (add_effect (SetOption n b) w)) → deaf w') as Hf
      by (by intros f [-> | [b ->]]).
    revert E. unfold UdpSocket.setsockopt, SetSocketBooleanOptionInternal, this, update, effect_.
    destruct n; mon; repeat case_match; intros; simplify_eq/=; done.
  - unfold ioctl, update in E. mon. by injection E as <- <-.
  - unfold OnLastFileRef, CloseLocked, CallOnMainThread in E. mon. destruct (negb _) in E; [|done].
    by injection E as <- <-.
Qed.

Lemma deaf_step e p s s' h :
  sinv s h → enabled e s = true → perform e s = Done (p, s') → deaf (world s) →
  deaf (world s') ∧ is_received p = false.
Proof.
  intros [Hq Hb Ho Hbd Hal] He E Hd. pose proof Hd as (Hs & Hr & Hqe).
  assert (receiving (world s) = 0%nat ∧ count TaskRead (tasks (world s)) = 0%nat) as [Hr0 Ht0].
  { destruct (closed_ (world s)) eqn:Hc.
    - destruct (q_closed _ _ Hq Hc) as (-> & -> & _). done.
    - pose proof (q_read _ _ Hq Hc) as H. rewrite Hr in H. cbn [of_bool] in H. lia. }
  revert E. destruct e as [t m c|t m r tl|i|r buf a x|r];
    unfold perform, on_world, set_pause, forget_descriptor, get, mbind, mret, St_bind, St_ret, modify; cbv beta.
  - destruct (start m c (world s)) as [[q w']| |] eqn:E; try done.
    destruct (start_deaf _ _ _ _ _ E Hd). destruct c; by intros [= <- <-].
  - destruct (paused s !! t) as [q|] eqn:Ht; [|done].
    destruct (resume _ _ _ _ _ _ _) as [[q' w']| |] eqn:E; try done. intros [= <- <-]. cbn [world].
    assert (binds q = true → closed_ (world s) = true) as Hbc.
    { intros Hbq. destruct (Hbd _ _ Ht Hbq) as [?|?]; [done|congruence]. }
    revert E. unfold resume, get, mbind, mret, St_bind, St_ret. cbv beta.
    destruct q as [a|a buf d|n|len peek nn l|]; cbn [binds] in Hbc.
    1,2: destruct (bind_end _ _ _ _) as [[r' w1]| |] eqn:E; try done;
      apply bind_end_run in E as [(_ & -> & ->)|[(Hc & _)|(Hc & _)]];
      [by intros [= <- <-]|by rewrite (Hbc eq_refl) in Hc..].
    + destruct (closed_ (world s)); [|case_bool_decide]; by intros [= <- <-].
    + destruct (closed_ (world s)); [by intros [= <- <-]|]. destruct (_ && _); [by intros [= <- <-]|].
      intros E. by eapply recvfrom_end_deaf.
    + destruct (closed_ (world s)); by intros [= <- <-].
  - destruct (tasks (world s) !! i) as [k|] eqn:Hk; [|done].
    destruct (run_task k _) as [[y w']| |] eqn:E; try done. intros [= <- <-]. split; [|done]. cbn [world].
    destruct k; cbn [run_task] in E.
    + rewrite (count_delete _ _ _ _ Hk) in Ht0. counted Ht0. lia.
    + by apply write_run in E as (? & ? & ? & _ & _ & ->).
    + unfold Close, CancelAll, wrapper_Close, effect_ in E. mon.
      destruct (closed_ (world s)); by injection E as <- <-.
  - cbn [enabled] in He. rewrite Hr0 in He. done.
  - cbn [enabled] in He. apply andb_true_iff in He as [He _]. apply Nat.ltb_lt in He.
    destruct (OnWrite _ _ _) as [[y w']| |] eqn:E; try done. intros [= <- <-]. split; [|done].
    destruct (OnWrite_queues _ _ _ _ _ Hq He E) as (_ & K & _).
    by apply (same_reading_deaf _ _ K).
Qed.

Lemma later_deaf s s' h : sinv s h → later s s' → deaf (world s) → deaf (world s') ∧ ∃ h', sinv s' h'.
Proof.
  intros Hi Hl. revert h Hi. induction Hl as [s|s1 e p s2 s3 He E _ IH]; intros h Hi Hd; [by eauto|].
  destruct (deaf_step _ _ _ _ _ Hi He E Hd) as [Hd' _]. eapply IH; [by eapply sinv_step|done].
Qed.

Lemma setsockopt_received n v l w p w' :
  UdpSocket.setsockopt n v l w = Done (p, w') → is_received (Some p) = false.
Proof.
  unfold UdpSocket.setsockopt, SetSocketBooleanOptionInternal, this, update, effect_.
  destruct n; mon; repeat case_match; intros; by simplify_eq/=.
Qed.

Lemma connect_received a l w p w' :
  connect a l w = Done (p, w') → is_received (Some p) = false.
Proof. unfold connect, this, update. mon. repeat case_match; intros; by simplify_eq/=. Qed.

Lemma bind_received a l w p w' :
  bind a l w = Done (p, w') → is_received (Some p) = false.
Proof.
  unfold bind, mbind, St_bind. destruct (bind_begin a l w) as [[r w1]| |]; try done.
  destruct r; by intros [= <- _].
Qed.

Lemma OnLastFileRef_received w p w' :
  OnLastFileRef w = Done (p, w') → is_received (Some p) = false.
Proof.
  unfold OnLastFileRef, CloseLocked, CallOnMainThread. mon. destruct (closed_ w); [done|].
  by intros [= <- _].
Qed.

Lemma perform_received e s p s' :
  perform e s = Done (p, s') → is_received p = true →
  ∃ m len peek n l, receives e s = Some (len, peek, negb n && bool_decide (is_Some l)) ∧
    match p with
    | Some q => recvfrom_end RecvFrom m len peek n l (world s) = Done (q, world s') | None => False
    end.
Proof.
  intros E Hr.
  assert (∀ m len peek n l w q w', recvfrom RecvFrom m len peek n l w = Done (q, w') →
    is_received (Some q) = true → recvfrom_end RecvFrom m len peek n l w = Done (q, w')) as Hrecv.
  { intros m len peek n l w q w'. unfold recvfrom, this. mon.
    destruct (_ && _); [by intros [= <- <-]|done]. }
  assert (∀ m buf d l w q w', sendto SendTo m buf d l w = Done (q, w') → is_received (Some q) = true → False)
    as Hsend.
  { intros m buf d l w q w' [[[x ->] _]|[([x ->] & _)|[[[x ->] _]|(H & _)]%sendto_queue_run]]%sendto_run Hq;
      try done. by destruct q as [[|[|]]|]. }
  revert E. destruct e as [t m c|t m r tl|i|r buf a x|r];
    unfold perform, on_world, set_pause, forget_descriptor, get, mbind, mret, St_bind, St_ret, modify; cbv beta.
  - destruct (start m c (world s)) as [[q w']| |] eqn:E; try done. intros Heq.
    assert (p = Some q ∧ world s' = w') as [-> <-] by (destruct c; by injection Heq as <- <-).
    destruct c as [a l|a l|buf d l|buf|len peek n l|len peek|n v l|v|]; cbn [start receives] in E |- *.
    + apply bind_received in E. congruence.
    + apply connect_received in E. congruence.
    + by destruct (Hsend _ _ _ _ _ _ _ E).
    + by destruct (Hsend m buf None 0 _ _ _ E).
    + exists m, len, peek, n, l. by split; [|apply Hrecv].
    + exists m, len, peek, true, None. split; [done|]. revert E. unfold recv, this. mon.
      destruct (negb _); [by intros [= <- _]|]. intros E. by apply Hrecv.
    + apply setsockopt_received in E. congruence.
    + unfold ioctl, update in E. mon. by simplify_eq/=.
    + apply OnLastFileRef_received in E. congruence.
  - cbn [receives]. destruct (paused s !! t) as [q|] eqn:Ht; [|done].
    destruct (resume _ _ _ _ _ _ _) as [[q' w']| |] eqn:E; try done. intros [= <- <-]. cbn [world].
    revert E. unfold resume, get, mbind, mret, St_bind, St_ret. cbv beta.
    destruct q as [a|a buf d|n|len peek nn l|].
    + destruct (bind_end _ _ _ _) as [[[] w1]| |]; try done; by intros [= <- <-].
    + destruct (bind_end _ _ _ _) as [[[] w1]| |]; try done; [by intros [= <- <-]|].
      intros [[[x ->] _]|(H & _)]%sendto_queue_run; [done|]. by destruct q' as [[|[|]]|].
    + destruct (closed_ (world s)); [|case_bool_decide]; by intros [= <- <-].
    + destruct (closed_ (world s)); [by intros [= <- <-]|]. destruct (_ && _); [by intros [= <- <-]|].
      intros E. by exists m, len, peek, nn, l.
    + destruct (closed_ (world s)); by intros [= <- <-].
  - destruct (tasks (world s) !! i); [|done]. destruct (run_task _ _) as [[]| |]; try done. by intros [= <- _].
  - destruct (OnRead _ _ _ _ _ _) as [[]| |]; try done. by intros [= <- _].
  - destruct (OnWrite _ _ _) as [[]| |]; try done. by intros [= <- _].
Qed.

(** ** Theorems *)

(** C26.  A datagram socket is two queues of whole datagrams, in any interleaving of
    threads, main thread and Pepper.  What callers of [sendto] handed over and what
    is still queued: the datagrams whose [SendTo] has completed are the first ones, in
    order, the rest is the queue, and Pepper's [SendTo] was called with the datagrams in
    this order, each once, the next one only after the one before it completed; while
    the socket is open and something is queued exactly one task or call is on its way
    to send it.  What Pepper received from an acceptable source: the datagrams that
    callers took are the first ones, in order, the rest is the queue, which never has
    more than 16; and whatever call of [recvfrom] succeeds gets the first datagram that
    was not taken, cut to the length asked for, with its source. *)
Theorem udp_socket_is_two_queues s h :
  reach any_event s h →
  let w := world s in
  out_queue_ (sock w) = drop (completed h) (accepted h) ∧
  (∃ n, (completed h <= n <= S (completed h))%nat ∧
     Forall2 hands (take n (accepted h)) (handed w)) ∧
  (closed_ w = false → (sending w + count TaskWrite (tasks w) =
     of_bool (negb (bool_decide (out_queue_ (sock w) = []))))%nat) ∧
  in_queue_ (sock w) = drop (taken h) (arrived h) ∧
  (List.length (in_queue_ (sock w)) <= kQueueSize)%nat ∧
  ∀ e s' b name, enabled e s = true →
    perform e s = Done (Some (Returned (Ok (Received b name))), s') →
    ∃ len peek want d, receives e s = Some (len, peek, want) ∧ arrived h !! taken h = Some d ∧
      b = take len (data d) ∧ (if want then ∃ c k, name = Some (addr d, c, k) else name = None).
Proof.
  intros Hr w. destruct (reach_sinv _ _ _ Hr) as [Hq Hb Ho _ _]. fold w in Hq, Hb, Ho.
  pose proof Hq as [Q1 Q2 Q3 Q4 Q5 Q6 Q7 (n & N1 & N2 & N3 & N4) Q9 Q10].
  split; [done|]. split; [exists n; split; [lia|done]|]. split; [|split; [done|split; [lia|]]].
  - intros Hc. rewrite (Q6 Hc). destruct (Hb Hc) as [H1 _]. case_bool_decide as He; cbn [negb of_bool].
    + destruct (write_sent_ (sock w)) eqn:E; [by destruct (Q7 eq_refl)|done].
    + by rewrite H1.
  - intros e s' b name He E.
    destruct (perform_received _ _ _ _ E eq_refl) as (m & len & peek & nn & l & Hrc & Ee).
    assert (closed_ w = false) as Hc.
    { destruct (closed_ w) eqn:Hc; [|done]. destruct e as [t m' c|t m' r tl|?|?|?]; try done.
      - cbn [enabled] in He. apply andb_true_iff in He as [He _]. by destruct (Ho He).
      - revert E. unfold perform, on_world, get, mbind, mret, St_bind, St_ret. cbv beta.
        cbn [receives] in Hrc. destruct (paused s !! t) as [[| | |? ? ? ?|]|]; try done.
        unfold resume, get, mbind, mret, St_bind, St_ret. cbv beta. fold w. rewrite Hc. done. }
    destruct (recvfrom_end_ok None _ _ _ _ _ _ _ _ Hc Ee) as (_ & _ & _ & _ & Hget).
    destruct (Hget h b name Hq eq_refl) as (d & Hd & -> & Hn). by exists len, peek, (negb nn && bool_decide (is_Some l)), d.
Qed.

(** C27.  A bound socket reads ahead, until a read fails.  While it is open, there is at
    most one task or call of Pepper that reads, the flag [read_sent_] says whether
    there is one, and if there is none although no read ever failed then 16 datagrams
    wait.  But a failed read is not followed by another one: a bound socket that has no
    datagram and no read on its way, which is where a failed read leaves a socket whose
    queue is empty, never delivers a datagram again, whatever is called. *)
Theorem udp_socket_reads_ahead s h :
  reach any_event s h →
  let w := world s in
  (closed_ w = false →
     (receiving w + count TaskRead (tasks w) = of_bool (read_sent_ (sock w)))%nat ∧
     (state_ (sock w) = UDP_SOCKET_BOUND → failures h = 0%nat →
        read_sent_ (sock w) = true ∨ List.length (in_queue_ (sock w)) = kQueueSize)) ∧
  (∀ result buf a x p s', enabled (Datagram result buf a x) s = true → result < 0 →
     in_queue_ (sock w) = [] → perform (Datagram result buf a x) s = Done (p, s') → deaf (world s')) ∧
  (deaf w → ∀ s1 e p s2, later s s1 → enabled e s1 = true → perform e s1 = Done (p, s2) →
     is_received p = false).
Proof.
  intros Hr w. pose proof (reach_sinv _ _ _ Hr) as Hi. pose proof Hi as [Hq Hb Ho _ _]. fold w in Hq, Hb, Ho.
  split; [|split].
  - intros Hc. split; [by apply (q_read _ _ Hq)|]. intros Hs Hf. destruct (Hb Hc) as [_ H2].
    destruct (read_sent_ (sock w)) eqn:E; [by left|right].
    pose proof (q_room _ _ Hq). specialize (H2 Hs Hf eq_refl). lia.
  - intros r buf a x p s' He Hneg Hempty. cbn [enabled] in He.
    apply andb_true_iff in He as [[He _]%andb_true_iff _]. apply Nat.ltb_lt in He. fold w in He.
    assert (closed_ w = false) as Hc.
    { destruct (closed_ w) eqn:Hc; [|done]. destruct (q_closed _ _ Hq Hc) as (_ & ? & _). lia. }
    pose proof (q_read _ _ Hq Hc) as Hn.
    assert (state_ (sock w) = UDP_SOCKET_BOUND) as Hbd.
    { destruct (decide (state_ (sock w) = UDP_SOCKET_BOUND)); [done|].
      destruct (q_unbound _ _ Hq) as [_ E]; [done|]. rewrite E in Hn. cbn in Hn. lia. }
    unfold perform, on_world, mbind, mret, St_bind, St_ret, modify. cbv beta. fold w.
    destruct (OnRead _ _ _ _ _ _) as [[y w']| |] eqn:E; try done. intros [= _ <-]. cbn [world].
    apply OnRead_run in E as ->. by rewrite (proj2 (Z.ltb_lt r 0)).
  - intros Hd s1 e p s2 Hl He E. destruct (later_deaf _ _ _ Hi Hl Hd) as [Hd1 [h1 Hi1]].
    by destruct (deaf_step _ _ _ _ _ Hi1 He E Hd1).
Qed.
End Runs.

(** ** A run *)

(** Pepper sends only what a bound socket asks it to send. *)
Definition pepper_read (w : World) : Z := PP_OK_COMPLETIONPENDING.
Definition pepper_write (w : World) : Z :=
  if bool_decide (state_ (sock w) = UDP_SOCKET_BOUND) then PP_OK_COMPLETIONPENDING else -2.

Definition host : sockaddr_storage := sockaddr_in 53 [8; 8; 8; 8].

(** A thread sends two bytes without binding; the socket is bound, the datagram goes
    out, and an answer of three bytes comes in. *)
Definition query : list event :=
  [ Start 1 false (sys_sendto (lit "ab") (Some host) 16);
    Resume 1 false PP_OK false;
    Main 1; Main 0; Sent 2; Resume 1 false 0 false;
    Datagram 3 (lit "xyz___") (NetAddress_IPv4 53 [8; 8; 8; 8]) unconnected ].

Definition run_from_new (es : list event) : option (System * History) :=
  match UDPSocket_new AF_INET 0 with
  | Done w => run_events pepper_read pepper_write any_event es
                {| world := w; paused := ∅; is_open := true |} no_history
  | _ => None
  end.

Lemma run_from_new_reach es s h :
  run_from_new es = Some (s, h) → reach pepper_read pepper_write any_event s h.
Proof.
  unfold run_from_new. destruct (UDPSocket_new AF_INET 0) as [w| |] eqn:E; try done.
  apply run_events_reach. by econstructor.
Qed.

Definition state_after (es : list event) : System * History :=
  default ({| world := default (mkWorld (mkUDPSocket 0 0 SocketStream_new UDP_SOCKET_NEW [] [] false false
                                           unconnected) true [] 0 0 []) None;
              paused := ∅; is_open := false |}, no_history) (run_from_new es).

Lemma udp_socket_is_two_queues_witness :
  let s := (state_after query).1 in
  let h := (state_after query).2 in
  let e := Start 2 false (sys_recvfrom 2 false false (Some 16)) in
  run_from_new query = Some (s, h) ∧ accepted h = [{| addr := host; data := "ab" |}] ∧
  out_queue_ (sock (world s)) = [] ∧
  ∃ d s' len, arrived h !! taken h = Some d ∧ lit "xy" = take len (data d) ∧
    perform pepper_read pepper_write e s =
    Done (Some (Returned (Ok (Received (lit "xy") (Some (host, 16, 16))))), s').
Proof.
  intros s h.
  assert (run_from_new query = Some ((state_after query).1, (state_after query).2)) as E by (vm_compute; reflexivity).
  pose proof (udp_socket_is_two_queues pepper_read pepper_write (state_after query).1 (state_after query).2
    (run_from_new_reach query _ _ E)) as (Ho & _ & _ & _ & _ & Hget).
  assert (enabled (Start 2 false (sys_recvfrom 2 false false (Some 16))) (state_after query).1 = true) as He
    by (vm_compute; reflexivity).
  destruct (perform pepper_read pepper_write (Start 2 false (sys_recvfrom 2 false false (Some 16)))
              (state_after query).1) as [[p s']| |] eqn:Ep; [|by vm_compute in Ep..].
  assert (p = Some (Returned (Ok (Received (lit "xy") (Some (host, 16, 16)))))) as ->.
  { apply (f_equal (λ o, match o with Done (p, _) => p | _ => None end)) in Ep.
    rewrite <-Ep. vm_compute. reflexivity. }
  destruct (Hget _ _ _ _ He Ep) as (len & peek & want & d & Hrc & Hd & Hb & _).
  split; [exact E|]. split; [vm_compute; reflexivity|].
  split; [etrans; [exact Ho|]; vm_compute; reflexivity|].
  exists d, s', len. split; [exact Hd|]. split; [exact Hb|exact Ep].
Defined.

(** The same, but the read that answers the datagram fails. *)
Definition failed_read : list event :=
  [ Start 1 false (sys_bind (Some (any_address AF_INET)) 16);
    Resume 1 false PP_OK false; Main 0 ].

Lemma udp_socket_reads_ahead_witness :
  let s := (state_after failed_read).1 in
  let h := (state_after failed_read).2 in
  ∃ p s', perform pepper_read pepper_write (Datagram (-2) [] NetAddress_none unconnected) s = Done (p, s') ∧
    receiving (world s) = 1%nat ∧ read_sent_ (sock (world s)) = true ∧ deaf (world s').
Proof.
  intros s h.
  assert (run_from_new failed_read = Some ((state_after failed_read).1, (state_after failed_read).2)) as E by (vm_compute; reflexivity).
  pose proof (udp_socket_reads_ahead pepper_read pepper_write (state_after failed_read).1
    (state_after failed_read).2 (run_from_new_reach failed_read _ _ E)) as (Hn & Hf & _).
  assert (enabled (Datagram (-2) [] NetAddress_none unconnected) (state_after failed_read).1 = true) as He
    by (vm_compute; reflexivity).
  destruct (perform pepper_read pepper_write (Datagram (-2) [] NetAddress_none unconnected)
              (state_after failed_read).1) as [[p s']| |] eqn:Ep; [|by vm_compute in Ep..].
  exists p, s'. split; [exact Ep|]. split; [vm_compute; reflexivity|].
  split; [vm_compute; reflexivity|].
  apply (Hf _ _ _ _ p s' He); [lia|vm_compute; reflexivity|exact Ep].
Defined.

(** A datagram that a thread sends while another one waits in [bind] goes to a socket
    that is not bound, which Pepper refuses: the assertion of [WriteLocked] fires. *)
Example sends_while_binding :
  let s := (state_after [ Start 1 false (sys_bind (Some (any_address AF_INET)) 16);
                          Start 2 false (sys_sendto (lit "ab") (Some host) 16) ]).1 in
  state_ (sock (world s)) = UDP_SOCKET_BINDING ∧ tasks (world s) = [TaskWrite] ∧
  perform pepper_read pepper_write (Main 0) s = Abort.
Proof. split_and!; vm_compute; reflexivity. Qed.
