(* ===== verification/TcpSocket.v ===== *)
(** * TcpSocket: [tcp_socket.{h,cc}] (under src/posix_translation/)

    A stream socket over Pepper: connecting, listening and accepting, and the buffers
    between the calls of threads and the reads and writes that run on the main thread.
    As in UdpSocket.v the state is a [World]: the socket, the closed flag of its
    wrapper, the tasks posted to the main thread and the calls of Pepper that have not
    completed.  A call that waits is paused, and [resume] goes on with it. *)

From S2P Require Import Prelude Util MountPoints FileStream FdMap VfsFds SocketStream.
Import SocketUtil SocketOptions.

#[local] Open Scope Z_scope.

(** ** Numbers of Pepper and of the C library *)

Definition PP_OK : Z := 0.
Definition PP_ERROR_NOSPACE : Z := -9.
Definition PP_ERROR_USERCANCEL : Z := -40.
Definition PP_ERROR_ADDRESS_IN_USE : Z := -108.

(** The numbers that the code stores in [error_]. *)
Definition errno_number (e : errno) : option Z :=
  match e with
  | EIO => Some 5 | EOPNOTSUPP => Some 95 | EADDRINUSE => Some 98 | ECONNREFUSED => Some 111
  | _ => None
  end.

(** ** The state *)

Inductive ConnectState : Type :=
| TCP_SOCKET_NEW | TCP_SOCKET_CONNECTING | TCP_SOCKET_CONNECTED | TCP_SOCKET_LISTENING
| TCP_SOCKET_ERROR.

#[export] Instance ConnectState_eq_dec : EqDecision ConnectState.
Proof. solve_decision. Defined.

(** A [pp::TCPSocket] that Pepper made. *)
Abbreviation psock := nat.

Record TCPSocket : Type := mkTCPSocket {
  socket_family_ : Z;
  oflag : Z;
  options : SocketStream;
  in_buf_ : str;
  out_buf_ : str;
  write_buf_ : str;
  connect_state_ : ConnectState;
  eof_ : bool;
  read_sent_ : bool;
  write_sent_ : bool;
  connect_error_ : option errno;
  accepted_socket_ : option psock;
  no_delay_ : Z;
}.

(** Callbacks made by [factory_] and given to [CallOnMainThread]. *)
Inductive task : Type :=
| TaskConnect (address : NetAddress) | TaskAccept | TaskRead | TaskWrite | TaskClose.

Inductive effect : Type :=
| Broadcast                            (* wakes the threads that wait *)
| NotifyListeners
| PepperConnect (address : NetAddress)
| PepperWrite (data : str)
| PepperSetNoDelay (value : bool)
| PepperClose.

(** [at_once] is what the next calls of Pepper's [Read] deliver without waiting (nothing,
    outside of tests), [delivered] all that Pepper has put into [read_buf_]. *)
Record World : Type := mkWorld {
  sock : TCPSocket;
  closed_ : bool;              (* of the [SocketWrapper] *)
  tasks : list task;
  connecting : nat;            (* calls of Pepper that have not completed *)
  accepting : nat;
  reading : nat;
  writing : list str;          (* the same for [Write], with the bytes to write *)
  at_once : list str;
  delivered : str;
  effects : list effect;
}.

Definition kBufSize : Z := 64 * 1024.
Definition kUnknownSocketFamily : Z := -1.

Definition set_oflag (x : Z) (u : TCPSocket) : TCPSocket :=
  {| socket_family_ := socket_family_ u; oflag := x; options := options u; in_buf_ := in_buf_ u;
     out_buf_ := out_buf_ u; write_buf_ := write_buf_ u; connect_state_ := connect_state_ u;
     eof_ := eof_ u; read_sent_ := read_sent_ u; write_sent_ := write_sent_ u;
     connect_error_ := connect_error_ u; accepted_socket_ := accepted_socket_ u;
     no_delay_ := no_delay_ u |}.
Definition set_options (x : SocketStream) (u : TCPSocket) : TCPSocket :=
  {| socket_family_ := socket_family_ u; oflag := oflag u; options := x; in_buf_ := in_buf_ u;
     out_buf_ := out_buf_ u; write_buf_ := write_buf_ u; connect_state_ := connect_state_ u;
     eof_ := eof_ u; read_sent_ := read_sent_ u; write_sent_ := write_sent_ u;
     connect_error_ := connect_error_ u; accepted_socket_ := accepted_socket_ u;
     no_delay_ := no_delay_ u |}.
Definition set_in_buf (x : str) (u : TCPSocket) : TCPSocket :=
  {| socket_family_ := socket_family_ u; oflag := oflag u; options := options u; in_buf_ := x;
     out_buf_ := out_buf_ u; write_buf_ := write_buf_ u; connect_state_ := connect_state_ u;
     eof_ := eof_ u; read_sent_ := read_sent_ u; write_sent_ := write_sent_ u;
     connect_error_ := connect_error_ u; accepted_socket_ := accepted_socket_ u;
     no_delay_ := no_delay_ u |}.
Definition set_out_buf (x : str) (u : TCPSocket) : TCPSocket :=
  {| socket_family_ := socket_family_ u; oflag := oflag u; options := options u;
     in_buf_ := in_buf_ u; out_buf_ := x; write_buf_ := write_buf_ u;
     connect_state_ := connect_state_ u; eof_ := eof_ u; read_sent_ := read_sent_ u;
     write_sent_ := write_sent_ u; connect_error_ := connect_error_ u;
     accepted_socket_ := accepted_socket_ u; no_delay_ := no_delay_ u |}.
Definition set_write_buf (x : str) (u : TCPSocket) : TCPSocket :=
  {| socket_family_ := socket_family_ u; oflag := oflag u; options := options u;
     in_buf_ := in_buf_ u; out_buf_ := out_buf_ u; write_buf_ := x;
     connect_state_ := connect_state_ u; eof_ := eof_ u; read_sent_ := read_sent_ u;
     write_sent_ := write_sent_ u; connect_error_ := connect_error_ u;
     accepted_socket_ := accepted_socket_ u; no_delay_ := no_delay_ u |}.
Definition set_connect_state (x : ConnectState) (u : TCPSocket) : TCPSocket :=
  {| socket_family_ := socket_family_ u; oflag := oflag u; options := options u;
     in_buf_ := in_buf_ u; out_buf_ := out_buf_ u; write_buf_ := write_buf_ u;
     connect_state_ := x; eof_ := eof_ u; read_sent_ := read_sent_ u;
     write_sent_ := write_sent_ u; connect_error_ := connect_error_ u;
     accepted_socket_ := accepted_socket_ u; no_delay_ := no_delay_ u |}.
Definition set_eof (x : bool) (u : TCPSocket) : TCPSocket :=
  {| socket_family_ := socket_family_ u; oflag := oflag u; options := options u;
     in_buf_ := in_buf_ u; out_buf_ := out_buf_ u; write_buf_ := write_buf_ u;
     connect_state_ := connect_state_ u; eof_ := x; read_sent_ := read_sent_ u;
     write_sent_ := write_sent_ u; connect_error_ := connect_error_ u;
     accepted_socket_ := accepted_socket_ u; no_delay_ := no_delay_ u |}.
Definition set_read_sent (x : bool) (u : TCPSocket) : TCPSocket :=
  {| socket_family_ := socket_family_ u; oflag := oflag u; options := options u;
     in_buf_ := in_buf_ u; out_buf_ := out_buf_ u; write_buf_ := write_buf_ u;
     connect_state_ := connect_state_ u; eof_ := eof_ u; read_sent_ := x;
     write_sent_ := write_sent_ u; connect_error_ := connect_error_ u;
     accepted_socket_ := accepted_socket_ u; no_delay_ := no_delay_ u |}.
Definition set_write_sent (x : bool) (u : TCPSocket) : TCPSocket :=
  {| socket_family_ := socket_family_ u; oflag := oflag u; options := options u;
     in_buf_ := in_buf_ u; out_buf_ := out_buf_ u; write_buf_ := write_buf_ u;
     connect_state_ := connect_state_ u; eof_ := eof_ u; read_sent_ := read_sent_ u;
     write_sent_ := x; connect_error_ := connect_error_ u;
     accepted_socket_ := accepted_socket_ u; no_delay_ := no_delay_ u |}.
Definition set_connect_error (x : option errno) (u : TCPSocket) : TCPSocket :=
  {| socket_family_ := socket_family_ u; oflag := oflag u; options := options u;
     in_buf_ := in_buf_ u; out_buf_ := out_buf_ u; write_buf_ := write_buf_ u;
     connect_state_ := connect_state_ u; eof_ := eof_ u; read_sent_ := read_sent_ u;
     write_sent_ := write_sent_ u; connect_error_ := x; accepted_socket_ := accepted_socket_ u;
     no_delay_ := no_delay_ u |}.
Definition set_accepted_socket (x : option psock) (u : TCPSocket) : TCPSocket :=
  {| socket_family_ := socket_family_ u; oflag := oflag u; options := options u;
     in_buf_ := in_buf_ u; out_buf_ := out_buf_ u; write_buf_ := write_buf_ u;
     connect_state_ := connect_state_ u; eof_ := eof_ u; read_sent_ := read_sent_ u;
     write_sent_ := write_sent_ u; connect_error_ := connect_error_ u; accepted_socket_ := x;
     no_delay_ := no_delay_ u |}.
Definition set_no_delay (x : Z) (u : TCPSocket) : TCPSocket :=
  {| socket_family_ := socket_family_ u; oflag := oflag u; options := options u;
     in_buf_ := in_buf_ u; out_buf_ := out_buf_ u; write_buf_ := write_buf_ u;
     connect_state_ := connect_state_ u; eof_ := eof_ u; read_sent_ := read_sent_ u;
     write_sent_ := write_sent_ u; connect_error_ := connect_error_ u;
     accepted_socket_ := accepted_socket_ u; no_delay_ := x |}.

Definition set_sock (x : TCPSocket) (u : World) : World :=
  {| sock := x; closed_ := closed_ u; tasks := tasks u; connecting := connecting u;
     accepting := accepting u; reading := reading u; writing := writing u; at_once := at_once u;
     delivered := delivered u; effects := effects u |}.
Definition set_closed (x : bool) (u : World) : World :=
  {| sock := sock u; closed_ := x; tasks := tasks u; connecting := connecting u;
     accepting := accepting u; reading := reading u; writing := writing u; at_once := at_once u;
     delivered := delivered u; effects := effects u |}.
Definition set_tasks (x : list task) (u : World) : World :=
  {| sock := sock u; closed_ := closed_ u; tasks := x; connecting := connecting u;
     accepting := accepting u; reading := reading u; writing := writing u; at_once := at_once u;
     delivered := delivered u; effects := effects u |}.
Definition set_connecting (x : nat) (u : World) : World :=
  {| sock := sock u; closed_ := closed_ u; tasks := tasks u; connecting := x;
     accepting := accepting u; reading := reading u; writing := writing u; at_once := at_once u;
     delivered := delivered u; effects := effects u |}.
Definition set_accepting (x : nat) (u : World) : World :=
  {| sock := sock u; closed_ := closed_ u; tasks := tasks u; connecting := connecting u;
     accepting := x; reading := reading u; writing := writing u; at_once := at_once u;
     delivered := delivered u; effects := effects u |}.
Definition set_reading (x : nat) (u : World) : World :=
  {| sock := sock u; closed_ := closed_ u; tasks := tasks u; connecting := connecting u;
     accepting := accepting u; reading := x; writing := writing u; at_once := at_once u;
     delivered := delivered u; effects := effects u |}.
Definition set_writing (x : list str) (u : World) : World :=
  {| sock := sock u; closed_ := closed_ u; tasks := tasks u; connecting := connecting u;
     accepting := accepting u; reading := reading u; writing := x; at_once := at_once u;
     delivered := delivered u; effects := effects u |}.
Definition set_at_once (x : list str) (u : World) : World :=
  {| sock := sock u; closed_ := closed_ u; tasks := tasks u; connecting := connecting u;
     accepting := accepting u; reading := reading u; writing := writing u; at_once := x;
     delivered := delivered u; effects := effects u |}.
Definition set_delivered (x : str) (u : World) : World :=
  {| sock := sock u; closed_ := closed_ u; tasks := tasks u; connecting := connecting u;
     accepting := accepting u; reading := reading u; writing := writing u; at_once := at_once u;
     delivered := x; effects := effects u |}.

Definition add_effect (e : effect) (u : World) : World :=
  {| sock := sock u; closed_ := closed_ u; tasks := tasks u; connecting := connecting u;
     accepting := accepting u; reading := reading u; writing := writing u; at_once := at_once u;
     delivered := delivered u; effects := effects u ++ [e] |}.

Definition new_socket (socket_family oflag : Z) : World :=
  {| sock := {| socket_family_ := socket_family; oflag := oflag; options := SocketStream_new;
                in_buf_ := []; out_buf_ := []; write_buf_ := [];
                connect_state_ := TCP_SOCKET_NEW; eof_ := false; read_sent_ := false;
                write_sent_ := false; connect_error_ := None; accepted_socket_ := None;
                no_delay_ := 0 |};
     closed_ := false; tasks := []; connecting := 0; accepting := 0; reading := 0; writing := [];
     at_once := []; delivered := []; effects := [] |}.

(** The constructors. *)
Definition TCPSocket_new (socket_family oflag : Z) : outcome World :=
  require ((socket_family =? AF_INET) || (socket_family =? AF_INET6)) ≫= λ _,
  mret (new_socket socket_family oflag).

Definition TCPSocket_accepted (O_RDWR : Z) : World := new_socket kUnknownSocketFamily O_RDWR.

Definition this {A} (f : TCPSocket → A) : St World A := gets (λ w, f (sock w)).
Definition update (f : TCPSocket → TCPSocket) : St World unit :=
  modify (λ w, set_sock (f (sock w)) w).
Definition effect_ (e : effect) : St World unit := modify (add_effect e).

Definition is_block (u : TCPSocket) : bool := Z.land (oflag u) O_NONBLOCK =? 0.

Definition in_state (x : ConnectState) (u : TCPSocket) : bool := bool_decide (connect_state_ u = x).

Definition is_connected (u : TCPSocket) : bool := in_state TCP_SOCKET_CONNECTED u.

Definition IsTerminated (w : World) : bool := closed_ w || in_state TCP_SOCKET_ERROR (sock w).

(** [CallOnMainThread(0, ...)]. *)
Definition CallOnMainThread (t : task) : St World unit :=
  modify (λ w, set_tasks (tasks w ++ [t]) w).

Definition size (b : str) : Z := Z.of_nat (List.length b).

(** ** Readiness *)

Definition IsSelectReadReady (w : World) : bool :=
  closed_ w ||
  match connect_state_ (sock w) with
  | TCP_SOCKET_NEW => true
  | TCP_SOCKET_CONNECTING => false
  | TCP_SOCKET_CONNECTED => negb (bool_decide (in_buf_ (sock w) = [])) || eof_ (sock w)
  | TCP_SOCKET_LISTENING => bool_decide (is_Some (accepted_socket_ (sock w)))
  | TCP_SOCKET_ERROR => true
  end.

Definition IsSelectWriteReady (w : World) : bool :=
  closed_ w ||
  match connect_state_ (sock w) with
  | TCP_SOCKET_NEW => true
  | TCP_SOCKET_CONNECTING => false
  | TCP_SOCKET_CONNECTED => size (out_buf_ (sock w)) <? kBufSize
  | TCP_SOCKET_LISTENING => false
  | TCP_SOCKET_ERROR => true
  end.

Definition IsSelectExceptionReady (w : World) : bool := in_state TCP_SOCKET_ERROR (sock w).

Definition GetPollEvents (w : World) : Z :=
  Z.lor (if IsSelectReadReady w then POLLIN else 0)
        (Z.lor (if IsSelectWriteReady w then POLLOUT else 0)
               (if IsSelectExceptionReady w then POLLERR else 0)).

(** ** Work on the main thread *)

Definition MarkAsErrorLocked (error : errno) : St World unit :=
  w ← get;
  if IsTerminated w then mret tt
  else
    (if in_state TCP_SOCKET_CONNECTING (sock w)
     then update (set_connect_error (Some error)) else mret tt);;
    (if negb (is_block (sock w)) then
       match errno_number error with
       | Some n => update (λ u, set_options (set_storage SO_ERROR [n] (options u)) u)
       | None => fatal
       end
     else mret tt);;
    update (set_connect_state TCP_SOCKET_ERROR);;
    effect_ NotifyListeners.

Inductive pcall : Type := CallConnect | CallAccept | CallRead | CallWrite.

Section Pepper.
(** Whether Pepper takes a call, and answers [PP_OK_COMPLETIONPENDING]. *)
Context (takes : pcall → World → bool).

Definition call_pepper (c : pcall) (f : World → World) : St World unit :=
  w ← get;
  let pending := takes c w in
  modify f;;
  check pending.

(** [PostReadTaskLocked], with the [ReadLocked] that it calls on the main thread. *)
Definition PostReadTaskLocked_with (ReadLocked : St World unit) (IsMainThread : bool) :
    St World unit :=
  u ← this id;
  if negb (is_connected u) || read_sent_ u then mret tt
  else if kBufSize / 2 <=? size (in_buf_ u) then mret tt
  else if (eof_ u : bool) then mret tt
  else
    update (set_read_sent true);;
    if negb IsMainThread then CallOnMainThread TaskRead else ReadLocked.

(** [read_buf] is the memory of [read_buf_]. *)
Definition OnReadLocked_with (PostReadTaskLocked : St World unit) (result : Z) (read_buf : str) :
    St World unit :=
  update (set_read_sent false);;
  w ← get;
  if IsTerminated w then effect_ Broadcast
  else
    (if 0 <? result then
       update (λ u, set_in_buf (in_buf_ u ++ take (Z.to_nat result) read_buf) u);;
       PostReadTaskLocked;;
       effect_ NotifyListeners
     else if result =? 0 then
       update (set_eof true);;
       effect_ NotifyListeners
     else MarkAsErrorLocked EIO);;
    effect_ Broadcast.

(** [now] is what Pepper has [at_once]; the recursion is by [OnReadLocked] and
    [PostReadTaskLocked]. *)
Fixpoint ReadLocked_with (now : list str) : St World unit :=
  w ← get;
  if IsTerminated w then
    update (set_read_sent false);;
    effect_ Broadcast
  else
    match now with
    | [] => call_pepper CallRead (λ w, set_reading (S (reading w)) w)
    | data :: now =>
        modify (λ w, set_delivered (delivered w ++ data) (set_at_once now w));;
        OnReadLocked_with (PostReadTaskLocked_with (ReadLocked_with now) true) (size data) data
    end.

Definition ReadLocked : St World unit :=
  w ← get; ReadLocked_with (at_once w).

Definition PostReadTaskLocked (IsMainThread : bool) : St World unit :=
  PostReadTaskLocked_with ReadLocked IsMainThread.

Definition OnReadLocked (result : Z) (read_buf : str) : St World unit :=
  OnReadLocked_with (PostReadTaskLocked true) result read_buf.

Definition Read : St World unit := ReadLocked.

Definition OnRead (result : Z) (read_buf : str) : St World unit :=
  if result =? PP_ERROR_USERCANCEL then mret tt else OnReadLocked result read_buf.

Definition Accept : St World unit :=
  call_pepper CallAccept (λ w, set_accepting (S (accepting w)) w).

(** [accepted_socket] is null after an error. *)
Definition OnAccept (result : Z) (accepted_socket : option psock) : St World unit :=
  u ← this id;
  check (bool_decide (accepted_socket_ u = None));;
  update (set_accepted_socket accepted_socket);;
  effect_ Broadcast;;
  effect_ NotifyListeners.

Definition Connect (address : NetAddress) : St World unit :=
  u ← this id;
  check (in_state TCP_SOCKET_CONNECTING u);;
  effect_ (PepperConnect address);;
  call_pepper CallConnect (λ w, set_connecting (S (connecting w)) w).

Definition OnConnect (result : Z) : St World unit :=
  u ← this id;
  check (in_state TCP_SOCKET_CONNECTING u);;
  (if result =? PP_OK then
     update (set_connect_state TCP_SOCKET_CONNECTED);;
     PostReadTaskLocked true;;
     effect_ NotifyListeners
   else MarkAsErrorLocked ECONNREFUSED);;
  effect_ Broadcast.

(** What [WriteLocked] moves from [out_buf_] to [write_buf_]. *)
Definition fill_write_buf (u : TCPSocket) : TCPSocket :=
  if size (write_buf_ u) =? 0 then set_write_buf (out_buf_ u) (set_out_buf (write_buf_ u) u)
  else if size (write_buf_ u) <? kBufSize / 2 then
    let n := Z.to_nat (Z.min (kBufSize - size (write_buf_ u)) (size (out_buf_ u))) in
    set_write_buf (write_buf_ u ++ take n (out_buf_ u)) (set_out_buf (drop n (out_buf_ u)) u)
  else u.

Definition WriteLocked : St World unit :=
  w ← get;
  check (negb (write_sent_ (sock w)));;
  if IsTerminated w then effect_ Broadcast
  else
    update fill_write_buf;;
    update (set_write_sent true);;
    buf ← this write_buf_;
    effect_ (PepperWrite buf);;
    call_pepper CallWrite (λ w, set_writing (writing w ++ [buf]) w).

Definition Write : St World unit :=
  u ← this id;
  if negb (write_sent_ u) then WriteLocked else mret tt.

Definition OnWrite (result : Z) : St World unit :=
  update (set_write_sent false);;
  w ← get;
  if IsTerminated w then effect_ Broadcast
  else if (result <? 0) || (size (write_buf_ (sock w)) <? result) then
    MarkAsErrorLocked EIO;;
    effect_ Broadcast
  else
    update (λ u, set_write_buf (drop (Z.to_nat result) (write_buf_ u)) u);;
    u ← this id;
    (if negb (bool_decide (write_buf_ u = [])) || negb (bool_decide (out_buf_ u = []))
     then WriteLocked else mret tt);;
    effect_ Broadcast;;
    effect_ NotifyListeners.

(** [factory_.CancelAll] takes back the posted tasks and the callbacks of the calls that
    have not completed. *)
Definition CancelAll : St World unit :=
  modify (λ w, set_writing [] (set_reading 0 (set_accepting 0 (set_connecting 0 (set_tasks [] w))))).

(** [SocketWrapper::Close]. *)
Definition wrapper_Close : St World unit :=
  w ← get;
  if (closed_ w : bool) then mret tt
  else modify (set_closed true);; effect_ PepperClose.

Definition Close : St World unit :=
  CancelAll;;
  wrapper_Close;;
  effect_ NotifyListeners;;
  effect_ Broadcast.

(** ** System calls *)

Inductive value : Type :=
| Int (n : Z)
| Bytes (data : str)
| Accepted (fd : Z) (socket : World) (name : option (sockaddr_storage * Z * Z))
| Name (address : sockaddr_storage) (copied namelen : Z)
| OptionValue (words : list Z) (optlen : Z).

(** What a thread that waits keeps. *)
Inductive pause : Type :=
| InBind (address : NetAddress)
| InListen (backlog : Z)
| InAccept (addr_null : bool) (addrlen : option Z)
| InConnect
| InRecv (len : nat) (peek : bool)
| InSend (buf : str)
| InSetOption
| InCloseWrites
| InClose.

(** -1 with the [errno] that is 0 is a failure without a reason. *)
Inductive progress : Type :=
| Returned (r : res value)
| FailedWithoutErrno
| Paused (p : pause).

Definition fail (e : errno) : progress := Returned (Err e).
Definition ret (n : Z) : progress := Returned (Ok (Int n)).

(** [bind] up to Pepper's blocking [Bind], and after it. *)
Definition bind (saddr : option sockaddr_storage) (addrlen : Z) : St World progress :=
  u ← this id;
  error ← lift (VerifyInputSocketAddress saddr addrlen (socket_family_ u));
  match error, saddr with
  | Some e, _ => mret (fail e)
  | None, None => fatal
  | None, Some a => address ← lift (SockAddrToNetAddress a); mret (Paused (InBind address))
  end.

Definition bind_end (result : Z) : St World progress :=
  w ← get;
  mret (if (closed_ w : bool) then fail EBADF
        else if negb (result =? PP_OK) then
          fail (if result =? PP_ERROR_ADDRESS_IN_USE then EADDRINUSE else EINVAL)
        else ret 0).

(** [listen] up to Pepper's blocking [Listen], and after it. *)
Definition listen (backlog : Z) : St World progress :=
  u ← this id;
  if negb (in_state TCP_SOCKET_NEW u) then mret (fail EINVAL)
  else
    update (set_connect_state TCP_SOCKET_LISTENING);;
    mret (Paused (InListen backlog)).

Definition listen_end (result : Z) : St World progress :=
  w ← get;
  if (closed_ w : bool) then mret (fail EBADF)
  else if negb (result =? PP_OK) then
    let errno := if result =? PP_ERROR_NOSPACE then EOPNOTSUPP else EADDRINUSE in
    MarkAsErrorLocked errno;;
    mret (fail errno)
  else
    CallOnMainThread TaskAccept;;
    mret (ret 0).

(** The address, how many bytes of it are copied, and the new [*namelen]. *)
Definition name_of (a : sockaddr_storage) (name_null : bool) (namelen : Z) :
    outcome (sockaddr_storage * Z * Z) :=
  '(copied, len) ← CopySocketAddress a name_null namelen; mret (a, copied, len).

(** [accept] after its wait.  [remote] is Pepper's [GetRemoteAddress], [fd] the answer of
    [AddFileStreamLocked]; a new socket that gets no descriptor is closed by its destructor. *)
Definition accept_end (IsMainThread : bool) (O_RDWR : Z) (remote : psock → NetAddress) (fd : Z)
    (addr_null : bool) (addrlen : option Z) : St World progress :=
  u ← this id;
  match accepted_socket_ u with
  | None => mret (fail EAGAIN)
  | Some accepted_socket =>
      update (set_accepted_socket None);;
      CallOnMainThread TaskAccept;;
      storage ← (if addr_null then mret None
                 else lift (NetAddressToSockAddrStorage (remote accepted_socket) AF_UNSPEC false));
      if negb addr_null && bool_decide (storage = None) then mret (fail ENOBUFS)
      else if fd <? 0 then mret (fail EMFILE)
      else
        socket ← lift (PostReadTaskLocked IsMainThread
                         (set_sock (set_connect_state TCP_SOCKET_CONNECTED
                                      (sock (TCPSocket_accepted O_RDWR)))
                            (TCPSocket_accepted O_RDWR)));
        name ← match storage, addrlen with
               | Some a, Some l => r ← lift (name_of a false l); mret (Some r)
               | _, _ => mret None
               end;
        mret (Returned (Ok (Accepted fd socket.2 name)))
  end.

Definition accept (IsMainThread : bool) (O_RDWR : Z) (remote : psock → NetAddress) (fd : Z)
    (addr_null : bool) (addrlen : option Z) : St World progress :=
  u ← this id;
  match (if addr_null then None else VerifyOutputSocketAddress false addrlen) with
  | Some e => mret (fail e)
  | None =>
      if negb (in_state TCP_SOCKET_LISTENING u) then mret (fail EINVAL)
      else if is_block u && bool_decide (accepted_socket_ u = None)
      then mret (Paused (InAccept addr_null addrlen))
      else accept_end IsMainThread O_RDWR remote fd addr_null addrlen
  end.

(** [connect] after its wait. *)
Definition connect_end : St World progress :=
  u ← this id;
  if in_state TCP_SOCKET_ERROR u then
    mret (match connect_error_ u with Some e => fail e | None => FailedWithoutErrno end)
  else
    check (is_connected u);; mret (ret 0).

Definition connect (serv_addr : option sockaddr_storage) (addrlen : Z) : St World progress :=
  w ← get;
  let u := sock w in
  error ← lift (VerifyInputSocketAddress serv_addr addrlen (socket_family_ u));
  match error, serv_addr with
  | Some e, _ => mret (fail e)
  | None, None => fatal
  | None, Some a =>
      if IsTerminated w then mret (fail EBADF)
      else if is_connected u || in_state TCP_SOCKET_LISTENING u then mret (fail EISCONN)
      else if in_state TCP_SOCKET_NEW u then
        address ← lift (SockAddrToNetAddress a);
        update (set_connect_state TCP_SOCKET_CONNECTING);;
        CallOnMainThread (TaskConnect address);;
        mret (if negb (is_block u) then fail EINPROGRESS else Paused InConnect)
      else
        check (in_state TCP_SOCKET_CONNECTING u);;
        mret (if negb (is_block u) then fail EALREADY else Paused InConnect)
  end.

Definition lseek : St World progress := mret (fail ESPIPE).

(** [recv] after its wait. *)
Definition recv_end (IsMainThread : bool) (len : nat) (peek : bool) : St World progress :=
  u ← this id;
  let nread := Nat.min len (List.length (in_buf_ u)) in
  if negb (nread =? 0)%nat then
    (if peek then mret tt else update (λ u, set_in_buf (drop nread (in_buf_ u)) u));;
    PostReadTaskLocked IsMainThread;;
    mret (Returned (Ok (Bytes (take nread (in_buf_ u)))))
  else if negb (is_connected u) || eof_ u then mret (Returned (Ok (Bytes [])))
  else mret (fail EAGAIN).

Definition recv (IsMainThread : bool) (len : nat) (peek : bool) : St World progress :=
  w ← get;
  let u := sock w in
  if in_state TCP_SOCKET_NEW u || in_state TCP_SOCKET_LISTENING u then mret (fail ENOTCONN)
  else if is_block u then
    if negb (IsSelectReadReady w) && negb (IsTerminated w) then mret (Paused (InRecv len peek))
    else recv_end IsMainThread len peek
  else if in_state TCP_SOCKET_CONNECTING u then mret (fail EAGAIN)
  else recv_end IsMainThread len peek.

Definition read (IsMainThread : bool) (count : nat) : St World progress :=
  recv IsMainThread count false.

Definition recvfrom (IsMainThread : bool) (len : nat) (peek addr_null addrlen_null : bool) :
    St World progress :=
  if addr_null && addrlen_null then recv IsMainThread len peek else mret (fail EINVAL).

(** [iov] is [None] for a null message or vector, else the lengths of the segments. *)
Definition recvmsg (IsMainThread : bool) (iov : option (list nat)) (msg_controllen : Z)
    (peek : bool) : St World progress :=
  match iov with
  | Some [len] =>
      if negb (msg_controllen =? 0) then mret (fail EINVAL) else recv IsMainThread len peek
  | _ => mret (fail EINVAL)
  end.

(** [send] after its wait. *)
Definition send_end (is_blocking : bool) (buf : str) : St World progress :=
  u ← this id;
  if size (out_buf_ u) <? kBufSize then
    update (λ u, set_out_buf (out_buf_ u ++ buf) u);;
    (if negb (write_sent_ u) then CallOnMainThread TaskWrite else mret tt);;
    mret (ret (size buf))
  else
    check (negb is_blocking);;
    mret (fail EAGAIN).

Definition send (buf : str) : St World progress :=
  u ← this id;
  if negb (is_connected u) then mret (fail EPIPE)
  else if is_block u && (kBufSize <=? size (out_buf_ u)) then mret (Paused (InSend buf))
  else send_end (is_block u) buf.

Definition write (buf : str) : St World progress := send buf.

Definition sendto (buf : str) (dest_addr_null : bool) (addrlen : Z) : St World progress :=
  if dest_addr_null && (addrlen =? 0) then send buf else mret (fail EINVAL).

Definition sendmsg (iov : option (list str)) (msg_controllen : Z) : St World progress :=
  match iov with
  | Some [buf] => if negb (msg_controllen =? 0) then mret (fail EINVAL) else send buf
  | _ => mret (fail EINVAL)
  end.

(** [FIONREAD] and [FIONBIO]. *)
Definition ioctl_FIONREAD : St World progress :=
  u ← this id; mret (ret (size (in_buf_ u))).

Definition ioctl (val : Z) : St World progress :=
  update (λ u, set_oflag (ioctl_FIONBIO val (oflag u)) u);; mret (ret 0).

Inductive tcp_option : Type :=
| TCP_NODELAY | IPV6_V6ONLY | SocketOption (o : sockopt).

(** SocketStream's [getsockopt] with the option that [GetOptNameData] adds. *)
Definition getsockopt (o : tcp_option) (optval_null : bool) (optlen : option Z) : St World progress :=
  u ← this id;
  mret (Returned
    match o with
    | SocketOption o =>
        match SocketOptions.getsockopt o optval_null optlen (options u) with
        | Err e => Err e
        | Ok (words, len) => Ok (OptionValue words len)
        end
    | IPV6_V6ONLY => match optlen with None => Err EFAULT | Some _ => Err EINVAL end
    | TCP_NODELAY =>
        match optlen with
        | None => Err EFAULT
        | Some given =>
            if (given <? 4) && negb optval_null then Err EINVAL else Ok (OptionValue [no_delay_ u] 4)
        end
    end).

(** [setsockopt] up to Pepper's blocking [SetOption], and after it. *)
Definition setsockopt (o : tcp_option) (optval : option (list Z)) (optlen : Z) :
    St World progress :=
  match o with
  | IPV6_V6ONLY =>
      if optlen <? 4 then mret (fail EINVAL)
      else match optval with
           | None => fatal
           | Some words => mret (if List.hd 0 words =? 0 then ret 0 else fail EINVAL)
           end
  | TCP_NODELAY =>
      if optlen <? 4 then mret (fail EINVAL)
      else
        u ← this id;
        let no_delay := match optval with Some words => List.hd 0 words | None => no_delay_ u end in
        update (set_no_delay no_delay);;
        if no_delay =? no_delay_ u then mret (ret 0)
        else
          effect_ (PepperSetNoDelay (negb (no_delay =? 0)));;
          mret (Paused InSetOption)
  | SocketOption o =>
      u ← this id;
      let r := SocketOptions.setsockopt o optval optlen (options u) in
      update (set_options r.2);;
      mret (match r.1 with Err e => fail e | Ok _ => ret 0 end)
  end.

Definition setsockopt_end (result : Z) : St World progress :=
  w ← get;
  mret (if (closed_ w : bool) then fail EBADF
        else if negb (result =? PP_OK) then fail ENOPROTOOPT
        else ret 0).

(** The address of a family with no host and port. *)
Definition any_address (family : Z) : sockaddr_storage :=
  if family =? AF_INET then sockaddr_in 0 (repeat 0 4)
  else if family =? AF_INET6 then sockaddr_in6 0 (repeat 0 16)
  else sockaddr_other family.

(** [getpeername] and [getsockname]: [address] is Pepper's [GetRemoteAddress] or
    [GetLocalAddress]. *)
Definition getname (address : NetAddress) (name_null : bool) (namelen : option Z) :
    St World progress :=
  match VerifyOutputSocketAddress name_null namelen, namelen with
  | Some e, _ => mret (fail e)
  | None, None => fatal
  | None, Some len =>
      u ← this id;
      converted ← lift (NetAddressToSockAddrStorage address AF_UNSPEC false);
      '(a, copied, len) ← lift (name_of (default (any_address (socket_family_ u)) converted) name_null len);
      mret (Returned (Ok (Name a copied len)))
  end.

Definition getpeername := getname.
Definition getsockname := getname.

(** [CloseLocked] waits for a write that is on its way, then posts the task and waits
    for it. *)
Definition CloseLocked : St World progress :=
  u ← this id;
  if write_sent_ u && is_connected u then mret (Paused InCloseWrites)
  else CallOnMainThread TaskClose;; mret (Paused InClose).

Definition OnLastFileRef : St World progress :=
  w ← get; check (negb (closed_ w));; CloseLocked.

(** ~TCPSocket. *)
Definition TCPSocket_destroy : St World progress :=
  w ← get; if negb (closed_ w) then CloseLocked else mret (ret 0).

(** A wait of a paused thread has ended: a [Broadcast], or, for the blocking calls of
    Pepper, their end with [result].  [is_timedout] is the answer of [WaitUntil]. *)
Definition resume (IsMainThread : bool) (O_RDWR : Z) (remote : psock → NetAddress) (fd result : Z)
    (is_timedout : bool) (p : pause) : St World progress :=
  w ← get;
  let u := sock w in
  match p with
  | InBind _ => bind_end result
  | InListen _ => listen_end result
  | InAccept addr_null addrlen =>
      if (closed_ w : bool) then mret (fail EBADF)
      else if negb is_timedout && bool_decide (accepted_socket_ u = None) then mret (Paused p)
      else accept_end IsMainThread O_RDWR remote fd addr_null addrlen
  | InConnect =>
      if (closed_ w : bool) then mret (fail EBADF)
      else if in_state TCP_SOCKET_CONNECTING u then mret (Paused p)
      else connect_end
  | InRecv len peek =>
      if (closed_ w : bool) then mret (fail EBADF)
      else if negb is_timedout && negb (IsSelectReadReady w) && negb (IsTerminated w)
      then mret (Paused p)
      else recv_end IsMainThread len peek
  | InSend buf =>
      if (closed_ w : bool) then mret (fail EBADF)
      else if negb is_timedout && (kBufSize <=? size (out_buf_ u)) && is_connected u
      then mret (Paused p)
      else if negb (is_connected u) then mret (fail EIO)
      else send_end true buf
  | InSetOption => setsockopt_end result
  | InCloseWrites => CloseLocked
  | InClose => if (closed_ w : bool) then mret (ret 0) else mret (Paused p)
  end.

Definition GetStreamType : str := "tcp".
End Pepper.
