(* ===== verification/TcpFacts.v ===== *)
(** * TcpFacts: the invariant of a stream socket

    The invariant relates the buffers, the flags and the tasks of a socket to the bytes
    that went through it.  The lemmas on operations say that they end and keep it, so that
    they show at the same time that no assertion fires. *)

From S2P Require Import Prelude Util MountPoints FileStream FdMap VfsFds SocketStream TcpSocket.
Import SocketUtil SocketOptions.

#[local] Open Scope Z_scope.

(** ** Computations that end *)

(** [m] run from [w] gives a value, and [Q] holds of it and of the world after. *)
Definition ends {A} (m : St World A) (w : World) (Q : A → World → Prop) : Prop :=
  ∃ a w', m w = Done (a, w') ∧ Q a w'.

Lemma ends_bind {A B} (m : St World A) (k : A → St World B) w (Q : A → World → Prop) R :
  ends m w Q → (∀ a w', Q a w' → ends (k a) w' R) → ends (m ≫= k) w R.
Proof.
  intros (a & w' & E & HQ) Hk. destruct (Hk a w' HQ) as (b & w2 & E2 & HR).
  exists b, w2. split; [|done]. by rewrite (St_bind_run _ _ _ _ _ E).
Qed.

Lemma ends_ret {A} (a : A) w (Q : A → World → Prop) : Q a w → ends (mret a) w Q.
Proof. intros H. by exists a, w. Qed.

Lemma ends_weaken {A} (m : St World A) w (Q R : A → World → Prop) :
  ends m w Q → (∀ a w', Q a w' → R a w') → ends m w R.
Proof. intros (a & w' & E & HQ) H. exists a, w'. auto. Qed.

Lemma ends_update f w (Q : unit → World → Prop) :
  Q tt (set_sock (f (sock w)) w) → ends (update f) w Q.
Proof. intros H. by eexists tt, _. Qed.

Lemma ends_effect e w (Q : unit → World → Prop) : Q tt (add_effect e w) → ends (effect_ e) w Q.
Proof. intros H. by eexists tt, _. Qed.

Lemma ends_modify (f : World → World) w (Q : unit → World → Prop) : Q tt (f w) → ends (modify f) w Q.
Proof. intros H. by eexists tt, _. Qed.

Lemma ends_check b w (Q : unit → World → Prop) : b = true → Q tt w → ends (check b) w Q.
Proof. intros -> H. by eexists tt, _. Qed.

Lemma ends_if {A} (b : bool) (m n : St World A) w Q :
  (b = true → ends m w Q) → (b = false → ends n w Q) → ends (if b then m else n) w Q.
Proof. destruct b; auto. Qed.

Lemma ends_done {A} (m : St World A) w Q a w' : ends m w Q → m w = Done (a, w') → Q a w'.
Proof. intros (b & w2 & E & HQ) E'. congruence. Qed.

Lemma ends_then {A B} (m : St World A) (k : A → St World B) a w w1 Q :
  m w = Done (a, w1) → ends (k a) w1 Q → ends (m ≫= k) w Q.
Proof. intros E H. apply (ends_bind _ _ _ (λ a' w', a' = a ∧ w' = w1)); [by exists a, w1|by intros ?? [-> ->]]. Qed.

(** [walk] runs the goal's computation over the commands that always end. *)
Ltac walk1 :=
  lazymatch goal with
  | |- ends (mbind _ (update _)) _ _ => eapply ends_then; [reflexivity|]
  | |- ends (mbind _ (effect_ _)) _ _ => eapply ends_then; [reflexivity|]
  | |- ends (mbind _ (modify _)) _ _ => eapply ends_then; [reflexivity|]
  | |- ends (mbind _ get) _ _ => eapply ends_then; [reflexivity|]
  | |- ends (mbind _ (this _)) _ _ => eapply ends_then; [reflexivity|]
  | |- ends (mbind _ (mret _)) _ _ => eapply ends_then; [reflexivity|]
  | |- ends (update _) _ _ => apply ends_update
  | |- ends (effect_ _) _ _ => apply ends_effect
  | |- ends (modify _) _ _ => apply ends_modify
  | |- ends (mret _) _ _ => apply ends_ret
  end; cbv beta.
Ltac walk := repeat walk1.

(** ** Tasks *)

Definition is_connect (k : task) : bool := match k with TaskConnect _ => true | _ => false end.
Definition is_accept (k : task) : bool := match k with TaskAccept => true | _ => false end.
Definition is_read (k : task) : bool := match k with TaskRead => true | _ => false end.
Definition is_write (k : task) : bool := match k with TaskWrite => true | _ => false end.
Definition is_close (k : task) : bool := match k with TaskClose => true | _ => false end.

Definition of_bool (b : bool) : nat := if b then 1%nat else 0%nat.

Fixpoint count (p : task → bool) (l : list task) : nat :=
  match l with [] => 0 | k :: l => of_bool (p k) + count p l end%nat.

Lemma tcp_count_app p l l' : count p (l ++ l') = (count p l + count p l')%nat.
Proof. induction l as [|k l IH]; simpl; lia. Qed.

Lemma tcp_count_delete p l i k :
  l !! i = Some k → count p l = (count p (delete i l) + of_bool (p k))%nat.
Proof.
  revert i. induction l as [|x l IH]; intros [|i] Hi; simpl in *; simplify_eq; [lia|].
  rewrite (IH _ Hi). lia.
Qed.

(** ** The invariant of an open socket *)

Definition handshaking (w : World) : bool :=
  match connect_state_ (sock w) with
  | TCP_SOCKET_NEW | TCP_SOCKET_CONNECTING | TCP_SOCKET_LISTENING => true
  | _ => false
  end.

(** Pepper's accepts: posted, running, or with a result that nobody took. *)
Definition accepts (w : World) : nat :=
  (accepting w + count is_accept (tasks w) + of_bool (bool_decide (is_Some (accepted_socket_ (sock w)))))%nat.

Definition can_accept (w : World) : bool :=
  in_state TCP_SOCKET_LISTENING (sock w) || in_state TCP_SOCKET_ERROR (sock w).

Definition half : Z := kBufSize / 2.

(** What reading depends on; [taken] is what callers of [recv] got. *)
Record reads (taken : str) (w : World) : Prop := {
  r_prefix : taken ++ in_buf_ (sock w) `prefix_of` delivered w;
  r_all : in_state TCP_SOCKET_ERROR (sock w) = false → taken ++ in_buf_ (sock w) = delivered w;
  r_flag : (reading w + count is_read (tasks w))%nat = of_bool (read_sent_ (sock w));
  r_room : read_sent_ (sock w) = true → size (in_buf_ (sock w)) < half ∧ eof_ (sock w) = false;
  r_size : size (in_buf_ (sock w)) < half + kBufSize;
  r_once : Forall (λ d, size d <= kBufSize) (at_once w);
  r_quiet : handshaking w = true →
    in_buf_ (sock w) = [] ∧ read_sent_ (sock w) = false ∧ eof_ (sock w) = false;
}.

(** What writing depends on; [accepted] is what callers of [send] handed over,
    [written] what Pepper wrote. *)
Record writes (accepted written : str) (w : World) : Prop := {
  w_prefix : written ++ List.concat (writing w) `prefix_of` accepted;
  w_all : in_state TCP_SOCKET_ERROR (sock w) = false →
    accepted = written ++ write_buf_ (sock w) ++ out_buf_ (sock w) ∧
    Forall (λ b, b = write_buf_ (sock w)) (writing w);
  w_flag : List.length (writing w) = of_bool (write_sent_ (sock w));
  w_quiet : handshaking w = true →
    out_buf_ (sock w) = [] ∧ write_buf_ (sock w) = [] ∧ write_sent_ (sock w) = false ∧
    count is_write (tasks w) = 0%nat;
}.

(** What connecting and accepting depend on. *)
Record connects (w : World) : Prop := {
  c_connect : (connecting w + count is_connect (tasks w))%nat =
    of_bool (in_state TCP_SOCKET_CONNECTING (sock w));
  c_accept : (accepts w <= of_bool (can_accept w))%nat;
}.

(** A connected socket reads ahead until its buffer is half full, and nothing that can
    be written is left lying. *)
Definition reads_ahead (w : World) : Prop :=
  is_connected (sock w) = true → read_sent_ (sock w) = false →
  half <= size (in_buf_ (sock w)) ∨ eof_ (sock w) = true.

Definition writes_ahead (w : World) : Prop :=
  is_connected (sock w) = true →
  (write_buf_ (sock w) ≠ [] → write_sent_ (sock w) = true) ∧
  (out_buf_ (sock w) ≠ [] → write_sent_ (sock w) = true ∨ (0 < count is_write (tasks w))%nat).

Record live (accepted written taken : str) (w : World) : Prop := {
  l_open : closed_ w = false;
  l_reads : reads taken w;
  l_writes : writes accepted written w;
  l_connects : connects w;
  l_ahead : reads_ahead w;
  l_behind : writes_ahead w;
}.

Lemma in_state_true x u : in_state x u = true ↔ connect_state_ u = x.
Proof. apply bool_decide_eq_true. Qed.

Lemma in_state_false x u : in_state x u = false ↔ connect_state_ u ≠ x.
Proof. apply bool_decide_eq_false. Qed.

Lemma in_state_other x y u : in_state x u = true → x ≠ y → in_state y u = false.
Proof. rewrite in_state_true, in_state_false. congruence. Qed.

Lemma terminated_open w : closed_ w = false → IsTerminated w = in_state TCP_SOCKET_ERROR (sock w).
Proof. unfold IsTerminated. by intros ->. Qed.

(** [same_reads], [same_writes], [same_connects]: two worlds do not differ in what the
    part of the invariant depends on. *)
Definition same_reads (w w' : World) : Prop :=
  in_buf_ (sock w') = in_buf_ (sock w) ∧ read_sent_ (sock w') = read_sent_ (sock w) ∧
  eof_ (sock w') = eof_ (sock w) ∧ reading w' = reading w ∧ delivered w' = delivered w ∧
  at_once w' = at_once w ∧ count is_read (tasks w') = count is_read (tasks w).

Definition same_writes (w w' : World) : Prop :=
  out_buf_ (sock w') = out_buf_ (sock w) ∧ write_buf_ (sock w') = write_buf_ (sock w) ∧
  write_sent_ (sock w') = write_sent_ (sock w) ∧ writing w' = writing w ∧
  count is_write (tasks w') = count is_write (tasks w).

Definition same_connects (w w' : World) : Prop :=
  closed_ w' = closed_ w ∧ connecting w' = connecting w ∧ accepting w' = accepting w ∧
  accepted_socket_ (sock w') = accepted_socket_ (sock w) ∧
  count is_connect (tasks w') = count is_connect (tasks w) ∧
  count is_accept (tasks w') = count is_accept (tasks w) ∧
  count is_close (tasks w') = count is_close (tasks w) ∧
  socket_family_ (sock w') = socket_family_ (sock w).

Definition same_state (w w' : World) : Prop :=
  connect_state_ (sock w') = connect_state_ (sock w).


Lemma same_in_state w w' x : same_state w w' → in_state x (sock w') = in_state x (sock w).
Proof. unfold same_state, in_state. by intros ->. Qed.

Lemma reads_same tk w w' : same_reads w w' → same_state w w' → reads tk w → reads tk w'.
Proof.
  intros (E1 & E2 & E3 & E4 & E5 & E6 & E7) Hs [].
  constructor; unfold handshaking; rewrite ?(same_in_state _ _ _ Hs), ?E1, ?E2, ?E3, ?E4, ?E5, ?E6, ?E7, ?Hs;
    done.
Qed.

Lemma writes_same ac wr w w' : same_writes w w' → same_state w w' → writes ac wr w → writes ac wr w'.
Proof.
  intros (E1 & E2 & E3 & E4 & E5) Hs [].
  constructor; unfold handshaking; rewrite ?(same_in_state _ _ _ Hs), ?E1, ?E2, ?E3, ?E4, ?E5, ?Hs; done.
Qed.

Lemma connects_same w w' : same_connects w w' → same_state w w' → connects w → connects w'.
Proof.
  intros (E1 & E2 & E3 & E4 & E5 & E6 & E7 & E8) Hs []. unfold accepts, can_accept in *.
  constructor; unfold accepts, can_accept; rewrite ?(same_in_state _ _ _ Hs), ?E2, ?E3, ?E4, ?E5, ?E6; done.
Qed.

Lemma reads_ahead_same w w' : same_reads w w' → same_state w w' → reads_ahead w → reads_ahead w'.
Proof.
  intros (E1 & E2 & E3 & _) Hs H. unfold reads_ahead, is_connected in *.
  by rewrite (same_in_state _ _ _ Hs), E1, E2, E3.
Qed.

Lemma writes_ahead_same w w' : same_writes w w' → same_state w w' → writes_ahead w → writes_ahead w'.
Proof.
  intros (E1 & E2 & E3 & E4 & E5) Hs H. unfold writes_ahead, is_connected in *.
  by rewrite (same_in_state _ _ _ Hs), E1, E2, E3, E5.
Qed.

Lemma live_same ac wr tk w w' :
  same_reads w w' → same_writes w w' → same_connects w w' → same_state w w' →
  live ac wr tk w → live ac wr tk w'.
Proof.
  intros Hr Hw Hc Hs []. constructor.
  - by destruct Hc as (-> & _).
  - by eapply reads_same.
  - by eapply writes_same.
  - by eapply connects_same.
  - by eapply reads_ahead_same.
  - by eapply writes_ahead_same.
Qed.

Lemma same_reads_trans w1 w2 w3 : same_reads w1 w2 → same_reads w2 w3 → same_reads w1 w3.
Proof. unfold same_reads. intros (? & ? & ? & ? & ? & ? & ?) (? & ? & ? & ? & ? & ? & ?). split_and!; congruence. Qed.
Lemma same_writes_trans w1 w2 w3 : same_writes w1 w2 → same_writes w2 w3 → same_writes w1 w3.
Proof. unfold same_writes. intros (? & ? & ? & ? & ?) (? & ? & ? & ? & ?). split_and!; congruence. Qed.
Lemma same_connects_trans w1 w2 w3 : same_connects w1 w2 → same_connects w2 w3 → same_connects w1 w3.
Proof.
  unfold same_connects. intros (? & ? & ? & ? & ? & ? & ? & ?) (? & ? & ? & ? & ? & ? & ? & ?). split_and!; congruence.
Qed.
Lemma same_state_trans w1 w2 w3 : same_state w1 w2 → same_state w2 w3 → same_state w1 w3.
Proof. unfold same_state. congruence. Qed.

Definition reading_only (w w' : World) : Prop :=
  same_writes w w' ∧ same_connects w w' ∧ same_state w w' ∧ oflag (sock w') = oflag (sock w).

Lemma reading_only_trans w1 w2 w3 : reading_only w1 w2 → reading_only w2 w3 → reading_only w1 w3.
Proof.
  intros (? & ? & ? & E1) (? & ? & ? & E2). split_and!;
    eauto using same_writes_trans, same_connects_trans, same_state_trans. congruence.
Qed.

Ltac same := unfold reading_only, same_reads, same_writes, same_connects, same_state; try split_and!;
  simpl; rewrite ?tcp_count_app; simpl; rewrite ?Nat.add_0_r; try done.

(** Pepper takes the calls of a socket that is not closed: it answers
    [PP_OK_COMPLETIONPENDING] and calls back later.  Nothing is said of a [Write] of no
    bytes. *)
Class TakesCalls (takes : pcall → World → bool) : Prop :=
  takes_call c w : closed_ w = false → (c = CallWrite → write_buf_ (sock w) ≠ []) → takes c w = true.

Section Operations.
Context {takes : pcall → World → bool} {O_RDWR : Z} {remote : psock → NetAddress} `{Htakes : !TakesCalls takes}.

Lemma ends_pepper c f w (Q : unit → World → Prop) :
  takes c w = true → Q tt (f w) → ends (call_pepper takes c f) w Q.
Proof. intros Hc HQ. unfold call_pepper. walk. by apply ends_check. Qed.

Lemma takes_open c w : c ≠ CallWrite → closed_ w = false → takes c w = true.
Proof. intros Hc Hw. by apply takes_call. Qed.

(** ** Reading *)

Definition read_done (tk : str) (w w' : World) : Prop :=
  reads tk w' ∧ reads_ahead w' ∧ reading_only w w'.

Lemma read_done_from tk w1 w2 w3 : reading_only w1 w2 → read_done tk w2 w3 → read_done tk w1 w3.
Proof. intros H1 (H2 & H3 & H4). split_and!; [done|done|by eapply reading_only_trans]. Qed.

Lemma read_done_effect tk w e w' : read_done tk w w' → read_done tk w (add_effect e w').
Proof.
  intros (H1 & H2 & H3). split_and!; [|done|].
  - by apply (reads_same _ w'); [same|same|].
  - by apply (reading_only_trans _ w'); [|same].
Qed.

Lemma post_read_with tk m main w :
  (is_connected (sock w) = true → read_sent_ (sock w) = false → size (in_buf_ (sock w)) < half →
   eof_ (sock w) = false →
   let w4 := set_sock (set_read_sent true (sock w)) w in ends m w4 (λ _ w', read_done tk w4 w')) →
  closed_ w = false → reads tk w →
  ends (PostReadTaskLocked_with m main) w (λ _ w', read_done tk w w').
Proof.
  intros Hm Hc Hr. unfold PostReadTaskLocked_with. walk. unfold id.
  apply ends_if; intros H1.
  { walk. split_and!; [done| |same]. intros Hcon Hs. unfold is_connected in *. rewrite Hcon in H1.
    by rewrite Hs in H1. }
  apply orb_false_iff in H1 as [Hcon%negb_false_iff Hs].
  apply ends_if; intros H2.
  { walk. split_and!; [done| |same]. intros _ _. left. by apply Z.leb_le. }
  apply Z.leb_gt in H2. apply ends_if; intros He.
  { walk. split_and!; [done| |same]. intros _ _. by right. }
  walk. apply ends_if; intros Hmain.
  - unfold CallOnMainThread. walk. split_and!; [|by intros ?|same].
    destruct Hr. rewrite Hs in *. constructor; simpl; rewrite ?tcp_count_app; simpl; try done; [simpl in r_flag0; lia|].
    intros Hq. unfold handshaking in Hq. simpl in Hq. unfold is_connected in Hcon.
    apply in_state_true in Hcon. by rewrite Hcon in Hq.
  - eapply ends_weaken; [by apply Hm|]. intros ? w' H. eapply read_done_from; [|exact H]. same.
Qed.

(** The world in which the read that is about to start is not on its way. *)
Definition unsent (w : World) : World := set_sock (set_read_sent false (sock w)) w.

Lemma read_locked tk now w :
  at_once w = now → closed_ w = false → read_sent_ (sock w) = true → reads tk (unsent w) →
  (is_connected (sock w) = true → size (in_buf_ (sock w)) < half ∧ eof_ (sock w) = false) →
  in_state TCP_SOCKET_ERROR (sock w) = negb (is_connected (sock w)) →
  ends (ReadLocked_with takes now) w (λ _ w', read_done tk w w').
Proof.
  revert w. induction now as [|d now IH]; intros w Hnow Hc Hs Hr Hroom Hst; cbn [ReadLocked_with]; walk;
    rewrite (terminated_open _ Hc); apply ends_if; intros Herr.
  1,3: walk; split_and!; [by apply (reads_same _ (unsent w)); [same|same|]| |same];
    intros Hcon; change (is_connected (sock w) = true) in Hcon; rewrite Hst, Hcon in Herr; done.
  all: rewrite Hst in Herr; apply negb_false_iff in Herr; destruct (Hroom Herr) as [Hsz He];
    assert (handshaking w = false) as Hh
      by (unfold handshaking; unfold is_connected in Herr; apply in_state_true in Herr; by rewrite Herr).
  - apply ends_pepper; [by apply takes_open|]. split_and!; [| |same].
    + destruct Hr. simpl in *. constructor; simpl; try done; [rewrite Hs; simpl; lia|].
      intros Hq. change (handshaking w = true) in Hq. congruence.
    + unfold reads_ahead. simpl. congruence.
  - unfold OnReadLocked_with. walk. rewrite terminated_open by done. simpl.
    assert (in_state TCP_SOCKET_ERROR (set_read_sent false (sock w)) = false) as ->
      by (change (in_state TCP_SOCKET_ERROR (sock w) = false); rewrite Hst; by rewrite Herr).
    assert (size d <= kBufSize) as Hd by (by pose proof (r_once _ _ Hr) as Ho; simpl in Ho; rewrite Hnow in Ho; inversion Ho).
    assert (0 <= size d) as Hd0 by (unfold size; lia).
    pose proof (r_all _ _ Hr) as Hall. simpl in Hall.
    specialize (Hall ltac:(change (in_state TCP_SOCKET_ERROR (sock w) = false); rewrite Hst; by rewrite Herr)).
    assert (take (Z.to_nat (size d)) d = d) as Htk by (unfold size; rewrite Nat2Z.id; by rewrite take_ge).
    rewrite Htk.
    match goal with |- ends (mbind _ _) ?w1 _ => set (w2 := w1) end.
    eapply (ends_bind _ _ _ (λ _ w', read_done tk w w')).
    + apply ends_if; intros H0.
      * walk. set (w3 := set_sock _ w2).
        assert (reads tk w3) as Hr3.
        { destruct Hr. simpl in *. constructor; simpl; try done; try lia.
          - by rewrite <-Hall, <-app_assoc.
          - intros _. by rewrite <-Hall, <-app_assoc.
          - unfold size in *. rewrite length_app. lia.
          - rewrite Hnow in r_once0. by inversion r_once0.
          - intros Hq. change (handshaking w = true) in Hq. congruence. }
        eapply (ends_bind _ _ _ (λ _ w', read_done tk w3 w')).
        -- apply post_read_with; [|done|done]. intros G1 G2 G3 G4 w4. subst w4.
           by apply IH.
        -- intros ? w' H. walk. apply read_done_effect. eapply read_done_from; [|exact H]. same.
      * assert (size d = 0) as -> by (apply Z.ltb_ge in H0; lia). cbn [Z.eqb]. walk.
        assert (d = []) as -> by (destruct d; [done|apply Z.ltb_ge in H0; unfold size in *; simpl in *; lia]).
        split_and!; [| |same].
        -- destruct Hr. simpl in *. constructor; simpl; rewrite ?app_nil_r; try done; try lia.
           ++ rewrite Hnow in r_once0. by inversion r_once0.
           ++ intros Hq. change (handshaking w = true) in Hq. congruence.
        -- intros _ _. by right.
    + intros ? w' H. walk. by apply read_done_effect.
Qed.

Lemma post_read tk main w :
  closed_ w = false → reads tk w →
  ends (PostReadTaskLocked takes main) w (λ _ w', read_done tk w w').
Proof.
  intros Hc Hr. unfold PostReadTaskLocked. apply post_read_with; [|done|done].
  intros Hcon Hs Hsz He w4. unfold ReadLocked. walk.
  apply read_locked; try done.
  - by apply (reads_same _ w); [same|same|].
  - unfold is_connected in *. change (in_state TCP_SOCKET_ERROR (sock w) = negb (in_state TCP_SOCKET_CONNECTED (sock w))).
    rewrite Hcon. by eapply in_state_other.
Qed.

(** ** Errors *)

Lemma mark_error e w n :
  closed_ w = false → in_state TCP_SOCKET_ERROR (sock w) = false → errno_number e = Some n →
  ends (MarkAsErrorLocked e) w (λ _ w',
    same_reads w w' ∧ same_writes w w' ∧ same_connects w w' ∧
    connect_state_ (sock w') = TCP_SOCKET_ERROR ∧
    connect_error_ (sock w') =
      (if in_state TCP_SOCKET_CONNECTING (sock w) then Some e else connect_error_ (sock w))).
Proof.
  intros Hc He Hn. unfold MarkAsErrorLocked. walk. rewrite (terminated_open _ Hc), He, Hn.
  destruct (in_state TCP_SOCKET_CONNECTING (sock w)), (is_block (sock w)); cbn [negb]; walk; same.
Qed.

Lemma reads_error tk w w' :
  reads tk w → same_reads w w' → connect_state_ (sock w') = TCP_SOCKET_ERROR → reads tk w'.
Proof.
  intros [] (E1 & E2 & E3 & E4 & E5 & E6 & E7) Hs.
  constructor; rewrite ?E1, ?E2, ?E3, ?E4, ?E5, ?E6, ?E7; try done.
  - intros H%in_state_false. congruence.
  - unfold handshaking. by rewrite Hs.
Qed.

Lemma writes_error ac wr w w' :
  writes ac wr w → same_writes w w' → connect_state_ (sock w') = TCP_SOCKET_ERROR → writes ac wr w'.
Proof.
  intros [] (E1 & E2 & E3 & E4 & E5) Hs.
  constructor; rewrite ?E1, ?E2, ?E3, ?E4, ?E5; try done.
  - intros H%in_state_false. congruence.
  - unfold handshaking. by rewrite Hs.
Qed.

Lemma connects_error w w' :
  (connecting w + count is_connect (tasks w))%nat = 0%nat → (accepts w <= 1)%nat → same_connects w w' →
  connect_state_ (sock w') = TCP_SOCKET_ERROR → connects w'.
Proof.
  intros H1 H2 (E1 & E2 & E3 & E4 & E5 & E6 & E7 & E8) Hs. unfold accepts in H2.
  constructor; unfold accepts, can_accept.
  - rewrite E2, E5, H1. unfold in_state. by rewrite Hs.
  - rewrite E3, E4, E6. unfold in_state. rewrite Hs.
    rewrite (bool_decide_true (TCP_SOCKET_ERROR = TCP_SOCKET_ERROR)) by done. rewrite orb_true_r. exact H2.
Qed.

Lemma error_ahead w : connect_state_ (sock w) = TCP_SOCKET_ERROR → reads_ahead w ∧ writes_ahead w.
Proof. intros Hs. split; intros H%in_state_true; congruence. Qed.

Lemma live_error ac wr tk w w' :
  closed_ w = false → reads tk w → writes ac wr w →
  (connecting w + count is_connect (tasks w))%nat = 0%nat → (accepts w <= 1)%nat →
  same_reads w w' → same_writes w w' → same_connects w w' →
  connect_state_ (sock w') = TCP_SOCKET_ERROR → live ac wr tk w'.
Proof.
  intros Hc Hr Hw H1 H2 Sr Sw Sc Hs. destruct (error_ahead _ Hs). constructor; try done.
  - destruct Sc as (-> & _). done.
  - by eapply reads_error.
  - by eapply writes_error.
  - by eapply connects_error.
Qed.

(** ** Writing *)

Lemma fill_write_buf_same u :
  write_buf_ (fill_write_buf u) ++ out_buf_ (fill_write_buf u) = write_buf_ u ++ out_buf_ u ∧
  ∃ a b, fill_write_buf u = set_write_buf a (set_out_buf b u).
Proof.
  unfold fill_write_buf. destruct (Z.eqb_spec (size (write_buf_ u)) 0) as [E|E].
  - split; [|by eexists _, _]. simpl.
    assert (write_buf_ u = []) as -> by (destruct (write_buf_ u); [done|unfold size in E; simpl in E; lia]).
    by rewrite app_nil_r.
  - destruct (_ <? _).
    + split; [|by eexists _, _]. simpl. by rewrite <-app_assoc, take_drop.
    + split; [done|]. exists (write_buf_ u), (out_buf_ u). by destruct u.
Qed.

Definition writing_only (w w' : World) : Prop :=
  same_reads w w' ∧ same_connects w w' ∧ same_state w w' ∧ oflag (sock w') = oflag (sock w).

(** The world in which [WriteLocked] calls Pepper. *)
Definition asking (w : World) : World :=
  add_effect (PepperWrite (write_buf_ (fill_write_buf (sock w))))
    (set_sock (set_write_sent true (fill_write_buf (sock w))) w).

Lemma fill_nonempty u :
  write_buf_ u ≠ [] ∨ out_buf_ u ≠ [] → write_buf_ (fill_write_buf u) ≠ [].
Proof.
  unfold fill_write_buf. destruct (Z.eqb_spec (size (write_buf_ u)) 0) as [E|E].
  - assert (write_buf_ u = []) as -> by (destruct (write_buf_ u); [done|unfold size in E; simpl in E; lia]).
    by intros [?|?].
  - assert (write_buf_ u ≠ []) as Hne by (by intros H; rewrite H in E).
    destruct (_ <? _); [|done]. simpl. intros _ [H _]%app_eq_nil. done.
Qed.

Lemma takes_asking w :
  closed_ w = false → write_buf_ (sock w) ≠ [] ∨ out_buf_ (sock w) ≠ [] → takes CallWrite (asking w) = true.
Proof. intros Hc Hne. apply takes_call; [done|]. intros _. by apply fill_nonempty. Qed.

Lemma write_locked ac wr w :
  (in_state TCP_SOCKET_ERROR (sock w) = false → takes CallWrite (asking w) = true) →
  closed_ w = false → writes ac wr w → write_sent_ (sock w) = false → handshaking w = false →
  ends (WriteLocked takes) w (λ _ w',
    writes ac wr w' ∧ writing_only w w' ∧ (is_connected (sock w) = true → write_sent_ (sock w') = true)).
Proof.
  intros Hask Hc Hw Hs Hh. unfold WriteLocked. walk.
  eapply ends_bind; [apply ends_check with (Q := λ _ w', w' = w); [by rewrite Hs|done]|intros _ ? ->].
  rewrite (terminated_open _ Hc). apply ends_if; intros He.
  { walk. split; [by apply (writes_same _ _ w); [same|same|]|]. split; [unfold writing_only; same|].
    intros Hcon. unfold is_connected in Hcon. by rewrite (in_state_other _ _ _ Hcon) in He. }
  specialize (Hask He). unfold asking in Hask. walk. destruct (fill_write_buf_same (sock w)) as [Hfill (a & b & E)]. rewrite E in Hfill, Hask |- *. simpl in Hfill.
  apply ends_pepper; [exact Hask|]. split; [|split; [unfold writing_only; same|done]].
  destruct Hw. destruct (w_all0 He) as [Hac _]. rewrite Hs in w_flag0.
  assert (writing w = []) as Hwr by (by destruct (writing w)).
  constructor; simpl; rewrite ?Hwr; simpl; try done.
  - rewrite app_nil_r. rewrite Hac. apply prefix_app. rewrite <-Hfill. by apply prefix_app_r.
  - intros _. rewrite Hac, <-Hfill. split; [done|by repeat constructor].
  - intros Hq. change (handshaking w = true) in Hq. congruence.
Qed.

(** ** How an event may move the socket *)

Definition past_new (w : World) : bool :=
  match connect_state_ (sock w) with
  | TCP_SOCKET_CONNECTING | TCP_SOCKET_CONNECTED | TCP_SOCKET_ERROR => true
  | _ => false
  end.

(** A socket that was closed stays so, one that listens goes on listening and gets no
    further accepts, one that was told to connect does not become new again. *)
Record moved (w w' : World) : Prop := {
  m_closed : closed_ w' = closed_ w;
  m_close : count is_close (tasks w') = count is_close (tasks w);
  m_listen : in_state TCP_SOCKET_LISTENING (sock w) = true →
    in_state TCP_SOCKET_LISTENING (sock w') = true ∧ (accepts w' <= accepts w)%nat;
  m_past : past_new w = true → past_new w' = true;
  m_family : socket_family_ (sock w') = socket_family_ (sock w);
}.

Lemma accepts_same w w' : same_connects w w' → accepts w' = accepts w.
Proof. intros (_ & _ & E3 & E4 & _ & E6 & _). unfold accepts. by rewrite E3, E4, E6. Qed.

Lemma moved_same w w' : same_connects w w' → same_state w w' → moved w w'.
Proof.
  intros Hc Hs. pose proof (accepts_same _ _ Hc). destruct Hc as (E1 & _ & _ & _ & _ & _ & E7 & E8).
  constructor; try done.
  - rewrite (same_in_state _ _ _ Hs). intros ?. split; [done|lia].
  - unfold past_new. by rewrite Hs.
Qed.

Lemma moved_error w w' :
  same_connects w w' → connect_state_ (sock w') = TCP_SOCKET_ERROR →
  in_state TCP_SOCKET_LISTENING (sock w) = false → moved w w'.
Proof.
  intros (E1 & _ & _ & _ & _ & _ & E7 & E8) Hs Hl. constructor; try done; [congruence|].
  unfold past_new. by rewrite Hs.
Qed.

Lemma moved_trans w1 w2 w3 : moved w1 w2 → moved w2 w3 → moved w1 w3.
Proof.
  intros [A1 A2 A3 A4 A5] [B1 B2 B3 B4 B5]. constructor; try congruence; auto.
  intros H. destruct (A3 H) as [H2 L2], (B3 H2) as [H3 L3]. split; [done|lia].
Qed.

(** A live socket, with what the event may have changed. *)
Definition step_ok (ac wr tk : str) (w w' : World) : Prop := live ac wr tk w' ∧ moved w w'.

Lemma step_ok_effect ac wr tk w w' e : step_ok ac wr tk w w' → step_ok ac wr tk w (add_effect e w').
Proof.
  intros [H1 H2]. split; [by apply (live_same _ _ _ w'); [same..|]|].
  by apply (moved_trans _ w'); [|apply moved_same; same].
Qed.

(** A read or a connection needs a state that allows it. *)
Lemma read_sent_state tk w :
  reads tk w → read_sent_ (sock w) = true → handshaking w = false.
Proof. intros H Hs. destruct (handshaking w) eqn:E; [|done]. destruct (r_quiet _ _ H E) as (_ & ? & _). congruence. Qed.

Lemma write_sent_state ac wr w :
  writes ac wr w → write_sent_ (sock w) = true → handshaking w = false.
Proof. intros H Hs. destruct (handshaking w) eqn:E; [|done]. destruct (w_quiet _ _ _ H E) as (_ & _ & ? & _). congruence. Qed.

Lemma connected_or_error w :
  handshaking w = false → is_connected (sock w) = negb (in_state TCP_SOCKET_ERROR (sock w)).
Proof. unfold handshaking, is_connected, in_state. by destruct (connect_state_ (sock w)). Qed.

Lemma not_connecting w :
  connects w → handshaking w = false →
  (connecting w + count is_connect (tasks w))%nat = 0%nat ∧ (accepts w <= 1)%nat ∧
  in_state TCP_SOCKET_LISTENING (sock w) = false.
Proof.
  intros [H1 H2] Hh. unfold handshaking, in_state, can_accept, is_connected in *.
  destruct (connect_state_ (sock w)) eqn:E; try done; (split; [done|split; [|done]]).
  - unfold can_accept, in_state in H2. rewrite E in H2. simpl in H2. lia.
  - unfold can_accept, in_state in H2. rewrite E in H2. simpl in H2. lia.
Qed.

(** [OnRead], when Pepper has put [result] bytes into [read_buf]. *)
Lemma on_read_ok ac wr tk w result buf :
  live ac wr tk w → (0 < reading w)%nat → result <> PP_ERROR_USERCANCEL → result <= kBufSize →
  result <= size buf →
  ends (OnRead takes result buf)
    (set_delivered (delivered w ++ take (Z.to_nat result) buf) (set_reading (Nat.pred (reading w)) w))
    (λ _ w', step_ok ac wr tk w w').
Proof.
  intros [Hc Hr Hw Hcn Hra Hwa] Hrd Hcancel Hbuf Hlen.
  assert (read_sent_ (sock w) = true) as Hs.
  { pose proof (r_flag _ _ Hr). destruct (read_sent_ (sock w)); [done|simpl in *; lia]. }
  pose proof (read_sent_state _ _ Hr Hs) as Hh. destruct (r_room _ _ Hr Hs) as [Hsz He].
  destruct (not_connecting _ Hcn Hh) as (Hc0 & Ha1 & Hl0).
  unfold OnRead. rewrite (proj2 (Z.eqb_neq _ _) Hcancel). unfold OnReadLocked, OnReadLocked_with. walk.
  match goal with |- ends (if IsTerminated ?x then _ else _) _ _ => set (w1 := x) end.
  assert (reading w1 + count is_read (tasks w1) = 0)%nat as Hz.
  { pose proof (r_flag _ _ Hr) as Hf. rewrite Hs in Hf. simpl in *. lia. }
  assert (same_writes w w1 ∧ same_connects w w1 ∧ same_state w w1) as (Sw & Sc & Ss) by (split_and!; same).
  assert (live ac wr tk w1 → step_ok ac wr tk w (add_effect Broadcast w1)) as Hdone.
  { intros H. apply step_ok_effect. split; [done|by apply moved_same]. }
  rewrite (terminated_open w1 Hc). apply ends_if; intros Herr.
  { walk. apply Hdone. assert (connect_state_ (sock w1) = TCP_SOCKET_ERROR) as Hst by (by apply in_state_true in Herr).
    destruct (error_ahead _ Hst). constructor; try done;
      [|by apply (writes_same _ _ w)|by apply (connects_same w)].
    destruct Hr. constructor; try done; simpl.
    - by apply prefix_app_r.
    - intros H1. change (in_state TCP_SOCKET_ERROR (sock w1) = false) in H1. congruence.
    - intros Hq. change (handshaking w = true) in Hq. congruence. }
  assert (tk ++ in_buf_ (sock w) = delivered w) as Hall by (by apply (r_all _ _ Hr)).
  assert (0 <= result → size (take (Z.to_nat result) buf) = result) as Htk.
  { intros H. unfold size in *. rewrite length_take. lia. }
  eapply (ends_bind _ _ _ (λ _ w', step_ok ac wr tk w w')); [|intros ? w' H; walk; by apply step_ok_effect].
  apply ends_if; intros H0; [|apply ends_if; intros H1].
  - apply Z.ltb_lt in H0. walk. set (w3 := set_sock _ w1).
    assert (reads tk w3) as Hr3.
    { destruct Hr. constructor; simpl; try done; try lia.
      - by rewrite <-Hall, <-app_assoc.
      - intros _. by rewrite <-Hall, <-app_assoc.
      - unfold size in *. rewrite length_app. lia.
      - intros Hq. change (handshaking w = true) in Hq. congruence. }
    eapply ends_bind; [apply (post_read tk true w3); done|].
    intros ? w' (R1 & R2 & R3 & R4 & R5 & _). walk. apply step_ok_effect.
    assert (same_writes w w' ∧ same_connects w w' ∧ same_state w w') as (Sw' & Sc' & Ss').
    { split_and!; [apply (same_writes_trans _ w3); [same|done]|apply (same_connects_trans _ w3); [same|done]|].
      by apply (same_state_trans _ w3); [same|]. }
    split; [|by apply moved_same]. constructor; try done.
    + by destruct Sc' as (-> & _).
    + by apply (writes_same _ _ w).
    + by apply (connects_same w).
    + by apply (writes_ahead_same w).
  - apply Z.eqb_eq in H1. subst result. walk. apply step_ok_effect. split; [|apply moved_same; same].
    constructor; try done; [|by apply (writes_same _ _ w); [same|same|]|by apply (connects_same w); [same|same|]|].
    + destruct Hr. constructor; simpl; rewrite ?app_nil_r; try done; try lia.
      intros Hq. change (handshaking w = true) in Hq. congruence.
    + intros _ _. by right.
  - apply Z.ltb_ge in H0. apply Z.eqb_neq in H1. assert (take (Z.to_nat result) buf = []) as Hnil.
    { by replace (Z.to_nat result) with 0%nat by lia. }
    eapply ends_weaken; [by apply (mark_error EIO w1 5)|].
    intros ? w' (S1 & S2 & S3 & Hst & _).
    assert (same_connects w w') as Sc' by (by eapply same_connects_trans).
    split; [|by apply moved_error].
    apply (live_error ac wr tk w1); try done.
    + destruct Hr. constructor; simpl; rewrite ?Hnil, ?app_nil_r; try done; try lia.
      intros Hq. change (handshaking w = true) in Hq. congruence.
    + by apply (writes_same _ _ w).
Qed.

(** [OnWrite], when Pepper has written [result] bytes of [b]. *)
Lemma on_write_ok ac wr tk w result b rest :
  live ac wr tk w → writing w = b :: rest → result <= size b →
  ends (OnWrite takes result) (set_writing rest w)
    (λ _ w', step_ok ac (wr ++ take (Z.to_nat result) b) tk w w').
Proof.
  intros [Hc Hr Hw Hcn Hra Hwa] Hb Hlen.
  assert (rest = [] ∧ write_sent_ (sock w) = true) as [-> Hs].
  { pose proof (w_flag _ _ _ Hw) as Hf. rewrite Hb in Hf.
    destruct (write_sent_ (sock w)); [|done]. by destruct rest. }
  pose proof (write_sent_state _ _ _ Hw Hs) as Hh.
  destruct (not_connecting _ Hcn Hh) as (Hc0 & Ha1 & Hl0).
  pose proof (w_prefix _ _ _ Hw) as Hpre. rewrite Hb in Hpre. simpl in Hpre. rewrite app_nil_r in Hpre.
  assert (wr ++ take (Z.to_nat result) b `prefix_of` ac) as Hpre'.
  { etrans; [|exact Hpre]. apply prefix_app. apply prefix_take. }
  unfold OnWrite. walk.
  match goal with |- ends (if IsTerminated ?x then _ else _) _ _ => set (w1 := x) end.
  assert (same_reads w w1 ∧ same_connects w w1 ∧ same_state w w1) as (Sr & Sc & Ss) by (split_and!; same).
  rewrite (terminated_open w1 Hc). apply ends_if; intros Herr.
  { walk. apply step_ok_effect. split; [|by apply moved_same].
    assert (connect_state_ (sock w1) = TCP_SOCKET_ERROR) as Hst by (by apply in_state_true in Herr).
    destruct (error_ahead _ Hst). constructor; try done; [by apply (reads_same _ w)| |by apply (connects_same w)].
    constructor; simpl; rewrite ?app_nil_r; try done.
    - intros H1. change (in_state TCP_SOCKET_ERROR (sock w1) = false) in H1. congruence.
    - intros Hq. change (handshaking w = true) in Hq. congruence. }
  assert (in_state TCP_SOCKET_ERROR (sock w) = false) as Herr0 by done.
  destruct (w_all _ _ _ Hw Herr0) as [Hac Hfor]. rewrite Hb in Hfor. inversion_clear Hfor as [|? ? Hbw _]. subst b.
  apply ends_if; intros Hbad.
  - eapply ends_bind; [by apply (mark_error EIO w1 5)|]. intros ? w' (S1 & S2 & S3 & Hst & _). walk.
    apply step_ok_effect.
    assert (same_connects w w') as Sc' by (by eapply same_connects_trans).
    split; [|by apply moved_error]. simpl in Hbad.
    assert (Z.to_nat result = 0%nat) as -> by (apply orb_true_iff in Hbad as [?%Z.ltb_lt|?%Z.ltb_lt]; lia).
    rewrite take_0, app_nil_r. destruct (error_ahead _ Hst). constructor; try done.
    + destruct Sc' as (-> & _). done.
    + apply (reads_error _ w); try done; by apply (same_reads_trans _ w1).
    + destruct S2 as (E1 & E2 & E3 & E4 & E5). constructor; rewrite ?E1, ?E2, ?E3, ?E4, ?E5; simpl.
      * rewrite app_nil_r. etrans; [|exact Hpre]. by apply prefix_app_r.
      * intros H1%in_state_false. congruence.
      * done.
      * unfold handshaking. by rewrite Hst.
    + by apply (connects_error w).
  - apply orb_false_iff in Hbad as [Hneg%Z.ltb_ge _]. walk. unfold id. set (w2 := set_sock _ w1).
    set (done_ := take (Z.to_nat result) (write_buf_ (sock w))) in *.
    assert (writes ac (wr ++ done_) w2) as Hw2.
    { constructor; simpl; rewrite ?app_nil_r; try done.
      - intros _. split; [|done]. rewrite Hac. unfold done_. rewrite <-!app_assoc. f_equal.
        by rewrite app_assoc, take_drop.
      - intros Hq. change (handshaking w = true) in Hq. congruence. }
    assert (same_reads w w2 ∧ same_connects w w2 ∧ same_state w w2) as (Sr2 & Sc2 & Ss2) by (split_and!; same).
    eapply (ends_bind _ _ _ (λ _ w', writes ac (wr ++ done_) w' ∧ writing_only w2 w' ∧ writes_ahead w')).
    + apply ends_if; intros Hmore.
      * eapply ends_weaken; [apply (write_locked ac (wr ++ done_) w2); try done|].
        { intros _. apply takes_asking; [done|].
          by apply orb_true_iff in Hmore as [?%negb_true_iff%bool_decide_eq_false|?%negb_true_iff%bool_decide_eq_false]; auto. }
        intros ? w' (H1 & H2 & H3). split; [done|]. split; [done|]. intros Hcon.
        destruct H2 as (_ & _ & Hst & _). unfold is_connected in *. rewrite (same_in_state _ _ _ Hst) in Hcon.
        specialize (H3 Hcon). auto.
      * walk. split; [done|]. split; [unfold writing_only; same|]. intros _.
        apply orb_false_iff in Hmore as [H1%negb_false_iff%bool_decide_eq_true H2%negb_false_iff%bool_decide_eq_true].
        by rewrite H1, H2.
    + intros ? w' (H1 & (S1 & S2 & S3 & _) & H3). walk. do 2 apply step_ok_effect.
      assert (same_reads w w' ∧ same_connects w w' ∧ same_state w w') as (Sr' & Sc' & Ss').
      { split_and!; [by apply (same_reads_trans _ w2)|by apply (same_connects_trans _ w2)|by apply (same_state_trans _ w2)]. }
      split; [|by apply moved_same]. constructor; try done.
      * destruct Sc' as (-> & _). done.
      * by apply (reads_same _ w).
      * by apply (connects_same w).
      * by apply (reads_ahead_same w).
Qed.

(** What a socket that is connecting has. *)
Lemma connecting_quiet ac wr tk w :
  live ac wr tk w → in_state TCP_SOCKET_CONNECTING (sock w) = true →
  in_buf_ (sock w) = [] ∧ read_sent_ (sock w) = false ∧ eof_ (sock w) = false ∧
  out_buf_ (sock w) = [] ∧ write_buf_ (sock w) = [] ∧ write_sent_ (sock w) = false ∧
  count is_write (tasks w) = 0%nat ∧ accepts w = 0%nat ∧ handshaking w = true.
Proof.
  intros [Hc Hr Hw Hcn _ _] Hs.
  assert (handshaking w = true) as Hh by (apply in_state_true in Hs; unfold handshaking; by rewrite Hs).
  destruct (r_quiet _ _ Hr Hh) as (? & ? & ?), (w_quiet _ _ _ Hw Hh) as (? & ? & ? & ?).
  split_and!; try done. pose proof (c_accept _ Hcn) as Ha. unfold can_accept in Ha.
  rewrite (in_state_other _ TCP_SOCKET_LISTENING _ Hs), (in_state_other _ TCP_SOCKET_ERROR _ Hs) in Ha by done.
  simpl in Ha. lia.
Qed.

Lemma on_connect_ok ac wr tk w result :
  live ac wr tk w → (0 < connecting w)%nat →
  ends (OnConnect takes result) (set_connecting (Nat.pred (connecting w)) w) (λ _ w', step_ok ac wr tk w w').
Proof.
  intros Hl Hcn0. pose proof (c_connect _ (l_connects _ _ _ _ Hl)) as Hcc.
  assert (in_state TCP_SOCKET_CONNECTING (sock w) = true) as Hs
    by (destruct (in_state TCP_SOCKET_CONNECTING (sock w)); [done|simpl in Hcc; lia]).
  destruct (connecting_quiet _ _ _ _ Hl Hs) as (Q1 & Q2 & Q3 & Q4 & Q5 & Q6 & Q7 & Q8 & Hh).
  destruct Hl as [Hc Hr Hw Hcn _ _]. rewrite Hs in Hcc. simpl in Hcc.
  unfold OnConnect. set (w0 := set_connecting _ w). walk. unfold id.
  eapply ends_bind; [apply ends_check with (Q := λ _ w', w' = w0); done|intros _ ? ->].
  assert (in_state TCP_SOCKET_LISTENING (sock w) = false) as Hnl by (by eapply in_state_other).
  assert (past_new w = true) as Hp by (apply in_state_true in Hs; unfold past_new; by rewrite Hs).
  eapply (ends_bind _ _ _ (λ _ w', step_ok ac wr tk w w')); [|intros ? w' H; walk; by apply step_ok_effect].
  apply ends_if; intros Hok.
  - walk. set (w1 := set_sock _ w0).
    assert (reads tk w1) as Hr1.
    { destruct Hr. constructor; simpl; try done. intros _. apply r_all0. by eapply in_state_other. }
    assert (writes ac wr w1) as Hw1.
    { destruct Hw. constructor; simpl; try done. intros _. apply w_all0. by eapply in_state_other. }
    eapply ends_bind; [by apply (post_read tk true w1)|].
    intros ? w' (R1 & R2 & R3 & R4 & R5 & _). walk. apply step_ok_effect.
    assert (connect_state_ (sock w') = TCP_SOCKET_CONNECTED) as Hst by exact R5.
    assert (accepts w' = 0%nat) as Ha' by (rewrite (accepts_same _ _ R4); exact Q8).
    destruct R4 as (E1 & E2 & E3 & E4 & E5 & E6 & E7 & E8).
    split.
    + constructor; try done.
      * by rewrite E1.
      * by apply (writes_same _ _ w1).
      * constructor; [|lia]. rewrite E2, E5. simpl. unfold in_state. rewrite Hst.
        rewrite bool_decide_false by done. simpl. lia.
      * intros _. destruct R3 as (F1 & F2 & F3 & _). rewrite F1, F2. simpl. by rewrite Q4, Q5.
    + constructor; try done; [congruence|]. intros _. unfold past_new. by rewrite Hst.
  - eapply ends_weaken; [apply (mark_error ECONNREFUSED w0 111); [done|by eapply in_state_other|done]|].
    intros ? w' (S1 & S2 & S3 & Hst & _).
    assert (accepts w' = 0%nat) as Ha' by (rewrite (accepts_same _ _ S3); exact Q8).
    split.
    + apply (live_error ac wr tk w0); try done.
      * by apply (reads_same _ w); [same|same|].
      * by apply (writes_same _ _ w); [same|same|].
      * simpl. lia.
      * change (accepts w0) with (accepts w). lia.
    + destruct S3 as (E1 & E2 & E3 & E4 & E5 & E6 & E7 & E8). constructor; try done; [congruence|].
      intros _. unfold past_new. by rewrite Hst.
Qed.

Lemma on_accept_ok ac wr tk w result x :
  live ac wr tk w → (0 < accepting w)%nat →
  ends (OnAccept result x) (set_accepting (Nat.pred (accepting w)) w) (λ _ w', step_ok ac wr tk w w').
Proof.
  intros [Hc Hr Hw Hcn Hra Hwa] Ha. pose proof (c_accept _ Hcn) as Hca.
  assert (of_bool (can_accept w) <= 1)%nat as Hcan by (destruct (can_accept w); simpl; lia).
  unfold accepts in Hca.
  assert (accepted_socket_ (sock w) = None) as Hn.
  { destruct (accepted_socket_ (sock w)) as [y|]; [|done]. rewrite bool_decide_true in Hca by done. simpl in Hca. lia. }
  unfold OnAccept. walk. eapply ends_bind; [apply ends_check; [by apply bool_decide_eq_true|]|].
  { by instantiate (1 := λ _ w', w' = set_accepting (Nat.pred (accepting w)) w). }
  intros _ ? ->. walk. do 2 apply step_ok_effect. set (w1 := set_sock _ _).
  assert (accepts w1 <= accepts w)%nat as Hle.
  { unfold accepts. simpl. destruct (bool_decide (is_Some x)); simpl; lia. }
  split.
  - constructor; try done; [by apply (reads_same _ w); [same|same|]|by apply (writes_same _ _ w); [same|same|]|].
    constructor; [exact (c_connect _ Hcn)|]. change (can_accept w1) with (can_accept w).
    etrans; [exact Hle|]. exact (c_accept _ Hcn).
  - by constructor.
Qed.

(** ** Tasks *)

(** A closed socket: nothing is on its way. *)
Record dead (ac wr tk : str) (w : World) : Prop := {
  d_closed : closed_ w = true;
  d_tasks : tasks w = [];
  d_calls : connecting w = 0%nat ∧ accepting w = 0%nat ∧ reading w = 0%nat ∧ writing w = [];
  d_written : wr `prefix_of` ac;
  d_taken : tk `prefix_of` delivered w;
}.

Definition run_task (k : task) : St World unit :=
  match k with
  | TaskConnect a => Connect takes a
  | TaskAccept => Accept takes
  | TaskRead => Read takes
  | TaskWrite => Write takes
  | TaskClose => Close
  end.

Lemma close_dead ac wr tk w :
  closed_ w = false → wr ++ List.concat (writing w) `prefix_of` ac →
  tk ++ in_buf_ (sock w) `prefix_of` delivered w →
  ends Close w (λ _ w', dead ac wr tk w').
Proof.
  intros Hc Hw Hr. unfold ends, Close, CancelAll, wrapper_Close, effect_. mon. rewrite Hc.
  eexists _, _. split; [reflexivity|]. constructor; try done.
  - etrans; [|exact Hw]. by apply prefix_app_r.
  - etrans; [|exact Hr]. by apply prefix_app_r.
Qed.

(** What is left of each kind of task. *)
Ltac counts Hn :=
  let N := fresh "N" in
  pose proof (conj (Hn is_connect) (conj (Hn is_accept) (conj (Hn is_read)
    (conj (Hn is_write) (Hn is_close))))) as N;
  simpl in N.

(** The task finds a [Write] that Pepper takes, if it makes one. *)
Definition taken_up (k : task) (w : World) : bool :=
  match k with
  | TaskWrite => write_sent_ (sock w) || IsTerminated w || takes CallWrite (asking w)
  | _ => true
  end.

Lemma task_ok ac wr tk w i k :
  live ac wr tk w → tasks w !! i = Some k → taken_up k (set_tasks (delete i (tasks w)) w) = true →
  ends (run_task k) (set_tasks (delete i (tasks w)) w)
    (λ _ w', if is_close k then dead ac wr tk w' else step_ok ac wr tk w w').
Proof.
  intros Hl Hi Htake. pose proof (λ p, tcp_count_delete p _ _ _ Hi) as Hn.
  set (w0 := set_tasks (delete i (tasks w)) w) in Htake |- *.
  destruct Hl as [Hc Hr Hw Hcn Hra Hwa].
  assert (same_state w w0) as Hs0 by same.
  destruct k as [a| | | |]; cbn [run_task is_close].
  - counts Hn.
    pose proof (c_connect _ Hcn) as Hcc.
    assert (in_state TCP_SOCKET_CONNECTING (sock w) = true) as Hs
      by (destruct (in_state TCP_SOCKET_CONNECTING (sock w)); [done|simpl in Hcc; lia]).
    unfold Connect. walk. unfold id.
    eapply ends_bind; [apply ends_check with (Q := λ _ w', w' = w0); done|intros _ ? ->]. walk.
    apply ends_pepper; [by apply takes_open|].
    apply (step_ok_effect _ _ _ _ (set_connecting (S (connecting w0)) w0)).
    set (w1 := set_connecting _ w0).
    assert (same_reads w w1 ∧ same_writes w w1 ∧ same_state w w1) as (Sr & Sw & Ss)
      by (split_and!; same; simpl; lia).
    assert (accepts w1 = accepts w) as Ha by (unfold accepts; simpl; lia).
    split.
    + constructor; try done.
      * by apply (reads_same _ w).
      * by apply (writes_same _ _ w).
      * constructor; [simpl; rewrite Hs in Hcc |- *; simpl in *; lia|].
        rewrite Ha. unfold can_accept. rewrite !(same_in_state _ _ _ Ss). exact (c_accept _ Hcn).
      * by apply (writes_ahead_same w).
    + constructor; try done; [simpl; lia|]. intros ?. split; [done|lia].
  - counts Hn.
    unfold Accept. apply ends_pepper; [by apply takes_open|]. set (w1 := set_accepting _ w0).
    assert (same_reads w w1 ∧ same_writes w w1 ∧ same_state w w1) as (Sr & Sw & Ss)
      by (split_and!; same; simpl; lia).
    assert (accepts w1 = accepts w) as Ha by (unfold accepts; simpl; lia).
    split.
    + constructor; try done.
      * by apply (reads_same _ w).
      * by apply (writes_same _ _ w).
      * constructor; [simpl; rewrite <-(c_connect _ Hcn); lia|].
        rewrite Ha. unfold can_accept. rewrite !(same_in_state _ _ _ Ss). exact (c_accept _ Hcn).
      * by apply (writes_ahead_same w).
    + constructor; try done; [simpl; lia|]. intros ?. split; [done|lia].
  - counts Hn.
    assert (read_sent_ (sock w) = true) as Hs.
    { pose proof (r_flag _ _ Hr). destruct (read_sent_ (sock w)); [done|simpl in *; lia]. }
    pose proof (read_sent_state _ _ Hr Hs) as Hh.
    pose proof (connected_or_error _ Hh) as Hce.
    unfold Read, ReadLocked. walk.
    eapply ends_weaken; [apply (read_locked tk); try done|].
    + pose proof (r_flag _ _ Hr) as Hf. rewrite Hs in Hf. destruct (r_room _ _ Hr Hs).
      destruct Hr. constructor; simpl; try done; [simpl in Hf; lia|].
      intros Hq. change (handshaking w = true) in Hq. congruence.
    + intros _. exact (r_room _ _ Hr Hs).
    + change (in_state TCP_SOCKET_ERROR (sock w) = negb (is_connected (sock w))). rewrite Hce. by destruct (in_state _ _).
    + intros ? w' (R1 & R2 & R3 & R4 & R5 & _).
      assert (same_writes w w' ∧ same_connects w w' ∧ same_state w w') as (Sw & Sc & Ss).
      { split_and!; [apply (same_writes_trans _ w0)|apply (same_connects_trans _ w0)|apply (same_state_trans _ w0)];
          try done; same; simpl; lia. }
      split; [|by apply moved_same]. constructor; try done.
      * destruct Sc as (-> & _). done.
      * by apply (writes_same _ _ w).
      * by apply (connects_same w).
      * by apply (writes_ahead_same w).
  - counts Hn.
    assert (handshaking w = false) as Hh.
    { destruct (handshaking w) eqn:E; [|done]. destruct (w_quiet _ _ _ Hw E) as (_ & _ & _ & ?). lia. }
    assert (writes ac wr w0) as Hw0.
    { destruct Hw. constructor; try done. intros Hq. change (handshaking w = true) in Hq. congruence. }
    assert (same_reads w w0 ∧ same_connects w w0) as (Sr0 & Sc0) by (split_and!; same; simpl; lia).
    unfold Write. walk. unfold id. apply ends_if; intros Hs.
    + apply negb_true_iff in Hs. eapply ends_weaken; [apply (write_locked ac wr w0); try done|].
      { intros He. unfold taken_up in Htake. rewrite (terminated_open w0 Hc), He in Htake.
        apply orb_true_iff in Htake as [[Ht|Ht]%orb_true_iff|Ht]; [|done..]. by rewrite Hs in Ht. }
      intros ? w' (H1 & (S1 & S2 & S3 & _) & H3).
      assert (same_reads w w' ∧ same_connects w w' ∧ same_state w w') as (Sr & Sc & Ss).
      { split_and!; [by apply (same_reads_trans _ w0)|by apply (same_connects_trans _ w0)|by apply (same_state_trans _ w0)]. }
      split; [|by apply moved_same]. constructor; try done.
      * destruct Sc as (-> & _). done.
      * by apply (reads_same _ w).
      * by apply (connects_same w).
      * by apply (reads_ahead_same w).
      * intros Hcon. unfold is_connected in *. rewrite (same_in_state _ _ _ Ss) in Hcon. specialize (H3 Hcon). auto.
    + apply negb_false_iff in Hs. walk. split; [|by apply moved_same]. constructor; try done.
      * by apply (reads_same _ w).
      * by apply (connects_same w).
      * intros Hcon. simpl in *. auto.
  - apply close_dead; [done|exact (w_prefix _ _ _ Hw)|exact (r_prefix _ _ Hr)].
Qed.

(** ** Calls *)

(** What a call that offers [off] has handed over when it answers [p]. *)
Definition gain_out (off : option str) (p : progress) : str :=
  match off, p with Some b, Returned (Ok (Int _)) => b | _, _ => [] end.

(** What a call of [recv] that peeks or not has taken. *)
Definition gain_in (rc : option (nat * bool)) (p : progress) : str :=
  match rc, p with Some (_, false), Returned (Ok (Bytes b)) => b | _, _ => [] end.

(** What a pause stands on. *)
Definition pause_ok (w : World) (p : pause) : Prop :=
  match p with
  | InListen _ => in_state TCP_SOCKET_LISTENING (sock w) = true ∧ accepts w = 0%nat
  | InConnect => past_new w = true
  | InCloseWrites => count is_close (tasks w) = 0%nat
  | _ => True
  end.

Lemma pause_moved w w' p : moved w w' → pause_ok w p → pause_ok w' p.
Proof.
  intros [H1 H2 H3 H4 H5]. destruct p; simpl; try done; [|congruence].
  intros [Hs Ha]. destruct (H3 Hs). split; [done|lia].
Qed.

Definition listens (p : pause) : bool := match p with InListen _ => true | _ => false end.

(** The answer to a call that wants [rc], made at [w]: a new pause, or the bytes at the
    head of the buffer, none of them only when the stream has ended. *)
Definition progress_ok (rc : option (nat * bool)) (w w' : World) (p : progress) : Prop :=
  match p with
  | Paused q => pause_ok w' q ∧ q ≠ InCloseWrites ∧
                (listens q = true → in_state TCP_SOCKET_NEW (sock w) = true)
  | Returned (Ok (Bytes b)) =>
      ∃ len peek, rc = Some (len, peek) ∧ b = take len (in_buf_ (sock w)) ∧
        (b = [] → len ≠ 0%nat →
         in_buf_ (sock w) = [] ∧ (is_connected (sock w) = false ∨ eof_ (sock w) = true))
  | _ => True
  end.

Definition call_ok (ac wr tk : str) (off : option str) (rc : option (nat * bool)) (w : World)
    (p : progress) (w' : World) : Prop :=
  live (ac ++ gain_out off p) wr (tk ++ gain_in rc p) w' ∧ moved w w' ∧ progress_ok rc w w' p.

Lemma tcp_call_ok_same ac wr tk off rc w p w' :
  live ac wr tk w → same_reads w w' → same_writes w w' → same_connects w w' → same_state w w' →
  gain_out off p = [] → gain_in rc p = [] → progress_ok rc w w' p → call_ok ac wr tk off rc w p w'.
Proof.
  intros Hl Sr Sw Sc Ss Ho Hi Hp. unfold call_ok. rewrite Ho, Hi, !app_nil_r.
  split; [by apply (live_same _ _ _ w)|]. split; [by apply moved_same|done].
Qed.

(** A call that changes nothing. *)
Lemma tcp_call_ok_none ac wr tk off rc w p :
  live ac wr tk w → gain_out off p = [] → gain_in rc p = [] → progress_ok rc w w p →
  call_ok ac wr tk off rc w p w.
Proof. intros. by apply tcp_call_ok_same. Qed.

(** An answer by which nothing was sent or received. *)
Definition quiet (p : progress) : bool :=
  match p with Returned (Ok _) => false | _ => true end.

Lemma gain_quiet off rc p : quiet p = true → gain_out off p = [] ∧ gain_in rc p = [].
Proof. by destruct p as [[e|v]| |q], off, rc as [[? []]|]. Qed.

Lemma quiet_ok ac wr tk off rc w p :
  live ac wr tk w → quiet p = true → progress_ok rc w w p → call_ok ac wr tk off rc w p w.
Proof. intros Hl Hq Hp. destruct (gain_quiet off rc p Hq). by apply tcp_call_ok_none. Qed.

Lemma fail_ok ac wr tk off rc w e : live ac wr tk w → call_ok ac wr tk off rc w (fail e) w.
Proof. intros. by apply quiet_ok. Qed.

Lemma quiet_moved ac wr tk off rc w p w' :
  live ac wr tk w' → moved w w' → quiet p = true → progress_ok rc w w' p → call_ok ac wr tk off rc w p w'.
Proof.
  intros Hl Hm Hq Hp. destruct (gain_quiet off rc p Hq) as [Ho Hi]. unfold call_ok.
  by rewrite Ho, Hi, !app_nil_r.
Qed.

Definition family_ok (w : World) : Prop :=
  socket_family_ (sock w) = AF_INET ∨ socket_family_ (sock w) = AF_INET6.

(** [VerifyInputSocketAddress] ends, and an address that it accepts is one of Pepper's. *)
Lemma verify_input w a l :
  family_ok w → from_option sockaddr_ok True a →
  ∃ r, VerifyInputSocketAddress a l (socket_family_ (sock w)) = Done r ∧
    (r = None → ∃ x n, a = Some x ∧ SockAddrToNetAddress x = Done n).
Proof.
  intros Hf Ha. unfold VerifyInputSocketAddress.
  assert ((socket_family_ (sock w) =? AF_INET) || (socket_family_ (sock w) =? AF_INET6) = true) as ->
    by (by destruct Hf as [-> | ->]).
  eexists. split; [reflexivity|]. destruct (l <=? 0); [done|]. destruct a as [x|]; [|done].
  destruct (_ || _); [done|]. destruct (Z.eqb_spec (ss_family x) (socket_family_ (sock w))) as [E|]; [|done].
  intros _. exists x. destruct x as [p b|p b|f]; [by eexists|by eexists|].
  simpl in E, Ha. rewrite E in Ha. destruct Ha as [? ?], Hf; congruence.
Qed.

Lemma bind_ok ac wr tk off rc w a l :
  live ac wr tk w → family_ok w → from_option sockaddr_ok True a →
  ends (bind a l) w (λ p w', call_ok ac wr tk off rc w p w').
Proof.
  intros Hl Hf Ha. destruct (verify_input w a l Hf Ha) as (r & E & Hr). unfold bind. walk. unfold id.
  eapply ends_then; [unfold lift; by rewrite E|].
  destruct r as [e|]; [walk; by apply fail_ok|]. destruct (Hr eq_refl) as (x & n & -> & En).
  eapply ends_then; [unfold lift; by rewrite En|]. walk. by apply quiet_ok.
Qed.

Lemma listen_ok ac wr tk off rc w b :
  live ac wr tk w → ends (listen b) w (λ p w', call_ok ac wr tk off rc w p w').
Proof.
  intros Hl. unfold listen. walk. unfold id. apply ends_if; intros Hs; [walk; by apply fail_ok|].
  apply negb_false_iff in Hs. walk. set (w1 := set_sock _ w).
  destruct Hl as [Hc Hr Hw Hcn Hra Hwa]. pose proof (c_accept _ Hcn) as Ha. unfold can_accept in Ha.
  rewrite (in_state_other _ TCP_SOCKET_LISTENING _ Hs), (in_state_other _ TCP_SOCKET_ERROR _ Hs) in Ha by done.
  simpl in Ha. pose proof (in_state_other _ TCP_SOCKET_CONNECTING _ Hs ltac:(done)) as Hnc.
  assert (handshaking w = true) as Hh by (apply in_state_true in Hs; unfold handshaking; by rewrite Hs).
  assert (in_state TCP_SOCKET_ERROR (sock w) = false) as He by (by eapply in_state_other).
  apply quiet_moved; [| |done|].
  - constructor; try done.
    + destruct Hr. constructor; try done. by intros _; apply r_all0. by intros _; apply r_quiet0.
    + destruct Hw. constructor; try done. by intros _; apply w_all0. by intros _; apply w_quiet0.
    + constructor; [|change (accepts w1) with (accepts w); lia].
      simpl. pose proof (c_connect _ Hcn) as Hcc. rewrite Hnc in Hcc. exact Hcc.
  - constructor; try done. apply in_state_true in Hs. unfold past_new. by rewrite Hs.
  - split; [|done]. split; [done|]. change (accepts w1) with (accepts w). lia.
Qed.

Lemma connect_ok ac wr tk off rc w a l :
  live ac wr tk w → family_ok w → from_option sockaddr_ok True a →
  ends (connect a l) w (λ p w', call_ok ac wr tk off rc w p w').
Proof.
  intros Hl Hf Ha. destruct (verify_input w a l Hf Ha) as (r & E & Hin). unfold connect. walk.
  eapply ends_then; [unfold lift; by rewrite E|].
  destruct r as [e|]; [walk; by apply fail_ok|]. destruct (Hin eq_refl) as (x & n & -> & En).
  rewrite (terminated_open _ (l_open _ _ _ _ Hl)).
  apply ends_if; intros He; [walk; by apply fail_ok|].
  apply ends_if; intros Hcl; [walk; by apply fail_ok|]. apply orb_false_iff in Hcl as [Hcon Hli].
  apply ends_if; intros Hs.
  - eapply ends_then; [unfold lift; by rewrite En|]. unfold CallOnMainThread. walk. set (w1 := set_tasks _ _).
    destruct Hl as [Hc Hr Hw Hcn Hra Hwa].
    assert (handshaking w = true) as Hh by (apply in_state_true in Hs; unfold handshaking; by rewrite Hs).
    pose proof (in_state_other _ TCP_SOCKET_CONNECTING _ Hs ltac:(done)) as Hnc.
    assert (past_new w1 = true) as Hp by done.
    assert (live ac wr tk w1) as Hl1.
    { constructor; try done.
      - destruct Hr. constructor; simpl; rewrite ?tcp_count_app; simpl; rewrite ?Nat.add_0_r; try done;
          [by intros _; apply r_all0|by intros _; apply r_quiet0].
      - destruct Hw. constructor; simpl; rewrite ?tcp_count_app; simpl; rewrite ?Nat.add_0_r; try done;
          [by intros _; apply w_all0|by intros _; apply w_quiet0].
      - pose proof (c_connect _ Hcn) as Hcc. pose proof (c_accept _ Hcn) as Hca.
        unfold can_accept, accepts in *. rewrite Hnc in Hcc. rewrite He, Hli in Hca. simpl in Hcc, Hca.
        constructor; unfold accepts; simpl; rewrite ?tcp_count_app; simpl; lia. }
    apply quiet_moved; [done| |by destruct (negb _)..].
    constructor; try done.
    + simpl. rewrite tcp_count_app. simpl. lia.
    + congruence.
  - eapply ends_bind; [apply ends_check with (Q := λ _ w', w' = w); [|done]|].
    { revert He Hcon Hli Hs. unfold is_connected, in_state. by destruct (connect_state_ (sock w)). }
    intros _ ? ->. walk. apply quiet_ok; [done|by destruct (negb _)|].
    destruct (negb _); [done|]. split; [|done]. simpl. unfold past_new.
    revert He Hcon Hli Hs. unfold is_connected, in_state. by destruct (connect_state_ (sock w)).
Qed.

(** [accept]: whoever takes the socket that Pepper accepted posts the next accept. *)
Lemma storage_inet n a c :
  NetAddressToSockAddrStorage n AF_UNSPEC false = Done (Some a) →
  ∃ k, name_of a false c = Done (a, Z.min c k, k).
Proof. destruct n; cbn; intros [= <-]; by eexists. Qed.

Lemma storage_done n : ∃ a, NetAddressToSockAddrStorage n AF_UNSPEC false = Done a.
Proof. by eexists. Qed.

(** The new connection, which starts to read. *)
Lemma accepted_reads main :
  ∃ x, PostReadTaskLocked takes main
    (set_sock (set_connect_state TCP_SOCKET_CONNECTED (sock (TCPSocket_accepted O_RDWR)))
       (TCPSocket_accepted O_RDWR)) = Done (tt, x).
Proof.
  destruct (post_read [] main (set_sock (set_connect_state TCP_SOCKET_CONNECTED
    (sock (TCPSocket_accepted O_RDWR))) (TCPSocket_accepted O_RDWR))) as ([] & x & E & _);
    [done|by constructor|by exists x].
Qed.

Lemma take_accepted ac wr tk w x :
  live ac wr tk w → accepted_socket_ (sock w) = Some x →
  step_ok ac wr tk w (set_tasks (tasks w ++ [TaskAccept]) (set_sock (set_accepted_socket None (sock w)) w)).
Proof.
  intros Hl Hx. set (w1 := set_tasks _ _).
  assert (accepts w1 = accepts w) as Ha.
  { unfold accepts. simpl. rewrite Hx, tcp_count_app. simpl.
    lia. }
  assert (same_reads w w1 ∧ same_writes w w1 ∧ same_state w w1) as (Sr & Sw & Ss) by (split_and!; same).
  destruct Hl as [Hc Hr Hw [Hcc Hca] Hra Hwa]. split; constructor; try done.
  - by apply (reads_same _ w).
  - by apply (writes_same _ _ w).
  - constructor; [|by rewrite Ha; unfold can_accept; rewrite !(same_in_state _ _ _ Ss)].
    simpl. rewrite tcp_count_app. simpl. rewrite Nat.add_0_r. exact Hcc.
  - by apply (writes_ahead_same w).
  - simpl. rewrite tcp_count_app. simpl. lia.
  - intros Hs. split; [done|lia].
Qed.

Lemma accept_end_ok ac wr tk rc w main fd n l :
  live ac wr tk w →
  ends (accept_end takes main O_RDWR remote fd n l) w (λ p w', call_ok ac wr tk None rc w p w').
Proof.
  intros Hl. unfold accept_end. walk. unfold id.
  destruct (accepted_socket_ (sock w)) as [x|] eqn:Hx; [|walk; by apply fail_ok].
  unfold CallOnMainThread. walk. set (w1 := set_tasks _ _).
  destruct (take_accepted _ _ _ _ _ Hl Hx) as [Hl1 Hm1]. fold w1 in Hl1, Hm1.
  assert (∀ p, gain_in rc p = [] → progress_ok rc w w1 p → call_ok ac wr tk None rc w p w1) as Hok.
  { intros p Hi Hp. unfold call_ok. by rewrite Hi, !app_nil_r. }
  destruct (storage_done (remote x)) as [a Ea].
  eapply (ends_then _ _ (if n then None else a) _ w1);
    [destruct n; [done|unfold lift; by rewrite Ea]|].
  apply ends_if; intros H1; [walk; by apply quiet_moved|].
  apply ends_if; intros H2; [walk; by apply quiet_moved|].
  destruct (accepted_reads main) as [y Ey].
  eapply ends_then; [unfold lift; by rewrite Ey|].
  assert (∃ name, (match (if n then None else a), l with
    | Some a, Some l => r ← lift (name_of a false l); mret (Some r) | _, _ => mret None end) w1 =
    Done (name, w1)) as [name En].
  { destruct n; [by eexists|]. destruct a as [a|]; [|by eexists]. destruct l as [c|]; [|by eexists].
    destruct (storage_inet _ _ c Ea) as [k Ek]. eexists. unfold lift. mon. by rewrite Ek. }
  eapply ends_then; [exact En|]. walk. apply Hok; [by destruct rc as [[? []]|]|done].
Qed.

Lemma accept_ok ac wr tk rc w main fd n l :
  live ac wr tk w →
  ends (accept takes main O_RDWR remote fd n l) w (λ p w', call_ok ac wr tk None rc w p w').
Proof.
  intros Hl. unfold accept. walk. unfold id. destruct (if n then None else _); [walk; by apply fail_ok|].
  apply ends_if; intros H1; [walk; by apply fail_ok|].
  apply ends_if; intros H2; [walk; by apply quiet_ok|]. by apply accept_end_ok.
Qed.

(** [connect] after its wait. *)
Lemma connect_end_ok ac wr tk off rc w :
  live ac wr tk w → off = None → past_new w = true → in_state TCP_SOCKET_CONNECTING (sock w) = false →
  ends connect_end w (λ p w', call_ok ac wr tk off rc w p w').
Proof.
  intros Hl -> Hp Hs. unfold connect_end. walk. unfold id.
  apply ends_if; intros He; [walk; destruct (connect_error_ _); by apply quiet_ok|].
  eapply ends_bind; [apply ends_check with (Q := λ _ w', w' = w); [|done]|].
  { revert Hp Hs He. unfold past_new, is_connected, in_state. by destruct (connect_state_ (sock w)). }
  intros _ ? ->. walk. apply tcp_call_ok_none; try done. by destruct rc as [[? []]|].
Qed.

(** [recv]. *)
Lemma pop_in_buf tk k w :
  reads tk w →
  reads (tk ++ take k (in_buf_ (sock w))) (set_sock (set_in_buf (drop k (in_buf_ (sock w))) (sock w)) w).
Proof.
  intros []. assert (size (drop k (in_buf_ (sock w))) <= size (in_buf_ (sock w))) as Hd.
  { unfold size. rewrite length_drop. lia. }
  constructor; simpl; rewrite <-?app_assoc, ?take_drop; try done; try lia.
  - intros H. destruct (r_room0 H). split; [lia|done].
  - intros H. change (handshaking w = true) in H. destruct (r_quiet0 H) as (-> & ? & ?).
    by rewrite drop_nil.
Qed.

Lemma recv_end_ok ac wr tk w main len peek :
  live ac wr tk w →
  ends (recv_end takes main len peek) w (λ p w', call_ok ac wr tk None (Some (len, peek)) w p w').
Proof.
  intros Hl. unfold recv_end. walk. unfold id.
  apply ends_if; intros Hn.
  - set (k := Nat.min len (List.length (in_buf_ (sock w)))) in *.
    destruct Hl as [Hc Hr Hw Hcn Hra Hwa].
    set (w1 := if peek then w else set_sock (set_in_buf (drop k (in_buf_ (sock w))) (sock w)) w).
    eapply (ends_then _ _ tt _ w1); [by destruct peek|].
    assert (same_writes w w1 ∧ same_connects w w1 ∧ same_state w w1 ∧ closed_ w1 = false) as (Sw & Sc & Ss & Hc1)
      by (subst w1; destruct peek; split_and!; same).
    set (tk1 := tk ++ gain_in (Some (len, peek)) (Returned (Ok (Bytes (take k (in_buf_ (sock w))))))).
    assert (reads tk1 w1) as Hr1.
    { subst w1 tk1. destruct peek; simpl; [by rewrite app_nil_r|by apply pop_in_buf]. }
    eapply ends_bind; [by apply (post_read tk1 main w1)|].
    intros ? w' (R1 & R2 & R3 & R4 & R5 & _). walk. split; [|split].
    + simpl gain_out. rewrite app_nil_r. fold tk1. constructor; try done.
      * by destruct R4 as (-> & _).
      * apply (writes_same _ _ w); [by apply (same_writes_trans _ w1)|by apply (same_state_trans _ w1)|done].
      * apply (connects_same w); [by apply (same_connects_trans _ w1)|by apply (same_state_trans _ w1)|done].
      * apply (writes_ahead_same w); [by apply (same_writes_trans _ w1)|by apply (same_state_trans _ w1)|done].
    + apply moved_same; [by apply (same_connects_trans _ w1)|by apply (same_state_trans _ w1)].
    + exists len, peek. subst k. apply negb_true_iff, Nat.eqb_neq in Hn. rewrite take_min. split_and!; [done..|].
      intros Hnil%(f_equal List.length). rewrite length_take in Hnil. simpl in Hnil. lia.
  - apply ends_if; intros He; walk; [|by apply fail_ok]. apply tcp_call_ok_none; try done; [by destruct peek|].
    apply negb_false_iff, Nat.eqb_eq in Hn. exists len, peek. split; [done|].
    assert (len ≠ 0%nat → in_buf_ (sock w) = []) as Hnil by (intros; apply nil_length_inv; lia).
    split; [destruct len; [done|by rewrite Hnil]|]. intros _ H. split; [auto|].
    by apply orb_true_iff in He as [?%negb_true_iff|?]; [left|right].
Qed.

Lemma recv_ok ac wr tk w main len peek :
  live ac wr tk w →
  ends (recv takes main len peek) w (λ p w', call_ok ac wr tk None (Some (len, peek)) w p w').
Proof.
  intros Hl. unfold recv. walk.
  apply ends_if; intros H1; [walk; by apply fail_ok|].
  apply ends_if; intros H2; apply ends_if; intros H3; try (walk; by apply quiet_ok); by apply recv_end_ok.
Qed.

(** [send]. *)
Lemma send_end_ok ac wr tk rc w blocking buf :
  live ac wr tk w → is_connected (sock w) = true →
  blocking = false ∨ size (out_buf_ (sock w)) < kBufSize →
  ends (send_end blocking buf) w (λ p w', call_ok ac wr tk (Some buf) rc w p w').
Proof.
  intros Hl Hcon Hb. unfold send_end. walk. unfold id. apply ends_if; intros Hs.
  - walk. set (w1 := set_sock _ w).
    assert (connect_state_ (sock w) = TCP_SOCKET_CONNECTED) as Hst by (by apply in_state_true).
    destruct Hl as [Hc Hr Hw Hcn Hra Hwa]. assert (handshaking w = false) as Hh by (unfold handshaking; by rewrite Hst).
    destruct (w_all _ _ _ Hw ltac:(by eapply in_state_other)) as [Hac Hfor].
    set (w2 := if negb (write_sent_ (sock w)) then set_tasks (tasks w ++ [TaskWrite]) w1 else w1).
    eapply (ends_then _ _ tt _ w2); [by unfold w2, id; destruct (negb _)|]. walk.
    assert (same_reads w w2 ∧ same_connects w w2 ∧ same_state w w2) as (Sr & Sc & Ss)
      by (unfold w2; destruct (negb _); split_and!; same).
    assert (out_buf_ (sock w2) = out_buf_ (sock w) ++ buf ∧ write_buf_ (sock w2) = write_buf_ (sock w) ∧
      write_sent_ (sock w2) = write_sent_ (sock w) ∧ writing w2 = writing w ∧
      (write_sent_ (sock w) = true ∨ (0 < count is_write (tasks w2))%nat)) as (E1 & E2 & E3 & E4 & E5).
    { unfold w2. destruct (write_sent_ (sock w)) eqn:E; simpl; split_and!; auto. right. rewrite tcp_count_app. simpl. lia. }
    assert (gain_in rc (ret (size buf)) = []) as Hi by (by destruct rc as [[? []]|]).
    split; [|split; [by apply moved_same|done]]. rewrite Hi, app_nil_r. simpl gain_out. constructor; try done.
    + by destruct Sc as (-> & _).
    + by apply (reads_same _ w).
    + destruct Hw. constructor; rewrite ?E1, ?E2, ?E3, ?E4; try done.
      * by apply prefix_app_r.
      * intros _. split; [|done]. rewrite Hac. by rewrite <-!app_assoc.
      * intros Hq. unfold handshaking in Hq. rewrite Ss, Hst in Hq. done.
    + by apply (connects_same w).
    + by apply (reads_ahead_same w).
    + intros _. rewrite E2, E3. split; [by apply Hwa|auto].
  - eapply ends_bind; [apply ends_check with (Q := λ _ w', w' = w); [|done]|].
    { destruct Hb as [->|Hb]; [done|]. apply Z.ltb_ge in Hs. lia. }
    intros _ ? ->. walk. by apply fail_ok.
Qed.

Lemma send_ok ac wr tk rc w buf :
  live ac wr tk w → ends (send buf) w (λ p w', call_ok ac wr tk (Some buf) rc w p w').
Proof.
  intros Hl. unfold send. walk. unfold id.
  apply ends_if; intros H1; [walk; by apply fail_ok|]. apply negb_false_iff in H1.
  apply ends_if; intros H2; [walk; by apply quiet_ok|]. apply send_end_ok; [done..|].
  apply andb_false_iff in H2 as [?|?%Z.leb_gt]; auto.
Qed.

(** The calls that concern neither the connection nor the buffers. *)
Definition aside (w w' : World) : Prop :=
  same_reads w w' ∧ same_writes w w' ∧ same_connects w w' ∧ same_state w w'.

Lemma aside_ok ac wr tk rc w p w' :
  live ac wr tk w → aside w w' → gain_in rc p = [] → progress_ok rc w w' p → call_ok ac wr tk None rc w p w'.
Proof. intros Hl (? & ? & ? & ?) Hi Hp. by apply tcp_call_ok_same. Qed.

Lemma tcp_setsockopt_ok ac wr tk w o v l :
  live ac wr tk w → is_Some v → ends (TcpSocket.setsockopt o v l) w (λ p w', call_ok ac wr tk None None w p w').
Proof.
  intros Hl [words ->]. unfold TcpSocket.setsockopt.
  destruct o as [| |o]; [apply ends_if; intros H1; [walk; by apply fail_ok|]..|].
  - walk. apply ends_if; intros H2; walk; by apply aside_ok.
  - walk. by case_match; apply tcp_call_ok_none.
  - walk. destruct (SocketOptions.setsockopt _ _ _ _) as [[e|x] s]; simpl; by apply aside_ok.
Qed.

Lemma ioctl_ok ac wr tk w v :
  live ac wr tk w → ends (ioctl v) w (λ p w', call_ok ac wr tk None None w p w').
Proof. intros Hl. unfold ioctl. walk. by apply aside_ok. Qed.

Lemma ioctl_fionread_ok ac wr tk w :
  live ac wr tk w → ends ioctl_FIONREAD w (λ p w', call_ok ac wr tk None None w p w').
Proof. intros Hl. unfold ioctl_FIONREAD. walk. by apply aside_ok. Qed.

Lemma tcp_getsockopt_ok ac wr tk w o n l :
  live ac wr tk w → ends (TcpSocket.getsockopt o n l) w (λ p w', call_ok ac wr tk None None w p w').
Proof.
  intros Hl. unfold TcpSocket.getsockopt. walk. apply aside_ok; [done|done|done|].
  repeat case_match; done.
Qed.

(** The address that [getpeername] and [getsockname] answer has a family. *)
Definition no_address (a : NetAddress) : bool := match a with NetAddress_none => true | _ => false end.

Definition has_name (a : NetAddress) (w : World) : Prop := no_address a = true → family_ok w.

Lemma getname_ok ac wr tk w a n l :
  live ac wr tk w → (VerifyOutputSocketAddress n l = None → has_name a w) →
  ends (getname a n l) w (λ p w', call_ok ac wr tk None None w p w').
Proof.
  intros Hl Ha. unfold getname. destruct (VerifyOutputSocketAddress n l) as [e|] eqn:Ev; [walk; by apply fail_ok|].
  destruct l as [len|]; [|done]. walk.
  destruct a as [p x|p x|]; cbn; [eexists _, _; (split; [reflexivity|]); by apply aside_ok..|].
  destruct (Ha eq_refl eq_refl) as [Hf|Hf]; unfold ends, mbind, St_bind, lift; cbn; rewrite Hf; eexists _, _;
    (split; [reflexivity|]); by apply aside_ok.
Qed.

(** The blocking calls of Pepper have ended. *)
Lemma tcp_bind_end_ok ac wr tk w r :
  live ac wr tk w → ends (bind_end r) w (λ p w', call_ok ac wr tk None None w p w').
Proof.
  intros Hl. unfold bind_end. walk. rewrite (l_open _ _ _ _ Hl).
  destruct (negb _); [destruct (_ =? PP_ERROR_ADDRESS_IN_USE)|]; by apply tcp_call_ok_none.
Qed.

Lemma setsockopt_end_ok ac wr tk w r :
  live ac wr tk w → ends (setsockopt_end r) w (λ p w', call_ok ac wr tk None None w p w').
Proof.
  intros Hl. unfold setsockopt_end. walk. rewrite (l_open _ _ _ _ Hl). destruct (negb _); by apply tcp_call_ok_none.
Qed.

(** A call that leaves the socket open, whatever it does to a listening one. *)
Record stays (w w' : World) : Prop := {
  s_close : count is_close (tasks w') = count is_close (tasks w);
  s_past : past_new w = true → past_new w' = true;
  s_family : socket_family_ (sock w') = socket_family_ (sock w);
}.

Lemma moved_stays w w' : moved w w' → stays w w'.
Proof. by intros []. Qed.

Lemma listen_end_ok ac wr tk w r :
  live ac wr tk w → pause_ok w (InListen 0) →
  ends (listen_end r) w (λ p w', live ac wr tk w' ∧ stays w w' ∧ ∃ x, p = Returned x ∧ ∀ b, x ≠ Ok (Bytes b)).
Proof.
  intros Hl [Hs Ha]. pose proof Hl as [Hc Hr Hw Hcn Hra Hwa].
  pose proof (in_state_other _ TCP_SOCKET_ERROR _ Hs ltac:(done)) as Hne.
  pose proof (in_state_other _ TCP_SOCKET_CONNECTING _ Hs ltac:(done)) as Hnc.
  assert (past_new w = false) as Hp by (unfold past_new; apply in_state_true in Hs; by rewrite Hs).
  pose proof (c_connect _ Hcn) as Hcc. rewrite Hnc in Hcc.
  unfold listen_end. walk. rewrite Hc. apply ends_if; intros Hok.
  - assert (∃ e n, (if r =? PP_ERROR_NOSPACE then EOPNOTSUPP else EADDRINUSE) = e ∧ errno_number e = Some n)
      as (e & n & -> & Hn) by (destruct (r =? PP_ERROR_NOSPACE); by eexists _, _).
    eapply ends_bind; [by apply (mark_error e w n)|]. intros ? w' (S1 & S2 & S3 & Hst & _). walk.
    split; [|split; [|by eexists]].
    + apply (live_error ac wr tk w); try done. lia.
    + destruct S3 as (_ & _ & _ & _ & _ & _ & E7 & E8). constructor; [done|congruence|done].
  - unfold CallOnMainThread. walk. set (w1 := set_tasks _ w).
    assert (same_reads w w1 ∧ same_writes w w1 ∧ same_state w w1) as (Sr & Sw & Ss) by (split_and!; same).
    split; [|split; [|by eexists]].
    + constructor; try done; [by apply (reads_same _ w)|by apply (writes_same _ _ w)| |by apply (writes_ahead_same w)].
      constructor; [unfold w1; simpl; rewrite Hnc, tcp_count_app; simpl in *; lia|].
      unfold can_accept. rewrite !(same_in_state _ _ _ Ss), Hs.
      unfold accepts in *. simpl. rewrite tcp_count_app. simpl. lia.
    + constructor; [simpl; rewrite tcp_count_app; simpl; lia|congruence|done].
Qed.

(** Closing. *)
Lemma close_locked ac wr tk w :
  live ac wr tk w →
  ends CloseLocked w (λ p w', live ac wr tk w' ∧ step_ok ac wr tk w w ∧
    ((p = Paused InCloseWrites ∧ w' = w) ∨
     (p = Paused InClose ∧ w' = set_tasks (tasks w ++ [TaskClose]) w))).
Proof.
  intros Hl. unfold CloseLocked. walk. unfold id.
  assert (step_ok ac wr tk w w) as Hs by (split; [done|by apply moved_same]).
  apply ends_if; intros H1; [walk; auto|]. unfold CallOnMainThread. walk.
  split; [|split; [done|by right]].
  destruct Hl as [Hc Hr Hw [Hcc Hca] Hra Hwa]. constructor; try done.
  - by apply (reads_same _ w); [same|same|].
  - by apply (writes_same _ _ w); [same|same|].
  - constructor; [simpl; rewrite tcp_count_app; simpl; by rewrite Nat.add_0_r|].
    etrans; [|exact Hca]. unfold accepts. simpl. rewrite tcp_count_app. simpl. lia.
  - by apply (writes_ahead_same w); [same|same|].
Qed.
End Operations.

Arguments run_task : clear implicits.
Arguments taken_up : clear implicits.
