(* ===== verification/TcpProperties.v ===== *)
(** * TcpProperties: runs of a stream socket and what holds in them

    Threads make and resume calls, the main thread runs posted tasks, and Pepper
    completes its calls, in any order.  The state of a run keeps the bytes that went
    through the socket. *)

From S2P Require Import Prelude Util MountPoints FileStream FdMap VfsFds SocketStream TcpSocket TcpFacts.
Import SocketUtil SocketOptions.

#[local] Open Scope Z_scope.

(** ** Runs *)

(** The calls of [tcp_socket.h] and of its base class SocketStream, apart from [fstat],
    [fsync] and [fdatasync], which answer constants.  The [address] of [getpeername] and
    [getsockname] is what Pepper answers, [NetAddress_none] if it has none. *)
Inductive syscall : Type :=
| sys_bind (saddr : option sockaddr_storage) (addrlen : Z)
| sys_listen (backlog : Z)
| sys_accept (addr_null : bool) (addrlen : option Z)
| sys_connect (saddr : option sockaddr_storage) (addrlen : Z)
| sys_send (buf : str)
| sys_sendto (buf : str) (dest_addr_null : bool) (addrlen : Z)
| sys_sendmsg (iov : option (list str)) (msg_controllen : Z)
| sys_recv (len : nat) (peek : bool)
| sys_recvfrom (len : nat) (peek addr_null addrlen_null : bool)
| sys_recvmsg (iov : option (list nat)) (msg_controllen : Z) (peek : bool)
| sys_setsockopt (o : tcp_option) (optval : option (list Z)) (optlen : Z)
| sys_ioctl (val : Z)
| sys_fionread
| sys_read (count : nat)
| sys_write (buf : str)
| sys_lseek
| sys_getsockopt (o : tcp_option) (optval_null : bool) (optlen : option Z)
| sys_getpeername (address : NetAddress) (name_null : bool) (namelen : option Z)
| sys_getsockname (address : NetAddress) (name_null : bool) (namelen : option Z)
| sys_close.

(** [m] says whether the event happens on the main thread, [fd] is the descriptor for a
    socket that gets accepted, and [i] the place of the task that the main thread runs.
    [Ready] is data that the next calls of Pepper's [Read] will find waiting. *)
Inductive event : Type :=
| Start (t : nat) (m : bool) (fd : Z) (c : syscall)
| Resume (t : nat) (m : bool) (fd result : Z) (is_timedout : bool)
| Main (i : nat)
| Connected (result : Z)
| AcceptDone (result : Z) (socket : option psock)
| ReadDone (result : Z) (read_buf : str)
| WriteDone (result : Z)
| Ready (data : str).

(** The socket, the threads that wait, whether a descriptor refers to it, the bytes that
    callers of [send] handed over, those that Pepper wrote, and those that callers of
    [recv] took. *)
Record System : Type := mkSystem {
  world : World;
  paused : gmap nat pause;
  is_open : bool;
  accepted : str;
  written : str;
  taken : str;
}.

Section Runs.
Context (takes : pcall → World → bool) (O_RDWR : Z) (remote : psock → NetAddress) `{!TakesCalls takes}.

Definition start (m : bool) (fd : Z) (c : syscall) : St World progress :=
  match c with
  | sys_bind a l => bind a l
  | sys_listen b => listen b
  | sys_accept n l => accept takes m O_RDWR remote fd n l
  | sys_connect a l => connect a l
  | sys_send buf => send buf
  | sys_sendto buf n l => sendto buf n l
  | sys_sendmsg iov l => sendmsg iov l
  | sys_recv len p => recv takes m len p
  | sys_recvfrom len p n l => recvfrom takes m len p n l
  | sys_recvmsg iov l p => recvmsg takes m iov l p
  | sys_setsockopt o v l => TcpSocket.setsockopt o v l
  | sys_ioctl v => ioctl v
  | sys_fionread => ioctl_FIONREAD
  | sys_read count => read takes m count
  | sys_write buf => write buf
  | sys_lseek => lseek
  | sys_getsockopt o n l => TcpSocket.getsockopt o n l
  | sys_getpeername a n l => getpeername a n l
  | sys_getsockname a n l => getsockname a n l
  | sys_close => OnLastFileRef
  end.

(** The bytes that the call which an event starts or resumes offers, and for a call of
    [recv] the bytes it wants and whether it only peeks. *)
Definition offers (c : syscall) : option str :=
  match c with
  | sys_send buf | sys_write buf | sys_sendto buf _ _ | sys_sendmsg (Some [buf]) _ => Some buf
  | _ => None
  end.

Definition wants (c : syscall) : option (nat * bool) :=
  match c with
  | sys_read len => Some (len, false)
  | sys_recv len p | sys_recvfrom len p _ _ | sys_recvmsg (Some [len]) _ p => Some (len, p)
  | _ => None
  end.

Definition still_offers (p : pause) : option str := match p with InSend buf => Some buf | _ => None end.
Definition still_wants (p : pause) : option (nat * bool) :=
  match p with InRecv len peek => Some (len, peek) | _ => None end.

(** Arguments that a caller can make: an address is read by its family, and the memory
    of an option's value is there. *)
Definition canonical (a : option sockaddr_storage) : bool :=
  match a with Some (sockaddr_other f) => negb (f =? AF_INET) && negb (f =? AF_INET6) | _ => true end.

Definition sane (c : syscall) : bool :=
  match c with
  | sys_bind a _ | sys_connect a _ => canonical a
  | sys_setsockopt _ v _ => bool_decide (is_Some v)
  | _ => true
  end.

(** Which events can happen: a thread makes one call at a time and needs a descriptor,
    and Pepper completes what it was asked to do: a [Read] with an error or at most what
    fits into [read_buf_], a [Write] with an error or at most the bytes it was given.
    What [Close] cancels does not call back. *)
Definition enabled (e : event) (s : System) : bool :=
  let w := world s in
  match e with
  | Start t _ _ c => is_open s && bool_decide (paused s !! t = None) && sane c
  | Resume t _ _ _ _ => bool_decide (is_Some (paused s !! t))
  | Main i => bool_decide (is_Some (tasks w !! i))
  | Connected _ => (0 <? connecting w)%nat
  | AcceptDone _ _ => (0 <? accepting w)%nat
  | ReadDone result read_buf =>
      (0 <? reading w)%nat && negb (result =? PP_ERROR_USERCANCEL) &&
      (result <=? kBufSize) && (result <=? size read_buf)
  | WriteDone result => match writing w with [] => false | b :: _ => result <=? size b end
  | Ready data => size data <=? kBufSize
  end.

Definition pause_of (t : nat) (p : progress) (m : gmap nat pause) : gmap nat pause :=
  match p with Paused q => <[t := q]> m | _ => delete t m end.

(** The thread [t] got as far as [p]. *)
Definition after_call (t : nat) (p : progress) (w : World) (off : option str) (rc : option (nat * bool))
    (s : System) : System :=
  {| world := w; paused := pause_of t p (paused s); is_open := is_open s;
     accepted := accepted s ++ gain_out off p; written := written s; taken := taken s ++ gain_in rc p |}.

Definition after_work (w : World) (out : str) (s : System) : System :=
  {| world := w; paused := paused s; is_open := is_open s; accepted := accepted s;
     written := written s ++ out; taken := taken s |}.

Definition forget_descriptor (s : System) : System :=
  {| world := world s; paused := paused s; is_open := false; accepted := accepted s;
     written := written s; taken := taken s |}.

(** What happens, and what the thread's call does next. *)
Definition perform (e : event) (s : System) : outcome (option progress * System) :=
  let w := world s in
  match e with
  | Start t m fd c =>
      '(p, w') ← start m fd c w;
      let s' := after_call t p w' (offers c) (wants c) s in
      mret (Some p, match c with sys_close => forget_descriptor s' | _ => s' end)
  | Resume t m fd result is_timedout =>
      match paused s !! t with
      | None => Abort
      | Some q =>
          '(p, w') ← resume takes m O_RDWR remote fd result is_timedout q w;
          mret (Some p, after_call t p w' (still_offers q) (still_wants q) s)
      end
  | Main i =>
      match tasks w !! i with
      | None => Abort
      | Some k =>
          '(_, w') ← run_task takes k (set_tasks (delete i (tasks w)) w);
          mret (None, after_work w' [] s)
      end
  | Connected result =>
      '(_, w') ← OnConnect takes result (set_connecting (Nat.pred (connecting w)) w);
      mret (None, after_work w' [] s)
  | AcceptDone result socket =>
      '(_, w') ← OnAccept result socket (set_accepting (Nat.pred (accepting w)) w);
      mret (None, after_work w' [] s)
  | ReadDone result read_buf =>
      '(_, w') ← OnRead takes result read_buf
        (set_delivered (delivered w ++ take (Z.to_nat result) read_buf)
           (set_reading (Nat.pred (reading w)) w));
      mret (None, after_work w' [] s)
  | WriteDone result =>
      match writing w with
      | [] => Abort
      | b :: rest =>
          '(_, w') ← OnWrite takes result (set_writing rest w);
          mret (None, after_work w' (take (Z.to_nat result) b) s)
      end
  | Ready data => mret (None, after_work (set_at_once (at_once w ++ [data]) w) [] s)
  end.

(** The states of the runs of a new socket, and of one that [accept] made. *)
Inductive reach : System → Prop :=
| reach_new family oflag w :
    TCPSocket_new family oflag = Done w → reach (mkSystem w ∅ true [] [] [])
| reach_accepted m w :
    PostReadTaskLocked takes m (set_sock (set_connect_state TCP_SOCKET_CONNECTED
      (sock (TCPSocket_accepted O_RDWR))) (TCPSocket_accepted O_RDWR)) = Done (tt, w) →
    reach (mkSystem w ∅ true [] [] [])
| reach_step e p s s' : reach s → enabled e s = true → perform e s = Done (p, s') → reach s'.

Fixpoint run_events (es : list event) (s : System) : option System :=
  match es with
  | [] => Some s
  | e :: es =>
      if enabled e s then match perform e s with Done (_, s') => run_events es s' | _ => None end else None
  end.

Lemma tcp_run_events_reach es s s' : reach s → run_events es s = Some s' → reach s'.
Proof.
  revert s. induction es as [|e es IH]; intros s Hr; cbn [run_events]; [by intros [= <-]|].
  destruct (enabled e s) eqn:He; [|done]. destruct (perform e s) as [[p s1]| |] eqn:E; try done.
  apply IH. by econstructor.
Qed.

Definition knows_family (u : TCPSocket) : bool := (socket_family_ u =? AF_INET) || (socket_family_ u =? AF_INET6).

(** Where an assertion fires: [bind] and [connect] want a socket that knows its family,
    which a socket from [accept] does not, and so do [getpeername] and [getsockname], with
    arguments that are in order, when Pepper has no address; a [send] that waited for room wants room
    when its time is over; and the [Write] of no bytes at all, after a [send] of none, when
    Pepper does not take it. *)
Definition asserts (e : event) (s : System) : bool :=
  let u := sock (world s) in
  match e with
  | Start _ _ _ (sys_bind _ _ | sys_connect _ _) => negb (knows_family u)
  | Start _ _ _ (sys_getpeername a n l | sys_getsockname a n l) =>
      bool_decide (VerifyOutputSocketAddress n l = None) && no_address a && negb (knows_family u)
  | Resume t _ _ _ is_timedout =>
      match paused s !! t with
      | Some (InSend _) =>
          is_timedout && is_connected u && (kBufSize <=? size (out_buf_ u)) && negb (closed_ (world s))
      | _ => false
      end
  | Main i =>
      match tasks (world s) !! i with
      | Some k => negb (taken_up takes k (set_tasks (delete i (tasks (world s))) (world s)))
      | None => false
      end
  | _ => false
  end.

(** ** The invariant of a run *)

Record alive (s : System) : Prop := {
  a_live : live (accepted s) (written s) (taken s) (world s);
  a_pause : ∀ t p, paused s !! t = Some p → pause_ok (world s) p;
  a_listen : ∀ t p t' p', paused s !! t = Some p → paused s !! t' = Some p' →
    listens p = true → listens p' = true → t = t';
  a_close : ∀ t t', paused s !! t = Some InCloseWrites → paused s !! t' = Some InCloseWrites → t = t';
  a_open : is_open s = true →
    count is_close (tasks (world s)) = 0%nat ∧ ∀ t, paused s !! t ≠ Some InCloseWrites;
}.

Record gone (s : System) : Prop := {
  g_dead : dead (accepted s) (written s) (taken s) (world s);
  g_open : is_open s = false;
  g_pause : ∀ t, paused s !! t ≠ Some InCloseWrites;
}.

Definition sinv (s : System) : Prop := alive s ∨ gone s.

Lemma canonical_ok a : canonical a = true → from_option sockaddr_ok True a.
Proof.
  destruct a as [[p x|p x|f]|]; simpl; try done.
  intros [H1%negb_true_iff%Z.eqb_neq H2%negb_true_iff%Z.eqb_neq]%andb_true_iff. done.
Qed.

Lemma pause_of_old t p m t' q :
  pause_of t p m !! t' = Some q → (t' = t ∧ p = Paused q) ∨ (t' ≠ t ∧ m !! t' = Some q).
Proof.
  unfold pause_of. destruct p as [r| |q'], (decide (t' = t)) as [-> |Hne];
    rewrite ?lookup_delete_eq, ?lookup_insert_eq; try done;
    rewrite ?lookup_delete_ne, ?lookup_insert_ne by done; auto.
  intros [= ->]. auto.
Qed.

Lemma pause_stays w w' p : stays w w' → listens p = false → pause_ok w p → pause_ok w' p.
Proof. intros [H1 H2 H3] Hl. destruct p; simpl in *; try done; congruence. Qed.

(** A call that ended, waits, or goes on waiting. *)
Lemma alive_call t off rc p w' s :
  alive s → call_ok (accepted s) (written s) (taken s) off rc (world s) p w' →
  alive (after_call t p w' off rc s).
Proof.
  intros [Hl Hp Hli Hcl Ho] (Hl' & Hm & Hpr). constructor; cbn [after_call world paused is_open accepted written taken].
  - done.
  - intros t' q Ht. apply pause_of_old in Ht as [[-> ->]|[_ Ht]]; [by destruct Hpr|].
    eapply pause_moved; eauto.
  - assert (∀ t1 q1 t2 q2, t1 = t ∧ p = Paused q1 → t2 ≠ t ∧ paused s !! t2 = Some q2 →
      listens q1 = true → listens q2 = true → False) as Hno.
    { intros t1 q1 t2 q2 [-> ->] [_ Ht2] L1 L2. destruct Hpr as (_ & _ & Hn). specialize (Hn L1).
      pose proof (Hp _ _ Ht2) as Hq. destruct q2; try done. destruct Hq as [Hq _].
      by rewrite (in_state_other _ _ _ Hn) in Hq. }
    intros t1 q1 t2 q2 H1 H2 L1 L2.
    destruct (pause_of_old _ _ _ _ _ H1) as [K1|K1], (pause_of_old _ _ _ _ _ H2) as [K2|K2];
      [by destruct K1 as [-> _], K2 as [-> _]|..].
    + by destruct (Hno _ _ _ _ K1 K2).
    + by destruct (Hno _ _ _ _ K2 K1).
    + destruct K1, K2. eapply Hli; eauto.
  - intros t1 t2 H1 H2.
    apply pause_of_old in H1 as [[-> ->]|[_ H1]]; [by destruct Hpr as (_ & ? & _)|].
    apply pause_of_old in H2 as [[-> ->]|[_ H2]]; [by destruct Hpr as (_ & ? & _)|]. by eapply Hcl.
  - intros Hop. destruct (Ho Hop) as [Hn Hno]. split; [by rewrite (m_close _ _ Hm)|].
    intros t' [[-> ->]|[_ Ht]]%pause_of_old; [by destruct Hpr as (_ & ? & _)|by destruct (Hno t')].
Qed.

(** Work on the main thread leaves the threads alone. *)
Lemma alive_work w' out s :
  alive s → step_ok (accepted s) (written s ++ out) (taken s) (world s) w' → alive (after_work w' out s).
Proof.
  intros [Hl Hp Hli Hcl Ho] [Hl' Hm]. constructor; cbn [after_work world paused is_open accepted written taken]; try done.
  - intros t q Ht. eapply pause_moved; eauto.
  - intros Hop. destruct (Ho Hop) as [Hn Hno]. by rewrite (m_close _ _ Hm).
Qed.

(** [CloseLocked], called for thread [t]. *)
Lemma alive_close t s :
  alive s → (∀ t', t' ≠ t → paused s !! t' ≠ Some InCloseWrites) → count is_close (tasks (world s)) = 0%nat →
  ends CloseLocked (world s) (λ p w', ∀ off rc,
    alive (forget_descriptor (after_call t p w' off rc s))).
Proof.
  intros [Hl Hp Hli Hcl Ho] Hno Hn. eapply ends_weaken; [by apply close_locked|].
  intros p w' (Hl' & [_ Hm] & Hcase) off rc.
  assert (quiet p = true ∧ (∀ t' q, pause_of t p (paused s) !! t' = Some q → listens q = true →
    t' ≠ t ∧ paused s !! t' = Some q)) as [Hq Hold].
  { destruct Hcase as [[-> _]|[-> _]]; split; try done; intros t' q Ht Lq;
      apply pause_of_old in Ht as [[-> [= <-]]|?]; done. }
  destruct (gain_quiet off rc p Hq) as [G1 G2].
  constructor; cbn [forget_descriptor after_call world paused is_open accepted written taken]; rewrite ?G1, ?G2, ?app_nil_r; try done.
  - intros t' q Ht. apply pause_of_old in Ht as [[-> ->]|[Hne Ht]].
    + destruct Hcase as [[[= ->] ->]|[[= ->] _]]; [exact Hn|done].
    + pose proof (Hp _ _ Ht) as Hpq. destruct Hcase as [[_ ->]|[_ ->]]; [done|].
      destruct q; try done; [|by destruct (Hno t' Hne)]. destruct Hpq as [H1 H2]. split; [done|].
      unfold accepts in *. simpl. rewrite tcp_count_app. simpl. lia.
  - intros t1 q1 t2 q2 H1 H2 L1 L2. destruct (Hold _ _ H1 L1), (Hold _ _ H2 L2). eapply Hli; eauto.
  - assert (∀ t', pause_of t p (paused s) !! t' = Some InCloseWrites → t' = t) as Hone.
    { intros t' [[-> _]|[Hne Ht]]%pause_of_old; [done|by destruct (Hno t' Hne)]. }
    intros t1 t2 H1 H2. by rewrite (Hone _ H1), (Hone _ H2).
Qed.

Lemma closing_call (c : syscall) : c = sys_close ∨ c ≠ sys_close.
Proof. destruct c; first [by left|by right]. Qed.

Lemma closing_pause (q : pause) : q = InCloseWrites ∨ q ≠ InCloseWrites.
Proof. destruct q; first [by left|by right]. Qed.

(** The sockets on which [bind] and [connect] can be called. *)
Definition callable (c : syscall) (w : World) : Prop :=
  match c with
  | sys_bind _ _ | sys_connect _ _ => family_ok w
  | sys_getpeername a n l | sys_getsockname a n l => VerifyOutputSocketAddress n l = None → has_name a w
  | _ => True
  end.

Lemma knows_family_ok w : knows_family (sock w) = true → family_ok w.
Proof. intros [?%Z.eqb_eq|?%Z.eqb_eq]%orb_true_iff; [by left|by right]. Qed.

Lemma not_asserting t m fd c s : asserts (Start t m fd c) s = false → callable c (world s).
Proof.
  destruct c; try done; cbn [asserts callable].
  1-2: intros Ha%negb_false_iff; by apply knows_family_ok.
  all: intros [[Hv%bool_decide_eq_false|Ha]%andb_false_iff|Hk%negb_false_iff]%andb_false_iff Hok;
    try done; intros Hn; try congruence; by apply knows_family_ok.
Qed.

Lemma tcp_start_ok ac wr tk m fd c w :
  live ac wr tk w → c ≠ sys_close → sane c = true → callable c w →
  ends (start m fd c) w (λ p w', call_ok ac wr tk (offers c) (wants c) w p w').
Proof.
  intros Hl Hc Hs Hf.
  destruct c as [a l|b|n l|a l|buf|buf n l|iov l|len p|len p n l|iov l p|o v l|v| |len|buf| |o n l|a n l|a n l|];
    cbn [start offers wants].
  - apply bind_ok; [done|done|by apply canonical_ok].
  - by apply listen_ok.
  - by apply accept_ok.
  - apply connect_ok; [done|done|by apply canonical_ok].
  - by apply send_ok.
  - apply ends_if; intros _; [by apply send_ok|walk; by apply fail_ok].
  - destruct iov as [[|buf [|? ?]]|]; cbn [sendmsg]; try (walk; by apply fail_ok).
    apply ends_if; intros _; [walk; by apply fail_ok|by apply send_ok].
  - by apply recv_ok.
  - apply ends_if; intros _; [by apply recv_ok|walk; by apply fail_ok].
  - destruct iov as [[|len [|? ?]]|]; cbn [recvmsg]; try (walk; by apply fail_ok).
    apply ends_if; intros _; [walk; by apply fail_ok|by apply recv_ok].
  - apply tcp_setsockopt_ok; [done|]. by apply bool_decide_eq_true in Hs.
  - by apply ioctl_ok.
  - by apply ioctl_fionread_ok.
  - by apply recv_ok.
  - by apply send_ok.
  - unfold lseek. walk. by apply fail_ok.
  - by apply tcp_getsockopt_ok.
  - by apply getname_ok.
  - by apply getname_ok.
  - done.
Qed.

(** What a waiting call needs to go on without tripping over an assertion. *)
Definition in_time (is_timedout : bool) (w : World) (p : pause) : Prop :=
  match p with
  | InSend _ => is_timedout = true → is_connected (sock w) = true → size (out_buf_ (sock w)) < kBufSize
  | _ => True
  end.

Lemma tcp_resume_ok ac wr tk m fd r late q w :
  live ac wr tk w → pause_ok w q → listens q = false → q ≠ InCloseWrites → in_time late w q →
  ends (resume takes m O_RDWR remote fd r late q) w
    (λ p w', call_ok ac wr tk (still_offers q) (still_wants q) w p w').
Proof.
  intros Hl Hq Hli Hcl Ht. unfold resume. walk. rewrite (l_open _ _ _ _ Hl).
  destruct q as [a|b|n l| |len peek|buf| | |]; try done; cbn [still_offers still_wants].
  - by apply tcp_bind_end_ok.
  - apply ends_if; intros H1; [walk; by apply quiet_ok|by apply accept_end_ok].
  - apply ends_if; intros H1; [walk; by apply quiet_ok|by apply connect_end_ok].
  - apply ends_if; intros H1; [walk; by apply quiet_ok|by apply recv_end_ok].
  - apply ends_if; intros H1; [walk; by apply quiet_ok|].
    apply ends_if; intros H2; [walk; by apply fail_ok|]. apply negb_false_iff in H2.
    apply send_end_ok; [done..|]. right. rewrite H2, andb_true_r in H1.
    destruct late; [by apply Ht|]. by apply Z.leb_gt in H1.
  - by apply setsockopt_end_ok.
  - walk. by apply quiet_ok.
Qed.

(** A thread that wakes up after the socket was closed. *)
Lemma resume_dead ac wr tk m fd r late q w :
  dead ac wr tk w → q ≠ InCloseWrites →
  ends (resume takes m O_RDWR remote fd r late q) w
    (λ p w', w' = w ∧ (∃ x, p = Returned x ∧ ∀ b, x ≠ Ok (Bytes b)) ∧
       gain_out (still_offers q) p = [] ∧ gain_in (still_wants q) p = []).
Proof.
  intros Hd Hq. pose proof (d_closed _ _ _ _ Hd) as Hc. unfold resume. walk.
  destruct q; try done; rewrite ?Hc; unfold bind_end, listen_end, setsockopt_end; walk; rewrite ?Hc;
    walk; (split; [done|split; [by eexists|first [by apply gain_quiet|done]]]).
Qed.

(** ** Steps *)

(** What [perform] does when its computation ends. *)
Definition steps (e : event) (s : System) (Q : option progress → System → Prop) : Prop :=
  ∃ p s', perform e s = Done (p, s') ∧ Q p s'.

Lemma steps_ends {A} (m : St World A) w (Q : A → World → Prop) (k : A * World → outcome (option progress * System)) R :
  ends m w Q → (∀ a w', Q a w' → ∃ p s', k (a, w') = Done (p, s') ∧ R p s') →
  ∃ p s', (m w ≫= k) = Done (p, s') ∧ R p s'.
Proof. intros (a & w' & E & HQ) Hk. destruct (Hk _ _ HQ) as (p & s' & E' & HR). exists p, s'. by rewrite E. Qed.

Lemma tcp_start_step t m fd c s :
  sinv s → enabled (Start t m fd c) s = true → asserts (Start t m fd c) s = false →
  steps (Start t m fd c) s (λ _ s', sinv s').
Proof.
  intros Hi [[Hop Hnt%bool_decide_eq_true]%andb_true_iff Hs]%andb_true_iff Ha.
  destruct Hi as [Hi|Hi]; [|by rewrite (g_open _ Hi) in Hop].
  pose proof Hi as [Hl Hp Hli Hcl Ho]. destruct (Ho Hop) as [Hn Hno].
  unfold steps. cbn [perform].
  destruct (closing_call c) as [-> |Hc].
  - cbn [start offers wants]. unfold OnLastFileRef.
    eapply (steps_ends (w ← get; check (negb (closed_ w));; CloseLocked)).
    + walk. eapply ends_bind; [apply ends_check with (Q := λ _ w', w' = world s); [|done]|intros _ ? ->].
      { by rewrite (l_open _ _ _ _ Hl). }
      apply (alive_close t); [done|intros; apply Hno|done].
    + intros p w' Hw. eexists _, _. split; [reflexivity|]. by left.
  - eapply steps_ends; [apply (tcp_start_ok _ _ _ m fd c _ Hl Hc Hs)|].
    + by apply not_asserting in Ha.
    + intros p w' Hk. eexists _, _. split; [reflexivity|]. left.
      destruct c; try done; by apply alive_call.
Qed.

Lemma tcp_resume_step t m fd r late s :
  sinv s → enabled (Resume t m fd r late) s = true → asserts (Resume t m fd r late) s = false →
  steps (Resume t m fd r late) s (λ _ s', sinv s').
Proof.
  intros Hi [q Ht]%bool_decide_eq_true Ha. unfold steps. cbn [perform asserts] in *. rewrite Ht in *.
  destruct Hi as [Hi|[Hd Hop Hno]].
  - pose proof Hi as [Hl Hp Hli Hcl Ho].
    destruct (listens q) eqn:Hlq; [|destruct (closing_pause q) as [-> |Hne]].
    + destruct q as [|b| | | | | | |]; try done. eapply steps_ends.
      * apply (ends_then _ _ (world s) _ (world s)); [done|]. by apply listen_end_ok, (Hp _ _ Ht).
      * intros p w' (Hl' & Hst & [x [-> _]]). eexists _, _. split; [reflexivity|]. left.
        assert (∀ t' q, pause_of t (Returned x) (paused s) !! t' = Some q → t' ≠ t ∧ paused s !! t' = Some q) as Hold
          by (by intros t' q [[_ ?]|?]%pause_of_old).
        constructor; cbn [after_call world paused is_open accepted written taken]; rewrite ?app_nil_r; try done.
        -- intros t' q [Hne Hq]%Hold. eapply pause_stays; [done| |by eapply Hp].
           destruct (listens q) eqn:Lq; [|done]. by destruct Hne; eapply Hli.
        -- intros t1 q1 t2 q2 [_ H1]%Hold [_ H2]%Hold. eauto.
        -- intros t1 t2 [_ H1]%Hold [_ H2]%Hold. eauto.
        -- intros Hop. destruct (Ho Hop) as [Hn Hno]. rewrite (s_close _ _ Hst). split; [done|].
           intros t' [_ H]%Hold. by destruct (Hno t').
    + assert (is_open s = false) as Hop by (destruct (is_open s); [by destruct (Ho eq_refl) as [_ H]; destruct (H t)|done]).
      eapply steps_ends.
      * apply (ends_then _ _ (world s) _ (world s)); [done|]. apply (alive_close t); [done| |by apply (Hp _ _ Ht)].
        intros t' Hne H. by destruct Hne; eapply Hcl.
      * intros p w' Hw. eexists _, _. split; [reflexivity|]. left.
        specialize (Hw None None). unfold forget_descriptor in Hw. unfold after_call in *. cbn in Hw |- *. by rewrite Hop.
    + eapply steps_ends; [apply (tcp_resume_ok _ _ _ m fd r late q _ Hl (Hp _ _ Ht) Hlq Hne)|].
      * destruct q; try done. cbn [in_time]. intros -> Hcon. rewrite Hcon, (l_open _ _ _ _ Hl) in Ha.
        simpl in Ha. rewrite andb_true_r in Ha. by apply Z.leb_gt.
      * intros p w' Hk. eexists _, _. split; [reflexivity|]. left. by apply alive_call.
  - eapply steps_ends; [apply (resume_dead _ _ _ m fd r late q _ Hd); naive_solver|].
    intros p w' (-> & [x [-> _]] & G1 & G2). eexists _, _. split; [reflexivity|]. right.
    constructor; cbn [after_call world paused is_open accepted written taken]; rewrite ?G1, ?G2, ?app_nil_r; try done.
    intros t' [[_ ?]|[_ H]]%pause_of_old; [done|by destruct (Hno t')].
Qed.

Lemma alive_dead w' out s :
  alive s → (0 < count is_close (tasks (world s)))%nat →
  dead (accepted s) (written s ++ out) (taken s) w' → gone (after_work w' out s).
Proof.
  intros [Hl Hp Hli Hcl Ho] Hn Hd. constructor; cbn [after_work world paused is_open]; [done| |].
  - destruct (is_open s); [|done]. destruct (Ho eq_refl). lia.
  - intros t Ht. pose proof (Hp _ _ Ht) as H. simpl in H. lia.
Qed.

Lemma ready_ok ac wr tk w data :
  live ac wr tk w → size data <= kBufSize → step_ok ac wr tk w (set_at_once (at_once w ++ [data]) w).
Proof.
  intros [Hc Hr Hw Hcn Hra Hwa] Hd. split; [|by apply moved_same; same].
  constructor; try done; [|by apply (writes_same _ _ w); same|by apply (connects_same w); same].
  destruct Hr. constructor; try done. simpl. apply Forall_app. split; [done|by repeat constructor].
Qed.

Lemma works (m : St World unit) w0 out s :
  alive s →
  ends m w0 (λ _ w', step_ok (accepted s) (written s ++ out) (taken s) (world s) w') →
  ∃ p s', (m w0 ≫= λ '(_, w'), mret (None, after_work w' out s)) = Done (p : option progress, s') ∧ sinv s'.
Proof.
  intros Hi H. eapply steps_ends; [exact H|]. intros [] w' Hw. eexists _, _. split; [reflexivity|].
  left. by apply alive_work.
Qed.

(** An event of the main thread or of Pepper. *)
Lemma work_step e s :
  sinv s → enabled e s = true → asserts e s = false →
  match e with Start _ _ _ _ | Resume _ _ _ _ _ => False | _ => True end →
  steps e s (λ _ s', sinv s').
Proof.
  intros Hi He Ha Hk. unfold steps.
  destruct Hi as [Hi|Hi].
  - pose proof (a_live _ Hi) as Hl.
    assert (∀ w', step_ok (accepted s) (written s) (taken s) (world s) w' →
      step_ok (accepted s) (written s ++ []) (taken s) (world s) w') as Hnil by (intros; by rewrite app_nil_r).
    destruct e as [| |i|r|r x|r buf|r|d]; try done; cbn [enabled perform asserts] in *.
    + apply bool_decide_eq_true in He as [k Hi']. rewrite Hi' in Ha |- *. apply negb_false_iff in Ha.
      pose proof (task_ok _ _ _ _ _ _ Hl Hi' Ha) as Hk'. destruct (is_close k) eqn:Hkc; [|apply works; [done|]; by eapply ends_weaken; [exact Hk'|auto]].
      eapply steps_ends; [exact Hk'|]. intros [] w' Hd. eexists _, _. split; [reflexivity|]. right.
      apply alive_dead; [done| |by rewrite app_nil_r].
      rewrite (tcp_count_delete is_close _ _ _ Hi'), Hkc. simpl. lia.
    + apply works; [done|]. eapply ends_weaken; [apply on_connect_ok; [done|by apply Nat.ltb_lt]|auto].
    + apply works; [done|]. eapply ends_weaken; [apply on_accept_ok; [done|by apply Nat.ltb_lt]|auto].
    + apply andb_true_iff in He as [[[H1%Nat.ltb_lt H2%negb_true_iff%Z.eqb_neq]%andb_true_iff H3%Z.leb_le]%andb_true_iff H4%Z.leb_le].
      apply works; [done|]. eapply ends_weaken; [by apply on_read_ok|auto].
    + destruct (writing (world s)) as [|b rest] eqn:Hb; [done|]. apply Z.leb_le in He.
      by apply works, on_write_ok.
    + eexists _, _. split; [reflexivity|]. left. apply alive_work; [done|]. rewrite app_nil_r.
      apply ready_ok; [done|by apply Z.leb_le].
  - destruct Hi as [[Hc Ht (H1 & H2 & H3 & H4) Hw Hr] Hop Hno].
    destruct e as [| |i|r|r x|r buf|r|d]; try done; cbn [enabled perform] in *;
      rewrite ?Ht, ?H1, ?H2, ?H3, ?H4 in He; try done.
    eexists _, _. split; [reflexivity|]. right. constructor; try done.
    constructor; try done. simpl. by rewrite app_nil_r.
Qed.

Lemma getname_abort a n l w :
  VerifyOutputSocketAddress n l = None → no_address a = true → knows_family (sock w) = false → getname a n l w = Abort.
Proof.
  intros Hv Ha Hk. destruct a; try done. unfold getname. rewrite Hv. destruct l as [len|]; [|done].
  unfold knows_family in Hk. apply orb_false_iff in Hk as [H1 H2].
  unfold lift, get, this, gets, mbind, mret, St_bind, St_ret, id. cbn. unfold name_of, CopySocketAddress, any_address.
  rewrite H1, H2. cbn. by rewrite H1, H2.
Qed.

Lemma asserts_abort e s : enabled e s = true → asserts e s = true → perform e s = Abort.
Proof.
  intros He Ha. destruct e as [t m fd c|t m fd r late|i| | | | |]; try done; cbn [asserts perform] in *.
  - destruct c; try done; cbn [start].
    1-2: apply negb_true_iff in Ha; unfold bind, connect, VerifyInputSocketAddress;
      unfold lift, get, this, gets, mbind, mret, St_bind, St_ret, id; cbv beta; unfold knows_family in Ha; by rewrite Ha.
    all: apply andb_true_iff in Ha as [[Hv%bool_decide_eq_true Hn]%andb_true_iff Hk%negb_true_iff];
      unfold getpeername, getsockname; by rewrite getname_abort.
  - destruct (paused s !! t) as [[| | | | |buf| | |]|]; try done.
    apply andb_true_iff in Ha as [[[-> Hcon]%andb_true_iff Hfull%Z.leb_le]%andb_true_iff Hc%negb_true_iff].
    unfold resume, send_end, get, this, gets, mbind, mret, St_bind, St_ret. cbv beta. rewrite Hc. cbn [negb andb].
    rewrite Hcon. cbn [negb]. unfold id. by rewrite (proj2 (Z.ltb_ge _ _) Hfull).
  - destruct (tasks (world s) !! i) as [k|]; [|done]. destruct k; try done. set (w0 := set_tasks _ _) in *.
    apply negb_true_iff, orb_false_iff in Ha as [[Hs Ht]%orb_false_iff Hask].
    unfold run_task, Write, WriteLocked, call_pepper, check, update, effect_, this, gets, get, modify, mbind, mret, St_bind, St_ret, id.
    cbv beta. rewrite Hs. cbn [negb]. rewrite Hs. cbn [negb]. rewrite Ht.
    match goal with |- context [takes CallWrite ?x] => change x with (asking w0) end. by rewrite Hask.
Qed.

Lemma sinv_steps e s :
  sinv s → enabled e s = true → asserts e s = false → steps e s (λ _ s', sinv s').
Proof.
  intros Hi He Ha.
  destruct e; [by apply tcp_start_step|by apply tcp_resume_step|by apply work_step..].
Qed.

Lemma new_alive w :
  live [] [] [] w → count is_close (tasks w) = 0%nat → sinv (mkSystem w ∅ true [] [] []).
Proof. intros Hl Ht. left. by constructor. Qed.

Lemma tcp_reach_sinv s : reach s → sinv s.
Proof.
  induction 1 as [family oflag w Hw|m w Hw|e p s s' Hr IH He Ep].
  - revert Hw. unfold TCPSocket_new. destruct (_ || _); [|done]. intros [= <-].
    apply new_alive; [|done]. by repeat constructor.
  - set (w0 := set_sock _ _) in Hw.
    assert (reads [] w0) as Hr0 by (by repeat constructor).
    destruct (ends_done _ _ _ _ _ (post_read [] m w0 eq_refl Hr0) Hw) as (R1 & R2 & R3 & R4 & R5 & _).
    apply new_alive.
    + constructor; try done.
      * by destruct R4 as (-> & _).
      * apply (writes_same _ _ w0); [done|done|by repeat constructor].
      * apply (connects_same w0); [done|done|by repeat constructor].
      * apply (writes_ahead_same w0); [done|done|by repeat constructor].
    + by destruct R4 as (_ & _ & _ & _ & _ & _ & -> & _).
  - destruct (asserts e s) eqn:Ha; [by rewrite (asserts_abort _ _ He Ha) in Ep|].
    destruct (sinv_steps _ _ IH He Ha) as (p1 & s1 & E & Hs). congruence.
Qed.

(** ** Theorems *)

(** The call of [recv] that an event starts or resumes. *)
Definition receives (e : event) (s : System) : option (nat * bool) :=
  match e with
  | Start _ _ _ c => wants c
  | Resume t _ _ _ _ => match paused s !! t with Some q => still_wants q | None => None end
  | _ => None
  end.

Lemma bytes_step e s b s' :
  sinv s → enabled e s = true → perform e s = Done (Some (Returned (Ok (Bytes b))), s') →
  live (accepted s) (written s) (taken s) (world s) ∧
  ∃ w', progress_ok (receives e s) (world s) w' (Returned (Ok (Bytes b))).
Proof.
  intros Hi He E.
  destruct (asserts e s) eqn:Ha; [by rewrite (asserts_abort _ _ He Ha) in E|].
  destruct e as [t m fd c|t m fd r late|i|r|r x|r buf|r|d]; cbn [perform receives] in *.
  - apply andb_true_iff in He as [[Hop _]%andb_true_iff Hs].
    destruct Hi as [Hi|Hi]; [|by rewrite (g_open _ Hi) in Hop]. pose proof (a_live _ Hi) as Hl. split; [done|].
    destruct (closing_call c) as [-> |Hc].
    + revert E. cbn [start]. unfold OnLastFileRef, CloseLocked, this, gets, get, mbind, mret, St_bind, St_ret, id. cbv beta.
      rewrite (l_open _ _ _ _ Hl). cbn [negb check]. by destruct (_ && _).
    + destruct (tcp_start_ok _ _ _ m fd c _ Hl Hc Hs) as (p & w' & Es & _ & _ & Hp).
      * by apply not_asserting in Ha.
      * rewrite Es in E. injection E as -> _. by exists w'.
  - apply bool_decide_eq_true in He as [q Ht]. cbn [asserts] in Ha. rewrite Ht in *.
    destruct Hi as [Hi|[Hd Hop Hno]].
    + pose proof (a_live _ Hi) as Hl. split; [done|]. pose proof (a_pause _ Hi _ _ Ht) as Hpq.
      destruct (listens q) eqn:Hlq; [|destruct (closing_pause q) as [-> |Hne]].
      * destruct q as [|k| | | | | | |]; try done. exfalso.
        destruct (listen_end_ok _ _ _ _ r Hl Hpq) as (p & w' & Es & _ & _ & x & -> & Hx).
        change (resume takes m O_RDWR remote fd r late (InListen k) (world s)) with (listen_end r (world s)) in E.
        rewrite Es in E. injection E as E _. by destruct (Hx b).
      * exfalso. destruct (close_locked _ _ _ _ Hl) as (p & w' & Es & _ & _ & Hp).
        change (resume takes m O_RDWR remote fd r late InCloseWrites (world s)) with (CloseLocked (world s)) in E.
        rewrite Es in E. injection E as E _. by destruct Hp as [[-> _]|[-> _]].
      * destruct (tcp_resume_ok _ _ _ m fd r late q _ Hl Hpq Hlq Hne) as (p & w' & Es & _ & _ & Hp).
        -- destruct q; try done. cbn [in_time]. intros -> Hcon. rewrite Hcon, (l_open _ _ _ _ Hl) in Ha.
           simpl in Ha. rewrite andb_true_r in Ha. by apply Z.leb_gt.
        -- rewrite Es in E. injection E as -> _. by exists w'.
    + exfalso. destruct (resume_dead _ _ _ m fd r late q _ Hd) as (p & w' & Es & _ & (x & -> & Hx) & _); [naive_solver|].
      rewrite Es in E. injection E as E _. by destruct (Hx b).
  - destruct (tasks _ !! i); [|done]. by destruct (run_task _ _ _) as [[]| |].
  - by destruct (OnConnect _ _ _) as [[]| |].
  - by destruct (OnAccept _ _ _) as [[]| |].
  - by destruct (OnRead _ _ _ _) as [[]| |].
  - destruct (writing _); [done|]. by destruct (OnWrite _ _ _) as [[]| |].
  - done.
Qed.

(** C28.  A stream socket is two streams of bytes, in any interleaving of threads, main
    thread and Pepper.  Out: what Pepper has written, and then what the [Write] that is
    on its way has been given, are the first of the bytes that callers of [send] handed
    over; there is never more than one [Write], and [write_sent_] says whether there is
    one; until the connection fails the bytes that are not written are in [write_buf_] and
    [out_buf_], and as long as there are any something is on its way to write them.  In:
    what callers of [recv] took and what is in [in_buf_] are the first of the bytes that
    Pepper delivered, all of them until the connection fails; the buffer stays below 96
    KB, and a connected socket with less than 32 KB that has not seen the end always has a
    read on its way.  And a call of [recv] that succeeds gets the first bytes that
    were not taken, as many as there are up to the length asked for; none only when the
    buffer is empty and the stream has ended or the connection failed. *)
Theorem tcp_socket_is_two_streams s :
  reach s →
  let w := world s in
  let u := sock w in
  written s ++ List.concat (writing w) `prefix_of` accepted s ∧
  taken s `prefix_of` delivered w ∧
  (closed_ w = false →
     List.length (writing w) = of_bool (write_sent_ u) ∧
     (in_state TCP_SOCKET_ERROR u = false → accepted s = written s ++ write_buf_ u ++ out_buf_ u) ∧
     (is_connected u = true → accepted s ≠ written s → write_sent_ u = true ∨ TaskWrite ∈ tasks w) ∧
     taken s ++ in_buf_ u `prefix_of` delivered w ∧
     (in_state TCP_SOCKET_ERROR u = false → taken s ++ in_buf_ u = delivered w) ∧
     size (in_buf_ u) < half + kBufSize ∧
     (is_connected u = true → size (in_buf_ u) < half → eof_ u = false →
      (0 < reading w)%nat ∨ TaskRead ∈ tasks w)) ∧
  ∀ e s' b, enabled e s = true → perform e s = Done (Some (Returned (Ok (Bytes b))), s') →
    ∃ len peek, receives e s = Some (len, peek) ∧ b = take len (in_buf_ u) ∧
      b `prefix_of` drop (List.length (taken s)) (delivered w) ∧
      (b = [] → len ≠ 0%nat → in_buf_ u = [] ∧ (is_connected u = false ∨ eof_ u = true)).
Proof.
  intros Hreach w u. pose proof (tcp_reach_sinv _ Hreach) as Hi. split; [|split; [|split]].
  - destruct Hi as [Hi|[[_ _ (_ & _ & _ & E) H _] _ _]]; [exact (w_prefix _ _ _ (l_writes _ _ _ _ (a_live _ Hi)))|].
    fold w in E, H. rewrite E. simpl. by rewrite app_nil_r.
  - destruct Hi as [Hi|[[_ _ _ _ H] _ _]]; [|exact H].
    etrans; [|exact (r_prefix _ _ (l_reads _ _ _ _ (a_live _ Hi)))]. by apply prefix_app_r.
  - intros Hopen. destruct Hi as [Hi|[[Hc _ _ _ _] _ _]]; [|fold w in Hc; congruence].
    destruct (a_live _ Hi) as [Hc Hr Hw Hcn Hra Hwa]. fold w in Hc, Hr, Hw, Hcn, Hra, Hwa.
    assert (∀ p k, (0 < count p (tasks w))%nat → (∀ x, p x = true → x = k) → k ∈ tasks w) as Hin.
    { intros p k. induction (tasks w) as [|x l IH]; simpl; [lia|]. intros Hn Hk. apply elem_of_cons.
      destruct (p x) eqn:E; [left; symmetry; auto|right; apply IH; [simpl in Hn; lia|done]]. }
    split; [exact (w_flag _ _ _ Hw)|]. split; [intros He; exact (proj1 (w_all _ _ _ Hw He))|].
    split; [|split; [exact (r_prefix _ _ Hr)|split; [exact (r_all _ _ Hr)|split; [exact (r_size _ _ Hr)|]]]].
    + intros Hcon Hne. destruct (w_all _ _ _ Hw) as [Hac _]; [by eapply in_state_other|]. fold u in Hac.
      destruct (Hwa Hcon) as [H1 H2]. fold u in H1, H2.
      destruct (write_buf_ u) as [|x l]; [|left; by apply H1].
      destruct (out_buf_ u) as [|y l]; [by rewrite !app_nil_r in Hac|].
      destruct H2 as [?|?]; [done|by left|right]. apply (Hin is_write); [done|]. by intros [].
    + intros Hcon Hsz He. destruct (read_sent_ u) eqn:Hs.
      * pose proof (r_flag _ _ Hr) as Hf. fold u in Hf. rewrite Hs in Hf. simpl in Hf.
        destruct (reading w); [right|left; lia]. apply (Hin is_read); [lia|]. by intros [].
      * destruct (Hra Hcon Hs) as [H|H]; fold u in H; [lia|congruence].
  - intros e s' b He E. destruct (bytes_step _ _ _ _ Hi He E) as [Hl (w' & len & peek & Hrc & Hb & Hnil)].
    exists len, peek. split; [done|]. split; [done|]. split; [|done].
    rewrite Hb. etrans; [apply prefix_take|]. destruct (r_prefix _ _ (l_reads _ _ _ _ Hl)) as [x Hx].
    fold w in Hx |- *. rewrite Hx, <-app_assoc, drop_app_length. by apply prefix_app_r.
Qed.

(** C29.  No assertion fires in a run of a stream socket, whatever threads call of
    tcp_socket.h and socket_stream.h ([fstat], [fsync] and [fdatasync], which answer
    constants, and the questions of readiness, which only look, are left out; an address is read by its
    family and the value given to [setsockopt] is not NULL), in any order, and whatever Pepper answers as long as it takes the calls
    of a socket that is not closed, with four exceptions, which do fire: [bind] or [connect]
    on a socket that [accept] made, [getpeername] or [getsockname] on such a socket when
    Pepper has no address to give, the [send] that waited for room in a full buffer when
    its timeout has passed, and the [Write] of nothing at all, when Pepper does not take it.
    In particular
    the tasks and callbacks for reads, writes and connections find the state that they
    assert, and a listening socket never gets a connection while it has one. *)
Theorem tcp_no_assertion_fires s e :
  reach s → enabled e s = true →
  (if asserts e s then perform e s = Abort else ∃ p s', perform e s = Done (p, s') ∧ reach s') ∧
  (∀ i, e = Main i → asserts e s = true →
     out_buf_ (sock (world s)) = [] ∧ write_buf_ (sock (world s)) = []).
Proof.
  intros Hr He. split.
  - destruct (asserts e s) eqn:Ha; [by apply asserts_abort|].
    destruct (sinv_steps _ _ (tcp_reach_sinv _ Hr) He Ha) as (p & s' & E & _).
    exists p, s'. split; [done|]. by econstructor.
  - intros i -> Ha. cbn [asserts] in Ha. destruct (tasks (world s) !! i) as [k|]; [|done].
    set (w0 := set_tasks _ _) in Ha. destruct k; try done.
    apply negb_true_iff, orb_false_iff in Ha as [[_ [Hc _]%orb_false_iff]%orb_false_iff Hask].
    assert (write_buf_ (sock w0) = [] ∨ write_buf_ (sock w0) ≠ []) as [H1|H1] by (destruct (write_buf_ _); auto).
    + assert (out_buf_ (sock w0) = [] ∨ out_buf_ (sock w0) ≠ []) as [H2|H2] by (destruct (out_buf_ _); auto); [done|].
      by rewrite takes_asking in Hask by auto.
    + by rewrite takes_asking in Hask by auto.
Qed.
End Runs.

(** ** Runs *)

(** Pepper takes every call but a [Write] of nothing; the accepted connections come from
    one host. *)
Definition pepper (c : pcall) (w : World) : bool :=
  match c with CallWrite => negb (bool_decide (write_buf_ (sock w) = [])) | _ => true end.

#[local] Instance pepper_takes : TakesCalls pepper.
Proof. intros c w _ H. destruct c; try done. simpl. by rewrite bool_decide_false by auto. Qed.

Definition host_address : NetAddress := NetAddress_IPv4 80 [10; 0; 0; 1].
Definition from_host (x : psock) : NetAddress := host_address.

Definition fresh : System := mkSystem (new_socket AF_INET 2) ∅ true [] [] [].

Definition state_after (es : list event) : System := default fresh (run_events pepper 2 from_host es fresh).

Lemma state_after_reach es : reach pepper 2 from_host (state_after es).
Proof.
  assert (reach pepper 2 from_host fresh) as H by (by eapply (reach_new _ _ _ AF_INET 2)).
  unfold state_after. destruct (run_events _ _ _ es fresh) eqn:E; [|exact H].
  by eapply tcp_run_events_reach.
Qed.

(** A thread connects and sends five bytes, of which Pepper writes three; three bytes
    come in. *)
Definition talk : list event :=
  [ Start 1 false (-1) (sys_connect (Some (sockaddr_in 80 [10; 0; 0; 1])) 16);
    Main 0; Connected PP_OK; Resume 1 false (-1) 0 false;
    Start 1 false (-1) (sys_send (lit "hello"));
    Main 0; WriteDone 3; ReadDone 3 (lit "xyz___") ].

Lemma tcp_socket_is_two_streams_witness :
  let s := state_after talk in
  accepted s = lit "hello" ∧ written s = lit "hel" ∧ writing (world s) = [lit "lo"] ∧
  accepted s = written s ++ write_buf_ (sock (world s)) ++ out_buf_ (sock (world s)) ∧
  taken s ++ in_buf_ (sock (world s)) = lit "xyz" ∧
  ∃ s' len peek, perform pepper 2 from_host (Start 2 false (-1) (sys_recv 2 false)) s =
      Done (Some (Returned (Ok (Bytes (lit "xy")))), s') ∧
    receives (Start 2 false (-1) (sys_recv 2 false)) s = Some (len, peek) ∧
    lit "xy" = take len (in_buf_ (sock (world s))).
Proof.
  intros s.
  pose proof (tcp_socket_is_two_streams pepper 2 from_host (state_after talk)
    (state_after_reach talk)) as (_ & _ & Hlive & Hget).
  destruct Hlive as (_ & Hout & _ & _ & Hin & _); [vm_compute; reflexivity|].
  assert (enabled (Start 2 false (-1) (sys_recv 2 false)) (state_after talk) = true) as He
    by (vm_compute; reflexivity).
  destruct (perform pepper 2 from_host (Start 2 false (-1) (sys_recv 2 false)) (state_after talk))
    as [[p s']| |] eqn:Ep; [|by vm_compute in Ep..].
  assert (p = Some (Returned (Ok (Bytes (lit "xy"))))) as ->.
  { apply (f_equal (λ o, match o with Done (p, _) => p | _ => None end)) in Ep.
    rewrite <-Ep. vm_compute. reflexivity. }
  destruct (Hget _ _ _ He Ep) as (len & peek & Hrc & Hb & _).
  split; [vm_compute; reflexivity|]. split; [vm_compute; reflexivity|]. split; [vm_compute; reflexivity|].
  split; [apply Hout; vm_compute; reflexivity|].
  split; [etrans; [apply Hin; vm_compute; reflexivity|]; vm_compute; reflexivity|].
  exists s', len, peek. split; [exact Ep|]. split; [exact Hrc|exact Hb].
Defined.

(** A connection that [accept] made, on which somebody calls [connect]. *)
Definition accepted_connection : System :=
  match PostReadTaskLocked pepper true (set_sock (set_connect_state TCP_SOCKET_CONNECTED
          (sock (TCPSocket_accepted 2))) (TCPSocket_accepted 2)) with
  | Done (_, w) => mkSystem w ∅ true [] [] []
  | _ => fresh
  end.

Lemma tcp_no_assertion_fires_witness :
  let s := accepted_connection in
  let e := Start 1 true (-1) (sys_connect (Some (sockaddr_in 80 [10; 0; 0; 1])) 16) in
  reading (world s) = 1%nat ∧
  (∃ p s', perform pepper 2 from_host (ReadDone 3 (lit "xyz")) s = Done (p, s')) ∧
  enabled e s = true ∧ perform pepper 2 from_host e s = Abort ∧
  perform pepper 2 from_host (Start 2 false (-1) (sys_getsockname NetAddress_none false (Some 16))) s = Abort.
Proof.
  intros s e.
  assert (reach pepper 2 from_host accepted_connection) as Hr.
  { by apply (reach_accepted pepper 2 from_host true (world accepted_connection)). }
  assert (enabled (Start 1 true (-1) (sys_connect (Some (sockaddr_in 80 [10; 0; 0; 1])) 16))
    accepted_connection = true) as He by (vm_compute; reflexivity).
  pose proof (tcp_no_assertion_fires pepper 2 from_host accepted_connection
    (ReadDone 3 (lit "xyz")) Hr ltac:(vm_compute; reflexivity)) as H1.
  pose proof (tcp_no_assertion_fires pepper 2 from_host accepted_connection
    _ Hr He) as H2.
  pose proof (tcp_no_assertion_fires pepper 2 from_host accepted_connection
    (Start 2 false (-1) (sys_getsockname NetAddress_none false (Some 16))) Hr ltac:(vm_compute; reflexivity)) as H3.
  destruct H1 as [(p & s' & E & _) _].
  split; [vm_compute; reflexivity|]. split; [exists p, s'; exact E|]. split; [exact He|].
  split; [exact (proj1 H2)|exact (proj1 H3)].
Defined.

(** After a [send] of no bytes the main thread asks Pepper to write none. *)
Example writes_nothing :
  ∃ p s, perform pepper 2 from_host (Start 1 false (-1) (sys_send [])) accepted_connection = Done (p, s) ∧
    tasks (world s) = [TaskWrite] ∧ perform pepper 2 from_host (Main 0) s = Abort.
Proof. eexists _, _. split; [reflexivity|]. split; reflexivity. Qed.
