(* ===== verification/Fence.v ===== *)
(** * Fence: [fence_stream.{h,cc}] (under src/posix_translation/)

    Timelines (counters), sync points (values on a timeline) and fences (streams
    that are signaled when all their points are).  The objects refer to each other
    by address: timelines and points are in stores of their own, a fence is the
    part of a stream that its class adds, and the descriptors are those of
    VfsFds.v.  An operation runs under the locks that its code takes, so it is one
    step; waiting gives other threads their turn. *)

From S2P Require Import Prelude OrderedMap Util FileStream FdMap VfsFds.
Import Refs OrderedMap.

#[local] Open Scope Z_scope.

(** ** Data *)

Record SyncPoint : Type := mkSyncPoint { timestamp_ns_ : Z; signaling_time_ : Z }.

(** [sync_points_] is a multimap from firing times to points. *)
Record Timeline : Type := mkTimeline {
  counter_ : Z;
  sync_points_ : list (Z * nat);
  sync_point_fence_ : gmap nat sid;
}.

Inductive FenceStatus : Type := FENCE_ACTIVE | FENCE_SIGNALED.

#[export] Instance fence_status_eq_dec : EqDecision FenceStatus.
Proof. solve_decision. Defined.

(** The members that [FenceStream] adds; [points_of] is its [sync_points_], each
    with its timeline. *)
Record FenceStream : Type := mkFenceStream {
  fence_name_ : str;
  status_ : FenceStatus;
  points_of : list (nat * Z);
}.

(** What the objects share.  [clock] is CLOCK_MONOTONIC in nanoseconds, [wakeups]
    the fences whose [fence_cond_] was broadcast, [next_address] where the next
    sync point is allocated. *)
Record FenceEnv : Type := mkFenceEnv {
  timelines : gmap Z Timeline;
  points : gmap nat SyncPoint;
  fences : gmap sid FenceStream;
  clock : Z;
  wakeups : list sid;
  next_address : nat;
}.

Abbreviation FenceSys := (Sys FenceEnv).

(** ** Access to the state *)

Definition set_timelines (m : gmap Z Timeline) (e : FenceEnv) : FenceEnv :=
  mkFenceEnv m (points e) (fences e) (clock e) (wakeups e) (next_address e).
Definition set_points (m : gmap nat SyncPoint) (e : FenceEnv) : FenceEnv :=
  mkFenceEnv (timelines e) m (fences e) (clock e) (wakeups e) (next_address e).
Definition set_fences (m : gmap sid FenceStream) (e : FenceEnv) : FenceEnv :=
  mkFenceEnv (timelines e) (points e) m (clock e) (wakeups e) (next_address e).
Definition wake (s : sid) (e : FenceEnv) : FenceEnv :=
  mkFenceEnv (timelines e) (points e) (fences e) (clock e) (wakeups e ++ [s]) (next_address e).
Definition set_address (n : nat) (e : FenceEnv) : FenceEnv :=
  mkFenceEnv (timelines e) (points e) (fences e) (clock e) (wakeups e) n.

Definition at_key {K V} `{Countable K} (m : FenceEnv → gmap K V) (k : K) : St FenceEnv V := λ e,
  match m e !! k with Some v => Done (v, e) | None => Abort end.

Definition timeline (t : Z) : St FenceEnv Timeline := at_key timelines t.
Definition point (p : nat) : St FenceEnv SyncPoint := at_key points p.
Definition fence (s : sid) : St FenceEnv FenceStream := at_key fences s.

Definition put_timeline (t : Z) (tl : Timeline) : St FenceEnv unit :=
  modify (λ e, set_timelines (<[t := tl]> (timelines e)) e).
Definition put_point (p : nat) (sp : SyncPoint) : St FenceEnv unit :=
  modify (λ e, set_points (<[p := sp]> (points e)) e).
Definition put_fence (s : sid) (f : FenceStream) : St FenceEnv unit :=
  modify (λ e, set_fences (<[s := f]> (fences e)) e).

Definition on_env {A} (m : St FenceEnv A) : St FenceSys A := λ w,
  match m w.2 with
  | Done (a, e) => Done (a, (w.1, e))
  | Abort => Abort
  | NoFuel => NoFuel
  end.

(** ** Sync points *)

(** [new SyncPoint(signaling_time, timestamp_ns)] *)
Definition SyncPoint_new (signaling_time timestamp_ns : Z) : St FenceEnv nat :=
  p ← gets next_address;
  put_point p (mkSyncPoint timestamp_ns signaling_time);;
  modify (set_address (S p));;
  mret p.

Definition IsSignaled (sp : SyncPoint) : bool := negb (timestamp_ns_ sp =? 0).

Definition MarkAsSignaled (p : nat) : St FenceEnv unit :=
  sp ← point p;
  check (timestamp_ns_ sp =? 0);;
  ts ← gets clock;
  put_point p (mkSyncPoint ts (signaling_time_ sp)).

(** [FillSyncPtInfo] gives the timestamp and the length written, 0 when there is
    no room; [pt_info_size] is [sizeof(sync_pt_info)]. *)
Definition FillSyncPtInfo (pt_info_size : Z) (sp : SyncPoint) (length : Z) : Z * Z :=
  if length <? pt_info_size then (0, 0) else (timestamp_ns_ sp, pt_info_size).

(** ** Fences: status *)

Definition signaled_in (e : FenceEnv) (p : nat) : bool :=
  match points e !! p with Some sp => IsSignaled sp | None => false end.

Definition GetSignaledSyncPointCountLocked (f : FenceStream) : St FenceEnv nat :=
  gets (λ e, List.length (List.filter (λ pt : nat * Z, signaled_in e pt.1) (points_of f))).

(** The timelines are distinct; an empty name trips the assertion. *)
Definition IsValidLocked (f : FenceStream) : outcome bool :=
  require (negb (bool_decide (fence_name_ f = []))) ≫= λ _,
  mret (bool_decide (NoDup (points_of f).*2)).

Definition MaybeSignal (s : sid) : St FenceEnv unit :=
  f ← fence s;
  count ← GetSignaledSyncPointCountLocked f;
  if Nat.ltb count (List.length (points_of f)) then mret tt
  else
    let f := mkFenceStream (fence_name_ f) FENCE_SIGNALED (points_of f) in
    put_fence s f;;
    valid ← lift (IsValidLocked f);
    check valid;;
    modify (wake s).

(** ** Timelines *)

Definition kMaxUint32 : Z := 2 ^ 32 - 1.

Definition AttachSyncPointLocked (t : Z) (fence : sid) (p : nat) : St FenceEnv unit :=
  tl ← timeline t;
  sp ← point p;
  put_timeline t (mkTimeline (counter_ tl) (multi_insert (signaling_time_ sp) p (sync_points_ tl))
    (match sync_point_fence_ tl !! p with
     | Some _ => sync_point_fence_ tl
     | None => <[p := fence]> (sync_point_fence_ tl)
     end));;
  if IsSignaled sp then mret tt
  else if signaling_time_ sp <=? counter_ tl then MarkAsSignaled p else mret tt.

Definition DetachSyncPoint (t : Z) (p : nat) : St FenceEnv unit :=
  tl ← timeline t;
  sp ← point p;
  check (bool_decide (is_Some (sync_point_fence_ tl !! p)));;
  match multi_erase (signaling_time_ sp) p (sync_points_ tl) with
  | Some l => put_timeline t (mkTimeline (counter_ tl) l (delete p (sync_point_fence_ tl)))
  | None => fatal
  end.

Definition IncrementCounter (t : Z) (amount : Z) : St FenceEnv unit :=
  tl ← timeline t;
  check (counter_ tl <? kMaxUint32 - amount);;
  let shall_signal := range (counter_ tl + 1) (counter_ tl + amount) (sync_points_ tl) in
  put_timeline t (mkTimeline (counter_ tl + amount) (sync_points_ tl) (sync_point_fence_ tl));;
  for_each (λ kp : Z * nat,
    match sync_point_fence_ tl !! kp.2 with
    | Some f => MarkAsSignaled kp.2;; MaybeSignal f
    | None => fatal
    end) shall_signal.

(** ** Fences: creation and destruction *)

(** [sizeof(sync_fence_info_data().name)] is at least this in the kernel's ABI. *)
Definition kFenceNameSize : nat := 32.

(** [CreateFence] and [CreateFenceTimelineLocked], which differ in who locks; the
    new stream is at the address [s]. *)
Definition CreateFence (s : sid) (name : str) (sync_points : list (nat * Z)) : St FenceSys unit :=
  w ← get;
  check (bool_decide (objects w.1.2 !! s = None));;
  check (Nat.ltb (List.length name) kFenceNameSize);;
  put ((w.1.1, mkStreams (<[s := new_stream 2 false]> (objects w.1.2)) (calls w.1.2)), w.2);;
  on_env (put_fence s (mkFenceStream name FENCE_ACTIVE sync_points);;
          for_each (λ pt : nat * Z, AttachSyncPointLocked pt.2 s pt.1) sync_points;;
          MaybeSignal s).

(** [~FenceStream], which also deletes the sync points. *)
Definition destroy_fence (s : sid) : St FenceSys unit :=
  on_env (f ← fence s;
          for_each (λ pt : nat * Z, DetachSyncPoint pt.2 pt.1) (points_of f);;
          modify (λ e, set_points (foldr delete (points e) (points_of f).*1)
                         (set_fences (delete s (fences e)) e)));;
  on_fds (λ w, match destroy s w.2 with
               | Done (_, st) => Done (tt, (w.1, mkStreams (delete s (objects st)) (calls st)))
               | Abort => Abort
               | NoFuel => NoFuel
               end).

(** [Timeline::CreateFence].  Without a free descriptor the new fence is destroyed
    while the timeline is locked, which its destructor locks again. *)
Definition Timeline_CreateFence (t : Z) (s : sid) (name : str) (signaling_time : Z) :
    St FenceSys Z :=
  p ← on_env (SyncPoint_new signaling_time 0);
  CreateFence s name [(p, t)];;
  fd ← on_fds (AddFileStreamLocked (λ _, true) s);
  check (0 <=? fd);;
  mret fd.

(** [close] of a descriptor; a fence goes with its last one. *)
Definition close_fd (allowed : sid → bool) (fd : Z) : St FenceSys (res Z) :=
  w ← get;
  r ← on_fds (close allowed fd);
  w' ← get;
  match stream_at w.1 fd with
  | Some s =>
      match fences w'.2 !! s, objects w'.1.2 !! s with
      | Some _, Some f => if file_ref_count_ f =? 0 then destroy_fence s;; mret r else mret r
      | _, _ => mret r
      end
  | None => mret r
  end.

(** ** ioctl *)

(** The value for a timeline in [timeline_syncpoint]: the first fence's points by
    [operator[]], the other's by [insert], which keeps the later point. *)
Definition set_point (kp : Z * nat) (m : list (Z * nat)) : list (Z * nat) :=
  let '(m', inserted) := insert kp.1 kp.2 m in
  if inserted then m' else update kp.1 kp.2 m.

Definition merge_point (points : gmap nat SyncPoint) (m : list (Z * nat)) (pt : nat * Z) :
    outcome (list (Z * nat)) :=
  let '(m', inserted) := insert pt.2 pt.1 m in
  if inserted then mret m'
  else
    match find pt.2 m with
    | Some p =>
        match points !! p, points !! pt.1 with
        | Some mine, Some other =>
            mret (if signaling_time_ mine <? signaling_time_ other then update pt.2 pt.1 m else m)
        | _, _ => Abort
        end
    | None => Abort
    end.

Fixpoint merge_points (points : gmap nat SyncPoint) (m : list (Z * nat)) (pts : list (nat * Z)) :
    outcome (list (Z * nat)) :=
  match pts with
  | [] => mret m
  | pt :: pts => merge_point points m pt ≫= λ m, merge_points points m pts
  end.

(** Copies of the points, in the order of the map. *)
Fixpoint copy_points (m : list (Z * nat)) : St FenceEnv (list (nat * Z)) :=
  match m with
  | [] => mret []
  | (t, p) :: m =>
      sp ← point p;
      p' ← SyncPoint_new (signaling_time_ sp) (timestamp_ns_ sp);
      pts ← copy_points m;
      mret ((p', t) :: pts)
  end.

(** What [data] holds: the other descriptor and the name.  The result is
    [data->fence]; a merged fence is created at the address [s]. *)
Definition SyncIocMerge (allowed : sid → bool) (this : sid) (data : option (Z * str)) (s : sid) :
    St FenceSys (res Z) :=
  match data with
  | None => mret (Err EFAULT)
  | Some (fd2, name) =>
      file_stream ← on_fds (GetStreamLocked allowed fd2);
      w ← get;
      match file_stream ≫= λ other, (other,.) <$> fences w.2 !! other with
      | None => mret (Err ENOENT)
      | Some (other, other_fence) =>
          if bool_decide (this = other) then
            r ← on_fds (DupLocked allowed fd2 (-1));
            mret (Ok (match r with Ok fd => fd | Err _ => -1 end))
          else
            f ← on_env (fence this);
            let mine := foldl (λ m pt, set_point (pt.2, pt.1) m) [] (points_of f) in
            m ← lift (merge_points (points w.2) mine (points_of other_fence));
            new_sync_points ← on_env (copy_points m);
            CreateFence s name new_sync_points;;
            fd ← on_fds (AddFileStreamLocked (λ _, true) s);
            if fd =? -1 then destroy_fence s;; mret (Err EMFILE) else mret (Ok fd)
      end
  end.

(** [data] is the length of the caller's buffer.  The sizes are those of the
    kernel's structs.  The result: name, status, timestamps and the length written. *)
Fixpoint fill_points (pt_info_size len written : Z) (pts : list (nat * Z)) :
    St FenceEnv (res (list Z * Z)) :=
  match pts with
  | [] => mret (Ok ([], written))
  | pt :: pts =>
      sp ← point pt.1;
      let '(ts, result) := FillSyncPtInfo pt_info_size sp (len - written) in
      if result =? 0 then mret (Err ENOMEM)
      else
        r ← fill_points pt_info_size len (written + result) pts;
        mret (match r with Ok (tss, n) => Ok (ts :: tss, n) | Err e => Err e end)
  end.

Definition SyncIocFenceInfo (fence_info_size pt_info_size : Z) (this : sid) (data : option Z) :
    St FenceEnv (res (str * FenceStatus * list Z * Z)) :=
  f ← fence this;
  valid ← lift (IsValidLocked f);
  check valid;;
  match data with
  | None => mret (Err EFAULT)
  | Some len =>
      if len <? fence_info_size then mret (Err EINVAL)
      else
        r ← fill_points pt_info_size len fence_info_size (points_of f);
        mret (match r with
              | Ok (tss, n) => Ok (fence_name_ f, status_ f, tss, n)
              | Err e => Err e
              end)
  end.

Section Wait.
(** The platform's clock and condition variable; times are in microseconds. *)
Context (Now : St FenceSys Z) (Wait : St FenceSys unit) (TimedWait : Z → St FenceSys unit).

Definition check_valid (s : sid) : St FenceSys FenceStream :=
  f ← on_env (fence s);
  valid ← lift (IsValidLocked f);
  check valid;;
  mret f.

Fixpoint fence_wait (fuel : nat) (this : sid) (timeout time_limit : Z) : St FenceSys (res Z) :=
  match fuel with
  | O => λ _, NoFuel
  | S fuel =>
      is_timeout ← WaitUntilInternal Now Wait TimedWait time_limit;
      f ← check_valid this;
      if bool_decide (status_ f = FENCE_SIGNALED) then mret (Ok 0)
      else if (is_timeout : bool) then check (0 <=? timeout);; mret (Err ETIME)
      else fence_wait fuel this timeout time_limit
  end.

(** [timeout_pt] points to milliseconds. *)
Definition SyncIocWait (fuel : nat) (this : sid) (timeout_pt : option Z) : St FenceSys (res Z) :=
  start ← Now;
  f ← check_valid this;
  match timeout_pt with
  | None => mret (Err EFAULT)
  | Some timeout =>
      if bool_decide (points_of f = []) then mret (Ok 0)
      else if bool_decide (status_ f = FENCE_SIGNALED) then mret (Ok 0)
      else
        let time_limit := if timeout <? 0 then 0 else start + timeout * 1000 in
        fence_wait fuel this timeout time_limit
  end.
End Wait.

(** [read] and [write]. *)
Definition fence_read : res Z := Err EINVAL.
Definition fence_write : res Z := Err EINVAL.
