(* ===== verification/FenceFacts.v ===== *)
(** * FenceFacts: timelines, sync points and fences stay consistent

    The invariant of Fence.v's stores ([fences_inv]): a point is signaled exactly
    when its timeline has reached it, a fence exactly when all its points are.
    Inside an operation it holds up to the points that the running increment has
    still to signal ([pending]), the points that are not on their timeline
    ([loose]) and the fence whose status is to be brought up to date ([stale]). *)

From S2P Require Import Prelude OrderedMap Util FileStream FdMap VfsFds Fence.
Import Refs OrderedMap OrderedMapFacts.

#[local] Open Scope Z_scope.

(** ** The invariant *)

Definition all_signaled (e : FenceEnv) (f : FenceStream) : Prop :=
  ∀ p t, (p, t) ∈ points_of f → signaled_in e p = true.

Definition on_timeline (tl : Timeline) (s : sid) (p : nat) (sp : SyncPoint) : Prop :=
  sync_point_fence_ tl !! p = Some s ∧ (signaling_time_ sp, p) ∈ sync_points_ tl.

Record fences_inv (pending loose : list nat) (stale : option sid) (e : FenceEnv) : Prop := {
  fi_clock : 0 < clock e;
  fi_point : ∀ s f p t, fences e !! s = Some f → (p, t) ∈ points_of f →
    ∃ sp tl, points e !! p = Some sp ∧ timelines e !! t = Some tl ∧
      (IsSignaled sp = true → signaling_time_ sp <= counter_ tl) ∧
      (p ∉ loose → on_timeline tl s p sp ∧
         (IsSignaled sp = true ↔ signaling_time_ sp <= counter_ tl ∧ p ∉ pending));
  fi_timeline : ∀ t tl, timelines e !! t = Some tl →
    0 <= counter_ tl < 2 ^ 32 ∧ sorted_keys (sync_points_ tl) ∧ NoDup (sync_points_ tl).*2;
  fi_listed : ∀ t tl k p, timelines e !! t = Some tl → (k, p) ∈ sync_points_ tl →
    p ∉ loose ∧ ∃ s f sp, fences e !! s = Some f ∧ (p, t) ∈ points_of f ∧
      points e !! p = Some sp ∧ k = signaling_time_ sp;
  fi_owner : ∀ t tl p s, timelines e !! t = Some tl → sync_point_fence_ tl !! p = Some s →
    ∃ k, (k, p) ∈ sync_points_ tl;
  fi_unique : ∀ s1 s2 f1 f2 p t1 t2, fences e !! s1 = Some f1 → fences e !! s2 = Some f2 →
    (p, t1) ∈ points_of f1 → (p, t2) ∈ points_of f2 → s1 = s2 ∧ t1 = t2;
  fi_fence : ∀ s f, fences e !! s = Some f →
    fence_name_ f ≠ [] ∧ NoDup (points_of f).*2;
  fi_status : ∀ s f, fences e !! s = Some f → stale ≠ Some s →
    status_ f = FENCE_SIGNALED ↔ all_signaled e f;
  fi_fresh : ∀ p, is_Some (points e !! p) → (p < next_address e)%nat;
}.

Abbreviation fences_ok := (fences_inv [] [] None).

(** What an operation may do to points and fences that stay. *)
Record evolves (e e' : FenceEnv) : Prop := {
  ev_points : ∀ p sp, points e !! p = Some sp → is_Some (points e' !! p) →
    ∃ ts, points e' !! p = Some (mkSyncPoint ts (signaling_time_ sp)) ∧
      (IsSignaled sp = true → ts = timestamp_ns_ sp);
  ev_fences : ∀ s f, fences e !! s = Some f → is_Some (fences e' !! s) →
    ∃ st, fences e' !! s = Some (mkFenceStream (fence_name_ f) st (points_of f)) ∧
      (status_ f = FENCE_SIGNALED → st = FENCE_SIGNALED);
  ev_woken : ∃ l, wakeups e' = wakeups e ++ l ∧
    ∀ s f f', fences e !! s = Some f → fences e' !! s = Some f' →
      status_ f = FENCE_ACTIVE → status_ f' = FENCE_SIGNALED → s ∈ l;
}.

(** Nothing appears or goes. *)
Definition same_objects (e e' : FenceEnv) : Prop :=
  dom (points e') = dom (points e) ∧ dom (fences e') = dom (fences e) ∧
  next_address e' = next_address e ∧ clock e' = clock e.

Lemma evolves_refl e : evolves e e.
Proof.
  split.
  - intros p [ts st] Hp _. by exists ts.
  - intros s [n st ps] Hs _. by exists st.
  - exists []. rewrite app_nil_r. split; [done|]. intros s f f' H1 H2. congruence.
Qed.

Definition keeps (e e' : FenceEnv) : Prop :=
  (∀ p, is_Some (points e !! p) → is_Some (points e' !! p)) ∧
  (∀ s, is_Some (fences e !! s) → is_Some (fences e' !! s)).

Lemma evolves_comp e1 e2 e3 : keeps e1 e2 → evolves e1 e2 → evolves e2 e3 → evolves e1 e3.
Proof.
  intros [Hp Hf] [P1 F1 [l1 [L1 W1]]] [P2 F2 [l2 [L2 W2]]]. split.
  - intros p sp H1 H3. destruct (P1 p sp H1) as (ts & E & Hts); [eauto|].
    destruct (P2 _ _ E H3) as (ts' & E' & Hts'). exists ts'. split; [done|].
    intros Hs. rewrite <-(Hts Hs). apply Hts'. unfold IsSignaled in *. simpl. by rewrite Hts.
  - intros s f H1 H3. destruct (F1 s f H1) as (st & E & Hst); [eauto|].
    destruct (F2 _ _ E H3) as (st' & E' & Hst'). exists st'. simpl in *. naive_solver.
  - exists (l1 ++ l2). rewrite L2, L1, app_assoc. split; [done|].
    intros s f f3 H1 H3 Ha Hs. destruct (F1 s f H1) as (st & E & _); [eauto|].
    apply elem_of_app. destruct st; [right; by eapply W2|left; by eapply W1].
Qed.

Lemma same_keeps e e' : same_objects e e' → keeps e e'.
Proof. intros (Hp & Hf & _ & _). split; intros ?; by rewrite <-!elem_of_dom, ?Hp, ?Hf. Qed.

Lemma evolves_trans e1 e2 e3 :
  same_objects e1 e2 → evolves e1 e2 → evolves e2 e3 → evolves e1 e3.
Proof. intros H%same_keeps. by apply evolves_comp. Qed.

Lemma same_objects_refl e : same_objects e e.
Proof. done. Qed.

Lemma same_objects_trans e1 e2 e3 : same_objects e1 e2 → same_objects e2 e3 → same_objects e1 e3.
Proof. unfold same_objects. intuition congruence. Qed.

(** ** Signaling *)

Lemma at_key_run {K V} `{Countable K} (m : FenceEnv → gmap K V) k v e :
  m e !! k = Some v → at_key m k e = Done (v, e).
Proof. unfold at_key. by intros ->. Qed.

(** A point is signaled with the time of the clock. *)
Definition marked (p : nat) (sp : SyncPoint) (e : FenceEnv) : FenceEnv :=
  set_points (<[p := mkSyncPoint (clock e) (signaling_time_ sp)]> (points e)) e.

Lemma mark_run e p sp :
  points e !! p = Some sp → IsSignaled sp = false → MarkAsSignaled p e = Done (tt, marked p sp e).
Proof.
  intros Hp Hs. unfold MarkAsSignaled, point. run_with (at_key_run points p sp e Hp).
  unfold IsSignaled in Hs. apply negb_false_iff in Hs. rewrite Hs. done.
Qed.

Lemma signaled_marked e p sp q :
  0 < clock e → signaled_in (marked p sp e) q = if decide (q = p) then true else signaled_in e q.
Proof.
  intros Hc. unfold signaled_in, marked, set_points. cbn [points]. rewrite lookup_insert.
  destruct (decide (q = p)) as [->|]; [rewrite decide_True by done|by rewrite decide_False by done].
  unfold IsSignaled. cbn. destruct (Z.eqb_spec (clock e) 0); [lia|done].
Qed.

Lemma unsignaled_pending pending loose stale e s f p t sp :
  fences_inv pending loose stale e → fences e !! s = Some f → (p, t) ∈ points_of f →
  p ∉ loose → p ∈ pending → points e !! p = Some sp → IsSignaled sp = false.
Proof.
  intros He Hs Hp Hl Hpe Hsp. destruct (fi_point _ _ _ _ He s f p t Hs Hp) as (sp' & tl & E & _ & _ & H).
  rewrite Hsp in E. injection E as <-. destruct (H Hl) as [_ [H1 _]].
  destruct (IsSignaled sp); [|done]. by destruct (H1 eq_refl).
Qed.

Lemma marked_inv e p sp pending loose s f t tl stale :
  fences_inv (p :: pending) loose stale e → stale = None ∨ stale = Some s →
  fences e !! s = Some f → (p, t) ∈ points_of f → p ∉ loose → p ∉ pending →
  points e !! p = Some sp → timelines e !! t = Some tl → signaling_time_ sp <= counter_ tl →
  fences_inv pending loose (Some s) (marked p sp e) ∧ evolves e (marked p sp e) ∧
  same_objects e (marked p sp e).
Proof.
  intros He Hst Hs Hp Hl Hpe Hsp Htl Hle. pose proof (fi_clock _ _ _ _ He) as Hc.
  assert (IsSignaled sp = false) as Hu by (eapply unsignaled_pending; eauto; by left).
  split; [split|split].
  - exact Hc.
  - intros s1 f1 q t1 Hs1 Hq. destruct (fi_point _ _ _ _ He s1 f1 q t1 Hs1 Hq) as (sq & tq & Hsq & Htq & Hsig & H).
    cbn [marked set_points points timelines]. rewrite lookup_insert.
    destruct (decide (p = q)) as [<-|Hne].
    + rewrite Hsp in Hsq. injection Hsq as <-.
      destruct (fi_unique _ _ _ _ He s1 s f1 f p t1 t Hs1 Hs Hq Hp) as [-> ->].
      rewrite Htl in Htq. injection Htq as <-.
      eexists _, tl. split; [done|]. split; [done|]. cbn. split; [done|].
      intros Hl'. destruct (H Hl') as [[Ho Hin] _]. split; [by split|].
      unfold IsSignaled. cbn. destruct (Z.eqb_spec (clock e) 0); [lia|]. naive_solver.
    + exists sq, tq. split; [done|]. split; [done|]. split; [done|].
      intros Hl'. destruct (H Hl') as [Ho Hi]. split; [done|]. rewrite Hi, not_elem_of_cons. naive_solver.
  - apply (fi_timeline _ _ _ _ He).
  - intros t1 tl1 k q Ht1 Hk. destruct (fi_listed _ _ _ _ He t1 tl1 k q Ht1 Hk) as (Hq & s1 & f1 & sq & H1 & H2 & H3 & H4).
    split; [done|]. cbn [marked set_points points]. exists s1, f1. rewrite lookup_insert.
    destruct (decide (p = q)) as [<-|Hne].
    + eexists. split; [done|]. split; [done|]. split; [done|]. simpl. congruence.
    + by exists sq.
  - apply (fi_owner _ _ _ _ He).
  - apply (fi_unique _ _ _ _ He).
  - apply (fi_fence _ _ _ _ He).
  - intros s1 f1 Hs1 Hne. rewrite (fi_status _ _ _ _ He s1 f1 Hs1) by naive_solver.
    unfold all_signaled. apply forall_proper. intros q. apply forall_proper. intros tq.
    split; intros H Hq; specialize (H Hq); rewrite signaled_marked in * by done; case_decide as E; try done.
    subst q. destruct (fi_unique _ _ _ _ He s1 s f1 f p tq t Hs1 Hs Hq Hp) as [-> _]. congruence.
  - intros q. cbn [marked set_points points next_address]. rewrite lookup_insert.
    case_decide; [subst q|]; intros ?; apply (fi_fresh _ _ _ _ He); eauto.
  - split.
    + intros q [ts st] Hq _. cbn [marked set_points points]. rewrite lookup_insert.
      destruct (decide (p = q)) as [<-|]; [|by exists ts].
      rewrite Hsp in Hq. injection Hq as ->. eexists. split; [done|].
      rewrite Hu. done.
    + apply (ev_fences _ _ (evolves_refl e)).
    + apply (ev_woken _ _ (evolves_refl e)).
  - unfold same_objects. cbn. split; [|done]. rewrite dom_insert_L.
    assert (p ∈ dom (points e)) by (apply elem_of_dom; eauto). set_solver.
Qed.

(** [MaybeSignal] brings the status of a fence up to date. *)
Lemma count_signaled e (l : list (nat * Z)) :
  Nat.ltb (List.length (List.filter (λ pt : nat * Z, signaled_in e pt.1) l)) (List.length l) = false ↔
  ∀ p t, (p, t) ∈ l → signaled_in e p = true.
Proof.
  rewrite Nat.ltb_ge. induction l as [|[p t] l IH]; simpl.
  { split; [|lia]. intros _ p t Hin. by apply elem_of_nil in Hin. }
  pose proof (List.filter_length_le (λ pt : nat * Z, signaled_in e pt.1) l) as Hle.
  destruct (signaled_in e p) eqn:E; simpl.
  - rewrite <-Nat.succ_le_mono, IH. setoid_rewrite elem_of_cons. naive_solver.
  - split; [lia|]. intros H. rewrite (H p t) in E by (by left). done.
Qed.

Definition with_status (st : FenceStatus) (f : FenceStream) : FenceStream :=
  mkFenceStream (fence_name_ f) st (points_of f).

Lemma status_inv e pending loose s f st :
  fences_inv pending loose (Some s) e → fences e !! s = Some f →
  (st = FENCE_SIGNALED ↔ all_signaled e f) →
  fences_inv pending loose None (set_fences (<[s := with_status st f]> (fences e)) e).
Proof.
  intros He Hs Hst.
  assert (∀ s1 f1, <[s := with_status st f]> (fences e) !! s1 = Some f1 →
    ∃ g, fences e !! s1 = Some g ∧ points_of f1 = points_of g ∧ fence_name_ f1 = fence_name_ g) as Hg.
  { intros s1 f1. rewrite lookup_insert. case_decide; [subst s1; intros [= <-]; by exists f|eauto]. }
  split.
  - apply (fi_clock _ _ _ _ He).
  - intros s1 f1 p t H1 Hp. destruct (Hg _ _ H1) as (g & Hg1 & Hps & _). rewrite Hps in Hp.
    apply (fi_point _ _ _ _ He s1 g p t Hg1 Hp).
  - apply (fi_timeline _ _ _ _ He).
  - intros t tl k p Ht Hk. destruct (fi_listed _ _ _ _ He t tl k p Ht Hk) as (Hl & s1 & f1 & sp & H1 & H2 & H3 & H4).
    split; [done|]. cbn [set_fences fences points]. exists s1.
    destruct (decide (s = s1)) as [<-|Hne].
    + exists (with_status st f), sp. rewrite lookup_insert_eq. rewrite Hs in H1. injection H1 as <-. done.
    + exists f1, sp. by rewrite lookup_insert_ne.
  - apply (fi_owner _ _ _ _ He).
  - intros s1 s2 f1 f2 p t1 t2 H1 H2 P1 P2. destruct (Hg _ _ H1) as (g1 & G1 & E1 & _).
    destruct (Hg _ _ H2) as (g2 & G2 & E2 & _). rewrite E1 in P1. rewrite E2 in P2.
    by apply (fi_unique _ _ _ _ He s1 s2 g1 g2 p).
  - intros s1 f1 H1. destruct (Hg _ _ H1) as (g & G & E1 & E2). rewrite E1, E2. by apply (fi_fence _ _ _ _ He s1).
  - intros s1 f1. cbn [set_fences fences]. rewrite lookup_insert. case_decide as E; [|].
    + intros [= <-] _. exact Hst.
    + intros H1 _. apply (fi_status _ _ _ _ He s1 f1 H1). congruence.
  - apply (fi_fresh _ _ _ _ He).
Qed.

Lemma valid_run f e :
  fence_name_ f ≠ [] → NoDup (points_of f).*2 →
  lift (S := FenceEnv) (IsValidLocked f) e = Done (true, e).
Proof.
  intros Hn Hd. unfold lift, IsValidLocked. rewrite (bool_decide_false _ Hn).
  by rewrite (bool_decide_true _ Hd).
Qed.

Lemma maybe_signal_run e pending s f :
  fences_inv pending [] (Some s) e → fences e !! s = Some f → status_ f = FENCE_ACTIVE →
  ∃ e', MaybeSignal s e = Done (tt, e') ∧ fences_inv pending [] None e' ∧ evolves e e' ∧
    same_objects e e' ∧ points e' = points e ∧ timelines e' = timelines e.
Proof.
  intros He Hs Ha. unfold MaybeSignal, fence. run_with (at_key_run fences s f e Hs).
  unfold GetSignaledSyncPointCountLocked. rewrite (St_bind_run (gets _) _ e _ e eq_refl).
  destruct (Nat.ltb _ _) eqn:E.
  - exists e. split; [done|]. split; [|by split_and!; [apply evolves_refl|..]].
    pose proof (status_inv e pending [] s f FENCE_ACTIVE He Hs) as H.
    assert (with_status FENCE_ACTIVE f = f) as Hf by (destruct f; simpl in *; by subst).
    rewrite Hf, insert_id in H by done. destruct e. apply H. split; [done|].
    intros Hall. apply count_signaled in Hall. congruence.
  - rewrite count_signaled in E. set (e1 := set_fences (<[s := with_status FENCE_SIGNALED f]> (fences e)) e).
    destruct (fi_fence _ _ _ _ He s f Hs) as [Hn Hd].
    exists (wake s e1). split; [|split; [|split; [|split]]].
    + rewrite (St_bind_run (put_fence s _) _ e tt e1 eq_refl).
      rewrite (St_bind_run _ _ e1 true e1) by (by apply valid_run). done.
    + destruct (status_inv e pending [] s f FENCE_SIGNALED He Hs) as [????????]; [done|]. by split.
    + split.
      * apply (ev_points _ _ (evolves_refl e)).
      * intros s1 f1 H1 _. cbn [e1 wake set_fences fences]. rewrite lookup_insert. case_decide as Hne.
        { subst s1. rewrite Hs in H1. injection H1 as <-. by exists FENCE_SIGNALED. }
        by apply (ev_fences _ _ (evolves_refl e)).
      * exists [s]. split; [done|]. intros s1 f1 f1' H1. cbn [e1 wake set_fences fences]. rewrite lookup_insert.
        case_decide; [subst; intros; by left|]. congruence.
    + unfold same_objects. cbn. split; [done|]. split; [|done]. rewrite dom_insert_L.
      assert (s ∈ dom (fences e)) by (apply elem_of_dom; eauto). set_solver.
    + done.
Qed.

Lemma maybe_signal_only e s e' :
  MaybeSignal s e = Done (tt, e') → ∀ s', s ≠ s' → fences e' !! s' = fences e !! s'.
Proof.
  unfold MaybeSignal, fence, at_key, GetSignaledSyncPointCountLocked, gets. unfold mbind at 1, St_bind at 1.
  destruct (fences e !! s) as [f|]; [|done]. unfold mbind at 1, St_bind at 1.
  destruct (Nat.ltb _ _); [by intros [= <-]|].
  unfold put_fence, modify, mbind, St_bind, lift, check. destruct (IsValidLocked _) as [[]| |]; [|done..].
  intros [= <-] s' Hne. cbn. by rewrite lookup_insert_ne.
Qed.

(** ** Incrementing a timeline *)

Lemma active_of_unsignaled pending loose e s f p t :
  fences_inv pending loose None e → fences e !! s = Some f → (p, t) ∈ points_of f →
  signaled_in e p = false → status_ f = FENCE_ACTIVE.
Proof.
  intros He Hs Hp Hu. destruct (status_ f) eqn:E; [done|]. exfalso.
  apply (fi_status _ _ _ _ He s f Hs) in E; [|done]. rewrite (E p t Hp) in Hu. done.
Qed.

Definition signal_point (tl : Timeline) (kp : Z * nat) : St FenceEnv unit :=
  match sync_point_fence_ tl !! kp.2 with
  | Some f => MarkAsSignaled kp.2;; MaybeSignal f
  | None => fatal
  end.

Lemma signal_points_run t tl L e :
  fences_inv L.*2 [] None e → NoDup L.*2 → timelines e !! t = Some tl →
  (∀ kp, kp ∈ L → kp ∈ sync_points_ tl ∧ kp.1 <= counter_ tl) →
  ∃ e', for_each (signal_point tl) L e = Done (tt, e') ∧ fences_ok e' ∧ evolves e e' ∧
    same_objects e e' ∧ timelines e' = timelines e.
Proof.
  revert e. induction L as [|[k p] L IH]; intros e He Hnd Ht HL.
  { exists e. by split_and!; [..|apply evolves_refl|apply same_objects_refl|]. }
  cbn [for_each fmap list_fmap snd] in *. inversion Hnd as [|?? Hp Hnd']; subst.
  destruct (HL (k, p)) as [Hin Hk]; [by left|]. simpl in Hk.
  destruct (fi_listed _ _ _ _ He t tl k p Ht Hin) as (_ & s & f & sp & Hs & Hpf & Hsp & ->).
  destruct (fi_point _ _ _ _ He s f p t Hs Hpf) as (sp' & tl' & E1 & E2 & _ & Hon).
  rewrite Hsp in E1. injection E1 as <-. rewrite Ht in E2. injection E2 as <-.
  destruct Hon as [[Ho _] _]; [by intros ?%elem_of_nil|].
  assert (IsSignaled sp = false) as Hu
    by (eapply (unsignaled_pending _ _ _ e s f p t); [exact He|done|done|by intros ?%elem_of_nil|by left|done]).
  destruct (marked_inv e p sp L.*2 [] s f t tl None He (or_introl eq_refl) Hs Hpf) as (H1 & V1 & O1);
    try done; [by intros ?%elem_of_nil|].
  destruct (maybe_signal_run (marked p sp e) L.*2 s f H1 Hs) as (e2 & R2 & H2 & V2 & O2 & _ & T2).
  { eapply active_of_unsignaled; [exact He|done|done|]. unfold signaled_in. by rewrite Hsp. }
  destruct (IH e2 H2 Hnd') as (e3 & R3 & H3 & V3 & O3 & T3).
  { by rewrite T2. }
  { intros kp Hkp. apply HL. by right. }
  exists e3. split; [|split; [done|]].
  - rewrite (St_bind_run _ _ e tt e2); [exact R3|]. unfold signal_point. cbn [snd]. rewrite Ho.
    by run_with (mark_run e p sp Hsp Hu).
  - split; [|split].
    + eapply evolves_trans; [exact O1|exact V1|]. by eapply evolves_trans.
    + eapply same_objects_trans; [exact O1|]. by eapply same_objects_trans.
    + by rewrite T3, T2.
Qed.

Definition advanced (amount : Z) (tl : Timeline) : Timeline :=
  mkTimeline (counter_ tl + amount) (sync_points_ tl) (sync_point_fence_ tl).

Definition with_timeline (t : Z) (tl : Timeline) (e : FenceEnv) : FenceEnv :=
  set_timelines (<[t := tl]> (timelines e)) e.

Lemma advanced_inv e t tl amount :
  fences_ok e → timelines e !! t = Some tl → 0 <= amount → counter_ tl + amount < kMaxUint32 →
  fences_inv (range (counter_ tl + 1) (counter_ tl + amount) (sync_points_ tl)).*2 [] None
    (with_timeline t (advanced amount tl) e).
Proof.
  intros He Ht Ha Hmax. set (L := range _ _ _).
  destruct (fi_timeline _ _ _ _ He t tl Ht) as (Hc & Hsorted & Hnd).
  assert (∀ k p, (k, p) ∈ L ↔ (k, p) ∈ sync_points_ tl ∧ counter_ tl + 1 <= k <= counter_ tl + amount) as HL
    by (intros; by apply elem_of_range).
  assert (∀ t1 tl1, timelines (with_timeline t (advanced amount tl) e) !! t1 = Some tl1 →
    ∃ tl0, timelines e !! t1 = Some tl0 ∧ sync_points_ tl1 = sync_points_ tl0 ∧
      sync_point_fence_ tl1 = sync_point_fence_ tl0 ∧
      counter_ tl1 = counter_ tl0 + if decide (t = t1) then amount else 0) as Htl.
  { intros t1 tl1. cbn. rewrite lookup_insert. destruct (decide (t = t1)) as [<-|].
    - intros [= <-]. by exists tl.
    - intros H. exists tl1. by rewrite Z.add_0_r. }
  split; try apply He.
  - intros s f p t1 Hs Hp. destruct (fi_point _ _ _ _ He s f p t1 Hs Hp) as (sp & tl1 & Hsp & Ht1 & Hle & Hon).
    destruct Hon as [[Ho Hin] Hsig]; [by intros ?%elem_of_nil|].
    assert (IsSignaled sp = true ↔ signaling_time_ sp <= counter_ tl1) as Hsig'
      by (rewrite Hsig; pose proof (not_elem_of_nil p); tauto).
    cbn [with_timeline set_timelines points timelines]. setoid_rewrite lookup_insert.
    destruct (decide (t = t1)) as [<-|Hne].
    + rewrite Ht in Ht1. injection Ht1 as <-. exists sp, (advanced amount tl).
      split; [done|]. split; [done|]. cbn [advanced counter_]. split; [intros H; apply Hle in H; lia|].
      intros _. split; [done|]. rewrite Hsig'.
      assert (p ∈ L.*2 ↔ counter_ tl + 1 <= signaling_time_ sp <= counter_ tl + amount) as ->; [|lia].
      split.
      * intros ([k q] & Hq & Hk)%list_elem_of_fmap. simpl in Hq. subst q. apply HL in Hk as [Hk ?].
        destruct (fi_listed _ _ _ _ He t tl k p Ht Hk) as (_ & _ & _ & sp' & _ & _ & E & ->). congruence.
      * intros Hr. apply list_elem_of_fmap. exists (signaling_time_ sp, p). split; [done|]. by apply HL.
    + exists sp, tl1. split; [done|]. split; [done|]. split; [done|]. intros _. split; [done|].
      rewrite Hsig'. assert (p ∉ L.*2); [|tauto].
      intros ([k q] & Hq & Hk)%list_elem_of_fmap. simpl in Hq. subst q. apply HL in Hk as [Hk _].
      destruct (fi_listed _ _ _ _ He t tl k p Ht Hk) as (_ & s' & f' & sp' & Hs' & Hp' & _).
      by destruct (fi_unique _ _ _ _ He s s' f f' p t1 t Hs Hs' Hp Hp') as [_ ->].
  - intros t1 tl1 H1. destruct (Htl _ _ H1) as (tl0 & H0 & -> & _ & ->).
    destruct (fi_timeline _ _ _ _ He t1 tl0 H0) as (? & ? & ?). split; [|done].
    case_decide as E; [subst t1|lia]. rewrite Ht in H0. injection H0 as <-. unfold kMaxUint32 in *. lia.
  - intros t1 tl1 k p H1 Hk. destruct (Htl _ _ H1) as (tl0 & H0 & E & _). rewrite E in Hk.
    by apply (fi_listed _ _ _ _ He t1 tl0).
  - intros t1 tl1 p s H1 Hk. destruct (Htl _ _ H1) as (tl0 & H0 & E & E' & _). rewrite E' in Hk. rewrite E.
    by apply (fi_owner _ _ _ _ He t1 tl0 p s).
Qed.

Lemma increment_run e t tl amount :
  fences_ok e → timelines e !! t = Some tl → 0 <= amount → counter_ tl + amount < kMaxUint32 →
  ∃ e', IncrementCounter t amount e = Done (tt, e') ∧ fences_ok e' ∧ evolves e e' ∧
    same_objects e e' ∧ timelines e' = <[t := advanced amount tl]> (timelines e).
Proof.
  intros He Ht Ha Hmax. pose proof (advanced_inv e t tl amount He Ht Ha Hmax) as H1.
  destruct (fi_timeline _ _ _ _ He t tl Ht) as (Hc & Hsorted & Hnd).
  destruct (signal_points_run t (advanced amount tl) _ _ H1) as (e' & R & H2 & V & O & T).
  - eapply sublist_NoDup; [exact Hnd|]. apply fmap_sublist, range_sublist.
  - cbn. apply lookup_insert_eq.
  - intros [k p] [Hk ?]%elem_of_range; [|done]. split; [done|]. cbn. lia.
  - exists e'. split; [|split; [done|]].
    + unfold IncrementCounter, timeline. run_with (at_key_run timelines t tl e Ht).
      rewrite (St_bind_run (check _) _ e tt e) by (unfold check; by rewrite (proj2 (Z.ltb_lt _ _)) by lia).
      rewrite (St_bind_run (put_timeline t _) _ e tt (with_timeline t (advanced amount tl) e) eq_refl).
      exact R.
    + split; [|split; [exact O|exact T]]. destruct V as [P F W]. by split.
Qed.

(** ** Points on and off their timeline *)

Definition put_on (s : sid) (p : nat) (sp : SyncPoint) (tl : Timeline) : Timeline :=
  mkTimeline (counter_ tl) (multi_insert (signaling_time_ sp) p (sync_points_ tl))
    (<[p := s]> (sync_point_fence_ tl)).

Definition due (sp : SyncPoint) (tl : Timeline) : bool :=
  negb (IsSignaled sp) && (signaling_time_ sp <=? counter_ tl).

Lemma loose_unlisted pending loose stale e t tl p :
  fences_inv pending loose stale e → timelines e !! t = Some tl → p ∈ loose →
  p ∉ (sync_points_ tl).*2 ∧ sync_point_fence_ tl !! p = None.
Proof.
  intros He Ht Hp.
  assert (∀ k, (k, p) ∉ sync_points_ tl) as Hk.
  { intros k Hk. by destruct (fi_listed _ _ _ _ He t tl k p Ht Hk) as [? _]. }
  split.
  - intros ([k q] & Hq & Hin)%list_elem_of_fmap. simpl in Hq. subst q. by apply (Hk k).
  - destruct (sync_point_fence_ tl !! p) as [s|] eqn:E; [|done].
    destruct (fi_owner _ _ _ _ He t tl p s Ht E) as [k Hin]. by destruct (Hk k).
Qed.

Lemma put_on_inv e s f p t sp tl loose :
  fences_inv [] (p :: loose) (Some s) e → fences e !! s = Some f → (p, t) ∈ points_of f →
  p ∉ loose → points e !! p = Some sp → timelines e !! t = Some tl →
  fences_inv (if due sp tl then [p] else []) loose (Some s) (with_timeline t (put_on s p sp tl) e).
Proof.
  intros He Hs Hpf Hpl Hsp Ht.
  destruct (loose_unlisted _ _ _ _ t tl p He Ht) as [Hnl Hno]; [by left|].
  assert (∀ q, q ≠ p → q ∉ (if due sp tl then [p] else [])) as Hpend.
  { intros q Hq. destruct (due sp tl); [|apply not_elem_of_nil]. by rewrite list_elem_of_singleton. }
  split; try apply He.
  - intros s1 f1 q t1 Hs1 Hq. destruct (fi_point _ _ _ _ He s1 f1 q t1 Hs1 Hq) as (sq & tl1 & Hsq & Ht1 & Hle & Hon).
    cbn [with_timeline set_timelines points timelines]. setoid_rewrite lookup_insert.
    destruct (decide (q = p)) as [->|Hne].
    + destruct (fi_unique _ _ _ _ He s1 s f1 f p t1 t Hs1 Hs Hq Hpf) as [-> ->].
      rewrite Hsp in Hsq. injection Hsq as <-. rewrite Ht in Ht1. injection Ht1 as <-.
      exists sp, (put_on s p sp tl). rewrite decide_True by done. split; [done|]. split; [done|].
      cbn [put_on counter_]. split; [done|]. intros _. split.
      * split; [apply lookup_insert_eq|]. cbn. rewrite multi_insert_perm. by left.
      * unfold due. destruct (IsSignaled sp); simpl.
        { split; [|done]. intros _. split; [by apply Hle|apply not_elem_of_nil]. }
        destruct (Z.leb_spec (signaling_time_ sp) (counter_ tl)); [|split; [done|lia]].
        split; [done|]. intros [_ []]. by left.
    + exists sq. destruct (decide (t = t1)) as [<-|Hnt].
      * rewrite Ht in Ht1. injection Ht1 as <-. exists (put_on s p sp tl). split; [done|]. split; [done|].
        cbn [put_on counter_]. split; [done|]. intros Hql. destruct Hon as [[Ho Hin] Hi].
        { rewrite not_elem_of_cons. done. }
        split; [split|].
        { cbn. by rewrite lookup_insert_ne. }
        { cbn. rewrite multi_insert_perm. by right. }
        rewrite Hi. pose proof (not_elem_of_nil q). pose proof (Hpend q Hne). tauto.
      * exists tl1. split; [done|]. split; [done|]. split; [done|]. intros Hql.
        destruct Hon as [Ho Hi]; [by rewrite not_elem_of_cons|]. split; [done|].
        rewrite Hi. pose proof (not_elem_of_nil q). pose proof (Hpend q Hne). tauto.
  - intros t1 tl1. cbn. rewrite lookup_insert. case_decide as E; [|apply (fi_timeline _ _ _ _ He)].
    intros [= <-]. subst t1. destruct (fi_timeline _ _ _ _ He t tl Ht) as (? & ? & Hnd).
    split; [done|]. cbn. split; [by apply multi_insert_sorted|]. rewrite multi_insert_perm. by constructor.
  - intros t1 tl1 k q. cbn. rewrite lookup_insert. case_decide as E.
    + intros [= <-]. subst t1. cbn. rewrite multi_insert_perm. intros [[= -> ->]|Hin]%elem_of_cons.
      { split; [done|]. by exists s, f, sp. }
      destruct (fi_listed _ _ _ _ He t tl k q Ht Hin) as [Hq ?]. split; [|done]. set_solver.
    + intros H1 Hin. destruct (fi_listed _ _ _ _ He t1 tl1 k q H1 Hin) as [Hq ?]. split; [|done]. set_solver.
  - intros t1 tl1 q s1. cbn. rewrite lookup_insert. case_decide as E; [|apply (fi_owner _ _ _ _ He)].
    intros [= <-]. subst t1. cbn. rewrite lookup_insert. case_decide as Eq.
    + intros _. subst q. exists (signaling_time_ sp). rewrite multi_insert_perm. by left.
    + intros H1. destruct (fi_owner _ _ _ _ He t tl q s1 Ht H1) as [k Hk]. exists k.
      rewrite multi_insert_perm. by right.
Qed.

Lemma attach_run e s f p t loose :
  fences_inv [] (p :: loose) (Some s) e → fences e !! s = Some f → (p, t) ∈ points_of f → p ∉ loose →
  ∃ e', AttachSyncPointLocked t s p e = Done (tt, e') ∧ fences_inv [] loose (Some s) e' ∧
    evolves e e' ∧ same_objects e e' ∧ fences e' = fences e ∧
    (counter_ <$> timelines e') = (counter_ <$> timelines e).
Proof.
  intros He Hs Hpf Hpl. destruct (fi_point _ _ _ _ He s f p t Hs Hpf) as (sp & tl & Hsp & Ht & _ & _).
  pose proof (put_on_inv e s f p t sp tl loose He Hs Hpf Hpl Hsp Ht) as H1.
  destruct (loose_unlisted _ _ _ _ t tl p He Ht) as [_ Hno]; [by left|].
  set (e1 := with_timeline t (put_on s p sp tl) e) in *.
  assert (evolves e e1) as V1 by (destruct (evolves_refl e); by split).
  assert (counter_ <$> timelines e1 = counter_ <$> timelines e) as C1.
  { cbn. rewrite fmap_insert. apply insert_id. rewrite lookup_fmap, Ht. done. }
  assert (∀ e2, (if IsSignaled sp then mret tt else
      if signaling_time_ sp <=? counter_ tl then MarkAsSignaled p else mret tt) e1 = Done (tt, e2) →
    AttachSyncPointLocked t s p e = Done (tt, e2)) as Hrun.
  { intros e2 H2. unfold AttachSyncPointLocked, timeline, point. run_with (at_key_run timelines t tl e Ht).
    run_with (at_key_run points p sp e Hsp). rewrite Hno.
    by rewrite (St_bind_run (put_timeline t _) _ e tt e1 eq_refl). }
  unfold due in H1. destruct (IsSignaled sp) eqn:Eu; simpl in H1.
  - exists e1. split; [by apply Hrun|]. by split_and!.
  - destruct (signaling_time_ sp <=? counter_ tl) eqn:El.
    + destruct (marked_inv e1 p sp [] loose s f t (put_on s p sp tl) (Some s)) as (H2 & V2 & O2); try done.
      { by right. }
      { by intros ?%elem_of_nil. }
      { cbn. apply lookup_insert_eq. }
      { cbn. by apply Z.leb_le. }
      exists (marked p sp e1). split; [by apply Hrun, mark_run|]. split; [done|].
      split; [by apply (evolves_trans e e1)|]. split_and!; [exact O2|done|exact C1].
    + exists e1. split; [by apply Hrun|]. by split_and!.
Qed.

Lemma detach_run e s f p t loose stale :
  fences_inv [] loose stale e → fences e !! s = Some f → (p, t) ∈ points_of f → p ∉ loose →
  ∃ tl', DetachSyncPoint t p e = Done (tt, with_timeline t tl' e) ∧
    fences_inv [] (p :: loose) stale (with_timeline t tl' e) ∧
    (counter_ <$> timelines (with_timeline t tl' e)) = (counter_ <$> timelines e).
Proof.
  intros He Hs Hpf Hpl. destruct (fi_point _ _ _ _ He s f p t Hs Hpf) as (sp & tl & Hsp & Ht & Hle & Hon).
  destruct (Hon Hpl) as [[Ho Hin] _]. destruct (fi_timeline _ _ _ _ He t tl Ht) as (Hc & Hsorted & Hnd).
  destruct (multi_erase_spec _ _ _ Hin) as (l & Hl & Hperm & Hl'). specialize (Hl' Hsorted).
  exists (mkTimeline (counter_ tl) l (delete p (sync_point_fence_ tl))).
  split; [|split; [split; try apply He|]].
  - unfold DetachSyncPoint, timeline, point. run_with (at_key_run timelines t tl e Ht).
    run_with (at_key_run points p sp e Hsp). rewrite bool_decide_true by eauto.
    rewrite (St_bind_run (check true) _ e tt e eq_refl). rewrite Hl. done.
  - intros s1 f1 q t1 Hs1 Hq. destruct (fi_point _ _ _ _ He s1 f1 q t1 Hs1 Hq) as (sq & tl1 & Hsq & Ht1 & Hle1 & Hon1).
    exists sq. cbn [with_timeline set_timelines points timelines]. setoid_rewrite lookup_insert.
    destruct (decide (t = t1)) as [<-|Hnt].
    + rewrite Ht in Ht1. injection Ht1 as <-. eexists. split; [done|]. split; [done|]. cbn [counter_].
      split; [done|]. intros [Hne Hql]%not_elem_of_cons. destruct (Hon1 Hql) as [[Ho1 Hin1] Hi1].
      split; [|done]. split; cbn; [by rewrite lookup_delete_ne|].
      rewrite Hperm in Hin1. apply elem_of_cons in Hin1 as [[= _ ->]|?]; done.
    + exists tl1. split; [done|]. split; [done|]. split; [done|]. intros [_ Hql]%not_elem_of_cons. by apply Hon1.
  - intros t1 tl1. cbn. rewrite lookup_insert. case_decide as E; [|apply (fi_timeline _ _ _ _ He)].
    intros [= <-]. split; [done|]. split; [done|]. cbn. rewrite Hperm in Hnd. by inversion Hnd.
  - intros t1 tl1 k q. cbn. rewrite lookup_insert. case_decide as E.
    + intros [= <-]. subst t1. cbn. intros Hk.
      destruct (fi_listed _ _ _ _ He t tl k q Ht) as [Hq ?]; [rewrite Hperm; by right|]. split; [|done].
      apply not_elem_of_cons. split; [|done]. intros ->. rewrite Hperm in Hnd. inversion Hnd as [|?? Hn _]; subst.
      apply Hn, list_elem_of_fmap. by exists (k, p).
    + intros H1 Hk. destruct (fi_listed _ _ _ _ He t1 tl1 k q H1 Hk) as [Hq (s1 & f1 & sq & H2 & H3 & ?)].
      split; [|by exists s1, f1, sq]. apply not_elem_of_cons. split; [|done]. intros ->.
      destruct (fi_unique _ _ _ _ He s1 s f1 f p t1 t H2 Hs H3 Hpf) as [_ ->]. done.
  - intros t1 tl1 q s1. cbn. rewrite lookup_insert. case_decide as E; [|apply (fi_owner _ _ _ _ He)].
    intros [= <-]. subst t1. cbn. rewrite lookup_delete. case_decide as Eq; [done|].
    intros H1. destruct (fi_owner _ _ _ _ He t tl q s1 Ht H1) as [k Hk]. exists k.
    rewrite Hperm in Hk. apply elem_of_cons in Hk as [[= _ ->]|?]; done.
  - cbn. rewrite fmap_insert. apply insert_id. rewrite lookup_fmap, Ht. done.
Qed.

(** ** Creating and destroying fences *)

Lemma attach_all_run s f pts e :
  fences_inv [] pts.*1 (Some s) e → fences e !! s = Some f →
  (∀ pt, pt ∈ pts → pt ∈ points_of f) → NoDup pts.*1 →
  ∃ e', for_each (λ pt : nat * Z, AttachSyncPointLocked pt.2 s pt.1) pts e = Done (tt, e') ∧
    fences_inv [] [] (Some s) e' ∧ evolves e e' ∧ same_objects e e' ∧ fences e' = fences e ∧
    (counter_ <$> timelines e') = (counter_ <$> timelines e).
Proof.
  revert e. induction pts as [|[p t] pts IH]; intros e He Hs Hin Hnd.
  { exists e. by split_and!; [..|apply evolves_refl|apply same_objects_refl|done|]. }
  cbn [for_each fmap list_fmap fst snd] in *. inversion Hnd as [|?? Hp Hnd']; subst.
  destruct (attach_run e s f p t pts.*1 He Hs) as (e1 & R1 & H1 & V1 & O1 & F1 & C1);
    [apply Hin; by left|done|].
  destruct (IH e1 H1) as (e2 & R2 & H2 & V2 & O2 & F2 & C2); [by rewrite F1| |done|].
  { intros pt Hpt. apply Hin. by right. }
  exists e2. split; [by run_with R1|]. split; [done|]. split; [by apply (evolves_trans e e1)|].
  split; [by eapply same_objects_trans|]. split; [by rewrite F2|by rewrite C2].
Qed.

(** What the constructor of a fence is given: points that no fence has. *)
Definition fresh_point (e : FenceEnv) (p : nat) (t : Z) : Prop :=
  (∃ sp tl, points e !! p = Some sp ∧ timelines e !! t = Some tl ∧
     (IsSignaled sp = true → signaling_time_ sp <= counter_ tl)) ∧
  ∀ s f t', fences e !! s = Some f → (p, t') ∉ points_of f.

Lemma new_fence_inv e s name pts :
  fences_ok e → fences e !! s = None → name ≠ [] → NoDup pts.*1 → NoDup pts.*2 →
  (∀ p t, (p, t) ∈ pts → fresh_point e p t) →
  fences_inv [] pts.*1 (Some s) (set_fences (<[s := mkFenceStream name FENCE_ACTIVE pts]> (fences e)) e).
Proof.
  intros He Hs Hn Hnd1 Hnd2 Hf.
  assert (∀ p s1 f1 t, fences e !! s1 = Some f1 → (p, t) ∈ points_of f1 → p ∉ pts.*1) as Hold.
  { intros p s1 f1 t H1 Hp ([q t'] & Hq & Hin)%list_elem_of_fmap. simpl in Hq. subst q.
    by apply (proj2 (Hf _ _ Hin) s1 f1 t). }
  split; try apply He.
  - intros s1 f1 p t. cbn. rewrite lookup_insert. case_decide as E.
    + intros [= <-] Hp. cbn in Hp. destruct (Hf p t Hp) as [(sp & tl & H1 & H2 & H3) _]. exists sp, tl.
      split_and!; try done. intros []. apply list_elem_of_fmap. by exists (p, t).
    + intros H1 Hp. destruct (fi_point _ _ _ _ He s1 f1 p t H1 Hp) as (sp & tl & ? & ? & ? & Hon).
      exists sp, tl. split_and!; try done. intros _. apply Hon, not_elem_of_nil.
  - intros t tl k p Ht Hk. destruct (fi_listed _ _ _ _ He t tl k p Ht Hk) as (_ & s1 & f1 & sp & H1 & H2 & H3).
    split; [by eapply Hold|]. exists s1, f1, sp. cbn. rewrite lookup_insert_ne; [done|]. congruence.
  - intros s1 s2 f1 f2 p t1 t2. cbn. rewrite !lookup_insert.
    case_decide as E1; case_decide as E2; [subst|..].
    + intros [= <-] [= <-] H1 H2. cbn in *. split; [done|].
      apply list_elem_of_lookup in H1 as [i1 H1], H2 as [i2 H2].
      assert (i1 = i2) as ->; [|congruence]. apply (NoDup_lookup _ i1 i2 p Hnd1);
        rewrite list_lookup_fmap; [by rewrite H1|by rewrite H2].
    + intros [= <-] H2 P1 P2. cbn in P1. destruct (Hold p s2 f2 t2 H2 P2).
      apply list_elem_of_fmap. by exists (p, t1).
    + intros H1 [= <-] P1 P2. cbn in P2. destruct (Hold p s1 f1 t1 H1 P1).
      apply list_elem_of_fmap. by exists (p, t2).
    + apply (fi_unique _ _ _ _ He).
  - intros s1 f1. cbn. rewrite lookup_insert. case_decide; [by intros [= <-]|apply (fi_fence _ _ _ _ He)].
  - intros s1 f1. cbn. rewrite lookup_insert. case_decide; [congruence|].
    intros H1 _. by apply (fi_status _ _ _ _ He s1 f1 H1).
Qed.

Lemma create_env_run e s name pts :
  fences_ok e → fences e !! s = None → name ≠ [] → NoDup pts.*1 → NoDup pts.*2 →
  (∀ p t, (p, t) ∈ pts → fresh_point e p t) →
  ∃ e' st, (put_fence s (mkFenceStream name FENCE_ACTIVE pts);;
         for_each (λ pt : nat * Z, AttachSyncPointLocked pt.2 s pt.1) pts;; MaybeSignal s) e = Done (tt, e') ∧
    fences_ok e' ∧ evolves e e' ∧ keeps e e' ∧ fences e' = <[s := mkFenceStream name st pts]> (fences e) ∧
    (counter_ <$> timelines e') = (counter_ <$> timelines e).
Proof.
  intros He Hs Hn Hnd1 Hnd2 Hf. pose proof (new_fence_inv e s name pts He Hs Hn Hnd1 Hnd2 Hf) as H1.
  set (f := mkFenceStream name FENCE_ACTIVE pts) in *. set (e1 := set_fences _ e) in *.
  assert (fences e1 !! s = Some f) as F1 by apply lookup_insert_eq.
  destruct (attach_all_run s f pts e1 H1 F1) as (e2 & R2 & H2 & V2 & O2 & F2 & C2); [done|done|].
  destruct (maybe_signal_run e2 [] s f H2) as (e3 & R3 & H3 & V3 & O3 & P3 & T3); [by rewrite F2|done|].
  assert (evolves e e1) as V1.
  { split.
    - apply (ev_points _ _ (evolves_refl e)).
    - intros s1 f1 H. cbn. rewrite lookup_insert_ne by congruence. apply (ev_fences _ _ (evolves_refl e) s1 f1 H).
    - exists []. rewrite app_nil_r. split; [done|]. intros s1 f1 f1' H. cbn.
      rewrite lookup_insert_ne by congruence. congruence. }
  assert (keeps e e1) as K1.
  { split; [done|]. intros s1 H. cbn. rewrite lookup_insert. case_decide; eauto. }
  destruct (ev_fences _ _ V3 s f) as (st & Hst & _).
  { by rewrite F2. }
  { apply elem_of_dom. rewrite (proj1 (proj2 O3)). apply elem_of_dom. rewrite F2. eauto. }
  exists e3, st. split; [|split; [done|split; [|split; [|split]]]].
  - rewrite (St_bind_run (put_fence s f) _ e tt e1 eq_refl). run_with R2. done.
  - apply (evolves_comp e e1); [done|done|]. by apply (evolves_trans e1 e2).
  - split; intros ? H; apply (proj1 (same_keeps _ _ O3)) || apply (proj2 (same_keeps _ _ O3));
      apply (proj1 (same_keeps _ _ O2)) || apply (proj2 (same_keeps _ _ O2)); by apply K1.
  - pose proof (maybe_signal_only e2 s e3 R3) as Honly. apply map_eq. intros s1. rewrite lookup_insert.
    case_decide as E; [subst s1; exact Hst|]. rewrite Honly, F2 by done. cbn. by rewrite lookup_insert_ne.
  - by rewrite T3, C2.
Qed.

Lemma detach_all_run s f pts loose stale e :
  fences_inv [] loose stale e → fences e !! s = Some f → (∀ pt, pt ∈ pts → pt ∈ points_of f) →
  NoDup pts.*1 → (∀ p, p ∈ pts.*1 → p ∉ loose) →
  ∃ m, for_each (λ pt : nat * Z, DetachSyncPoint pt.2 pt.1) pts e = Done (tt, set_timelines m e) ∧
    fences_inv [] (rev pts.*1 ++ loose) stale (set_timelines m e) ∧
    (counter_ <$> m) = (counter_ <$> timelines e).
Proof.
  revert e loose. induction pts as [|[p t] pts IH]; intros e loose He Hs Hin Hnd Hl.
  { exists (timelines e). destruct e. by split_and!. }
  cbn [for_each fmap list_fmap fst snd] in *. inversion Hnd as [|?? Hp Hnd']; subst.
  destruct (detach_run e s f p t loose stale He Hs) as (tl & R1 & H1 & C1);
    [apply Hin; by left|apply Hl; by left|].
  destruct (IH (with_timeline t tl e) (p :: loose) H1 Hs) as (m & R2 & H2 & C2).
  { intros pt Hpt. apply Hin. by right. }
  { done. }
  { intros q Hq. apply not_elem_of_cons. split; [by intros ->|]. apply Hl. by right. }
  exists m. split; [by run_with R1|]. split; [|by rewrite C2].
  cbn [rev]. by rewrite <-app_assoc.
Qed.

Definition without_fence (s : sid) (f : FenceStream) (e : FenceEnv) : FenceEnv :=
  set_points (foldr delete (points e) (points_of f).*1) (set_fences (delete s (fences e)) e).

Lemma without_fence_inv e s f loose :
  fences_inv [] loose None e → fences e !! s = Some f → (∀ p, p ∈ loose ↔ p ∈ (points_of f).*1) →
  fences_ok (without_fence s f e).
Proof.
  intros He Hs Hl.
  assert (∀ s1 f1 p t, delete s (fences e) !! s1 = Some f1 → (p, t) ∈ points_of f1 →
    fences e !! s1 = Some f1 ∧ p ∉ loose ∧
    points (without_fence s f e) !! p = points e !! p) as Hother.
  { intros s1 f1 p t. rewrite lookup_delete. case_decide as Hne; [done|]. intros H1 Hp.
    assert (p ∉ (points_of f).*1) as Hpf.
    { intros ([q t'] & Hq & Hin)%list_elem_of_fmap. simpl in Hq. subst q.
      by destruct (fi_unique _ _ _ _ He s s1 f f1 p t' t Hs H1 Hin Hp). }
    split; [done|]. split; [by rewrite Hl|]. by apply lookup_foldr_delete_not_elem_of. }
  split; try apply He.
  - intros s1 f1 p t H1 Hp. destruct (Hother s1 f1 p t H1 Hp) as (H1' & Hpl & ->).
    destruct (fi_point _ _ _ _ He s1 f1 p t H1' Hp) as (sp & tl & ? & ? & ? & Hon).
    exists sp, tl. split_and!; try done. intros _. by apply Hon.
  - intros t tl k p Ht Hk. destruct (fi_listed _ _ _ _ He t tl k p Ht Hk) as (Hp & s1 & f1 & sp & H1 & H2 & H3 & H4).
    split; [apply not_elem_of_nil|]. assert (s ≠ s1).
    { intros <-. apply Hp. rewrite Hl. apply list_elem_of_fmap. exists (p, t). split; [done|].
      rewrite Hs in H1. by injection H1 as <-. }
    exists s1, f1, sp. assert (delete s (fences e) !! s1 = Some f1) as H1' by (by rewrite lookup_delete_ne).
    destruct (Hother s1 f1 p t H1' H2) as (_ & _ & E). rewrite E. done.
  - intros s1 s2 f1 f2 p t1 t2 H1 H2 P1 P2. destruct (Hother s1 f1 p t1 H1 P1) as (H1' & _ & _).
    destruct (Hother s2 f2 p t2 H2 P2) as (H2' & _ & _). by apply (fi_unique _ _ _ _ He s1 s2 f1 f2 p).
  - intros s1 f1. cbn. rewrite lookup_delete. case_decide; [done|]. apply (fi_fence _ _ _ _ He).
  - intros s1 f1 H1 _. assert (fences e !! s1 = Some f1) as H1'.
    { cbn in H1. rewrite lookup_delete in H1. by case_decide. }
    rewrite (fi_status _ _ _ _ He s1 f1 H1') by done. unfold all_signaled.
    apply forall_proper. intros p. apply forall_proper. intros t. unfold signaled_in.
    split; intros H Hp; specialize (H Hp); destruct (Hother s1 f1 p t H1 Hp) as (_ & _ & E);
      [by rewrite E|by rewrite E in H].
  - intros p Hp. apply (fi_fresh _ _ _ _ He). destruct Hp as [sp Hsp]. exists sp.
    apply lookup_foldr_delete_Some in Hsp. apply Hsp.
Qed.

Lemma points_nodup pending loose stale e s f :
  fences_inv pending loose stale e → fences e !! s = Some f → NoDup (points_of f).*1.
Proof.
  intros He Hs. destruct (fi_fence _ _ _ _ He s f Hs) as [_ Hnd]. apply NoDup_alt. intros i j p Hi Hj.
  rewrite list_lookup_fmap in Hi, Hj.
  destruct (points_of f !! i) as [[p1 t1]|] eqn:Ei; [|done].
  destruct (points_of f !! j) as [[p2 t2]|] eqn:Ej; [|done]. injection Hi as <-. injection Hj as ->.
  destruct (fi_unique _ _ _ _ He s s f f p1 t1 t2 Hs Hs) as [_ ->];
    [by eapply list_elem_of_lookup_2|by eapply list_elem_of_lookup_2|].
  by apply (NoDup_lookup _ i j t2 Hnd); rewrite list_lookup_fmap; [rewrite Ei|rewrite Ej].
Qed.

(** The part of [~FenceStream] on this file's stores. *)
Definition destroy_env (s : sid) : St FenceEnv unit :=
  f ← fence s;
  for_each (λ pt : nat * Z, DetachSyncPoint pt.2 pt.1) (points_of f);;
  modify (λ e, set_points (foldr delete (points e) (points_of f).*1)
                 (set_fences (delete s (fences e)) e)).

Lemma destroy_env_run e s f :
  fences_ok e → fences e !! s = Some f →
  ∃ e', destroy_env s e = Done (tt, e') ∧ fences_ok e' ∧ evolves e e' ∧
    fences e' = delete s (fences e) ∧ (counter_ <$> timelines e') = (counter_ <$> timelines e).
Proof.
  intros He Hs. destruct (detach_all_run s f (points_of f) [] None e He Hs) as (m & R & H1 & C).
  { done. }
  { by eapply points_nodup. }
  { intros p _. apply not_elem_of_nil. }
  exists (without_fence s f (set_timelines m e)). split; [|split; [|split; [|done]]].
  - unfold destroy_env, fence. run_with (at_key_run fences s f e Hs). by run_with R.
  - eapply without_fence_inv; [exact H1|exact Hs|]. intros p. rewrite app_nil_r. rewrite !list_elem_of_In. symmetry. apply in_rev.
  - split.
    + intros p [ts st] Hp [sp Hsp]. cbn in Hsp |- *. exists ts. split; [|done]. rewrite Hsp. f_equal.
      apply lookup_foldr_delete_Some in Hsp as [_ Hsp]. cbn in Hsp. congruence.
    + intros s1 [n st ps] H1' [f1 H2]. cbn in *. rewrite lookup_delete in H2. case_decide; [done|].
      exists st. rewrite lookup_delete_ne by done. done.
    + exists []. rewrite app_nil_r. split; [done|]. intros s1 f1 f1' E1 E2. cbn in E2.
      rewrite lookup_delete in E2. case_decide; congruence.
Qed.

(** A new sync point. *)
Definition with_point (ts st : Z) (e : FenceEnv) : FenceEnv :=
  set_address (S (next_address e)) (set_points (<[next_address e := mkSyncPoint ts st]> (points e)) e).

Lemma unused_address e : fences_ok e → points e !! next_address e = None.
Proof.
  intros He. destruct (points e !! next_address e) eqn:E; [|done].
  pose proof (fi_fresh _ _ _ _ He (next_address e)). rewrite E in H. specialize (H ltac:(eauto)). lia.
Qed.

Lemma unused_unowned e s f t :
  fences_ok e → fences e !! s = Some f → (next_address e, t) ∉ points_of f.
Proof.
  intros He Hs Hin. destruct (fi_point _ _ _ _ He s f _ t Hs Hin) as (sp & _ & E & _).
  by rewrite unused_address in E.
Qed.

Lemma with_point_ok e ts st : fences_ok e → fences_ok (with_point ts st e) ∧ evolves e (with_point ts st e).
Proof.
  intros He. pose proof (unused_address e He) as Hn.
  assert (∀ s f p t, fences e !! s = Some f → (p, t) ∈ points_of f → next_address e ≠ p) as Hne.
  { intros s f p t Hs Hp <-. by apply (unused_unowned e s f t He Hs). }
  split; [split; try apply He|split].
  - intros s f p t Hs Hp. destruct (fi_point _ _ _ _ He s f p t Hs Hp) as (sp & tl & ? & ? & ? & ?).
    exists sp, tl. split_and!; try done. cbn. rewrite lookup_insert_ne; [done|by eapply Hne].
  - intros t tl k p Ht Hk. destruct (fi_listed _ _ _ _ He t tl k p Ht Hk) as (? & s & f & sp & ? & ? & ? & ?).
    split; [done|]. exists s, f, sp. split_and!; try done. cbn. rewrite lookup_insert_ne; [done|by eapply Hne].
  - intros s f Hs _. cbn [with_point set_address set_points fences] in Hs.
    rewrite (fi_status _ _ _ _ He s f Hs) by done. unfold all_signaled, signaled_in. cbn.
    apply forall_proper. intros p. apply forall_proper. intros t.
    split; intros H Hp; specialize (H Hp); (rewrite lookup_insert_ne in *; [done|by eapply Hne]).
  - intros p. cbn. rewrite lookup_insert. case_decide as E; [lia|]. intros Hp. apply (fi_fresh _ _ _ _ He) in Hp. lia.
  - intros p [ts' st'] Hp _. exists ts'. split; [|done]. cbn. rewrite lookup_insert_ne; [done|congruence].
  - apply (ev_fences _ _ (evolves_refl e)).
  - apply (ev_woken _ _ (evolves_refl e)).
Qed.
