(* ===== verification/FenceProperties.v ===== *)
(** * FenceProperties: what fences promise

    Fences under any sequence of calls ([fence_reachable]), merging of fences, and
    waiting for one. *)

From S2P Require Import Prelude OrderedMap Util FileStream FdMap VfsFds Fence FenceFacts.
Import Refs OrderedMap OrderedMapFacts.

#[local] Open Scope Z_scope.

(** ** Specification *)

Definition counter_of (e : FenceEnv) (t : Z) : Z :=
  match timelines e !! t with Some tl => counter_ tl | None => 0 end.

(** Counters [c] have reached all the points. *)
Definition reached (e : FenceEnv) (c : Z → Z) (pts : list (nat * Z)) : Prop :=
  ∀ p t, (p, t) ∈ pts → ∃ sp, points e !! p = Some sp ∧ signaling_time_ sp <= c t.

Inductive fence_op : Type :=
| ONewTimeline (t : Z)
| OCreate (t : Z) (s : sid) (name : str) (signaling_time : Z)
| OIncrement (t : Z) (amount : Z)
| OMerge (this : sid) (data : option (Z * str)) (s : sid)
| OClose (fd : Z)
| OTick (ns : Z).

Definition free_descriptor (w : FenceSys) : Prop :=
  ∃ fd, in_range w.1.1 fd ∧ streams_ w.1.1 !! fd = None.

Definition name_ok (name : str) : Prop := name ≠ [] ∧ (List.length name < kFenceNameSize)%nat.

(** The protocol: counters do not overflow, names are not empty and fit, new
    streams are new, and a timeline makes a fence while a descriptor is free. *)
Definition fence_op_ok (o : fence_op) (w : FenceSys) : Prop :=
  match o with
  | ONewTimeline t => timelines w.2 !! t = None
  | OCreate t s name signaling_time =>
      is_Some (timelines w.2 !! t) ∧ objects w.1.2 !! s = None ∧ name_ok name ∧ free_descriptor w
  | OIncrement t amount =>
      is_Some (timelines w.2 !! t) ∧ 0 <= amount ∧ counter_of w.2 t + amount < kMaxUint32
  | OMerge this data s =>
      is_Some (fences w.2 !! this) ∧ objects w.1.2 !! s = None ∧
      match data with Some (_, name) => name_ok name | None => True end
  | OClose _ => True
  | OTick ns => 0 <= ns
  end.

Definition Timeline_new : Timeline := mkTimeline 0 [] ∅.

Definition always (s : sid) : bool := true.

Definition run_fence_op (o : fence_op) : St FenceSys (res Z) :=
  match o with
  | ONewTimeline t => on_env (put_timeline t Timeline_new);; mret (Ok 0)
  | OCreate t s name signaling_time =>
      fd ← Timeline_CreateFence t s name signaling_time; mret (Ok fd)
  | OIncrement t amount => on_env (IncrementCounter t amount);; mret (Ok 0)
  | OMerge this data s => SyncIocMerge always this data s
  | OClose fd => close_fd always fd
  | OTick ns =>
      on_env (modify (λ e, mkFenceEnv (timelines e) (points e) (fences e) (clock e + ns)
                             (wakeups e) (next_address e)));; mret (Ok 0)
  end.

(** The states that calls reach from a new table without fences; [time] is the
    clock at the start. *)
Inductive fence_reachable (lo hi time : Z) : FenceSys → Prop :=
| fence_start t :
    FdToFileStreamMap_new lo hi = Done t →
    fence_reachable lo hi time ((t, mkStreams ∅ []), mkFenceEnv ∅ ∅ ∅ time [] 0)
| fence_call w o r w' :
    fence_reachable lo hi time w → fence_op_ok o w → run_fence_op o w = Done (r, w') →
    fence_reachable lo hi time w'.

Record world_ok (w : FenceSys) : Prop := {
  wo_fds : fds_ok no_extra always w.1;
  wo_fences : fences_ok w.2;
  wo_open : ∀ s, is_Some (fences w.2 !! s) → ∃ fd, streams_ w.1.1 !! fd = Some (Some s);
}.

(** What a call does to the fences. *)
Record fence_step (w w' : FenceSys) : Prop := {
  fs_ok : world_ok w';
  fs_evolves : evolves w.2 w'.2;
}.

(* -------------------------------------------------------------------- *)
(** * Proofs *)

Lemma on_env_run {A} (m : St FenceEnv A) (w : FenceSys) a e :
  m w.2 = Done (a, e) → on_env m w = Done (a, (w.1, e)).
Proof. unfold on_env. by intros ->. Qed.


Lemma signaled_reached e s f :
  fences_ok e → fences e !! s = Some f →
  all_signaled e f ↔ reached e (counter_of e) (points_of f).
Proof.
  intros He Hs. unfold all_signaled, reached. apply forall_proper. intros p. apply forall_proper. intros t.
  split; intros H Hp; specialize (H Hp);
    destruct (fi_point _ _ _ _ He s f p t Hs Hp) as (sp & tl & Hsp & Ht & _ & Hon);
    destruct (Hon (not_elem_of_nil p)) as [_ Hsig]; unfold signaled_in, counter_of in *; rewrite ?Ht in *.
  - rewrite Hsp in H. exists sp. split; [done|]. apply Hsig, H.
  - destruct H as (sp' & E & Hle). rewrite Hsp in E. injection E as <-. rewrite Hsp. apply Hsig.
    split; [done|apply not_elem_of_nil].
Qed.

Lemma fence_unused w s : world_ok w → objects w.1.2 !! s = None → fences w.2 !! s = None.
Proof.
  intros Hw Ho. destruct (fences w.2 !! s) eqn:E; [|done].
  destruct (wo_open _ Hw s) as [fd Hfd]; [eauto|].
  destruct (ok_alive _ _ _ (fo_refs _ _ _ (wo_fds _ Hw)) _ _ Hfd). congruence.
Qed.

(** ** Creating *)

Definition with_stream (s : sid) (w : World) : World :=
  (w.1, mkStreams (<[s := new_stream 2 false]> (objects w.2)) (calls w.2)).

Lemma create_fence_run (w : FenceSys) s name pts :
  fds_ok no_extra always w.1 → fences_ok w.2 → objects w.1.2 !! s = None → fences w.2 !! s = None →
  name_ok name → NoDup pts.*1 → NoDup pts.*2 → (∀ p t, (p, t) ∈ pts → fresh_point w.2 p t) →
  ∃ e' st, CreateFence s name pts w = Done (tt, (with_stream s w.1, e')) ∧
    fds_ok no_extra always (with_stream s w.1) ∧
    fences_ok e' ∧ evolves w.2 e' ∧ keeps w.2 e' ∧
    fences e' = <[s := mkFenceStream name st pts]> (fences w.2) ∧
    (counter_ <$> timelines e') = (counter_ <$> timelines w.2).
Proof.
  intros Hw He Ho Hs [Hn Hlen] Hnd1 Hnd2 Hf.
  destruct (create_env_run w.2 s name pts He Hs Hn Hnd1 Hnd2 Hf) as (e' & st & R & H).
  exists e', st. split; [|split; [|done]].
  - unfold CreateFence. rewrite (St_bind_run get _ w w w eq_refl). rewrite bool_decide_true by done.
    rewrite (St_bind_run (check true) _ w tt w eq_refl). rewrite (proj2 (Nat.ltb_lt _ _) Hlen).
    rewrite (St_bind_run (check true) _ w tt w eq_refl).
    rewrite (St_bind_run (put _) _ w tt (with_stream s w.1, w.2) eq_refl).
    by apply (on_env_run _ (with_stream s w.1, w.2)).
  - destruct w as [[t st1] e]. by apply fds_ok_new_object.
Qed.

Lemma with_stream_open s w : open_ok (with_stream s w).2 s.
Proof. exists (new_stream 2 false). split; [apply lookup_insert_eq|done]. Qed.

(** The fence in the table: the new world is well formed, or there was no number. *)
Lemma add_fence_run (w : FenceSys) (t : World) e' s f :
  world_ok w → t = with_stream s w.1 → fds_ok no_extra always t → fences_ok e' →
  fences e' = <[s := f]> (fences w.2) →
  ∃ r t', on_fds (AddFileStreamLocked (λ _, true) s) (t, e') = Done (r, (t', e')) ∧
    first_unused w.1.1 r ∧ fds_ok no_extra always t' ∧ (∀ x, in_range t'.1 x ↔ in_range w.1.1 x) ∧
    streams_ t'.1 = (if r =? -1 then streams_ w.1.1 else <[r := Some s]> (streams_ w.1.1)) ∧
    (r ≠ -1 → world_ok (t', e')) ∧ (r = -1 → t'.2 = t.2).
Proof.
  intros Hw Ht Hfd He Hf.
  destruct (add_locked_run no_extra always t s Hfd) as (r & t' & R & Hr & Hok & Hrng & Hm & Hst).
  { rewrite Ht. apply with_stream_open. }
  exists r, t'. rewrite Ht in Hr, Hrng, Hm. cbn [with_stream fst] in *.
  split; [by apply (on_fds_run _ (t, e'))|]. split; [done|]. split; [done|]. split; [done|]. split; [done|].
  split; [|done]. intros Hne. rewrite (proj2 (Z.eqb_neq r (-1)) Hne) in Hm. split; [done|done|]. cbn [fst snd].
  intros s1. rewrite Hf, Hm, lookup_insert. case_decide as E; [intros _; subst s1; exists r; apply lookup_insert_eq|].
  intros Hs1. destruct (wo_open _ Hw s1 Hs1) as [fd Hfd1]. exists fd.
  rewrite lookup_insert_ne; [done|]. intros <-. destruct Hr as [[? _]|(_ & Hn & _)]; congruence.
Qed.

Lemma first_unused_free (w : World) r :
  fds_ok no_extra always w → first_unused w.1 r → (∃ fd, in_range w.1 fd ∧ streams_ w.1 !! fd = None) → r ≠ -1.
Proof.
  intros Hw Hr (fd & Hin & Hn) ->. destruct Hr as [[_ Hall]|[Hr _]].
  - destruct (Hall fd Hin). congruence.
  - pose proof (table_range_nonneg no_extra always w (-1) Hw Hr). lia.
Qed.

Lemma new_point_run (w : FenceSys) st ts :
  on_env (SyncPoint_new st ts) w = Done (next_address w.2, (w.1, with_point ts st w.2)).
Proof. done. Qed.

Lemma counters_at e e' : (counter_ <$> timelines e') = (counter_ <$> timelines e) → ∀ t, counter_of e' t = counter_of e t.
Proof.
  intros H t. unfold counter_of. assert (timelines e' !! t = None ↔ timelines e !! t = None) as Hn.
  { rewrite <-!(fmap_None counter_), <-!lookup_fmap. by rewrite H. }
  assert ((counter_ <$> timelines e') !! t = (counter_ <$> timelines e) !! t) as Ht by by rewrite H.
  rewrite !lookup_fmap in Ht. destruct (timelines e' !! t), (timelines e !! t); naive_solver.
Qed.

Lemma create_run w t s name time :
  world_ok w → fence_op_ok (OCreate t s name time) w →
  ∃ r w', Timeline_CreateFence t s name time w = Done (r, w') ∧ fence_step w w'.
Proof.
  intros Hw ([tl Ht] & Ho & Hn & Hfree). pose proof (fence_unused w s Hw Ho) as Hs.
  destruct (with_point_ok w.2 0 time (wo_fences _ Hw)) as [He1 V1]. set (p := next_address w.2).
  set (e1 := with_point 0 time w.2) in *.
  destruct (create_fence_run (w.1, e1) s name [(p, t)]) as (e2 & st & R2 & Hw2 & He2 & V2 & K2 & F2 & C2);
    cbn [fst snd]; try done.
  { apply Hw. }
  { apply NoDup_singleton. }
  { apply NoDup_singleton. }
  { intros p' t' [= -> ->]%list_elem_of_singleton. split.
    - exists (mkSyncPoint 0 time), tl. split; [apply lookup_insert_eq|]. by split.
    - intros s1 f1 t1 H1. exact (unused_unowned w.2 s1 f1 t1 (wo_fences _ Hw) H1). }
  destruct (add_fence_run w (with_stream s w.1) e2 s _ Hw eq_refl Hw2 He2 F2) as (r & t' & R3 & Hr & _ & _ & _ & Hok & _).
  pose proof (first_unused_free w.1 r (wo_fds _ Hw) Hr Hfree) as Hne.
  exists r, (t', e2). split.
  - unfold Timeline_CreateFence. rewrite (St_bind_run _ _ _ _ _ (new_point_run w time 0)).
    run_with R2. run_with R3. destruct Hr as [[? _]|(Hin & _)]; [done|].
    pose proof (table_range_nonneg no_extra always w.1 r (wo_fds _ Hw) Hin). by rewrite (proj2 (Z.leb_le 0 r)).
  - split; [by apply Hok|]. apply (evolves_comp w.2 e1); [|done|done]. split; [|done].
    intros q Hq. cbn. rewrite lookup_insert. case_decide; eauto.
Qed.

(** ** Destroying *)

Lemma fds_ok_delete_object (t : FdToFileStreamMap) st s :
  fds_ok no_extra always (t, st) → (∀ fd, streams_ t !! fd ≠ Some (Some s)) →
  fds_ok no_extra always (t, mkStreams (delete s (objects st)) (calls st)).
Proof.
  intros [Ht Hr Ha] Hn. split; [done| |done]. cbn [fst snd] in *. split; cbn [objects].
  - intros fd x Hx. rewrite lookup_delete_ne; [by apply (ok_alive _ _ _ Hr fd)|]. intros ->. by apply (Hn fd).
  - intros x. unfold no_extra. split; [lia|done].
  - intros x f. rewrite lookup_delete. case_decide; [done|]. apply (ok_count _ _ _ Hr).
Qed.

Lemma destroy_run (t : World) e s f :
  fds_ok no_extra always t → fences_ok e → fences e !! s = Some f → is_Some (objects t.2 !! s) →
  (∀ fd, streams_ t.1 !! fd ≠ Some (Some s)) →
  ∃ t' e', destroy_fence s (t, e) = Done (tt, (t', e')) ∧ fds_ok no_extra always t' ∧ t'.1 = t.1 ∧
    fences_ok e' ∧ evolves e e' ∧ fences e' = delete s (fences e) ∧
    (counter_ <$> timelines e') = (counter_ <$> timelines e).
Proof.
  intros Ht He Hs [g Hg] Hn. destruct (destroy_env_run e s f He Hs) as (e' & R & H).
  exists (t.1, mkStreams (delete s (objects t.2)) (calls t.2)), e'. split; [|split; [|done]].
  - unfold destroy_fence. change (on_env _) with (on_env (destroy_env s)).
    run_with (on_env_run (destroy_env s) (t, e) tt e' R). unfold on_fds. cbn [fst snd].
    unfold destroy, deref, mbind, St_bind, check. rewrite Hg.
    destruct (ok_count _ _ _ (fo_refs _ _ _ Ht) s g Hg) as [Hc _].
    assert (fd_count (streams_ t.1) s = 0) as Hz by (by apply fd_count_zero).
    unfold no_extra in Hc. rewrite Hc, Hz. cbn. by rewrite orb_true_r.
  - destruct t as [t st]. by apply fds_ok_delete_object.
Qed.

(** ** Closing *)

Lemma close_run w fd :
  world_ok w →
  ∃ r w', close_fd always fd w = Done (r, w') ∧ fence_step w w'.
Proof.
  intros Hw. destruct (close_locked_run no_extra always w.1 fd (wo_fds _ Hw)) as (t & R & Hok & _ & Hm).
  set (r := if bool_decide (is_Some (stream_at w.1 fd)) then Ok 0 else Err EBADF : res Z).
  assert (on_fds (close always fd) w = Done (r, (t, w.2))) as R1.
  { apply on_fds_run. unfold close. by run_with R. }
  unfold close_fd. rewrite (St_bind_run get _ w w w eq_refl). run_with R1.
  rewrite (St_bind_run get _ (t, w.2) _ (t, w.2) eq_refl). cbn [fst snd].
  assert (∀ e', fences_ok e' → (∀ s, is_Some (fences e' !! s) → is_Some (fences w.2 !! s)) →
    (∀ s, stream_at w.1 fd = Some s → (∀ x, streams_ t.1 !! x ≠ Some (Some s)) → fences e' !! s = None) →
    ∀ t', t'.1 = t.1 → fds_ok no_extra always t' → world_ok (t', e')) as Hfin.
  { intros e' He' Hsub Hgone t' Ht' Hokt. split; [done|done|]. cbn [fst snd]. rewrite Ht'. intros s Hs.
    destruct (wo_open _ Hw s (Hsub s Hs)) as [x Hx]. rewrite Hm. destruct (stream_at w.1 fd) as [s0|] eqn:E; [|by exists x].
    destruct (decide (s0 = s)) as [->|Hne].
    - destruct (decide (0 < fd_count (streams_ t.1) s)) as [Hc|Hc].
      + rewrite <-Hm. apply fd_count_nonzero. lia.
      + rewrite (Hgone s eq_refl) in Hs; [by destruct Hs|]. apply fd_count_zero.
        pose proof (fd_count_nonneg (streams_ t.1) s). lia.
    - exists x. rewrite lookup_delete_ne; [done|]. intros <-. unfold stream_at in E. rewrite Hx in E. simpl in E. congruence. }
  assert (∀ s, stream_at w.1 fd = Some s → is_Some (objects t.2 !! s)) as Hobj.
  { intros s Hs. unfold stream_at in Hs. destruct (streams_ w.1.1 !! fd) as [[x|]|] eqn:E; simplify_eq/=.
    apply (close_keeps_objects no_extra always w.1 t fd _ s (wo_fds _ Hw) R). by apply (ok_alive _ _ _ (fo_refs _ _ _ (wo_fds _ Hw)) _ _ E). }
  destruct (stream_at w.1 fd) as [s|] eqn:Es.
  2: { exists r, (t, w.2). split; [done|]. split; [|apply evolves_refl]. by apply (Hfin w.2 (wo_fences _ Hw)). }
  destruct (fences w.2 !! s) as [f|] eqn:Ef.
  2: { exists r, (t, w.2). split; [done|]. split; [|apply evolves_refl].
       apply (Hfin w.2 (wo_fences _ Hw)); try done. by intros s1 [= <-] _. }
  destruct (Hobj s eq_refl) as [g Hg]. rewrite Hg.
  destruct (ok_count _ _ _ (fo_refs _ _ _ Hok) s g Hg) as [Hc Hhad]. unfold no_extra in Hc.
  destruct (Z.eqb_spec (file_ref_count_ g) 0) as [Hz|Hnz].
  - assert (∀ x, streams_ t.1 !! x ≠ Some (Some s)) as Hnone by (apply fd_count_zero; lia).
    destruct (destroy_run t w.2 s f Hok (wo_fences _ Hw) Ef) as (t' & e' & R2 & Hok' & Ht' & He' & V & F & C);
      [eauto|done|].
    exists r, (t', e'). split; [by run_with R2|]. split; [|done]. apply (Hfin e' He'); try done.
    + intros s1. rewrite F, lookup_delete. case_decide; [by intros []|done].
    + intros s1 [= <-] _. by rewrite F, lookup_delete_eq.
  - exists r, (t, w.2). split; [done|]. split; [|apply evolves_refl].
    apply (Hfin w.2 (wo_fences _ Hw)); try done. intros s1 [= <-] Hnone. exfalso.
    apply fd_count_zero in Hnone. lia.
Qed.

(** ** Timelines and the clock *)

Lemma env_step w (e' : FenceEnv) :
  world_ok w → fences_ok e' → evolves w.2 e' → dom (fences e') = dom (fences w.2) →
  fence_step w (w.1, e').
Proof.
  intros Hw He' V D. split; [|done]. split; [apply Hw|done|]. cbn [fst snd]. intros s Hs.
  apply (wo_open _ Hw), elem_of_dom. rewrite <-D. by apply elem_of_dom.
Qed.

Lemma new_timeline_inv e t :
  fences_ok e → timelines e !! t = None → fences_ok (with_timeline t Timeline_new e).
Proof.
  intros He Ht. split; try apply He.
  - intros s f p t1 Hs Hp. destruct (fi_point _ _ _ _ He s f p t1 Hs Hp) as (sp & tl & ? & Ht1 & ?).
    exists sp, tl. cbn. rewrite lookup_insert_ne by congruence. done.
  - intros t1 tl. cbn. rewrite lookup_insert. case_decide; [|apply (fi_timeline _ _ _ _ He)].
    intros [= <-]. split; [done|]. split; constructor.
  - intros t1 tl k p. cbn. rewrite lookup_insert. case_decide; [|apply (fi_listed _ _ _ _ He)].
    intros [= <-] Hin. by apply elem_of_nil in Hin.
  - intros t1 tl p s. cbn. rewrite lookup_insert. case_decide; [|apply (fi_owner _ _ _ _ He)].
    by intros [= <-].
Qed.

Lemma evolves_same e e' :
  points e' = points e → fences e' = fences e → wakeups e' = wakeups e → evolves e e'.
Proof.
  intros Hp Hf Hw. destruct (evolves_refl e) as [P F W]. split; [by rewrite Hp|by rewrite Hf|].
  destruct W as [l [Hl HW]]. exists l. by rewrite Hw, Hf.
Qed.

Lemma tick_inv e ns :
  fences_ok e → 0 <= ns →
  fences_ok (mkFenceEnv (timelines e) (points e) (fences e) (clock e + ns) (wakeups e) (next_address e)).
Proof. intros [] ?. split; try done. cbn. lia. Qed.

(** ** Merging *)

Definition reached_map (ps : gmap nat SyncPoint) (c : Z → Z) (m : list (Z * nat)) : Prop :=
  ∀ t p, find t m = Some p → ∃ sp, ps !! p = Some sp ∧ signaling_time_ sp <= c t.

Definition values_ok (P : Z → nat → Prop) (m : list (Z * nat)) : Prop :=
  ∀ t p, find t m = Some p → P t p.

Lemma set_points_spec pts m :
  strict_keys m → NoDup pts.*2 → (∀ t, t ∈ pts.*2 → find t m = None) →
  let r := foldl (λ m (pt : nat * Z), set_point (pt.2, pt.1) m) m pts in
  strict_keys r ∧ ∀ t p, find t r = Some p ↔ find t m = Some p ∨ (p, t) ∈ pts.
Proof.
  revert m. induction pts as [|[p t] pts IH]; intros m Hm Hnd Hnew; cbv zeta; cbn [foldl fst snd].
  { split; [done|]. intros t p. rewrite elem_of_nil. tauto. }
  cbn [fmap list_fmap snd] in *. inversion Hnd as [|?? Ht Hnd']; subst.
  assert (find t m = None) as Htm by (apply Hnew; by left).
  destruct (insert_spec t p m Hm) as (Hm1 & Hb & Hf). rewrite Htm in Hb, Hf.
  assert (set_point (t, p) m = (insert t p m).1) as Hset.
  { unfold set_point. cbn [fst snd]. destruct (insert t p m). cbn [fst snd] in *. subst. done. }
  rewrite Hset. set (m1 := (insert t p m).1) in *. destruct (IH m1 Hm1 Hnd') as [H1 H2].
  { intros t' Ht'. rewrite Hf. rewrite decide_False by congruence. apply Hnew. by right. }
  split; [done|]. intros t' p'. rewrite H2, Hf, elem_of_cons. case_decide as E.
  - subst t'. split; [intros [[= ->]|?]; [right; by left|by right; right]|].
    intros [?|[[= ->]|?]]; [congruence|by left|by right].
  - naive_solver.
Qed.

Lemma merge_points_spec ps P pts m :
  strict_keys m → (∀ t p, P t p → is_Some (ps !! p)) → values_ok P m → (∀ p t, (p, t) ∈ pts → P t p) →
  ∃ r, merge_points ps m pts = Done r ∧ strict_keys r ∧ values_ok P r ∧
    ∀ c, reached_map ps c r ↔
      reached_map ps c m ∧ ∀ p t, (p, t) ∈ pts → ∃ sp, ps !! p = Some sp ∧ signaling_time_ sp <= c t.
Proof.
  intros Hm HP. revert m Hm. induction pts as [|[p t] pts IH]; intros m Hm Hv Hpts; cbn [merge_points].
  { exists m. split_and!; try done. intros c. split; [|by intros []]. intros H. split; [done|].
    intros p t Hin. by apply elem_of_nil in Hin. }
  assert (P t p) as Hp by (apply Hpts; by left). destruct (HP t p Hp) as [sp Hsp].
  assert (∃ m1, merge_point ps m (p, t) = Done m1 ∧ strict_keys m1 ∧ values_ok P m1 ∧
    ∀ c, reached_map ps c m1 ↔ reached_map ps c m ∧ signaling_time_ sp <= c t) as (m1 & R1 & Hm1 & Hv1 & Hc1).
  { unfold merge_point. cbn [fst snd]. destruct (insert_spec t p m Hm) as (Hi & Hb & Hf).
    destruct (insert t p m) as [m1 b]. cbn [fst snd] in *. subst b.
    destruct (find t m) as [q|] eqn:Eq.
    - rewrite bool_decide_false by done. destruct (HP t q (Hv t q Eq)) as [sq Hsq]. rewrite Hsq, Hsp.
      destruct (update_spec t p m Hm) as [Hu Huf]. rewrite Eq in Huf.
      assert (∀ c, reached_map ps c m → signaling_time_ sq <= c t) as Hq.
      { intros c H. destruct (H t q Eq) as (s' & E & ?). rewrite Hsq in E. by injection E as <-. }
      destruct (Z.ltb_spec (signaling_time_ sq) (signaling_time_ sp)).
      + eexists. split; [done|]. split; [done|]. split.
        * intros t' p'. rewrite Huf. case_decide as E; [subst t'; by intros [= <-]|apply Hv].
        * intros c. split.
          { intros H1. assert (signaling_time_ sp <= c t) as Hsc.
            { destruct (H1 t p) as (s' & E & ?); [by rewrite Huf, decide_True by done|].
              rewrite Hsp in E. by injection E as <-. }
            split; [|done]. intros t' p' Hf'. destruct (decide (t' = t)) as [->|Hne].
            - rewrite Eq in Hf'. injection Hf' as <-. exists sq. split; [done|lia].
            - apply H1. by rewrite Huf, decide_False by done. }
          intros [H1 H2] t' p'. rewrite Huf. case_decide as E; [subst t'; intros [= <-]; by exists sp|apply H1].
      + eexists. split; [done|]. split; [done|]. split; [done|]. intros c. split; [|by intros []].
        intros H1. split; [done|]. specialize (Hq c H1). lia.
    - rewrite bool_decide_true by done. eexists. split; [done|]. split; [done|]. split.
      + intros t' p'. rewrite Hf. case_decide as E; [subst t'; by intros [= <-]|apply Hv].
      + intros c. split.
        * intros H1. split.
          { intros t' p' Hf'. apply H1. rewrite Hf, decide_False by congruence. done. }
          destruct (H1 t p) as (s' & E & ?); [by rewrite Hf, decide_True by done|].
          rewrite Hsp in E. by injection E as <-.
        * intros [H1 H2] t' p'. rewrite Hf. case_decide as E; [subst t'; intros [= <-]; by exists sp|apply H1]. }
  destruct (IH m1 Hm1 Hv1) as (r & R & Hr & Hvr & Hcr); [intros ???; apply Hpts; by right|].
  exists r. split; [unfold mbind, outcome_bind in *; by rewrite R1|]. split; [done|]. split; [done|].
  intros c. rewrite Hcr, Hc1. setoid_rewrite elem_of_cons. split.
  - intros [[H1 H2] H3]. split; [done|]. intros p' t' [[= -> ->]|?]; [by exists sp|by apply H3].
  - intros [H1 H2]. split; [split; [done|]|].
    + destruct (H2 p t) as (s' & E & ?); [by left|]. rewrite Hsp in E. by injection E as <-.
    + intros p' t' Hin. apply H2. by right.
Qed.

(** The copies have the values of the points, and are new. *)
Lemma copy_points_run (ps : gmap nat SyncPoint) m e :
  fences_ok e → (∀ t p, (t, p) ∈ m → ∃ sp, ps !! p = Some sp ∧ points e !! p = Some sp) →
  ∃ e' pts, copy_points m e = Done (pts, e') ∧ fences_ok e' ∧ evolves e e' ∧ keeps e e' ∧
    fences e' = fences e ∧ timelines e' = timelines e ∧ pts.*2 = m.*1 ∧ NoDup pts.*1 ∧
    (∀ p t, (p, t) ∈ pts → (next_address e <= p)%nat) ∧
    (∀ p sp, points e !! p = Some sp → points e' !! p = Some sp) ∧
    Forall2 (λ (pt : nat * Z) (kv : Z * nat), points e' !! pt.1 = ps !! kv.2) pts m.
Proof.
  revert e. induction m as [|[t p] m IH]; intros e He Hm; cbn [copy_points].
  { exists e, []. split_and!; try done; [apply evolves_refl|constructor|].
    intros p t Hin. by apply elem_of_nil in Hin. }
  destruct (Hm t p) as (sp & Hps & Hsp); [by left|]. unfold point. run_with (at_key_run points p sp e Hsp).
  set (q := next_address e). set (e1 := with_point (timestamp_ns_ sp) (signaling_time_ sp) e).
  rewrite (St_bind_run (SyncPoint_new _ _) _ e q e1 eq_refl).
  destruct (with_point_ok e (timestamp_ns_ sp) (signaling_time_ sp) He) as [He1 V1].
  pose proof (unused_address e He) as Hq.
  assert (∀ p' s', points e !! p' = Some s' → points e1 !! p' = Some s') as K1.
  { intros p' s' H. cbn. rewrite lookup_insert_ne; [done|]. intros <-. congruence. }
  destruct (IH e1 He1) as (e2 & pts & R & He2 & V2 & K2 & F2 & T2 & D2 & N2 & L2 & P2 & C2).
  { intros t' p' Hin. destruct (Hm t' p') as (s' & ? & ?); [by right|]. eauto. }
  assert (keeps e e1) as K1' by (split; [intros p' [s' Hs']; eauto|done]).
  exists e2, ((q, t) :: pts). split; [by run_with R|]. split; [done|].
  split; [by apply (evolves_comp e e1)|]. split.
  { split; intros x Hx; apply K2; by apply K1'. }
  split; [done|]. split; [done|]. cbn [fmap list_fmap fst snd]. split; [by f_equal|].
  assert (q ∉ pts.*1) as Hnq.
  { intros ([p' t'] & E & Hin)%list_elem_of_fmap. simpl in E. subst p'. apply L2 in Hin. cbn in Hin. lia. }
  split; [by constructor|]. split.
  { intros p' t' [[= -> ->]|Hin]%elem_of_cons; [done|]. apply L2 in Hin. cbn in Hin. lia. }
  split; [intros p' s' H; by apply P2, K1|]. constructor.
  - cbn [fst snd]. rewrite Hps. apply P2. cbn. rewrite lookup_insert_eq. by destruct sp.
  - exact C2.
Qed.

Lemma reached_evolves e e' c pts :
  evolves e e' → keeps e e' → (∀ p t, (p, t) ∈ pts → is_Some (points e !! p)) →
  reached e' c pts ↔ reached e c pts.
Proof.
  intros V K Hex. unfold reached. apply forall_proper. intros p. apply forall_proper. intros t.
  split; intros H Hp; destruct (H Hp) as (sp & Hsp & Hle); destruct (Hex p t Hp) as [sq Hsq];
    destruct (ev_points _ _ V p sq Hsq) as (ts & E & _); try (apply K; eauto).
  - exists sq. split; [done|]. rewrite E in Hsp. by injection Hsp as <-.
  - eexists. split; [exact E|]. rewrite Hsp in Hsq. by injection Hsq as <-.
Qed.

Lemma points_exist e s f p t :
  fences_ok e → fences e !! s = Some f → (p, t) ∈ points_of f → is_Some (points e !! p).
Proof. intros He Hs Hp. destruct (fi_point _ _ _ _ He s f p t Hs Hp) as (sp & _ & H & _). eauto. Qed.

Lemma reached_stays e e' s f c :
  fences_ok e → fences e !! s = Some f → evolves e e' → keeps e e' →
  reached e' c (points_of f) ↔ reached e c (points_of f).
Proof. intros He Hs V K. apply reached_evolves; [done|done|]. intros ???. by eapply points_exist. Qed.

(** The points of the merged fence. *)
Lemma merged_points_run (w : FenceSys) this other f g :
  fences_ok w.2 → fences w.2 !! this = Some f → fences w.2 !! other = Some g →
  ∃ m e' pts,
    merge_points (points w.2) (foldl (λ m (pt : nat * Z), set_point (pt.2, pt.1) m) [] (points_of f))
      (points_of g) = Done m ∧
    copy_points m w.2 = Done (pts, e') ∧ fences_ok e' ∧ evolves w.2 e' ∧ keeps w.2 e' ∧
    fences e' = fences w.2 ∧ timelines e' = timelines w.2 ∧ NoDup pts.*1 ∧ NoDup pts.*2 ∧
    (∀ p t, (p, t) ∈ pts → fresh_point e' p t) ∧
    ∀ c, reached e' c pts ↔ reached w.2 c (points_of f) ∧ reached w.2 c (points_of g).
Proof.
  intros He Hf Hg.
  set (P := λ t p, ∃ sp tl, points w.2 !! p = Some sp ∧ timelines w.2 !! t = Some tl ∧
    (IsSignaled sp = true → signaling_time_ sp <= counter_ tl)).
  assert (∀ s h, fences w.2 !! s = Some h → ∀ p t, (p, t) ∈ points_of h → P t p) as HP.
  { intros s h Hs p t Hp. destruct (fi_point _ _ _ _ He s h p t Hs Hp) as (sp & tl & ? & ? & ? & _).
    by exists sp, tl. }
  destruct (set_points_spec (points_of f) []) as [Hm0 Hin0].
  { apply SSorted_nil. }
  { apply (fi_fence _ _ _ _ He this f Hf). }
  { by intros. }
  set (mine := foldl _ _ _) in *.
  destruct (merge_points_spec (points w.2) P (points_of g) mine Hm0) as (m & Rm & Hm & Hv & Hreach).
  { intros t p (sp & _ & H & _). eauto. }
  { intros t p Hfind. apply Hin0 in Hfind as [|Hin]; [done|]. exact (HP this f Hf p t Hin). }
  { exact (HP other g Hg). }
  destruct (copy_points_run (points w.2) m w.2 He) as (e' & pts & Rc & He' & V & K & F & T & D & N & L & C1 & C2).
  { intros t p Hin. apply find_elem in Hin; [|done]. destruct (Hv t p Hin) as (sp & _ & ? & _). by exists sp. }
  exists m, e', pts. split; [done|]. split; [done|]. do 5 (split; [done|]). split; [done|].
  split; [rewrite D; by apply strict_nodup|].
  assert (∀ i p t, pts !! i = Some (p, t) → ∃ q, m !! i = Some (t, q) ∧ points e' !! p = points w.2 !! q) as Hpair.
  { intros i p t Hi. destruct (Forall2_lookup_l _ _ _ _ _ C2 Hi) as ([t' q] & Hq & E). exists q.
    assert (pts.*2 !! i = Some t) as Ht by (by rewrite list_lookup_fmap, Hi).
    rewrite D, list_lookup_fmap, Hq in Ht. injection Ht as ->. done. }
  assert (∀ i t q, m !! i = Some (t, q) → ∃ p, pts !! i = Some (p, t) ∧ points e' !! p = points w.2 !! q) as Hpair'.
  { intros i t q Hi. destruct (Forall2_lookup_r _ _ _ _ _ C2 Hi) as ([p t'] & Hq & E). exists p.
    assert (m.*1 !! i = Some t) as Ht by (by rewrite list_lookup_fmap, Hi).
    rewrite <-D, list_lookup_fmap, Hq in Ht. injection Ht as ->. done. }
  split.
  - intros p t Hp. split.
    + apply list_elem_of_lookup in Hp as [i Hi]. destruct (Hpair i p t Hi) as (q & Hq & E).
      apply list_elem_of_lookup_2 in Hq. apply find_elem in Hq; [|done]. destruct (Hv t q Hq) as (sp & tl & ? & ? & ?).
      exists sp, tl. rewrite E, T. done.
    + rewrite F. intros s h t' Hs Hin. apply L in Hp. destruct (points_exist _ _ _ _ _ He Hs Hin) as [sp Hsp].
      pose proof (fi_fresh _ _ _ _ He p ltac:(eauto)). lia.
  - intros c. trans (reached_map (points w.2) c m).
    + unfold reached, reached_map. split.
      * intros H t q Hq. apply find_elem in Hq; [|done]. apply list_elem_of_lookup in Hq as [i Hi].
        destruct (Hpair' i t q Hi) as (p & Hp & E). rewrite <-E. apply H. by eapply list_elem_of_lookup_2.
      * intros H p t Hp. apply list_elem_of_lookup in Hp as [i Hi]. destruct (Hpair i p t Hi) as (q & Hq & E).
        rewrite E. apply H. apply find_elem; [done|]. by eapply list_elem_of_lookup_2.
    + rewrite Hreach. unfold reached at 2. apply and_iff_compat_r. unfold reached_map, reached.
      split; intros H ? ? Hin.
      * apply H, Hin0. by right.
      * apply Hin0 in Hin as [|Hin]; [done|by apply H].
Qed.

(** What a merge reports and leaves. *)
Definition merge_report (w : FenceSys) (this : sid) (data : option (Z * str)) (s : sid) (r : res Z)
    (w' : FenceSys) : Prop :=
  match data with
  | None => r = Err EFAULT ∧ w' = w
  | Some (fd2, name) =>
      match stream_at w.1 fd2 ≫= λ o, (o,.) <$> fences w.2 !! o with
      | None => r = Err ENOENT ∧ w' = w
      | Some (other, g) =>
          if decide (this = other) then
            ∃ fd, r = Ok fd ∧ first_unused w.1.1 fd ∧ w'.2 = w.2 ∧
              streams_ w'.1.1 = if fd =? -1 then streams_ w.1.1 else <[fd := Some this]> (streams_ w.1.1)
          else
            match r with
            | Err e => e = EMFILE ∧ first_unused w.1.1 (-1) ∧ streams_ w'.1.1 = streams_ w.1.1 ∧
                fences w'.2 = fences w.2
            | Ok fd => first_unused w.1.1 fd ∧ fd ≠ -1 ∧
                streams_ w'.1.1 = <[fd := Some s]> (streams_ w.1.1) ∧
                ∃ f h, fences w.2 !! this = Some f ∧ fences w'.2 = <[s := h]> (fences w.2) ∧
                  fence_name_ h = name ∧
                  (status_ h = FENCE_SIGNALED ↔ status_ f = FENCE_SIGNALED ∧ status_ g = FENCE_SIGNALED) ∧
                  ∀ c, reached w'.2 c (points_of h) ↔
                       reached w'.2 c (points_of f) ∧ reached w'.2 c (points_of g)
            end
      end
  end.

Lemma status_reached e s f :
  fences_ok e → fences e !! s = Some f →
  status_ f = FENCE_SIGNALED ↔ reached e (counter_of e) (points_of f).
Proof. intros He Hs. rewrite (fi_status _ _ _ _ He s f Hs) by done. by apply (signaled_reached e s). Qed.

Lemma reached_ext e c c' pts : (∀ t, c t = c' t) → reached e c pts ↔ reached e c' pts.
Proof. intros H. unfold reached. setoid_rewrite H. done. Qed.

(** Two different fences. *)
Lemma merge_two_run w this other f g fd2 name s :
  world_ok w → fences w.2 !! this = Some f → fences w.2 !! other = Some g → this ≠ other →
  stream_at w.1 fd2 = Some other → objects w.1.2 !! s = None → name_ok name →
  ∃ r w', SyncIocMerge always this (Some (fd2, name)) s w = Done (r, w') ∧ fence_step w w' ∧
    merge_report w this (Some (fd2, name)) s r w'.
Proof.
  intros Hw Hf Hg Hne Hfd Ho Hname. pose proof (wo_fences _ Hw) as He.
  pose proof (fence_unused w s Hw Ho) as Hs.
  destruct (merged_points_run w this other f g He Hf Hg)
    as (m & e1 & pts & Rm & Rc & He1 & V1 & K1 & F1 & T1 & N1 & N2 & Hfresh & Hreach).
  destruct (create_fence_run (w.1, e1) s name pts) as (e2 & st & R2 & Hw2 & He2 & V2 & K2 & F2 & C2);
    cbn [fst snd] in *; try done; [apply Hw|by rewrite F1|].
  rewrite F1 in F2. set (h := mkFenceStream name st pts) in *.
  destruct (add_fence_run w (with_stream s w.1) e2 s h Hw eq_refl Hw2 He2 F2)
    as (fd & t' & R3 & Hfd3 & Hok3 & Hrng & Hm3 & Hok & Hst).
  assert (evolves w.2 e2) as V by (by apply (evolves_comp w.2 e1)).
  assert (keeps w.2 e2) as K by (split; intros ? H; by apply K2, K1).
  assert (SyncIocMerge always this (Some (fd2, name)) s w =
    (if fd =? -1 then destroy_fence s;; mret (Err EMFILE) else mret (Ok fd)) (t', e2)) as Hrun.
  { unfold SyncIocMerge, GetStreamLocked.
    run_with (on_fds_run _ w _ _ (get_stream_ok no_extra always w.1 fd2 (wo_fds _ Hw))).
    rewrite Hfd. rewrite (St_bind_run get _ (w.1, w.2) _ (w.1, w.2) eq_refl). cbn [fst snd].
    cbn [mbind option_bind]. rewrite Hg. cbn [fmap option_fmap option_map].
    rewrite bool_decide_false by done. unfold fence.
    run_with (on_env_run _ (w.1, w.2) _ _ (at_key_run fences this f w.2 Hf)). cbn [fst snd].
    rewrite (St_bind_run (lift _) _ (w.1, w.2) m (w.1, w.2)) by (unfold lift; by rewrite Rm).
    run_with (on_env_run _ (w.1, w.2) _ _ Rc). cbn [fst snd]. run_with R2. run_with R3. done. }
  unfold merge_report. rewrite Hfd. cbn [mbind option_bind]. rewrite Hg. cbn [fmap option_fmap option_map].
  destruct (decide (this = other)); [done|]. destruct (Z.eqb_spec fd (-1)) as [->|Hn].
  - specialize (Hst eq_refl).
    destruct (destroy_run t' e2 s h Hok3 He2) as (t4 & e4 & R4 & Hok4 & Ht4 & He4 & V4 & F4 & C4).
    { rewrite F2. apply lookup_insert_eq. }
    { rewrite Hst. cbn. rewrite lookup_insert_eq. eauto. }
    { intros x Hx. rewrite Hm3 in Hx. destruct (ok_alive _ _ _ (fo_refs _ _ _ (wo_fds _ Hw)) x s Hx). congruence. }
    assert (fences e4 = fences w.2) as F by (by rewrite F4, F2, delete_insert_id).
    exists (Err EMFILE), (t4, e4). split; [by rewrite Hrun; run_with R4|]. split.
    + split; [|by apply (evolves_comp w.2 e2)]. split; [done|done|]. cbn [fst snd]. rewrite F, Ht4, Hm3. apply Hw.
    + cbn [fst snd]. rewrite Ht4, Hm3. done.
  - specialize (Hok Hn). exists (Ok fd), (t', e2). split; [done|]. split; [by split|].
    cbn [fst snd]. split; [done|]. split; [done|]. split; [done|]. exists f, h.
    split; [done|]. split; [done|]. split; [done|].
    assert (∀ c, reached e2 c pts ↔ reached e2 c (points_of f) ∧ reached e2 c (points_of g)) as HR.
    { intros c. rewrite (reached_evolves e1 e2 c pts); [|done|done|].
      - by rewrite Hreach, (reached_stays w.2 e2 this f c He Hf V K), (reached_stays w.2 e2 other g c He Hg V K).
      - intros p t Hp. destruct (proj1 (Hfresh p t Hp)) as (sp & _ & E & _). eauto. }
    split; [|exact HR]. rewrite (status_reached e2 s h He2) by (rewrite F2; apply lookup_insert_eq).
    change (points_of h) with pts. rewrite (HR (counter_of e2)), (status_reached w.2 this f He Hf), (status_reached w.2 other g He Hg).
    assert (∀ t, counter_of e2 t = counter_of w.2 t) as Hc.
    { intros t. rewrite (counters_at e1 e2 C2 t). unfold counter_of. by rewrite T1. }
    rewrite !(reached_ext e2 _ _ _ Hc).
    by rewrite (reached_stays w.2 e2 this f _ He Hf V K), (reached_stays w.2 e2 other g _ He Hg V K).
Qed.

Lemma merge_run w this data s :
  world_ok w → fence_op_ok (OMerge this data s) w →
  ∃ r w', SyncIocMerge always this data s w = Done (r, w') ∧ fence_step w w' ∧
    merge_report w this data s r w'.
Proof.
  intros Hw ([f Hf] & Ho & Hd). destruct data as [[fd2 name]|].
  2: { exists (Err EFAULT), w. split; [done|]. split; [|done]. split; [done|apply evolves_refl]. }
  pose proof (on_fds_run _ w _ _ (get_stream_ok no_extra always w.1 fd2 (wo_fds _ Hw))) as Hget.
  assert (w = (w.1, w.2)) as Ew by by destruct w.
  destruct (stream_at w.1 fd2 ≫= λ o, (o,.) <$> fences w.2 !! o) as [[other g]|] eqn:E.
  - destruct (stream_at w.1 fd2) as [o|] eqn:Eo; [|done]. cbn in E.
    destruct (fences w.2 !! o) as [g'|] eqn:Eg; [|done]. cbn in E. injection E as -> ->.
    destruct (decide (this = other)) as [->|Hne]; [|by apply (merge_two_run w this other f g)].
    assert (streams_ w.1.1 !! fd2 = Some (Some other)) as Hfd2.
    { unfold stream_at in Eo. by destruct (streams_ w.1.1 !! fd2) as [[x|]|]; simplify_eq/=. }
    destruct (dup_new_run no_extra always w.1 fd2 other (wo_fds _ Hw) Hfd2) as (r & t & R & Hok & Hr).
    set (fd := match r with Ok fd => fd | Err _ => -1 end). exists (Ok fd), (t, w.2).
    assert (first_unused w.1.1 fd ∧ streams_ t.1 =
      if fd =? -1 then streams_ w.1.1 else <[fd := Some other]> (streams_ w.1.1)) as [Hfu Hm].
    { subst fd. destruct r as [e|n]; [by destruct Hr as (_ & ? & ?)|]. destruct Hr as (? & Hn & Hm).
      rewrite (proj2 (Z.eqb_neq n (-1)) Hn). done. }
    split; [|split; [split; [split|apply evolves_refl]|]].
    + unfold SyncIocMerge, GetStreamLocked. run_with Hget.
      rewrite (St_bind_run get _ (w.1, w.2) _ (w.1, w.2) eq_refl). cbn [fst snd mbind option_bind].
      rewrite Eg. cbn [fmap option_fmap option_map]. rewrite bool_decide_true by done.
      by run_with (on_fds_run _ (w.1, w.2) _ _ R).
    + done.
    + apply (wo_fences _ Hw).
    + cbn [fst snd]. intros x Hx. destruct (wo_open _ Hw x Hx) as [y Hy]. exists y. rewrite Hm.
      destruct (Z.eqb_spec fd (-1)); [done|]. rewrite lookup_insert_ne; [done|]. intros <-.
      destruct Hfu as [[? _]|(_ & Hn & _)]; congruence.
    + unfold merge_report. rewrite Eo. cbn [mbind option_bind]. rewrite Eg.
      cbn [fmap option_fmap option_map]. destruct (decide (other = other)); [|done].
      exists fd. done.
  - exists (Err ENOENT), w. split; [|split; [split; [done|apply evolves_refl]|]].
    + unfold SyncIocMerge, GetStreamLocked. run_with Hget.
      rewrite (St_bind_run get _ (w.1, w.2) _ (w.1, w.2) eq_refl). cbn [fst snd]. rewrite E, <-Ew. done.
    + unfold merge_report. rewrite E. done.
Qed.

(** ** Every call *)

Lemma run_fence_op_step o w :
  world_ok w → fence_op_ok o w → ∃ r w', run_fence_op o w = Done (r, w') ∧ fence_step w w'.
Proof.
  intros Hw Ho. assert (w = (w.1, w.2)) as Ew by by destruct w. pose proof (wo_fences _ Hw) as He.
  destruct o as [t|t s name time|t amount|this data s|fd|ns]; cbn [run_fence_op].
  - exists (Ok 0), (w.1, with_timeline t Timeline_new w.2). split; [done|].
    apply env_step; [done|by apply new_timeline_inv|by apply evolves_same|done].
  - destruct (create_run w t s name time Hw Ho) as (r & w' & R & H). exists (Ok r), w'. by run_with R.
  - destruct Ho as ([tl Ht] & Ha & Hmax). unfold counter_of in Hmax. rewrite Ht in Hmax.
    destruct (increment_run w.2 t tl amount He Ht Ha Hmax) as (e' & R & He' & V & O & T).
    exists (Ok 0), (w.1, e'). split; [by run_with (on_env_run _ w _ _ R)|]. apply env_step; try done. apply O.
  - destruct (merge_run w this data s Hw Ho) as (r & w' & R & H & _). by exists r, w'.
  - by apply close_run.
  - eexists (Ok 0), (w.1, _). split; [done|].
    apply env_step; [done|by apply tick_inv|by apply evolves_same|done].
Qed.

Lemma reachable_world_ok lo hi time w :
  0 <= lo <= hi → 0 < time → fence_reachable lo hi time w → world_ok w.
Proof.
  intros Hlo Htime. induction 1 as [t Ht|w o r w' Hreach Hw Ho Hrun].
  - destruct (reachable_ok lo hi (t, mkStreams ∅ []) Hlo) as [Htab Hrefs]; [by constructor|].
    split; [by split| |intros s Hs; cbn in Hs; rewrite lookup_empty in Hs; by destruct Hs].
    split; cbn; try (intros *; rewrite ?lookup_empty; by inversion 1 || done); try done.
  - destruct (run_fence_op_step o w Hw Ho) as (r' & w1 & Hrun' & Hs). rewrite Hrun in Hrun'.
    injection Hrun' as <- <-. apply Hs.
Qed.

(** ** Waiting *)

Section Waiting.
Context (time : FenceSys → Z) (this : sid).
Context (Now : St FenceSys Z) (Wait : St FenceSys unit) (TimedWait : Z → St FenceSys unit).

(** The caller's reference keeps the fence while it waits. *)
Definition waited (w : FenceSys) : Prop := fences_ok w.2 ∧ is_Some (fences w.2 !! this).

Definition status_at (w : FenceSys) : option FenceStatus := status_ <$> fences w.2 !! this.

(** The wake-ups of the condition variable, until the fence is signaled. *)
Inductive woken_until : FenceSys → nat → FenceSys → Prop :=
| woken_signaled w w' :
    Wait w = Done (tt, w') → waited w' → status_at w' = Some FENCE_SIGNALED → woken_until w 1 w'
| woken_again w w1 n w' :
    Wait w = Done (tt, w1) → waited w1 → status_at w1 = Some FENCE_ACTIVE → woken_until w1 n w' →
    woken_until w (S n) w'.

Lemma check_valid_run w f :
  waited w → fences w.2 !! this = Some f → check_valid this w = Done (f, w).
Proof.
  intros [He _] Hf. unfold check_valid, fence. assert (w = (w.1, w.2)) as Ew by by destruct w.
  run_with (on_env_run _ w _ _ (at_key_run fences this f w.2 Hf)). rewrite <-Ew.
  destruct (fi_fence _ _ _ _ He this f Hf) as [Hn Hd].
  rewrite (St_bind_run (lift _) _ w true w).
  2: { unfold lift, IsValidLocked. by rewrite (bool_decide_false _ Hn), (bool_decide_true _ Hd). }
  done.
Qed.

Context (Hpl : platform_ok waited time Now TimedWait).

(** The loop of a wait with a limit ends. *)
Lemma fence_wait_ends timeout limit w :
  limit ≠ 0 → 0 <= timeout → waited w →
  ∃ fuel r w', fence_wait Now Wait TimedWait fuel this timeout limit w = Done (r, w') ∧ waited w' ∧
    match r with
    | Ok n => n = 0 ∧ status_at w' = Some FENCE_SIGNALED
    | Err e => e = ETIME ∧ status_at w' = Some FENCE_ACTIVE ∧ limit <= time w'
    end.
Proof.
  intros Hl Ht. remember (Z.to_nat (limit - time w)) as n eqn:Hn.
  revert w Hn. induction (lt_wf n) as [n _ IH]. intros w -> Hw.
  destruct (wait_until_run _ _ Now Wait TimedWait Hpl limit w Hl Hw) as (w1 & Hrun & Hw1 & Hc).
  destruct Hw1 as [He1 [f Hf]]. pose proof (check_valid_run w1 f (conj He1 (mk_is_Some _ _ Hf)) Hf) as Hv.
  assert (status_at w1 = Some (status_ f)) as Hst by (unfold status_at; by rewrite Hf).
  destruct (status_ f) eqn:Es.
  2: { exists 1%nat, (Ok 0), w1. cbn [fence_wait]. run_with Hrun. run_with Hv. rewrite Es.
       split; [done|]. split; [by split|done]. }
  case_bool_decide as Hd.
  - exists 1%nat, (Err ETIME), w1. cbn [fence_wait]. run_with Hrun. run_with Hv. rewrite Es.
    rewrite bool_decide_false by done. rewrite (proj2 (Z.leb_le 0 timeout) Ht).
    split; [done|]. split; [by split|done].
  - destruct (decide (limit <= time w)); [by subst w1|].
    destruct (IH (Z.to_nat (limit - time w1))) with (w := w1) as (fuel & r & w2 & Hrun2 & H2);
      [lia|done|by split|].
    exists (S fuel), r, w2. cbn [fence_wait]. run_with Hrun. run_with Hv. rewrite Es.
    rewrite bool_decide_false by done. done.
Qed.

Lemma fence_wait_woken n w timeout w' :
  woken_until w n w' → fence_wait Now Wait TimedWait n this timeout 0 w = Done (Ok 0, w').
Proof.
  induction 1 as [w w' Hwait [He [f Hf]] Hst|w w1 n w' Hwait [He [f Hf]] Hst _ IH];
    cbn [fence_wait]; unfold WaitUntilInternal; cbn [Z.eqb];
    unfold status_at in Hst; rewrite Hf in Hst; injection Hst as Hst.
  - rewrite (St_bind_run _ _ w false w') by by run_with Hwait.
    run_with (check_valid_run w' f (conj He (mk_is_Some _ _ Hf)) Hf). by rewrite Hst.
  - rewrite (St_bind_run _ _ w false w1) by by run_with Hwait.
    run_with (check_valid_run w1 f (conj He (mk_is_Some _ _ Hf)) Hf). rewrite Hst.
    rewrite bool_decide_false by done. done.
Qed.
End Waiting.

(* -------------------------------------------------------------------- *)
(** * Properties *)

(** C17. Fences follow their timelines.  In every state that calls reach, every
    call that keeps the protocol (counters do not overflow, names are not empty
    and fit, a timeline makes a fence while a descriptor is free) runs without
    tripping an assertion, and afterwards every fence is signaled exactly when the
    counters of its timelines have reached all its points, also right after it is
    created or merged.  Its points never change, a signaled fence and the timestamp of
    a signaled point stay as they are, every fence that the call signals is woken
    during the call, and every fence that is left has a descriptor. *)
Theorem fences_follow_timelines lo hi time w o :
  0 <= lo <= hi → 0 < time → fence_reachable lo hi time w → fence_op_ok o w →
  ∃ r w', run_fence_op o w = Done (r, w') ∧
    (∀ s f, fences w'.2 !! s = Some f →
       status_ f = FENCE_SIGNALED ↔ reached w'.2 (counter_of w'.2) (points_of f)) ∧
    (∀ s f f', fences w.2 !! s = Some f → fences w'.2 !! s = Some f' →
       points_of f' = points_of f ∧ (status_ f = FENCE_SIGNALED → status_ f' = FENCE_SIGNALED) ∧
       (status_ f = FENCE_ACTIVE → status_ f' = FENCE_SIGNALED →
        s ∈ drop (List.length (wakeups w.2)) (wakeups w'.2))) ∧
    (∀ p sp sp', points w.2 !! p = Some sp → points w'.2 !! p = Some sp' → IsSignaled sp = true → sp' = sp) ∧
    (∀ s, is_Some (fences w'.2 !! s) → ∃ fd, streams_ w'.1.1 !! fd = Some (Some s)).
Proof.
  intros Hlo Htime Hreach Ho. pose proof (reachable_world_ok lo hi time w Hlo Htime Hreach) as Hw.
  destruct (run_fence_op_step o w Hw Ho) as (r & w' & Hrun & [Hw' [P F (l & Hl & W)]]).
  exists r, w'. split; [done|]. split; [|split; [|split; [|apply Hw']]].
  - intros s f Hf. by apply (status_reached w'.2 s f (wo_fences _ Hw')).
  - intros s f f' Hf Hf'. destruct (F s f Hf) as (st & E & Hst); [eauto|]. rewrite E in Hf'.
    injection Hf' as <-. cbn. split; [done|]. split; [done|]. intros Ha Hs.
    rewrite Hl, drop_app_length. by apply (W s f _ Hf E Ha).
  - intros p [ts st] sp' Hp Hp' Hs. destruct (P p _ Hp) as (ts' & E & Hts); [eauto|].
    rewrite E in Hp'. injection Hp' as <-. by rewrite (Hts Hs).
Qed.

(** C18. Merging.  SYNC_IOC_MERGE of two different fences gives a new fence, at the
    lowest free descriptor, that waits for both: at once, and for all values the
    counters may have later, it is signaled exactly when both are (of two points
    on one timeline the later one is kept); the two fences stay as they are.  When
    no descriptor is free the call is EMFILE and leaves no fence behind.  Merging a
    fence with itself dups the descriptor (and answers 0 with -1 for the new
    descriptor when none is free); a descriptor without a fence is ENOENT, a null
    argument EFAULT. *)
Theorem merged_fence_waits_for_both lo hi time w this data s :
  0 <= lo <= hi → 0 < time → fence_reachable lo hi time w → fence_op_ok (OMerge this data s) w →
  ∃ r w', SyncIocMerge always this data s w = Done (r, w') ∧ merge_report w this data s r w'.
Proof.
  intros Hlo Htime Hreach Ho. pose proof (reachable_world_ok lo hi time w Hlo Htime Hreach) as Hw.
  destruct (merge_run w this data s Hw Ho) as (r & w' & Hrun & _ & H). by exists r, w'.
Qed.

(** C19. Waiting.  SYNC_IOC_WAIT on a fence without points or that is signaled is 0 at
    once.  With a timeout that is not negative it ends: with 0 only when the fence is
    signaled, with ETIME only when it is not and the time is up.  With a negative
    timeout it waits through all wake-ups until the fence is signaled.  A null
    argument is EFAULT. *)
Theorem waiting_for_a_fence time this Now Wait TimedWait w f :
  platform_ok (waited this) time Now TimedWait → waited this w → fences w.2 !! this = Some f →
  (∀ fuel, SyncIocWait Now Wait TimedWait fuel this None w = Done (Err EFAULT, w)) ∧
  (points_of f = [] ∨ status_ f = FENCE_SIGNALED →
   ∀ fuel timeout, SyncIocWait Now Wait TimedWait fuel this (Some timeout) w = Done (Ok 0, w)) ∧
  (points_of f ≠ [] → status_ f = FENCE_ACTIVE → ∀ timeout,
   if timeout <? 0 then
     ∀ n w', woken_until this Wait w n w' →
       SyncIocWait Now Wait TimedWait n this (Some timeout) w = Done (Ok 0, w')
   else
     ∃ fuel r w', SyncIocWait Now Wait TimedWait fuel this (Some timeout) w = Done (r, w') ∧
       match r with
       | Ok n => n = 0 ∧ status_at this w' = Some FENCE_SIGNALED
       | Err e => e = ETIME ∧ status_at this w' = Some FENCE_ACTIVE ∧ time w + timeout * 1000 <= time w'
       end).
Proof.
  intros Hpl Hw Hf. pose proof (check_valid_run this w f Hw Hf) as Hv. unfold SyncIocWait.
  split; [|split].
  - intros fuel. run_with (po_now Hpl w). by run_with Hv.
  - intros Hr fuel timeout. run_with (po_now Hpl w). run_with Hv.
    destruct (bool_decide (points_of f = [])) eqn:E; [done|]. apply bool_decide_eq_false in E.
    destruct Hr as [?|Hr]; [done|]. by rewrite Hr.
  - intros Hne Ha timeout. destruct (Z.ltb_spec timeout 0) as [Hneg|Hpos].
    + intros n w' Hwk. run_with (po_now Hpl w). run_with Hv. rewrite bool_decide_false, Ha by done.
      rewrite bool_decide_false by done. by apply fence_wait_woken.
    + pose proof (po_clock Hpl w).
      destruct (fence_wait_ends time this Now Wait TimedWait Hpl timeout (time w + timeout * 1000) w)
        as (fuel & r & w' & Hrun & _ & Hr); [lia|done|done|].
      exists fuel, r, w'. split; [|done]. run_with (po_now Hpl w). run_with Hv.
      rewrite bool_decide_false, Ha by done. by rewrite bool_decide_false.
Qed.

(** ** Witnesses *)

(** Descriptors 0..3; fence 1 waits for 5 on timeline 7, fence 2 for 3 on timeline
    8. *)
Definition witness_start : FenceSys :=
  ((match FdToFileStreamMap_new 0 3 with Done t => t | _ => mkFdMap ∅ [] 0 0 end, mkStreams ∅ []),
   mkFenceEnv ∅ ∅ ∅ 1000 [] 0).

Definition after (o : fence_op) (w : FenceSys) : FenceSys :=
  match run_fence_op o w with Done (_, w') => w' | _ => w end.

Definition witness_1 : FenceSys := after (ONewTimeline 7) witness_start.
Definition witness_2 : FenceSys := after (OCreate 7 1%nat (lit "a") 5) witness_1.
Definition witness_3 : FenceSys := after (ONewTimeline 8) witness_2.
Definition witness_fences : FenceSys := after (OCreate 8 2%nat (lit "b") 3) witness_3.

Lemma reach_after o r w w' :
  fence_reachable 0 3 1000 w → fence_op_ok o w → run_fence_op o w = Done (r, w') →
  fence_reachable 0 3 1000 w'.
Proof. intros. by eapply fence_call. Qed.

Lemma witness_fences_reachable : fence_reachable 0 3 1000 witness_fences.
Proof.
  apply (reach_after (OCreate 8 2%nat (lit "b") 3) (Ok 1) witness_3); [| |vm_compute; reflexivity].
  - apply (reach_after (ONewTimeline 8) (Ok 0) witness_2); [| |vm_compute; reflexivity].
    + apply (reach_after (OCreate 7 1%nat (lit "a") 5) (Ok 0) witness_1); [| |vm_compute; reflexivity].
      * apply (reach_after (ONewTimeline 7) (Ok 0) witness_start); [|done|vm_compute; reflexivity].
        by apply fence_start.
      * split; [by eexists|]. split; [done|]. split; [split; [done|vm_compute; lia]|].
        exists 0. split; [split; vm_compute; done|done].
    + done.
  - split; [by eexists|]. split; [done|]. split; [split; [done|vm_compute; lia]|].
    exists 1. split; [split; vm_compute; done|done].
Qed.

Lemma fences_follow_timelines_witness :
  ∃ r w', run_fence_op (OIncrement 7 5) witness_fences = Done (r, w') ∧
    status_at 1 w' = Some FENCE_SIGNALED ∧ status_at 2 w' = Some FENCE_ACTIVE.
Proof.
  destruct (fences_follow_timelines 0 3 1000 witness_fences (OIncrement 7 5)) as (r & w' & Hrun & _).
  - lia.
  - lia.
  - exact witness_fences_reachable.
  - split; [by eexists|]. split; [lia|]. reflexivity.
  - exists r, w'. split; [exact Hrun|]. vm_compute in Hrun. injection Hrun as _ <-. done.
Defined.

Lemma merged_fence_waits_for_both_witness :
  ∃ w', SyncIocMerge always 1%nat (Some (1, lit "ab")) 3%nat witness_fences = Done (Ok 2, w') ∧
    merge_report witness_fences 1%nat (Some (1, lit "ab")) 3%nat (Ok 2) w'.
Proof.
  destruct (merged_fence_waits_for_both 0 3 1000 witness_fences 1%nat (Some (1, lit "ab")) 3%nat)
    as (r & w' & Hrun & Hrep).
  - lia.
  - lia.
  - exact witness_fences_reachable.
  - split; [by eexists|]. split; [done|]. split; [done|vm_compute; lia].
  - assert (r = Ok 2) as -> by (vm_compute in Hrun; congruence). exists w'. split; [exact Hrun|exact Hrep].
Defined.

(** A clock that timed waits advance by a millisecond more than they are asked. *)
Definition ms_clock (w : FenceSys) : Z := clock w.2 + 1.
Definition ms_now : St FenceSys Z := gets (λ w, Z.max 1 (ms_clock w)).
Definition ms_timed (d : Z) : St FenceSys unit :=
  modify (λ w, (w.1, mkFenceEnv (timelines w.2) (points w.2) (fences w.2) (Z.max 0 (clock w.2) + d + 1)
                       (wakeups w.2) (next_address w.2))).

Lemma waiting_for_a_fence_witness :
  ∃ fuel r w', SyncIocWait ms_now (mret tt) ms_timed fuel 1%nat (Some 2) witness_fences = Done (r, w').
Proof.
  destruct (waiting_for_a_fence (λ w, Z.max 1 (ms_clock w)) 1%nat ms_now (mret tt) ms_timed witness_fences
    (mkFenceStream (lit "a") FENCE_ACTIVE [(0%nat, 7)])) as (_ & _ & H).
  - split; [done|intros w; lia|]. intros d w Hd [He Hs]. eexists. split; [done|]. split; [split; [|done]|].
    + destruct He. split; try done. cbn. lia.
    + unfold ms_clock. cbn. lia.
  - split; [|by eexists].
    exact (wo_fences _ (reachable_world_ok 0 3 1000 witness_fences ltac:(lia) ltac:(lia) witness_fences_reachable)).
  - reflexivity.
  - destruct (H ltac:(done) ltac:(done) 2) as (fuel & r & w' & Hrun & _). exists fuel, r, w'. exact Hrun.
Defined.
