(* ===== verification/Epoll.v ===== *)
(** * Epoll: [epoll_stream.{h,cc}] (under src/posix_translation/) and the epoll
    calls of [virtual_file_system.cc]

    An [EPollStream] keeps the streams it watches in a map ordered by their
    address, and is in their sets of listeners.  The virtual calls that the base
    class makes on listeners and on a stream whose last descriptor goes, which
    FileStream.v records, are carried out here ([dispatch]). *)

From S2P Require Import Prelude OrderedMap Util FileStream FdMap VfsFds.
Import Refs OrderedMap.

#[local] Open Scope Z_scope.

(** ** Data *)

(** [event_]; the key is [stream_]. *)
Record EPollEntry : Type := mkEPollEntry { events_ : Z; data_ : Z }.

#[export] Instance epoll_entry_eq_dec : EqDecision EPollEntry.
Proof. solve_decision. Defined.

Abbreviation EPollMap := (list (Z * EPollEntry)).

Definition address (s : sid) : Z := Z.of_nat s.

(** The streams that are [EPollStream]s, the broadcasts on their [cond_], and the
    state of the other streams. *)
Record EpollEnv (X : Type) : Type := mkEpollEnv {
  epolls : gmap sid EPollMap;
  broadcasts : list sid;
  others : X;
}.
Arguments mkEpollEnv {X}.
Arguments epolls {X}.
Arguments broadcasts {X}.
Arguments others {X}.

Inductive epoll_op : Type := EPOLL_CTL_ADD | EPOLL_CTL_MOD | EPOLL_CTL_DEL | EPOLL_CTL_OTHER.

Section Epoll.
Context {X : Type}.
Abbreviation EpollSys := (Sys (EpollEnv X)).
Context (allowed : sid → bool).

Definition epoll_map (e : sid) : St EpollSys EPollMap := λ w,
  match epolls w.2 !! e with Some m => Done (m, w) | None => Abort end.

Definition put_map (e : sid) (m : EPollMap) : St EpollSys unit :=
  modify (λ w, (w.1, mkEpollEnv (<[e := m]> (epolls w.2)) (broadcasts w.2) (others w.2))).

(** [cond_.Broadcast()] *)
Definition cond_Broadcast (e : sid) : St EpollSys unit :=
  modify (λ w, (w.1, mkEpollEnv (epolls w.2) (broadcasts w.2 ++ [e]) (others w.2))).

Definition on_store {A} (m : St Streams A) : St EpollSys A := on_fds (on_streams m).

(** ** EPollStream *)

Definition epoll_ctl (op : epoll_op) (this file : sid) (event : EPollEntry) : St EpollSys (res Z) :=
  m ← epoll_map this;
  match op with
  | EPOLL_CTL_ADD =>
      let '(m, inserted) := insert (address file) event m in
      if negb inserted then mret (Err EEXIST)
      else
        put_map this m;;
        listening ← on_store (StartListeningTo this file);
        if negb (listening : bool) then mret (Err EPERM)
        else cond_Broadcast this;; mret (Ok 0)
  | EPOLL_CTL_MOD =>
      match find (address file) m with
      | None => mret (Err ENOENT)
      | Some _ =>
          put_map this (update (address file) event m);; cond_Broadcast this;; mret (Ok 0)
      end
  | EPOLL_CTL_DEL =>
      match find (address file) m with
      | None => mret (Err ENOENT)
      | Some _ =>
          put_map this (erase (address file) m);;
          on_store (StopListeningTo this file);;
          mret (Ok 0)
      end
  | EPOLL_CTL_OTHER => mret (Err EINVAL)
  end.

Definition HandleNotificationFrom (this file : sid) (is_closing : bool) : St EpollSys unit :=
  m ← epoll_map this;
  check (bool_decide (is_Some (find (address file) m)));;
  (if is_closing then put_map this (erase (address file) m) else mret tt);;
  cond_Broadcast this.

Definition OnLastFileRef (this : sid) : St EpollSys unit :=
  m ← epoll_map this;
  for_each (λ kv : Z * EPollEntry, on_store (StopListeningTo this (Z.to_nat kv.1))) m;;
  put_map this [].

(** ** Virtual calls *)

(** The class of the callee: [FileStream::HandleNotificationFrom] is fatal,
    [FileStream::OnLastFileRef] does nothing. *)
Definition dispatch (c : vcall) : St EpollSys unit :=
  w ← get;
  match c with
  | CallHandleNotificationFrom l file is_closing =>
      match epolls w.2 !! l with
      | Some _ => HandleNotificationFrom l file is_closing
      | None => fatal
      end
  | CallOnLastFileRef s =>
      match epolls w.2 !! s with Some _ => OnLastFileRef s | None => mret tt end
  end.

Definition dispatching {A} (m : St World A) : St EpollSys A :=
  w ← get;
  a ← on_fds m;
  w' ← get;
  for_each dispatch (drop (List.length (calls w.1.2)) (calls w'.1.2));;
  mret a.

(** ** The file system's calls *)

(** [new EPollStream(fd, flags)] at the address [s]. *)
Definition epoll_create1 (s : sid) (flags : Z) : St EpollSys (res Z) :=
  fd ← on_fds GetFirstUnusedDescriptorLocked;
  if fd <? 0 then mret (Err EMFILE)
  else
    on_store (set_object s (new_stream flags false));;
    put_map s [];;
    on_fds (AddFileStream fd (Some s));;
    mret (Ok fd).

(** The class of the stream: [FileStream::epoll_ctl] is EINVAL. *)
Definition stream_epoll_ctl (op : epoll_op) (event : EPollEntry) (this file : sid) :
    St EpollSys (res Z) :=
  w ← get;
  match epolls w.2 !! this with
  | Some _ => epoll_ctl op this file event
  | None => mret (Err EINVAL)
  end.

Definition sys_epoll_ctl (epfd : Z) (op : epoll_op) (fd : Z) (event : EPollEntry) :
    St EpollSys (res Z) :=
  vfs_epoll_ctl allowed (stream_epoll_ctl op event) epfd fd.

Definition sys_close (fd : Z) : St EpollSys (res Z) := dispatching (close allowed fd).

Definition sys_dup (fd : Z) : St EpollSys (res Z) := dispatching (dup allowed fd).

(** A stream whose readiness changes. *)
Definition notify (s : sid) : St EpollSys unit := dispatching (on_streams (NotifyListeners s)).

(** ** epoll_wait *)

Section Wait.
Context (GetPollEvents : sid → X → Z).
Context (Now : St EpollSys Z) (Wait : St EpollSys unit) (TimedWait : Z → St EpollSys unit).

(** The events that are found, at most [maxevents] of them. *)
Fixpoint collect (x : X) (m : EPollMap) (maxevents : nat) : list EPollEntry :=
  match m, maxevents with
  | [], _ | _, O => []
  | (k, entry) :: m, S n =>
      let event_mask := Z.lor (events_ entry) (Z.lor POLLERR (Z.lor POLLHUP POLLNVAL)) in
      let found_events := Z.land (GetPollEvents (Z.to_nat k) x) event_mask in
      if negb (found_events =? 0) then mkEPollEntry found_events (data_ entry) :: collect x m n
      else collect x m (S n)
  end.

Fixpoint epoll_loop (fuel : nat) (this : sid) (maxevents : nat) (time_limit : Z) (is_timedout : bool) :
    St EpollSys (res (list EPollEntry)) :=
  match fuel with
  | O => λ _, NoFuel
  | S fuel =>
      m ← epoll_map this;
      w ← get;
      let found := collect (others w.2) m maxevents in
      if is_timedout || negb (Nat.eqb (List.length found) 0) then mret (Ok found)
      else
        is_timedout ← WaitUntilInternal Now Wait TimedWait time_limit;
        epoll_loop fuel this maxevents time_limit is_timedout
  end.

Definition epoll_wait (fuel : nat) (this : sid) (events_null : bool) (maxevents timeout : Z) :
    St EpollSys (res (list EPollEntry)) :=
  if events_null then mret (Err EFAULT)
  else if maxevents <=? 0 then mret (Err EINVAL)
  else
    time_limit ← (if timeout <=? 0 then mret 0 else now ← Now; mret (now + timeout * 1000));
    epoll_loop fuel this (Z.to_nat maxevents) time_limit (timeout =? 0).

Definition sys_epoll_wait (fuel : nat) (epfd : Z) (events_null : bool) (maxevents timeout : Z) :
    St EpollSys (res (list EPollEntry)) :=
  stream ← on_fds (GetStream allowed epfd);
  match stream with
  | None => mret (Err EBADF)
  | Some s =>
      w ← get;
      match epolls w.2 !! s with
      | Some _ => epoll_wait fuel s events_null maxevents timeout
      | None => mret (Err EINVAL)
      end
  end.
End Wait.
End Epoll.

Abbreviation EpollSys X := (Sys (EpollEnv X)).

(** [read] and [write] of an [EPollStream]. *)
Definition epoll_read : res Z := Err EINVAL.
Definition epoll_write : res Z := Err EINVAL.
