(* ===== verification/EpollFacts.v ===== *)
(** * EpollFacts: the invariant of epoll streams

    An epoll stream and the streams it watches know of each other: the map of the
    one and the listeners of the others are the same relation, up to the entries of
    streams that cannot be listened to ([epoll_ok]).  Every call runs in such a
    state and leaves one; the lemmas also say how it changes the interests. *)

From S2P Require Import Prelude OrderedMap Util FileStream FdMap VfsFds Epoll.
Import Refs OrderedMap OrderedMapFacts.

#[local] Open Scope Z_scope.

(** ** Loops *)

Lemma for_each_app_run {S A} (body : A → St S unit) xs ys w w1 :
  for_each body xs w = Done (tt, w1) → for_each body (xs ++ ys) w = for_each body ys w1.
Proof. intros Hxs. rewrite for_each_app. by run_with Hxs. Qed.

Lemma address_nat s : Z.to_nat (address s) = s.
Proof. apply Nat2Z.id. Qed.

#[export] Instance address_inj : Inj (=) (=) address.
Proof. intros x y. unfold address. lia. Qed.

Section Facts.
Context {X : Type}.
Implicit Types w : EpollSys X.

Definition interest w (e s : sid) : option EPollEntry := epolls w.2 !! e ≫= find (address s).

(** [is_listening_enabled_] and [listeners_] of a stream, and whether it has one
    reference left. *)
Definition listenable w (s : sid) : bool :=
  match objects w.1.2 !! s with Some f => is_listening_enabled_ f | None => false end.

Definition last_reference w (s : sid) : bool :=
  match objects w.1.2 !! s with Some f => file_ref_count_ f =? 1 | None => false end.

Definition listening w (e s : sid) : Prop := ∃ f, objects w.1.2 !! s = Some f ∧ e ∈ listeners_ f.

Record map_ok w (m : EPollMap) : Prop := {
  mo_sorted : strict_keys m;
  mo_alive : Forall (λ kv, ∃ s, kv.1 = address s ∧ is_Some (objects w.1.2 !! s)) m;
}.

Record epoll_ok extra allowed w : Prop := {
  eo_fds : fds_ok extra allowed w.1;
  eo_maps : ∀ e m, epolls w.2 !! e = Some m → map_ok w m;
  eo_epoll : ∀ e m, epolls w.2 !! e = Some m →
    ∃ f, objects w.1.2 !! e = Some f ∧ is_listening_enabled_ f = false ∧ (IsClosed f = true → m = []);
  eo_mutual : ∀ e s, listening w e s ↔ listenable w s = true ∧ is_Some (interest w e s);
  eo_closed : ∀ s f, objects w.1.2 !! s = Some f → IsClosed f = true → listeners_ f = ∅;
}.

Definition env_with (env : EpollEnv X) ep bc : EpollEnv X := mkEpollEnv ep bc (others env).

(** ** Invocations of listeners *)

(** [s] leaves the maps of [L]. *)
Definition forget (s : sid) (L : list sid) (ep : gmap sid EPollMap) : gmap sid EPollMap :=
  foldl (λ ep l, alter (erase (address s)) l ep) ep L.

Lemma lookup_forget s L ep e :
  NoDup L → forget s L ep !! e = (λ m, if decide (e ∈ L) then erase (address s) m else m) <$> ep !! e.
Proof.
  unfold forget. revert ep. induction L as [|l L IH]; intros ep Hnd; cbn [foldl].
  { destruct (ep !! e); [|done]. cbn [fmap option_fmap option_map]. by rewrite decide_False by apply not_elem_of_nil. }
  apply NoDup_cons in Hnd as [Hl Hnd]. rewrite IH by done. rewrite lookup_alter.
  destruct (decide (l = e)) as [->|Hne]; destruct (ep !! e); cbn [fmap option_fmap option_map]; try done.
  - rewrite (decide_False (P := e ∈ L)), (decide_True (P := e ∈ e :: L)) by (done || by left). done.
  - destruct (decide (e ∈ L)); [rewrite decide_True by (by right); done|].
    rewrite decide_False; [done|]. intros [?|?]%elem_of_cons; congruence.
Qed.

Lemma alter_there (s : sid) (l : sid) (m : EPollMap) (ep : gmap sid EPollMap) :
  ep !! l = Some m → <[l := erase (address s) m]> ep = alter (erase (address s)) l ep.
Proof.
  intros H. apply map_eq. intros e. rewrite lookup_alter, lookup_insert. case_decide; [|done].
  subst. by rewrite H.
Qed.

Lemma dispatch_notifications s closing L t (st : Streams) (env : EpollEnv X) :
  NoDup L → (∀ l, l ∈ L → is_Some (epolls env !! l ≫= find (address s))) →
  for_each dispatch (map (λ l, CallHandleNotificationFrom l s closing) L) ((t, st), env) =
  Done (tt, ((t, st), env_with env (if closing : bool then forget s L (epolls env) else epolls env)
                        (broadcasts env ++ L))).
Proof.
  revert env. induction L as [|l L IH]; intros env Hnd HL.
  { cbn. unfold mret, St_ret. rewrite app_nil_r. by destruct env, closing. }
  apply NoDup_cons in Hnd as [Hl Hnd].
  destruct (HL l) as [v Hv]; [by left|]. destruct (epolls env !! l) as [m|] eqn:Em; [|done]. cbn in Hv.
  cbn [map for_each].
  set (env1 := env_with env (if closing then alter (erase (address s)) l (epolls env) else epolls env)
                 (broadcasts env ++ [l])).
  rewrite (St_bind_run _ _ ((t, st), env) tt ((t, st), env1)).
  - subst env1. rewrite IH; [|done|].
    + unfold env_with. cbn [broadcasts epolls others]. rewrite <-app_assoc. by destruct closing.
    + intros x Hx. cbn [env_with epolls]. destruct closing; [|apply HL; by right].
      rewrite lookup_alter_ne by congruence. apply HL. by right.
  - unfold dispatch, get, mbind, St_bind. cbn [fst snd]. rewrite Em. unfold HandleNotificationFrom, epoll_map, mbind, St_bind. cbn [fst snd].
    rewrite Em. unfold check. rewrite bool_decide_true by by rewrite Hv.
    subst env1. destruct closing; [|done]. unfold put_map, modify, cond_Broadcast, env_with.
    cbn [fst snd epolls broadcasts others]. by rewrite alter_there.
Qed.

(** ** The end of an epoll stream *)

Definition deaf (e : sid) (f : FileStream) : FileStream := set_listeners (listeners_ f ∖ {[e]}) f.

Lemma deaf_twice e f : deaf e (deaf e f) = deaf e f.
Proof. unfold deaf, set_listeners. cbn. f_equal. set_solver. Qed.

Definition unlisten (e : sid) (m : EPollMap) (o : gmap sid FileStream) : gmap sid FileStream :=
  foldl (λ o kv, alter (deaf e) (Z.to_nat kv.1) o) o m.

Lemma lookup_unlisten e (m : EPollMap) o x :
  (∀ kv, kv ∈ m → 0 <= kv.1) →
  unlisten e m o !! x = (λ f, if decide (address x ∈ m.*1) then deaf e f else f) <$> o !! x.
Proof.
  unfold unlisten. revert o. induction m as [|[k v] m IH]; intros o Hm; cbn [foldl].
  { destruct (o !! x); [|done]. cbn [fmap option_fmap option_map]. by rewrite decide_False by apply not_elem_of_nil. }
  assert (0 <= k) by (apply (Hm (k, v)); by left).
  rewrite IH by (intros; apply Hm; by right). cbn [fst]. rewrite lookup_alter.
  rewrite fmap_cons. cbn [fst].
  destruct (decide (Z.to_nat k = x)) as [<-|Hne].
  - destruct (o !! Z.to_nat k) as [f|]; [|done]. cbn [fmap option_fmap option_map].
    assert (address (Z.to_nat k) = k) as -> by (unfold address; lia).
    rewrite (decide_True (P := k ∈ k :: _)) by by left. destruct (decide (k ∈ m.*1)); by rewrite ?deaf_twice.
  - destruct (o !! x); [|done]. cbn [fmap option_fmap option_map].
    assert (address x ≠ k) by (unfold address; lia).
    destruct (decide (address x ∈ m.*1)); [by rewrite decide_True by (by right)|].
    rewrite decide_False; [done|]. intros [?|?]%elem_of_cons; congruence.
Qed.

Lemma stop_listening_all e (m : EPollMap) t (st : Streams) (env : EpollEnv X) :
  Forall (λ kv, ∃ s, kv.1 = address s ∧ is_Some (objects st !! s)) m →
  for_each (λ kv : Z * EPollEntry, on_store (StopListeningTo e (Z.to_nat kv.1))) m ((t, st), env) =
  Done (tt, ((t, mkStreams (unlisten e m (objects st)) (calls st)), env)).
Proof.
  revert st. induction m as [|[k v] m IH]; intros st Hm; cbn [for_each]; [by destruct st|].
  apply Forall_cons in Hm as [(s & Hk & [f Hf]) Hm]. cbn [fst] in *. subst k.
  rewrite (St_bind_run _ _ _ tt ((t, mkStreams (alter (deaf e) s (objects st)) (calls st)), env)).
  - rewrite IH.
    + cbn [objects calls unlisten foldl fst]. by rewrite address_nat.
    + eapply Forall_impl; [exact Hm|]. intros kv (x & Hx & Hs). exists x. split; [done|]. cbn [objects].
      rewrite lookup_alter. case_decide; [|done]. subst. by rewrite Hf.
  - rewrite address_nat. unfold on_store, on_fds, on_streams, StopListeningTo, deref, set_object, modify, mbind, St_bind.
    cbn [fst snd]. rewrite Hf. do 5 f_equal. apply map_eq. intros x. rewrite lookup_alter, lookup_insert.
    case_decide; [|done]. subst. by rewrite Hf.
Qed.

(** ** Keeping the invariant *)

Definition refs_of (f : FileStream) : Z * bool := (file_ref_count_ f, had_file_refs_ f).

Lemma fds_ok_same_refs extra allowed t (st : Streams) o c :
  fds_ok extra allowed (t, st) → (∀ x, refs_of <$> o !! x = refs_of <$> objects st !! x) →
  fds_ok extra allowed (t, mkStreams o c).
Proof.
  intros [Ht Hr Ha] Ho. split; [done| |done]. cbn [fst snd] in *.
  assert (∀ x, is_Some (objects st !! x) → is_Some (o !! x)) as Halive.
  { intros x Hx. apply (fmap_is_Some refs_of). rewrite Ho. by apply fmap_is_Some. }
  split; cbn [objects].
  - intros fd x Hx. by eapply Halive, ok_alive.
  - intros x. destruct (ok_extra _ _ _ Hr x) as [H1 H2]. split; [done|]. intros Hx. by apply Halive, H2.
  - intros x f Hf. specialize (Ho x). rewrite Hf in Ho. destruct (objects st !! x) as [g|] eqn:Hg; [|done].
    injection Ho as H1 H2. rewrite H1, H2. by apply (ok_count _ _ _ Hr).
Qed.

Lemma listenable_some w s : listenable w s = true ↔ ∃ f, objects w.1.2 !! s = Some f ∧ is_listening_enabled_ f = true.
Proof. unfold listenable. destruct (objects w.1.2 !! s); naive_solver. Qed.

(** A stream may change its references, when an epoll stream that gets closed has
    an empty map. *)
Lemma epoll_ok_refs extra allowed (w : EpollSys X) t s f f' c :
  epoll_ok extra allowed w → objects w.1.2 !! s = Some f →
  is_listening_enabled_ f' = is_listening_enabled_ f → listeners_ f' = listeners_ f →
  (IsClosed f' = true → IsClosed f = true) →
  fds_ok extra allowed (t, mkStreams (<[s := f']> (objects w.1.2)) c) →
  epoll_ok extra allowed ((t, mkStreams (<[s := f']> (objects w.1.2)) c), w.2).
Proof.
  intros Hw Hf He Hl Hc Hfds.
  assert (∀ x, listenable ((t, mkStreams (<[s := f']> (objects w.1.2)) c), w.2) x = listenable w x) as Hen.
  { intros x. unfold listenable. cbn [fst snd objects]. rewrite lookup_insert. case_decide; [|done].
    subst. by rewrite Hf. }
  split; [done| | | |]; cbn [fst snd].
  - intros e m Hm. destruct (eo_maps _ _ _ Hw e m Hm) as [Hs Ha]. split; [done|].
    eapply Forall_impl; [exact Ha|]. intros kv (x & Hx & Ho). exists x. split; [done|]. cbn [fst snd objects].
    rewrite lookup_insert. case_decide; eauto.
  - intros e m Hm. destruct (eo_epoll _ _ _ Hw e m Hm) as (g & Hg & H1 & H2). cbn [objects].
    rewrite lookup_insert. case_decide; [|by exists g]. subst. rewrite Hf in Hg. injection Hg as <-.
    exists f'. split; [done|]. split; [congruence|]. auto.
  - intros e x. rewrite Hen. etrans; [|apply (eo_mutual _ _ _ Hw)]. unfold listening. cbn [fst snd objects].
    rewrite lookup_insert. case_decide; [|done]. subst. rewrite Hf. split; intros (g & Hx & Hg); injection Hx as <-; eexists; split; eauto; congruence.
  - intros x g. cbn [objects]. rewrite lookup_insert. case_decide; [|apply (eo_closed _ _ _ Hw)].
    intros [= <-] Hcl. rewrite Hl. by apply (eo_closed _ _ _ Hw s), Hc.
Qed.

(** An entry for [s] in the map of [e] and the listeners of [s] change together. *)
Lemma epoll_ok_entry extra allowed (w : EpollSys X) e m m' v s f L bc :
  epoll_ok extra allowed w → epolls w.2 !! e = Some m → open_ok w.1.2 e → objects w.1.2 !! s = Some f →
  IsClosed f = false → strict_keys m' → (∀ j, find j m' = if decide (j = address s) then v else find j m) →
  (∀ x, x ∈ L ↔ if decide (x = e) then is_listening_enabled_ f = true ∧ is_Some v else x ∈ listeners_ f) →
  let w' := ((w.1.1, mkStreams (<[s := set_listeners L f]> (objects w.1.2)) (calls w.1.2)),
             env_with w.2 (<[e := m']> (epolls w.2)) bc) in
  epoll_ok extra allowed w' ∧
  ∀ d x, interest w' d x = if decide (d = e ∧ x = s) then v else interest w d x.
Proof.
  intros Hw Hm (fe & Hfe & Hopen) Hf Hcl Hs Hfind HL w'.
  assert (∀ d x, interest w' d x = if decide (d = e ∧ x = s) then v else interest w d x) as Hint.
  { intros d x. unfold interest. subst w'. cbn [snd env_with epolls]. rewrite lookup_insert.
    destruct (decide (e = d)) as [->|Hne].
    - rewrite Hm. cbn. rewrite Hfind. destruct (decide (x = s)) as [->|Hx].
      + by rewrite !decide_True by done.
      + rewrite (decide_False (P := address x = _)), (decide_False (P := _ ∧ _)); [done|naive_solver|].
        by intros ?%(inj address).
    - by rewrite decide_False by naive_solver. }
  split; [|done].
  assert (∀ x, is_Some (objects w.1.2 !! x) → is_Some (objects w'.1.2 !! x)) as Halive.
  { intros x Hx. subst w'. cbn [fst snd objects]. rewrite lookup_insert. case_decide; eauto. }
  assert (∀ x, listenable w' x = listenable w x) as Hen.
  { intros x. unfold listenable. subst w'. cbn [fst snd objects]. rewrite lookup_insert. case_decide; [|done].
    subst. by rewrite Hf. }
  split.
  - subst w'. cbn [fst]. pose proof (eo_fds _ _ _ Hw) as Hfds. rewrite (surjective_pairing w.1) in Hfds.
    apply (fds_ok_same_refs _ _ _ _ _ _ Hfds). intros x. rewrite lookup_insert. case_decide; [|done].
    subst. by rewrite Hf.
  - intros d md. subst w'. cbn [snd env_with epolls]. rewrite lookup_insert. case_decide.
    + intros [= <-]. split; [done|]. apply Forall_forall. intros [k u] Hk. cbn [fst].
      apply (find_elem k u m' Hs) in Hk. rewrite Hfind in Hk. case_decide as Ek; [subst k; eauto|].
      destruct (eo_maps _ _ _ Hw e m Hm) as [Hs0 Ha]. apply (find_elem k u m Hs0) in Hk.
      rewrite Forall_forall in Ha. destruct (Ha _ Hk) as (x & Hx & Ho). eauto.
    + intros Hd. destruct (eo_maps _ _ _ Hw d md Hd) as [Hs0 Ha]. split; [done|].
      eapply Forall_impl; [exact Ha|]. intros kv (x & Hx & Ho). eauto.
  - intros d md. intros Hd. assert (∃ md0, epolls w.2 !! d = Some md0 ∧ (d = e ∨ md0 = md)) as [md0 [Hd0 Hmd]].
    { subst w'. cbn [snd env_with epolls] in Hd. rewrite lookup_insert in Hd. case_decide; [subst; eauto|eauto]. }
    destruct (eo_epoll _ _ _ Hw d md0 Hd0) as (g & Hg & H1 & H2).
    assert (∃ g', objects w'.1.2 !! d = Some g' ∧ is_listening_enabled_ g' = false ∧ IsClosed g' = IsClosed g) as (g' & Hg' & H1' & H2').
    { subst w'. cbn [fst snd objects]. rewrite lookup_insert. case_decide; [|eauto]. subst. rewrite Hf in Hg.
      injection Hg as <-. eexists. split; [done|]. by split. }
    exists g'. split; [done|]. split; [done|]. rewrite H2'. destruct Hmd as [-> | ->]; [|done].
    rewrite Hfe in Hg. injection Hg as <-. by rewrite Hopen.
  - intros d x. rewrite Hen, Hint. unfold listening. subst w'. cbn [fst snd objects]. rewrite lookup_insert.
    pose proof (eo_mutual _ _ _ Hw d x) as Hmut. unfold listening, listenable in *.
    destruct (decide (s = x)) as [<-|Hne].
    + rewrite Hf in *. destruct (decide (d = e)) as [->|Hde].
      * rewrite decide_True by done. specialize (HL e). rewrite decide_True in HL by done. naive_solver.
      * rewrite decide_False by naive_solver. specialize (HL d). rewrite decide_False in HL by done. naive_solver.
    + by rewrite decide_False by naive_solver.
  - intros x g. subst w'. cbn [fst snd objects]. rewrite lookup_insert. case_decide; [|apply (eo_closed _ _ _ Hw)].
    intros [= <-]. change (IsClosed (set_listeners L f)) with (IsClosed f). by rewrite Hcl.
Qed.

(** ** epoll_ctl *)

(** Only the interest of [e] in [s] changes. *)
Definition interest_set w w' (e s : sid) (v : option EPollEntry) : Prop :=
  ∀ d x, interest w' d x = if decide (d = e ∧ x = s) then v else interest w d x.

Definition ctl_report w e s op event (r : res Z) w' : Prop :=
  streams_ w'.1.1 = streams_ w.1.1 ∧ (∀ x, listenable w' x = listenable w x) ∧
  match op, interest w e s with
  | EPOLL_CTL_ADD, Some _ => r = Err EEXIST ∧ w' = w
  | EPOLL_CTL_ADD, None =>
      interest_set w w' e s (Some event) ∧
      if listenable w s then r = Ok 0 ∧ broadcasts w'.2 = broadcasts w.2 ++ [e]
      else r = Err EPERM ∧ broadcasts w'.2 = broadcasts w.2
  | EPOLL_CTL_MOD, Some _ =>
      interest_set w w' e s (Some event) ∧ r = Ok 0 ∧ broadcasts w'.2 = broadcasts w.2 ++ [e]
  | EPOLL_CTL_DEL, Some _ =>
      interest_set w w' e s None ∧ r = Ok 0 ∧ broadcasts w'.2 = broadcasts w.2
  | EPOLL_CTL_MOD, None | EPOLL_CTL_DEL, None => r = Err ENOENT ∧ w' = w
  | EPOLL_CTL_OTHER, _ => r = Err EINVAL ∧ w' = w
  end.

Lemma set_listeners_same f : set_listeners (listeners_ f) f = f.
Proof. by destruct f. Qed.

Lemma erase_spec {V} k (p : list (Z * V)) :
  strict_keys p → strict_keys (erase k p) ∧ ∀ j, find j (erase k p) = if decide (j = k) then None else find j p.
Proof.
  induction 1 as [|[x u] p Hp [IH1 IH2] Hx]; cbn [erase find].
  { split; [constructor|]. intros j. by destruct (decide (j = k)). }
  destruct (Z.eqb_spec x k) as [->|Hne].
  - split; [done|]. intros j. destruct (decide (j = k)) as [->|Hj]; [by apply find_lower|].
    destruct (Z.eqb_spec k j); [congruence|done].
  - split.
    + constructor; [done|]. rewrite Forall_forall in Hx |- *. intros [y v] Hy.
      apply Hx. apply (find_elem y v _ IH1) in Hy. rewrite IH2 in Hy. case_decide; [done|]. by apply (find_elem y v p Hp).
    + intros j. cbn [find]. rewrite IH2. destruct (Z.eqb_spec x j), (decide (j = k)); congruence.
Qed.

Section Ctl.
Context (extra : sid → Z) (allowed : sid → bool) (w : EpollSys X) (e s : sid) (m : EPollMap) (f : FileStream).
Context (Hw : epoll_ok extra allowed w) (Hm : epolls w.2 !! e = Some m) (He : open_ok w.1.2 e).
Context (Hf : objects w.1.2 !! s = Some f) (Hc : IsClosed f = false).

Let Hs : strict_keys m := mo_sorted _ _ (eo_maps _ _ _ Hw e m Hm).

Lemma ctl_interest : interest w e s = find (address s) m.
Proof. unfold interest. by rewrite Hm. Qed.

Lemma ctl_listens : e ∈ listeners_ f ↔ is_listening_enabled_ f = true ∧ is_Some (find (address s) m).
Proof.
  rewrite <-ctl_interest. pose proof (eo_mutual _ _ _ Hw e s) as Hmut.
  unfold listening, listenable in Hmut. rewrite Hf in Hmut. naive_solver.
Qed.

(** The state after [m'] becomes the map and [L] the listeners. *)
Definition entered (m' : EPollMap) (L : gset sid) (bc : list sid) : EpollSys X :=
  ((w.1.1, mkStreams (<[s := set_listeners L f]> (objects w.1.2)) (calls w.1.2)),
   env_with w.2 (<[e := m']> (epolls w.2)) bc).

Lemma entered_ok m' v L bc :
  strict_keys m' → (∀ j, find j m' = if decide (j = address s) then v else find j m) →
  (e ∈ L ↔ is_listening_enabled_ f = true ∧ is_Some v) → (∀ x, x ≠ e → x ∈ L ↔ x ∈ listeners_ f) →
  epoll_ok extra allowed (entered m' L bc) ∧ interest_set w (entered m' L bc) e s v ∧
  (∀ x, listenable (entered m' L bc) x = listenable w x).
Proof.
  intros Hs' Hfind HL1 HL2.
  destruct (epoll_ok_entry extra allowed w e m m' v s f L bc Hw Hm He Hf Hc Hs' Hfind) as [H1 H2].
  - intros x. destruct (decide (x = e)) as [->|]; [done|by apply HL2].
  - split; [done|]. split; [done|]. intros x. unfold listenable, entered. cbn [fst snd objects].
    rewrite lookup_insert. case_decide; [|done]. subst. by rewrite Hf.
Qed.

(** When the listeners stay. *)
Lemma entered_same m' bc : entered m' (listeners_ f) bc = (w.1, env_with w.2 (<[e := m']> (epolls w.2)) bc).
Proof.
  unfold entered. rewrite set_listeners_same, insert_id by done. by destruct w as [[t [o c]] env].
Qed.

Lemma start_listening_run ep bc :
  on_store (StartListeningTo e s) (w.1, env_with w.2 ep bc) =
  if is_listening_enabled_ f then
    if decide (e ∈ listeners_ f) then Abort
    else Done (true, ((w.1.1, mkStreams (<[s := set_listeners ({[e]} ∪ listeners_ f) f]> (objects w.1.2)) (calls w.1.2)),
                      env_with w.2 ep bc))
  else Done (false, (w.1, env_with w.2 ep bc)).
Proof.
  destruct He as (fe & Hfe & Hce).
  unfold on_store, on_fds, on_streams, StartListeningTo, CheckNotClosed, deref, check, set_object, modify, mbind, St_bind.
  cbn [fst snd]. rewrite Hf. destruct (is_listening_enabled_ f); cbn [negb].
  - rewrite Hfe, Hce. cbn [negb]. rewrite Hf, Hc. cbn [negb].
    destruct (decide (e ∈ listeners_ f)); [by rewrite bool_decide_false by tauto|by rewrite bool_decide_true].
  - by destruct w as [[t st] env].
Qed.

Lemma ctl_add event :
  find (address s) m = None →
  ∃ r w', epoll_ctl EPOLL_CTL_ADD e s event w = Done (r, w') ∧ epoll_ok extra allowed w' ∧
    ctl_report w e s EPOLL_CTL_ADD event r w'.
Proof.
  intros Hn. destruct (insert_spec (address s) event m Hs) as (Hs' & Hb & Hfind). rewrite Hn in Hfind, Hb.
  unfold epoll_ctl. rewrite (St_bind_run (epoll_map e) _ w m w) by (unfold epoll_map; by rewrite Hm).
  destruct (insert (address s) event m) as [m' b] eqn:Em. cbn [fst snd] in *. subst b.
  rewrite bool_decide_true by done. cbn [negb].
  rewrite (St_bind_run _ _ w tt (w.1, env_with w.2 (<[e := m']> (epolls w.2)) (broadcasts w.2))) by done.
  unfold mbind at 1, St_bind at 1. rewrite start_listening_run.
  unfold ctl_report. rewrite ctl_interest, Hn. unfold listenable at 3. rewrite Hf.
  pose proof ctl_listens as Hl. rewrite Hn in Hl.
  destruct (is_listening_enabled_ f) eqn:El.
  - rewrite decide_False by naive_solver. cbn [negb].
    destruct (entered_ok m' (Some event) ({[e]} ∪ listeners_ f) (broadcasts w.2 ++ [e])) as (H1 & H2 & H3);
      [done|exact Hfind|set_solver|set_solver|].
    exists (Ok 0), (entered m' ({[e]} ∪ listeners_ f) (broadcasts w.2 ++ [e])). done.
  - cbn [negb]. destruct (entered_ok m' (Some event) (listeners_ f) (broadcasts w.2)) as (H1 & H2 & H3);
      [done|exact Hfind|split; [intros [? _]%Hl; congruence|intros [? _]; congruence]|done|].
    exists (Err EPERM), (entered m' (listeners_ f) (broadcasts w.2)). split; [by rewrite entered_same|done].
Qed.

Lemma ctl_mod event v :
  find (address s) m = Some v →
  ∃ r w', epoll_ctl EPOLL_CTL_MOD e s event w = Done (r, w') ∧ epoll_ok extra allowed w' ∧
    ctl_report w e s EPOLL_CTL_MOD event r w'.
Proof.
  intros Hv. destruct (update_spec (address s) event m Hs) as (Hs' & Hfind). rewrite Hv in Hfind.
  unfold epoll_ctl. rewrite (St_bind_run (epoll_map e) _ w m w) by (unfold epoll_map; by rewrite Hm).
  unfold ctl_report. rewrite ctl_interest, Hv. pose proof ctl_listens as Hl. rewrite Hv in Hl.
  destruct (entered_ok (update (address s) event m) (Some event) (listeners_ f) (broadcasts w.2 ++ [e])) as (H1 & H2 & H3);
    [done|exact Hfind|naive_solver|done|].
  exists (Ok 0), (entered (update (address s) event m) (listeners_ f) (broadcasts w.2 ++ [e])).
  split; [by rewrite entered_same|done].
Qed.

Lemma ctl_del event v :
  find (address s) m = Some v →
  ∃ r w', epoll_ctl EPOLL_CTL_DEL e s event w = Done (r, w') ∧ epoll_ok extra allowed w' ∧
    ctl_report w e s EPOLL_CTL_DEL event r w'.
Proof.
  intros Hv. destruct (erase_spec (address s) m Hs) as (Hs' & Hfind).
  unfold epoll_ctl. rewrite (St_bind_run (epoll_map e) _ w m w) by (unfold epoll_map; by rewrite Hm).
  unfold ctl_report. rewrite ctl_interest, Hv.
  destruct (entered_ok (erase (address s) m) None (listeners_ f ∖ {[e]}) (broadcasts w.2)) as (H1 & H2 & H3);
    [done|exact Hfind| |set_solver|].
  { split; [set_solver|]. by intros [_ [??]]. }
  exists (Ok 0), (entered (erase (address s) m) (listeners_ f ∖ {[e]}) (broadcasts w.2)). split; [|done].
  rewrite (St_bind_run _ _ w tt (w.1, env_with w.2 (<[e := erase (address s) m]> (epolls w.2)) (broadcasts w.2))) by done.
  unfold on_store, on_fds, on_streams, StopListeningTo, deref, set_object, modify, mbind, St_bind.
  cbn [fst snd]. by rewrite Hf.
Qed.
End Ctl.

Lemma epoll_ctl_run extra allowed (w : EpollSys X) e s op event :
  epoll_ok extra allowed w → is_Some (epolls w.2 !! e) → open_ok w.1.2 e → open_ok w.1.2 s →
  ∃ r w', epoll_ctl op e s event w = Done (r, w') ∧ epoll_ok extra allowed w' ∧ ctl_report w e s op event r w'.
Proof.
  intros Hw [m Hm] He (f & Hf & Hc).
  pose proof (ctl_interest w e s m Hm) as Hint.
  destruct op, (find (address s) m) as [v|] eqn:Ev;
    eauto using ctl_add, ctl_mod, ctl_del;
    unfold epoll_ctl, ctl_report; rewrite ?Hint;
    rewrite (St_bind_run (epoll_map e) _ w m w) by (unfold epoll_map; by rewrite Hm);
    rewrite ?Ev.
  - destruct (insert_spec (address s) event m (mo_sorted _ _ (eo_maps _ _ _ Hw e m Hm))) as (_ & Hb & _).
    rewrite Ev in Hb. destruct (insert (address s) event m) as [m' b]. cbn in Hb. subst b. by exists (Err EEXIST), w.
  - by exists (Err ENOENT), w.
  - by exists (Err ENOENT), w.
  - by exists (Err EINVAL), w.
  - by exists (Err EINVAL), w.
Qed.

(** ** The end of a stream *)

Definition closed_object (f : FileStream) : FileStream :=
  set_listeners ∅ (set_count (file_ref_count_ f - 1) true f).

Section LastReference.
Context (extra : sid → Z) (allowed : sid → bool) (w : EpollSys X) (s : sid) (f : FileStream) (t : FdToFileStreamMap).
Context (Hw : epoll_ok extra allowed w) (Hf : objects w.1.2 !! s = Some f).
Lemma listeners_of x : x ∈ listeners_ f ↔ is_listening_enabled_ f = true ∧ is_Some (interest w x s).
Proof.
  pose proof (eo_mutual _ _ _ Hw x s) as Hmut. unfold listening, listenable in Hmut.
  rewrite Hf in Hmut. naive_solver.
Qed.

Let o1 : gmap sid FileStream := <[s := closed_object f]> (objects w.1.2).
Context (Hfds : ∀ c, fds_ok extra allowed (t, mkStreams o1 c)).

Lemma alive_after x : is_Some (objects w.1.2 !! x) → is_Some (o1 !! x).
Proof. subst o1. rewrite lookup_insert. case_decide; eauto. Qed.

Lemma listenable_after (o : gmap sid FileStream) c env x :
  (∀ y, is_listening_enabled_ <$> o !! y = is_listening_enabled_ <$> objects w.1.2 !! y) →
  listenable ((t, mkStreams o c), env) x = listenable w x.
Proof.
  intros Ho. specialize (Ho x). unfold listenable. cbn [fst snd objects].
  destruct (o !! x), (objects w.1.2 !! x); simplify_eq/=; congruence.
Qed.

Lemma enabled_after y : is_listening_enabled_ <$> o1 !! y = is_listening_enabled_ <$> objects w.1.2 !! y.
Proof. subst o1. rewrite lookup_insert. case_decide; [|done]. subst. by rewrite Hf. Qed.

(** A stream that is not an epoll stream leaves the maps of its listeners. *)
Lemma watched_stream_ends c bc :
  epolls w.2 !! s = None →
  let w' := ((t, mkStreams o1 c), env_with w.2 (forget s (elements (listeners_ f)) (epolls w.2)) bc) in
  epoll_ok extra allowed w' ∧
  ∀ e x, interest w' e x = if decide (x = s ∧ is_listening_enabled_ f = true) then None else interest w e x.
Proof.
  intros Hns w'.
  assert (∀ e, epolls w'.2 !! e = (λ m, if decide (e ∈ listeners_ f) then erase (address s) m else m) <$> epolls w.2 !! e) as Hep.
  { intros e. subst w'. cbn [snd env_with epolls]. rewrite lookup_forget by apply NoDup_elements.
    destruct (epolls w.2 !! e); [|done]. cbn [fmap option_fmap option_map].
    destruct (decide (e ∈ listeners_ f)); [rewrite decide_True by (by apply elem_of_elements)|
      rewrite decide_False by (by rewrite elem_of_elements)]; done. }
  assert (∀ e x, interest w' e x = if decide (x = s ∧ is_listening_enabled_ f = true) then None else interest w e x) as Hint.
  { intros e x. unfold interest at 1. rewrite Hep. pose proof (listeners_of e) as Hl. unfold interest in *.
    destruct (epolls w.2 !! e) as [m|] eqn:Em; cbn; [|by case_decide].
    destruct (erase_spec (address s) m (mo_sorted _ _ (eo_maps _ _ _ Hw e m Em))) as [_ Hfind]. cbn in Hl.
    destruct (decide (e ∈ listeners_ f)) as [Hin|Hin].
    - rewrite Hfind. destruct (decide (x = s)) as [->|Hx].
      + rewrite !decide_True; [done| |done]. split; [done|]. by apply Hl.
      + rewrite (decide_False (P := address x = _)), decide_False; [done|naive_solver|by intros ?%(inj address)].
    - destruct (decide (x = s ∧ is_listening_enabled_ f = true)) as [[-> He]|]; [|done].
      destruct (find (address s) m); [|done]. by destruct Hin; apply Hl. }
  split; [|done]. split.
  - apply Hfds.
  - intros e m'. rewrite Hep. destruct (epolls w.2 !! e) as [m|] eqn:Em; [|done]. cbn. intros [= <-].
    destruct (eo_maps _ _ _ Hw e m Em) as [Hs Ha]. destruct (erase_spec (address s) m Hs) as [Hs' Hfind].
    assert (map_ok w' m) as Hm.
    { split; [done|]. eapply Forall_impl; [exact Ha|]. intros kv (x & Hx & Ho). exists x. split; [done|]. by apply alive_after. }
    destruct (decide (e ∈ listeners_ f)); [|exact Hm]. split; [done|]. apply Forall_forall. intros [k v] Hk.
    apply (find_elem k v _ Hs') in Hk. rewrite Hfind in Hk. case_decide; [done|].
    apply (find_elem k v m Hs) in Hk. pose proof (mo_alive _ _ Hm) as Ha'. rewrite Forall_forall in Ha'. by apply (Ha' (k, v)).
  - intros e m'. rewrite Hep. destruct (epolls w.2 !! e) as [m|] eqn:Em; [|done]. cbn. intros [= <-].
    destruct (eo_epoll _ _ _ Hw e m Em) as (g & Hg & H1 & H2). exists g.
    assert (s ≠ e) by congruence. subst w' o1. cbn [fst snd objects]. rewrite lookup_insert_ne by done.
    split; [done|]. split; [done|]. intros ->%H2. by destruct (decide (e ∈ listeners_ f)).
  - intros e x. rewrite Hint. subst w'. rewrite listenable_after by apply enabled_after.
    pose proof (eo_mutual _ _ _ Hw e x) as Hmut. unfold listening in *. cbn [fst snd objects]. subst o1.
    rewrite lookup_insert. destruct (decide (s = x)) as [<-|Hne].
    + unfold listenable in *. rewrite Hf in *. split; [intros (g & [= <-] & Hg); cbn in Hg; set_solver|].
      intros [He Hi]. rewrite decide_True in Hi by done. by destruct Hi.
    + by rewrite decide_False by naive_solver.
  - intros x g. subst w' o1. cbn [fst snd objects]. rewrite lookup_insert.
    destruct (decide (s = x)); [intros Hg _; by injection Hg as <-|].
    apply (eo_closed _ _ _ Hw).
Qed.

(** An epoll stream stops listening to the streams of its map. *)
Lemma epoll_stream_ends m c bc :
  epolls w.2 !! s = Some m →
  let w' := ((t, mkStreams (unlisten s m o1) c), env_with w.2 (<[s := []]> (epolls w.2)) bc) in
  epoll_ok extra allowed w' ∧
  ∀ e x, interest w' e x = if decide (e = s) then None else interest w e x.
Proof.
  intros Hm w'. destruct (eo_maps _ _ _ Hw s m Hm) as [Hs Ha].
  destruct (eo_epoll _ _ _ Hw s m Hm) as (g & Hg & He & _). rewrite Hf in Hg. injection Hg as <-.
  assert (∀ x, unlisten s m o1 !! x = (λ f, if decide (address x ∈ m.*1) then deaf s f else f) <$> o1 !! x) as Hun.
  { intros x. apply lookup_unlisten. intros kv Hkv. rewrite Forall_forall in Ha. destruct (Ha kv Hkv) as (y & -> & _).
    unfold address. lia. }
  assert (∀ e x, interest w' e x = if decide (e = s) then None else interest w e x) as Hint.
  { intros e x. unfold interest. subst w'. cbn [snd env_with epolls]. rewrite lookup_insert.
    destruct (decide (s = e)), (decide (e = s)); try congruence; done. }
  assert (∀ x, is_Some (o1 !! x) → is_Some (unlisten s m o1 !! x)) as Halive.
  { intros x Hx. rewrite Hun. by apply fmap_is_Some. }
  split; [|done]. split.
  - apply (fds_ok_same_refs _ _ _ _ _ _ (Hfds c)). intros x. cbn [objects]. rewrite Hun.
    destruct (o1 !! x); [|done]. cbn. by case_decide.
  - intros e m'. subst w'. cbn [snd env_with epolls]. rewrite lookup_insert. case_decide.
    + intros [= <-]. split; constructor.
    + intros Em. destruct (eo_maps _ _ _ Hw e m' Em) as [Hs' Ha']. split; [done|].
      eapply Forall_impl; [exact Ha'|]. intros kv (x & Hx & Ho). exists x. split; [done|]. by apply Halive, alive_after.
  - intros e m' Em. assert (∃ m0, epolls w.2 !! e = Some m0 ∧ (m' = [] ∨ m' = m0 ∧ e ≠ s)) as (m0 & Em0 & Hcase).
    { subst w'. cbn [snd env_with epolls] in Em. rewrite lookup_insert in Em. case_decide; naive_solver. }
    destruct (eo_epoll _ _ _ Hw e m0 Em0) as (g & Hg & H1 & H2). cbn [w' fst snd objects]. rewrite Hun. subst o1.
    rewrite lookup_insert. destruct (decide (s = e)) as [<-|].
    + eexists. split; [done|]. destruct Hcase as [->|[_ ?]]; [|done]. split; [by case_decide|done].
    + rewrite Hg. eexists. split; [done|]. destruct Hcase as [->|[-> _]]; [split; [by case_decide|done]|].
      by case_decide.
  - intros e x. rewrite Hint. subst w'. rewrite listenable_after.
    2: { intros y. rewrite Hun, <-enabled_after. destruct (o1 !! y); [|done]. cbn. by case_decide. }
    pose proof (eo_mutual _ _ _ Hw e x) as Hmut. unfold listening in *. cbn [fst snd objects]. rewrite Hun.
    assert (interest w s x = find (address x) m) as Hi by (unfold interest; by rewrite Hm).
    destruct (decide (e = s)) as [->|Hes].
    + split; [|by intros [_ [??]]]. intros (g & Hg & Hin). exfalso. subst o1. rewrite lookup_insert in Hg.
      destruct (decide (s = x)) as [<-|]; [cbn in Hg; injection Hg as <-; case_decide; cbn in Hin; set_solver|].
      destruct (objects w.1.2 !! x) as [h|] eqn:Hh; [|done]. cbn in Hg. injection Hg as <-.
      destruct (decide (address x ∈ m.*1)) as [Hk|Hk]; [cbn in Hin; set_solver|].
      destruct Hmut as [[_ Hsome] _]; [by exists h|]. rewrite Hi in Hsome. destruct Hsome as [v Hv].
      apply (find_elem _ _ m Hs) in Hv. apply Hk. by apply (list_elem_of_fmap_2 fst) in Hv.
    + rewrite <-Hmut. subst o1. rewrite lookup_insert. destruct (decide (s = x)) as [<-|].
      * split; [|intros (g & Hg & Hin); rewrite Hf in Hg; injection Hg as <-; apply listeners_of in Hin; destruct Hin; congruence].
        intros (g & Hg & Hin). cbn in Hg. injection Hg as <-. case_decide; cbn in Hin; set_solver.
      * destruct (objects w.1.2 !! x) as [h|]; [|naive_solver]. cbn.
        split; intros (g & Hg & Hin); injection Hg as <-; eexists; (split; [done|]); case_decide; cbn in *; set_solver.
  - intros x g. cbn [w' fst snd objects]. rewrite Hun. subst o1. rewrite lookup_insert.
    destruct (decide (s = x)) as [<-|]; [cbn; intros [= <-] _; case_decide; cbn; set_solver|].
    destruct (objects w.1.2 !! x) as [h|] eqn:Hh; [|done]. cbn. intros [= <-]. pose proof (eo_closed _ _ _ Hw x h Hh) as Hcl.
    case_decide; [|done]. change (IsClosed (deaf s h)) with (IsClosed h). intros H1. cbn. rewrite Hcl by done. set_solver.
Qed.
End LastReference.
End Facts.
