(* ===== verification/EpollProperties.v ===== *)
(** * EpollProperties: what epoll streams promise

    The interests of epoll streams under any sequence of calls
    ([epoll_reachable]), and [epoll_wait]. *)

From S2P Require Import Prelude OrderedMap Util FileStream FdMap VfsFds Epoll EpollFacts.
Import Refs OrderedMap OrderedMapFacts.

#[local] Open Scope Z_scope.

(** ** Runs of the calls *)

Section Calls.
Context {X : Type} (extra : sid → Z).
Implicit Types w : EpollSys X.

Definition always (s : sid) : bool := true.

Abbreviation ok := (epoll_ok extra always).

Lemma dispatching_run {A} (m : St World A) w a t o cs :
  m w.1 = Done (a, (t, mkStreams o (calls w.1.2 ++ cs))) →
  dispatching m w = (for_each dispatch cs;; mret a) ((t, mkStreams o (calls w.1.2 ++ cs)), w.2).
Proof.
  intros Hm. unfold dispatching. rewrite (St_bind_run get _ w w w eq_refl).
  run_with (on_fds_run m w a _ Hm). rewrite (St_bind_run get _ _ _ _ eq_refl). cbn [fst snd calls].
  by rewrite drop_app_length.
Qed.

(** What [close] does to the interests and the waiting threads. *)
Definition close_report w fd (r : res Z) w' : Prop :=
  match stream_at w.1 fd with
  | None => r = Err EBADF ∧ w' = w
  | Some s =>
      r = Ok 0 ∧ streams_ w'.1.1 = delete fd (streams_ w.1.1) ∧
      (∀ e x, interest w' e x =
              if last_reference w s && (bool_decide (e = s) || bool_decide (x = s) && listenable w s) then None
              else interest w e x) ∧
      ∃ L, broadcasts w'.2 = broadcasts w.2 ++ L ∧ NoDup L ∧
        ∀ e, e ∈ L ↔ last_reference w s = true ∧ listenable w s = true ∧ is_Some (interest w e s)
  end.

(** The listeners of a stream that can be listened to, and of an epoll stream. *)
Lemma closing_dispatch w t o c s f :
  ok w → objects w.1.2 !! s = Some f →
  Forall (λ kv, ∃ x, kv.1 = address x ∧ is_Some (o !! x)) (default [] (epolls w.2 !! s)) →
  for_each dispatch (closing_calls s f) ((t, mkStreams o c), w.2) =
  Done (tt, match epolls w.2 !! s with
            | Some m => ((t, mkStreams (unlisten s m o) c), env_with w.2 (<[s := []]> (epolls w.2)) (broadcasts w.2))
            | None => ((t, mkStreams o c), env_with w.2 (forget s (elements (listeners_ f)) (epolls w.2))
                                             (broadcasts w.2 ++ elements (listeners_ f)))
            end).
Proof.
  intros Hw Hf Ho. unfold closing_calls.
  rewrite (for_each_app_run _ _ _ _ _ (dispatch_notifications s true (elements (listeners_ f)) t (mkStreams o c) w.2 (NoDup_elements _)
    (λ l Hl, proj2 (proj1 (listeners_of extra always w s f Hw Hf l) (proj1 (elem_of_elements _ _) Hl))))).
  cbn [for_each]. destruct (epolls w.2 !! s) as [m|] eqn:Em.
  - destruct (eo_epoll _ _ _ Hw s m Em) as (g & Hg & He & _). rewrite Hf in Hg. injection Hg as <-.
    assert (listeners_ f = ∅) as ->.
    { apply set_eq. intros x. rewrite (listeners_of extra always w s f Hw Hf), He. set_solver. }
    rewrite elements_empty. cbn [forget foldl]. rewrite app_nil_r.
    assert (env_with w.2 (epolls w.2) (broadcasts w.2) = w.2) as -> by (by destruct w as [? []]).
    rewrite (St_bind_run (dispatch _) _ _ tt ((t, mkStreams (unlisten s m o) c),
      env_with w.2 (<[s := []]> (epolls w.2)) (broadcasts w.2))); [done|].
    unfold dispatch. rewrite (St_bind_run get _ _ _ _ eq_refl). cbn [fst snd]. rewrite Em. unfold OnLastFileRef.
    rewrite (St_bind_run (epoll_map s) _ _ m ((t, mkStreams o c), w.2)) by (unfold epoll_map; cbn; by rewrite Em).
    by run_with (stop_listening_all s m t (mkStreams o c) w.2 Ho).
  - unfold dispatch, get, mbind, St_bind. cbn [fst snd env_with epolls].
    by rewrite lookup_forget, Em by apply NoDup_elements.
Qed.

(** One reference of a stream goes. *)
Lemma release_dispatch_run w t s f :
  ok w → objects w.1.2 !! s = Some f → 0 < file_ref_count_ f → fds_ok extra always (t, released w.1.2 s f) →
  ∃ w', for_each dispatch (release_calls s f) ((t, released w.1.2 s f), w.2) = Done (tt, w') ∧ ok w' ∧ w'.1.1 = t ∧
    (∀ e x, interest w' e x =
            if last_reference w s && (bool_decide (e = s) || bool_decide (x = s) && listenable w s) then None
            else interest w e x) ∧
    ∃ L, broadcasts w'.2 = broadcasts w.2 ++ L ∧ NoDup L ∧
      ∀ e, e ∈ L ↔ last_reference w s = true ∧ listenable w s = true ∧ is_Some (interest w e s).
Proof.
  intros Hw Hf Hpos Hfds.
  assert (listenable w s = is_listening_enabled_ f) as -> by (unfold listenable; by rewrite Hf).
  assert (last_reference w s = (file_ref_count_ f =? 1)) as -> by (unfold last_reference; by rewrite Hf).
  unfold released, release_calls in *. destruct (Z.eqb_spec (file_ref_count_ f) 1) as [H1|H1].
  2: { eexists. split; [done|]. rewrite app_nil_r in *.
       split; [eapply (epoll_ok_refs extra always w); [done|exact Hf|done|done| |exact Hfds]|].
       - unfold IsClosed. cbn. destruct (Z.eqb_spec (file_ref_count_ f - 1) 0); [lia|done].
       - split; [done|]. split; [done|]. exists []. rewrite app_nil_r. split; [done|]. split; [constructor|].
         intros e. rewrite elem_of_nil. naive_solver. }
  assert (∀ c, fds_ok extra always (t, mkStreams (<[s := closed_object f]> (objects w.1.2)) c)) as Hfds1
    by (intros c; by apply (fds_ok_same_refs extra always t _ _ c Hfds)).
  rewrite (closing_dispatch w _ _ _ s f Hw Hf).
  2: { destruct (epolls w.2 !! s) as [m|] eqn:Em; [|constructor].
       eapply Forall_impl; [apply (mo_alive _ _ (eo_maps _ _ _ Hw s m Em))|]. intros kv (x & Hx & Ho).
       exists x. split; [done|]. rewrite lookup_insert. case_decide; eauto. }
  eexists. split; [done|]. pose proof (listeners_of extra always w s f Hw Hf) as Hl.
  destruct (epolls w.2 !! s) as [m|] eqn:Em.
  - destruct (eo_epoll _ _ _ Hw s m Em) as (g & Hg & He & _). rewrite Hf in Hg. injection Hg as <-.
    destruct (epoll_stream_ends extra always w s f t Hw Hf Hfds1 m (calls w.1.2 ++ closing_calls s f)
      (broadcasts w.2) Em) as [Hok Hint]. split; [exact Hok|]. split; [done|]. split.
    + intros e x. rewrite Hint, He, andb_false_r, orb_false_r. by case_bool_decide; case_decide.
    + exists []. cbn. rewrite app_nil_r, He. split; [done|]. split; [constructor|]. intros e. rewrite elem_of_nil. naive_solver.
  - destruct (watched_stream_ends extra always w s f t Hw Hf Hfds1 (calls w.1.2 ++ closing_calls s f)
      (broadcasts w.2 ++ elements (listeners_ f)) Em) as [Hok Hint]. split; [exact Hok|]. split; [done|]. split.
    + intros e x. rewrite Hint. cbn [andb]. destruct (decide (x = s)) as [->|Hx].
      * destruct (is_listening_enabled_ f); [rewrite decide_True by done; by rewrite (bool_decide_true (s = s)), orb_true_r by done|].
        rewrite decide_False by naive_solver. rewrite andb_false_r, orb_false_r. case_bool_decide; [|done].
        subst e. unfold interest. by rewrite Em.
      * rewrite decide_False by naive_solver. rewrite (bool_decide_false (x = s)), orb_false_r by done.
        case_bool_decide; [|done]. subst e. unfold interest. by rewrite Em.
    + exists (elements (listeners_ f)). split; [done|]. split; [apply NoDup_elements|]. intros e.
      rewrite elem_of_elements, Hl. naive_solver.
Qed.

Lemma sys_close_run w fd :
  ok w → ∃ r w', sys_close always fd w = Done (r, w') ∧ ok w' ∧ close_report w fd r w'.
Proof.
  intros Hw. pose proof (eo_fds _ _ _ Hw) as Hfds.
  destruct (close_locked_run extra always w.1 fd Hfds) as ([t st] & Hrun & Hfds' & _ & Hm).
  pose proof (close_streams _ _ _ _ _ _ Hfds Hrun) as Hst. cbn [fst snd] in *.
  unfold sys_close, close_report. set (b := bool_decide _) in Hrun.
  assert (close always fd w.1 = Done (if b then Ok 0 else Err EBADF, (t, st))) as Hclose.
  { unfold close. by run_with Hrun. }
  subst b. destruct (stream_at w.1 fd) as [s|] eqn:Es.
  - rewrite bool_decide_true in Hclose by done. destruct Hst as (f & Hf & Hpos & ->).
    destruct (release_dispatch_run w t s f Hw Hf Hpos Hfds') as (w' & Hd & Hok & Ht & Hrest).
    exists (Ok 0), w'. rewrite (dispatching_run _ _ _ _ _ _ Hclose). run_with Hd.
    split; [done|]. split; [done|]. split; [done|]. by rewrite Ht.
  - rewrite bool_decide_false in Hclose by (by intros []). rewrite Hst in Hclose.
    exists (Err EBADF), w. split; [|done]. destruct w as [[t0 [o c]] env].
    by rewrite (dispatching_run _ _ (Err EBADF) t0 o []); cbn [fst snd calls] in *; rewrite app_nil_r.
Qed.

(** ** New streams *)

Lemma epoll_ok_ext (w w' : EpollSys X) :
  ok w → fds_ok extra always w'.1 → objects w'.1.2 = objects w.1.2 → epolls w'.2 = epolls w.2 → ok w'.
Proof.
  intros [H1 H2 H3 H4 H5] Hfds Ho He. split; [done| | | |]; unfold listening, listenable, interest in *;
    rewrite ?Ho, ?He; try done.
  intros e m Hm. destruct (H2 e m Hm) as [Hs Ha]. split; [done|]. by rewrite Ho.
Qed.

(** A new object, which is an epoll stream when [ep] is a map for it. *)
Lemma epoll_ok_new w s flags b ep :
  ok w → objects w.1.2 !! s = None → (ep = epolls w.2 ∨ b = false ∧ ep = <[s := []]> (epolls w.2)) →
  let w' := ((w.1.1, mkStreams (<[s := new_stream flags b]> (objects w.1.2)) (calls w.1.2)),
             env_with w.2 ep (broadcasts w.2)) in
  ok w' ∧ open_ok w'.1.2 s ∧ ∀ e x, interest w' e x = interest w e x.
Proof.
  intros Hw Hs Hep w'.
  assert (epolls w.2 !! s = None) as Hns.
  { destruct (epolls w.2 !! s) as [m|] eqn:Em; [|done].
    destruct (eo_epoll _ _ _ Hw s m Em) as (f & Hf & _). congruence. }
  assert (∀ e x, interest w' e x = interest w e x) as Hint.
  { intros e x. unfold interest. subst w'. cbn [snd env_with epolls]. destruct Hep as [->|[_ ->]]; [done|].
    rewrite lookup_insert. case_decide; [|done]. subst. by rewrite Hns. }
  assert (∀ e m, ep !! e = Some m → m = [] ∧ e = s ∧ b = false ∨ e ≠ s ∧ epolls w.2 !! e = Some m) as Hcase.
  { intros e m. destruct Hep as [->|[-> ->]].
    - intros Hm. right. split; [congruence|done].
    - rewrite lookup_insert. case_decide; [intros [= <-]; left; done|]. by right. }
  split; [|split; [by apply (new_stream_open _ s flags b), lookup_insert_eq|done]].
  split.
  - subst w'. cbn [fst]. pose proof (eo_fds _ _ _ Hw) as Hfds. destruct w as [[t st] env].
    by apply (fds_ok_new_object extra always).
  - intros e m [[-> _]|[_ Hm]]%Hcase; [split; constructor|].
    destruct (eo_maps _ _ _ Hw e m Hm) as [Hs1 Ha]. split; [done|].
    eapply Forall_impl; [exact Ha|]. intros kv (x & Hx & Ho). exists x. split; [done|]. cbn [w' fst snd objects].
    rewrite lookup_insert. case_decide; eauto.
  - intros e m [(-> & -> & ->)|[Hne Hm]]%Hcase; cbn [w' fst snd objects].
    + rewrite lookup_insert_eq. eexists. done.
    + rewrite lookup_insert_ne by done. by apply (eo_epoll _ _ _ Hw).
  - intros e x. rewrite Hint. pose proof (eo_mutual _ _ _ Hw e x) as Hmut. unfold listening, listenable in *.
    cbn [w' fst snd objects]. rewrite lookup_insert. destruct (decide (s = x)) as [<-|]; [|done].
    rewrite Hs in Hmut. split; [intros (g & [= <-] & Hg); cbn in Hg; set_solver|]. intros [_ [v Hv]]. exfalso.
    unfold interest in Hv. destruct (epolls w.2 !! e) as [m|] eqn:Em; [|done]. cbn in Hv.
    destruct (eo_maps _ _ _ Hw e m Em) as [Hs1 Ha]. apply (find_elem _ _ m Hs1) in Hv. rewrite Forall_forall in Ha.
    destruct (Ha _ Hv) as (y & Hy%(inj address) & Ho). subst y. rewrite Hs in Ho. by destruct Ho.
  - intros x f. cbn [w' fst snd objects]. rewrite lookup_insert.
    destruct (decide (s = x)); [intros Hf; by injection Hf as <-|]. apply (eo_closed _ _ _ Hw).
Qed.

(** Another reference. *)
Lemma epoll_ok_with_ref w t s f :
  ok w → objects w.1.2 !! s = Some f → IsClosed f = false → fds_ok extra always (t, with_ref w.1.2 s f) →
  ok ((t, with_ref w.1.2 s f), w.2).
Proof.
  intros Hw Hf Hc Hfds. eapply (epoll_ok_refs extra always w); [done|exact Hf|done|done| |exact Hfds].
  unfold IsClosed. cbn. pose proof (ok_count _ _ _ (fo_refs _ _ _ (eo_fds _ _ _ Hw)) s f Hf) as [Hcnt _].
  assert (0 <= file_ref_count_ f).
  { rewrite Hcnt. pose proof (proj1 (ok_extra _ _ _ (fo_refs _ _ _ (eo_fds _ _ _ Hw)) s)). unfold fd_count. lia. }
  destruct (Z.eqb_spec (file_ref_count_ f + 1) 0); [lia|done].
Qed.

(** Interests and broadcasts stay. *)
Definition same_interests w w' : Prop :=
  (∀ e x, interest w' e x = interest w e x) ∧ broadcasts w'.2 = broadcasts w.2.

(** A stream gets a descriptor. *)
Definition open_stream (s : sid) (flags : Z) (listening : bool) : St (EpollSys X) (res Z) :=
  on_store (set_object s (new_stream flags listening));;
  fd ← on_fds (AddFileStreamLocked always s);
  mret (if fd <? 0 then Err EMFILE else Ok fd).

Definition number_report w (s : sid) (r : res Z) w' : Prop :=
  match r with
  | Ok fd => first_unused w.1.1 fd ∧ streams_ w'.1.1 = <[fd := Some s]> (streams_ w.1.1)
  | Err e => e = EMFILE ∧ first_unused w.1.1 (-1) ∧ streams_ w'.1.1 = streams_ w.1.1
  end.

Lemma open_stream_run w s flags b :
  ok w → objects w.1.2 !! s = None →
  ∃ r w', open_stream s flags b w = Done (r, w') ∧ ok w' ∧ number_report w s r w' ∧ same_interests w w'.
Proof.
  intros Hw Hs. destruct (epoll_ok_new w s flags b (epolls w.2) Hw Hs) as (Hw1 & Ho & Hint); [by left|].
  set (w1 := (_, env_with _ _ _)) in *. unfold open_stream.
  rewrite (St_bind_run _ _ w tt w1); [|by destruct w as [[t st] [ep bc ot]]].
  destruct (add_locked_run extra always w1.1 s (eo_fds _ _ _ Hw1) Ho) as (r & t' & Hrun & Hf & Hfds & _ & Hm & Hst).
  run_with (on_fds_run _ w1 _ _ Hrun).
  assert (first_unused w.1.1 r) as Hf' by done. apply add_locked_streams in Hrun.
  destruct (Z.eqb_spec r (-1)) as [->|Hr].
  - exists (Err EMFILE), (t', w1.2). split; [done|]. split; [|done].
    apply (epoll_ok_ext w1); try done. cbn [fst]. by rewrite Hrun.
  - pose proof (first_unused_nonneg extra always w.1 r (eo_fds _ _ _ Hw) Hf' Hr) as Hpos.
    rewrite (proj2 (Z.leb_le 0 r)) in Hrun by done.
    rewrite (proj2 (Z.ltb_ge r 0)) by done. exists (Ok r), (t', w1.2). split; [done|]. split; [|done].
    destruct Hrun as (f & Hof & Hst'). destruct Ho as (f' & Hof' & Hcl). rewrite Hof in Hof'. injection Hof' as <-.
    destruct t' as [t' st']. cbn [fst snd] in *. subst st'. by apply epoll_ok_with_ref.
Qed.

Lemma epoll_create1_run w s flags :
  ok w → objects w.1.2 !! s = None →
  ∃ r w', epoll_create1 s flags w = Done (r, w') ∧ ok w' ∧ number_report w s r w' ∧ same_interests w w'.
Proof.
  intros Hw Hs. unfold epoll_create1. pose proof (eo_fds _ _ _ Hw) as Hfds.
  destruct (first_unused_run extra always w.1 Hfds) as (r & t1 & H1 & Hf & Hfds1 & Hr1 & Hm1).
  pose proof (first_unused_streams _ _ _ H1) as Hst. run_with (on_fds_run _ w _ _ H1).
  assert (ok (t1, w.2)) as Hw1 by (apply (epoll_ok_ext w); try done; cbn [fst]; by rewrite Hst).
  destruct (Z.eqb_spec r (-1)) as [->|Hr]; [by exists (Err EMFILE), (t1, w.2)|].
  pose proof (first_unused_nonneg extra always w.1 r Hfds Hf Hr) as Hpos.
  rewrite (proj2 (Z.ltb_ge r 0)) by done.
  destruct (epoll_ok_new (t1, w.2) s flags false (<[s := []]> (epolls w.2)) Hw1) as (Hw2 & Ho & Hint);
    [cbn [fst]; by rewrite Hst|by right|].
  set (w2 := (_, env_with _ _ _)) in *.
  rewrite (St_bind_run _ _ (t1, w.2) tt ((t1.1, mkStreams (<[s := new_stream flags false]> (objects t1.2)) (calls t1.2)), w.2)) by done.
  rewrite (St_bind_run _ _ _ tt w2) by done. destruct Hf as [[? _]|(Hin & Hnone & Hlow)]; [done|].
  destruct (add_run extra always w2.1 r s (eo_fds _ _ _ Hw2)) as (t3 & H3 & Hfds3 & _ & Hm3).
  { by apply Hr1. }
  { right. cbn [w2 fst]. rewrite Hm1. by rewrite lookup_insert_eq. }
  { done. }
  run_with (on_fds_run _ w2 _ _ H3). exists (Ok r), (t3, w2.2). split; [done|]. split.
  - apply add_file_stream_run in H3. destruct H3 as (f & Hof & Hst3), Ho as (f' & Hof' & Hcl).
    rewrite Hof in Hof'. injection Hof' as <-. destruct t3 as [t3 st3]. cbn [fst snd] in *. subst st3.
    by apply epoll_ok_with_ref.
  - split; [|done]. split; [by right|]. cbn [fst]. rewrite Hm3. cbn [w2 fst]. by rewrite Hm1, insert_insert_eq.
Qed.

Lemma sys_dup_run w fd :
  ok w →
  ∃ r w', sys_dup always fd w = Done (r, w') ∧ ok w' ∧ same_interests w w' ∧
    match stream_at w.1 fd with
    | None => r = Err EBADF ∧ w' = w
    | Some s => number_report w s r w'
    end.
Proof.
  intros Hw. unfold sys_dup, dup. pose proof (eo_fds _ _ _ Hw) as Hfds.
  destruct (stream_at w.1 fd) as [s|] eqn:Es.
  2: { exists (Err EBADF), w. split; [|done].
       assert (DupLocked always fd (-1) w.1 = Done (Err EBADF, w.1)) as Hd.
       { unfold DupLocked. run_with (get_stream_ok extra always w.1 fd Hfds). by rewrite Es. }
       destruct w as [[t [o c]] env]. by rewrite (dispatching_run _ _ (Err EBADF) t o []); cbn [fst snd calls] in *; rewrite app_nil_r. }
  assert (streams_ w.1.1 !! fd = Some (Some s)) as Hfd.
  { unfold stream_at in Es. by destruct (streams_ w.1.1 !! fd) as [[y|]|]; simplify_eq/=. }
  destruct (dup_new_run extra always w.1 fd s Hfds Hfd) as (r & [t' st'] & Hrun & Hfds' & Hr).
  pose proof (dup_new_streams _ _ _ _ _ _ Hfds Hrun) as Hst. cbn [fst snd] in *.
  destruct (table_stream_open _ _ _ _ (fo_refs _ _ _ Hfds) Hfd) as (f & Hof & Hcl).
  exists r, ((t', st'), w.2).
  assert (∃ o, st' = mkStreams o (calls w.1.2)) as [o ->].
  { destruct r as [e|n]; [subst st'; exists (objects w.1.2); by destruct w as [[? []] ?]|].
    destruct Hst as (x & g & _ & _ & ->). eauto. }
  rewrite (dispatching_run _ _ r t' o []); rewrite app_nil_r; [|done]. split; [done|].
  split; [|split; [done|]].
  - destruct r as [e|n]; [by apply (epoll_ok_ext w); try done; cbn [fst snd]; rewrite Hst|].
    destruct Hst as (x & g & Hx & Hg & Est). rewrite Est in Hfds' |- *. rewrite Es in Hx. injection Hx as <-. rewrite Hof in Hg. injection Hg as <-.
    by apply epoll_ok_with_ref.
  - destruct r as [e|n]; [done|]. by destruct Hr as (? & _ & ?).
Qed.

(** ** Notifications and epoll_ctl *)

Definition woken_report w (P : sid → Prop) w' : Prop :=
  ∃ L, broadcasts w'.2 = broadcasts w.2 ++ L ∧ NoDup L ∧ ∀ e, e ∈ L ↔ P e.

Lemma notify_calls (L : list sid) s st :
  (∀ l, l ∈ L → open_ok st l) →
  for_each (λ l, CheckNotClosed l;; vcall_ (CallHandleNotificationFrom l s false)) L st =
  Done (tt, mkStreams (objects st) (calls st ++ map (λ l, CallHandleNotificationFrom l s false) L)).
Proof.
  revert st. induction L as [|l L IH]; intros st HL; cbn [for_each map].
  { rewrite app_nil_r. by destruct st. }
  destruct (HL l) as (f & Hf & Hc); [by left|].
  rewrite (St_bind_run _ _ st tt (mkStreams (objects st) (calls st ++ [CallHandleNotificationFrom l s false]))).
  - rewrite IH by (intros x Hx; apply HL; by right). cbn [objects calls]. by rewrite <-app_assoc.
  - unfold CheckNotClosed, deref, check, vcall_, modify, mbind, St_bind. by rewrite Hf, Hc.
Qed.

Lemma notify_run w s :
  ok w → listenable w s = true →
  ∃ w', notify s w = Done (tt, w') ∧ ok w' ∧ w'.1.1 = w.1.1 ∧ (∀ e x, interest w' e x = interest w e x) ∧
    woken_report w (λ e, is_Some (interest w e s)) w'.
Proof.
  intros Hw Hs. pose proof Hs as (f & Hf & He)%listenable_some. unfold notify.
  set (L := if IsClosed f then [] else elements (listeners_ f)).
  assert (∀ e, e ∈ L ↔ is_Some (interest w e s)) as HL.
  { intros e. assert (e ∈ L ↔ e ∈ listeners_ f) as ->.
    { unfold L. destruct (IsClosed f) eqn:Ec; [rewrite (eo_closed _ _ _ Hw s f Hf Ec), elem_of_nil; set_solver|apply elem_of_elements]. }
    rewrite (listeners_of extra always w s f Hw Hf). naive_solver. }
  assert (NoDup L) as Hnd by (unfold L; destruct (IsClosed f); [constructor|apply NoDup_elements]).
  set (cs := map (λ l, CallHandleNotificationFrom l s false) L).
  assert (on_streams (NotifyListeners s) w.1 = Done (tt, (w.1.1, mkStreams (objects w.1.2) (calls w.1.2 ++ cs)))) as Hrun.
  { unfold on_streams. assert (NotifyListeners s w.1.2 = Done (tt, mkStreams (objects w.1.2) (calls w.1.2 ++ cs))) as ->; [|done].
    unfold NotifyListeners. rewrite (St_bind_run (deref s) _ w.1.2 f w.1.2) by (unfold deref; by rewrite Hf).
    rewrite He. rewrite (St_bind_run (check true) _ w.1.2 tt w.1.2 eq_refl).
    destruct (IsClosed f) eqn:Ec; [by rewrite app_nil_r; destruct w as [[? []] ?]|]. rewrite notify_calls; [done|].
    intros l Hl. apply HL in Hl. unfold interest in Hl. destruct (epolls w.2 !! l) as [m|] eqn:Em; [|by destruct Hl].
    destruct (eo_epoll _ _ _ Hw l m Em) as (g & Hg & _ & Hcl). exists g. split; [done|].
    destruct (IsClosed g); [|done]. rewrite Hcl in Hl by done. by destruct Hl. }
  rewrite (dispatching_run _ _ _ _ _ _ Hrun). unfold cs.
  rewrite (St_bind_run _ _ _ _ _ (dispatch_notifications s false L w.1.1 _ w.2 Hnd (λ l Hl, proj1 (HL l) Hl))).
  eexists. split; [done|]. split; [|split; [done|split; [done|by exists L]]].
  apply (epoll_ok_ext w); try done.
  cbn [fst]. pose proof (eo_fds _ _ _ Hw) as Hfds. destruct w as [[t st] env]. by apply (fds_ok_same_refs extra always t st).
Qed.

Definition sys_ctl_report w epfd op fd event (r : res Z) w' : Prop :=
  match stream_at w.1 epfd, stream_at w.1 fd with
  | Some e, Some s =>
      if (epfd =? fd) || bool_decide (epolls w.2 !! e = None) then r = Err EINVAL ∧ w' = w
      else ctl_report w e s op event r w'
  | _, _ => r = Err EBADF ∧ w' = w
  end.

Lemma stream_at_open w fd s : ok w → stream_at w.1 fd = Some s → open_ok w.1.2 s.
Proof.
  intros Hw Hs. eapply (table_stream_open extra w.1 fd); [apply (eo_fds _ _ _ Hw)|].
  unfold stream_at in Hs. by destruct (streams_ w.1.1 !! fd) as [[y|]|]; simplify_eq/=.
Qed.

Lemma sys_epoll_ctl_run w epfd op fd event :
  ok w →
  ∃ r w', sys_epoll_ctl always epfd op fd event w = Done (r, w') ∧ ok w' ∧ sys_ctl_report w epfd op fd event r w'.
Proof.
  intros Hw. unfold sys_epoll_ctl, vfs_epoll_ctl, sys_ctl_report.
  assert (∀ n, on_fds (GetStream always n) w = Done (stream_at w.1 n, w)) as Hget.
  { intros n. rewrite (on_fds_run _ w _ _ (get_stream_ok extra always w.1 n (eo_fds _ _ _ Hw))). by destruct w. }
  run_with (Hget epfd). run_with (Hget fd).
  destruct (stream_at w.1 epfd) as [e|] eqn:Ee; [|by exists (Err EBADF), w].
  destruct (stream_at w.1 fd) as [s|] eqn:Es; [|by exists (Err EBADF), w].
  destruct (epfd =? fd); [by exists (Err EINVAL), w|]. cbn [orb].
  unfold stream_epoll_ctl. rewrite (St_bind_run get _ _ _ _ eq_refl).
  destruct (epolls w.2 !! e) as [m|] eqn:Em; [|by exists (Err EINVAL), w].
  rewrite bool_decide_false by done.
  apply epoll_ctl_run; [done|by rewrite Em|by eapply stream_at_open..].
Qed.
End Calls.

(** ** Any sequence of calls *)

Section Reachable.
Context {X : Type}.
Implicit Types w : EpollSys X.

Inductive epoll_call : Type :=
| EOpen (s : sid) (flags : Z) (listening : bool)
| ECreate (s : sid) (flags : Z)
| ECtl (epfd : Z) (op : epoll_op) (fd : Z) (event : EPollEntry)
| EClose (fd : Z)
| EDup (fd : Z)
| ENotify (s : sid).

(** New streams are new; a stream that announces changes can be listened to. *)
Definition epoll_call_ok (c : epoll_call) w : Prop :=
  match c with
  | EOpen s _ _ | ECreate s _ => objects w.1.2 !! s = None
  | ENotify s => listenable w s = true
  | _ => True
  end.

Definition run_epoll_call (c : epoll_call) : St (EpollSys X) (res Z) :=
  match c with
  | EOpen s flags listening => open_stream s flags listening
  | ECreate s flags => epoll_create1 s flags
  | ECtl epfd op fd event => sys_epoll_ctl always epfd op fd event
  | EClose fd => sys_close always fd
  | EDup fd => sys_dup always fd
  | ENotify s => notify s;; mret (Ok 0)
  end.

Definition epoll_report (c : epoll_call) w (r : res Z) w' : Prop :=
  match c with
  | EOpen s _ _ | ECreate s _ => number_report w s r w' ∧ same_interests w w'
  | ECtl epfd op fd event => sys_ctl_report w epfd op fd event r w'
  | EClose fd => close_report w fd r w'
  | EDup fd =>
      same_interests w w' ∧
      match stream_at w.1 fd with Some s => number_report w s r w' | None => r = Err EBADF ∧ w' = w end
  | ENotify s =>
      (∀ e x, interest w' e x = interest w e x) ∧ woken_report w (λ e, is_Some (interest w e s)) w'
  end.

Lemma run_epoll_call_run extra c w :
  epoll_ok extra always w → epoll_call_ok c w →
  ∃ r w', run_epoll_call c w = Done (r, w') ∧ epoll_ok extra always w' ∧ epoll_report c w r w'.
Proof.
  intros Hw Hc. destruct c as [s flags b|s flags|epfd op fd event|fd|fd|s]; cbn [run_epoll_call epoll_report].
  - by apply open_stream_run.
  - by apply epoll_create1_run.
  - by apply sys_epoll_ctl_run.
  - by apply sys_close_run.
  - destruct (sys_dup_run extra w fd Hw) as (r & w' & H1 & H2 & H3 & H4). exists r, w'. done.
  - destruct (notify_run extra w s Hw Hc) as (w' & H1 & H2 & _ & H3 & H4). exists (Ok 0), w'. by run_with H1.
Qed.

(** Between calls the state of the streams may change. *)
Inductive epoll_reachable (lo hi : Z) : EpollSys X → Prop :=
| epoll_start t env :
    FdToFileStreamMap_new lo hi = Done t → epolls env = ∅ → epoll_reachable lo hi ((t, mkStreams ∅ []), env)
| epoll_step w c r w' :
    epoll_reachable lo hi w → epoll_call_ok c w → run_epoll_call c w = Done (r, w') → epoll_reachable lo hi w'
| epoll_ready w x :
    epoll_reachable lo hi w → epoll_reachable lo hi (w.1, mkEpollEnv (epolls w.2) (broadcasts w.2) x).

Lemma reachable_epoll_ok lo hi w : 0 <= lo <= hi → epoll_reachable lo hi w → epoll_ok no_extra always w.
Proof.
  intros Hlo. induction 1 as [t env Ht He|w c r w' _ IH Hc Hrun|w x _ IH].
  - destruct (table_ok_new lo hi Hlo) as (t' & Ht' & Hok & Hm). rewrite Ht in Ht'. injection Ht' as <-.
    split; unfold listening, listenable, interest; cbn [fst snd objects]; rewrite ?He.
    + split; [done| |done]. split; cbn [objects fst snd]; [by rewrite Hm|done|done].
    + done.
    + done.
    + intros e s. rewrite lookup_empty. split; [by intros (f & Hf & _)|by intros [? _]].
    + done.
  - destruct (run_epoll_call_run no_extra c w IH Hc) as (r' & w'' & Hrun' & Hok & _). congruence.
  - by apply (epoll_ok_ext no_extra w); [|apply (eo_fds _ _ _ IH)|..].
Qed.
End Reachable.

(** ** epoll_wait *)

Section Wait.
Context {X : Type} (GetPollEvents : sid → X → Z).
Implicit Types w : EpollSys X.

(** The events of an entry that are found, and the report of all of them, in the
    order of the addresses. *)
Definition found_events w (k : Z) (entry : EPollEntry) : Z :=
  Z.land (GetPollEvents (Z.to_nat k) (others w.2)) (Z.lor (events_ entry) (Z.lor POLLERR (Z.lor POLLHUP POLLNVAL))).

Definition ready_in w (m : EPollMap) : list EPollEntry :=
  omap (λ kv : Z * EPollEntry, if found_events w kv.1 kv.2 =? 0 then None
                               else Some (mkEPollEntry (found_events w kv.1 kv.2) (data_ kv.2))) m.

Definition ready_report w (e : sid) : list EPollEntry :=
  match epolls w.2 !! e with Some m => ready_in w m | None => [] end.

Lemma collect_take w m n : collect GetPollEvents (others w.2) m n = take n (ready_in w m).
Proof.
  revert n. induction m as [|[k entry] m IH]; intros n; cbn [collect ready_in omap list_omap]; [by destruct n|].
  destruct n as [|n]; [by destruct (_ =? _)|]. cbn [fst snd]. unfold found_events at 2 3.
  destruct (_ =? 0) eqn:E; cbn [negb]; [apply IH|]. by rewrite IH.
Qed.

Context (extra : sid → Z) (e : sid) (time : EpollSys X → Z).
Context (Now : St (EpollSys X) Z) (Wait : St (EpollSys X) unit) (TimedWait : Z → St (EpollSys X) unit).

(** What other threads keep. *)
Definition watching w : Prop := epoll_ok extra always w ∧ is_Some (epolls w.2 !! e).

(** [n] wake-ups, the last of which finds something. *)
Inductive epoll_woken : EpollSys X → nat → EpollSys X → Prop :=
| epoll_woken_ready w w' : Wait w = Done (tt, w') → watching w' → ready_report w' e ≠ [] → epoll_woken w 2 w'
| epoll_woken_again w w1 n w' :
    Wait w = Done (tt, w1) → watching w1 → ready_report w1 e = [] → epoll_woken w1 n w' → epoll_woken w (S n) w'.

Lemma epoll_loop_now fuel max limit timedout w :
  watching w → timedout = true ∨ ready_report w e ≠ [] → (0 < max)%nat →
  epoll_loop GetPollEvents Now Wait TimedWait (S fuel) e max limit timedout w = Done (Ok (take max (ready_report w e)), w).
Proof.
  intros [Hw [m Hm]] Hr Hmax. cbn [epoll_loop]. unfold ready_report in *. rewrite Hm in *.
  rewrite (St_bind_run (epoll_map e) _ w m w) by (unfold epoll_map; by rewrite Hm).
  rewrite (St_bind_run get _ w w w eq_refl), collect_take. set (l := ready_in w m) in *.
  destruct Hr as [->|Hr]; [done|]. destruct l as [|a l]; [done|]. destruct max; [lia|]. cbn. by rewrite orb_true_r.
Qed.

Lemma epoll_loop_waits fuel max limit w :
  watching w → ready_report w e = [] →
  epoll_loop GetPollEvents Now Wait TimedWait (S fuel) e max limit false w =
  (timedout ← WaitUntilInternal Now Wait TimedWait limit;
   epoll_loop GetPollEvents Now Wait TimedWait fuel e max limit timedout) w.
Proof.
  intros [Hw [m Hm]] Hr. cbn [epoll_loop]. unfold ready_report in Hr. rewrite Hm in Hr.
  rewrite (St_bind_run (epoll_map e) _ w m w) by (unfold epoll_map; by rewrite Hm).
  rewrite (St_bind_run get _ w w w eq_refl), collect_take, Hr. by rewrite take_nil.
Qed.

Context (Hpl : platform_ok watching time Now TimedWait).

Lemma epoll_loop_ends max limit w :
  limit ≠ 0 → (0 < max)%nat → watching w →
  ∃ fuel w', epoll_loop GetPollEvents Now Wait TimedWait fuel e max limit false w =
               Done (Ok (take max (ready_report w' e)), w') ∧
    watching w' ∧ (ready_report w' e = [] → limit <= time w').
Proof.
  intros Hl Hmax. remember (Z.to_nat (limit - time w)) as n eqn:Hn.
  revert w Hn. induction (lt_wf n) as [n _ IH]. intros w -> Hw.
  destruct (decide (ready_report w e = [])) as [Hr|Hr].
  2: { exists 1%nat, w. split; [apply epoll_loop_now; auto|]. split; [done|by intros]. }
  destruct (wait_until_run _ _ Now Wait TimedWait Hpl limit w Hl Hw) as (w1 & Hrun & Hw1 & Hc).
  case_bool_decide as Hd.
  - exists 2%nat, w1. rewrite epoll_loop_waits by done. run_with Hrun.
    split; [apply epoll_loop_now; auto|done].
  - destruct (decide (limit <= time w)); [by subst w1|].
    destruct (IH (Z.to_nat (limit - time w1))) with (w := w1) as (fuel & w2 & Hrun2 & H2); [lia|done|done|].
    exists (S fuel), w2. rewrite epoll_loop_waits by done. by run_with Hrun.
Qed.

Lemma epoll_loop_woken n max w w' :
  (0 < max)%nat → watching w → ready_report w e = [] → epoll_woken w n w' →
  epoll_loop GetPollEvents Now Wait TimedWait n e max 0 false w = Done (Ok (take max (ready_report w' e)), w').
Proof.
  intros Hmax Hw Hr H. revert Hw Hr. induction H as [w w' Hwait Hw' Hr'|w w1 n w' Hwait Hw1 Hr1 _ IH]; intros Hw Hr;
    rewrite epoll_loop_waits by done; unfold WaitUntilInternal; cbn [Z.eqb].
  - rewrite (St_bind_run _ _ w false w') by by run_with Hwait. apply epoll_loop_now; auto.
  - rewrite (St_bind_run _ _ w false w1) by by run_with Hwait. auto.
Qed.
End Wait.

(* -------------------------------------------------------------------- *)
(** * Properties *)

(** C20. Interest lists.  In every state that calls reach, every call runs without
    tripping an assertion.  EPOLL_CTL_ADD of a stream that is already there is
    EEXIST, MOD and DEL of one that is not are ENOENT; otherwise exactly that entry
    changes, ADD and MOD wake the waiting threads, and ADD of a stream that cannot be
    listened to is EPERM, but the entry stays.  Closing the last descriptor of a
    stream that can be listened to takes it out of every interest list and wakes the
    waiters of each of them once, closing that of an epoll stream empties its list,
    and closing another descriptor changes none; a stream that announces a change
    wakes exactly the epoll streams that have it in their lists; opening and dup
    change no list.  Afterwards a stream that can be listened to has exactly the epoll
    streams that have it in their lists as listeners. *)
Theorem epoll_interest_lists {X : Type} lo hi (w : EpollSys X) c :
  0 <= lo <= hi → epoll_reachable lo hi w → epoll_call_ok c w →
  ∃ r w', run_epoll_call c w = Done (r, w') ∧ epoll_report c w r w' ∧
    ∀ e s, listening w' e s ↔ listenable w' s = true ∧ is_Some (interest w' e s).
Proof.
  intros Hlo Hreach Hc. pose proof (reachable_epoll_ok lo hi w Hlo Hreach) as Hw.
  destruct (run_epoll_call_run no_extra c w Hw Hc) as (r & w' & Hrun & Hw' & Hrep).
  exists r, w'. split; [done|]. split; [done|]. apply (eo_mutual _ _ _ Hw').
Qed.

(** C21. [epoll_wait].  It reports the first [maxevents] entries, in the order of the
    streams' addresses, whose stream has one of the events asked for, an error or a
    hang-up.  When there is one, or the timeout is 0, it answers at once.  With a
    positive timeout it ends, with no entry only when the time is up; with a negative
    one it waits through all wake-ups until there is an entry.  A null buffer is EFAULT,
    [maxevents] below 1 EINVAL, another kind of stream EINVAL, no stream EBADF. *)
Theorem epoll_wait_reports_ready {X : Type} (GetPollEvents : sid → X → Z) extra e time Now Wait TimedWait
    (w : EpollSys X) epfd :
  platform_ok (watching extra e) time Now TimedWait → watching extra e w → stream_at w.1 epfd = Some e →
  let wait := sys_epoll_wait always GetPollEvents Now Wait TimedWait in
  (∀ fuel maxevents timeout, wait fuel epfd true maxevents timeout w = Done (Err EFAULT, w)) ∧
  (∀ fuel maxevents timeout, maxevents <= 0 → wait fuel epfd false maxevents timeout w = Done (Err EINVAL, w)) ∧
  (∀ fuel null maxevents timeout fd, stream_at w.1 fd = None →
     wait fuel fd null maxevents timeout w = Done (Err EBADF, w)) ∧
  (∀ fuel null maxevents timeout fd s, stream_at w.1 fd = Some s → epolls w.2 !! s = None →
     wait fuel fd null maxevents timeout w = Done (Err EINVAL, w)) ∧
  ∀ maxevents timeout, 0 < maxevents →
    let report w' := take (Z.to_nat maxevents) (ready_report GetPollEvents w' e) in
    if bool_decide (timeout = 0 ∨ ready_report GetPollEvents w e ≠ []) then
      ∀ fuel, wait (S fuel) epfd false maxevents timeout w = Done (Ok (report w), w)
    else if timeout <? 0 then
      ∀ n w', epoll_woken GetPollEvents extra e Wait w n w' →
        wait n epfd false maxevents timeout w = Done (Ok (report w'), w')
    else
      ∃ fuel w', wait fuel epfd false maxevents timeout w = Done (Ok (report w'), w') ∧
        (report w' = [] → time w + timeout * 1000 <= time w').
Proof.
  intros Hpl Hw Hfd wait. pose proof Hw as [Hok [m Hm]].
  assert (∀ n, on_fds (GetStream always n) w = Done (stream_at w.1 n, w)) as Hget.
  { intros n. rewrite (on_fds_run _ w _ _ (get_stream_ok extra always w.1 n (eo_fds _ _ _ Hok))). by destruct w. }
  subst wait.
  split; [|split; [|split; [|split]]].
  - intros fuel mx tm. unfold sys_epoll_wait. run_with (Hget epfd). rewrite Hfd, (St_bind_run get _ _ _ _ eq_refl). by rewrite Hm.
  - intros fuel mx tm Hmx. unfold sys_epoll_wait. run_with (Hget epfd). rewrite Hfd, (St_bind_run get _ _ _ _ eq_refl), Hm.
    unfold epoll_wait. by rewrite (proj2 (Z.leb_le mx 0)).
  - intros fuel null mx tm fd Hn. unfold sys_epoll_wait. run_with (Hget fd). by rewrite Hn.
  - intros fuel null mx tm fd s Hs Hn. unfold sys_epoll_wait. run_with (Hget fd). by rewrite Hs, (St_bind_run get _ _ _ _ eq_refl), Hn.
  - intros mx tm Hmx. set (k := Z.to_nat mx) in *. assert (0 < k)%nat as Hk by lia.
    assert (∀ fuel, sys_epoll_wait always GetPollEvents Now Wait TimedWait fuel epfd false mx tm w =
      epoll_loop GetPollEvents Now Wait TimedWait fuel e k (if tm <=? 0 then 0 else time w + tm * 1000) (tm =? 0) w) as Hrun.
    { intros fuel. unfold sys_epoll_wait. run_with (Hget epfd). rewrite Hfd, (St_bind_run get _ _ _ _ eq_refl), Hm.
      unfold epoll_wait. rewrite (proj2 (Z.leb_gt mx 0)) by done. destruct (tm <=? 0); [done|].
      rewrite (St_bind_run _ _ w (time w + tm * 1000) w); [done|]. by run_with (po_now Hpl w). }
    cbv zeta. case_bool_decide as Hr.
    + intros fuel. rewrite Hrun. eapply epoll_loop_now; [done| |done].
      destruct Hr as [->|Hr]; [by left|by right].
    + destruct (decide (ready_report GetPollEvents w e = [])) as [Hn|]; [|tauto].
      destruct (Z.ltb_spec tm 0).
      * intros n w' Hwk. rewrite Hrun, (proj2 (Z.leb_le tm 0)), (proj2 (Z.eqb_neq tm 0)) by lia.
        by eapply epoll_loop_woken.
      * assert (tm ≠ 0) by tauto. pose proof (po_clock Hpl w).
        destruct (epoll_loop_ends GetPollEvents extra e time Now Wait TimedWait Hpl k (time w + tm * 1000) w)
          as (fuel & w' & Hends & _ & Hend); [lia|done|done|].
        exists fuel, w'. rewrite Hrun, (proj2 (Z.leb_gt tm 0)), (proj2 (Z.eqb_neq tm 0)) by lia. split; [done|].
        intros Hnil. apply Hend. apply (f_equal List.length) in Hnil. rewrite length_take in Hnil.
        destruct (ready_report GetPollEvents w' e); [done|]. cbn in Hnil. lia.
Qed.

(** ** Witnesses *)

(** Descriptors 0..3: 0 is an epoll stream that watches the stream of 1. *)
Definition witness_start : EpollSys Z :=
  ((match FdToFileStreamMap_new 0 3 with Done t => t | _ => mkFdMap ∅ [] 0 0 end, mkStreams ∅ []),
   mkEpollEnv ∅ [] 1).

Definition after (c : epoll_call) (w : EpollSys Z) : EpollSys Z :=
  match run_epoll_call c w with Done (_, w') => w' | _ => w end.

Definition witness_1 : EpollSys Z := after (ECreate 1%nat 0) witness_start.
Definition witness_2 : EpollSys Z := after (EOpen 2%nat 0 true) witness_1.
Definition witness_watch : EpollSys Z := after (ECtl 0 EPOLL_CTL_ADD 1 (mkEPollEntry POLLIN 7)) witness_2.

Lemma witness_watch_reachable : epoll_reachable 0 3 witness_watch.
Proof.
  apply (epoll_step 0 3 witness_2 (ECtl 0 EPOLL_CTL_ADD 1 (mkEPollEntry POLLIN 7)) (Ok 0)); [|done|vm_compute; reflexivity].
  apply (epoll_step 0 3 witness_1 (EOpen 2%nat 0 true) (Ok 1)); [|done|vm_compute; reflexivity].
  apply (epoll_step 0 3 witness_start (ECreate 1%nat 0) (Ok 0)); [|done|vm_compute; reflexivity].
  by apply epoll_start.
Qed.

Lemma epoll_interest_lists_witness :
  ∃ w', run_epoll_call (EClose 1) witness_watch = Done (Ok 0, w') ∧ epoll_report (EClose 1) witness_watch (Ok 0) w' ∧
    interest witness_watch 1 2 = Some (mkEPollEntry POLLIN 7) ∧ interest w' 1 2 = None ∧
    broadcasts w'.2 = [1%nat; 1%nat].
Proof.
  destruct (epoll_interest_lists 0 3 witness_watch (EClose 1)) as (r & w' & Hrun & Hrep & _).
  - lia.
  - exact witness_watch_reachable.
  - exact I.
  - assert (r = Ok 0) as -> by (vm_compute in Hrun; congruence). exists w'. split; [exact Hrun|]. split; [exact Hrep|].
    split; [reflexivity|]. vm_compute in Hrun. injection Hrun as <-. split; reflexivity.
Defined.

(** A clock in the state of the streams, which timed waits move on; a stream is
    readable from time 1500 on. *)
Definition tick_now : St (EpollSys Z) Z := gets (λ w, Z.max 1 (others w.2)).
Definition tick_wait (d : Z) : St (EpollSys Z) unit :=
  modify (λ w, (w.1, mkEpollEnv (epolls w.2) (broadcasts w.2) (Z.max 1 (others w.2) + Z.min 1000 d))).
Definition readable_later (_ : sid) (t : Z) : Z := if 1500 <? t then POLLIN else 0.

Lemma epoll_wait_reports_ready_witness :
  ∃ fuel w', sys_epoll_wait always readable_later tick_now (mret tt) tick_wait fuel 0 false 4 5 witness_watch =
    Done (Ok (take 4 (ready_report readable_later w' 1)), w').
Proof.
  destruct (epoll_wait_reports_ready readable_later no_extra 1%nat (λ w, Z.max 1 (others w.2)) tick_now (mret tt) tick_wait
    witness_watch 0) as (_ & _ & _ & _ & H).
  - split; [done|intros w; lia|]. intros d w Hd [Hw He]. eexists. split; [done|]. split.
    + split; [|done]. by apply (epoll_ok_ext no_extra w); [|apply (eo_fds _ _ _ Hw)|..].
    + cbn. lia.
  - split; [|by eexists]. exact (reachable_epoll_ok 0 3 witness_watch ltac:(lia) witness_watch_reachable).
  - reflexivity.
  - specialize (H 4 5 ltac:(lia)). rewrite bool_decide_false in H.
    + destruct H as (fuel & w' & Hrun & _). exists fuel, w'. exact Hrun.
    + intros [?|Hr]; [lia|]. apply Hr. reflexivity.
Defined.
