(* ===== verification/FileSystemHandler.v ===== *)
(** * FileSystemHandler: [file_system_handler.{h,cc}], [permission_info.{h,cc}],
    [statfs.cc] and [DirectoryFileStream] (under src/posix_translation/)

    What a concrete file system is for the virtual file system: a record of its
    virtual methods on the state [S] of the file systems, with the base class's
    methods as the values that a class may leave.  [open] gives the constructor's
    arguments of the stream it makes. *)

From S2P Require Import Prelude BaseStrings PathUtil Util DirectoryManager.

#[local] Open Scope Z_scope.

(** ** struct stat and struct statfs *)

(** The fields that the file system reads or writes. *)
Record Stat : Type := mkStat {
  st_ino : Z; st_mode : Z; st_nlink : Z; st_uid : Z; st_gid : Z; st_size : Z; st_blksize : Z;
}.

#[export] Instance stat_eq_dec : EqDecision Stat.
Proof. solve_decision. Defined.

Definition S_IFMT : Z := 61440.
Definition S_IFDIR : Z := 16384.
Definition S_IFREG : Z := 32768.
Definition S_IFLNK : Z := 40960.
Definition S_IWUSR : Z := 128.
Definition S_IXUSR : Z := 64.
Definition S_IWGRP : Z := 16.
Definition S_IWOTH : Z := 2.
Definition S_IXOTH : Z := 1.

Definition S_ISDIR (mode : Z) : bool := Z.land mode S_IFMT =? S_IFDIR.

(** [mode & bit] as a condition. *)
Definition has (mode bit : Z) : bool := negb (Z.land mode bit =? 0).

Record StatFs : Type := mkStatFs {
  f_type : Z; f_bsize : Z; f_blocks : Z; f_bfree : Z; f_bavail : Z; f_files : Z; f_ffree : Z;
  f_fsid : Z * Z; f_namelen : Z; f_frsize : Z; f_spare : Z;
}.

Definition TMPFS_MAGIC : Z := 16914836.
Definition PROC_SUPER_MAGIC : Z := 40864.
Definition EXT2_SUPER_MAGIC : Z := 61267.
Definition SYSFS_MAGIC : Z := 1650812274.

Definition DoStatFsForDev : res StatFs :=
  Ok (mkStatFs TMPFS_MAGIC 4096 88936 88928 88928 28368 28134 (0, 0) 255 4096 4130).
Definition DoStatFsForProc : res StatFs :=
  Ok (mkStatFs PROC_SUPER_MAGIC 4096 88936 88928 88928 28368 28134 (0, 0) 255 4096 4128).
Definition DoStatFsForData : res StatFs :=
  let blocks := 2 * 1024 * 1024 * 1024 / 4096 in
  Ok (mkStatFs EXT2_SUPER_MAGIC 4096 blocks (blocks / 2) (blocks / 2) 887696 866497
        (-748642328, 77008235) 255 4096 1062).
Definition DoStatFsForSystem : res StatFs :=
  Ok (mkStatFs EXT2_SUPER_MAGIC 4096 164788 93919 93919 41856 40924 (0, 0) 255 4096 4129).
Definition DoStatFsForSys : res StatFs :=
  Ok (mkStatFs SYSFS_MAGIC 4096 0 0 0 0 0 (0, 0) 255 4096 4128).

(** ** PermissionInfo *)

Record PermissionInfo : Type := mkPermissionInfo { file_uid : Z; is_writable : bool }.

Definition kInvalidUid : Z := 2 ^ 32 - 1.
Definition PermissionInfo_new : PermissionInfo := mkPermissionInfo kInvalidUid false.
Definition IsValid (p : PermissionInfo) : bool := negb (file_uid p =? kInvalidUid).

(** ** Streams that handlers make *)

Definition O_DIRECTORY : Z := 65536.

Record NewStream : Type := mkNewStream { ns_oflag : Z; ns_pathname : str; ns_type : str }.

(** [DirectoryFileStream::DirectoryFileStream]; O_RDONLY is 0. *)
Definition DirectoryFileStream (streamtype_prefix pathname : str) : NewStream :=
  mkNewStream O_DIRECTORY pathname (streamtype_prefix ++ lit "_dir").

Definition kNLinkForDir : Z := 32.
Definition kSizeForDir : Z := 4096.
Definition kBlockSize : Z := 4096.

(** [FillStatData], given the inode number. *)
Definition DirectoryFillStatData (ino : Z) : Stat :=
  mkStat ino S_IFDIR kNLinkForDir 0 0 kSizeForDir kBlockSize.

Definition directory_ftruncate : res Z := Err EINVAL.
Definition directory_read : res Z := Err EISDIR.
Definition directory_write : res Z := Err EBADF.

(** [lseek] on the contents, which may not have been asked for. *)
Definition directory_lseek (offset : Z) (seek_set : bool) (contents : option DirImpl) :
    outcome (option DirImpl * Z) :=
  require ((offset =? 0) && seek_set) ≫= λ _, mret (rewinddir <$> contents, 0).

(** ** The class *)

Record FileSystemHandler (S : Type) : Type := mkHandler {
  IsInitialized : S → bool;
  Initialize : St S unit;
  OnMounted : str → St S unit;
  OnUnmounted : str → St S unit;
  InvalidateCache : St S unit;
  IsWorldWritable : str → St S bool;
  h_mkdir : str → Z → St S (res Z);
  h_open : Z → str → Z → Z → St S (res NewStream);
  OnDirectoryContentsNeeded : str → St S (option DirImpl);
  h_readlink : str → St S (res str);
  h_remove : str → St S (res Z);
  h_rename : str → str → St S (res Z);
  h_rmdir : str → St S (res Z);
  h_stat : str → St S (res Stat);
  h_statfs : str → St S (res StatFs);
  h_symlink : str → str → St S (res Z);
  h_truncate : str → Z → St S (res Z);
  h_unlink : str → St S (res Z);
  h_utimes : str → timeval * timeval → St S (res Z);
}.
Arguments mkHandler {S}.
Arguments IsInitialized {S}.
Arguments Initialize {S}.
Arguments OnMounted {S}.
Arguments OnUnmounted {S}.
Arguments InvalidateCache {S}.
Arguments IsWorldWritable {S}.
Arguments h_mkdir {S}.
Arguments h_open {S}.
Arguments OnDirectoryContentsNeeded {S}.
Arguments h_readlink {S}.
Arguments h_remove {S}.
Arguments h_rename {S}.
Arguments h_rmdir {S}.
Arguments h_stat {S}.
Arguments h_statfs {S}.
Arguments h_symlink {S}.
Arguments h_truncate {S}.
Arguments h_unlink {S}.
Arguments h_utimes {S}.

(** The base class; [open], [OnDirectoryContentsNeeded], [stat] and [statfs] are
    pure virtual. *)
Module Base.
Section Base.
Context {S : Type}.

Definition IsInitialized (s : S) : bool := true.
Definition Initialize (is_initialized : S → bool) : St S unit :=
  s ← get; check (negb (is_initialized s)).
Definition OnMounted (path : str) : St S unit := mret tt.
Definition OnUnmounted (path : str) : St S unit := mret tt.
Definition InvalidateCache : St S unit := mret tt.

Definition IsWorldWritable (stat : str → St S (res Stat)) (pathname : str) : St S bool :=
  st ← stat pathname;
  mret match st with
       | Ok st => has (st_mode st) S_IWUSR && has (st_mode st) S_IWGRP && has (st_mode st) S_IWOTH
       | Err _ => false
       end.

Definition mkdir (pathname : str) (mode : Z) : St S (res Z) := mret (Err EEXIST).
Definition readlink (pathname : str) : St S (res str) := mret (Err EINVAL).
Definition remove (pathname : str) : St S (res Z) := mret (Err EACCES).
Definition rename (oldpath newpath : str) : St S (res Z) :=
  mret (if bool_decide (oldpath = newpath) then Ok 0 else Err EACCES).
Definition rmdir (pathname : str) : St S (res Z) := mret (Err EACCES).
Definition symlink (oldpath newpath : str) : St S (res Z) := mret (Err EPERM).
Definition truncate (pathname : str) (length : Z) : St S (res Z) := mret (Err EINVAL).
Definition unlink (pathname : str) : St S (res Z) := mret (Err EACCES).
Definition utimes (pathname : str) (times : timeval * timeval) : St S (res Z) := mret (Err EPERM).

(** A handler that only reads. *)
Definition handler (open : Z → str → Z → Z → St S (res NewStream))
    (contents : str → St S (option DirImpl)) (stat : str → St S (res Stat))
    (statfs : str → St S (res StatFs)) : FileSystemHandler S :=
  mkHandler IsInitialized (Initialize IsInitialized) OnMounted OnUnmounted InvalidateCache
    (IsWorldWritable stat) mkdir open contents readlink remove rename rmdir stat statfs symlink
    truncate unlink utimes.
End Base.
End Base.

(** ** What the file system relies on *)

(** The calls that ask about a path answer and change nothing; the errors of
    [stat] are those the code expects. *)
Record reads {S : Type} (h : FileSystemHandler S) : Prop := {
  reads_stat : ∀ p s, ∃ r, h_stat h p s = Done (r, s) ∧
    ∀ e, r = Err e → e = ENOENT ∨ e = ENOTDIR ∨ e = EACCES;
  reads_readlink : ∀ p s, ∃ r, h_readlink h p s = Done (r, s);
  reads_world : ∀ p s, ∃ b, IsWorldWritable h p s = Done (b, s);
}.
Arguments reads_stat {S h}.
Arguments reads_readlink {S h}.
Arguments reads_world {S h}.

(** The interface of [readlink] and [stat] is kept by the base class. *)
Lemma base_reads {S} open contents (stat : str → St S (res Stat)) statfs :
  (∀ p s, ∃ r, stat p s = Done (r, s) ∧ ∀ e, r = Err e → e = ENOENT ∨ e = ENOTDIR ∨ e = EACCES) →
  reads (Base.handler open contents stat statfs).
Proof.
  intros Hstat. split; cbn.
  - done.
  - intros p s. by eexists.
  - intros p s. destruct (Hstat p s) as (r & Hr & _). unfold Base.IsWorldWritable. run_with Hr. by eexists.
Qed.

(** ** A handler for the witnesses *)

Module SmallTree.
(** The files of a directory tree that cannot be changed. *)
Definition tree := gmap str Stat.

Definition tree_handler : FileSystemHandler tree :=
  Base.handler
    (λ _ p oflag _ t,
      Done (match t !! p with
            | Some st => Ok (if S_ISDIR (st_mode st) then DirectoryFileStream (lit "tree") p
                             else mkNewStream oflag p (lit "tree"))
            | None => Err ENOENT
            end, t))
    (λ _, mret None)
    (λ p t, Done (match t !! p with Some st => Ok st | None => Err ENOENT end, t))
    (λ _, mret DoStatFsForSystem).

Lemma tree_reads : reads tree_handler.
Proof.
  apply base_reads. intros p s. eexists. split; [reflexivity|]. intros e He.
  destruct (s !! p); [done|]. injection He as <-. by left.
Qed.

Definition dir_stat : Stat := mkStat 1 (S_IFDIR + 493) 2 0 0 4096 4096.
End SmallTree.
