(* ===== verification/VfsCalls.v ===== *)
(** * VfsCalls: the calls of [virtual_file_system.cc] that hand over to a stream, and
    [socket] (under src/posix_translation/)

    What a stream can be asked for is the interface [StreamMethods]: the virtual methods of
    [FileStream].  [socket] makes the three kinds of sockets of UdpSocket.v, TcpSocket.v and
    LocalSocket.v in one store. *)

From S2P Require Import Prelude Util FileStream FdMap VfsFds DirectoryManager FileSystemHandler SocketStream LocalSocket.
From S2P Require UdpSocket TcpSocket.
Import Refs SocketUtil.

#[local] Open Scope Z_scope.

(** ** The methods of streams *)

(** [Name] is a [sockaddr] that the caller provides with its length, [Msg] a [msghdr] to
    send and [Buffers] one to be filled, [Received] that after the call with its result,
    [Argument] what an [ioctl] takes and leaves, [GetOption] and [SetOption] what the calls
    on options are given and [Value] what they find. *)
Class StreamMethods (E Name Msg Buffers Received Argument GetOption SetOption Value : Type) := {
  fs_read : sid → Z → St (Sys E) (res str);
  fs_write : sid → str → St (Sys E) (res Z);
  fs_readv : sid → list str → St (Sys E) (list str * res Z);
  fs_writev : sid → list str → St (Sys E) (res Z);
  fs_pread : sid → Z → Z → St (Sys E) (res str);
  fs_pwrite : sid → str → Z → St (Sys E) (res Z);
  fs_lseek : sid → Z → Z → St (Sys E) (res Z);
  fs_fstatfs : sid → St (Sys E) (res StatFs);
  fs_getdents : sid → Z → St (Sys E) (res str);
  fs_fdatasync : sid → St (Sys E) (res Z);
  fs_fsync : sid → St (Sys E) (res Z);
  fs_ioctl : sid → Z → Argument → St (Sys E) (res Argument);
  fs_connect : sid → Name → St (Sys E) (res Z);
  fs_bind : sid → Name → St (Sys E) (res Z);
  fs_listen : sid → Z → St (Sys E) (res Z);
  fs_accept : sid → option Name → St (Sys E) (res (Z * option Name));
  fs_getpeername : sid → Name → St (Sys E) (res Name);
  fs_getsockname : sid → Name → St (Sys E) (res Name);
  fs_send : sid → str → Z → St (Sys E) (res Z);
  fs_sendto : sid → str → Z → option Name → St (Sys E) (res Z);
  fs_sendmsg : sid → Msg → Z → St (Sys E) (res Z);
  fs_recv : sid → Z → Z → St (Sys E) (res str);
  fs_recvfrom : sid → Z → Z → option Name → St (Sys E) (res (str * option Name));
  fs_recvmsg : sid → Buffers → Z → St (Sys E) Received;
  no_message : errno → Received;
  fs_getsockopt : sid → GetOption → St (Sys E) (res Value);
  fs_setsockopt : sid → SetOption → St (Sys E) (res Z);
}.

Section Calls.
Context {E Name Msg Buffers Received Argument GetOption SetOption Value : Type}.
Context `{StreamMethods E Name Msg Buffers Received Argument GetOption SetOption Value} (allowed : sid → bool).
(** The libc function of the same name. *)
Context (arc_fs_conf : StatFs → Z → res Z).

Abbreviation C A := (St (Sys E) (res A)).

Definition GetMinFd : St (Sys E) Z := gets (λ w, min_file_id_ w.1.1).
Definition GetMaxFd : St (Sys E) Z := gets (λ w, max_file_id_ w.1.1).
Definition vfs_IsKnownDescriptor (fd : Z) : St (Sys E) bool := on_fds (IsKnownDescriptor fd).

Definition vfs_read (fd count : Z) : C str := fd_call allowed fd (λ s, fs_read s count).
Definition vfs_write (fd : Z) (buf : str) : C Z := fd_call allowed fd (λ s, fs_write s buf).

Definition vfs_readv (fd : Z) (iov : list str) : St (Sys E) (list str * res Z) :=
  stream ← on_fds (GetStream allowed fd);
  match stream with Some s => fs_readv s iov | None => mret (iov, Err EBADF) end.

Definition vfs_writev (fd : Z) (iov : list str) : C Z := fd_call allowed fd (λ s, fs_writev s iov).
Definition vfs_pread (fd count offset : Z) : C str := fd_call allowed fd (λ s, fs_pread s count offset).
Definition vfs_pwrite (fd : Z) (buf : str) (offset : Z) : C Z := fd_call allowed fd (λ s, fs_pwrite s buf offset).
Definition vfs_lseek (fd offset whence : Z) : C Z := fd_call allowed fd (λ s, fs_lseek s offset whence).
Definition vfs_fstatfs (fd : Z) : C StatFs := fd_call allowed fd fs_fstatfs.

Definition vfs_fpathconf (fd name : Z) : C Z :=
  buf ← vfs_fstatfs fd;
  mret match buf with Ok buf => arc_fs_conf buf name | Err e => Err e end.

(** [statfs] is that of VfsPaths.v. *)
Definition vfs_pathconf {S} (statfs : str → St S (res StatFs)) (pathname : str) (name : Z) : St S (res Z) :=
  buf ← statfs pathname;
  mret match buf with Ok buf => arc_fs_conf buf name | Err e => Err e end.

Definition vfs_getdents (fd count : Z) : C str := fd_call allowed fd (λ s, fs_getdents s count).
Definition vfs_fdatasync (fd : Z) : C Z := fd_call allowed fd fs_fdatasync.
Definition vfs_fsync (fd : Z) : C Z := fd_call allowed fd fs_fsync.
Definition vfs_ioctl (fd request : Z) (ap : Argument) : C Argument := fd_call allowed fd (λ s, fs_ioctl s request ap).
Definition vfs_connect (fd : Z) (serv_addr : Name) : C Z := fd_call allowed fd (λ s, fs_connect s serv_addr).
Definition vfs_bind (fd : Z) (addr : Name) : C Z := fd_call allowed fd (λ s, fs_bind s addr).
Definition vfs_listen (sockfd backlog : Z) : C Z := fd_call allowed sockfd (λ s, fs_listen s backlog).
Definition vfs_accept (sockfd : Z) (addr : option Name) : C (Z * option Name) := fd_call allowed sockfd (λ s, fs_accept s addr).
Definition vfs_getpeername (sockfd : Z) (name : Name) : C Name := fd_call allowed sockfd (λ s, fs_getpeername s name).
Definition vfs_getsockname (sockfd : Z) (name : Name) : C Name := fd_call allowed sockfd (λ s, fs_getsockname s name).
Definition vfs_send (sockfd : Z) (buf : str) (flags : Z) : C Z := fd_call allowed sockfd (λ s, fs_send s buf flags).

Definition vfs_sendto (sockfd : Z) (buf : str) (flags : Z) (dest_addr : option Name) : C Z :=
  fd_call allowed sockfd (λ s, fs_sendto s buf flags dest_addr).

Definition vfs_sendmsg (sockfd : Z) (msg : Msg) (flags : Z) : C Z := fd_call allowed sockfd (λ s, fs_sendmsg s msg flags).
Definition vfs_recv (sockfd len flags : Z) : C str := fd_call allowed sockfd (λ s, fs_recv s len flags).

Definition vfs_recvfrom (sockfd len flags : Z) (addr : option Name) : C (str * option Name) :=
  fd_call allowed sockfd (λ s, fs_recvfrom s len flags addr).

Definition vfs_recvmsg (sockfd : Z) (msg : Buffers) (flags : Z) : St (Sys E) Received :=
  stream ← on_fds (GetStream allowed sockfd);
  match stream with Some s => fs_recvmsg s msg flags | None => mret (no_message EBADF) end.

Definition vfs_getsockopt (sockfd : Z) (o : GetOption) : C Value := fd_call allowed sockfd (λ s, fs_getsockopt s o).
Definition vfs_setsockopt (sockfd : Z) (o : SetOption) : C Z := fd_call allowed sockfd (λ s, fs_setsockopt s o).
End Calls.

(** ** Local sockets as streams *)

(** The methods that [LocalSocket] overrides, and those of [FileStream] for the rest.
    [new_id] is where [accept] allocates its socket; the base class's [getpeername] and
    [getsockname] are not overridden. *)
Section LocalStreams.
Context (fresh : nat → list ascii) (pid uid : Z) (allowed valid_permission : sid → bool).
Context (fuel : nat) (Wait : St Net unit) (WaitUntil : Z → St Net bool) (Now : St Net Z).
Context (dup : Z → St Net (res Z)) (close : Z → St Net bool) (new_id : sid → sid).

Definition refused {A} (c : Defaults.syscall) : St Net (res A) :=
  mret (match Defaults.default_result c with Err e => Err e | Ok _ => Err ENOTSOCK end).

Definition local_read (s : sid) (len : Z) : St Net (res str) :=
  r ← recvfrom fuel Wait close s (Z.to_nat len) 0 false;
  mret match r.1 with Ok _ => Ok r.2 | Err e => Err e end.

Definition local_write (s : sid) (buf : str) : St Net (res Z) := sendto dup s buf false.

(** FIONREAD and FIONBIO. *)
Definition FIONREAD : Z := 21531.
Definition FIONBIO : Z := 21537.

Definition local_ioctl (s : sid) (request val : Z) : St Net (res Z) :=
  if request =? FIONREAD then l ← socket s; mret (Ok (ioctl_FIONREAD l))
  else if request =? FIONBIO then
    f ← on_stream (deref s);
    on_stream (set_object s (mkFileStream (SocketOptions.ioctl_FIONBIO val (oflag_ f)) (is_listening_enabled_ f)
                               (listeners_ f) (file_ref_count_ f) (had_file_refs_ f)));;
    mret (Ok val)
  else refused Defaults.sys_ioctl.

#[export] Instance local_methods :
    StreamMethods LocalEnv (sockaddr_un * Z) (list str * list cmsg * Z) (list nat * Z) received Z
      (local_sockopt * bool * option Z) (local_sockopt * option (list Z) * Z) (list Z * Z) := {|
  fs_read := local_read;
  fs_write := local_write;
  fs_readv s := Defaults.readv (local_read s);
  fs_writev s := Defaults.writev (local_write s);
  fs_pread s count offset := mret (Err ESPIPE);
  fs_pwrite s buf offset :=
    f ← on_stream (deref s);
    if negb (Z.land (oflag_ f) Defaults.O_APPEND =? 0) then local_write s buf else mret (Err ESPIPE);
  fs_lseek s offset whence := mret lseek;
  fs_fstatfs s := mret DoStatFsForData;
  fs_getdents s count := refused Defaults.sys_getdents;
  fs_fdatasync s := mret (Defaults.default_result Defaults.sys_fdatasync);
  fs_fsync s := mret (Defaults.default_result Defaults.sys_fsync);
  fs_ioctl := local_ioctl;
  fs_connect s a := connect fuel Wait s a.1 a.2;
  fs_bind s a := bind s a.1 a.2;
  fs_listen s backlog := listen s backlog;
  fs_accept s a :=
    r ← accept fresh pid uid valid_permission fuel WaitUntil Now s (new_id s) (bool_decide (is_Some a)) (snd <$> a);
    mret match r with Ok (fd, len) => Ok (fd, (λ a, (a.1, default a.2 len)) <$> a) | Err e => Err e end;
  fs_getpeername s a := refused Defaults.sys_getpeername;
  fs_getsockname s a := refused Defaults.sys_getsockname;
  fs_send s buf flags := sendto dup s buf false;
  fs_sendto s buf flags a := sendto dup s buf (bool_decide (is_Some a));
  fs_sendmsg s msg flags := sendmsg dup s msg.1.1 msg.1.2 msg.2;
  fs_recv s len flags := local_read s len;
  fs_recvfrom s len flags a :=
    r ← recvfrom fuel Wait close s (Z.to_nat len) flags (bool_decide (is_Some a));
    mret match r.1 with Ok _ => Ok (r.2, a) | Err e => Err e end;
  fs_recvmsg s b flags := recvmsg fuel Wait close s b.1 b.2 flags;
  no_message := recv_failed;
  fs_getsockopt s o := l ← socket s; mret (getsockopt o.1.1 o.1.2 o.2 l);
  fs_setsockopt s o :=
    l ← socket s;
    let r := setsockopt o.1.1 o.1.2 o.2 l in
    set_socket s r.2;; mret match r.1 with Ok _ => Ok 0 | Err e => Err e end;
|}.
End LocalStreams.

(** ** The calls without a stream *)

(** Every call on a number without a stream is EBADF and changes nothing. *)
Lemma no_stream_no_call {E A} extra allowed (w : Sys E) fd (method : sid → St (Sys E) (res A)) :
  fds_ok extra allowed w.1 → stream_at w.1 fd = None → fd_call allowed fd method w = Done (Err EBADF, w).
Proof.
  intros Hw Hs. unfold fd_call. rewrite (St_bind_run _ _ _ _ _ (on_fds_get_stream extra allowed w fd Hw)). by rewrite Hs.
Qed.

Lemma stream_call {E A} extra allowed (w : Sys E) fd s (method : sid → St (Sys E) (res A)) :
  fds_ok extra allowed w.1 → stream_at w.1 fd = Some s → fd_call allowed fd method w = method s w.
Proof.
  intros Hw Hs. unfold fd_call. rewrite (St_bind_run _ _ _ _ _ (on_fds_get_stream extra allowed w fd Hw)). by rewrite Hs.
Qed.

(** ** [socket] *)

(** The numbers of the C library. *)
Definition SOCK_STREAM_number : Z := 1.
Definition SOCK_DGRAM_number : Z := 2.
Definition SOCK_SEQPACKET_number : Z := 5.
Definition O_RDWR : Z := 2.

(** What a socket stream is besides its [FileStream] part. *)
Inductive SocketObject : Type :=
| UDPObject (u : UdpSocket.World)
| TCPObject (t : TcpSocket.World)
| LocalObject (l : LocalSocket).

Section Socket.
Context (fresh : nat → list ascii) (pid uid : Z).

Abbreviation Sockets := (Sys (gmap sid SocketObject)).

(** The kind of socket for a family and a type, with the flags that it is made with. *)
Definition socket_object (socket_family socket_type : Z) : option (Z * outcome SocketObject) :=
  let is_inet := (socket_family =? AF_INET) || (socket_family =? AF_INET6) in
  let local type := Some (O_RDWR, LocalSocket_new fresh pid uid type READ_WRITE ≫= λ l, mret (LocalObject l)) in
  if is_inet && (socket_type =? SOCK_DGRAM_number) then
    Some (0, UdpSocket.UDPSocket_new socket_family 0 ≫= λ u, mret (UDPObject u))
  else if is_inet && (socket_type =? SOCK_STREAM_number) then
    Some (O_RDWR, TcpSocket.TCPSocket_new socket_family O_RDWR ≫= λ t, mret (TCPObject t))
  else if (socket_family =? AF_UNIX) && (socket_type =? SOCK_STREAM_number) then local SOCK_STREAM
  else if (socket_family =? AF_UNIX) && (socket_type =? SOCK_SEQPACKET_number) then local SOCK_SEQPACKET
  else if (socket_family =? AF_UNIX) && (socket_type =? SOCK_DGRAM_number) then local SOCK_DGRAM
  else None.

(** [s] is where the object is allocated. *)
Definition vfs_socket (s : sid) (socket_family socket_type : Z) : St Sockets (res Z) :=
  fd ← on_fds GetFirstUnusedDescriptorLocked;
  if fd <? 0 then mret (Err EMFILE)
  else
    match socket_object socket_family socket_type with
    | None => on_fds (RemoveFileStream fd);; mret (Err EAFNOSUPPORT)
    | Some (oflag, object) =>
        w ← get;
        check (bool_decide (objects w.1.2 !! s = None));;
        o ← lift object;
        on_fds (on_streams (set_object s (new_stream oflag true)));;
        modify (λ w, (w.1, <[s := o]> w.2));;
        on_fds (AddFileStream fd (Some s));;
        mret (Ok fd)
    end.
End Socket.
