(* ===== verification/VfsCallsProperties.v ===== *)
(** * VfsCallsProperties: sockets and pipes by their descriptors

    [socket] and [AddFileStream] on the table of VfsFds.v, and what goes through the
    descriptors that [pipe2] and [socketpair] give: the theorems on LocalSocket.v's pairs,
    seen by a caller who has nothing but the numbers. *)

From S2P Require Import Prelude Util FileStream FdMap VfsFds CircularBuffer SocketStream.
From S2P Require Import LocalSocket LocalSocketFacts LocalConnections VfsCalls.
From S2P Require UdpSocket TcpSocket.
Import Refs SocketUtil Channels ChannelProofs.

#[local] Open Scope Z_scope.

(** ** socket *)

Section Socket.
Context (extra : sid → Z) (allowed : sid → bool).
Context (fresh : nat → list ascii) (pid uid : Z).

(** The constructors find the arguments that they assert. *)
Lemma socket_object_made family type flags o :
  socket_object fresh pid uid family type = Some (flags, o) → ∃ a, o = Done a.
Proof.
  unfold socket_object.
  cbv zeta. destruct (((family =? AF_INET) || (family =? AF_INET6)) && (type =? SOCK_DGRAM_number)) eqn:E1.
  { apply andb_prop in E1 as [E1 _]. intros [= <- <-]. unfold UdpSocket.UDPSocket_new. rewrite E1, require_true. by eexists. }
  destruct (((family =? AF_INET) || (family =? AF_INET6)) && (type =? SOCK_STREAM_number)) eqn:E2.
  { apply andb_prop in E2 as [E2 _]. intros [= <- <-]. unfold TcpSocket.TCPSocket_new. rewrite E2, require_true. by eexists. }
  destruct ((family =? AF_UNIX) && (type =? SOCK_STREAM_number)); [intros [= <- <-]; by eexists|].
  destruct ((family =? AF_UNIX) && (type =? SOCK_SEQPACKET_number)); [intros [= <- <-]; by eexists|].
  destruct ((family =? AF_UNIX) && (type =? SOCK_DGRAM_number)); [intros [= <- <-]; by eexists|done].
Qed.

(** [socket] takes the lowest free number for a new socket of the kind that was asked for,
    or gives its number back. *)
Theorem socket_creation (w : Sys (gmap sid SocketObject)) s family type :
  fds_ok extra allowed w.1 → objects w.1.2 !! s = None →
  ∃ r w', vfs_socket fresh pid uid s family type w = Done (r, w') ∧ fds_ok extra allowed w'.1 ∧
    match r with
    | Ok fd =>
        first_unused w.1.1 fd ∧ 0 <= fd ∧ streams_ w'.1.1 = <[fd := Some s]> (streams_ w.1.1) ∧
        ∃ flags o, socket_object fresh pid uid family type = Some (flags, Done o) ∧ w'.2 = <[s := o]> w.2 ∧
          ∃ f, objects w'.1.2 !! s = Some f ∧ oflag_ f = flags
    | Err e =>
        streams_ w'.1.1 = streams_ w.1.1 ∧ w'.2 = w.2 ∧
        (e = EMFILE ∧ (∀ x, in_range w.1.1 x → is_Some (streams_ w.1.1 !! x)) ∨
         e = EAFNOSUPPORT ∧ socket_object fresh pid uid family type = None)
    end.
Proof.
  intros Hw Hs. unfold vfs_socket, GetFirstUnusedDescriptorLocked.
  destruct (first_unused_run extra allowed w.1 Hw) as (fd & t1 & G1 & F1 & Hw1 & R1 & M1).
  run_with (on_fds_run _ w _ _ G1). pose proof (first_unused_streams _ _ _ G1) as S1.
  destruct (decide (fd = -1)) as [->|Hn].
  { exists (Err EMFILE), (t1, w.2). split; [done|]. split; [done|]. split; [done|]. split; [done|]. left. split; [done|].
    destruct F1 as [[_ F1]|[[Hr _] _]]; [done|]. pose proof (ok_min _ (fo_table _ _ _ Hw)). lia. }
  pose proof (first_unused_nonneg _ _ _ _ Hw F1 Hn) as Hpos. rewrite (proj2 (Z.ltb_ge fd 0)) by lia.
  rewrite (proj2 (Z.eqb_neq fd (-1))) in M1 by done. cbv iota in M1.
  destruct F1 as [[? _]|F1]; [done|]. pose proof F1 as (I1 & N1 & _).
  destruct (socket_object _ _ _ _ _) as [[flags object]|] eqn:Eo.
  - destruct (socket_object_made _ _ _ _ Eo) as (o & ->).
    rewrite (St_bind_run get _ _ (t1, w.2) (t1, w.2) eq_refl). cbn [fst snd].
    rewrite S1, bool_decide_true by done. rewrite (St_bind_run (check true) _ _ tt (t1, w.2) eq_refl).
    rewrite (St_bind_run (lift (Done o)) _ _ o (t1, w.2) eq_refl).
    set (t2 := (t1.1, mkStreams (<[s := new_stream flags true]> (objects t1.2)) (calls t1.2))).
    rewrite (St_bind_run (on_fds (on_streams (set_object s (new_stream flags true)))) _ (t1, w.2) tt (t2, w.2) eq_refl).
    rewrite (St_bind_run (modify _) _ (t2, w.2) tt (t2, <[s := o]> w.2) eq_refl).
    assert (fds_ok extra allowed t2) as Hw2.
    { pose proof (fds_ok_new_object extra allowed t1.1 t1.2 s flags true) as Hnew. apply Hnew; [by destruct t1|by rewrite S1]. }
    assert (objects t2.2 !! s = Some (new_stream flags true)) as O2 by apply lookup_insert_eq.
    destruct (add_run extra allowed t2 fd s Hw2) as (t3 & A3 & Hw3 & _ & M3).
    { by apply R1. } { right. cbn. by rewrite M1, lookup_insert_eq. } { by eapply new_stream_open. }
    run_with (on_fds_run _ (t2, <[s := o]> w.2) _ _ A3). destruct (add_file_stream_run _ _ _ _ A3) as (f & F3 & S3).
    rewrite O2 in F3. injection F3 as <-.
    eexists _, _. split; [done|]. split; [done|]. split; [by right|]. split; [done|]. split.
    { cbn [fst]. rewrite M3. cbn. by rewrite M1, insert_insert_eq. }
    exists flags, o. split; [done|]. split; [done|]. cbn [fst snd]. rewrite S3. eexists. split; [apply lookup_insert_eq|done].
  - destruct (remove_file_stream_step extra t1 fd) as (t2 & G2 & Hs2); [apply Hw1|apply Hw1| |].
    { rewrite M1, lookup_insert_eq. eauto. }
    run_with (on_fds_run _ (t1, w.2) _ _ G2). eexists _, _. split; [done|]. split; [by eapply step_fds_ok|].
    split; [cbn [fst]; rewrite (so_map _ _ _ _ Hs2), M1; by rewrite delete_insert_id|]. split; [done|]. by right.
Qed.
End Socket.

(** ** The table while sockets are used *)

(** Neither a descriptor nor a stream comes, goes or is counted differently. *)
Definition steady (w w' : Net) : Prop := w'.1.1 = w.1.1 ∧ objects w'.1.2 = objects w.1.2.

(** What [m] does when it ends, [m'] does too, and the table stays. *)
Definition within {A} (m m' : St Net A) : Prop :=
  ∀ w a w', m w = Done (a, w') → m' w = Done (a, w') ∧ steady w w'.

Lemma within_bind {A B} (m m' : St Net A) (k k' : A → St Net B) :
  within m m' → (∀ a, within (k a) (k' a)) → within (m ≫= k) (m' ≫= k').
Proof.
  intros Hm Hk w b w'. unfold mbind, St_bind. destruct (m w) as [[a w1]| |] eqn:E; [|done..].
  destruct (Hm _ _ _ E) as [-> [T1 O1]]. intros E2. destruct (Hk a _ _ _ E2) as [-> [T2 O2]].
  split; [done|]. split; congruence.
Qed.

Lemma within_ret {A} (a : A) : within (mret a) (mret a).
Proof. by intros w a' w' [= <- <-]. Qed.

Lemma within_get : within get get.
Proof. by intros w a w' [= <- <-]. Qed.

Lemma within_check b : within (check b) (check b).
Proof. intros w a w'. unfold check. destruct b; [|done]. by intros [= <- <-]. Qed.

Lemma within_lift {A} (m : outcome A) : within (lift m) (lift m).
Proof. intros w a w'. unfold lift. destruct m; [|done..]. by intros [= <- <-]. Qed.

Lemma within_fatal {A} (m : St Net A) : within fatal m.
Proof. done. Qed.

Lemma within_socket s : within (socket s) (socket s).
Proof. intros w a w'. unfold socket. destruct (sockets w.2 !! s); [|done]. by intros [= <- <-]. Qed.

Lemma within_set_socket s l : within (set_socket s l) (set_socket s l).
Proof. by intros w a w' [= <- <-]. Qed.

Lemma within_update s f : within (update s f) (update s f).
Proof. apply within_bind; [apply within_socket|]. intros l. apply within_set_socket. Qed.

Lemma within_broadcast : within Broadcast Broadcast.
Proof. by intros w a w' [= <- <-]. Qed.

Lemma vcalls_objects ls s w u w' :
  for_each (λ l, CheckNotClosed l;; vcall_ (CallHandleNotificationFrom l s false)) ls w = Done (u, w') →
  objects w' = objects w.
Proof.
  revert w. induction ls as [|l ls IH]; intros w; cbn [for_each]; [by intros [= _ <-]|].
  unfold CheckNotClosed, deref, check, vcall_, modify, mbind, St_bind in *.
  destruct (objects w !! l) as [f|]; [|done]. destruct (negb (IsClosed f)); [|done].
  intros E. by rewrite (IH _ E).
Qed.

Lemma within_notify s : within (on_stream (NotifyListeners s)) (on_stream (NotifyListeners s)).
Proof.
  intros w a w' E. split; [done|]. revert E. unfold on_stream, on_fds, on_streams.
  destruct (NotifyListeners s w.1.2) as [[u st]| |] eqn:En; [|done..]. intros [= <- <-]. split; [done|]. cbn.
  revert En. unfold NotifyListeners, deref, check, mbind, St_bind. destruct (objects w.1.2 !! s) as [f|]; [|done].
  destruct (is_listening_enabled_ f); [|done]. destruct (IsClosed f); [by intros [= _ <-]|].
  apply vcalls_objects.
Qed.

Lemma within_block s : within (is_block s) (is_block s).
Proof.
  intros w a w' E. split; [done|]. revert E. unfold is_block, oflag, on_stream, on_fds, on_streams, deref, mbind, St_bind.
  destruct (objects w.1.2 !! s); [|done]. by intros [= _ <-].
Qed.

Ltac within_with known :=
  repeat first
    [ known | apply within_ret | apply within_get | apply within_check | apply within_lift | apply within_fatal
    | apply within_socket | apply within_set_socket | apply within_update | apply within_broadcast
    | apply within_notify | apply within_block
    | apply within_bind; [|intros ?]
    | progress cbv beta iota
    | case_match ].

Ltac within := within_with fail.

Lemma within_dup_fds dup fds : within (dup_fds (λ _, fatal) fds) (dup_fds dup fds).
Proof. destruct fds; cbn [dup_fds]; [apply within_ret|]. unfold fatal. by intros w a w'. Qed.

Lemma within_send_control dup control : within (send_control (λ _, fatal) control) (send_control dup control).
Proof.
  induction control as [|c control IH]; cbn [send_control]; [apply within_ret|].
  destruct c; [|apply within_fatal..]. apply within_bind; [apply within_dup_fds|]. intros sent.
  apply within_bind; [apply IH|]. intros r. apply within_ret.
Qed.

Lemma within_handle dup s iov control n cred :
  within (HandleSendmsgLocked (λ _, fatal) s iov control n cred) (HandleSendmsgLocked dup s iov control n cred).
Proof. unfold HandleSendmsgLocked. within_with ltac:(apply within_send_control). Qed.

Lemma within_sendmsg dup s iov control n : within (sendmsg (λ _, fatal) s iov control n) (sendmsg dup s iov control n).
Proof. unfold sendmsg. within_with ltac:(apply within_handle). Qed.

Lemma within_trim close n fds : within (trim_fds (λ _, fatal) n fds) (trim_fds close n fds).
Proof.
  induction fds as [|fd fds IH]; cbn [trim_fds]; [apply within_ret|]. case_match; [|apply within_ret]. apply within_bind; [apply within_fatal|]. intros _. apply IH.
Qed.

Lemma within_recv_control close s cred n : within (recv_control (λ _, fatal) s cred n) (recv_control close s cred n).
Proof. unfold recv_control. within_with ltac:(apply within_trim). Qed.

Lemma within_recv_data s lens : within (recv_data s lens) (recv_data s lens).
Proof. unfold recv_data. within. Qed.

Lemma within_recv_finish close s lens n : within (recv_finish (λ _, fatal) s lens n) (recv_finish close s lens n).
Proof.
  unfold recv_finish. within_with ltac:(first [apply within_recv_data | apply within_recv_control]).
Qed.

(** With MSG_DONTWAIT, the number of rounds of waiting does not matter. *)
Lemma within_recvmsg fuel Wait close s lens n :
  within (recvmsg 0 fatal (λ _, fatal) s lens n MSG_DONTWAIT) (recvmsg fuel Wait close s lens n MSG_DONTWAIT).
Proof.
  unfold recvmsg. apply within_bind; [unfold recv_start; within|]. intros [e|]; [apply within_ret|].
  apply within_bind; [apply within_block|]. intros b. change (Z.land MSG_DONTWAIT MSG_DONTWAIT =? 0) with false.
  rewrite andb_false_r. apply within_bind; [apply within_ret|]. intros _. apply within_recv_finish.
Qed.

(** ** Pairs by their descriptors *)

Lemma steady_fds_ok extra allowed (w w' : Net) : fds_ok extra allowed w.1 → steady w w' → fds_ok extra allowed w'.1.
Proof.
  destruct w as [[t [o c]] e], w' as [[t' [o' c']] e']. intros [Ht [R1 R2 R3] Ha] [E1 E2]. cbn in *. subst.
  split; [done| |done]. by split.
Qed.

Section Pairs.
Context (extra : sid → Z) (allowed : sid → bool).
Context (fresh : nat → list ascii) (Hfresh : ∀ n, List.length (fresh n) = n) (pid uid : Z).
Context (valid_permission : sid → bool) (fuel : nat) (Wait : St Net unit) (WaitUntil : Z → St Net bool).
Context (Now : St Net Z) (dup : Z → St Net (res Z)) (close : Z → St Net bool) (new_id : sid → sid).

#[local] Existing Instance local_methods.
#[local] Instance local_streams : StreamMethods LocalEnv (sockaddr_un * Z) (list str * list cmsg * Z) (list nat * Z)
  received Z (local_sockopt * bool * option Z) (local_sockopt * option (list Z) * Z) (list Z * Z) :=
  local_methods fresh pid uid valid_permission fuel Wait WaitUntil Now dup close new_id.

(** The system calls, on the descriptors of the ends. *)
Definition run_fd_op (fds : side → Z) (o : pair_op) : St Net answer :=
  match o with
  | PSend e iov => r ← vfs_sendmsg (H := local_streams) allowed (fds e) (iov, [], 0) 0; mret (sent r)
  | PRecv e lens =>
      v ← vfs_recvmsg (H := local_streams) allowed (fds e) (lens, 0) MSG_DONTWAIT;
      mret (mkAnswer (rv_segments v) (rv_flags v) (rv_control v) (rv_result v))
  end.

Fixpoint run_fd_ops (fds : side → Z) (os : list pair_op) : St Net (list answer) :=
  match os with
  | [] => mret []
  | o :: os => a ← run_fd_op fds o; r ← run_fd_ops fds os; mret (a :: r)
  end.

Record at_descriptors (w : Net) (fds : side → Z) (at_ : side → sid) (p : pair) : Prop := {
  ad_fds : fds_ok extra allowed w.1;
  ad_streams : ∀ e, stream_at w.1 (fds e) = Some (at_ e);
  ad_pair : represents w at_ p;
}.

(** A call through the table is the call on the end. *)
Lemma fd_op_run w fds at_ p o :
  at_descriptors w fds at_ p →
  ∃ w', run_fd_op fds o w = Done ((spec_pair_op o p).1, w') ∧ w'.1.1 = w.1.1 ∧
    at_descriptors w' fds at_ (spec_pair_op o p).2.
Proof.
  intros [Hf Hs Hp]. destruct (pair_op_run (λ _, fatal) (λ _, fatal) fatal at_ w p o Hp) as (w' & Hrun & Hp').
  assert (within (run_pair_op (λ _, fatal) (λ _, fatal) fatal at_ o)
    (match o with
     | PSend e iov => r ← sendmsg dup (at_ e) iov [] 0; mret (sent r)
     | PRecv e lens =>
         v ← recvmsg fuel Wait close (at_ e) lens 0 MSG_DONTWAIT;
         mret (mkAnswer (rv_segments v) (rv_flags v) (rv_control v) (rv_result v))
     end)) as Hw.
  { destruct o; (apply within_bind; [|intros a; apply within_ret]); [apply within_sendmsg|apply within_recvmsg]. }
  destruct (Hw _ _ _ Hrun) as [Hrun' [Ht Ho]]. exists w'. split; [|split; [done|]].
  - rewrite <-Hrun'. destruct o as [e iov|e lens]; cbn [run_fd_op].
    + unfold vfs_sendmsg, mbind, St_bind. rewrite (stream_call extra allowed w (fds e) (at_ e)) by done. done.
    + unfold vfs_recvmsg, mbind at 1, St_bind at 1. unfold mbind at 1, St_bind at 1.
      rewrite (on_fds_get_stream extra allowed w (fds e) Hf), Hs. done.
  - split; [by eapply steady_fds_ok| |done]. intros e. unfold stream_at. rewrite Ht. apply Hs.
Qed.

Lemma fd_ops_run w fds at_ p os :
  at_descriptors w fds at_ p →
  ∃ w', run_fd_ops fds os w = Done ((spec_pair_ops os p).1, w') ∧ w'.1.1 = w.1.1 ∧
    at_descriptors w' fds at_ (spec_pair_ops os p).2.
Proof.
  revert w p. induction os as [|o os IH]; intros w p Hp; cbn [run_fd_ops spec_pair_ops]; [by exists w|].
  destruct (fd_op_run w fds at_ p o Hp) as (w1 & Hrun & Ht & Hp1). run_with Hrun.
  destruct (spec_pair_op o p) as [a p1]. cbn [fst snd] in *.
  destruct (IH w1 p1 Hp1) as (w2 & Hrun2 & Ht2 & Hp2). run_with Hrun2.
  revert Hp2. destruct (spec_pair_ops os p1) as [r p2]. intros Hp2. exists w2. split; [done|]. split; [congruence|done].
Qed.

Definition two_numbers (fd1 fd2 : Z) (e : side) : Z := match e with Left => fd1 | Right => fd2 end.

Lemma pair_made_at w s1 s2 p fd1 fd2 w1 :
  pair_made extra allowed w s1 s2 p (Ok (fd1, fd2)) w1 → at_descriptors w1 (two_numbers fd1 fd2) (two_ends s1 s2) p.
Proof.
  intros (Hf & _ & _ & _ & _ & Hlt & _ & Hm & Hp). split; [done| |done]. unfold stream_at. rewrite Hm.
  intros [|]; cbn; [rewrite lookup_insert_ne by lia|]; by rewrite lookup_insert_eq.
Qed.

(** The calls that make a pair. *)
Inductive pair_call : Type := CallPipe2 (flags : Z) | CallSocketpair (type : socket_type).

Definition run_pair_call (k : pair_call) (s1 s2 : sid) : St Net (res (Z * Z)) :=
  match k with
  | CallPipe2 flags => pipe2 fresh pid uid s1 s2 flags
  | CallSocketpair type => socketpair fresh pid uid s1 s2 AF_UNIX (Some type) 0 false
  end.

Definition pair_of_call (k : pair_call) : pair :=
  let cred := mkUcred pid uid uid in
  match k with
  | CallPipe2 _ => new_pair SOCK_STREAM READ_ONLY WRITE_ONLY cred cred
  | CallSocketpair type => new_pair type READ_WRITE READ_WRITE cred cred
  end.

(** C32.  A caller who knows only the two numbers.  After [pipe2] or [socketpair] has given
    two descriptors, [sendmsg] and not waiting [recvmsg] calls on the numbers, in any order,
    find their sockets through the table and are answered by the two channels of an empty
    pair: what goes into one number comes out of the other, whole and in order.  The calls
    trip no assertion and leave every descriptor as it was. *)
Theorem pairs_by_their_descriptors (k : pair_call) (w w1 : Net) s1 s2 fd1 fd2 os :
  fds_ok extra allowed w.1 → s1 ≠ s2 → objects w.1.2 !! s1 = None → objects w.1.2 !! s2 = None →
  run_pair_call k s1 s2 w = Done (Ok (fd1, fd2), w1) →
  ∃ w2, run_fd_ops (two_numbers fd1 fd2) os w1 = Done ((spec_pair_ops os (pair_of_call k)).1, w2) ∧
    w2.1.1 = w1.1.1.
Proof.
  intros Hw Hne O1 O2 Hrun.
  assert (pair_made extra allowed w s1 s2 (pair_of_call k) (Ok (fd1, fd2)) w1) as Hm.
  { destruct k as [flags|type]; cbn in Hrun |- *; unfold pipe2, socketpair in Hrun; cbn in Hrun.
    - destruct (two_descriptors_run extra allowed fresh Hfresh pid uid w s1 s2 flags SOCK_STREAM READ_ONLY WRITE_ONLY)
        as (r & w' & E & Hm); [done..|]. rewrite E in Hrun. by injection Hrun as -> ->.
    - destruct (two_descriptors_run extra allowed fresh Hfresh pid uid w s1 s2 0 type READ_WRITE READ_WRITE)
        as (r & w' & E & Hm); [done..|]. rewrite E in Hrun. by injection Hrun as -> ->. }
  destruct (fd_ops_run w1 _ _ _ os (pair_made_at _ _ _ _ _ _ _ Hm)) as (w2 & Hops & Ht & _). by exists w2.
Qed.
End Pairs.

(** ** Witnesses *)

Definition no_sockets : LocalEnv := mkLocalEnv ∅ (AbstractSocketNamespace.mkAbstract ∅ 1) ∅ 0.
Definition filled (n : nat) : list ascii := repeat "?"%char n.

Definition datagram_pair : Net :=
  match run_pair_call filled 1 2 (CallSocketpair SOCK_DGRAM) 8 9 (witness_world, no_sockets) with
  | Done (_, w) => w
  | _ => (witness_world, no_sockets)
  end.

Lemma pairs_by_their_descriptors_witness :
  run_pair_call filled 1 2 (CallSocketpair SOCK_DGRAM) 8 9 (witness_world, no_sockets) = Done (Ok (2, 3), datagram_pair) ∧
  ∃ w2, run_fd_ops (λ _, true) filled 1 2 (λ _, true) 0 fatal (λ _, fatal) fatal (λ _, fatal) (λ _, fatal) id
      (two_numbers 2 3)
      [PSend Left [lit "ab"; lit "cde"]; PSend Left [lit "x"]; PRecv Right [2%nat; 2%nat]; PRecv Right [9%nat];
       PRecv Left [9%nat]] datagram_pair =
    Done ([sent (Ok 5); sent (Ok 1); mkAnswer [lit "ab"; lit "cd"] MSG_TRUNC [] (Ok 4);
           mkAnswer [lit "x"] 0 [] (Ok 1); mkAnswer [] 0 [] (Err EAGAIN)], w2).
Proof.
  split; [vm_compute; reflexivity|].
  destruct (pairs_by_their_descriptors no_extra (λ _, true) filled (repeat_length _) 1 2 (λ _, true) 0 fatal (λ _, fatal)
    fatal (λ _, fatal) (λ _, fatal) id (CallSocketpair SOCK_DGRAM) (witness_world, no_sockets) datagram_pair 8 9 2 3
    [PSend Left [lit "ab"; lit "cde"]; PSend Left [lit "x"]; PRecv Right [2%nat; 2%nat]; PRecv Right [9%nat];
     PRecv Left [9%nat]]) as (w2 & Hrun & _).
  - exact DescriptorProperties.witness_fds_ok.
  - done.
  - reflexivity.
  - reflexivity.
  - vm_compute. reflexivity.
  - exists w2. exact Hrun.
Defined.

(** A stream socket takes the number 2, and an unknown family none. *)
Example sockets_made :
  (∃ w, vfs_socket filled 1 2 8 AF_INET SOCK_STREAM_number (witness_world, ∅) = Done (Ok 2, w)) ∧
  (∃ w, vfs_socket filled 1 2 8 99 SOCK_STREAM_number (witness_world, ∅) = Done (Err EAFNOSUPPORT, w)).
Proof. split; eexists; vm_compute; reflexivity. Qed.
