(* ===== verification/Devices.v ===== *)
(** * Devices: [device_file.{h,cc}], [dev_null.cc], [dev_zero.cc], [dev_urandom.cc],
    [dev_alarm.cc], and the handler of [dev_ashmem.cc] (under src/posix_translation/)

    The numbers of devices, the handlers that open them, and the streams; the
    memory that they map is HostMemory.v's, and the source of random bytes, the
    clocks and [makedev] are parameters. *)

From S2P Require Import Prelude Util DirectoryManager FileStream MemoryRegion VfsMemory HostMemory FileSystemHandler.

#[local] Open Scope Z_scope.

Definition S_IFCHR : Z := 8192.

(** A [struct stat] with the numbers of the device. *)
Record DeviceStat : Type := mkDeviceStat { ds_stat : Stat; st_dev : Z; st_rdev : Z }.

(** The state: [device_id_map_], once it was made. *)
Abbreviation DeviceIdMap := (option (gmap str Z)).

Section Handlers.
Context (makedev : Z → Z → Z) (GetInodeLocked : str → Z).

Definition AddDeviceId (pathname : str) (major_id minor_id : Z) : St DeviceIdMap unit :=
  m ← get;
  let m := default ∅ m in
  match m !! pathname with
  | Some id => put (Some m);; check (id =? makedev major_id minor_id)
  | None => put (Some (<[pathname := makedev major_id minor_id]> m))
  end.

Definition GetDeviceId (pathname : str) : St DeviceIdMap Z :=
  m ← get;
  match (m ≫= (.!! pathname) : option Z) with Some id => mret id | None => fatal end.

(** [DoStatLocked] of the devices; the alarm has its own. *)
Definition DoStatLocked (pathname : str) (mode : Z) : St DeviceIdMap DeviceStat :=
  id ← GetDeviceId pathname;
  mret (mkDeviceStat (mkStat (GetInodeLocked pathname) mode 1 0 0 0 4096) 0 id).

Definition DoStatLocked_alarm (pathname : str) : St DeviceIdMap DeviceStat :=
  id ← GetDeviceId pathname;
  mret (mkDeviceStat (mkStat (GetInodeLocked pathname) (Z.lor S_IFCHR 436) 1 1000 1001 0 4096) 11 id).

(** [open] of each handler; the stream type is that of [GetStreamType]. *)
Definition device_open (type : str) (pathname : str) (oflag : Z) : res NewStream :=
  if has oflag O_DIRECTORY then Err ENOTDIR else Ok (mkNewStream oflag pathname type).

Definition device_handler (type : str) (stat : str → St DeviceIdMap DeviceStat) : FileSystemHandler DeviceIdMap :=
  Base.handler (λ _ pathname oflag _, mret (device_open type pathname oflag))
    (λ _, mret None)
    (λ pathname, s ← stat pathname; mret (Ok (ds_stat s)))
    (λ _, mret DoStatFsForDev).

Definition rw_for_all : Z := Z.lor S_IFCHR 438.

Definition DevNullHandler (mode : Z) : FileSystemHandler DeviceIdMap :=
  device_handler "dev_null" (λ p, DoStatLocked p mode).
Definition DevZeroHandler : FileSystemHandler DeviceIdMap := device_handler "dev_zero" (λ p, DoStatLocked p rw_for_all).
Definition DevUrandomHandler : FileSystemHandler DeviceIdMap := device_handler "dev_urandom" (λ p, DoStatLocked p rw_for_all).
Definition DevAshmemHandler : FileSystemHandler DeviceIdMap := device_handler "ashmem" (λ p, DoStatLocked p rw_for_all).
Definition DevAlarmHandler : FileSystemHandler DeviceIdMap := device_handler "alarm" DoStatLocked_alarm.
End Handlers.

(** ** The streams *)

(** [DeviceStream] *)
Definition device_fdatasync : res Z := Err EINVAL.
Definition device_fsync : res Z := Err EINVAL.
Definition device_fstatfs : res StatFs := DoStatFsForDev.

Section Streams.
Context `{HostMemory M}.

Definition null_mmap (addr length prot flags offset : Z) : St M (res Z) :=
  if Z.land flags MAP_TYPE =? MAP_SHARED then mret (Err ENODEV)
  else host_mmap addr length prot (Z.lor flags MAP_ANONYMOUS) (-1) offset.
Definition null_munmap (addr length : Z) : St M (res unit) := host_munmap addr length.
Definition null_read (count : Z) : res str := Ok [].

(** [ssize_t] has 32 bits; also for [DevZero]. *)
Definition null_write (count : Z) : res Z := Ok (to_signed 32 count).

Definition zero_mmap (addr length prot flags offset : Z) : St M (res Z) :=
  host_mmap addr length prot (Z.lor flags MAP_ANONYMOUS) (-1) offset.
Definition zero_munmap (addr length : Z) : St M (res unit) := host_munmap addr length.
Definition zero_read (count : Z) : res str := Ok (replicate (Z.to_nat count) NUL).
Definition zero_write (count : Z) : res Z := Ok (to_signed 32 count).
End Streams.

Section Urandom.
(** [random_.get_random_bytes]: an error, or the bytes. *)
Context {R : Type} (get_random_bytes : Z → St R (option str)).

Definition GetRandomBytes (count : Z) : St R (option str) := get_random_bytes count.

Definition urandom_read (count : Z) : St R (res str) :=
  r ← GetRandomBytes count; mret match r with Some bs => Ok bs | None => Err EIO end.
Definition urandom_write (count : Z) : res Z := Err EPERM.
End Urandom.

(** Of a request: the command, and the type of the alarm. *)
Inductive alarm_command : Type :=
| ANDROID_ALARM_GET_TIME
| ANDROID_ALARM_CLEAR
| ANDROID_ALARM_SET_AND_WAIT
| ANDROID_ALARM_SET
| ANDROID_ALARM_WAIT
| ANDROID_ALARM_SET_RTC
| OtherCommand.

Inductive alarm_type : Type :=
| ANDROID_ALARM_RTC_WAKEUP
| ANDROID_ALARM_RTC
| ANDROID_ALARM_ELAPSED_REALTIME_WAKEUP
| ANDROID_ALARM_ELAPSED_REALTIME
| ANDROID_ALARM_SYSTEMTIME
| OtherType.

Inductive clock_id : Type := CLOCK_REALTIME | CLOCK_MONOTONIC.

Section Alarm.
(** What [clock_gettime] stores. *)
Context {C : Type} (clock_gettime : clock_id → C).

Definition alarm_read (count : Z) : res str := Err EINVAL.
Definition alarm_write (count : Z) : res Z := Err EBADF.

(** [out] tells whether the pointer is not null; the answer is what is stored there. *)
Definition GetTime (type : alarm_type) (out : bool) : res C :=
  if negb out then Err EFAULT
  else
    match type with
    | ANDROID_ALARM_RTC_WAKEUP | ANDROID_ALARM_RTC => Ok (clock_gettime CLOCK_REALTIME)
    | ANDROID_ALARM_ELAPSED_REALTIME_WAKEUP | ANDROID_ALARM_ELAPSED_REALTIME => Ok (clock_gettime CLOCK_MONOTONIC)
    | ANDROID_ALARM_SYSTEMTIME => Ok (clock_gettime CLOCK_MONOTONIC)
    | OtherType => Err EINVAL
    end.

Definition alarm_ioctl (command : alarm_command) (type : alarm_type) (out : bool) : res C :=
  match command with
  | ANDROID_ALARM_GET_TIME => GetTime type out
  | OtherCommand => Err EINVAL
  | _ => Err ENOSYS
  end.
End Alarm.

(** ** What they give *)

(** Every registered device but the alarm can be written by all users. *)
Lemma devices_are_world_writable makedev GetInodeLocked pathname major minor m m' :
  AddDeviceId makedev pathname major minor m = Done (tt, m') →
  IsWorldWritable (DevNullHandler GetInodeLocked rw_for_all) pathname m' = Done (true, m') ∧
  IsWorldWritable (DevAshmemHandler GetInodeLocked) pathname m' = Done (true, m') ∧
  IsWorldWritable (DevAlarmHandler GetInodeLocked) pathname m' = Done (false, m') ∧
  ∃ st, h_stat (DevZeroHandler GetInodeLocked) pathname m' = Done (Ok st, m').
Proof.
  intros Ha.
  assert (m' ≫= (.!! pathname) = Some (makedev major minor)) as Hid.
  { unfold AddDeviceId, mbind, St_bind, get, put, check in Ha. cbv beta zeta in Ha.
    destruct (default ∅ m !! pathname) as [id|] eqn:E.
    - destruct (Z.eqb_spec id (makedev major minor)) as [->|]; [|done]. by injection Ha as <-.
    - injection Ha as <-. cbn. apply lookup_insert_eq. }
  assert (GetDeviceId pathname m' = Done (makedev major minor, m')) as Hget.
  { unfold GetDeviceId, mbind, St_bind, get. cbv beta. destruct m' as [ids|]; [|done]. cbn in *. by rewrite Hid. }
  unfold DevNullHandler, DevAshmemHandler, DevAlarmHandler, DevZeroHandler, device_handler. cbn.
  unfold Base.IsWorldWritable, DoStatLocked, DoStatLocked_alarm, mbind, St_bind. rewrite Hget.
  split; [done|]. split; [done|]. split; [done|]. by eexists.
Qed.

(** Mapping /dev/zero, or /dev/null privately, gives memory that nobody had, full of zeros. *)
Lemma zero_memory `{HostMemorySpec page_size M} addr length prot flags offset (m : M) a m' :
  0 < length → (page_size | length) → flag flags MAP_FIXED = false →
  zero_mmap addr length prot flags offset m = Done (Ok a, m') ∨ null_mmap addr length prot flags offset m = Done (Ok a, m') →
  (∀ i, a <= i < a + length → byte_at m i = None ∧ byte_at m' i = Some NUL) ∧
  (∀ i, i < a ∨ a + length <= i → byte_at m' i = byte_at m i).
Proof.
  intros Hl Hp Hf Hr.
  assert (host_mmap addr length prot (Z.lor flags MAP_ANONYMOUS) (-1) offset m = Done (Ok a, m')) as Hm.
  { destruct Hr as [Hr|Hr]; [done|]. unfold null_mmap in Hr. by destruct (_ =? MAP_SHARED). }
  assert (flag (Z.lor flags MAP_ANONYMOUS) MAP_ANONYMOUS = true) as Hanon.
  { unfold flag. rewrite Z.land_lor_distr_l. change (Z.land MAP_ANONYMOUS MAP_ANONYMOUS) with MAP_ANONYMOUS.
    apply negb_true_iff, Z.eqb_neq. intros Hz. apply Z.lor_eq_0_iff in Hz. by destruct Hz. }
  assert (flag (Z.lor flags MAP_ANONYMOUS) MAP_FIXED = false) as Hfix.
  { unfold flag in *. rewrite Z.land_lor_distr_l. change (Z.land MAP_ANONYMOUS MAP_FIXED) with 0. by rewrite Z.lor_0_r. }
  destruct (mmap_law addr length prot _ (-1) offset m Hl Hp Hanon) as (r & m1 & Hr1 & Hlaw).
  rewrite Hm in Hr1. injection Hr1 as <- <-. destruct Hlaw as (_ & _ & _ & Hfree & Hbytes).
  split; intros i Hi; [|by rewrite Hbytes, decide_False by lia].
  split; [by apply Hfree|by rewrite Hbytes, decide_True].
Qed.
