(* ===== verification/Passthrough.v ===== *)
(** * Passthrough: [passthrough.{h,cc}] (under src/posix_translation/)

    The streams that hand each call to the host: those of the descriptors that the
    process was started with, and the one without a descriptor that every mapping of
    anonymous memory makes.  The calls of real_syscall.h are parameters; memory is
    HostMemory.v's. *)

From S2P Require Import Prelude Util DirectoryManager FileStream VfsFds MemoryRegion VfsMemory HostMemory FileSystemHandler.

#[local] Open Scope Z_scope.

Definition kNativeInodeNumberMask : Z := 2147483648.
Definition kBlockSize : Z := 4096.
Definition kInvalidFd : Z := -1.

Record PassthroughStream : Type := mkPassthrough {
  pt_oflag : Z;
  pt_pathname : str;
  native_fd_ : Z;
  close_on_destruction_ : bool;
}.

(** [PassthroughStream::PassthroughStream], and the one for anonymous memory. *)
Definition PassthroughStream_new (native_fd : Z) (pathname : str) (oflag : Z) (close_on_destruction : bool) :
    outcome PassthroughStream :=
  require (0 <=? native_fd) ≫= λ _, mret (mkPassthrough oflag pathname native_fd close_on_destruction).

Definition anonymous : PassthroughStream := mkPassthrough 0 [] kInvalidFd false.

(** The members of a [struct stat] that [fstat] looks at. *)
Record NativeStat : Type := mkNativeStat { n_stat : Stat; n_dev : Z; n_rdev : Z; n_atime : Z; n_ctime : Z }.

(** ** Files *)

Section Files.
Context {N : Type} (real_close : Z → St N (res Z)) (real_fstat : Z → St N (res NativeStat)).
Context (real_lseek64 : Z → Z → Z → St N (res Z)) (real_read : Z → Z → St N (res str)) (real_write : Z → str → St N (res Z)).
Implicit Types s : PassthroughStream.

(** [~PassthroughStream] *)
Definition pt_destroy s : St N unit := if close_on_destruction_ s then real_close (native_fd_ s);; mret tt else mret tt.

(** A call on a stream with a descriptor. *)
Definition with_native_fd {A} s (call : Z → St N A) : St N A := check (0 <=? native_fd_ s);; call (native_fd_ s).

Definition pt_fstat s : St N (res NativeStat) :=
  result ← with_native_fd s real_fstat;
  mret match result with
       | Ok st =>
           let '(mkStat ino mode nlink uid gid size _) := n_stat st in
           Ok (mkNativeStat (mkStat (Z.lor ino kNativeInodeNumberMask) mode nlink uid gid size kBlockSize) 0 0 0 0)
       | Err e => Err e
       end.

Definition pt_lseek s (offset whence : Z) : St N (res Z) := with_native_fd s (λ fd, real_lseek64 fd offset whence).
Definition pt_read s (count : Z) : St N (res str) := with_native_fd s (λ fd, real_read fd count).
Definition pt_write s (buf : str) : St N (res Z) := with_native_fd s (λ fd, real_write fd buf).

(** Standard input can always be read, standard output and error written. *)
Definition pt_IsSelectReadReady s : outcome bool := require (0 <=? native_fd_ s) ≫= λ _, mret (native_fd_ s =? 0).
Definition pt_IsSelectWriteReady s : outcome bool :=
  require (0 <=? native_fd_ s) ≫= λ _, mret ((native_fd_ s =? 1) || (native_fd_ s =? 2)).
Definition pt_IsSelectExceptionReady s : outcome bool := require (0 <=? native_fd_ s) ≫= λ _, mret false.

Definition pt_GetPollEvents s : outcome Z :=
  require (0 <=? native_fd_ s) ≫= λ _,
  pt_IsSelectReadReady s ≫= λ r, pt_IsSelectWriteReady s ≫= λ w, pt_IsSelectExceptionReady s ≫= λ e,
  mret (Z.lor (Z.lor (if r : bool then POLLIN else 0) (if w : bool then POLLOUT else 0)) (if e : bool then POLLERR else 0)).

Definition pt_GetSize s : St N Z :=
  if bool_decide (pt_pathname s = []) then mret 0
  else st ← pt_fstat s; mret match st with Ok st => st_size (n_stat st) | Err _ => 0 end.

Definition pt_IsAllowedOnMainThread : bool := true.
Definition pt_GetStreamType : str := "passthru".
End Files.

(** ** Memory *)

Section Memory.
Context `{HostMemory M}.
Implicit Types s : PassthroughStream.

(** Ok 1 for an error that the caller cannot recover from. *)
Definition pt_madvise s (addr length : Z) (advice : Defaults.advice) : St M (res Z) :=
  match advice with
  | Defaults.MADV_DONTNEED =>
      if negb (native_fd_ s =? kInvalidFd) then mret (Err EBADF)
      else
        result ← host_mmap addr length (Z.lor PROT_READ PROT_WRITE)
                   (Z.lor (Z.lor MAP_ANONYMOUS MAP_PRIVATE) MAP_FIXED) (native_fd_ s) 0;
        mret (if bool_decide (result = Ok addr) then Ok 0 else Ok 1)
  | _ => mret (Defaults.madvise advice)
  end.

Definition pt_mmap s (addr length prot flags offset : Z) : St M (res Z) :=
  host_mmap addr length prot flags (native_fd_ s) offset.

Definition pt_munmap s (addr length : Z) : St M (res unit) := host_munmap addr length.
End Memory.

(** ** The handler *)

(** The stream of [open], which the handler's [stat] looks at. *)
Definition pt_open (fd : Z) (pathname : str) (oflag : Z) : outcome (res PassthroughStream) :=
  (if bool_decide (pathname ≠ []) then mret (-1) else require (0 <=? fd) ≫= λ _, mret fd) ≫= λ native_fd,
  if native_fd <? 0 then mret (Err EACCES)
  else PassthroughStream_new native_fd pathname oflag (bool_decide (pathname ≠ [])) ≫= λ s, mret (Ok s).

Section Handler.
Context {N : Type} (real_fstat : Z → St N (res NativeStat)).

Definition pt_stat (pathname : str) : St N (res NativeStat) :=
  stream ← lift (pt_open (-1) pathname 0);
  match stream with
  | Err _ => mret (Err ENOENT)
  | Ok s => pt_fstat real_fstat s
  end.

Definition PassthroughHandler : FileSystemHandler N :=
  Base.handler
    (λ fd pathname oflag _, s ← lift (pt_open fd pathname oflag);
       mret match s with Ok s => Ok (mkNewStream (pt_oflag s) (pt_pathname s) pt_GetStreamType) | Err e => Err e end)
    (λ _, mret None)
    (λ pathname, st ← pt_stat pathname; mret match st with Ok st => Ok (n_stat st) | Err e => Err e end)
    (λ _, mret (Err ENOSYS)).
End Handler.

(** A path is never opened, whatever the comment of the header says. *)
Lemma open_of_a_path fd pathname oflag : pathname ≠ [] → pt_open fd pathname oflag = Done (Err EACCES).
Proof. intros Hp. unfold pt_open. by rewrite bool_decide_true. Qed.

(** The answers to [select] and [poll] agree. *)
Lemma passthrough_readiness s events :
  pt_GetPollEvents s = Done events →
  pt_IsSelectReadReady s = Done (negb (Z.land events POLLIN =? 0)) ∧
  pt_IsSelectWriteReady s = Done (negb (Z.land events POLLOUT =? 0)).
Proof.
  unfold pt_GetPollEvents, pt_IsSelectReadReady, pt_IsSelectWriteReady, pt_IsSelectExceptionReady.
  destruct (0 <=? native_fd_ s); [|done]. rewrite !require_true. unfold mret, outcome_ret.
  rewrite !done_bind. intros [= <-]. by destruct (native_fd_ s =? 0), ((native_fd_ s =? 1) || (native_fd_ s =? 2)).
Qed.
