(* ===== verification/AnonymousMemory.v ===== *)
(** * AnonymousMemory: the memory calls over the memory of the process

    [mmap] of anonymous memory and [munmap] with everything below them: the map of
    regions of MemoryRegion.v, the streams of Passthrough.v, and the memory of
    HostMemory.v.  MemoryRegion.v records the calls of the streams' methods; here they
    are carried out. *)

From S2P Require Import Prelude Util FileStream FdMap VfsFds MemoryRegion VfsMemory HostMemory FileSystemHandler Passthrough.

#[local] Open Scope Z_scope.

Section Anonymous.
Context {M : Type} `{HostMemory M} (page_size : Z) (allowed : sid → bool) (ops : stream_ops) (abort_on_unexpected : bool).

Abbreviation AS := (Sys (MemoryRegion * M)).

(** What a virtual call does to the memory; [OnUnmapByOverwritingMmap] is the default of
    FileStream, which does nothing. *)
Definition apply_call (c : mcall) : St M unit :=
  match c with
  | CallMunmap _ addr length => pt_munmap anonymous addr length;; mret tt
  | _ => mret tt
  end.

Definition apply_calls (cs : list mcall) : St M unit := for_each apply_call cs.

(** A call of the file system, and then the calls of streams that it made. *)
Definition with_streams {A} (m : St AS A) : St AS A := λ w,
  match m w with
  | Done (a, w1) =>
      match apply_calls (drop (List.length (made w.2.1)) (made w1.2.1)) w1.2.2 with
      | Done (_, u) => Done (a, (w1.1, (w1.2.1, u)))
      | Abort => Abort
      | NoFuel => NoFuel
      end
  | Abort => Abort
  | NoFuel => NoFuel
  end.

Definition anonymous_mmap (addr length prot flags offset : Z) : St AS (res Z) :=
  with_streams (mmap page_size allowed ops (λ _, pt_mmap anonymous) abort_on_unexpected addr length prot
                  (Z.lor flags MAP_ANONYMOUS) (-1) offset).

Definition anonymous_munmap (addr length : Z) : St AS (res unit) := with_streams (munmap page_size ops addr length).
End Anonymous.

(** ** Regions and addresses *)

(** Mapped once, in whole pages, for a stream. *)
Definition plain_region (page_size : Z) (r : region) : Prop :=
  r_ref r = 1 ∧ (page_size | r_start r) ∧ (page_size | r_end r + 1) ∧ is_Some (r_stream r).

Definition inside (i : Z) (p : sid * Z * Z) : bool := let '(_, st, e) := p in (st <=? i) && (i <=? e).

Lemma inside_parts a b rs i :
  Forall (λ r, is_Some (r_stream r)) rs →
  existsb (inside i) (parts a b rs) = bool_decide (a <= i <= b) && bool_decide (is_Some (owner rs i)).
Proof.
  induction 1 as [|r rs [s Hs] Hrs IH]; [by rewrite andb_false_r|]. unfold parts in *. cbn [owner].
  change (overlapping a b (r :: rs)) with (if overlaps a b r then r :: overlapping a b rs else overlapping a b rs).
  rewrite !overlaps_spec. destruct (bool_decide (r_start r <= b ∧ a <= r_end r)) eqn:E1.
  - cbn [omap list_omap]. rewrite Hs. cbn [mbind option_bind existsb inside]. rewrite IH.
    apply bool_decide_eq_true in E1. destruct (bool_decide (r_start r <= i ∧ i <= r_end r)) eqn:E2.
    + apply bool_decide_eq_true in E2. rewrite (bool_decide_true (is_Some (Some _))) by done.
      destruct (Z.leb_spec (Z.max a (r_start r)) i), (Z.leb_spec i (Z.min b (r_end r))); cbn;
        case_bool_decide; done || lia.
    + apply bool_decide_eq_false in E2.
      destruct (Z.leb_spec (Z.max a (r_start r)) i), (Z.leb_spec i (Z.min b (r_end r))); cbn; done || lia.
  - apply bool_decide_eq_false in E1. rewrite IH. destruct (bool_decide (r_start r <= i ∧ i <= r_end r)) eqn:E2; [|done].
    apply bool_decide_eq_true in E2. rewrite (bool_decide_false (a <= i <= b)) by lia. done.
Qed.

Lemma parts_pages page_size a b rs :
  Forall region_ok rs → Forall (plain_region page_size) rs → (page_size | a) → (page_size | b + 1) → a <= b →
  Forall (λ p : sid * Z * Z, (a <= p.1.2 <= p.2 ∧ p.2 <= b) ∧ (page_size | p.1.2) ∧ (page_size | p.2 - p.1.2 + 1)) (parts a b rs).
Proof.
  intros Hok Hplain Ha Hb Hab. unfold parts, overlapping. induction rs as [|r rs IH]; [constructor|].
  inversion Hok as [|?? (_ & _ & Hlt & _) Hok']; inversion Hplain as [|?? (_ & Hst & Hen & [s Hs]) Hplain']; subst. cbn [List.filter].
  destruct (overlaps a b r) eqn:E; [|by apply IH]. rewrite overlaps_spec in E. apply bool_decide_eq_true in E.
  cbn [omap list_omap]. rewrite Hs. cbn [mbind option_bind]. constructor; [|by apply IH]. cbn [fst snd]. split; [lia|].
  split; [by destruct (Z.max_spec a (r_start r)) as [[_ ->]|[_ ->]]|].
  replace (Z.min b (r_end r) - Z.max a (r_start r) + 1) with ((Z.min (b + 1) (r_end r + 1)) - Z.max a (r_start r)) by lia.
  apply Z.divide_sub_r; [destruct (Z.min_spec (b + 1) (r_end r + 1)) as [[_ ->]|[_ ->]]|destruct (Z.max_spec a (r_start r)) as [[_ ->]|[_ ->]]]; done.
Qed.

Lemma with_bounds_plain page_size st e r :
  plain_region page_size r → (page_size | st) → (page_size | e + 1) → plain_region page_size (with_bounds st e r).
Proof. intros (_ & _ & _ & Hs) Hst He. by split. Qed.

Lemma subtract_plain page_size a b rs :
  Forall (plain_region page_size) rs → (page_size | a) → (page_size | b + 1) → Forall (plain_region page_size) (subtract a b rs).
Proof.
  intros Hplain Ha Hb. unfold subtract. induction Hplain as [|r rs Hr _ IH]; [constructor|]. cbn [mbind list_bind].
  apply Forall_app. split; [|done]. destruct (overlaps a b r); [|by constructor; [exact Hr|constructor]]. pose proof Hr as (_ & Hst & Hen & _).
  apply Forall_app. split; (destruct (_ <? _); [|constructor]); apply Forall_cons; (split; [|constructor]); apply with_bounds_plain; try done.
  by replace (a - 1 + 1) with a by lia.
Qed.

Lemma insert_plain page_size n rs :
  plain_region page_size n → Forall (plain_region page_size) rs → Forall (plain_region page_size) (insert_region n rs).
Proof.
  intros Hn Hrs. induction Hrs as [|r rs Hr Hrs IH]; [by constructor|]. cbn.
  destruct (_ <? _); [by constructor; [|constructor]|by constructor].
Qed.

(** ** The calls *)

Section Tracking.
Context {M : Type} (k : Z) (Hk : 1 <= k < 32) `{HostMemorySpec (2 ^ k) M}.
Context (allowed : sid → bool) (ops : stream_ops) (abort_on_unexpected : bool).
(** [munmap] of whole pages of the address space does not fail, mapped or not; the
    streams' answers that MemoryRegion.v is given are those. *)
Context (Hmunmap : ∀ a n (m : M), 0 <= a → 0 < n → a + n <= 2 ^ 32 → (2 ^ k | a) → (2 ^ k | n) →
  ∃ m', host_munmap a n m = Done (Ok tt, m')).
Context (Hops : ∀ s a n, munmap_result ops s a n = true).

Abbreviation AS := (Sys (MemoryRegion * M)).
Abbreviation page := (2 ^ k).
Implicit Types w : AS.

Lemma aligned_divide x : IsPageAligned page x = true ↔ (page | x).
Proof.
  pose proof (Z.pow_pos_nonneg 2 k ltac:(lia) ltac:(lia)). unfold IsPageAligned, GetPageSize.
  rewrite land_pred_pow2, Z.eqb_eq by lia. apply Z.mod_divide. lia.
Qed.

Lemma apply_munmaps a b ps (m : M) :
  0 <= a → b < 2 ^ 32 →
  Forall (λ p : sid * Z * Z, (a <= p.1.2 <= p.2 ∧ p.2 <= b) ∧ (page | p.1.2) ∧ (page | p.2 - p.1.2 + 1)) ps →
  ∃ m', apply_calls (map (unmap_call true) ps) m = Done (tt, m') ∧
    ∀ i, byte_at m' i = if existsb (inside i) ps then None else byte_at m i.
Proof.
  intros Ha Hb Hps. revert m. induction Hps as [|[[s st] e] ps (Hin & Hst & Hpage) _ IH]; intros m; [by exists m|].
  cbn [fst snd] in *. destruct (Hmunmap st (e - st + 1) m) as [m1 Hm1]; [lia..|done|done|].
  destruct (munmap_law st (e - st + 1) m ltac:(lia) Hpage) as (r & m1' & Hr & Hlaw). rewrite Hm1 in Hr. injection Hr as <- <-.
  destruct (IH m1) as (m2 & Hm2 & Hbytes). exists m2. split.
  - unfold apply_calls in *. cbn [map for_each unmap_call apply_call]. unfold pt_munmap.
    rewrite (St_bind_run _ _ m tt m1); [exact Hm2|]. by run_with Hm1.
  - intros i. rewrite Hbytes. cbn [existsb inside]. rewrite Hlaw.
    destruct (Z.leb_spec st i), (Z.leb_spec i e), (existsb (inside i) ps); cbn; try case_decide; done || lia.
Qed.

Lemma apply_overwrites ps (m : M) : apply_calls (map (unmap_call false) ps) m = Done (tt, m).
Proof. induction ps as [|[[s st] e] ps IH]; [done|]. exact IH. Qed.

(** [m0] is the memory of the program itself: the file system has mapped everything
    else, nothing twice, and has not touched it. *)
Definition tracks (m0 m : M) (rs : list region) : Prop :=
  ∀ i, match owner rs i with
       | Some _ => byte_at m0 i = None ∧ is_Some (byte_at m i)
       | None => byte_at m i = byte_at m0 i
       end.

Record tracked (extra : sid → Z) (m0 : M) w : Prop := {
  tr_fds : fds_ok extra allowed w.1;
  tr_regions : ∃ rs, represents w.2.1 rs ∧ Forall (plain_region page) rs ∧ tracks m0 w.2.2 rs;
}.

Lemma flag_anonymous flags :
  flag (Z.lor flags MAP_ANONYMOUS) MAP_ANONYMOUS = true ∧ flag (Z.lor flags MAP_ANONYMOUS) MAP_FIXED = flag flags MAP_FIXED.
Proof.
  unfold flag. rewrite !Z.land_lor_distr_l. change (Z.land MAP_ANONYMOUS MAP_FIXED) with 0. rewrite Z.lor_0_r. split; [|done].
  apply negb_true_iff, Z.eqb_neq. intros Hz%Z.lor_eq_0_iff. by destruct Hz.
Qed.

Lemma fresh_plain a len off s : (page | a) → (page | len) → plain_region page (fresh_region a len off (Some s)).
Proof.
  intros Ha Hl. split; [done|]. split; [done|]. split; [|by eexists]. cbn. replace (a + len - 1 + 1) with (a + len) by lia.
  by apply Z.divide_add_r.
Qed.

(** A request, and what the caller may rely on. *)
Inductive anonymous_op : Type :=
| Mmap (addr length prot flags offset : Z)
| Munmap (addr length : Z).

Definition anonymous_op_ok (m0 : M) (o : anonymous_op) : Prop :=
  match o with
  | Mmap addr length prot flags offset =>
      0 <= addr < 2 ^ 32 ∧ 0 < length ∧ length + page <= 2 ^ 32 ∧ RoundToPageSize page offset = wrap32 offset ∧
      (flag flags MAP_FIXED = true →
       IsPageAligned page addr = true ∧ ∀ i, addr <= i < addr + RoundToPageSize page length → byte_at m0 i = None)
  | Munmap addr length =>
      IsPageAligned page addr = true ∧ 0 < length ∧ length + page <= 2 ^ 32 ∧
      0 <= addr ∧ addr + RoundToPageSize page length <= 2 ^ 32
  end.

Definition run_anonymous (o : anonymous_op) : St AS (res Z) :=
  match o with
  | Mmap addr length prot flags offset => anonymous_mmap page allowed ops abort_on_unexpected addr length prot flags offset
  | Munmap addr length => r ← anonymous_munmap page ops addr length; mret match r with Ok _ => Ok 0 | Err e => Err e end
  end.

(** The answer of the host to a mapping of the whole pages. *)
Definition host_answer (o : anonymous_op) (m : M) : option (res Z) :=
  match o with
  | Mmap addr length prot flags offset =>
      match host_mmap (addr / page * page) (RoundToPageSize page length) prot (Z.lor flags MAP_ANONYMOUS) (-1) offset m with
      | Done (r, _) => Some r
      | _ => None
      end
  | Munmap _ _ => None
  end.

(** What it answers, and does to the memory. *)
Definition anonymous_result (m0 : M) (o : anonymous_op) (r : res Z) (m m' : M) : Prop :=
  host_answer o m = (match o with Mmap _ _ _ _ _ => Some r | Munmap _ _ => None end) ∧
  match o, r with
  | Mmap addr length prot flags offset, Ok a =>
      let in_range i := a <= i < a + RoundToPageSize page length in
      IsPageAligned page a = true ∧
      (flag flags MAP_FIXED = true → a = addr) ∧
      (flag flags MAP_FIXED = false → ∀ i, in_range i → byte_at m i = None) ∧
      (∀ i, in_range i → byte_at m' i = Some NUL) ∧ ∀ i, ¬ in_range i → byte_at m' i = byte_at m i
  | Mmap _ _ _ _ _, Err _ => ∀ i, byte_at m' i = byte_at m i
  | Munmap addr length, _ =>
      let in_range i := addr <= i < addr + RoundToPageSize page length in
      (∀ i, in_range i → byte_at m' i = byte_at m0 i) ∧ (∀ i, ¬ in_range i → byte_at m' i = byte_at m i) ∧
      (r = Ok 0 ∧ (∃ i, in_range i ∧ byte_at m i ≠ byte_at m0 i) ∨ r = Err ENOSYS ∧ ∀ i, byte_at m' i = byte_at m i)
  end.

(** ** Each call *)

Lemma with_streams_run {A} (c : St AS A) w a w1 u :
  c w = Done (a, w1) → apply_calls (drop (List.length (made w.2.1)) (made w1.2.1)) w1.2.2 = Done (tt, u) →
  with_streams c w = Done (a, (w1.1, (w1.2.1, u))).
Proof. intros Hc Hu. unfold with_streams. by rewrite Hc, Hu. Qed.

Lemma drop_made (cs ds : list mcall) : drop (List.length cs) (cs ++ ds) = ds.
Proof. by rewrite drop_app_length. Qed.

Lemma anonymous_stream extra w flags fd :
  fds_ok extra allowed w.1 →
  ∃ t s, mmap_stream allowed (Z.lor flags MAP_ANONYMOUS) fd w = Done (Some s, (t, w.2)) ∧ fds_ok extra allowed t.
Proof.
  intros Hw. destruct (mmap_stream_run allowed extra (Z.lor flags MAP_ANONYMOUS) fd w Hw) as (t & Hs & Ht & _).
  unfold stream_to_map in Hs. rewrite (proj1 (flag_anonymous flags)) in Hs. by eexists _, _.
Qed.

(** Memory that the host gives is not in the map. *)
Lemma fresh_not_tracked m0 m rs a len :
  Forall region_ok rs → tracks m0 m rs → 0 < len → (∀ i, a <= i < a + len → byte_at m i = None) →
  existsb (overlaps a (a + len - 1)) rs = false.
Proof.
  intros Hok Ht Hlen Hnone. apply no_owner_no_overlap; [done|lia|]. intros i Hi. pose proof (Ht i) as Hti.
  destruct (owner rs i); [|done]. destruct Hti as [_ [c Hc]]. rewrite Hnone in Hc by lia. done.
Qed.

Lemma tracks_mapped m0 m m' rs rs' a len (s : sid) :
  tracks m0 m rs → (∀ i, owner rs' i = if decide (a <= i <= a + len - 1) then Some (Some s) else owner rs i) →
  (∀ i, a <= i < a + len → byte_at m0 i = None) →
  (∀ i, byte_at m' i = if decide (a <= i < a + len) then Some NUL else byte_at m i) → tracks m0 m' rs'.
Proof.
  intros Ht How Hfree Hb i. rewrite How, Hb. pose proof (Ht i) as Hti. case_decide.
  - rewrite decide_True by lia. split; [apply Hfree; lia|by eexists].
  - rewrite decide_False by lia. exact Hti.
Qed.

(** The map after the host has put a mapping at [a]. *)
Lemma mapped_tracked m0 (t : World) mr m m1 rs a len prot flags off s :
  represents mr rs → Forall (plain_region page) rs → tracks m0 m rs →
  IsPageAligned page a = true → IsPageAligned page len = true → 0 < len →
  (flag flags MAP_FIXED = false → ∀ i, a <= i < a + len → byte_at m i = None) →
  (∀ i, a <= i < a + len → byte_at m0 i = None) →
  (∀ i, byte_at m1 i = if decide (a <= i < a + len) then Some NUL else byte_at m i) →
  ∃ mr' rs', mmap_tail k ops abort_on_unexpected a len prot flags off s a (t, (mr, m1)) = Done (Ok a, (t, (mr', m1))) ∧
    apply_calls (drop (List.length (made mr)) (made mr')) m1 = Done (tt, m1) ∧
    represents mr' rs' ∧ Forall (plain_region page) rs' ∧ tracks m0 m1 rs'.
Proof.
  intros Hrep Hplain Ht Ha Hl Hpos Hfree Hm0 Hb. pose proof (proj1 (aligned_divide a) Ha) as Ha'.
  pose proof (proj1 (aligned_divide len) Hl) as Hl'. pose proof (fresh_plain a len off s Ha' Hl') as Hnew.
  destruct (flag flags MAP_FIXED) eqn:Ef.
  - destruct (mmap_fixed k Hk ops (λ _, pt_mmap anonymous) abort_on_unexpected rs t mr m1 a len prot flags off a s Hrep Ha Hl Hpos Ef eq_refl)
      as (mr' & Hrun & Hrep' & (rs' & Hrs' & How) & Hmade).
    { unfold overlapping. apply Forall_forall. intros r Hr%list_elem_of_In%filter_In. rewrite Forall_forall in Hplain.
      destruct (Hplain r) as [Href _]; [by apply list_elem_of_In, Hr|exact Href]. }
    pose proof (represents_unique _ _ _ Hrep' Hrs') as <-.
    exists mr', (insert_region (fresh_region a len off (Some s)) (subtract a (a + len - 1) rs)).
    split; [done|]. rewrite Hmade, drop_made, apply_overwrites. split; [done|]. split; [done|]. split.
    + apply insert_plain, subtract_plain; try done. replace (a + len - 1 + 1) with (a + len) by lia. by apply Z.divide_add_r.
    + by apply (tracks_mapped m0 m m1 rs _ a len s).
  - pose proof (fresh_not_tracked m0 m rs a len (proj1 (proj1 Hrep)) Ht Hpos (Hfree eq_refl)) as Hno.
    destruct (mmap_placed k Hk ops (λ _, pt_mmap anonymous) abort_on_unexpected rs t mr m1 a len prot flags off a s Hrep Ha Hl Hpos Ef Hno)
      as (mr' & Hrun & Hrep' & (rs' & Hrs' & How) & Hmade).
    pose proof (represents_unique _ _ _ Hrep' Hrs') as <-. exists mr', (insert_region (fresh_region a len off (Some s)) rs).
    split; [done|]. rewrite Hmade, drop_all. split; [done|]. split; [done|]. split; [by apply insert_plain|].
    by apply (tracks_mapped m0 m m1 rs _ a len s).
Qed.

Lemma mmap_tracked extra m0 w addr length prot flags off :
  tracked extra m0 w → anonymous_op_ok m0 (Mmap addr length prot flags off) →
  ∃ r w', anonymous_mmap page allowed ops abort_on_unexpected addr length prot flags off w = Done (r, w') ∧
    tracked extra m0 w' ∧ anonymous_result m0 (Mmap addr length prot flags off) r w.2.2 w'.2.2.
Proof.
  intros [Hfds (rs & Hrep & Hplain & Ht)] (Haddr & Hpos & Hmax & Hoff & Hfixok).
  destruct (flag_anonymous flags) as [Hanon Hfix]. destruct (anonymous_stream extra w flags (-1) Hfds) as (t & s & Hs & Hfds').
  destruct (rounded_page k Hk length ltac:(lia)) as [Hlenp Hround]. specialize (Hround Hpos Hmax).
  set (len := RoundToPageSize page length) in *. set (a0 := addr / page * page).
  assert ((length =? 0) || (negb (IsPageAligned page addr) && flag (Z.lor flags MAP_ANONYMOUS) MAP_FIXED)
          || negb (RoundToPageSize page off =? wrap32 off) = false) as Hok.
  { rewrite (proj2 (Z.eqb_neq length 0)), Hoff, Z.eqb_refl, Hfix by lia. destruct (flag flags MAP_FIXED); [|by rewrite andb_false_r].
    by rewrite (proj1 (Hfixok eq_refl)). }
  destruct (mmap_law a0 len prot (Z.lor flags MAP_ANONYMOUS) (-1) off w.2.2) as (r & m1 & Hm & Hlaw);
    [lia|by apply aligned_divide|done|].
  pose proof (mmap_run k Hk allowed ops (λ _, pt_mmap anonymous) abort_on_unexpected addr length prot _ (-1) off w t s r m1
    Haddr Hok Hs Hm) as Hrun.
  assert (host_answer (Mmap addr length prot flags off) w.2.2 = Some r) as Hhost.
  { cbn [host_answer]. fold a0 len. by rewrite Hm. }
  destruct r as [e|new].
  { exists (Err e), (t, (w.2.1, m1)). split; [|split; [split; [done|]|by split]].
    - apply (with_streams_run _ w (Err e) (t, (w.2.1, m1)) m1 Hrun). cbn [fst snd]. by rewrite drop_all.
    - exists rs. split; [done|]. split; [done|]. intros i. cbn [snd]. rewrite Hlaw. apply Ht. }
  destruct Hlaw as (_ & _ & Hfixed & Hfree & Hbytes). rewrite Hfix in Hfixed, Hfree.
  pose proof (Z.pow_pos_nonneg 2 k ltac:(lia) ltac:(lia)).
  assert (flag flags MAP_FIXED = true → new = addr) as Hsame.
  { intros Hf. rewrite (Hfixed Hf). unfold a0. destruct (Hfixok Hf) as [Hal _]. apply aligned_divide in Hal as [c ->].
    by rewrite Z.div_mul by lia. }
  assert (IsPageAligned page new = true) as Hnew.
  { apply aligned_divide. destruct (flag flags MAP_FIXED) eqn:Ef; [|by apply Hfree].
    rewrite (Hsame eq_refl). by apply aligned_divide, Hfixok. }
  assert (∀ i, new <= i < new + len → byte_at m0 i = None) as Hm0.
  { intros i Hi. destruct (flag flags MAP_FIXED) eqn:Ef; [rewrite (Hsame eq_refl) in Hi; by apply Hfixok|].
    pose proof (Ht i) as Hti. destruct (Hfree eq_refl) as [_ Hnone]. destruct (owner rs i); [by apply Hti|]. by rewrite <-Hti, Hnone. }
  assert (new = a0 ∨ flag flags MAP_FIXED = false) as Hcase by (destruct (flag flags MAP_FIXED); [left; by apply Hfixed|by right]).
  destruct (mapped_tracked m0 t w.2.1 w.2.2 m1 rs new len prot (Z.lor flags MAP_ANONYMOUS) off s Hrep Hplain Ht Hnew Hlenp ltac:(lia))
    as (mr' & rs' & Htail & Hcalls & Hrep' & Hplain' & Ht'); [rewrite Hfix; intros Hf; by apply Hfree|done|done|].
  exists (Ok new), (t, (mr', m1)). split; [|split; [split; [done|by exists rs']|]].
  - apply (with_streams_run _ w (Ok new) (t, (mr', m1)) m1); [|exact Hcalls].
    etrans; [exact Hrun|]. etrans; [|exact Htail]. rewrite Hfix. unfold mmap_tail. rewrite Hfix.
    destruct Hcase as [->| ->]; done.
  - split; [exact Hhost|]. split; [done|]. split; [done|]. split; [intros Hf; by apply Hfree|]. cbn [snd]. fold len.
    split; intros i Hi; rewrite Hbytes; [by rewrite decide_True|by rewrite decide_False].
Qed.

Lemma owner_in rs r x : r ∈ rs → r_start r <= x → x <= r_end r → is_Some (owner rs x).
Proof.
  intros Hr H1 H2. induction rs as [|r' rs IH]; [by apply elem_of_nil in Hr|]. cbn [owner].
  destruct (overlaps x x r') eqn:E; [by eexists|]. apply elem_of_cons in Hr as [<-|Hr]; [|by apply IH].
  rewrite overlaps_spec in E. apply bool_decide_eq_false in E. lia.
Qed.

Lemma munmap_tracked extra m0 w addr length :
  tracked extra m0 w → anonymous_op_ok m0 (Munmap addr length) →
  ∃ r w', run_anonymous (Munmap addr length) w = Done (r, w') ∧
    tracked extra m0 w' ∧ anonymous_result m0 (Munmap addr length) r w.2.2 w'.2.2.
Proof.
  intros [Hfds (rs & Hrep & Hplain & Ht)] (Ha & Hpos & Hmax & Haddr & Hend). pose proof (Z.pow_pos_nonneg 2 k ltac:(lia) ltac:(lia)).
  destruct (rounded_page k Hk length ltac:(lia)) as [Hlenp Hround]. specialize (Hround Hpos Hmax).
  set (len := RoundToPageSize page length) in *. set (b := addr + len - 1).
  assert (Forall (λ r, is_Some (r_stream r)) rs) as Hstreams by (eapply Forall_impl; [exact Hplain|]; intros r Hr; apply Hr).
  assert (page | b + 1) as Hb.
  { replace (b + 1) with (addr + len) by (unfold b; lia). by apply Z.divide_add_r; apply aligned_divide. }
  destruct (munmap_run k Hk ops rs w addr length Hrep Ha Hpos Hmax) as (mr' & Hrun & Hrep' & Hmade).
  { unfold overlapping. apply Forall_forall. intros r Hr%list_elem_of_In%filter_In. rewrite Forall_forall in Hplain.
    destruct (Hplain r) as [Href _]; [by apply list_elem_of_In, Hr|exact Href]. }
  { apply Forall_forall. intros [[s st] e] _. left. apply Hops. }
  fold len b in Hrun, Hrep', Hmade.
  destruct (apply_munmaps addr b (parts addr b rs) w.2.2) as (m' & Hm' & Hbytes); [done|unfold b; lia|..].
  { apply parts_pages; [apply Hrep|done|by apply aligned_divide|done|unfold b; lia]. }
  assert (∀ i, byte_at m' i = if bool_decide (addr <= i <= b) && bool_decide (is_Some (owner rs i)) then None else byte_at w.2.2 i) as Hb'.
  { intros i. by rewrite Hbytes, inside_parts. }
  assert (∀ i, addr <= i <= b → byte_at m' i = byte_at m0 i) as Hin.
  { intros i Hi. rewrite Hb', bool_decide_true by done. pose proof (Ht i) as Hti. destruct (owner rs i); cbn; [|done].
    by destruct Hti as [-> _]. }
  exists (if existsb (overlaps addr b) rs then Ok 0 else Err ENOSYS), (w.1, (mr', m')). split; [|split; [split; [done|]|]].
  - unfold run_anonymous, anonymous_munmap.
    rewrite (St_bind_run _ _ w _ _ (with_streams_run _ w _ (w.1, (mr', w.2.2)) m' Hrun ltac:(cbn [fst snd]; by rewrite Hmade, drop_made))).
    by destruct (existsb _ rs).
  - exists (subtract addr b rs). split; [done|]. split; [by apply subtract_plain; [|apply aligned_divide|]|]. intros i. cbn [snd].
    rewrite owner_subtract. case_decide as Hi; [by apply Hin|]. rewrite Hb', bool_decide_false by done. apply Ht.
  - cbn [snd]. split; [done|]. fold len. split; [intros i Hi; apply Hin; unfold b; lia|].
    split; [intros i Hi; rewrite Hb', bool_decide_false by (unfold b; lia); done|].
    destruct (existsb (overlaps addr b) rs) eqn:E.
    + left. split; [done|]. apply existsb_exists in E as (r & Hr%list_elem_of_In & Hov).
      rewrite overlaps_spec in Hov. apply bool_decide_eq_true in Hov. exists (Z.max addr (r_start r)).
      assert (is_Some (owner rs (Z.max addr (r_start r)))) as [o Ho]
        by (apply (owner_in rs r); [done| |]; pose proof (proj1 (proj1 Hrep)) as Hok; rewrite Forall_forall in Hok; pose proof (Hok r Hr) as (_ & _ & Hlt & _); lia).
      pose proof (Ht (Z.max addr (r_start r))) as Hti. rewrite Ho in Hti. destruct Hti as [-> [c ->]].
      split; [unfold b in Hov; lia|done].
    + right. split; [done|]. intros i. rewrite Hb'. destruct (owner rs i) as [o|] eqn:Ho; [|by rewrite andb_false_r].
      rewrite bool_decide_false; [done|]. intros Hi. by rewrite (overlap_has_owner rs addr b i E Hi) in Ho.
Qed.

(** C9.  Anonymous memory.  The file system's calls, the map of regions, the streams and
    the memory of the process together, for requests with a positive length that rounding
    does not wrap; for [mmap], an offset in whole pages and, under MAP_FIXED, an aligned
    address of pages that the program itself ([m0]) does not use; for [munmap], an aligned
    range in the address space, on which the host's [munmap] does not fail.  [mmap] answers
    exactly what the host's [mmap] of the whole pages answers, its error included, and an
    error changes no byte; when it succeeds, it gives pages that are full of zeros, at the
    address asked for under MAP_FIXED and else where nothing was.  [munmap] takes exactly
    the pages of its range away that the file system has mapped, and answers ENOSYS when
    there are none and 0 otherwise.  No other byte changes and no assertion trips.  Before
    and after, the map has exactly the memory that is mapped besides the program's own,
    which is never touched. *)
Theorem anonymous_memory_is_tracked extra m0 w o :
  tracked extra m0 w → anonymous_op_ok m0 o →
  ∃ r w', run_anonymous o w = Done (r, w') ∧ tracked extra m0 w' ∧ anonymous_result m0 o r w.2.2 w'.2.2.
Proof.
  intros Hw Ho. destruct o as [addr length prot flags off|addr length]; [|by apply munmap_tracked].
  by apply mmap_tracked.
Qed.
End Tracking.

(** ** A witness *)

Module AnonymousWitness.
Import Logged.

Definition plain_ops : stream_ops := mkStreamOps (λ _, []) (λ _, 0) (λ _, false) (λ _ _ _, true) (λ _ _ _ _, Ok 0) (λ _ _ _ _, true).

Definition program : log := [Mapped 65536 8192].

Definition start : Sys (MemoryRegion * log) := (FdMap.witness_world, (mkMemoryRegion [] true ∅ [], program)).

Lemma log_unmaps a n (m : log) :
  0 <= a → 0 < n → a + n <= 2 ^ 32 → (2 ^ 12 | a) → (2 ^ 12 | n) → ∃ m', host_munmap a n m = Done (Ok tt, m').
Proof. by eexists. Qed.

#[local] Instance log_spec : HostMemorySpec (2 ^ 12) log := log_memory_spec.

Lemma start_tracked : tracked 12 (λ _, true) no_extra program start.
Proof.
  split; [exact DescriptorProperties.witness_fds_ok|]. exists []. split; [split; [|done]|split; [constructor|done]].
  split; constructor.
Qed.

(** 5000 bytes, wherever there is room. *)
Definition request : anonymous_op := Mmap 0 5000 3 MAP_PRIVATE 0.

Lemma anonymous_memory_is_tracked_witness :
  ∃ w', run_anonymous 12 (λ _, true) plain_ops true request start = Done (Ok 73728, w') ∧
    byte_at w'.2.2 (73728 + 8191) = Some NUL ∧ byte_at w'.2.2 65536 = Some NUL ∧
    tracked 12 (λ _, true) no_extra program w'.
Proof.
  destruct (anonymous_memory_is_tracked 12 ltac:(lia) (λ _, true) plain_ops true log_unmaps (λ _ _ _, eq_refl)
    no_extra program start request start_tracked) as (r & w' & Hrun & Ht & Hres).
  - split; [lia|]. split; [lia|]. split; [lia|]. split; [reflexivity|]. intros Hf. discriminate Hf.
  - assert (r = Ok 73728) as ->.
    { assert (match run_anonymous 12 (λ _, true) plain_ops true request start with Done (r, _) => Some r | _ => None end = Some (Ok 73728))
        as Hr by (vm_compute; reflexivity).
      rewrite Hrun in Hr. injection Hr as Hr. exact Hr. }
    destruct Hres as (_ & _ & _ & _ & Hz & Hsame). exists w'. split; [exact Hrun|].
    assert (RoundToPageSize (2 ^ 12) 5000 = 8192) as Hlen by (vm_compute; reflexivity). rewrite Hlen in *.
    split; [apply Hz; lia|]. split; [|exact Ht]. etrans; [apply Hsame; lia|]. vm_compute. reflexivity.
Defined.
End AnonymousWitness.

