(* ===== verification/MemoryFile.v ===== *)
(** * MemoryFile: [readonly_memory_file.{h,cc}] (under src/posix_translation/)

    Files whose content is made when it is asked for.  The content is a virtual
    method: [GetContent], an argument that works on the whole object and on what is
    around it ([X]: the clock, the number of processors, the processes). *)

From S2P Require Import Prelude Util FileStream MemoryRegion VfsMemory HostMemory FileSystemHandler.

#[local] Open Scope Z_scope.

(** [C]: the members of the derived class.  [errno_for_mmap_] is [None] for 0. *)
Record ReadonlyMemoryFile (C : Type) : Type := mkMemoryFile {
  mf_pathname : str;
  mf_inode : Z;
  errno_for_mmap_ : option errno;
  mtime_ : Z;
  mf_pos_ : Z;
  derived : C;
}.
Arguments mkMemoryFile {C}.
Arguments mf_pathname {C}.
Arguments mf_inode {C}.
Arguments errno_for_mmap_ {C}.
Arguments mtime_ {C}.
Arguments mf_pos_ {C}.
Arguments derived {C}.

Section MemoryFile.
Context {C : Type}.

Definition ReadonlyMemoryFile_new (pathname : str) (inode : Z) (errno_for_mmap : option errno) (mtime : Z) (c : C) :
    ReadonlyMemoryFile C :=
  mkMemoryFile pathname inode errno_for_mmap mtime 0 c.

Definition set_mtime (t : Z) (f : ReadonlyMemoryFile C) : ReadonlyMemoryFile C :=
  mkMemoryFile (mf_pathname f) (mf_inode f) (errno_for_mmap_ f) t (mf_pos_ f) (derived f).
Definition set_pos (p : Z) (f : ReadonlyMemoryFile C) : ReadonlyMemoryFile C :=
  mkMemoryFile (mf_pathname f) (mf_inode f) (errno_for_mmap_ f) (mtime_ f) p (derived f).
Definition set_derived (c : C) (f : ReadonlyMemoryFile C) : ReadonlyMemoryFile C :=
  mkMemoryFile (mf_pathname f) (mf_inode f) (errno_for_mmap_ f) (mtime_ f) (mf_pos_ f) c.

Context {X : Type}.

(** What surrounds the object, and the object. *)
Abbreviation F := (X * ReadonlyMemoryFile C)%type.

Context (GetContent : St F str).

Definition this : St F (ReadonlyMemoryFile C) := gets snd.
Definition update (g : ReadonlyMemoryFile C → ReadonlyMemoryFile C) : St F unit := modify (λ w, (w.1, g w.2)).

Definition size (s : str) : Z := Z.of_nat (List.length s).

(** [&content[0] + offset], [n] bytes: outside of the content is undefined. *)
Definition bytes_at (content : str) (offset n : Z) : outcome str :=
  require ((0 <=? offset) && (offset + n <=? size content));;
  mret (take (Z.to_nat n) (drop (Z.to_nat offset) content)).

(** With the time of the last modification. *)
Definition mf_fstat : St F (res (Stat * Z)) :=
  f ← this;
  check (bool_decide (mf_pathname f ≠ []));;
  content ← GetContent;
  f ← this;
  mret (Ok (mkStat (mf_inode f) S_IFREG 1 0 0 (size content) 4096, mtime_ f)).

(** FIONREAD stores an [int]. *)
Definition mf_ioctl (request_is_fionread : bool) : St F (res Z) :=
  if request_is_fionread then
    content ← GetContent; f ← this; mret (Ok (to_signed 32 (size content - mf_pos_ f)))
  else mret (Err EINVAL).

(** [pos_] is a [size_t]. *)
Definition mf_lseek (offset : Z) (whence : option Defaults.whence) : St F (res Z) :=
  let move pos := update (set_pos (wrap32 pos));; mret (Ok (wrap32 pos)) in
  match whence with
  | Some Defaults.SEEK_SET => move offset
  | Some Defaults.SEEK_CUR => f ← this; move (mf_pos_ f + offset)
  | Some Defaults.SEEK_END => content ← GetContent; move (size content + offset)
  | None => mret (Err EINVAL)
  end.

(** [ssize_t] and pointers have 32 bits: the address that is copied from is the
    start of the content with the signed 32-bit value of [offset] added. *)
Definition mf_pread (count offset : Z) : St F (res str) :=
  content ← GetContent;
  let read_max := to_signed 32 (size content - offset) in
  if read_max <=? 0 then mret (Ok [])
  else
    let read_size := Z.min count read_max in
    bs ← lift (bytes_at content (to_signed 32 offset) read_size);
    mret (Ok bs).

Definition mf_read (count : Z) : St F (res str) :=
  f ← this;
  read_size ← mf_pread count (mf_pos_ f);
  (match read_size with
   | Ok bs => update (λ f, set_pos (wrap32 (mf_pos_ f + size bs)) f)
   | Err _ => mret tt
   end);;
  mret read_size.

Definition mf_write (buf : str) : St F (res Z) := mret (Err EBADF).
Definition mf_IsSelectWriteReady : bool := true.
Definition mf_GetStreamType : str := "ro-mem".
Definition mf_GetSize : St F Z := content ← GetContent; mret (size content).
End MemoryFile.

(** *** Mapping *)

Section Mapping.
Context {C X : Type} `{HostMemory M} (page_size : Z).

Abbreviation F := ((M * X) * ReadonlyMemoryFile C)%type.

Context (GetContent : St F str).

Definition on_host {A} (m : St M A) : St F A := λ w,
  match m w.1.1 with
  | Done (a, u) => Done (a, ((u, w.1.2), w.2))
  | Abort => Abort
  | NoFuel => NoFuel
  end.

Definition mf_mmap (addr length prot flags offset : Z) : St F (res Z) :=
  f ← this;
  if flag prot PROT_WRITE && flag flags MAP_SHARED then mret (Err EACCES)
  else
    match errno_for_mmap_ f with
    | Some e => mret (Err e)
    | None =>
        if flag flags MAP_SHARED then mret (Err EINVAL)
        else
          result ← on_host (host_mmap 0 length (Z.lor prot PROT_WRITE) (Z.lor flags MAP_ANONYMOUS) (-1) offset);
          match result with
          | Err e => mret (Err e)
          | Ok result =>
              content ← GetContent;
              (if offset <? size content then
                 let write_size := Z.min (size content - offset) (RoundToPageSize page_size length) in
                 bs ← lift (bytes_at content offset write_size);
                 modify (λ w, ((write_bytes result bs w.1.1, w.1.2), w.2))
               else mret tt);;
              if negb (flag prot PROT_WRITE) then
                protected ← on_host (host_mprotect result length prot);
                match protected with
                | Err e => on_host (host_munmap result length);; mret (Err e)
                | Ok _ => mret (Ok result)
                end
              else mret (Ok result)
          end
    end.

Definition mf_munmap (addr length : Z) : St F (res unit) :=
  f ← this;
  check (bool_decide (errno_for_mmap_ f = None));;
  on_host (host_munmap addr length).
End Mapping.

(** ** Reading a file *)

Section Reading.
Context {C X : Type} (GetContent : St (X * ReadonlyMemoryFile C) str).
Abbreviation F := (X * ReadonlyMemoryFile C)%type.
Implicit Types w : F.

(** A program that reads [n] bytes at a time until there are no more. *)
Fixpoint cat (n : Z) (fuel : nat) : St F str :=
  match fuel with
  | O => λ _, NoFuel
  | Datatypes.S fuel =>
      r ← mf_read GetContent n;
      match r with
      | Ok [] => mret []
      | Ok bs => rest ← cat n fuel; mret (bs ++ rest)
      | Err _ => mret []
      end
  end.

(** The content stays what it is, whatever the position: [I] is kept by asking for it. *)
Record stable (I : F → Prop) (content : str) : Prop := {
  st_content : ∀ w, I w → ∃ w', GetContent w = Done (content, w') ∧ I w' ∧ mf_pos_ w'.2 = mf_pos_ w.2;
  st_pos : ∀ w p, I w → I (w.1, set_pos p w.2);
}.

Lemma bytes_at_ok content o n :
  0 <= o → 0 <= n → o + n <= size content → bytes_at content o n = Done (take (Z.to_nat n) (drop (Z.to_nat o) content)).
Proof. intros Ho Hn Hl. unfold bytes_at. by rewrite (proj2 (Z.leb_le _ _)), (proj2 (Z.leb_le _ _)). Qed.

Lemma read_stable I content w n :
  stable I content → I w → size content < 2 ^ 31 → 0 <= n → 0 <= mf_pos_ w.2 < 2 ^ 31 →
  ∃ w' bs, mf_read GetContent n w = Done (Ok bs, w') ∧ I w' ∧
    bs = take (Z.to_nat n) (drop (Z.to_nat (mf_pos_ w.2)) content) ∧ mf_pos_ w'.2 = mf_pos_ w.2 + size bs.
Proof.
  intros [Hc Hp] HI Hs Hn Hpos. destruct (Hc w HI) as (w1 & Hr & HI1 & Hpos1).
  unfold mf_read, mf_pread, this, update, mbind, St_bind, gets, modify, mret, St_ret. rewrite Hr.
  rewrite to_signed_id by (unfold size in *; lia).
  assert (∀ k, size (take k (drop (Z.to_nat (mf_pos_ w.2)) content)) =
               Z.min (Z.of_nat k) (Z.max 0 (size content - mf_pos_ w.2))) as Hlen
    by (intros k; unfold size; rewrite length_take, length_drop; lia).
  destruct (Z.leb_spec (size content - mf_pos_ w.2) 0) as [Hle|Hgt].
  - exists (w1.1, set_pos (wrap32 (mf_pos_ w1.2 + size [])) w1.2), []. split; [done|]. split; [by apply Hp|].
    assert (drop (Z.to_nat (mf_pos_ w.2)) content = []) as -> by (apply drop_ge; unfold size in Hle; lia).
    rewrite take_nil. split; [done|]. cbn. rewrite Hpos1. unfold wrap32, size. cbn. rewrite Z.mod_small by lia. lia.
  - unfold lift. rewrite to_signed_id by lia. rewrite bytes_at_ok by lia.
    eexists _, _. split; [done|]. split; [by apply Hp|]. split.
    + destruct (Z.min_spec n (size content - mf_pos_ w.2)) as [[_ ->]|[Hge ->]]; [done|].
      rewrite !take_ge; [done|..]; rewrite length_drop; unfold size in *; lia.
    + cbn [snd mf_pos_ set_pos]. rewrite Hpos1. unfold wrap32. rewrite Z.mod_small; rewrite Hlen; lia.
Qed.

Lemma cat_from I content w n fuel :
  stable I content → I w → size content < 2 ^ 31 → 0 < n → 0 <= mf_pos_ w.2 < 2 ^ 31 →
  (List.length (drop (Z.to_nat (mf_pos_ w.2)) content) < fuel)%nat →
  ∃ w', cat n fuel w = Done (drop (Z.to_nat (mf_pos_ w.2)) content, w') ∧ I w'.
Proof.
  intros Hst. revert w. induction fuel as [|fuel IH]; intros w HI Hs Hn Hpos Hf; [lia|]. cbn [cat].
  destruct (read_stable I content w n Hst HI Hs ltac:(lia) Hpos) as (w1 & bs & Hr & HI1 & Hbs & Hpos1).
  unfold mbind, St_bind. rewrite Hr. set (rest := drop (Z.to_nat (mf_pos_ w.2)) content) in *.
  destruct bs as [|b bs].
  - exists w1. split; [|done]. destruct rest as [|c rest]; [done|]. destruct (Z.to_nat n) eqn:E; [lia|done].
  - assert (size (b :: bs) <= size rest) as Hle by (rewrite Hbs; unfold size; rewrite length_take; lia).
    assert (size rest = size content - mf_pos_ w.2 ∨ rest = []) as Hrest.
    { unfold rest, size. rewrite length_drop. destruct (decide (Z.to_nat (mf_pos_ w.2) <= List.length content)%nat); [left; lia|right].
      apply drop_ge. lia. }
    destruct Hrest as [Hrest|Hnil]; [|by rewrite Hnil, take_nil in Hbs].
    assert (drop (Z.to_nat (mf_pos_ w1.2)) content = drop (List.length (b :: bs)) rest) as Hnext.
    { unfold rest. rewrite drop_drop, Hpos1. f_equal. unfold size. lia. }
    destruct (IH w1) as (w2 & Hcat & HI2); [done|done|done|unfold size in *; lia| |].
    { rewrite Hnext, length_drop. cbn [List.length]. unfold size in Hle. cbn [List.length] in Hle. lia. }
    rewrite Hcat. exists w2. split; [|done]. unfold mret, St_ret. do 2 f_equal. rewrite Hnext.
    rewrite Hbs at 1. replace (List.length (b :: bs)) with (Nat.min (Z.to_nat n) (List.length rest)).
    2: { by rewrite Hbs, length_take. }
    destruct (Nat.min_spec (Z.to_nat n) (List.length rest)) as [[_ ->]|[Hge ->]]; [apply take_drop|].
    rewrite take_ge by lia. rewrite drop_all. by rewrite app_nil_r.
Qed.

Lemma cat_content I content w n fuel :
  stable I content → I w → size content < 2 ^ 31 → 0 < n → mf_pos_ w.2 = 0 → (List.length content < fuel)%nat →
  ∃ w', cat n fuel w = Done (content, w') ∧ I w'.
Proof.
  intros Hst HI Hs Hn Hpos Hf.
  destruct (cat_from I content w n fuel Hst HI Hs Hn) as (w' & Hr & HI'); [lia|by rewrite Hpos|].
  exists w'. split; [|done]. by rewrite Hpos in Hr.
Qed.

(** A position before the file: [lseek] takes it, and [read] leaves the content. *)
Lemma read_before_the_content I content w k n :
  stable I content → I w → size content + k < 2 ^ 31 → 0 < k → 0 < n →
  ∃ w1, mf_lseek GetContent (- k) (Some Defaults.SEEK_SET) w = Done (Ok (2 ^ 32 - k), w1) ∧
    mf_read GetContent n w1 = Abort.
Proof.
  intros [Hc Hp] HI Hs Hk Hn. unfold mf_lseek, update, mbind, St_bind, modify, mret, St_ret.
  assert (0 <= size content) as Hsz by (unfold size; lia).
  assert (wrap32 (- k) = 2 ^ 32 - k) as Hw.
  { unfold wrap32. rewrite <-(Z.mod_add _ 1) by lia. rewrite Z.mod_small by lia. lia. }
  rewrite Hw. eexists. split; [done|].
  unfold mf_read, mf_pread, this, mbind, St_bind, gets. cbn [snd set_pos mf_pos_].
  destruct (Hc _ (Hp w (2 ^ 32 - k) HI)) as (w1 & Hr & _). rewrite Hr.
  assert (to_signed 32 (size content - (2 ^ 32 - k)) = size content + k) as ->.
  { unfold to_signed. rewrite <-(Z.mod_add _ 1), Z.mod_small by lia. destruct (Z.ltb_spec (size content - (2 ^ 32 - k) + 1 * 2 ^ 32) (2 ^ (32 - 1))); lia. }
  assert (to_signed 32 (2 ^ 32 - k) = - k) as ->.
  { unfold to_signed. rewrite Z.mod_small by lia. destruct (Z.ltb_spec (2 ^ 32 - k) (2 ^ (32 - 1))); lia. }
  rewrite (proj2 (Z.leb_gt _ 0)) by lia. unfold lift, bytes_at. by rewrite (proj2 (Z.leb_gt 0 (- k))) by lia.
Qed.
End Reading.
