(* ===== verification/CpuFile.v ===== *)
(** * CpuFile: [cpu_file.{h,cc}] (under src/posix_translation/)

    The files of /sys/devices/system/cpu: which processors there are and which are
    online.  What [sysconf] and [time] answer is the environment. *)

From S2P Require Import Prelude BaseStrings Decimal PathUtil DirectoryManager Util FileStream FileSystemHandler HostMemory MemoryFile.

#[local] Open Scope Z_scope.

Record CpuEnv : Type := mkCpuEnv { nprocessors_conf : Z; nprocessors_onln : Z; now : Z }.

(** The classes derived from [CpuFileContent]. *)
Inductive CpuFileContent : Type :=
| KernelMaxFileContent
| OfflineFileContent (num_processors : Z)
| OnlineFileContent
| PresentFileContent (num_processors : Z).

Definition kNrCpus : Z := 64.
Definition newline : str := [ascii_of_nat 10].

Definition UpdateContent (min max : Z) : outcome str :=
  require ((0 <=? min) && (0 <=? max) && (min <=? max));;
  mret (if min =? max then decimal min ++ newline else decimal min ++ lit "-" ++ decimal max ++ newline).

(** What the constructors do besides storing their arguments. *)
Definition CpuFileContent_new (c : CpuFileContent) : outcome CpuFileContent :=
  (match c with
   | OfflineFileContent n => require (0 <? n)
   | PresentFileContent n => require (0 <? n);; UpdateContent 0 (n - 1);; mret tt
   | KernelMaxFileContent => UpdateContent (kNrCpus - 1) (kNrCpus - 1);; mret tt
   | OnlineFileContent => mret tt
   end);;
  mret c.

(** [GetContent] of each class. *)
Definition cpu_content (c : CpuFileContent) (online : Z) : outcome str :=
  match c with
  | KernelMaxFileContent => UpdateContent (kNrCpus - 1) (kNrCpus - 1)
  | OfflineFileContent num_processors =>
      require (0 <? online);;
      (if num_processors - online =? 0 then mret newline else UpdateContent online (num_processors - 1)) ≫= λ s,
      require (online <=? num_processors);; mret s
  | OnlineFileContent => require (0 <? online);; UpdateContent 0 (online - 1)
  | PresentFileContent num_processors => UpdateContent 0 (num_processors - 1)
  end.

(** [CpuFile::GetContent] *)
Definition CpuFile_GetContent : St (CpuEnv * ReadonlyMemoryFile CpuFileContent) str :=
  w ← get;
  s ← lift (cpu_content (derived (w : CpuEnv * ReadonlyMemoryFile CpuFileContent).2) (nprocessors_onln w.1));
  check (bool_decide (s ≠ []));;
  mret s.

Definition CpuFile (pathname : str) (inode : Z) (content : CpuFileContent) (env : CpuEnv) : ReadonlyMemoryFile CpuFileContent :=
  ReadonlyMemoryFile_new pathname inode (Some EIO) (now env) content.

Definition cpu_fstatfs : res StatFs := DoStatFsForProc.

(** ** The handler *)

Record CpuFileHandler : Type := mkCpuHandler {
  is_initialized_ : bool;
  num_processors_ : Z;
  path_ : str;
  directory_manager_ : DirMap;
}.

(** The streams that [open] makes. *)
Inductive cpu_opened : Type :=
| CpuDirectory (pathname : str)
| OpenedCpuFile (f : ReadonlyMemoryFile CpuFileContent).

Section Handler.
Context `{BaseStrings} (inode : str → Z).

Abbreviation CH := (CpuEnv * CpuFileHandler)%type.

(** The constructor of the directory manager is [Clear]. *)
Definition CpuFileHandler_new : St DirMap CpuFileHandler :=
  Clear;; m ← get; mret (mkCpuHandler false (-1) [] m).

Definition set_directories (m : DirMap) (h : CpuFileHandler) : CpuFileHandler :=
  mkCpuHandler (is_initialized_ h) (num_processors_ h) (path_ h) m.

Definition on_directories {A} (c : St DirMap A) : St CH A := λ w,
  match c (directory_manager_ w.2) with
  | Done (a, m) => Done (a, (w.1, set_directories m w.2))
  | Abort => Abort
  | NoFuel => NoFuel
  end.

Definition this_handler : St CH CpuFileHandler := gets snd.

Definition cpu_OnMounted (path : str) : St CH unit :=
  check (EndsWithSlash path);;
  modify (λ w, (w.1, mkCpuHandler (is_initialized_ w.2) (num_processors_ w.2) path (directory_manager_ w.2))).

Fixpoint make_cpu_directories (path : str) (i : Z) (n : nat) : St DirMap unit :=
  match n with
  | O => mret tt
  | Datatypes.S n => MakeDirectories (path ++ lit "cpu" ++ decimal i);; make_cpu_directories path (i + 1) n
  end.

Definition kFiles : list str := [lit "kernel_max"; lit "offline"; lit "online"; lit "possible"; lit "present"].

Fixpoint add_files (path : str) (names : list str) : St DirMap unit :=
  match names with
  | [] => mret tt
  | name :: names => result ← AddFile (path ++ name); check result;; add_files path names
  end.

Definition cpu_Initialize : St CH unit :=
  h ← this_handler;
  check (negb (is_initialized_ h));;
  check (bool_decide (path_ h ≠ []));;
  on_directories (MakeDirectories (path_ h));;
  env ← gets fst;
  let n := nprocessors_conf env in
  modify (λ w, (w.1, mkCpuHandler (is_initialized_ w.2) n (path_ w.2) (directory_manager_ w.2)));;
  check (0 <? n);;
  on_directories (make_cpu_directories (path_ h) 0 (Z.to_nat n));;
  on_directories (add_files (path_ h) kFiles);;
  modify (λ w, (w.1, mkCpuHandler true (num_processors_ w.2) (path_ w.2) (directory_manager_ w.2))).

Definition cpu_OnDirectoryContentsNeeded (name : str) : St CH (res DirImpl) := on_directories (OpenDirectory name).

Definition O_ACCMODE : Z := 3.

(** The class for a file name. *)
Definition content_for (pathname : str) (num_processors : Z) : option CpuFileContent :=
  if EndsWith pathname "kernel_max" then Some KernelMaxFileContent
  else if EndsWith pathname "offline" then Some (OfflineFileContent num_processors)
  else if EndsWith pathname "online" then Some OnlineFileContent
  else if EndsWith pathname "possible" || EndsWith pathname "present" then Some (PresentFileContent num_processors)
  else None.

Definition cpu_open (pathname : str) (oflag : Z) : St CH (res cpu_opened) :=
  if negb (Z.land oflag O_ACCMODE =? 0) then mret (Err EACCES)
  else
    is_directory ← on_directories (StatDirectory pathname);
    if (is_directory : bool) then mret (Ok (CpuDirectory pathname))
    else
      is_file ← on_directories (StatFile pathname);
      if negb is_file then mret (Err ENOENT)
      else
        h ← this_handler;
        env ← gets fst;
        match content_for pathname (num_processors_ h) with
        | None => fatal
        | Some c =>
            content ← lift (CpuFileContent_new c);
            mret (Ok (OpenedCpuFile (CpuFile pathname (inode pathname) content env)))
        end.

(** [fstat] of what [open] made. *)
Definition opened_fstat (o : cpu_opened) : St CH (res Stat) := λ w,
  match o with
  | CpuDirectory p => Done (Ok (DirectoryFillStatData (inode p)), w)
  | OpenedCpuFile f =>
      match mf_fstat CpuFile_GetContent (w.1, f) with
      | Done (Ok (st, _), (env, _)) => Done (Ok st, (env, w.2))
      | Done (Err e, (env, _)) => Done (Err e, (env, w.2))
      | Abort => Abort
      | NoFuel => NoFuel
      end
  end.

Definition cpu_stat (pathname : str) : St CH (res Stat) :=
  file ← cpu_open pathname 0;
  match file with
  | Err _ => mret (Err ENOENT)
  | Ok o => opened_fstat o
  end.

Definition cpu_statfs (pathname : str) : St CH (res StatFs) := mret DoStatFsForSys.

(** What the virtual file system is told of a stream. *)
Definition cpu_new_stream (oflag : Z) (o : cpu_opened) : NewStream :=
  match o with
  | CpuDirectory p => DirectoryFileStream (lit "cpu") p
  | OpenedCpuFile f => mkNewStream 0 (mf_pathname f) mf_GetStreamType
  end.

Definition cpu_handler : FileSystemHandler CH :=
  mkHandler (λ w, is_initialized_ w.2) cpu_Initialize cpu_OnMounted Base.OnUnmounted Base.InvalidateCache
    (Base.IsWorldWritable cpu_stat) Base.mkdir
    (λ _ p oflag _, r ← cpu_open p oflag; mret match r with Ok o => Ok (cpu_new_stream oflag o) | Err e => Err e end)
    (λ p, r ← cpu_OnDirectoryContentsNeeded p; mret match r with Ok d => Some d | Err _ => None end)
    Base.readlink Base.remove Base.rename Base.rmdir cpu_stat cpu_statfs Base.symlink Base.truncate Base.unlink Base.utimes.
End Handler.
