(* ===== verification/CpuFileProperties.v ===== *)
(** * CpuFileProperties: the theorem on the files of the processors

    The handler at any mount point lists the processors and their files, and what a
    program reads from "online", "offline" and "present" parses to the processors that
    are there. *)

From S2P Require Import Prelude BaseStrings Decimal PathUtil DirectoryManager Util FileStream FileSystemHandler MemoryFile CpuFile.

#[local] Open Scope Z_scope.

(** ** The format of processor lists *)

(** "n" or "a-b". *)
Definition parse_range (s : str) : option (list Z) :=
  match split_on "-"%char s with
  | [a] => Some [from_digits a]
  | [a; b] => Some (seqZ (from_digits a) (from_digits b - from_digits a + 1))
  | _ => None
  end.

(** One line, empty when there are none. *)
Definition parse_list (s : str) : option (list Z) :=
  match split_on (ascii_of_nat 10) s with
  | [l; []] => if bool_decide (l = []) then Some [] else parse_range l
  | _ => None
  end.

Lemma newline_not_in n : 0 <= n → ascii_of_nat 10 ∉ decimal n.
Proof. intros Hn. by apply decimal_not_in. Qed.

Lemma dash_not_in n : 0 <= n → "-"%char ∉ decimal n.
Proof. intros Hn. by apply decimal_not_in. Qed.

Lemma parse_line l : ascii_of_nat 10 ∉ l → l ≠ [] → parse_list (l ++ newline) = parse_range l.
Proof.
  intros Hl Hne. unfold parse_list, newline. rewrite split_on_app, (split_on_notin _ l) by done. cbn.
  by rewrite bool_decide_false.
Qed.

Lemma update_content a b :
  0 <= a <= b → b < 2 ^ 31 →
  ∃ s, UpdateContent a b = Done s ∧ parse_list s = Some (seqZ a (b - a + 1)) ∧ s ≠ [] ∧ size s < 100.
Proof.
  intros Ha Hb. unfold UpdateContent. rewrite (proj2 (Z.leb_le 0 a)), (proj2 (Z.leb_le 0 b)), (proj2 (Z.leb_le a b)) by lia.
  cbn [andb]. rewrite require_true. eexists. split; [done|].
  destruct (decimal_spec a ltac:(lia)) as (Ha1 & _ & Ha3), (decimal_spec b ltac:(lia)) as (Hb1 & _ & Hb3).
  pose proof (decimal_length a ltac:(lia)). pose proof (decimal_length b ltac:(lia)).
  destruct (Z.eqb_spec a b) as [->|Hne].
  - split; [|split; [by destruct (decimal b)|unfold size; rewrite length_app; cbn; lia]].
    rewrite parse_line by (done || apply newline_not_in; lia). unfold parse_range.
    rewrite split_on_notin by (apply dash_not_in; lia). rewrite Hb1.
    replace (b - b + 1) with 1 by lia. done.
  - split; [|split; [by destruct (decimal a)|unfold size; rewrite !length_app; cbn; lia]].
    rewrite app_assoc, app_assoc. rewrite parse_line; [| |by destruct (decimal a)].
    + unfold parse_range. change (lit "-") with ["-"%char]. rewrite <-app_assoc. cbn [app].
      rewrite split_on_app, !split_on_notin by (apply dash_not_in; lia). cbn [app]. by rewrite Ha1, Hb1.
    + rewrite !not_elem_of_app. split; [split; [apply newline_not_in; lia|by intros [?|?%elem_of_nil]%elem_of_cons]|apply newline_not_in; lia].
Qed.

(** ** The contents *)

Definition online_part (c : CpuFileContent) (online : Z) : list Z :=
  match c with
  | KernelMaxFileContent => [kNrCpus - 1]
  | OfflineFileContent n => seqZ online (n - online)
  | OnlineFileContent => seqZ 0 online
  | PresentFileContent n => seqZ 0 n
  end.

Definition processors_ok (c : CpuFileContent) (online : Z) : Prop :=
  match c with
  | OfflineFileContent n | PresentFileContent n => online <= n < 2 ^ 31
  | _ => True
  end.

Lemma cpu_content_spec c online :
  0 < online < 2 ^ 31 → processors_ok c online →
  ∃ s, cpu_content c online = Done s ∧ parse_list s = Some (online_part c online) ∧ s ≠ [] ∧ size s < 100.
Proof.
  intros Ho Hok. destruct c as [|n| |n]; cbn [cpu_content online_part processors_ok] in *.
  - by eexists.
  - rewrite (proj2 (Z.ltb_lt 0 online)), require_true by lia. destruct (Z.eqb_spec (n - online) 0) as [Heq|Hne].
    + rewrite (proj2 (Z.leb_le online n)) by lia. eexists. split; [done|]. split; [|done].
      replace (seqZ online (n - online)) with (@nil Z) by (by rewrite Heq). done.
    + destruct (update_content online (n - 1)) as (s & Hs & Hp & Hrest); [lia|lia|]. rewrite Hs. exists s.
      rewrite done_bind, (proj2 (Z.leb_le online n)) by lia. split; [done|]. split; [|done]. rewrite Hp. do 2 f_equal. lia.
  - rewrite (proj2 (Z.ltb_lt 0 online)), require_true by lia.
    destruct (update_content 0 (online - 1)) as (s & Hs & Hp & Hrest); [lia|lia|]. exists s. split; [done|].
    split; [|done]. rewrite Hp. do 2 f_equal. lia.
  - destruct (update_content 0 (n - 1)) as (s & Hs & Hp & Hrest); [lia|lia|]. exists s. split; [done|].
    split; [|done]. rewrite Hp. do 2 f_equal. lia.
Qed.

Lemma cpu_stable c online s t :
  cpu_content c online = Done s → s ≠ [] →
  stable CpuFile_GetContent (λ w, nprocessors_onln w.1 = online ∧ derived w.2 = c ∧ now w.1 = t) s.
Proof.
  intros Hs Hne. split.
  - intros w (H1 & H2 & H3). exists w. unfold CpuFile_GetContent, mbind, St_bind, get, lift, check.
    rewrite H1, H2, Hs, bool_decide_true by done. done.
  - done.
Qed.

(** ** The handler *)

Section Handler.
Context `{BaseStringsSpec} (inode : str → Z).

Definition cpu_name (i : Z) : str := lit "cpu" ++ decimal i.

Definition no_names (ds : list str) (names : list str) (fs : FS) : Prop := Forall (λ f, ds ++ [f] ∉ dirs fs) names.

Lemma cpu_name_ok ds i : okpath ds → 0 <= i → okpath (ds ++ [cpu_name i]).
Proof.
  intros Hds Hi. apply okpath_snoc. split; [done|]. split; [|split; [done|split; [done|]]].
  - unfold cpu_name. rewrite not_elem_of_app. split; [|by apply decimal_not_in].
    by apply (bool_decide_unpack _).
  - by apply (trimmed_number "c" ["p"%char; "u"%char]).
Qed.

Lemma kFiles_ok ds : okpath ds → Forall (λ f, okpath (ds ++ [f])) kFiles.
Proof.
  intros Hds. assert (Forall (λ f, okpath [f]) kFiles) as Hk by (apply (bool_decide_unpack _); by vm_compute).
  eapply Forall_impl; [exact Hk|]. intros f Hf. by apply okpath_app.
Qed.

Lemma filepath_snoc ds f : dirpath ds ++ f = filepath (ds ++ [f]).
Proof. unfold dirpath, filepath. rewrite join_abs_app, <-app_assoc. cbn. by rewrite app_nil_r. Qed.

Lemma make_dirs_no_names ds i fs :
  0 <= i → no_names ds kFiles fs → no_names ds kFiles (fs_make_dirs (ds ++ [cpu_name i]) fs).
Proof.
  intros Hi Hno. unfold no_names in *. rewrite Forall_forall in Hno |- *. intros f Hf. cbn. rewrite not_elem_of_union.
  split; [by apply Hno|]. rewrite elem_of_list_to_set, prefixes_from_elem. intros (qs & Hqs & Heq). cbn in Heq. subst qs.
  destruct Hqs as [ks Hks]. rewrite <-app_assoc in Hks. apply app_inv_head in Hks. injection Hks as Hks _.
  assert (Forall (λ f, take 3 f ≠ lit "cpu") kFiles) as Hk by (apply (bool_decide_unpack _); by vm_compute).
  rewrite Forall_forall in Hk. apply (Hk f Hf). by rewrite <-Hks.
Qed.

Lemma make_cpu_directories_spec ds n : okpath ds → ∀ i m fs,
  repr m fs → 0 <= i → no_names ds kFiles fs → files fs = ∅ →
  ∃ m' fs', make_cpu_directories (dirpath ds) i n m = Done (tt, m') ∧ repr m' fs' ∧ no_names ds kFiles fs' ∧
    files fs' = ∅ ∧ dirs fs ⊆ dirs fs' ∧ ∀ k, i <= k < i + Z.of_nat n → ds ++ [cpu_name k] ∈ dirs fs'.
Proof.
  intros Hds. induction n as [|n IH]; intros i m fs Hr Hi Hno Hf.
  { exists m, fs. split; [done|]. split; [done|]. split; [done|]. split; [done|]. split; [done|]. lia. }
  cbn [make_cpu_directories]. rewrite filepath_snoc. fold (cpu_name i).
  pose proof (cpu_name_ok ds i Hds Hi) as Hok.
  destruct (make_directories_spec m fs (ds ++ [cpu_name i]) (filepath (ds ++ [cpu_name i])) Hr Hok (ensure_filepath _ Hok))
    as (m1 & Hm1 & Hr1).
  destruct (IH (i + 1) m1 _ Hr1 ltac:(lia) (make_dirs_no_names ds i fs Hi Hno) Hf) as (m2 & fs2 & Hm2 & Hr2 & Hno2 & Hf2 & Hsub & Hin).
  exists m2, fs2. run_with Hm1. split; [done|]. split; [done|]. split; [done|]. split; [done|].
  split; [cbn in Hsub; set_solver|]. intros k Hk. destruct (decide (k = i)) as [->|]; [|apply Hin; lia].
  apply Hsub, fs_make_dirs_in.
Qed.

Lemma add_files_spec ds names : okpath ds → NoDup names → Forall (λ f, okpath (ds ++ [f])) names → ∀ m fs,
  repr m fs → ds ∈ dirs fs → no_names ds names fs → Forall (λ f, files fs !! (ds ++ [f]) = None) names →
  ∃ m' fs', add_files (dirpath ds) names m = Done (tt, m') ∧ repr m' fs' ∧ dirs fs' = dirs fs ∧
    Forall (λ f, files fs' !! (ds ++ [f]) = Some REGULAR) names ∧
    ∀ p t, files fs !! p = Some t → files fs' !! p = Some t.
Proof.
  intros Hds Hnd Hok. induction names as [|f names IH]; intros m fs Hr Hin Hno Hnew.
  { exists m, fs. split; [done|]. split; [done|]. split; [done|]. by split. }
  inversion Hnd as [|?? Hf Hnd']; inversion Hok as [|?? Hokf Hok']; inversion Hno as [|?? Hnof Hno'];
    inversion Hnew as [|?? Hnewf Hnew']; subst. cbn [add_files]. rewrite filepath_snoc.
  destruct (add_file_spec m fs ds f REGULAR Hr Hokf ltac:(done)) as (m1 & Hm1 & Hr1).
  change (AddFileWithType (filepath (ds ++ [f])) REGULAR) with (AddFile (filepath (ds ++ [f]))) in Hm1.
  unfold fs_add_file in Hm1, Hr1. rewrite bool_decide_false, removelast_last in Hm1, Hr1 by done.
  rewrite fs_make_dirs_id in Hm1, Hr1 by (done || apply (repr_ok _ _ Hr)). rewrite Hnewf in Hm1, Hr1. cbn [fst snd] in Hm1, Hr1.
  run_with Hm1. unfold check. unfold mbind at 1, St_bind at 1.
  set (fs1 := {| dirs := dirs fs; files := <[ds ++ [f]:=REGULAR]> (files fs) |}) in *.
  destruct (IH Hnd' Hok' m1 fs1 Hr1 Hin Hno') as (m2 & fs2 & Hm2 & Hr2 & Hd2 & Hn2 & Hk2).
  { rewrite Forall_forall in Hnew' |- *. intros g Hg. cbn. rewrite lookup_insert_ne; [by apply Hnew'|].
    intros Heq%app_inv_head. congruence. }
  exists m2, fs2. split; [done|]. split; [done|]. split; [done|]. split.
  - constructor; [|done]. apply Hk2. cbn. apply lookup_insert_eq.
  - intros p t Hp. apply Hk2. cbn. rewrite lookup_insert_ne; [done|]. intros <-. congruence.
Qed.

(** A handler that is ready, mounted at [ds]. *)
Record cpu_ready (ds : list str) (n : Z) (h : CpuFileHandler) : Prop := {
  cr_initialized : is_initialized_ h = true;
  cr_number : num_processors_ h = n;
  cr_tree : ∃ fs, repr (directory_manager_ h) fs ∧ no_names ds kFiles fs ∧
    Forall (λ f, files fs !! (ds ++ [f]) = Some REGULAR) kFiles ∧
    ∀ k, 0 <= k < n → ds ++ [cpu_name k] ∈ dirs fs;
}.

Lemma on_directories_run {A} (c : St DirMap A) env h a m' :
  c (directory_manager_ h) = Done (a, m') → on_directories c (env, h) = Done (a, (env, set_directories m' h)).
Proof. intros Hc. unfold on_directories. cbn [snd fst]. by rewrite Hc. Qed.

Lemma initialize_spec ds env m :
  okpath ds → repr m fs_empty → 0 < nprocessors_conf env →
  ∃ h, (cpu_OnMounted (dirpath ds);; cpu_Initialize) (env, mkCpuHandler false (-1) [] m) = Done (tt, (env, h)) ∧
    cpu_ready ds (nprocessors_conf env) h.
Proof.
  intros Hds Hr Hn.
  destruct (make_directories_spec m fs_empty ds (dirpath ds) Hr Hds (ensure_dirpath ds)) as (m1 & Hm1 & Hr1).
  assert (no_names ds kFiles (fs_make_dirs ds fs_empty)) as Hno.
  { apply Forall_forall. intros f _. cbn. rewrite not_elem_of_union. split; [rewrite elem_of_singleton; by destruct ds|].
    rewrite elem_of_list_to_set, prefixes_from_elem. intros (qs & [ks Hks] & Heq). cbn in Heq. subst qs.
    apply (f_equal List.length) in Hks. rewrite !length_app in Hks. cbn in Hks. lia. }
  destruct (make_cpu_directories_spec ds (Z.to_nat (nprocessors_conf env)) Hds 0 m1 _ Hr1 ltac:(lia) Hno eq_refl)
    as (m2 & fs2 & Hm2 & Hr2 & Hno2 & Hf2 & Hsub & Hin).
  destruct (add_files_spec ds kFiles Hds ltac:(apply (bool_decide_unpack _); by vm_compute) (kFiles_ok ds Hds) m2 fs2 Hr2)
    as (m3 & fs3 & Hm3 & Hr3 & Hd3 & Hn3 & _).
  { apply Hsub, fs_make_dirs_in. }
  { done. }
  { apply Forall_forall. intros f _. by rewrite Hf2, lookup_empty. }
  unfold cpu_OnMounted, cpu_Initialize. unfold mbind at 1, St_bind at 1.
  rewrite (St_bind_run (check _) _ _ tt (env, mkCpuHandler false (-1) [] m)) by (by rewrite ends_dirpath).
  change (modify _ _) with (Done (tt, (env, mkCpuHandler false (-1) (dirpath ds) m))). cbv beta iota.
  set (h1 := mkCpuHandler false (-1) (dirpath ds) m).
  rewrite (St_bind_run this_handler _ (env, h1) h1 (env, h1) eq_refl).
  rewrite (St_bind_run (check _) _ (env, h1) tt (env, h1)) by done.
  rewrite (St_bind_run (check _) _ (env, h1) tt (env, h1)).
  2: { unfold check. by rewrite bool_decide_true by (unfold h1, dirpath; cbn; by destruct (join_abs slash ds)). }
  change (path_ h1) with (dirpath ds). run_with (on_directories_run _ env h1 tt m1 Hm1).
  rewrite (St_bind_run (gets fst) _ (env, set_directories m1 h1) env (env, set_directories m1 h1) eq_refl). cbv zeta.
  set (n := nprocessors_conf env) in *. set (h2 := mkCpuHandler false n (dirpath ds) m1).
  rewrite (St_bind_run (modify _) _ (env, set_directories m1 h1) tt (env, h2) eq_refl).
  rewrite (St_bind_run (check _) _ (env, h2) tt (env, h2)) by (unfold check; by rewrite (proj2 (Z.ltb_lt 0 n))).
  run_with (on_directories_run _ env h2 tt m2 Hm2).
  run_with (on_directories_run _ env (set_directories m2 h2) tt m3 Hm3).
  eexists. split; [done|]. split; cbn; [done|done|]. exists fs3. split; [done|]. split; [|split; [done|]].
  - unfold no_names. by rewrite Hd3.
  - intros k Hk. rewrite Hd3. apply Hin. lia.
Qed.

(** *** Names of files *)

Lemma ends_with_same p f : EndsWith (p ++ f) f = true.
Proof. rewrite EndsWith_spec. apply bool_decide_eq_true. by exists p. Qed.

Lemma ends_with_other p f t : ¬ f `suffix_of` t → ¬ t `suffix_of` f → EndsWith (p ++ f) t = false.
Proof.
  intros H1 H2. rewrite EndsWith_spec. apply bool_decide_eq_false. intros Ht.
  destruct (suffix_weak_total f t (p ++ f)) as [?|?]; [by exists p|done|done|done].
Qed.

Definition content_of_name (name : str) (n : Z) : option CpuFileContent :=
  if bool_decide (name = lit "kernel_max") then Some KernelMaxFileContent
  else if bool_decide (name = lit "offline") then Some (OfflineFileContent n)
  else if bool_decide (name = lit "online") then Some OnlineFileContent
  else Some (PresentFileContent n).

Lemma content_for_name p f n : f ∈ kFiles → content_for (p ++ f) n = content_of_name f n.
Proof.
  intros Hf. unfold content_for.
  assert (f = lit "kernel_max" ∨ f = lit "offline" ∨ f = lit "online" ∨ f = lit "possible" ∨ f = lit "present") as Hcase
    by (unfold kFiles in Hf; set_solver).
  destruct Hcase as [-> |[-> |[-> |[-> | ->]]]];
    repeat (rewrite ends_with_same || (rewrite (ends_with_other p) by (apply (bool_decide_unpack _); by vm_compute)));
    done.
Qed.

Lemma cpu_open_spec ds n h env f :
  okpath ds → cpu_ready ds n h → 0 < n < 2 ^ 31 → f ∈ kFiles →
  ∃ c, content_of_name f n = Some c ∧
    cpu_open inode (dirpath ds ++ f) 0 (env, h) =
    Done (Ok (OpenedCpuFile (CpuFile (dirpath ds ++ f) (inode (dirpath ds ++ f)) c env)), (env, h)).
Proof.
  intros Hds [Hi Hn (fs & Hr & Hno & Hfiles & _)] Hpos Hf.
  pose proof (kFiles_ok ds Hds) as Hok. unfold no_names in Hno. rewrite Forall_forall in Hok, Hno, Hfiles.
  assert (∃ c, content_of_name f n = Some c ∧ CpuFileContent_new c = Done c) as (c & Hc & Hnew).
  { unfold content_of_name. unfold CpuFileContent_new.
    destruct (update_content 0 (n - 1) ltac:(lia) ltac:(lia)) as (s & Hs & _).
    assert ((0 <? n) = true) as Hlt by (apply Z.ltb_lt; lia).
    repeat case_bool_decide; eexists; (split; [done|]); cbv beta iota; rewrite ?Hlt, ?require_true, ?Hs; done. }
  exists c. split; [done|]. unfold cpu_open. change (Z.land 0 O_ACCMODE =? 0) with true. cbn [negb].
  assert (set_directories (directory_manager_ h) h = h) as Hset by by destruct h.
  assert (StatDirectory (dirpath ds ++ f) (directory_manager_ h) = Done (false, directory_manager_ h)) as Hsd.
  { rewrite filepath_snoc, (stat_directory_spec _ fs _ (ds ++ [f]) Hr (Hok f Hf) (ensure_filepath _ (Hok f Hf))).
    by rewrite bool_decide_false by by apply Hno. }
  assert (StatFile (dirpath ds ++ f) (directory_manager_ h) = Done (true, directory_manager_ h)) as Hsf.
  { rewrite filepath_snoc, (stat_file_spec _ fs _ Hr (Hok f Hf)) by by destruct ds. rewrite (Hfiles f Hf).
    by rewrite bool_decide_true by by eexists. }
  rewrite (St_bind_run _ _ (env, h) false (env, h)) by (by rewrite (on_directories_run _ _ _ _ _ Hsd), Hset).
  rewrite (St_bind_run _ _ (env, h) true (env, h)) by (by rewrite (on_directories_run _ _ _ _ _ Hsf), Hset).
  cbn [negb]. rewrite (St_bind_run this_handler _ (env, h) h (env, h) eq_refl).
  rewrite (St_bind_run (gets fst) _ (env, h) env (env, h) eq_refl).
  rewrite Hn, (content_for_name _ _ _ Hf), Hc. unfold lift, mbind, St_bind. by rewrite Hnew.
Qed.

(** Opening a file and reading it through, [chunk] bytes at a time; [online] may have
    changed since the file was opened. *)
Definition read_file (pathname : str) (env env' : CpuEnv) (h : CpuFileHandler) (chunk : Z) : outcome (res str) :=
  match cpu_open inode pathname 0 (env, h) with
  | Done (Ok (OpenedCpuFile f), _) =>
      match cat CpuFile_GetContent chunk 101 (env', f) with
      | Done (s, _) => Done (Ok s)
      | Abort => Abort
      | NoFuel => NoFuel
      end
  | Done (Ok (CpuDirectory _), _) => Done (Err EISDIR)
  | Done (Err e, _) => Done (Err e)
  | Abort => Abort
  | NoFuel => NoFuel
  end.

Lemma read_file_spec ds n h env env' f chunk :
  okpath ds → cpu_ready ds n h → 0 < nprocessors_onln env' <= n → n < 2 ^ 31 → 0 < chunk → f ∈ kFiles →
  ∃ c s, content_of_name f n = Some c ∧ read_file (dirpath ds ++ f) env env' h chunk = Done (Ok s) ∧
    parse_list s = Some (online_part c (nprocessors_onln env')).
Proof.
  intros Hds Hready Ho Hn Hchunk Hf.
  destruct (cpu_open_spec ds n h env f Hds Hready ltac:(lia) Hf) as (c & Hc & Hopen).
  assert (processors_ok c (nprocessors_onln env')) as Hok.
  { unfold content_of_name in Hc. repeat case_bool_decide; simplify_eq; cbn; lia. }
  destruct (cpu_content_spec c (nprocessors_onln env') ltac:(lia) Hok) as (s & Hs & Hp & Hne & Hsz).
  exists c, s. split; [done|]. split; [|done]. unfold read_file. rewrite Hopen.
  pose proof (cat_content CpuFile_GetContent _ s (env', CpuFile (dirpath ds ++ f) (inode (dirpath ds ++ f)) c env) chunk 101
               (cpu_stable c (nprocessors_onln env') s (now env') Hs Hne)) as Hcat.
  destruct Hcat as (w' & Hcat & _); [done|unfold size in *; lia|done|done|unfold size in Hsz; lia|]. by rewrite Hcat.
Qed.

(** The lists of processors.  Mounted at any directory, the handler lists every
    configured processor; and whichever of them are online when a file is read, in pieces
    of any size: "online" and "offline" parse to the processors that are and are not
    online, which together are those of "present" and "possible". *)
Theorem cpu_lists_partition ds env env' m chunk :
  okpath ds → 0 < nprocessors_onln env' <= nprocessors_conf env → nprocessors_conf env < 2 ^ 31 → 0 < chunk →
  ∃ new m1 h, CpuFileHandler_new m = Done (new, m1) ∧
    (cpu_OnMounted (dirpath ds);; cpu_Initialize) (env, new) = Done (tt, (env, h)) ∧
    (∀ k, 0 <= k < nprocessors_conf env →
       StatDirectory (filepath (ds ++ [cpu_name k])) (directory_manager_ h) = Done (true, directory_manager_ h)) ∧
    ∃ online offline present possible,
      read_file (dirpath ds ++ lit "online") env env' h chunk = Done (Ok online) ∧
      read_file (dirpath ds ++ lit "offline") env env' h chunk = Done (Ok offline) ∧
      read_file (dirpath ds ++ lit "present") env env' h chunk = Done (Ok present) ∧
      read_file (dirpath ds ++ lit "possible") env env' h chunk = Done (Ok possible) ∧
      parse_list online = Some (seqZ 0 (nprocessors_onln env')) ∧
      parse_list offline = Some (seqZ (nprocessors_onln env') (nprocessors_conf env - nprocessors_onln env')) ∧
      parse_list present = Some (seqZ 0 (nprocessors_conf env)) ∧ parse_list possible = parse_list present ∧
      (a ← parse_list online; b ← parse_list offline; Some (a ++ b)) = parse_list present.
Proof.
  intros Hds Ho Hn Hchunk. destruct (clear_spec m) as (m1 & Hm1 & Hr1).
  destruct (initialize_spec ds env m1 Hds Hr1 ltac:(lia)) as (h & Hinit & Hready).
  exists (mkCpuHandler false (-1) [] m1), m1, h. split; [unfold CpuFileHandler_new; by run_with Hm1|]. split; [done|]. split.
  { destruct Hready as [_ _ (fs & Hr & _ & _ & Hin)]. intros k Hk. pose proof (cpu_name_ok ds k Hds ltac:(lia)) as Hok.
    rewrite (stat_directory_spec _ fs _ _ Hr Hok (ensure_filepath _ Hok)). by rewrite bool_decide_true by by apply Hin. }
  assert (∀ f, f ∈ kFiles → ∃ c s, content_of_name f (nprocessors_conf env) = Some c ∧
    read_file (dirpath ds ++ f) env env' h chunk = Done (Ok s) ∧ parse_list s = Some (online_part c (nprocessors_onln env'))) as Hread.
  { intros f Hf. by apply (read_file_spec ds). }
  destruct (Hread (lit "online")) as (c1 & s1 & Hc1 & H1 & P1); [unfold kFiles; set_solver|].
  destruct (Hread (lit "offline")) as (c2 & s2 & Hc2 & H2 & P2); [unfold kFiles; set_solver|].
  destruct (Hread (lit "present")) as (c3 & s3 & Hc3 & H3 & P3); [unfold kFiles; set_solver|].
  destruct (Hread (lit "possible")) as (c4 & s4 & Hc4 & H4 & P4); [unfold kFiles; set_solver|].
  exists s1, s2, s3, s4. split; [done|]. split; [done|]. split; [done|]. split; [done|].
  injection Hc1 as <-. injection Hc2 as <-. injection Hc3 as <-. injection Hc4 as <-. cbn [online_part] in *.
  rewrite P1, P2, P3, P4. repeat (split; [done|]). cbn. f_equal.
  replace (nprocessors_conf env) with (nprocessors_onln env' + (nprocessors_conf env - nprocessors_onln env')) at 2 by lia.
  rewrite seqZ_app by lia. by rewrite Z.add_0_l.
Qed.
End Handler.

(** ** A witness *)

Module CpuWitness.
Import Reference.

Definition machine : CpuEnv := mkCpuEnv 4 4 0.
Definition one_down : CpuEnv := mkCpuEnv 4 3 7.

Lemma cpu_lists_partition_witness :
  ∃ h online offline,
    read_file (λ _, 5) (dirpath [lit "sys"; lit "cpu"] ++ lit "online") machine one_down h 2 = Done (Ok online) ∧
    parse_list online = Some [0; 1; 2] ∧ parse_list offline = Some [3].
Proof.
  assert (okpath [lit "sys"; lit "cpu"]) as Hok by (apply (bool_decide_unpack _); vm_compute; reflexivity).
  destruct (cpu_lists_partition (λ _, 5) [lit "sys"; lit "cpu"] machine one_down ∅ 2 Hok) as
    (_ & _ & h & _ & _ & _ & online & offline & _ & _ & H1 & _ & _ & _ & H2 & H3 & _); [vm_compute; split; reflexivity || discriminate|done|done|].
  exists h, online, offline. split; [exact H1|]. split; [exact H2|exact H3].
Defined.
End CpuWitness.
