(* ===== verification/Procfs.v ===== *)
(** * Procfs: [procfs_file.{h,cc}] (under src/posix_translation/)

    /proc: a directory tree that follows the emulated processes, and files whose
    content is made from them, from the mount points and from the sockets.
    [ReplaceStringPlaceholders] of base/strings/string_util.h is a parameter. *)

From S2P Require Import Prelude BaseStrings Decimal PathUtil DirectoryManager Util MountPoints FileStream SocketStream OrderedMap ProcessEmulator FileSystemHandler HostMemory MemoryFile.
Import UpdateTracking AbstractSocketNamespace.

#[local] Open Scope Z_scope.

Definition newline : str := [ascii_of_nat 10].
Definition tab : str := [ascii_of_nat 9].

(** Lines, each with its newline. *)
Definition lines (l : list str) : str := List.concat (map (λ s, s ++ newline) l).

Definition kProcCpuInfoHeader : str := lines
  [lit "Processor" ++ tab ++ lit ": ARMv7 Processor rev 4 (v7l)"].

Definition kProcCpuInfoBody : str := lines
  [lit "processor" ++ tab ++ lit ": $1";
   lit "BogoMIPS" ++ tab ++ lit ": 1700.00";
   []].

Definition kProcCpuInfoFooter : str := lines
  [lit "Features" ++ tab ++ lit ": swp half thumb fastmult vfp edsp thumbee neon vfpv3 tls vfpv4 idiva idivt ";
   lit "CPU implementer" ++ tab ++ lit ": 0x41";
   lit "CPU architecture" ++ tab ++ lit ": 7";
   lit "CPU variant" ++ tab ++ lit ": 0x0";
   lit "CPU part" ++ tab ++ lit ": 0xc0f";
   lit "CPU revision" ++ tab ++ lit ": 4";
   [];
   lit "Hardware" ++ tab ++ lit ": ARC";
   lit "Revision" ++ tab ++ lit ": 0000";
   lit "Serial" ++ tab ++ lit ": 0000000000000000"].

Definition kProcStatFormat : str := lines
  [lit "$2 ($1) R $2 $2 $2 0 $2 0 0 0 0 0 0 0 0 0 0 0 0 0 0 0 0 0 0 0 0 0 0 0 0 0 0 0 0 0 0 0 0 0 0 0 0 0 0 0"].

Definition kProcStatusFormat : str := lines
  [lit "Name:   $1";
   lit "State:  R (running)";
   lit "Tgid:   $2";
   lit "Pid:    $2";
   lit "PPid:   $2";
   lit "TracerPid:      0";
   lit "Uid:    $3   $3   $3    $3";
   lit "Gid:    $3   $3   $3    $3";
   lit "FDSize: 32";
   lit "Groups: 0";
   lit "VmPeak:        0 kB";
   lit "VmSize:        0 kB";
   lit "VmLck:         0 kB";
   lit "VmPin:         0 kB";
   lit "VmHWM:         0 kB";
   lit "VmRSS:         0 kB";
   lit "VmData:        0 kB";
   lit "VmStk:         0 kB";
   lit "VmExe:         0 kB";
   lit "VmLib:         0 kB";
   lit "VmPTE:         0 kB";
   lit "VmSwap:        0 kB"].

Definition kProcMapsFormat : str := lines
  [lit "00008000-0002e000 r-xp 00000000 00:01 26         /sbin/adbd";
   lit "0002f000-00031000 rw-p 00026000 00:01 26         /sbin/adbd";
   lit "00031000-0004c000 rw-p 00031000 00:00 0          [heap]";
   lit "40000000-40008000 r--s 00000000 00:0a 47         /dev/__properties__ (deleted)";
   lit "40008000-40009000 r--p 40008000 00:00 0 ";
   lit "40009000-4000a000 ---p 40009000 00:00 0 ";
   lit "4000a000-40109000 rw-p 4000a000 00:00 0 ";
   lit "40109000-4010a000 ---p 40109000 00:00 0 ";
   lit "4010a000-40209000 rw-p 4010a000 00:00 0 ";
   lit "40209000-4020a000 ---p 40209000 00:00 0 ";
   lit "4020a000-40309000 rw-p 4020a000 00:00 0 ";
   lit "40309000-4030a000 ---p 40309000 00:00 0 ";
   lit "4030a000-40409000 rw-p 4030a000 00:00 0 ";
   lit "40409000-4040a000 ---p 40409000 00:00 0 ";
   lit "4040a000-40509000 rw-p 4040a000 00:00 0 ";
   lit "bec72000-bec87000 rw-p befeb000 00:00 0          [stack]"].

(** The bytes of /proc/$PID/auxv. *)
Definition kBytes : str := map ascii_of_nat
  ([16; 0; 0; 0; 215; 184; 7; 0; 6; 0; 0; 0; 0; 16; 0; 0;
    17; 0; 0; 0; 100; 0; 0; 0; 3; 0; 0; 0; 52; 32; 251; 118;
    4; 0; 0; 0; 32; 0; 0; 0; 5; 0; 0; 0; 9; 0; 0; 0;
    7; 0; 0; 0; 0; 32; 249; 118; 8; 0; 0; 0; 0; 0; 0; 0;
    9; 0; 0; 0; 189; 77; 251; 118; 11; 0; 0; 0; 0; 0; 0; 0;
    12; 0; 0; 0; 0; 0; 0; 0; 13; 0; 0; 0; 0; 0; 0; 0;
    14; 0; 0; 0; 0; 0; 0; 0; 23; 0; 0; 0; 0; 0; 0; 0;
    25; 0; 0; 0; 79; 71; 204; 126; 31; 0; 0; 0; 244; 79; 204; 126;
    15; 0; 0; 0; 95; 71; 204; 126; 0; 0; 0; 0; 0; 0; 0; 0]%nat).

(** ** The files *)

(** The derived classes with their members. *)
Inductive ProcfsKind : Type :=
| CpuInfoFile (num_online_processors : Z) (header body footer : str)
| ProcessAuxvFile
| ProcessFormattedFile (pid : Z) (format : str)
| ProcessCmdlineFile (pid : Z)
| ProcessMountsFile (manager : bool) (last_consumed : Z)
| ProcNetUnixFile (last_consumed : Z).

(** [string_vector_] of the delimited files is only used while the content is made. *)
Record ProcfsFile : Type := mkProcfsFile { content_ : str; kind : ProcfsKind }.

(** What the files are made from: the processes and the thread that asks, the mount
    points, the bound sockets with their names, [sysconf] and [time]. *)
Record ProcEnv (W FSH : Type) : Type := mkProcEnv {
  emulator : Emulator W;
  self : nat;
  mounts : MountPointManager FSH;
  handler_name : FSH → str;
  sockets : AbstractSocketNamespace;
  bound_name : nat → str;
  nprocessors_onln : Z;
  now : Z;
}.
Arguments mkProcEnv {W FSH}.
Arguments emulator {W FSH}.
Arguments self {W FSH}.
Arguments mounts {W FSH}.
Arguments handler_name {W FSH}.
Arguments sockets {W FSH}.
Arguments bound_name {W FSH}.
Arguments nprocessors_onln {W FSH}.
Arguments now {W FSH}.

(** [std::sort] of strings. *)
Definition str_le (a b : str) : Prop := str_ltb b a = false.

#[export] Instance str_le_dec a b : Decision (str_le a b).
Proof. unfold str_le. apply _. Defined.

Section Files.
Context `{BaseStrings} {W FSH : Type} (ReplaceStringPlaceholders : str → list str → str).

Abbreviation Env := (ProcEnv W FSH).

(** The content of [ProcessDelimitedFile]; the test of its size cannot fail. *)
Definition delimited (delimiter : ascii) (strings : list str) : outcome str :=
  let content := List.concat (map (λ s, s ++ [delimiter]) strings) in
  require (Nat.eqb (List.length content) (list_sum (map (λ s, List.length s + 1)%nat strings)));;
  mret content.

(** ["%d"] of a [uid_t] *)
Definition uid_decimal (uid : Z) : str := decimal (to_signed 32 uid).

(** A line of /proc/$PID/mounts. *)
Definition mount_line (env : Env) (mount_path : str) : outcome str :=
  match mount_point_map_ (mounts env) !! mount_path with
  | None => Abort
  | Some point =>
      let is_single_file := negb (EndsWithSlash mount_path) in
      (if bool_decide (mount_path ≠ lit "/") then RemoveTrailingSlashes mount_path else mret mount_path) ≫= λ path,
      mret (lit "none " ++ path ++ lit " " ++ handler_name env (handler point) ++ lit " uid=" ++
            uid_decimal (owner_uid point) ++ (if is_single_file then lit ",single_file" else []) ++ lit " 0 0")
  end.

Fixpoint mount_lines (env : Env) (paths : list str) : outcome (list str) :=
  match paths with
  | [] => mret []
  | p :: paths => mount_line env p ≫= λ l, mount_lines env paths ≫= λ ls, mret (l :: ls)
  end.

Definition sorted_mount_paths (env : Env) : list str := merge_sort str_le (map_to_list (mount_point_map_ (mounts env))).*1.

(** A line of /proc/net/unix: the format with 0, 1, 0, 0x10000, 0, 1, 0. *)
Definition socket_line (name : str) : str :=
  lit "00000000: 00000001 00000000 00010000 0000 01 0 @" ++ name ++ newline.

Definition net_unix_header : str := lines [lit "Num       RefCount Protocol Flags    Type St Inode Path"].

(** [UpdateContentIfNecessary] of each class. *)
Definition CpuInfoFile_Update (env : Env) (f : ProcfsFile) (num_online_processors : Z) (header body footer : str) :
    outcome ProcfsFile :=
  require (0 <? nprocessors_onln env) ≫= λ _,
  if num_online_processors =? nprocessors_onln env then mret f
  else
    let processor i := ReplaceStringPlaceholders body [decimal i] in
    let s := header ++ List.concat (map processor (seqZ 0 (nprocessors_onln env))) ++ footer in
    mret (mkProcfsFile s (CpuInfoFile (nprocessors_onln env) header body footer)).

Definition ProcessAuxvFile_Update (f : ProcfsFile) : ProcfsFile := mkProcfsFile kBytes (kind f).

Definition ProcessFormattedFile_Update (env : Env) (f : ProcfsFile) (pid : Z) (format : str) : ProcfsFile :=
  mkProcfsFile match GetInfoByPid pid (emulator env) with
               | Some (argv0, uid) => ReplaceStringPlaceholders format [argv0; decimal pid; uid_decimal uid]
               | None => []
               end (kind f).

Definition ProcessCmdlineFile_Update (env : Env) (f : ProcfsFile) (pid : Z) : outcome ProcfsFile :=
  delimited NUL match GetInfoByPid pid (emulator env) with Some (argv0, _) => [argv0] | None => [] end ≫= λ s,
  mret (mkProcfsFile s (kind f)).

Definition ProcessMountsFile_Update (env : Env) (f : ProcfsFile) (manager : bool) (last_consumed : Z) : outcome ProcfsFile :=
  if manager then
    let '(updates, last) := AreThereUpdatesAndConsumeIfSo last_consumed (MountPoints.update_number (mounts env)) in
    if (updates : bool) then
      mount_lines env (sorted_mount_paths env) ≫= λ ls,
      delimited (ascii_of_nat 10) ls ≫= λ s,
      mret (mkProcfsFile s (ProcessMountsFile true last))
    else mret f
  else mret (mkProcfsFile [] (kind f)).

Definition ProcNetUnixFile_Update (env : Env) (f : ProcfsFile) (last_consumed : Z) : ProcfsFile :=
  let '(updates, last) := AreThereUpdatesAndConsumeIfSo last_consumed (AbstractSocketNamespace.update_number (sockets env)) in
  if (updates : bool) then
    let contents := net_unix_header ++ List.concat (map (λ s, socket_line (bound_name env s)) (GetAllStreams (sockets env))) in
    mkProcfsFile contents (ProcNetUnixFile last)
  else f.

Definition UpdateContentIfNecessary (env : Env) (f : ProcfsFile) : outcome ProcfsFile :=
  match kind f with
  | CpuInfoFile n header body footer => CpuInfoFile_Update env f n header body footer
  | ProcessAuxvFile => mret (ProcessAuxvFile_Update f)
  | ProcessFormattedFile pid format => mret (ProcessFormattedFile_Update env f pid format)
  | ProcessCmdlineFile pid => ProcessCmdlineFile_Update env f pid
  | ProcessMountsFile manager last => ProcessMountsFile_Update env f manager last
  | ProcNetUnixFile last => mret (ProcNetUnixFile_Update env f last)
  end.

(** [ProcfsFile::GetContent] *)
Definition ProcfsFile_GetContent : St (Env * ReadonlyMemoryFile ProcfsFile) str := λ w,
  UpdateContentIfNecessary w.1 (derived w.2) ≫= λ f,
  Done (content_ f, (w.1, set_mtime (now w.1) (set_derived f w.2))).

Definition ProcfsFile_new (pathname : str) (inode : Z) (k : ProcfsKind) : ReadonlyMemoryFile ProcfsFile :=
  ReadonlyMemoryFile_new pathname inode (Some EIO) 0 (mkProcfsFile [] k).

Definition procfs_fstatfs : res StatFs := DoStatFsForProc.
End Files.

(** ** The handler *)

Record ProcfsFileHandler : Type := mkProcfsHandler {
  cpuinfo_header_ : str;
  cpuinfo_body_ : str;
  cpuinfo_footer_ : str;
  last_consumed_ : Z;   (* of [update_consumer_] *)
  file_names_ : DirMap;
  mount_point_manager_ : bool;   (* not null *)
}.

(** The streams that [open] makes. *)
Inductive proc_opened : Type :=
| ProcDirectory (pathname : str)
| OpenedProcFile (f : ReadonlyMemoryFile ProcfsFile)
| OpenedReadonly (s : NewStream).

(** The digits at the start of a string as an [int], and the rest. *)
Fixpoint parse_pid (s : str) (pid : Z) : Z * str :=
  match s with
  | [] => (pid, [])
  | c :: rest => if is_digit c then parse_pid rest (to_signed 32 (pid * 10 + digit_value c)) else (pid, s)
  end.

Definition ParsePidBasedPath (pathname : str) : option (Z * str) :=
  if negb (bool_decide (take 6 pathname = lit "/proc/")) then None
  else
    let '(pid, post_pid) := parse_pid (drop 6 pathname) 0 in
    if bool_decide (head post_pid = Some slash) then Some (pid, post_pid) else None.

Section Handler.
Context `{BaseStrings} {W FSH U : Type} (ReplaceStringPlaceholders : str → list str → str).
(** The handler of the image, the [fstat] of its streams, and the inode number of a path. *)
Context (readonly_fs_handler : option (FileSystemHandler U)) (stream_fstat : NewStream → St U (res Stat)) (inode : str → Z).

Abbreviation Env := (ProcEnv W FSH).
Abbreviation PH := ((U * Env) * ProcfsFileHandler)%type.

Definition with_names (m : DirMap) (h : ProcfsFileHandler) : ProcfsFileHandler :=
  mkProcfsHandler (cpuinfo_header_ h) (cpuinfo_body_ h) (cpuinfo_footer_ h) (last_consumed_ h) m (mount_point_manager_ h).
Definition with_consumed (n : Z) (h : ProcfsFileHandler) : ProcfsFileHandler :=
  mkProcfsHandler (cpuinfo_header_ h) (cpuinfo_body_ h) (cpuinfo_footer_ h) n (file_names_ h) (mount_point_manager_ h).

Definition SetCpuInfoFileTemplate (header body footer : str) : St ProcfsFileHandler unit :=
  modify (λ h, mkProcfsHandler header body footer (last_consumed_ h) (file_names_ h) (mount_point_manager_ h));;
  check (contains_sub (lit "$1") body);;
  check (negb (contains_sub (lit "$2") body)).

(** The constructors of the members: [Clear] makes the directory tree. *)
Definition ProcfsFileHandler_new : outcome ProcfsFileHandler :=
  DirectoryManager.Clear ∅ ≫= λ r,
  SetCpuInfoFileTemplate kProcCpuInfoHeader kProcCpuInfoBody kProcCpuInfoFooter
    (mkProcfsHandler [] [] [] kInvalidUpdateNumber r.2 false) ≫= λ r, mret r.2.

Definition SetMountPointManager (manager : bool) (h : ProcfsFileHandler) : ProcfsFileHandler :=
  mkProcfsHandler (cpuinfo_header_ h) (cpuinfo_body_ h) (cpuinfo_footer_ h) (last_consumed_ h) (file_names_ h) manager.

(** The names below /proc/$PID. *)
Definition pid_files : list str :=
  [lit "/auxv"; lit "/cmdline"; lit "/fd/0"; lit "/fd/1"; lit "/fd/2"; lit "/exe"; lit "/maps"; lit "/mounts";
   lit "/stat"; lit "/status"].

Fixpoint add_all (paths : list str) : St DirMap unit :=
  match paths with [] => mret tt | p :: paths => AddFile p;; add_all paths end.

(** The loop over [GetFirstPid] and [GetNextPid]. *)
Fixpoint add_processes (e : Emulator W) (fuel : nat) (pid : Z) : St DirMap unit :=
  match fuel with
  | O => λ _, NoFuel
  | Datatypes.S fuel =>
      if pid =? 0 then mret tt
      else
        add_all (map (λ f, lit "/proc/" ++ decimal pid ++ f) pid_files);;
        add_processes e fuel (GetNextPid pid e)
  end.

Definition more_files : list str :=
  [lit "/proc/net/unix"; lit "/proc/cmdline"; lit "/proc/loadavg"; lit "/proc/meminfo"; lit "/proc/net/tcp";
   lit "/proc/net/tcp6"; lit "/proc/net/udp"; lit "/proc/net/udp6"; lit "/proc/stat"; lit "/proc/version"].

Definition on_names {A} (c : St DirMap A) : St PH A := λ w,
  match c (file_names_ w.2) with
  | Done (a, m) => Done (a, (w.1, with_names m w.2))
  | Abort => Abort
  | NoFuel => NoFuel
  end.

Definition on_readonly {A} (c : St U A) : St PH A := λ w,
  match c w.1.1 with
  | Done (a, u) => Done (a, ((u, w.1.2), w.2))
  | Abort => Abort
  | NoFuel => NoFuel
  end.

Definition this_env : St PH Env := gets (λ w, w.1.2).
Definition this_handler : St PH ProcfsFileHandler := gets snd.

(** From [Clear] on; more turns of the loop than there are names are never made. *)
Definition make_tree (e : Emulator W) : St DirMap unit :=
  DirectoryManager.Clear;;
  AddFile "/proc/cpuinfo";;
  AddFileWithType "/proc/mounts" SYMLINK;;
  AddFileWithType "/proc/self" SYMLINK;;
  add_processes e (S (List.length (argv0_per_emulated_process_ e))) (GetFirstPid e);;
  add_all more_files.

Definition SynchronizeDirectoryTreeStructure : St PH unit :=
  env ← this_env;
  h ← this_handler;
  let e := emulator env in
  let '(updates, last) := AreThereUpdatesAndConsumeIfSo (last_consumed_ h) (update_producer_ e) in
  modify (λ w, (w.1, with_consumed last w.2));;
  if negb updates then mret tt
  else
    on_names (make_tree e).

Definition procfs_IsInitialized (w : PH) : bool :=
  match readonly_fs_handler with None => true | Some r => IsInitialized r w.1.1 end.

Definition procfs_Initialize : St PH unit :=
  w ← get;
  check (negb (procfs_IsInitialized w));;
  match readonly_fs_handler with
  | Some r => if negb (IsInitialized r w.1.1) then on_readonly (Initialize r) else mret tt
  | None => mret tt
  end.

Definition procfs_OnDirectoryContentsNeeded (name : str) : St PH (res DirImpl) :=
  SynchronizeDirectoryTreeStructure;; on_names (OpenDirectory name).

(** The class for what follows the number of a process. *)
Definition pid_file (pid : Z) (post_pid : str) (manager : bool) : option ProcfsKind :=
  if bool_decide (post_pid = lit "/auxv") then Some ProcessAuxvFile
  else if bool_decide (post_pid = lit "/cmdline") then Some (ProcessCmdlineFile pid)
  else if bool_decide (post_pid = lit "/maps") then Some (ProcessFormattedFile pid kProcMapsFormat)
  else if bool_decide (post_pid = lit "/mounts") then Some (ProcessMountsFile manager kInvalidUpdateNumber)
  else if bool_decide (post_pid = lit "/stat") then Some (ProcessFormattedFile pid kProcStatFormat)
  else if bool_decide (post_pid = lit "/status") then Some (ProcessFormattedFile pid kProcStatusFormat)
  else None.

Definition procfs_open (fd : Z) (pathname : str) (oflag cmode : Z) : St PH (res proc_opened) :=
  SynchronizeDirectoryTreeStructure;;
  is_directory ← on_names (StatDirectory pathname);
  if (is_directory : bool) then mret (Ok (ProcDirectory pathname))
  else
    env ← this_env;
    h ← this_handler;
    let make k := mret (Ok (OpenedProcFile (ProcfsFile_new pathname (inode pathname) k))) in
    match ParsePidBasedPath pathname with
    | Some (pid, post_pid) =>
        match GetInfoByPid pid (emulator env) with
        | Some _ =>
            match pid_file pid post_pid (mount_point_manager_ h) with
            | Some k => make k
            | None => mret (Err ENOENT)
            end
        | None => mret (Err ENOENT)
        end
    | None =>
        if bool_decide (pathname = lit "/proc/cpuinfo")
        then make (CpuInfoFile (-1) (cpuinfo_header_ h) (cpuinfo_body_ h) (cpuinfo_footer_ h))
        else if bool_decide (pathname = lit "/proc/net/unix") then make (ProcNetUnixFile kInvalidUpdateNumber)
        else
          match readonly_fs_handler with
          | Some r =>
              s ← on_readonly (h_open r fd pathname oflag cmode);
              mret match s with Ok s => Ok (OpenedReadonly s) | Err e => Err e end
          | None => mret (Err ENOENT)
          end
    end.

(** [fstat] of what [open] made. *)
Definition procfs_opened_fstat (o : proc_opened) : St PH (res Stat) :=
  match o with
  | ProcDirectory p => mret (Ok (DirectoryFillStatData (inode p)))
  | OpenedProcFile f => λ w,
      match mf_fstat (ProcfsFile_GetContent ReplaceStringPlaceholders) (w.1.2, f) with
      | Done (Ok (st, _), (env, _)) => Done (Ok st, ((w.1.1, env), w.2))
      | Done (Err e, (env, _)) => Done (Err e, ((w.1.1, env), w.2))
      | Abort => Abort
      | NoFuel => NoFuel
      end
  | OpenedReadonly s => on_readonly (stream_fstat s)
  end.

Definition procfs_stat (pathname : str) : St PH (res Stat) :=
  file ← procfs_open (-1) pathname 0 0;
  match file with
  | Err _ => mret (Err ENOENT)
  | Ok o => procfs_opened_fstat o
  end.

Definition procfs_statfs (pathname : str) : St PH (res StatFs) := mret DoStatFsForProc.

Definition procfs_readlink (pathname : str) : St PH (res str) :=
  env ← this_env;
  let my_pid := GetPid (self env) (emulator env) in
  mret (if bool_decide (pathname = lit "/proc/self") then Ok (lit "/proc/" ++ decimal my_pid)
        else if bool_decide (pathname = lit "/proc/mounts") then Ok (lit "/proc/" ++ decimal my_pid ++ lit "/mounts")
        else
          match ParsePidBasedPath pathname with
          | Some (_, post_pid) =>
              if bool_decide (post_pid = lit "/exe") then Ok (lit "/system/lib/runnable-ld.so") else Err EINVAL
          | None => Err EINVAL
          end).

(** What the virtual file system is told of a stream. *)
Definition procfs_new_stream (oflag : Z) (o : proc_opened) : NewStream :=
  match o with
  | ProcDirectory p => DirectoryFileStream (lit "procfs") p
  | OpenedProcFile f => mkNewStream 0 (mf_pathname f) mf_GetStreamType
  | OpenedReadonly s => s
  end.

Definition procfs_handler : FileSystemHandler PH :=
  mkHandler procfs_IsInitialized procfs_Initialize Base.OnMounted Base.OnUnmounted Base.InvalidateCache
    (Base.IsWorldWritable procfs_stat) Base.mkdir
    (λ fd p oflag cmode, r ← procfs_open fd p oflag cmode;
       mret match r with Ok o => Ok (procfs_new_stream oflag o) | Err e => Err e end)
    (λ p, r ← procfs_OnDirectoryContentsNeeded p; mret match r with Ok d => Some d | Err _ => None end)
    procfs_readlink Base.remove Base.rename Base.rmdir procfs_stat procfs_statfs Base.symlink Base.truncate Base.unlink
    Base.utimes.
End Handler.
