(* ===== verification/ProcfsProperties.v ===== *)
(** * ProcfsProperties: the theorem on /proc

    Whatever processes come, and whenever the handler looked before, the listing of
    /proc and the files of the processes are those of the processes that there are. *)

From S2P Require Import Prelude BaseStrings Decimal PathUtil DirectoryManager Util MountPoints FileStream SocketStream OrderedMap ProcessEmulator ProcessProperties FileSystemHandler HostMemory MemoryFile Procfs.
Import UpdateTracking OrderedMapFacts.

#[local] Open Scope Z_scope.

(** ** Numbers in paths *)

Definition next_digit (n : Z) (c : ascii) : Z := n * 10 + digit_value c.

Lemma fold_digits_grows s n :
  Forall (λ c, is_digit c = true) s → 0 <= n → n <= fold_left next_digit s n.
Proof.
  revert n. induction s as [|c s IH]; intros n Hs Hn; [done|]. inversion Hs as [|?? Hc Hs']; subst. cbn.
  unfold is_digit in Hc. apply andb_true_iff in Hc as [Hc _]. apply Z.leb_le in Hc.
  etrans; [|apply IH; [done|]]; unfold next_digit; lia.
Qed.

Lemma parse_pid_digits s n rest :
  Forall (λ c, is_digit c = true) s → 0 <= n → fold_left next_digit s n < 2 ^ 31 →
  parse_pid (s ++ slash :: rest) n = (fold_left next_digit s n, slash :: rest).
Proof.
  revert n. induction s as [|c s IH]; intros n Hs Hn Hlt; [done|]. inversion Hs as [|?? Hc Hs']; subst.
  cbn [app parse_pid fold_left]. rewrite Hc.
  assert (0 <= next_digit n c) as Hpos by (unfold is_digit in Hc; unfold next_digit; lia).
  cbn [fold_left] in Hlt. pose proof (fold_digits_grows s (next_digit n c) Hs' Hpos).
  fold (next_digit n c). rewrite to_signed_id by lia. by apply IH.
Qed.

Lemma parse_pid_based_path p rest :
  0 <= p < 2 ^ 31 → ParsePidBasedPath (lit "/proc/" ++ decimal p ++ slash :: rest) = Some (p, slash :: rest).
Proof.
  intros Hp. unfold ParsePidBasedPath. change (take 6 (lit "/proc/" ++ ?x)) with (lit "/proc/").
  change (drop 6 (lit "/proc/" ++ ?x)) with x. cbn [negb].
  rewrite bool_decide_true by done. cbn [negb]. destruct (decimal_spec p ltac:(lia)) as (Hv & Hd & _).
  change (from_digits (decimal p)) with (fold_left next_digit (decimal p) 0) in Hv.
  rewrite parse_pid_digits by (done || lia). rewrite Hv. by rewrite bool_decide_true.
Qed.

(** ** The tree that is made *)

Definition proc : str := lit "proc".

Definition pid_paths : list (list str) :=
  [[lit "auxv"]; [lit "cmdline"]; [lit "fd"; lit "0"]; [lit "fd"; lit "1"]; [lit "fd"; lit "2"]; [lit "exe"];
   [lit "maps"]; [lit "mounts"]; [lit "stat"]; [lit "status"]].

Definition more_paths : list (list str) :=
  map (cons proc)
    [[lit "net"; lit "unix"]; [lit "cmdline"]; [lit "loadavg"]; [lit "meminfo"]; [lit "net"; lit "tcp"];
     [lit "net"; lit "tcp6"]; [lit "net"; lit "udp"]; [lit "net"; lit "udp6"]; [lit "stat"]; [lit "version"]].

Definition of_pid (p : Z) : list (list str) := map (λ q, proc :: decimal p :: q) pid_paths.

Definition entries (pids : list Z) : list (list str * Dir_Type) :=
  [([proc; lit "cpuinfo"], REGULAR); ([proc; lit "mounts"], SYMLINK); ([proc; lit "self"], SYMLINK)] ++
  map (λ q, (q, REGULAR)) (List.concat (map of_pid pids)) ++ map (., REGULAR) more_paths.

Definition grow (l : list (list str * Dir_Type)) (fs : FS) : FS :=
  fold_left (λ fs e, (fs_add_file e.1 e.2 fs).2) l fs.

Definition tree (pids : list Z) : FS := grow (entries pids) fs_empty.

(** Paths that can be added. *)
Definition entry_ok (e : list str * Dir_Type) : Prop := okpath e.1 ∧ e.1 ≠ [] ∧ e.2 ≠ DIRECTORY.

Section Tree.
Context `{BaseStringsSpec}.

Lemma grow_app l1 l2 fs : grow (l1 ++ l2) fs = grow l2 (grow l1 fs).
Proof. apply fold_left_app. Qed.

Lemma run_entry m fs p t :
  repr m fs → entry_ok (p, t) →
  ∃ b m', AddFileWithType (filepath p) t m = Done (b, m') ∧ repr m' (grow [(p, t)] fs).
Proof.
  intros Hr (Hp & Hne & Ht). destruct (run_op_spec (OpAddFile p t) m fs Hr) as (m' & Hm & Hr'); [done|].
  by exists (fs_add_file p t fs).1, m'.
Qed.

Lemma add_all_spec ps m fs :
  repr m fs → Forall entry_ok (map (λ q, (q, REGULAR)) ps) →
  ∃ m', add_all (map filepath ps) m = Done (tt, m') ∧ repr m' (grow (map (λ q, (q, REGULAR)) ps) fs).
Proof.
  revert m fs. induction ps as [|p ps IH]; intros m fs Hr Hok; [by exists m|]. inversion Hok as [|?? Hp Hok']; subst.
  destruct (run_entry m fs p REGULAR Hr Hp) as (b & m1 & Hm1 & Hr1).
  destruct (IH m1 _ Hr1 Hok') as (m2 & Hm2 & Hr2). exists m2. split; [|done].
  cbn [map add_all]. change (AddFile (filepath p)) with (AddFileWithType (filepath p) REGULAR). by run_with Hm1.
Qed.

Lemma add_all_app a b m :
  add_all (a ++ b) m = match add_all a m with Done (_, m') => add_all b m' | Abort => Abort | NoFuel => NoFuel end.
Proof.
  revert m. induction a as [|p a IH]; intros m; [done|]. cbn [app add_all]. unfold mbind, St_bind.
  destruct (AddFile p m) as [[? m1]| |]; [apply IH|done..].
Qed.

Lemma decimal_ok p : 0 <= p → okpath [decimal p].
Proof.
  intros Hp. apply (okpath_snoc []). split; [by apply (bool_decide_unpack _)|].
  destruct (decimal_spec p Hp) as (_ & Hd & Hne). split; [by apply decimal_not_in|].
  split; [|split; [done|by apply trimmed_decimal]].
  intros Heq. rewrite Heq in Hd. inversion Hd. done.
Qed.

Lemma paths_ok : Forall okpath pid_paths ∧ Forall entry_ok (map (λ q, (q, REGULAR)) more_paths).
Proof.
  split; [apply (bool_decide_unpack _); by vm_compute|]. apply Forall_map.
  assert (Forall (λ q, okpath q ∧ q ≠ []) more_paths) as Hm by (apply (bool_decide_unpack _); by vm_compute).
  eapply Forall_impl; [exact Hm|]. by intros q [? ?].
Qed.

Lemma of_pid_ok p : 0 <= p → Forall entry_ok (map (λ q, (q, REGULAR)) (of_pid p)).
Proof.
  intros Hp. unfold of_pid. rewrite map_map. apply Forall_map. eapply Forall_impl; [apply paths_ok|]. intros q Hq.
  split; [|done]. change (okpath ([proc] ++ [decimal p] ++ q)).
  rewrite !okpath_app. split; [by apply (bool_decide_unpack _)|]. split; [by apply decimal_ok|done].
Qed.

Lemma entries_ok pids : Forall (λ p, 0 <= p) pids → Forall entry_ok (entries pids).
Proof.
  intros Hpids. unfold entries. rewrite !Forall_app. split; [|split].
  - assert (okpath [proc; lit "cpuinfo"] ∧ okpath [proc; lit "mounts"] ∧ okpath [proc; lit "self"]) as (H1 & H2 & H3)
      by (apply (bool_decide_unpack _); by vm_compute).
    unfold entry_ok. by repeat (apply Forall_cons; split; [done|]).
  - induction Hpids as [|p pids Hp _ IH]; [constructor|]. cbn [map List.concat]. rewrite map_app. apply Forall_app.
    split; [by apply of_pid_ok|done].
  - apply paths_ok.
Qed.

(** ** What it holds *)

Lemma add_file_dirs p t fs :
  fs_ok fs → p ≠ [] → dirs (fs_add_file p t fs).2 = dirs (fs_make_dirs (removelast p) fs).
Proof.
  intros Hok Hne. unfold fs_add_file. case_bool_decide as Hp; [|by destruct (files _ !! p)].
  destruct p as [|f ds _] using rev_ind; [done|]. rewrite removelast_last.
  apply (ok_parent _ Hok) in Hp. by rewrite fs_make_dirs_id.
Qed.

Lemma grow_dirs l m fs d :
  repr m fs → Forall entry_ok l →
  d ∈ dirs (grow l fs) ↔ d ∈ dirs fs ∨ ∃ e, e ∈ l ∧ d `prefix_of` removelast e.1.
Proof.
  revert m fs. induction l as [|[p t] l IH]; intros m fs Hr Hok.
  { cbn. split; [by left|]. intros [?|(? & []%elem_of_nil & _)]. done. }
  inversion Hok as [|?? Hp Hok']; subst. destruct (run_entry m fs p t Hr Hp) as (b & m1 & _ & Hr1).
  change (grow ((p, t) :: l) fs) with (grow l (grow [(p, t)] fs)). rewrite (IH m1 _ Hr1 Hok'). cbn [grow fold_left fst snd].
  rewrite add_file_dirs by (apply Hp || apply (repr_ok _ _ Hr)). cbn [fs_make_dirs dirs].
  rewrite elem_of_union, elem_of_list_to_set, prefixes_from_elem. split.
  - intros [[?|(q & Hq & ->)]|(e & He & Hd)]; [by left| |]; right.
    + exists (p, t). split; [by left|done].
    + exists e. split; [by right|done].
  - intros [?|(e & [->|He]%elem_of_cons & Hd)]; [by left; left|left; right; by exists d|right; by exists e].
Qed.

Lemma elem_entries pids e : e ∈ entries pids →
  removelast e.1 ∈ [[proc]; [proc; lit "net"]] ∨
  ∃ p, p ∈ pids ∧ removelast e.1 ∈ [[proc; decimal p]; [proc; decimal p; lit "fd"]].
Proof.
  unfold entries. rewrite !elem_of_app. intros [He|[(q & <- & Hq%list_elem_of_In)%list_elem_of_In%in_map_iff|He]].
  - left. assert (Forall (λ e : list str * Dir_Type, removelast e.1 ∈ [[proc]; [proc; lit "net"]])
      [([proc; lit "cpuinfo"], REGULAR); ([proc; lit "mounts"], SYMLINK); ([proc; lit "self"], SYMLINK)]) as Hf
      by (apply (bool_decide_unpack _); by vm_compute).
    rewrite Forall_forall in Hf. by apply Hf.
  - right. apply list_elem_of_In, in_concat in Hq as (l & (p & <- & Hp)%in_map_iff & (q' & <- & Hq)%in_map_iff).
    exists p. split; [by apply list_elem_of_In|]. apply list_elem_of_In in Hq. cbn [fst].
    unfold pid_paths in Hq. repeat (apply elem_of_cons in Hq as [->|Hq]; [cbn [removelast]; set_solver|]). by apply elem_of_nil in Hq.
  - left. apply list_elem_of_In, in_map_iff in He as (q & <- & Hq%list_elem_of_In).
    assert (Forall (λ q : list str, removelast q ∈ [[proc]; [proc; lit "net"]]) more_paths) as Hf
      by (apply (bool_decide_unpack _); by vm_compute).
    rewrite Forall_forall in Hf. by apply Hf.
Qed.

Lemma in_entries pids p q : p ∈ pids → q ∈ pid_paths → (proc :: decimal p :: q, REGULAR) ∈ entries pids.
Proof.
  intros Hp Hq. unfold entries. rewrite !elem_of_app. right. left. apply list_elem_of_In, in_map_iff.
  exists (proc :: decimal p :: q). split; [done|]. apply in_concat. exists (of_pid p).
  split; [by apply in_map, list_elem_of_In|]. unfold of_pid. apply in_map_iff. exists q. by rewrite <-list_elem_of_In.
Qed.

Lemma not_in_empty x d : x :: d ∉ dirs fs_empty.
Proof. unfold fs_empty. cbn [dirs]. by intros ?%elem_of_singleton. Qed.

(** The directories of the tree: those below /proc are the numbers and "net". *)
Lemma tree_pid m pids p :
  repr m fs_empty → Forall (λ p, 0 <= p) pids → 0 <= p → [proc; decimal p] ∈ dirs (tree pids) ↔ p ∈ pids.
Proof.
  intros Hr Hpids Hp. unfold tree. rewrite (grow_dirs _ m) by (done || by apply entries_ok). split.
  - intros [He|(e & He & Hd)]; [by apply not_in_empty in He|].
    apply elem_entries in He as [He|(p' & Hp' & He)].
    + apply elem_of_cons in He as [He|He]; rewrite ?list_elem_of_singleton in He; rewrite He in Hd; [by destruct Hd|].
      apply prefix_cons_inv_2, prefix_cons_inv_1 in Hd. destruct (decimal_spec p Hp) as (_ & Hdig & _).
      rewrite Hd in Hdig. by inversion Hdig.
    + assert (decimal p = decimal p') as Heq.
      { apply elem_of_cons in He as [He|He]; rewrite ?list_elem_of_singleton in He; rewrite He in Hd;
          by apply prefix_cons_inv_2, prefix_cons_inv_1 in Hd. }
      apply decimal_inj in Heq as ->; [done|done|]. rewrite Forall_forall in Hpids. by apply Hpids.
  - intros Hin. right. eexists. split; [apply (in_entries pids p [lit "auxv"]); [done|by left]|done].
Qed.

(** The files in them are not directories. *)
Lemma tree_file m pids p f :
  repr m fs_empty → Forall (λ p, 0 <= p) pids → f ≠ lit "fd" → [proc; decimal p; f] ∉ dirs (tree pids).
Proof.
  intros Hr Hpids Hf. unfold tree. rewrite (grow_dirs _ m) by (done || by apply entries_ok).
  intros [He|(e & He & Hd)]; [by apply not_in_empty in He|].
  assert (∀ x, [proc; decimal p; f] `prefix_of` removelast e.1 → removelast e.1 ∈ [[proc]; [proc; x]] → False) as Hshort.
  { intros x Hpre [Heq|Heq%list_elem_of_singleton]%elem_of_cons; rewrite Heq in Hpre; apply prefix_length in Hpre; cbn in Hpre; lia. }
  apply elem_entries in He as [He|(p' & Hp' & He)]; [by apply (Hshort (lit "net"))|].
  apply elem_of_cons in He as [He|He%list_elem_of_singleton].
  - apply (Hshort (decimal p')); [done|]. rewrite He. set_solver.
  - rewrite He in Hd. by apply prefix_cons_inv_2, prefix_cons_inv_2, prefix_cons_inv_1 in Hd.
Qed.

Lemma grow_files l fs d : is_Some (files (grow l fs) !! d) → is_Some (files fs !! d) ∨ ∃ e, e ∈ l ∧ e.1 = d.
Proof.
  revert fs. induction l as [|[p t] l IH]; intros fs Hd; [by left|].
  change (grow ((p, t) :: l) fs) with (grow l (fs_add_file p t fs).2) in Hd.
  destruct (IH _ Hd) as [Hf|(e & He & Heq)]; [|right; exists e; by split; [right|]].
  unfold fs_add_file in Hf. case_bool_decide; [by left|]. destruct (files _ !! p) eqn:E; [by left|].
  cbn in Hf. destruct (decide (d = p)) as [->|Hne]; [right; exists (p, t); by split; [left|]|].
  left. by rewrite lookup_insert_ne in Hf.
Qed.

Lemma tree_proc m pids :
  repr m fs_empty → Forall (λ p, 0 <= p) pids → [proc] ∈ dirs (tree pids) ∧ files (tree pids) !! [proc] = None.
Proof.
  intros Hr Hpids. unfold tree. split.
  - rewrite (grow_dirs _ m) by (done || by apply entries_ok). right. exists ([proc; lit "cpuinfo"], REGULAR). by split; [left|].
  - apply eq_None_not_Some. intros [[t Ht]|([q t] & He & Hq)]%grow_files; [by cbn in Ht; rewrite lookup_empty in Ht|]. cbn in Hq. subst q.
    apply elem_entries in He. cbn [fst removelast] in He. set_solver.
Qed.

(** ** Making it *)

Lemma pid_file_paths p : map (λ f, lit "/proc/" ++ decimal p ++ f) pid_files = map filepath (of_pid p).
Proof. done. Qed.

Lemma more_file_paths : more_files = map filepath more_paths.
Proof. done. Qed.

Lemma add_processes_spec {W} (e : Emulator W) fuel p m fs :
  (List.length (pids_from fuel p e) < fuel)%nat → Forall (λ p, 0 <= p) (pids_from fuel p e) → repr m fs →
  ∃ m', add_processes e fuel p m = Done (tt, m') ∧
    repr m' (grow (map (λ q, (q, REGULAR)) (List.concat (map of_pid (pids_from fuel p e)))) fs).
Proof.
  revert p m fs. induction fuel as [|fuel IH]; intros p m fs Hf Hpos Hr; [cbn in Hf; lia|].
  cbn [pids_from add_processes] in *. destruct (p =? 0); [by exists m|].
  inversion Hpos as [|?? Hp Hpos']; subst. cbn [List.length] in Hf.
  destruct (add_all_spec (of_pid p) m fs Hr (of_pid_ok p Hp)) as (m1 & Hm1 & Hr1). rewrite pid_file_paths. run_with Hm1.
  destruct (IH (GetNextPid p e) m1 _ ltac:(lia) Hpos' Hr1) as (m2 & Hm2 & Hr2). exists m2. split; [done|].
  cbn [map List.concat]. by rewrite map_app, grow_app.
Qed.

Section Follows.
Context {W FSH U : Type}.

Abbreviation Env := (ProcEnv W FSH).
Abbreviation PH := ((U * Env) * ProcfsFileHandler)%type.

(** The numbers of processes that have a name. *)
Definition pids (e : Emulator W) : list Z := (argv0_per_emulated_process_ e).*1.

Lemma elem_pids e p : process_ok e → p ∈ pids e ↔ is_Some (name_of p e).
Proof.
  intros Hok. unfold pids, name_of. rewrite list_elem_of_fmap. split.
  - intros ([q n] & -> & Hq). exists n. by apply find_elem; [apply (po_argv _ Hok)|].
  - intros [n Hn]. exists (p, n). split; [done|]. by apply find_elem; [apply (po_argv _ Hok)|].
Qed.

Lemma pids_positive e : process_ok e → Forall (λ p, 0 <= p) (pids e).
Proof.
  intros Hok. apply Forall_forall. intros p Hp%elem_pids; [|done]. pose proof (name_positive e p Hok Hp). lia.
Qed.

(** What [SynchronizeDirectoryTreeStructure] leaves. *)
Definition names_of (e : Emulator W) (h : ProcfsFileHandler) : Prop := repr (file_names_ h) (tree (pids e)).

Definition after_sync (w : PH) (m : DirMap) : PH :=
  (w.1, with_names m (with_consumed (update_producer_ (emulator w.1.2)) w.2)).

Lemma build_spec e m :
  process_ok e →
  ∃ m', make_tree e m = Done (tt, m') ∧ repr m' (tree (pids e)).
Proof.
  intros Hok. unfold make_tree. pose proof (entries_ok (pids e) (pids_positive e Hok)) as Hent.
  unfold entries in Hent. rewrite !Forall_app in Hent. destruct Hent as (Hl3 & _ & Hmore).
  apply Forall_cons in Hl3 as [E1 Hl2]. apply Forall_cons in Hl2 as [E2 Hl1]. apply Forall_cons in Hl1 as [E3 _].
  destruct (clear_spec m) as (m1 & Hm1 & Hr1). run_with Hm1.
  destruct (run_entry m1 _ [proc; lit "cpuinfo"] REGULAR Hr1 E1) as (b2 & m2 & Hm2 & Hr2).
  change (AddFile "/proc/cpuinfo") with (AddFileWithType (filepath [proc; lit "cpuinfo"]) REGULAR). run_with Hm2.
  destruct (run_entry m2 _ [proc; lit "mounts"] SYMLINK Hr2 E2) as (b3 & m3 & Hm3 & Hr3).
  change (lit "/proc/mounts") with (filepath [proc; lit "mounts"]). run_with Hm3.
  destruct (run_entry m3 _ [proc; lit "self"] SYMLINK Hr3 E3) as (b4 & m4 & Hm4 & Hr4).
  change (lit "/proc/self") with (filepath [proc; lit "self"]). run_with Hm4.
  pose proof (first_pids e (S (List.length (argv0_per_emulated_process_ e))) Hok ltac:(lia)) as Hpids.
  destruct (add_processes_spec e (S (List.length (argv0_per_emulated_process_ e))) (GetFirstPid e) m4
    (grow [([proc; lit "self"], SYMLINK)] (grow [([proc; lit "mounts"], SYMLINK)] (grow [([proc; lit "cpuinfo"], REGULAR)] fs_empty)))) as (m5 & Hm5 & Hr5);
    [rewrite Hpids, length_fmap; lia|rewrite Hpids; by apply pids_positive|exact Hr4|].
  run_with Hm5. rewrite more_file_paths. rewrite Hpids in Hr5.
  destruct (add_all_spec more_paths m5 _ Hr5 Hmore) as (m6 & Hm6 & Hr6). exists m6. split; [done|].
  unfold tree, entries. rewrite !grow_app. exact Hr6.
Qed.

Lemma synchronize_spec (w : PH) :
  process_ok (emulator w.1.2) →
  if bool_decide (last_consumed_ w.2 = update_producer_ (emulator w.1.2))
  then SynchronizeDirectoryTreeStructure w = Done (tt, w)
  else ∃ m, SynchronizeDirectoryTreeStructure w = Done (tt, after_sync w m) ∧
         names_of (emulator w.1.2) (after_sync w m).2.
Proof.
  intros Hok. set (e := emulator w.1.2) in *. unfold SynchronizeDirectoryTreeStructure, this_env, this_handler, mbind, St_bind, gets, modify.
  fold e. unfold AreThereUpdatesAndConsumeIfSo. case_bool_decide as Heq.
  { rewrite bool_decide_false by by intros []. unfold mret, St_ret. by destruct w as [? []]. }
  rewrite bool_decide_true by done. cbn [negb]. unfold on_names.
  destruct (build_spec e (file_names_ w.2) Hok) as (m & Hm & Hr). exists m. cbn [snd fst with_consumed file_names_].
  rewrite Hm. done.
Qed.
(** ** The number of updates *)

(** One for every number that was given out, and no wrap-around before they end. *)
Definition numbered (e : Emulator W) : Prop := update_producer_ e = s_prev_pid e - kFirstPidMinusOne.

Lemma numbered_same (e e' : Emulator W) :
  s_prev_pid e' = s_prev_pid e → update_producer_ e' = update_producer_ e → numbered e → numbered e'.
Proof. unfold numbered. congruence. Qed.

Lemma allocate_numbered u (e : Emulator W) r e' :
  process_ok e → numbered e → AllocateNewPid u e = Done (r, e') → numbered e'.
Proof.
  intros Hok Hn. unfold AllocateNewPid, mbind, St_bind, get, check.
  destruct (Z.ltb_spec (s_prev_pid e) (2 ^ 31 - 1)) as [Hlt|]; [|done]. cbn. intros [= _ <-].
  unfold numbered in *. cbn. rewrite Hn. pose proof (po_prev _ Hok). unfold kFirstPidMinusOne in *.
  unfold ProduceUpdate, kInitialUpdateNumber. rewrite to_signed_id by lia.
  destruct (Z.ltb_spec (s_prev_pid e - 200 + 1) 0); lia.
Qed.

(** An operation that gives out no number. *)
Ltac same_numbers Hs :=
  unfold InitProcessEmulatorTLS, EnterBinderCall, ExitBinderCall, SetBinderEmulationFunctions, SetArgV0,
    UpdateAndAllocatePthreadCreateArgs, DestroyEmulatedProcessThreadState, deref_state, on_binder, lift,
    PopBinderFrame, GetThreadState, GetAndClearThreadCreationProcess, set_thread, modify, gets, get, put, check, fatal,
    mbind, St_bind, mret, St_ret in Hs;
  repeat case_match; inv_ok; first [done|by apply (numbered_same _ _ eq_refl eq_refl)].

Lemma step_numbered (e e' : Emulator W) : process_step e e' → process_ok e → numbered e → numbered e'.
Proof.
  intros [self u e1 Hu Hs|self u p e1 Hu Hs|en ex e1 Hs|self tk b e1 Hc Hs|self e1 Hs|self a e1 Hs|self s e1 Hs|self p e1 Hp Hs|self e1 Hs] Hok Hn.
  - unfold SetFirstEmulatedProcessThread, CreateNewEmulatedProcess, mbind, St_bind in Hs.
    destruct (AllocateNewPid u e) as [[r e2]| |] eqn:Ea; [|done..]. pose proof (allocate_numbered u e r e2 Hok Hn Ea).
    same_numbers Hs.
  - unfold PrepareNewEmulatedProcess, CreateNewEmulatedProcess, deref_state, GetThreadState, check, mbind, St_bind, gets, mret, St_ret in Hs.
    destruct (negb _); [|done]. destruct (threads e !! self) as [s|]; [|done]. destruct (negb _); [|done].
    destruct (AllocateNewPid u e) as [[r e2]| |] eqn:Ea; [|done..]. pose proof (allocate_numbered u e r e2 Hok Hn Ea).
    same_numbers Hs.
  - same_numbers Hs.
  - same_numbers Hs.
  - same_numbers Hs.
  - same_numbers Hs.
  - same_numbers Hs.
  - unfold start_thread, mbind, St_bind in Hs. same_numbers Hs.
  - same_numbers Hs.
Qed.

Lemma steps_numbered (e e' : Emulator W) : rtc process_step e e' → process_ok e → numbered e → numbered e'.
Proof.
  intros Hr. induction Hr as [|e e1 e' Hs _ IH]; [done|]. intros Hok Hn.
  apply IH; [by apply (step_keeps _ _ Hs)|by eapply step_numbered].
Qed.

Lemma reachable_numbered e : reachable e → numbered e.
Proof. intros [w Hr]. by apply (steps_numbered _ _ Hr), eq_refl; apply new_ok. Qed.

(** The update number tells states with other processes apart. *)
Lemma same_update (e0 e : Emulator W) p :
  reachable e0 → rtc process_step e0 e → update_producer_ e0 = update_producer_ e →
  is_Some (uid_of p e) → is_Some (name_of p e0).
Proof.
  intros He0 Hr Heq Hp. pose proof (processes_ok _ He0) as Hok0. pose proof (reachable_numbered _ He0) as Hn0.
  assert (reachable e) as He by (destruct He0 as [w Hw]; exists w; by etrans).
  pose proof (reachable_numbered _ He) as Hn. pose proof (processes_ok _ He) as Hok.
  apply (po_names _ Hok0), (po_pids _ Hok0). apply (po_pids _ Hok) in Hp. unfold numbered in *. lia.
Qed.


(** ** The handler among the processes *)

(** Processes come, and the other things that the files are made from change; the handler
    looks whenever a path is asked for. *)
Inductive proc_step (w : PH) : PH → Prop :=
| step_processes u env :
    process_step (emulator w.1.2) (emulator env) → proc_step w ((u, env), w.2)
| step_look w' : SynchronizeDirectoryTreeStructure w = Done (tt, w') → proc_step w w'.

Definition proc_reachable (w : PH) : Prop :=
  ∃ w0 h, reachable (emulator w0.1.2) ∧ ProcfsFileHandler_new = Done h ∧
    (w0.2 = h ∨ ∃ manager, w0.2 = SetMountPointManager manager h) ∧ rtc proc_step w0 w.

(** The tree is that of the last look. *)
Definition looked (e : Emulator W) (h : ProcfsFileHandler) : Prop :=
  last_consumed_ h = kInvalidUpdateNumber ∨
  ∃ e0, reachable e0 ∧ rtc process_step e0 e ∧ last_consumed_ h = update_producer_ e0 ∧ names_of e0 h.

Definition follows (w : PH) : Prop := reachable (emulator w.1.2) ∧ looked (emulator w.1.2) w.2.

Lemma new_handler_looks h : ProcfsFileHandler_new = Done h → last_consumed_ h = kInvalidUpdateNumber.
Proof.
  unfold ProcfsFileHandler_new, SetCpuInfoFileTemplate, mbind, outcome_bind, St_bind, modify, check.
  destruct (DirectoryManager.Clear ∅) as [[? m]| |]; [|done..]. intros Hh. vm_compute in Hh. by simplify_eq.
Qed.

Lemma step_follows w w' : proc_step w w' → follows w → follows w'.
Proof.
  intros [u env Hs|w1 Hs] [Hr Hl].
  - split; [destruct Hr as [v Hv]; exists v; by eapply rtc_r|]. destruct Hl as [Hl|(e0 & He0 & H2 & H3)]; [by left|right].
    exists e0. split; [done|]. split; [by eapply rtc_r|done].
  - pose proof (synchronize_spec w (processes_ok _ Hr)) as Hsync. case_bool_decide.
    { rewrite Hsync in Hs. injection Hs as <-. by split. }
    destruct Hsync as (m & Hm & Hn). rewrite Hm in Hs. injection Hs as <-. split; [done|]. right.
    by exists (emulator w.1.2).
Qed.

Lemma reachable_follows w : proc_reachable w → follows w.
Proof.
  intros (w0 & h & He & Hh & Hw & Hr). assert (follows w0) as H1.
  { split; [done|]. left. apply new_handler_looks in Hh. by destruct Hw as [->|[? ->]]. }
  clear Hw He. induction Hr as [|w w1 w2 Hs _ IH]; [done|]. by apply IH, (step_follows w).
Qed.

(** A look leaves a tree with all numbered processes, and only with named ones. *)
Record shows_processes (e : Emulator W) (l : list Z) : Prop := {
  sp_positive : Forall (λ p, 0 <= p) l;
  sp_named : ∀ p, p ∈ l → is_Some (name_of p e);
  sp_numbered : ∀ p, is_Some (uid_of p e) → p ∈ l;
}.

Lemma look_spec w :
  follows w →
  ∃ w' l m0, SynchronizeDirectoryTreeStructure w = Done (tt, w') ∧ w'.1 = w.1 ∧
    mount_point_manager_ w'.2 = mount_point_manager_ w.2 ∧ repr m0 fs_empty ∧
    repr (file_names_ w'.2) (tree l) ∧ shows_processes (emulator w.1.2) l.
Proof.
  intros [Hr Hl]. pose proof (processes_ok _ Hr) as Hok. set (e := emulator w.1.2) in *.
  destruct (clear_spec ∅) as (m0 & _ & Hm0). pose proof (synchronize_spec w Hok) as Hsync. fold e in Hsync.
  case_bool_decide as Heq.
  - exists w. destruct Hl as [Hl|(e0 & He0 & Hs & Hc & Hn)].
    { pose proof (reachable_numbered _ Hr) as Hnum. pose proof (po_prev _ Hok). unfold numbered, kFirstPidMinusOne, kInvalidUpdateNumber in *. lia. }
    exists (pids e0), m0. do 5 (split; [done|]). pose proof (processes_ok _ He0) as Hok0.
    destruct (steps_keep _ _ Hs Hok0) as [_ Hla]. split; [by apply pids_positive|..].
    + intros p Hp%elem_pids; [|done]. by apply (la_names _ _ Hla).
    + intros p Hp. apply elem_pids; [done|]. eapply same_update; [done|done|congruence|done].
  - destruct Hsync as (m & Hm & Hn). exists (after_sync w m), (pids e), m0. do 5 (split; [done|]).
    split; [by apply pids_positive|..]; intros p Hp; [by apply elem_pids|apply elem_pids; [done|]]. by apply (po_names _ Hok).
Qed.

Lemma info_spec (e : Emulator W) p : GetInfoByPid p e = (n ← name_of p e; u ← uid_of p e; Some (n, u)).
Proof. unfold GetInfoByPid, name_of, uid_of. by destruct (OrderedMap.find p _), (OrderedMap.find p _). Qed.

Lemma filepath_pid p f : lit "/proc/" ++ decimal p ++ slash :: f = filepath [proc; decimal p; f].
Proof. unfold filepath. cbn. by rewrite app_nil_r. Qed.
(** ** Opening and reading *)

Section Opening.
Context (R : str → list str → str) (readonly : option (FileSystemHandler U)) (inode : str → Z).

(** A file of a process that the handler makes itself. *)
Lemma open_spec w p post fd oflag cmode k :
  follows w → 0 <= p < 2 ^ 31 → post ≠ lit "fd" → okpath [post] →
  (∀ manager, pid_file p (slash :: post) manager = Some (k manager)) →
  let path := lit "/proc/" ++ decimal p ++ slash :: post in
  ∃ w', w'.1 = w.1 ∧
    procfs_open readonly inode fd path oflag cmode w =
    Done (match GetInfoByPid p (emulator w.1.2) with
          | Some _ => Ok (OpenedProcFile (ProcfsFile_new path (inode path) (k (mount_point_manager_ w.2))))
          | None => Err ENOENT
          end, w').
Proof.
  intros Hw Hp Hpost Hok Hk path. destruct (look_spec w Hw) as (w' & l & m0 & Hs & Hw1 & Hman & Hm0 & Hr & Hl).
  exists w'. split; [done|]. assert (okpath [proc; decimal p; post]) as Hpath.
  { change (okpath ([proc] ++ [decimal p] ++ [post])). rewrite !okpath_app.
    split; [by apply (bool_decide_unpack _)|]. split; [apply decimal_ok; lia|done]. }
  unfold procfs_open. run_with Hs. unfold path in *. rewrite filepath_pid.
  assert (StatDirectory (filepath [proc; decimal p; post]) (file_names_ w'.2) = Done (false, file_names_ w'.2)) as Hstat.
  { rewrite (stat_directory_spec _ (tree l) _ [proc; decimal p; post] Hr Hpath (ensure_filepath _ Hpath)).
    by rewrite bool_decide_false by (eapply tree_file; [done|apply Hl|done]). }
  rewrite (St_bind_run (on_names (StatDirectory (filepath [proc; decimal p; post]))) _ w' false w').
  2: { unfold on_names. rewrite Hstat. by destruct w' as [? []]. }
  unfold this_env, this_handler, mbind, St_bind, gets. rewrite <-filepath_pid, parse_pid_based_path by done. rewrite Hw1, Hman.
  destruct (GetInfoByPid p _); [|done]. by rewrite Hk.
Qed.

(** The name of a process does not change while its file is read. *)
Lemma cmdline_stable (env : Env) p argv0 u :
  GetInfoByPid p (emulator env) = Some (argv0, u) →
  stable (ProcfsFile_GetContent R) (λ w, w.1 = env ∧ kind (derived w.2) = ProcessCmdlineFile p) (argv0 ++ [NUL]).
Proof.
  intros Hp. split; [|done]. intros w [H1 H2]. unfold ProcfsFile_GetContent, UpdateContentIfNecessary. rewrite H1, H2. unfold ProcessCmdlineFile_Update. rewrite Hp.
  unfold delimited. cbn [map List.concat]. rewrite app_nil_r, length_app. cbn [List.length].
  match goal with |- context [Nat.eqb ?x ?y] => assert (Nat.eqb x y = true) as -> by (apply Nat.eqb_eq; cbn; lia) end.
  rewrite require_true. eexists. split; [done|]. done.
Qed.
(** C39.  /proc follows the processes.  Whatever processes came, names changed and looks at
    the directory happened before, in any order: the directory /proc has a subdirectory
    for each process that got a number, and each number in it has a name; the file
    cmdline of a process opens exactly when the process is known, and a program that
    reads it in pieces of any size gets the name it has by then, with the zero byte. *)
Theorem procfs_follows_processes w fd oflag cmode chunk :
  proc_reachable w → 0 < chunk →
  (∃ w' l, procfs_OnDirectoryContentsNeeded (lit "/proc") w = Done (Ok (DirImpl_new (lit "/proc/") l), w') ∧ w'.1 = w.1 ∧
     (∀ p, 0 <= p → l !! (decimal p ++ [slash]) = Some DIRECTORY → is_Some (name_of p (emulator w.1.2))) ∧
     (∀ p, is_Some (uid_of p (emulator w.1.2)) → l !! (decimal p ++ [slash]) = Some DIRECTORY)) ∧
  ∀ p, 0 <= p < 2 ^ 31 →
    let path := lit "/proc/" ++ decimal p ++ lit "/cmdline" in
    ∃ w', w'.1 = w.1 ∧
      match GetInfoByPid p (emulator w.1.2) with
      | None => procfs_open readonly inode fd path oflag cmode w = Done (Err ENOENT, w')
      | Some _ =>
          ∃ f, procfs_open readonly inode fd path oflag cmode w = Done (Ok (OpenedProcFile f), w') ∧
            ∀ (env : Env) argv0 u, GetInfoByPid p (emulator env) = Some (argv0, u) → size argv0 < 2 ^ 31 - 1 →
              ∃ w2, cat (ProcfsFile_GetContent R) chunk (S (S (List.length argv0))) (env, f) = Done (argv0 ++ [NUL], w2)
      end.
Proof.
  intros Hw Hchunk. pose proof (reachable_follows w Hw) as Hf. split.
  - destruct (look_spec w Hf) as (w' & l & m0 & Hs & Hw1 & _ & Hm0 & Hr & Hl).
    assert (okpath [proc]) as Hok by by apply (bool_decide_unpack _).
    destruct (tree_proc m0 l Hm0 (sp_positive _ _ Hl)) as [Hd Hnf].
    destruct (repr_lookup _ _ _ Hr Hok Hd) as [names Hnames]. exists w', names. split; [|split; [done|]].
    + unfold procfs_OnDirectoryContentsNeeded. run_with Hs. unfold on_names, OpenDirectory.
      run_with (stat_file_spec _ _ [proc] Hr Hok ltac:(done)). rewrite bool_decide_false by by rewrite Hnf; intros [].
      change (lit "/proc") with (filepath [proc]). rewrite (ensure_filepath [proc] Hok). run_with (get_files_spec [proc] (file_names_ w'.2)).
      rewrite Hnames. by destruct w' as [? []].
    + assert (∀ p, 0 <= p → names !! (decimal p ++ [slash]) = Some DIRECTORY ↔ p ∈ l) as Hlisted.
      { intros p Hp. rewrite (repr_list _ _ Hr _ _ _ _ Hnames Hok), listed_slash by apply (repr_ok _ _ Hr).
        rewrite <-(tree_pid m0 l p Hm0 (sp_positive _ _ Hl) Hp). naive_solver. }
      split; [by intros p Hp ?%Hlisted; [apply (sp_named _ _ Hl)|]|]. intros p Hp%(sp_numbered _ _ Hl). apply Hlisted; [|done].
      pose proof (sp_positive _ _ Hl) as Hpos. rewrite Forall_forall in Hpos. by apply Hpos.
  - intros p Hp path. destruct (open_spec w p (lit "cmdline") fd oflag cmode (λ _, ProcessCmdlineFile p) Hf Hp) as (w' & Hw1 & Hopen);
      [done|by apply (bool_decide_unpack _)|done|]. exists w'. split; [done|].
    change (slash :: lit "cmdline") with (lit "/cmdline") in Hopen. fold path in Hopen.
    destruct (GetInfoByPid p _); [|done]. eexists. split; [exact Hopen|]. intros env argv0 u Hinfo Hsize.
    destruct (cat_content (ProcfsFile_GetContent R) _ _ (env, ProcfsFile_new path (inode path) (ProcessCmdlineFile p)) chunk
      (S (S (List.length argv0))) (cmdline_stable env p argv0 u Hinfo)) as (w2 & Hw2 & _); [done| |done|done| |by exists w2].
    + unfold size in *. rewrite length_app. cbn. lia.
    + rewrite length_app. cbn. lia.
Qed.
End Opening.
End Follows.
End Tree.

(** ** A witness *)

Module ProcfsWitness.
Import Reference ProcessWitness.

Definition env_of (e : Emulator (list Z)) : ProcEnv (list Z) unit :=
  mkProcEnv e 0%nat (mkMountPointManager ∅ 0 []) (λ _, []) (AbstractSocketNamespace.mkAbstract ∅ 0) (λ _, []) 2 7.

Definition handler : ProcfsFileHandler :=
  match ProcfsFileHandler_new with Done h => h | _ => mkProcfsHandler [] [] [] 0 ∅ false end.

(** The handler looks when there is one process, and then another one comes. *)
Definition start : (unit * ProcEnv (list Z) unit) * ProcfsFileHandler := ((tt, env_of ready), handler).

Definition looked_once : (unit * ProcEnv (list Z) unit) * ProcfsFileHandler :=
  match SynchronizeDirectoryTreeStructure start with Done (_, w) => w | _ => start end.

Definition grown : (unit * ProcEnv (list Z) unit) * ProcfsFileHandler := ((tt, env_of prepared), looked_once.2).

Lemma grown_reachable : proc_reachable grown.
Proof.
  exists start, handler. split; [exact ready_reachable|]. split; [vm_compute; reflexivity|]. split; [by left|].
  apply (rtc_l _ _ looked_once); [|apply rtc_once].
  - apply step_look. vm_compute. reflexivity.
  - assert (grown = ((tt, env_of prepared), looked_once.2)) as -> by done. apply step_processes. 
    assert (emulator looked_once.1.2 = ready) as -> by (vm_compute; reflexivity). exact prepared_step.
Qed.

Lemma procfs_follows_processes_witness :
  ∃ w' l, procfs_OnDirectoryContentsNeeded (lit "/proc") grown = Done (Ok (DirImpl_new (lit "/proc/") l), w') ∧
    l !! lit "202/" = Some DIRECTORY ∧
    ∃ f w1, procfs_open None (λ _, 5) 3 (lit "/proc/202/cmdline") 0 0 grown = Done (Ok (OpenedProcFile f), w1).
Proof.
  destruct (procfs_follows_processes (λ s _, s) None (λ _, 5) grown 3 0 0 4 grown_reachable eq_refl)
    as [(w' & l & H1 & _ & _ & H2) H3].
  exists w', l. split; [exact H1|]. split; [apply (H2 202); vm_compute; by eexists|].
  assert (GetInfoByPid 202 (emulator grown.1.2) = Some (kDefaultProcessName, 10001)) as Hinfo by (vm_compute; reflexivity).
  destruct (H3 202 ltac:(lia)) as (w1 & _ & H4). rewrite Hinfo in H4. destruct H4 as (f & H4 & _).
  exists f, w1. exact H4.
Defined.
End ProcfsWitness.
