(* ===== verification/ReadonlyFsReader.v ===== *)
(** * ReadonlyFsReader: [readonly_fs_reader.{h,cc}] and
    [scripts/create_readonly_fs_image.py] (under src/posix_translation/)

    The image of the system's files: the script that writes it, and the reader
    that parses it where it is mapped.  Memory is the bytes of the image from the
    address on where it is mapped; reading outside of it is [Abort].  Bytes are
    [ascii], addresses have 32 bits. *)

From S2P Require Import Prelude BaseStrings PathUtil Util DirectoryManager.

#[local] Open Scope Z_scope.

(** [FileType]; the reader casts any number to it. *)
Definition kRegularFile : Z := 0.
Definition kSymbolicLink : Z := 1.
Definition kEmptyDirectory : Z := 2.

Record Metadata : Type := mkMetadata {
  md_offset : Z; md_size : Z; md_mtime : Z; md_file_type : Z; md_link_target : str;
}.

#[export] Instance metadata_eq_dec : EqDecision Metadata.
Proof. solve_decision. Defined.

(** [FileInfo_] *)
Record FileInfo_ : Type := mkFileInfo {
  fi_filename : str; fi_link_target : str; fi_offset : Z; fi_size : Z; fi_mtime : Z; fi_file_type : Z;
}.

(** [file_objects_] and [file_names_]. *)
Record ReadonlyFsReader : Type := mkReader {
  file_objects_ : gmap str Metadata;
  file_names_ : DirMap;
}.

Definition NUL : ascii := Ascii.zero.

Definition kNaCl64PageSize : Z := 64 * 1024.

(** ** The reader *)

Definition AlignTo (p boundary : Z) : Z :=
  Z.land (wrap32 (p + (boundary - 1))) (wrap32 (Z.lnot (boundary - 1))).

Definition byte_value (c : ascii) : Z := Z.of_N (N_of_ascii c).

(** [ntohl] of the four bytes. *)
Definition ntohl (a b c d : ascii) : Z :=
  ((byte_value a * 256 + byte_value b) * 256 + byte_value c) * 256 + byte_value d.

Section Image.
Context `{BaseStrings} (page_size time_bits off_bits : Z).
(** Where the image is mapped, and its bytes. *)
Context (image_metadata : Z) (image : str).

(** The memory that [p] points to. *)
Definition memory_at (p : Z) : outcome str :=
  let i := p - image_metadata in
  if (0 <=? i) && (i <=? Z.of_nat (List.length image)) then Done (drop (Z.to_nat i) image) else Abort.

Definition ReadUInt32BE (p : Z) : outcome (Z * Z) :=
  let p := AlignTo p 4 in
  m ← memory_at p;
  match m with
  | a :: b :: c :: d :: _ => Done (ntohl a b c d, p + 4)
  | _ => Abort
  end.

Fixpoint until_nul (m : str) : outcome str :=
  match m with
  | [] => Abort
  | c :: m => if bool_decide (c = NUL) then Done [] else s ← until_nul m; mret (c :: s)
  end.

(** [std::string s = reinterpret_cast<const char*>(p)], and [p] after the string. *)
Definition read_string (p : Z) : outcome (str * Z) :=
  m ← memory_at p;
  s ← until_nul m;
  mret (s, p + Z.of_nat (List.length s) + 1).

Definition read_file_info (p : Z) : outcome (FileInfo_ * Z) :=
  '(offset, p) ← ReadUInt32BE p;
  '(size, p) ← ReadUInt32BE p;
  '(mtime, p) ← ReadUInt32BE p;
  '(file_type, p) ← ReadUInt32BE p;
  '(filename, p) ← read_string p;
  '(link_target, p) ← (if file_type =? kSymbolicLink then read_string p else mret ([], p));
  mret (mkFileInfo filename link_target offset size (to_signed time_bits mtime) file_type, p).

(** The first loop of [ParseImage]. *)
Fixpoint read_files (num_files : nat) (p : Z) : outcome (list FileInfo_ * Z) :=
  match num_files with
  | O => mret ([], p)
  | Datatypes.S n =>
      '(f, p) ← read_file_info p;
      '(files, p) ← read_files n p;
      mret (f :: files, p)
  end.

(** [metadata_size] with its padding. *)
Definition content_start (p : Z) : Z :=
  let metadata_size := to_signed 32 (p - image_metadata) in
  let rest := wrap32 metadata_size mod kNaCl64PageSize in
  let pad_len := if rest =? 0 then 0 else kNaCl64PageSize - rest in
  to_signed 32 (metadata_size + pad_len).

Definition on_names {A} (m : St DirMap A) : St ReadonlyFsReader A := λ r,
  match m (file_names_ r) with
  | Done (a, names) => Done (a, mkReader (file_objects_ r) names)
  | Abort => Abort
  | NoFuel => NoFuel
  end.

(** The body of the second loop. *)
Definition add_file_info (metadata_size : Z) (f : FileInfo_) : St ReadonlyFsReader unit :=
  let value := mkMetadata (to_signed off_bits (to_signed off_bits (fi_offset f) + metadata_size))
                 (fi_size f) (fi_mtime f) (fi_file_type f) (fi_link_target f) in
  if fi_file_type f =? kEmptyDirectory then on_names (MakeDirectories (fi_filename f))
  else
    r ← get;
    check (bool_decide (file_objects_ r !! fi_filename f = None));;
    put (mkReader (<[fi_filename f := value]> (file_objects_ r)) (file_names_ r));;
    result ← on_names (AddFile (fi_filename f));
    check result.

Definition ParseImage : St ReadonlyFsReader unit :=
  check (AlignTo image_metadata (GetPageSize page_size) =? image_metadata);;
  '(num_files, p) ← lift (ReadUInt32BE image_metadata);
  '(files, p) ← lift (read_files (Z.to_nat num_files) p);
  for_each (add_file_info (content_start p)) files.

(** The constructor; that of [file_names_] calls [Clear]. *)
Definition ReadonlyFsReader_new : outcome ReadonlyFsReader :=
  names ← Clear ∅;
  r ← ParseImage (mkReader ∅ names.2);
  mret r.2.
End Image.

Section Queries.
Context `{BaseStrings}.

Definition GetMetadata (filename : str) (r : ReadonlyFsReader) : option Metadata := file_objects_ r !! filename.

Definition IsDirectory (filename : str) (r : ReadonlyFsReader) : outcome bool :=
  '(b, _) ← StatDirectory filename (file_names_ r); mret b.

Definition Exist (filename : str) (r : ReadonlyFsReader) : outcome bool :=
  match file_objects_ r !! filename with
  | Some _ => Done true
  | None => IsDirectory filename r
  end.

(** [OpenDirectory] of the reader; NULL is [None]. *)
Definition reader_OpenDirectory (name : str) (r : ReadonlyFsReader) : outcome (option DirImpl) :=
  '(d, _) ← OpenDirectory name (file_names_ r);
  mret match d with Ok d => Some d | Err _ => None end.
End Queries.

(** ** The script that writes the image *)

Module CreateImage.
Definition _PAGE_SIZE : Z := 64 * 1024.

(** An input: its name, its type, the target of a link, the time of its change and
    its contents (none for links and directories). *)
Record input : Type := mkInput {
  in_filename : str; in_type : Z; in_link_target : option str; in_mtime : Z; in_data : str;
}.

(** [re.sub(r'^\.+', '', s)] *)
Fixpoint strip_dots (s : str) : str :=
  match s with
  | c :: s' => if bool_decide (c = dot) then strip_dots s' else s
  | [] => []
  end.

(** [re.sub(r'^([^/])', r'/\1', s)] *)
Definition add_slash (s : str) : str :=
  match s with
  | c :: _ => if bool_decide (c = slash) then s else slash :: s
  | [] => []
  end.

Definition newline : ascii := ascii_of_nat 10.

(** What follows the longest match of [.*/root]. *)
Fixpoint after_root (s : str) : option str :=
  match s with
  | [] => None
  | c :: s' =>
      match (if bool_decide (c = newline) then None else after_root s') with
      | Some r => Some r
      | None => if bool_decide (lit "/root" `prefix_of` s) then Some (drop 5 s) else None
      end
  end.

(** [re.sub(r'^/out/target/.*/root', '', s)] *)
Definition strip_root (s : str) : str :=
  if bool_decide (lit "/out/target/" `prefix_of` s) then default s (after_root (drop 12 s)) else s.

Definition _normalize_path (input_filename : str) : str :=
  strip_root (add_slash (strip_dots input_filename)).

Definition _pad_array (array : str) (boundary : Z) : str :=
  let pad_bytes := boundary - Z.of_nat (List.length array) mod boundary in
  if pad_bytes =? boundary then array else array ++ replicate (Z.to_nat pad_bytes) NUL.

(** [struct.pack('>i', x)]: an error when [x] does not fit. *)
Definition pack (x : Z) : outcome str :=
  if (- 2 ^ 31 <=? x) && (x <? 2 ^ 31) then
    let byte i := ascii_of_N (Z.to_N (x / 2 ^ (8 * i) mod 256)) in
    Done [byte 3; byte 2; byte 1; byte 0]
  else Abort.

Definition in_size (f : input) : Z :=
  if in_type f =? kRegularFile then Z.of_nat (List.length (in_data f)) else 0.

(** [_update_metadata]; [content] counts by its size only. *)
Definition _update_metadata (metadata content : str) (f : input) : outcome str :=
  offset ← pack (Z.of_nat (List.length content));
  size ← pack (in_size f);
  mtime ← pack (in_mtime f);
  file_type ← pack (in_type f);
  mret (_pad_array metadata 4 ++ offset ++ size ++ mtime ++ file_type ++
        _normalize_path (in_filename f) ++ [NUL] ++
        match in_link_target f with
        | Some t => if bool_decide (t = []) then [] else t ++ [NUL]
        | None => []
        end).

(** [_update_content], for the files that have any. *)
Definition _update_content (content : str) (f : input) : str :=
  if (in_type f =? kRegularFile) && (0 <? in_size f) then content ++ in_data f else content.

Fixpoint update_all (fs : list input) (metadata content : str) : outcome (str * str) :=
  match fs with
  | [] => mret (metadata, content)
  | f :: fs =>
      (* "%s should not end with /" *)
      require (bool_decide (last (in_filename f) ≠ Some slash));;
      metadata ← _update_metadata metadata content f;
      let content := _update_content content f in
      update_all fs metadata (match fs with [] => content | _ => _pad_array content _PAGE_SIZE end)
  end.

(** [_generate_readonly_image] *)
Definition _generate_readonly_image (fs : list input) : outcome str :=
  num_files ← pack (Z.of_nat (List.length fs));
  '(metadata, content) ← update_all fs (_pad_array [] 4 ++ num_files) [];
  mret (_pad_array metadata _PAGE_SIZE ++ content).
End CreateImage.

(* -------------------------------------------------------------------- *)
(** * What an image holds *)

Import CreateImage.

(** An input that the format can hold, with its path in the image. *)
Definition entry_ok (f : input) (p : list str) : Prop :=
  _normalize_path (in_filename f) = filepath p ∧ last (in_filename f) ≠ Some slash ∧
  okpath p ∧ p ≠ [] ∧ NUL ∉ filepath p ∧ 0 <= in_mtime f < 2 ^ 31 ∧
  match in_link_target f with
  | Some t => in_type f = kSymbolicLink ∧ t ≠ [] ∧ NUL ∉ t
  | None => in_type f = kRegularFile ∨ in_type f = kEmptyDirectory
  end.

#[export] Instance entry_ok_dec f p : Decision (entry_ok f p).
Proof. unfold entry_ok. destruct (in_link_target f); apply _. Defined.

(** What the reader adds to the tree of names. *)
Definition entry_op (fp : input * list str) : dm_op :=
  if in_type fp.1 =? kEmptyDirectory then OpMakeDirectories fp.2 else OpAddFile fp.2 REGULAR.

Definition str_size (s : str) : Z := Z.of_nat (List.length s).

(** A bound of the size of the image. *)
Fixpoint image_bound (fs : list (input * list str)) : Z :=
  match fs with
  | [] => 4 + _PAGE_SIZE
  | (f, p) :: fs =>
      32 + str_size (filepath p) + str_size (default [] (in_link_target f)) + str_size (in_data f) +
        _PAGE_SIZE + image_bound fs
  end.

(** The bytes of a file in the image. *)
Definition content_at (image : str) (offset size : Z) : str :=
  take (Z.to_nat size) (drop (Z.to_nat offset) image).

(** * Proofs *)

Lemma align_to_eq k u :
  0 <= k < 32 → 0 <= u → u + 2 ^ k <= 2 ^ 32 → AlignTo u (2 ^ k) = (u + 2 ^ k - 1) / 2 ^ k * 2 ^ k.
Proof.
  intros Hk Hu Hb. pose proof (Z.pow_pos_nonneg 2 k ltac:(lia) ltac:(lia)) as Hpos.
  pose proof (round_to_page_eq k u Hk ltac:(lia)) as He. rewrite decide_True in He by done.
  rewrite <-He. unfold AlignTo, RoundToPageSize, GetPageSize. by rewrite Z.add_sub_assoc.
Qed.

Lemma str_size_app s t : str_size (s ++ t) = str_size s + str_size t.
Proof. unfold str_size. rewrite length_app. lia. Qed.

Lemma to_nat_size s : Z.to_nat (str_size s) = List.length s.
Proof. unfold str_size. lia. Qed.

Lemma pad_array_spec a b :
  0 < b → ∃ k, _pad_array a b = a ++ replicate k NUL ∧
    str_size (_pad_array a b) = (str_size a + b - 1) / b * b.
Proof.
  intros Hb. unfold _pad_array. fold (str_size a). set (n := str_size a).
  assert (0 <= n) as Hn by (unfold n, str_size; lia).
  pose proof (Z.mod_pos_bound n b Hb) as Hm. pose proof (Z.div_mod n b ltac:(lia)) as Hd.
  destruct (Z.eqb_spec (b - n mod b) b) as [He|He].
  - exists O. simpl. rewrite app_nil_r. split; [done|]. fold n.
    rewrite <-(Z.div_unique (n + b - 1) b (n / b) (b - 1)); lia.
  - eexists. split; [done|]. rewrite str_size_app. fold n. unfold str_size. rewrite length_replicate.
    rewrite <-(Z.div_unique (n + b - 1) b (n / b + 1) (n mod b - 1)); lia.
Qed.

Lemma ascii_of_byte x : 0 <= x < 256 → byte_value (ascii_of_N (Z.to_N x)) = x.
Proof. intros Hx. unfold byte_value. rewrite N_ascii_embedding by lia. lia. Qed.

Lemma pack_spec x :
  0 <= x < 2 ^ 31 → ∃ a b c d, pack x = Done [a; b; c; d] ∧ ntohl a b c d = x.
Proof.
  intros Hx. unfold pack.
  rewrite (proj2 (Z.leb_le _ _)), (proj2 (Z.ltb_lt _ _)) by lia.
  do 4 eexists. split; [reflexivity|]. unfold ntohl.
  rewrite !ascii_of_byte by (apply Z.mod_pos_bound; lia).
  change (2 ^ (8 * 3)) with (256 * (256 * 256)). change (2 ^ (8 * 2)) with (256 * 256).
  change (2 ^ (8 * 1)) with 256. change (2 ^ (8 * 0)) with 1.
  rewrite <-!Z.div_div, Z.div_1_r by lia.
  rewrite (Z.mod_small (x / 256 / 256 / 256)).
  2: { split; [do 3 (apply Z.div_pos; [|lia]); lia|]. do 3 (apply Z.div_lt_upper_bound; [lia|]). lia. }
  pose proof (Z.div_mod x 256). pose proof (Z.div_mod (x / 256) 256).
  pose proof (Z.div_mod (x / 256 / 256) 256). lia.
Qed.

Section Parse.
Context (time_bits : Z) (time_bits_enough : 32 <= time_bits).
Context (base : Z) (image : str).
Context (base_aligned : (4 | base)) (base_pos : 0 <= base) (fits : base + str_size image <= 2 ^ 32).

Lemma memory_at_spec pre rest :
  image = pre ++ rest → memory_at base image (base + str_size pre) = Done rest.
Proof.
  intros ->. unfold memory_at, str_size. rewrite length_app.
  replace (base + Z.of_nat (List.length pre) - base) with (Z.of_nat (List.length pre)) by lia.
  rewrite !(proj2 (Z.leb_le _ _)) by lia. by rewrite Nat2Z.id, drop_app_length.
Qed.

(** A number at the next boundary. *)
Lemma read_uint_spec x bs pre k rest :
  pack x = Done bs → 0 <= x < 2 ^ 31 → image = pre ++ replicate k NUL ++ bs ++ rest →
  str_size (pre ++ replicate k NUL) = (str_size pre + 3) / 4 * 4 →
  ReadUInt32BE base image (base + str_size pre) = Done (x, base + str_size (pre ++ replicate k NUL ++ bs)).
Proof.
  intros Hbs Hx Him Hk. destruct (pack_spec x Hx) as (a & b & c & d & Hp & Hv).
  rewrite Hbs in Hp. injection Hp as ->. unfold ReadUInt32BE.
  assert (0 <= str_size pre ∧ 0 <= str_size rest) as [Hpre Hrest] by (unfold str_size; lia).
  assert (base + (str_size pre + 3) / 4 * 4 + 4 <= 2 ^ 32) as Hin.
  { rewrite Him, app_assoc, str_size_app, Hk, str_size_app in fits. change (str_size [a; b; c; d]) with 4 in fits. lia. }
  assert (AlignTo (base + str_size pre) 4 = base + str_size (pre ++ replicate k NUL)) as Hal.
  { destruct base_aligned as [q Hq]. change 4 with (2 ^ 2) at 1. rewrite align_to_eq; [|lia|lia|].
    - rewrite Hk, Hq. change (2 ^ 2) with 4. replace (q * 4 + str_size pre + 4 - 1) with (str_size pre + 3 + q * 4) by lia.
      rewrite Z.div_add by lia. lia.
    - change (2 ^ 2) with 4. pose proof (Z.div_mod (str_size pre + 3) 4). pose proof (Z.mod_pos_bound (str_size pre + 3) 4). lia. }
  rewrite Hal, (memory_at_spec (pre ++ replicate k NUL) ([a; b; c; d] ++ rest)) by (by rewrite <-app_assoc).
  cbn [mbind outcome_bind app]. rewrite Hv. do 2 f_equal.
  rewrite app_assoc, (str_size_app (pre ++ _)). change (str_size [a; b; c; d]) with 4. lia.
Qed.

Lemma until_nul_spec s rest : NUL ∉ s → until_nul (s ++ NUL :: rest) = Done s.
Proof.
  induction s as [|c s IH]; intros Hs; simpl; [done|].
  apply not_elem_of_cons in Hs as [Hc Hs]. rewrite bool_decide_false by done. by rewrite IH.
Qed.

Lemma read_string_spec s pre rest :
  NUL ∉ s → image = pre ++ s ++ NUL :: rest →
  read_string base image (base + str_size pre) = Done (s, base + str_size (pre ++ s ++ [NUL])).
Proof.
  intros Hs Him. unfold read_string. rewrite (memory_at_spec _ _ Him). cbn [mbind outcome_bind].
  rewrite until_nul_spec by done. cbn [mbind outcome_bind]. unfold mret, outcome_ret.
  do 2 f_equal. rewrite !str_size_app. unfold str_size. simpl. lia.
Qed.

(** The bytes of an entry, and what they are read as. *)
Definition entry_info (content : str) (f : input) (p : list str) : FileInfo_ :=
  mkFileInfo (filepath p) (default [] (in_link_target f)) (str_size content) (in_size f) (in_mtime f) (in_type f).

Lemma read_uint_aligned x bs pre rest :
  pack x = Done bs → 0 <= x < 2 ^ 31 → (4 | str_size pre) → image = pre ++ bs ++ rest →
  ReadUInt32BE base image (base + str_size pre) = Done (x, base + str_size (pre ++ bs)).
Proof.
  intros Hbs Hx [q Hq] Him. apply (read_uint_spec x bs pre 0 rest); [done..|].
  rewrite app_nil_r. rewrite Hq. f_equal. apply Z.div_unique with 3; lia.
Qed.

Lemma pack_done x : 0 <= x < 2 ^ 31 → ∃ bs, pack x = Done bs.
Proof. intros Hx. destruct (pack_spec x Hx) as (a & b & c & d & Hp & _). eauto. Qed.

Lemma pack_size x bs : pack x = Done bs → str_size bs = 4.
Proof. unfold pack. destruct (_ && _); [|done]. by intros [= <-]. Qed.

Lemma entry_type f p : entry_ok f p →
  0 <= in_type f < 3 ∧ ((in_type f =? kSymbolicLink) = bool_decide (is_Some (in_link_target f))).
Proof.
  intros (_ & _ & _ & _ & _ & _ & Ht). unfold kSymbolicLink, kRegularFile, kEmptyDirectory in *.
  destruct (in_link_target f) as [t|].
  - destruct Ht as (-> & _). rewrite bool_decide_true by eauto. split; [lia|done].
  - rewrite bool_decide_false by (by intros []). destruct Ht as [-> | ->]; (split; [lia|done]).
Qed.

(** The reader reads back an entry as the script wrote it. *)
Lemma read_entry md ct f p md1 rest :
  entry_ok f p → str_size ct < 2 ^ 31 → in_size f < 2 ^ 31 →
  _update_metadata md ct f = Done md1 → image = md1 ++ rest →
  read_file_info time_bits base image (base + str_size md) = Done (entry_info ct f p, base + str_size md1).
Proof.
  intros Hok Hct Hsz Hmd Him. pose proof (entry_type f p Hok) as [Hty Hlink].
  destruct Hok as (Hname & _ & _ & _ & Hnul & Hmt & Htarget).
  assert (0 <= str_size ct) as Hct0 by (unfold str_size; lia).
  assert (0 <= in_size f) as Hsz0 by (unfold in_size; destruct (in_type f =? kRegularFile); clear; lia).
  unfold _update_metadata in Hmd.
  destruct (pack_done (str_size ct) ltac:(lia)) as [o Ho].
  destruct (pack_done (in_size f) ltac:(lia)) as [sz Hs].
  destruct (pack_done (in_mtime f) ltac:(lia)) as [mt Hm].
  destruct (pack_done (in_type f) ltac:(lia)) as [ty Ht].
  fold (str_size ct) in Hmd. rewrite Ho, Hs, Hm, Ht in Hmd. rewrite !done_bind, Hname in Hmd.
  injection Hmd as <-. destruct (pad_array_spec md 4 ltac:(lia)) as (k & Hpad & Hal).
  set (tgt := match in_link_target f with Some t => _ | None => [] end) in *.
  set (pre := _pad_array md 4) in *.
  assert ((4 | str_size pre)) as Hpre by (rewrite Hal; by eexists).
  assert (∀ l : str, str_size (pre ++ l) = str_size pre + str_size l) as Hsize by (intros; apply str_size_app).
  unfold read_file_info.
  rewrite (read_uint_spec (str_size ct) o md k (sz ++ mt ++ ty ++ filepath p ++ NUL :: tgt ++ rest)); [|done|lia| |].
  2: { rewrite Him. rewrite Hpad, <-!app_assoc. done. }
  2: { rewrite <-Hpad, Hal. do 2 f_equal. lia. }
  rewrite done_bind, app_assoc, <-Hpad.
  rewrite (read_uint_aligned (in_size f) sz (pre ++ o) (mt ++ ty ++ filepath p ++ NUL :: tgt ++ rest)); [|done|lia| |].
  2: { rewrite Hsize, (pack_size _ _ Ho). by apply Z.divide_add_r; [|exists 1]. }
  2: { rewrite Him, <-!app_assoc. done. }
  rewrite done_bind.
  rewrite (read_uint_aligned (in_mtime f) mt ((pre ++ o) ++ sz) (ty ++ filepath p ++ NUL :: tgt ++ rest)); [|done|lia| |].
  2: { rewrite !str_size_app, (pack_size _ _ Ho), (pack_size _ _ Hs). do 2 (apply Z.divide_add_r; [|by exists 1]). done. }
  2: { rewrite Him, <-!app_assoc. done. }
  rewrite done_bind.
  rewrite (read_uint_aligned (in_type f) ty (((pre ++ o) ++ sz) ++ mt) (filepath p ++ NUL :: tgt ++ rest)); [|done|lia| |].
  2: { rewrite !str_size_app, (pack_size _ _ Ho), (pack_size _ _ Hs), (pack_size _ _ Hm). do 3 (apply Z.divide_add_r; [|by exists 1]). done. }
  2: { rewrite Him, <-!app_assoc. done. }
  rewrite done_bind, (read_string_spec (filepath p) _ (tgt ++ rest)); [|done|by rewrite Him, <-!app_assoc].
  rewrite done_bind, Hlink. unfold entry_info.
  assert (to_signed time_bits (in_mtime f) = in_mtime f) as ->.
  { apply to_signed_id; [lia|]. pose proof (Z.pow_le_mono_r 2 31 (time_bits - 1)). lia. }
  subst tgt. destruct (in_link_target f) as [t|].
  - destruct Htarget as (_ & Hne & Htn). rewrite (bool_decide_false (t = [])) in Him |- * by done.
    rewrite bool_decide_true by eauto.
    rewrite (read_string_spec t _ rest); [|done|by rewrite Him; repeat (rewrite <-app_assoc || cbn [app])].
    rewrite done_bind. by repeat (rewrite <-app_assoc || cbn [app]).
  - rewrite bool_decide_false by (by intros []). rewrite !done_bind. by rewrite <-!app_assoc.
Qed.
End Parse.

Lemma update_metadata_done md ct f p :
  entry_ok f p → str_size ct < 2 ^ 31 → in_size f < 2 ^ 31 →
  ∃ sfx, _update_metadata md ct f = Done (md ++ sfx) ∧
    str_size sfx <= 32 + str_size (filepath p) + str_size (default [] (in_link_target f)).
Proof.
  intros Hok Hct Hsz. pose proof (entry_type f p Hok) as [Hty _].
  destruct Hok as (Hname & _ & _ & _ & _ & Hmt & _).
  assert (0 <= in_size f) as Hsz0 by (unfold in_size; destruct (in_type f =? kRegularFile); clear; lia).
  destruct (pack_done (str_size ct) ltac:(unfold str_size in *; lia)) as [o Ho].
  destruct (pack_done (in_size f) ltac:(lia)) as [sz Hs].
  destruct (pack_done (in_mtime f) ltac:(lia)) as [mt Hm].
  destruct (pack_done (in_type f) ltac:(lia)) as [ty Ht].
  unfold _update_metadata. fold (str_size ct). rewrite Ho, Hs, Hm, Ht, !done_bind, Hname.
  destruct (pad_array_spec md 4 ltac:(lia)) as (k & Hpad & Hal). rewrite Hpad, <-app_assoc.
  eexists. split; [reflexivity|].
  rewrite Hpad, str_size_app in Hal.
  pose proof (Z.div_mod (str_size md + 4 - 1) 4). pose proof (Z.mod_pos_bound (str_size md + 4 - 1) 4).
  rewrite !str_size_app, (pack_size _ _ Ho), (pack_size _ _ Hs), (pack_size _ _ Hm), (pack_size _ _ Ht).
  change (str_size [NUL]) with 1.
  assert (str_size match in_link_target f with
    | Some t => if bool_decide (t = []) then [] else t ++ [NUL] | None => [] end
    <= 1 + str_size (default [] (in_link_target f))) as Hl.
  { destruct (in_link_target f) as [t|]; [|done]. case_bool_decide; [subst; done|].
    rewrite str_size_app. cbn [default]. change (str_size [NUL]) with 1. unfold id. lia. }
  lia.
Qed.

Lemma update_content_spec content f p :
  entry_ok f p → ∃ more, _update_content content f = content ++ more ∧
    content_at (content ++ more) (str_size content) (in_size f) =
      (if in_type f =? kRegularFile then in_data f else []) ∧ str_size more <= str_size (in_data f).
Proof.
  intros Hok. unfold _update_content, in_size, content_at. fold (str_size (in_data f)).
  rewrite (to_nat_size content). setoid_rewrite drop_app_length.
  destruct (in_type f =? kRegularFile); cbn [andb].
  - destruct (Z.ltb_spec 0 (str_size (in_data f))) as [Hl|Hl]; [exists (in_data f)|exists []].
    + rewrite to_nat_size, firstn_all. split; [done|]. split; [done|lia].
    + assert (in_data f = []) as -> by (destruct (in_data f); [done|unfold str_size in Hl; simpl in Hl; lia]).
      rewrite app_nil_r. done.
  - exists []. rewrite app_nil_r. split; [done|]. split; [done|]. unfold str_size. simpl. lia.
Qed.

Lemma content_at_more ct more off n :
  0 <= off → 0 <= n → off + n <= str_size ct → content_at (ct ++ more) off n = content_at ct off n.
Proof.
  intros Ho Hp Hn. unfold content_at, str_size in *. rewrite drop_app_le by lia.
  rewrite take_app_le; [done|]. rewrite length_drop. lia.
Qed.

(** The entry [info] describes the input, whose contents are in [content] at a page. *)
Definition describes (content : str) (fp : input * list str) (info : FileInfo_) : Prop :=
  ∃ c, info = entry_info c fp.1 fp.2 ∧ (_PAGE_SIZE | str_size c) ∧
    (0 < in_size fp.1 → str_size c + in_size fp.1 <= str_size content) ∧ str_size c <= str_size content ∧
    content_at content (str_size c) (in_size fp.1) = (if in_type fp.1 =? kRegularFile then in_data fp.1 else []).

Lemma in_size_bounds f : 0 <= in_size f <= str_size (in_data f).
Proof. unfold in_size, str_size. destruct (in_type f =? kRegularFile); lia. Qed.

Lemma str_size_nonneg s : 0 <= str_size s.
Proof. unfold str_size. lia. Qed.

Lemma content_at_zero ct off n : n <= 0 → content_at ct off n = [].
Proof. intros Hn. unfold content_at. by replace (Z.to_nat n) with O by lia. Qed.

Lemma describes_more content more fp info :
  describes content fp info → describes (content ++ more) fp info.
Proof.
  intros (c & -> & Hpage & Hin & Hc & Hat). exists c. rewrite str_size_app. pose proof (str_size_nonneg more).
  split; [done|]. split; [done|]. split; [lia|]. split; [lia|]. rewrite <-Hat.
  destruct (Z.ltb_spec 0 (in_size fp.1)) as [Hp|Hp]; [|by rewrite !content_at_zero by done].
  apply content_at_more; [apply str_size_nonneg|lia|by apply Hin].
Qed.

(** The tables that the script builds, as the reader sees them. *)
Definition tables_ok (time_bits : Z) (fps : list (input * list str)) (md ct md' ct' : str)
    (infos : list FileInfo_) : Prop :=
  md `prefix_of` md' ∧ ct `prefix_of` ct' ∧
  str_size md' + str_size ct' + 4 + _PAGE_SIZE <= str_size md + str_size ct + image_bound fps ∧
  (∀ base image, (4 | base) → 0 <= base → base + str_size image <= 2 ^ 32 → md' `prefix_of` image →
     read_files time_bits base image (List.length fps) (base + str_size md) = Done (infos, base + str_size md')) ∧
  Forall2 (describes ct') fps infos.

Lemma pad_content content :
  ∃ k, _pad_array content _PAGE_SIZE = content ++ replicate k NUL ∧
    (_PAGE_SIZE | str_size (_pad_array content _PAGE_SIZE)) ∧
    str_size (_pad_array content _PAGE_SIZE) <= str_size content + _PAGE_SIZE - 1.
Proof.
  destruct (pad_array_spec content _PAGE_SIZE ltac:(done)) as (k & Hk & Hs). exists k. split; [done|].
  rewrite Hs. split; [by eexists|]. unfold _PAGE_SIZE.
  pose proof (Z.div_mod (str_size content + 64 * 1024 - 1) (64 * 1024)).
  pose proof (Z.mod_pos_bound (str_size content + 64 * 1024 - 1) (64 * 1024)). lia.
Qed.

Lemma update_all_spec time_bits fps md ct :
  32 <= time_bits → Forall (λ fp, entry_ok fp.1 fp.2) fps → (fps ≠ [] → (_PAGE_SIZE | str_size ct)) →
  str_size md + str_size ct + image_bound fps <= 2 ^ 31 + 4 →
  ∃ md' ct' infos, update_all (fst <$> fps) md ct = Done (md', ct') ∧ tables_ok time_bits fps md ct md' ct' infos.
Proof.
  intros Htb. revert md ct. induction fps as [|[f p] fps IH]; intros md ct Hok Hpage Hb.
  { exists md, ct, []. split; [done|]. split; [done|]. split; [done|]. split; [simpl; lia|]. done. }
  inversion Hok as [|?? Hf Hfs]; subst. cbn [image_bound fst snd] in *.
  pose proof (in_size_bounds f) as Hsz. pose proof (str_size_nonneg md). pose proof (str_size_nonneg ct).
  assert (∀ l, 0 <= image_bound l) as Hib.
  { induction l as [|[f' p'] l IHl]; cbn [image_bound]; unfold _PAGE_SIZE in *; [lia|]. unfold str_size. lia. }
  pose proof (Hib fps). pose proof (str_size_nonneg (filepath p)). pose proof (str_size_nonneg (default [] (in_link_target f))).
  assert (0 < _PAGE_SIZE) by done.
  destruct (update_metadata_done md ct f p Hf ltac:(lia) ltac:(lia)) as (sfx & Hmd & Hsfx).
  destruct (update_content_spec ct f p Hf) as (more & Hct & Hat & Hmore).
  set (ct1 := match fps with [] => ct ++ more | _ => _pad_array (ct ++ more) _PAGE_SIZE end).
  assert (∃ k, ct1 = (ct ++ more) ++ k ∧ str_size ct1 <= str_size (ct ++ more) + _PAGE_SIZE - 1 ∧
            (fps ≠ [] → (_PAGE_SIZE | str_size ct1))) as (k & Hk & Hck & Hp1).
  { subst ct1. destruct fps; [exists []; rewrite app_nil_r; split; [done|split; [lia|done]]|].
    destruct (pad_content (ct ++ more)) as (k & Hk & Hd & Hs). rewrite Hk in *. by exists (replicate k NUL). }
  rewrite str_size_app in Hck.
  destruct (IH (md ++ sfx) ct1 Hfs Hp1) as (md' & ct' & infos & Hall & Hpm & Hpc & Hsize & Hread & Hdesc).
  { rewrite str_size_app. lia. }
  exists md', ct', (entry_info ct f p :: infos). split; [|split; [|split; [|split; [|split]]]].
  - cbn. rewrite (bool_decide_true (last _ ≠ _)) by apply Hf. rewrite require_true, Hmd, done_bind, Hct.
    rewrite <-Hall. subst ct1. by destruct fps.
  - etrans; [|done]. by apply prefix_app_r.
  - etrans; [|done]. rewrite Hk, <-app_assoc. by apply prefix_app_r.
  - cbn [image_bound]. rewrite str_size_app in Hsize. lia.
  - intros base image Hb4 Hb0 Hfits Him. cbn [List.length read_files].
    assert ((md ++ sfx) `prefix_of` image) as [rest ->] by (by etrans).
    rewrite (read_entry time_bits Htb base _ Hb4 Hb0 Hfits md ct f p (md ++ sfx) rest Hf ltac:(lia) ltac:(lia) Hmd eq_refl), done_bind.
    by rewrite (Hread base _ Hb4 Hb0 Hfits Him), done_bind.
  - constructor; [|done]. destruct Hpc as [tl ->]. rewrite Hk, <-app_assoc. apply describes_more. exists ct.
    split; [done|]. split; [by apply Hpage|]. rewrite str_size_app. cbn [fst]. split; [|split; [pose proof (str_size_nonneg more); lia|done]].
    intros Hpos. destruct (in_type f =? kRegularFile) eqn:E; [|unfold in_size in Hpos; rewrite E in Hpos; done].
    unfold _update_content in Hct. rewrite E in Hct. rewrite (proj2 (Z.ltb_lt _ _)) in Hct by done.
    cbn [andb] in Hct. apply app_inv_head in Hct as <-. lia.
Qed.

(** ** The maps of the reader *)

Section Maps.
Context `{BaseStringsSpec}.

(** The files with metadata are those of the tree of names. *)
Definition same_files (r : ReadonlyFsReader) (fs : FS) : Prop :=
  ∀ p, okpath p → is_Some (file_objects_ r !! filepath p) ↔ is_Some (files fs !! p).

Definition metadata_of (start : Z) (info : FileInfo_) : Metadata :=
  mkMetadata (fi_offset info + start) (fi_size info) (fi_mtime info) (fi_file_type info) (fi_link_target info).

Definition is_file (info : FileInfo_) : Prop := fi_file_type info ≠ kEmptyDirectory.

Lemma filepath_inj p q : okpath p → okpath q → filepath p = filepath q → p = q.
Proof. intros [Hp _] [Hq _] He. rewrite <-(components_abs p Hp), <-(components_abs q Hq). by f_equal. Qed.

Lemma on_names_run {A} (m : St DirMap A) r a names :
  m (file_names_ r) = Done (a, names) → on_names m r = Done (a, mkReader (file_objects_ r) names).
Proof. unfold on_names. by intros ->. Qed.

(** One turn of the second loop, for an entry that the tree accepts. *)
Lemma add_file_info_run off_bits start ct fp info r fs :
  32 <= off_bits → 0 <= start → str_size ct + start < 2 ^ 31 → describes ct fp info → entry_ok fp.1 fp.2 →
  repr (file_names_ r) fs → same_files r fs → (spec_op (entry_op fp) fs).1 = true →
  ∃ r', add_file_info off_bits start info r = Done (tt, r') ∧
    repr (file_names_ r') (spec_op (entry_op fp) fs).2 ∧ same_files r' (spec_op (entry_op fp) fs).2 ∧
    (in_type fp.1 = kEmptyDirectory → file_objects_ r' = file_objects_ r) ∧
    (in_type fp.1 ≠ kEmptyDirectory → file_objects_ r !! fi_filename info = None ∧
      file_objects_ r' = <[fi_filename info := metadata_of start info]> (file_objects_ r)).
Proof.
  intros Hoff Hst Hct (c & -> & _ & _ & Hc & _) (_ & _ & Hp & Hne & _) Hr Hsame Hadd. destruct fp as [f p]. cbn [fst snd] in *.
  unfold add_file_info, entry_op in *. cbn [entry_info fi_file_type fi_filename fi_offset fst snd] in *.
  assert (0 <= str_size c) by apply str_size_nonneg.
  assert (∀ x, 0 <= x < 2 ^ 31 → to_signed off_bits x = x) as Hs.
  { intros x Hx. apply to_signed_id; [lia|]. pose proof (Z.pow_le_mono_r 2 31 (off_bits - 1)). lia. }
  rewrite (Hs (str_size c)), Hs by lia. destruct (Z.eqb_spec (in_type f) kEmptyDirectory) as [Ht|Ht].
  - destruct (make_directories_op_spec _ fs p Hr Hp) as (m' & Hm & Hr'). rewrite print_filepath in Hm by done.
    rewrite (on_names_run _ r _ _ Hm). eexists. split; [done|]. cbn [spec_op snd file_names_].
    split; [done|]. split; [|done]. intros q Hq. by rewrite <-(Hsame q Hq).
  - destruct (run_op_spec (OpAddFile p REGULAR) _ fs Hr) as (m' & Hm & Hr'); [done|]. rewrite Hadd in Hm.
    cbn [spec_op] in Hadd, Hr'. cbn [spec_op].
    assert (file_objects_ r !! filepath p = None ∧ files (fs_add_file p REGULAR fs).2 = <[p := REGULAR]> (files fs)) as [Hnone Hfiles].
    { unfold fs_add_file in Hadd |- *. case_bool_decide; [done|]. cbn [fs_make_dirs files] in *.
      destruct (files fs !! p) eqn:E; [done|]. split; [|done]. apply eq_None_not_Some. rewrite (Hsame p Hp), E. by intros []. }
    rewrite (St_bind_run get _ r r r eq_refl), Hnone. cbn [bool_decide decide].
    rewrite (St_bind_run (check _) _ r tt r) by (by rewrite bool_decide_true).
    rewrite (St_bind_run (put _) _ r tt _ eq_refl).
    rewrite (St_bind_run (on_names _) _ _ true _ (on_names_run _ (mkReader _ _) _ _ Hm)).
    eexists. split; [done|]. split; [done|]. split; [|done].
    intros q Hq. cbn [file_objects_]. rewrite Hfiles. destruct (decide (p = q)) as [<-|Hpq].
    + rewrite !lookup_insert_eq. split; by eauto.
    + rewrite !lookup_insert_ne; [by apply Hsame|done|]. intros He. by apply Hpq, filepath_inj.
Qed.

Lemma add_files_run off_bits start ct fps infos r fs :
  32 <= off_bits → 0 <= start → str_size ct + start < 2 ^ 31 → Forall2 (describes ct) fps infos →
  Forall (λ fp, entry_ok fp.1 fp.2) fps → repr (file_names_ r) fs → same_files r fs →
  Forall (λ b, b = true) (spec_ops (entry_op <$> fps) fs).1 →
  ∃ r', for_each (add_file_info off_bits start) infos r = Done (tt, r') ∧
    repr (file_names_ r') (spec_ops (entry_op <$> fps) fs).2 ∧
    file_objects_ r ⊆ file_objects_ r' ∧
    (∀ info, info ∈ infos → is_file info → file_objects_ r' !! fi_filename info = Some (metadata_of start info)) ∧
    (∀ q md, file_objects_ r' !! q = Some md → file_objects_ r !! q = Some md ∨
       ∃ info, info ∈ infos ∧ is_file info ∧ q = fi_filename info).
Proof.
  intros Hoff Hst Hct Hd. revert r fs. induction Hd as [|fp info fps infos Hinfo Hd IH]; intros r fs Hok Hr Hsame Hadd.
  { exists r. split; [done|]. split; [done|]. split; [done|]. split; [set_solver|by left]. }
  inversion Hok as [|?? Hf Hfs]; subst. change (entry_op <$> fp :: fps) with (entry_op fp :: (entry_op <$> fps)) in *.
  cbn [spec_ops] in *.
  destruct (spec_op (entry_op fp) fs) as [b fs1] eqn:E1. destruct (spec_ops (entry_op <$> fps) fs1) as [bs fs2] eqn:E2.
  inversion Hadd as [|?? Hb Hbs]; subst.
  destruct (add_file_info_run off_bits start ct fp info r fs) as (r1 & Hrun & Hr1 & Hs1 & Hdir & Hfile); [done..|by rewrite E1|].
  rewrite E1 in Hr1, Hs1. cbn [snd] in Hr1, Hs1.
  specialize (IH r1 fs1). rewrite E2 in IH.
  destruct (IH Hfs Hr1 Hs1 Hbs) as (r' & Hall & Hr' & Hsub & Hin & Hfrom).
  exists r'. cbn [for_each]. run_with Hrun. split; [done|]. split; [done|].
  assert (fi_file_type info = in_type fp.1) as Hty by (by destruct Hinfo as (c & -> & _)).
  assert (file_objects_ r ⊆ file_objects_ r1) as Hsub1.
  { destruct (decide (in_type fp.1 = kEmptyDirectory)) as [Ht|Ht]; [by rewrite (Hdir Ht)|].
    destruct (Hfile Ht) as [Hn ->]. by apply insert_subseteq. }
  split; [by etrans|]. split.
  - intros i [->|Hi]%elem_of_cons Hf'; [|by apply Hin]. apply (lookup_weaken _ _ _ _ ) with (2 := Hsub).
    destruct (Hfile ltac:(by rewrite <-Hty)) as [_ ->]. by rewrite lookup_insert_eq.
  - intros q md Hq. destruct (Hfrom q md Hq) as [Hq1|(i & Hi & Hfi & ->)]; [|right; exists i; set_solver].
    destruct (decide (in_type fp.1 = kEmptyDirectory)) as [Ht|Ht]; [rewrite (Hdir Ht) in Hq1; by left|].
    destruct (Hfile Ht) as [Hn He]. rewrite He in Hq1. apply lookup_insert_Some in Hq1 as [[<- _]|[_ Hq1]]; [|by left].
    right. exists info. unfold is_file. rewrite Hty. set_solver.
Qed.
End Maps.

Lemma content_start_spec base md k :
  _pad_array md _PAGE_SIZE = md ++ k → str_size (md ++ k) < 2 ^ 31 →
  content_start base (base + str_size md) = str_size (md ++ k).
Proof.
  intros Hk Hb. pose proof (str_size_nonneg md) as H0. pose proof (str_size_nonneg k).
  pose proof Hb as Hb'. rewrite str_size_app in Hb'. unfold content_start.
  replace (base + str_size md - base) with (str_size md) by lia.
  rewrite (to_signed_id 32 (str_size md)) by lia. unfold wrap32. rewrite (Z.mod_small (str_size md)) by lia.
  assert (str_size (md ++ k) = str_size md + (if str_size md mod kNaCl64PageSize =? 0 then 0
            else kNaCl64PageSize - str_size md mod kNaCl64PageSize)) as He.
  { rewrite <-Hk. unfold _pad_array. fold (str_size md). change _PAGE_SIZE with kNaCl64PageSize.
    pose proof (Z.mod_pos_bound (str_size md) kNaCl64PageSize ltac:(done)).
    destruct (Z.eqb_spec (str_size md mod kNaCl64PageSize) 0) as [E|E], (Z.eqb_spec (kNaCl64PageSize - str_size md mod kNaCl64PageSize) kNaCl64PageSize); try lia.
    rewrite str_size_app. unfold str_size at 2. rewrite length_replicate. lia. }
  rewrite <-He, str_size_app. apply to_signed_id; lia.
Qed.

Lemma align_aligned k base : 0 <= k < 32 → 0 <= base < 2 ^ 32 → (2 ^ k | base) → AlignTo base (2 ^ k) = base.
Proof.
  intros Hk Hb [q ->]. pose proof (Z.pow_pos_nonneg 2 k ltac:(lia) ltac:(lia)) as Hp.
  assert (2 ^ 32 = 2 ^ (32 - k) * 2 ^ k) as E by (rewrite <-Z.pow_add_r by lia; f_equal; lia).
  assert (q < 2 ^ (32 - k)) as Hq by (rewrite E in Hb; apply (Z.mul_lt_mono_pos_r (2 ^ k)); [done|apply Hb]).
  rewrite align_to_eq; [|lia|lia|].
  - f_equal. symmetry. apply Z.div_unique with (2 ^ k - 1); lia.
  - rewrite E. nia.
Qed.

Section ImageProperties.
Context `{BaseStringsSpec}.

(** The reader knows exactly the inputs, and where their contents are in the image. *)
Record reader_holds (image : str) (fps : list (input * list str)) (r : ReadonlyFsReader) : Prop := {
  rh_names : repr (file_names_ r) (spec_ops (entry_op <$> fps) fs_empty).2;
  rh_found : ∀ f p, (f, p) ∈ fps → in_type f ≠ kEmptyDirectory →
    ∃ off, GetMetadata (filepath p) r =
             Some (mkMetadata off (in_size f) (in_mtime f) (in_type f) (default [] (in_link_target f))) ∧
           (_PAGE_SIZE | off) ∧ 0 <= off ∧ off + in_size f <= str_size image ∧
           content_at image off (in_size f) = if in_type f =? kRegularFile then in_data f else [];
  rh_known : ∀ q md, GetMetadata q r = Some md →
    ∃ f p, (f, p) ∈ fps ∧ in_type f ≠ kEmptyDirectory ∧ q = filepath p;
}.

(** The inputs fit in an image, with distinct names. *)
Definition inputs_ok (fps : list (input * list str)) : Prop :=
  image_bound fps <= 2 ^ 31 ∧ Forall (λ fp, entry_ok fp.1 fp.2) fps ∧
  Forall (λ b, b = true) (spec_ops (entry_op <$> fps) fs_empty).1.

#[export] Instance inputs_ok_dec fps : Decision (inputs_ok fps).
Proof. unfold inputs_ok. apply _. Defined.

Lemma image_reads_back time_bits off_bits k base fps :
  32 <= time_bits → 32 <= off_bits → 2 <= k < 32 → 0 <= base → (2 ^ k | base) →
  base + image_bound fps <= 2 ^ 32 → inputs_ok fps →
  ∃ image r, _generate_readonly_image (fst <$> fps) = Done image ∧ str_size image < image_bound fps ∧
    ReadonlyFsReader_new (2 ^ k) time_bits off_bits base image = Done r ∧ reader_holds image fps r.
Proof.
  intros Htb Hob Hk Hb0 Hbk Hb32 (Hb31 & Hok & Hadd). set (n := Z.of_nat (List.length fps)).
  assert (∀ l : list (input * list str), Z.of_nat (List.length l) + 4 + _PAGE_SIZE <= image_bound l) as Hlen.
  { induction l as [|[f p] l IHl]; cbn [image_bound List.length]; unfold _PAGE_SIZE, str_size in *; lia. }
  pose proof (Hlen fps) as Hn. fold n in Hn. assert (0 < _PAGE_SIZE) by done.
  destruct (pack_done n ltac:(lia)) as [hd Hhd]. pose proof (pack_size _ _ Hhd) as Hhd4.
  assert (str_size [] = 0) as Hnil by done.
  destruct (update_all_spec time_bits fps hd [] Htb Hok) as (md & ct & infos & Hall & Hpm & _ & Hsize & Hread & Hdesc);
    [intros _; by exists 0|lia|].
  destruct (pad_content md) as (j & Hpad & [c Hc] & Hpads). rewrite Hpad in Hc, Hpads.
  set (image := (md ++ replicate j NUL) ++ ct). exists image.
  assert (4 | base) as Hb4.
  { etrans; [|exact Hbk]. exists (2 ^ (k - 2)). change 4 with (2 ^ 2). rewrite <-Z.pow_add_r by lia. f_equal. lia. }
  assert (base + str_size image <= 2 ^ 32) as Hfits by (unfold image; rewrite str_size_app; lia).
  assert (content_start base (base + str_size md) = str_size (md ++ replicate j NUL)) as Hstart
    by (apply content_start_spec; [done|pose proof (str_size_nonneg ct); lia]).
  destruct (clear_spec ∅) as (names & Hclear & Hnames).
  destruct (add_files_run off_bits (str_size (md ++ replicate j NUL)) ct fps infos (mkReader ∅ names) fs_empty)
    as (r & Hrun & Hr & _ & Hin & Hfrom);
    [done|apply str_size_nonneg|lia|done|done|done| |done|].
  { intros p _. cbn [file_objects_ files fs_empty]. by rewrite !lookup_empty. }
  assert (str_size image < image_bound fps) as Hle by (unfold image; rewrite str_size_app; lia).
  exists r. split; [|split; [done|split; [|split; [done| |]]]].
  - unfold _generate_readonly_image. rewrite length_fmap. fold n. rewrite Hhd, done_bind.
    change (_pad_array [] 4) with ([] : str). cbn [app]. rewrite Hall, done_bind, Hpad. done.
  - unfold ReadonlyFsReader_new. rewrite Hclear, done_bind. cbn [snd]. unfold ParseImage, GetPageSize.
    rewrite align_aligned, Z.eqb_refl by (done || lia).
    rewrite (St_bind_run (check true) _ _ tt _ eq_refl).
    destruct Hpm as [tl Htl].
    assert (ReadUInt32BE base image base = Done (n, base + str_size hd)) as Hnum.
    { rewrite <-(Z.add_0_r base) at 2. rewrite <-Hnil.
      apply (read_uint_aligned base image Hb4 Hb0 Hfits n hd [] (tl ++ replicate j NUL ++ ct)); [done|lia|by exists 0|].
      unfold image. rewrite Htl, <-!app_assoc. done. }
    rewrite (St_bind_run _ _ _ (n, base + str_size hd) (mkReader ∅ names)) by (unfold lift; by rewrite Hnum).
    rewrite (St_bind_run _ _ _ (infos, base + str_size md) (mkReader ∅ names)).
    2: { unfold lift. subst n. rewrite Nat2Z.id, Hread; [done..|]. unfold image. rewrite <-app_assoc. by apply prefix_app_r. }
    rewrite Hstart, Hrun. done.
  - intros f p Hfp Hdir. apply list_elem_of_lookup in Hfp as [i Hi].
    destruct (Forall2_lookup_l _ _ _ _ _ Hdesc Hi) as (info & Hinfo & c' & -> & [o Ho] & Hin' & Hc' & Hat).
    exists (str_size c' + str_size (md ++ replicate j NUL)). cbn [fst snd] in *.
    pose proof (str_size_nonneg c'). pose proof (str_size_nonneg (md ++ replicate j NUL)).
    split; [|split; [|split; [lia|split]]].
    + apply list_elem_of_lookup_2 in Hinfo. by apply (Hin _ Hinfo).
    + rewrite Ho, Hc. exists (o + c). lia.
    + unfold image. rewrite (str_size_app (md ++ _)). pose proof (in_size_bounds f).
      destruct (Z.ltb_spec 0 (in_size f)) as [Hp|Hp]; [specialize (Hin' Hp)|]; lia.
    + rewrite <-Hat. unfold content_at, image. f_equal.
      rewrite Z.add_comm, Z2Nat.inj_add by done.
      by rewrite to_nat_size, <-drop_drop, drop_app_length.
  - intros q m Hq. destruct (Hfrom q m Hq) as [Hno|(info & Hi & Hf & ->)]; [done|].
    apply list_elem_of_lookup in Hi as [i Hi].
    destruct (Forall2_lookup_r _ _ _ _ _ Hdesc Hi) as ([f p] & Hfp & c' & -> & _).
    exists f, p. split; [by eapply list_elem_of_lookup_2|done].
Qed.

(** C13.  The image that create_readonly_fs_image.py writes is what the reader reads.
    For inputs that the format can hold, with distinct names, that fit in 2 GB, mapped
    at any page: the script succeeds, the reader parses the image without tripping an
    assertion, every file and link is found under its name with its size, time, type
    and target, at an offset that is a multiple of 64k where the image has just the
    file's contents, nothing else is found, and the tree of names is that of the
    inputs, with the empty directories.  *)
Theorem image_written_and_read time_bits off_bits k base fps :
  32 <= time_bits → 32 <= off_bits → 2 <= k < 32 → 0 <= base → (2 ^ k | base) →
  base + image_bound fps <= 2 ^ 32 → inputs_ok fps →
  ∃ image r, _generate_readonly_image (fst <$> fps) = Done image ∧
    ReadonlyFsReader_new (2 ^ k) time_bits off_bits base image = Done r ∧
    repr (file_names_ r) (spec_ops (entry_op <$> fps) fs_empty).2 ∧
    (∀ f p, (f, p) ∈ fps → in_type f ≠ kEmptyDirectory →
       ∃ off, GetMetadata (filepath p) r =
                Some (mkMetadata off (in_size f) (in_mtime f) (in_type f) (default [] (in_link_target f))) ∧
              (_PAGE_SIZE | off) ∧
              content_at image off (in_size f) = if in_type f =? kRegularFile then in_data f else []) ∧
    (∀ q md, GetMetadata q r = Some md → ∃ f p, (f, p) ∈ fps ∧ in_type f ≠ kEmptyDirectory ∧ q = filepath p).
Proof.
  intros Htb Hob Hk Hb Hbk Hfit Hok.
  destruct (image_reads_back time_bits off_bits k base fps) as (image & r & Hw & _ & Hr & Hh); [done..|].
  exists image, r. split; [done|]. split; [done|]. split; [apply (rh_names _ _ _ Hh)|]. split.
  - intros f p Hfp Hdir. destruct (rh_found _ _ _ Hh f p Hfp Hdir) as (off & ? & ? & _ & _ & ?). by exists off.
  - apply (rh_known _ _ _ Hh).
Qed.
End ImageProperties.

(** ** Witness *)

Section ImageWitness.
Import Reference.

Definition small_inputs : list (input * list str) :=
  [(mkInput (lit "out/target/x/root/etc/hosts") kRegularFile None 1400000000 (lit "127.0.0.1 localhost"),
    [lit "etc"; lit "hosts"]);
   (mkInput (lit "./vendor/empty") kRegularFile None 1 [], [lit "vendor"; lit "empty"]);
   (mkInput (lit "/etc/link") kSymbolicLink (Some (lit "hosts")) 7 [], [lit "etc"; lit "link"]);
   (mkInput (lit "/cache") kEmptyDirectory None 0 [], [lit "cache"])].

Lemma image_written_and_read_witness :
  ∃ image r off, _generate_readonly_image (fst <$> small_inputs) = Done image ∧
    ReadonlyFsReader_new 4096 32 32 1048576 image = Done r ∧
    GetMetadata (lit "/etc/hosts") r = Some (mkMetadata off 19 1400000000 kRegularFile []) ∧
    content_at image off 19 = lit "127.0.0.1 localhost" ∧
    GetMetadata (lit "/cache") r = None.
Proof.
  destruct (image_written_and_read 32 32 12 1048576 small_inputs) as (image & r & Hw & Hr & _ & Hin & Hfrom);
    [lia|lia|lia|lia|by exists 256|vm_compute; discriminate|decided|].
  destruct (Hin _ [lit "etc"; lit "hosts"] ltac:(left) ltac:(discriminate)) as (off & Hmd & _ & Hat).
  exists image, r, off. split; [exact Hw|]. split; [exact Hr|]. split; [exact Hmd|]. split; [exact Hat|].
  destruct (GetMetadata (lit "/cache") r) as [md|] eqn:E; [|reflexivity].
  exfalso. destruct (Hfrom _ _ E) as (f & p & Hfp & Hdir & Heq).
  repeat (apply elem_of_cons in Hfp as [[= -> ->]|Hfp]; [discriminate Heq || by apply Hdir|]).
  by apply not_elem_of_nil in Hfp.
Defined.
End ImageWitness.
