(* ===== verification/ReadonlyFile.v ===== *)
(** * ReadonlyFile: [readonly_file.{h,cc}] (under src/posix_translation/)

    The files of the system's image, and the handler that opens them.  All of
    them read one stream, that of the image, at their offset; [read] keeps a
    read-ahead cache.  The stream of the image is made by the handler underneath:
    an interface ([ImageStream]) with its law ([image_stream_ok]). *)

From S2P Require Import Prelude BaseStrings PathUtil Util DirectoryManager FileStream FileSystemHandler ReadonlyFsReader.

#[local] Open Scope Z_scope.

(** The calls of the image's stream; [im_fstat] gives the size and the time. *)
Record ImageStream (W : Type) : Type := mkImageStream {
  im_fstat : St W (res (Z * Z));
  im_mmap : Z → Z → Z → Z → Z → St W (res Z);
  im_mprotect : Z → Z → Z → St W (res Z);
  im_munmap : Z → Z → St W (res Z);
  im_pread : Z → Z → St W (res str);
}.
Arguments mkImageStream {W}.
Arguments im_fstat {W}.
Arguments im_mmap {W}.
Arguments im_mprotect {W}.
Arguments im_munmap {W}.
Arguments im_pread {W}.

Record ReadonlyFile : Type := mkReadonlyFile {
  rf_pathname : str;
  read_ahead_buf_max_size_ : Z;
  offset_in_image_ : Z;
  size_ : Z;
  mtime_ : Z;
  write_mapped_ : bool;
  read_ahead_buf_ : str;
  read_ahead_buf_offset_ : Z;
  rf_pos_ : Z;
}.

Definition ReadonlyFile_new (read_ahead_size : Z) (pathname : str) (file_offset file_size mtime : Z) :
    outcome ReadonlyFile :=
  require (bool_decide (pathname ≠ []));;
  mret (mkReadonlyFile pathname read_ahead_size file_offset file_size mtime false [] 0 0).

Definition set_cache (buf : str) (offset : Z) (f : ReadonlyFile) : ReadonlyFile :=
  mkReadonlyFile (rf_pathname f) (read_ahead_buf_max_size_ f) (offset_in_image_ f) (size_ f) (mtime_ f)
    (write_mapped_ f) buf offset (rf_pos_ f).

Definition set_pos (pos : Z) (f : ReadonlyFile) : ReadonlyFile :=
  mkReadonlyFile (rf_pathname f) (read_ahead_buf_max_size_ f) (offset_in_image_ f) (size_ f) (mtime_ f)
    (write_mapped_ f) (read_ahead_buf_ f) (read_ahead_buf_offset_ f) pos.

Definition set_write_mapped (b : bool) (f : ReadonlyFile) : ReadonlyFile :=
  mkReadonlyFile (rf_pathname f) (read_ahead_buf_max_size_ f) (offset_in_image_ f) (size_ f) (mtime_ f)
    b (read_ahead_buf_ f) (read_ahead_buf_offset_ f) (rf_pos_ f).

(** [std::vector<uint8_t>::resize] *)
Definition resize (n : Z) (v : str) : str :=
  take (Z.to_nat n) v ++ replicate (Z.to_nat n - List.length v) NUL.

(** What [v] is when [bs] was written at its start. *)
Definition overwrite (bs v : str) : str := bs ++ drop (List.length bs) v.

Definition PROT_READ : Z := 1.
Definition PROT_WRITE : Z := 2.
Definition MAP_PRIVATE : Z := 2.

Section File.
Context {W : Type} (image_stream : ImageStream W).
(** [StartsWithASCII(str, search, true)] of base/strings/string_util.h. *)
Context (StartsWithASCII : str → str → bool) (off_bits : Z).

Abbreviation F := (W * ReadonlyFile)%type.

Definition on_image {A} (m : St W A) : St F A := λ w,
  match m w.1 with
  | Done (a, u) => Done (a, (u, w.2))
  | Abort => Abort
  | NoFuel => NoFuel
  end.

Definition this : St F ReadonlyFile := gets snd.
Definition update (g : ReadonlyFile → ReadonlyFile) : St F unit := modify (λ w, (w.1, g w.2)).

(** [ssize_t] has 32 bits; the result is what is copied into [buf]. *)
Definition PreadImpl (count offset : Z) (can_read_ahead : bool) : St F (res str) :=
  f ← this;
  let read_max := to_signed 32 (size_ f - offset) in
  if read_max <=? 0 then mret (Ok [])
  else
    let read_size := Z.min count read_max in
    let buf_end := read_ahead_buf_offset_ f + str_size (read_ahead_buf_ f) in
    if (read_ahead_buf_offset_ f <=? offset) && (offset <? buf_end) && (offset + read_size <=? buf_end) then
      mret (Ok (content_at (read_ahead_buf_ f) (offset - read_ahead_buf_offset_ f) read_size))
    else
      let pread_offset_in_image := offset_in_image_ f + offset in
      if (read_ahead_buf_max_size_ f <=? read_size) || negb can_read_ahead then
        on_image (im_pread image_stream read_size pread_offset_in_image)
      else
        let buf := resize (read_ahead_buf_max_size_ f) (read_ahead_buf_ f) in
        update (set_cache buf (read_ahead_buf_offset_ f));;
        let read_ahead_size := Z.min (read_ahead_buf_max_size_ f) read_max in
        pread_result ← on_image (im_pread image_stream read_ahead_size pread_offset_in_image);
        match pread_result with
        | Err e =>
            (if bool_decide (e = EINTR) then update (set_cache [] (read_ahead_buf_offset_ f)) else mret tt);;
            mret (Err e)
        | Ok bs =>
            if bool_decide (bs = []) then mret (Ok [])
            else
              let buf := resize (str_size bs) (overwrite bs buf) in
              update (set_cache buf offset);;
              mret (Ok (content_at buf 0 (Z.min read_size (str_size bs))))
        end.

Definition rf_read (count : Z) : St F (res str) :=
  f ← this;
  read_size ← PreadImpl count (rf_pos_ f) true;
  (match read_size with
   | Ok bs => if 0 <? str_size bs then update (λ f, set_pos (rf_pos_ f + str_size bs) f) else mret tt
   | Err _ => mret tt
   end);;
  mret read_size.

Definition rf_pread (count offset : Z) : St F (res str) := PreadImpl count offset false.

Definition rf_write (buf : str) : St F (res Z) := mret (Err EINVAL).

(** No [whence] is any other number. *)
Definition rf_lseek (offset : Z) (whence : option Defaults.whence) : St F (res Z) :=
  f ← this;
  let move pos := update (set_pos pos);; mret (Ok pos) in
  match whence with
  | Some Defaults.SEEK_SET => move offset
  | Some Defaults.SEEK_CUR => move (rf_pos_ f + offset)
  | Some Defaults.SEEK_END => move (size_ f + offset)
  | None => mret (Err EINVAL)
  end.

Definition rf_madvise (advice : Defaults.advice) : St F (res Z) :=
  f ← this;
  mret match advice with
       | Defaults.MADV_DONTNEED => if write_mapped_ f then Err EINVAL else Ok 0
       | _ => Defaults.madvise advice
       end.

Definition in_proc (f : ReadonlyFile) : bool := StartsWithASCII (rf_pathname f) (lit "/proc/").

Definition rf_mmap (addr length prot flags offset : Z) : St F (res Z) :=
  f ← this;
  if in_proc f then mret (Err EIO)
  else
    update (set_write_mapped (write_mapped_ f || has prot PROT_WRITE));;
    on_image (im_mmap image_stream addr length prot flags (to_signed off_bits (offset + offset_in_image_ f))).

Definition rf_mprotect (addr length prot : Z) : St F (res Z) :=
  f ← this;
  update (set_write_mapped (write_mapped_ f || has prot PROT_WRITE));;
  on_image (im_mprotect image_stream addr length prot).

Definition rf_munmap (addr length : Z) : St F (res Z) := on_image (im_munmap image_stream addr length).

Definition rf_fsync : St F (res Z) := f ← this; mret (if in_proc f then Err EINVAL else Ok 0).
Definition rf_fdatasync : St F (res Z) := rf_fsync.

(** [ioctl]; FIONREAD stores an [int]. *)
Definition rf_ioctl (request_is_fionread : bool) : St F (res Z) :=
  f ← this;
  mret (if request_is_fionread then Ok (to_signed 32 (size_ f - rf_pos_ f)) else Err EINVAL).

Definition rf_GetSize : St F Z := f ← this; mret (size_ f).
Definition rf_IsSelectWriteReady : bool := false.
Definition rf_GetStreamType : str := "readonly".
End File.

(** [fstat]; the number of the inode is the stream's. *)
Definition rf_fstat (ino : Z) (f : ReadonlyFile) : outcome Stat :=
  require (bool_decide (rf_pathname f ≠ []));;
  mret (mkStat ino S_IFREG 1 0 0 (size_ f) 4096).

(** ** The handler *)

(** [underlying_handler_] is an argument of the methods. *)
Record ReadonlyFileHandler : Type := mkReadonlyFileHandler {
  image_filename_ : str;
  read_ahead_size_ : Z;
  image_reader_ : option ReadonlyFsReader;
  image_stream_ : option NewStream;
  directory_mtime_ : Z;
}.

Definition ReadonlyFileHandler_new (image_filename : str) (read_ahead_size : Z) : outcome ReadonlyFileHandler :=
  require (0 <? read_ahead_size);; mret (mkReadonlyFileHandler image_filename read_ahead_size None None 0).

(** The streams that [open] makes. *)
Inductive opened : Type :=
| OpenedDirectory (pathname : str) (mtime : Z)
| OpenedFile (f : ReadonlyFile).

Section Handler.
Context `{BaseStrings} {U : Type} (underlying_handler : option (FileSystemHandler U)).
(** The streams that the handler underneath makes, and the bytes that are mapped
    from an address on. *)
Context (stream_of : NewStream → ImageStream U) (mapped : U → Z → str).
Context (page_size time_bits off_bits : Z).
(** The inode number that the constructor of a stream gets for its path. *)
Context (inode : str → Z).

Abbreviation R := (U * ReadonlyFileHandler)%type.

Definition on_under {A} (m : St U A) : St R A := λ w,
  match m w.1 with
  | Done (a, u) => Done (a, (u, w.2))
  | Abort => Abort
  | NoFuel => NoFuel
  end.

Definition this_handler : St R ReadonlyFileHandler := gets snd.

Definition set_reader (r : option ReadonlyFsReader) (h : ReadonlyFileHandler) : ReadonlyFileHandler :=
  mkReadonlyFileHandler (image_filename_ h) (read_ahead_size_ h) r (image_stream_ h) (directory_mtime_ h).
Definition set_image_stream (s : option NewStream) (h : ReadonlyFileHandler) : ReadonlyFileHandler :=
  mkReadonlyFileHandler (image_filename_ h) (read_ahead_size_ h) (image_reader_ h) s (directory_mtime_ h).
Definition set_directory_mtime (t : Z) (h : ReadonlyFileHandler) : ReadonlyFileHandler :=
  mkReadonlyFileHandler (image_filename_ h) (read_ahead_size_ h) (image_reader_ h) (image_stream_ h) t.

Definition update_handler (g : ReadonlyFileHandler → ReadonlyFileHandler) : St R unit :=
  modify (λ w, (w.1, g w.2)).

Definition deref_option {A} (o : option A) : St R A :=
  match o with Some a => mret a | None => fatal end.

Definition ParseReadonlyFsImage : St R bool :=
  h ← this_handler;
  stream ← deref_option (image_stream_ h);
  let im := stream_of stream in
  buf ← on_under (im_fstat im);
  match buf with
  | Err _ => mret false
  | Ok (st_size, st_mtime) =>
      addr ← on_under (im_mmap im 0 st_size PROT_READ MAP_PRIVATE 0);
      match addr with
      | Err _ => mret false
      | Ok addr =>
          w ← get;
          reader ← lift (ReadonlyFsReader_new page_size time_bits off_bits addr (mapped (w : R).1 addr));
          update_handler (set_reader (Some reader));;
          unmapped ← on_under (im_munmap im addr st_size);
          match unmapped with
          | Err _ => mret false
          | Ok _ => update_handler (set_directory_mtime st_mtime);; mret true
          end
      end
  end.

Definition rfh_IsInitialized (w : R) : bool :=
  match underlying_handler with
  | None => true
  | Some u => bool_decide (is_Some (image_stream_ w.2)) && IsInitialized u w.1
  end.

Definition rfh_Initialize : St R unit :=
  w ← get;
  check (negb (rfh_IsInitialized w));;
  u ← deref_option underlying_handler;
  (if negb (IsInitialized u w.1) then on_under (Initialize u) else mret tt);;
  stream ← on_under (h_open u (-1) (image_filename_ w.2) 0 0);
  match stream with
  | Err _ => update_handler (set_image_stream None)
  | Ok s =>
      update_handler (set_image_stream (Some s));;
      parsed ← ParseReadonlyFsImage;
      check parsed
  end.

Definition reader : St R ReadonlyFsReader := h ← this_handler; deref_option (image_reader_ h).

(** [O_WRONLY | O_RDWR] *)
Definition O_WRITING : Z := 3.

Definition CreateFileLocked (pathname : str) (oflag : Z) : St R (res opened) :=
  h ← this_handler;
  r ← reader;
  match GetMetadata pathname r with
  | None => mret (Err ENOENT)
  | Some md =>
      if has oflag O_DIRECTORY then mret (Err ENOTDIR)
      else
        check (bool_decide (is_Some (image_stream_ h)));;
        f ← lift (ReadonlyFile_new (read_ahead_size_ h) pathname (md_offset md) (md_size md) (md_mtime md));
        mret (Ok (OpenedFile f))
  end.

Definition rfh_open (pathname : str) (oflag : Z) : St R (res opened) :=
  h ← this_handler;
  r ← reader;
  is_directory ← lift (IsDirectory pathname r);
  if has oflag O_WRITING then mret (Err (if (is_directory : bool) then EISDIR else EACCES))
  else if (is_directory : bool) then mret (Ok (OpenedDirectory pathname (directory_mtime_ h)))
  else CreateFileLocked pathname oflag.

Definition rfh_OnDirectoryContentsNeeded (name : str) : St R (option DirImpl) :=
  r ← reader; lift (reader_OpenDirectory name r).

Definition rfh_stat (pathname : str) : St R (res Stat) :=
  file ← rfh_open pathname 0;
  match file with
  | Err _ => mret (Err ENOENT)
  | Ok (OpenedDirectory p _) => mret (Ok (DirectoryFillStatData (inode p)))
  | Ok (OpenedFile f) => st ← lift (rf_fstat (inode (rf_pathname f)) f); mret (Ok st)
  end.

Definition exist (pathname : str) : St R bool := r ← reader; lift (Exist pathname r).

Definition rfh_statfs (pathname : str) : St R (res StatFs) :=
  e ← exist pathname;
  mret (if (e : bool) then
          if starts_with pathname (lit "/proc") then DoStatFsForProc else DoStatFsForSystem
        else Err ENOENT).

Definition rfh_mkdir (pathname : str) (mode : Z) : St R (res Z) :=
  e ← exist pathname; mret (Err (if (e : bool) then EEXIST else EACCES)).

Definition rfh_rename (oldpath newpath : str) : St R (res Z) :=
  e ← exist oldpath;
  mret (if negb e || bool_decide (newpath = []) then Err ENOENT
        else if bool_decide (oldpath = newpath) then Ok 0 else Err EACCES).

(** [truncate] and [unlink]. *)
Definition rfh_change (pathname : str) : St R (res Z) :=
  e ← exist pathname; mret (Err (if (e : bool) then EACCES else ENOENT)).

Definition rfh_utimes (pathname : str) : St R (res Z) := mret (Err EROFS).

Definition rfh_readlink (pathname : str) : St R (res str) :=
  h ← this_handler;
  mret match image_reader_ h with
       | Some r =>
           match GetMetadata pathname r with
           | Some md => if md_file_type md =? kSymbolicLink then Ok (md_link_target md) else Err EINVAL
           | None => Err EINVAL
           end
       | None => Err EINVAL
       end.

(** What the virtual file system is told of a stream. *)
Definition as_new_stream (oflag : Z) (o : opened) : NewStream :=
  match o with
  | OpenedDirectory p _ => DirectoryFileStream (lit "readonly") p
  | OpenedFile f => mkNewStream oflag (rf_pathname f) rf_GetStreamType
  end.

Definition readonly_handler : FileSystemHandler R :=
  mkHandler rfh_IsInitialized rfh_Initialize Base.OnMounted Base.OnUnmounted Base.InvalidateCache
    (Base.IsWorldWritable rfh_stat) rfh_mkdir
    (λ _ p oflag _, r ← rfh_open p oflag;
       mret match r with Ok o => Ok (as_new_stream oflag o) | Err e => Err e end)
    rfh_OnDirectoryContentsNeeded rfh_readlink Base.remove rfh_rename Base.rmdir rfh_stat rfh_statfs
    Base.symlink (λ p _, rfh_change p) rfh_change (λ p _, rfh_utimes p).
End Handler.

(* -------------------------------------------------------------------- *)
(** * The law of the image's stream, and what a read gives *)

(** [pread] of the image: some of the bytes there, at least one when there is one,
    or an interruption; all of them when it is [exact]. *)
Definition image_stream_ok {W} (exact : bool) (image : str) (im : ImageStream W) : Prop :=
  ∀ count offset w, 0 <= count → 0 <= offset →
    ∃ r w', im_pread im count offset w = Done (r, w') ∧
      match r with
      | Ok bs => bs `prefix_of` content_at image offset count ∧
                 (0 < count → offset < str_size image → bs ≠ []) ∧
                 (exact = true → bs = content_at image offset count)
      | Err e => exact = false ∧ e = EINTR
      end.

(** What [count] bytes from [offset] on of a file with this content may give. *)
Definition read_result (exact : bool) (content : str) (count offset : Z) (r : res str) : Prop :=
  if str_size content <=? offset then r = Ok []
  else
    match r with
    | Ok bs => bs `prefix_of` content_at content offset count ∧ (0 < count → bs ≠ []) ∧
               (exact = true → bs = content_at content offset count)
    | Err e => exact = false ∧ e = EINTR
    end.

(** The file's bytes in the image. *)
Definition contents (image : str) (f : ReadonlyFile) : str := content_at image (offset_in_image_ f) (size_ f).

(** The file lies in the image, and what the cache has is right. *)
Record file_ok (image : str) (f : ReadonlyFile) : Prop := {
  fo_offset : 0 <= offset_in_image_ f;
  fo_size : 0 <= size_ f < 2 ^ 31;
  fo_in : offset_in_image_ f + size_ f <= str_size image;
  fo_max : 0 < read_ahead_buf_max_size_ f;
  fo_cache_start : 0 <= read_ahead_buf_offset_ f;
  fo_cache_end : read_ahead_buf_ f ≠ [] → read_ahead_buf_offset_ f + str_size (read_ahead_buf_ f) <= size_ f;
  fo_cache : read_ahead_buf_ f =
    content_at image (offset_in_image_ f + read_ahead_buf_offset_ f) (str_size (read_ahead_buf_ f));
}.

(** The files differ by their cache at most. *)
Definition same_but_cache (f f' : ReadonlyFile) : Prop :=
  f' = set_cache (read_ahead_buf_ f') (read_ahead_buf_offset_ f') f.

(** * Proofs *)

Lemma content_at_size s o n :
  0 <= o → 0 <= n → o + n <= str_size s → str_size (content_at s o n) = n.
Proof. intros Ho Hn Hs. unfold content_at, str_size in *. rewrite length_take, length_drop. lia. Qed.

(** A part of a part. *)
Lemma content_at_at s o n o' n' :
  0 <= o → 0 <= o' → content_at (content_at s o n) o' n' = content_at s (o + o') (Z.min n' (n - o')).
Proof.
  intros Ho Ho'. unfold content_at. rewrite skipn_firstn_comm, drop_drop, firstn_firstn.
  f_equal; [lia|]. f_equal. lia.
Qed.

Lemma content_at_nonempty s o n : 0 < n → 0 <= o < str_size s → content_at s o n ≠ [].
Proof.
  intros Hn Ho He. apply (f_equal List.length) in He. unfold content_at, str_size in *.
  rewrite length_take, length_drop in He. simpl in He. lia.
Qed.

Lemma content_at_prefix s o n m : n <= m → content_at s o n `prefix_of` content_at s o m.
Proof.
  intros Hn. unfold content_at. replace (Z.to_nat n) with (Z.to_nat n `min` Z.to_nat m)%nat by lia.
  rewrite <-firstn_firstn. apply prefix_take.
Qed.

Lemma prefix_content_at bs s o n : bs `prefix_of` content_at s o n → bs = content_at s o (str_size bs) ∧ str_size bs <= Z.max 0 n.
Proof.
  intros [t Ht]. assert (bs = take (List.length bs) (content_at s o n)) as Hb by (by rewrite Ht, take_app_length).
  assert (List.length bs ≤ Z.to_nat n)%nat as Hl.
  { apply (f_equal List.length) in Ht. rewrite length_app in Ht. unfold content_at in Ht. rewrite length_take in Ht. lia. }
  split; [|unfold str_size; lia]. rewrite Hb at 1. unfold content_at. rewrite firstn_firstn, to_nat_size. by rewrite Nat.min_l.
Qed.

Lemma resize_overwrite bs v : resize (str_size bs) (overwrite bs v) = bs.
Proof.
  unfold resize, overwrite. rewrite to_nat_size, take_app_length, length_app.
  replace (List.length bs - (List.length bs + List.length (drop (List.length bs) v)))%nat with O by lia.
  by rewrite app_nil_r.
Qed.

Lemma on_image_run {W A} (m : St W A) (w : W * ReadonlyFile) a u :
  m w.1 = Done (a, u) → on_image m w = Done (a, (u, w.2)).
Proof. unfold on_image. by intros ->. Qed.

Section Reads.
Context {W : Type} (im : ImageStream W) (exact : bool) (image : str).
Context (im_ok : image_stream_ok exact image im).

Lemma same_but_cache_refl f : same_but_cache f f.
Proof. by destruct f. Qed.

(** Reading from the image itself, at a place in the file. *)
Lemma image_read f w count off :
  file_ok image f → 0 <= count → 0 <= off < size_ f → count <= size_ f - off →
  ∃ r w', im_pread im count (offset_in_image_ f + off) w = Done (r, w') ∧
    match r with
    | Ok bs => bs `prefix_of` content_at image (offset_in_image_ f + off) count ∧ (0 < count → bs ≠ []) ∧
               (exact = true → bs = content_at image (offset_in_image_ f + off) count)
    | Err e => exact = false ∧ e = EINTR
    end.
Proof.
  intros Hok Hc Ho Hle. pose proof (fo_offset _ _ Hok). pose proof (fo_in _ _ Hok).
  destruct (im_ok count (offset_in_image_ f + off) w) as (r & w' & Hr & Hp); [lia..|].
  exists r, w'. split; [done|]. destruct r as [e|bs]; [done|]. destruct Hp as (Hp & Hne & Hx).
  split; [done|]. split; [|done]. intros Hpos. apply Hne; lia.
Qed.

(** [PreadImpl], cached or not. *)
Lemma pread_impl_spec f w count off ra :
  file_ok image f → 0 <= count → 0 <= off → off - size_ f <= 2 ^ 31 →
  ∃ r w' f', PreadImpl im count off ra (w, f) = Done (r, (w', f')) ∧
    file_ok image f' ∧ same_but_cache f f' ∧ read_result exact (contents image f) count off r.
Proof.
  intros Hok Hc Ho Hfar. destruct (Hok) as [Hoff Hsz Hin Hmax Hcs Hce Hcache].
  assert (str_size (contents image f) = size_ f) as Hcont by (apply content_at_size; lia).
  unfold PreadImpl. rewrite (St_bind_run this _ (w, f) f (w, f) eq_refl). cbv zeta. unfold read_result. rewrite Hcont.
  rewrite to_signed_id by lia.
  destruct (Z.leb_spec (size_ f - off) 0) as [Hend|Hend].
  { exists (Ok []), w, f. rewrite (proj2 (Z.leb_le _ _)) by lia. split; [done|]. split; [done|]. split; [apply same_but_cache_refl|done]. }
  rewrite (proj2 (Z.leb_gt (size_ f) off)) by lia.
  set (n := Z.min count (size_ f - off)).
  assert (content_at (contents image f) off count = content_at image (offset_in_image_ f + off) n) as Hwhole
    by (unfold contents; rewrite content_at_at by lia; done).
  rewrite Hwhole.
  destruct (_ && _ && _) eqn:Ehit.
  { apply andb_true_iff in Ehit as [[H1%Z.leb_le H2%Z.ltb_lt]%andb_true_iff H3%Z.leb_le].
    exists (Ok (content_at image (offset_in_image_ f + off) n)), w, f. split.
    - rewrite Hcache, content_at_at by lia. unfold mret, St_ret. do 3 f_equal. f_equal; lia.
    - split; [done|]. split; [apply same_but_cache_refl|]. split; [done|]. split; [|done].
      intros Hpos. apply content_at_nonempty; lia. }
  destruct ((read_ahead_buf_max_size_ f <=? n) || negb ra) eqn:Edirect.
  { destruct (image_read f w n off Hok) as (r & w' & Hr & Hp); [lia..|].
    exists r, w', f. split; [by rewrite (on_image_run _ (w, f) r w')|]. split; [done|]. split; [apply same_but_cache_refl|].
    destruct r as [e|bs]; [done|]. destruct Hp as (? & Hne & ?). split; [done|]. split; [|done]. intros Hpos. apply Hne. lia. }
  apply orb_false_iff in Edirect as [Hsmall%Z.leb_gt _].
  set (buf := resize _ _). set (m := Z.min (read_ahead_buf_max_size_ f) (size_ f - off)).
  rewrite (St_bind_run (update _) _ (w, f) tt (w, set_cache buf (read_ahead_buf_offset_ f) f) eq_refl).
  destruct (image_read f w m off Hok) as (r & w' & Hr & Hp); [lia..|].
  rewrite (St_bind_run (on_image _) _ (w, set_cache buf (read_ahead_buf_offset_ f) f) r
             (w', set_cache buf (read_ahead_buf_offset_ f) f)) by (by rewrite (on_image_run _ (w, _) r w')).
  destruct r as [e|bs].
  - destruct Hp as [Hx ->]. rewrite bool_decide_true by done.
    exists (Err EINTR), w', (set_cache [] (read_ahead_buf_offset_ f) f). split; [done|]. split; [|split; [done|done]].
    split; cbn; [lia..|done|done].
  - destruct Hp as (Hpre & Hne & Hx). rewrite bool_decide_false by (apply Hne; lia).
    rewrite resize_overwrite. destruct (prefix_content_at _ _ _ _ Hpre) as [Hbs Hle].
    exists (Ok (content_at bs 0 (Z.min n (str_size bs)))), w', (set_cache bs off f).
    split; [done|]. split; [|split; [done|]].
    { split; cbn; [lia..|done]. }
    assert (content_at bs 0 (Z.min n (str_size bs)) = content_at image (offset_in_image_ f + off) (Z.min n (str_size bs))) as Hgive.
    { rewrite Hbs at 1. rewrite content_at_at, Z.add_0_r by lia. f_equal. lia. }
    rewrite Hgive. pose proof (Hne ltac:(lia)) as Hbne.
    assert (0 < str_size bs) by (destruct bs; [done|unfold str_size; simpl; lia]).
    split; [|split].
    + apply content_at_prefix. lia.
    + intros Hpos. apply content_at_nonempty; lia.
    + intros He. specialize (Hx He).
      assert (str_size bs = m) as -> by (rewrite Hx; apply content_at_size; lia). f_equal. lia.
Qed.
End Reads.
