(* ===== verification/ReadonlyFileProperties.v ===== *)
(** * ReadonlyFileProperties: the theorems on the files of the image

    Reading a file through the cache is reading its bytes, whatever the order of
    reads and seeks; a failed read-ahead is the exception. *)

From S2P Require Import Prelude BaseStrings PathUtil Util DirectoryManager FileStream FileSystemHandler ReadonlyFsReader ReadonlyFile.

#[local] Open Scope Z_scope.

(** ** Sequences of calls *)

Inductive file_op : Type :=
| OpRead (count : Z)
| OpPread (count offset : Z)
| OpSeek (offset : Z) (whence : option Defaults.whence).

Definition run_file_op {W} (im : ImageStream W) (o : file_op) : St (W * ReadonlyFile) (res str + res Z) :=
  match o with
  | OpRead n => r ← rf_read im n; mret (inl r)
  | OpPread n off => r ← rf_pread im n off; mret (inl r)
  | OpSeek off wh => r ← rf_lseek off wh; mret (inr r)
  end.

Fixpoint run_file_ops {W} (im : ImageStream W) (os : list file_op) :
    St (W * ReadonlyFile) (list (res str + res Z)) :=
  match os with
  | [] => mret []
  | o :: os => r ← run_file_op im o; rs ← run_file_ops im os; mret (r :: rs)
  end.

(** A plain file: its bytes and a position. *)
Definition plain_op (content : str) (o : file_op) (pos : Z) : (res str + res Z) * Z :=
  match o with
  | OpRead n => let bs := content_at content pos n in (inl (Ok bs), pos + str_size bs)
  | OpPread n off => (inl (Ok (content_at content off n)), pos)
  | OpSeek off (Some Defaults.SEEK_SET) => (inr (Ok off), off)
  | OpSeek off (Some Defaults.SEEK_CUR) => (inr (Ok (pos + off)), pos + off)
  | OpSeek off (Some Defaults.SEEK_END) => (inr (Ok (str_size content + off)), str_size content + off)
  | OpSeek off None => (inr (Err EINVAL), pos)
  end.

Fixpoint plain_ops (content : str) (os : list file_op) (pos : Z) : list (res str + res Z) * Z :=
  match os with
  | [] => ([], pos)
  | o :: os =>
      let '(r, pos) := plain_op content o pos in
      let '(rs, pos) := plain_ops content os pos in (r :: rs, pos)
  end.

(** A place from which reads are asked: not before the file, and not 2 GB behind it. *)
Definition place_ok (content : str) (pos : Z) : bool := (0 <=? pos) && (pos - str_size content <=? 2 ^ 31).

Definition op_in_range (content : str) (o : file_op) (pos : Z) : bool :=
  match o with
  | OpRead n => (0 <=? n) && place_ok content pos
  | OpPread n off => (0 <=? n) && place_ok content off
  | OpSeek _ _ => true
  end.

Fixpoint ops_in_range (content : str) (os : list file_op) (pos : Z) : bool :=
  match os with
  | [] => true
  | o :: os => op_in_range content o pos && ops_in_range content os (plain_op content o pos).2
  end.

(** Successive reads. *)
Fixpoint run_reads {W} (im : ImageStream W) (counts : list Z) : St (W * ReadonlyFile) (list (res str)) :=
  match counts with
  | [] => mret []
  | n :: counts => r ← rf_read im n; rs ← run_reads im counts; mret (r :: rs)
  end.

Definition bytes_of (r : res str) : str := match r with Ok bs => bs | Err _ => [] end.

(** What all of them gave. *)
Definition bytes_read (rs : list (res str)) : str := List.concat (bytes_of <$> rs).

(** How many were not interrupted. *)
Definition completed (rs : list (res str)) : nat := List.length (List.filter is_ok rs).

(** ** Proofs *)

Lemma content_at_none s o n : 0 <= o → str_size s <= o → content_at s o n = [].
Proof. intros Ho Hs. unfold content_at, str_size in *. rewrite drop_ge by lia. by rewrite take_nil. Qed.

Lemma content_at_join s o n m :
  0 <= o → 0 <= n → 0 <= m → o + n <= str_size s → content_at s o n ++ content_at s (o + n) m = content_at s o (n + m).
Proof.
  intros Ho Hn Hm Hs. unfold content_at. rewrite !Z2Nat.inj_add by done. rewrite <-drop_drop. apply take_take_drop.
Qed.

Lemma file_ok_set_pos image f pos : file_ok image f → file_ok image (set_pos pos f).
Proof. by intros []. Qed.

Section Files.
Context {W : Type} (im : ImageStream W) (exact : bool) (image : str).
Context (im_ok : image_stream_ok exact image im).

Lemma same_cache_contents f f' : same_but_cache f f' → contents image f' = contents image f ∧ rf_pos_ f' = rf_pos_ f.
Proof. by intros ->. Qed.

Lemma contents_size f : file_ok image f → str_size (contents image f) = size_ f.
Proof. intros []. apply content_at_size; lia. Qed.

Lemma read_step f w n :
  file_ok image f → 0 <= n → place_ok (contents image f) (rf_pos_ f) = true →
  ∃ r w' f', rf_read im n (w, f) = Done (r, (w', f')) ∧ file_ok image f' ∧
    contents image f' = contents image f ∧ rf_pos_ f' = rf_pos_ f + str_size (bytes_of r) ∧
    read_result exact (contents image f) n (rf_pos_ f) r.
Proof.
  intros Hok Hn [H0%Z.leb_le Hfar%Z.leb_le]%andb_true_iff. rewrite contents_size in Hfar by done.
  destruct (pread_impl_spec im exact image im_ok f w n (rf_pos_ f) true Hok Hn H0 Hfar)
    as (r & w' & f' & Hrun & Hok' & Hsame & Hres).
  destruct (same_cache_contents f f' Hsame) as [Hc Hp].
  exists r, w', (set_pos (rf_pos_ f + str_size (bytes_of r)) f').
  split; [|split; [by apply file_ok_set_pos|split; [done|split; [done|done]]]].
  unfold rf_read. rewrite (St_bind_run this _ (w, f) f (w, f) eq_refl). run_with Hrun.
  destruct r as [e|bs]; cbn [bytes_of].
  - change (str_size []) with 0. rewrite Z.add_0_r, <-Hp. by destruct f'.
  - destruct (Z.ltb_spec 0 (str_size bs)) as [Hl|Hl].
    + rewrite (St_bind_run (update (λ f, set_pos (rf_pos_ f + str_size bs) f)) _ (w', f') tt
                 (w', set_pos (rf_pos_ f' + str_size bs) f') eq_refl). by rewrite Hp.
    + assert (bs = []) as -> by (destruct bs; [done|unfold str_size in Hl; simpl in Hl; lia]).
      change (str_size []) with 0. rewrite Z.add_0_r, <-Hp. by destruct f'.
Qed.

Lemma exact_result content n pos r :
  exact = true → 0 <= pos → read_result exact content n pos r → r = Ok (content_at content pos n).
Proof.
  unfold read_result. intros Hx Hp. destruct (Z.leb_spec (str_size content) pos) as [Hl|Hl].
  - intros ->. by rewrite content_at_none.
  - destruct r as [e|bs]; [intros [? _]; congruence|]. intros (_ & _ & Hb). by rewrite Hb.
Qed.

Lemma run_file_op_plain f w o :
  exact = true → file_ok image f → op_in_range (contents image f) o (rf_pos_ f) = true →
  ∃ w' f', run_file_op im o (w, f) = Done ((plain_op (contents image f) o (rf_pos_ f)).1, (w', f')) ∧
    file_ok image f' ∧ contents image f' = contents image f ∧
    rf_pos_ f' = (plain_op (contents image f) o (rf_pos_ f)).2.
Proof.
  intros Hx Hok. destruct o as [n|n off|off wh]; cbn [op_in_range run_file_op plain_op].
  - intros [Hn%Z.leb_le Hp]%andb_true_iff.
    destruct (read_step f w n Hok Hn Hp) as (r & w' & f' & Hrun & Hok' & Hc & Hpos & Hres).
    apply andb_true_iff in Hp as [H0%Z.leb_le _]. apply exact_result in Hres as ->; [|done..].
    exists w', f'. run_with Hrun. done.
  - intros [Hn%Z.leb_le [H0%Z.leb_le Hfar%Z.leb_le]%andb_true_iff]%andb_true_iff.
    rewrite contents_size in Hfar by done.
    destruct (pread_impl_spec im exact image im_ok f w n off false Hok Hn H0 Hfar)
      as (r & w' & f' & Hrun & Hok' & Hsame & Hres).
    destruct (same_cache_contents f f' Hsame) as [Hc Hp]. apply exact_result in Hres as ->; [|done..].
    exists w', f'. unfold rf_pread. run_with Hrun. done.
  - intros _. exists w. pose proof (contents_size f Hok) as Hs.
    rewrite ?Hs.
    destruct wh as [[]|]; (eexists; split; [reflexivity|]); cbn [fst snd]; try done;
      (split; [by apply file_ok_set_pos|done]).
Qed.
End Files.

Section FileProperties.
Context {W : Type} (im : ImageStream W) (exact : bool) (image : str).

(** C14.  The read-ahead cache cannot be seen.  Over an image whose [pread] gives all the
    bytes that are there, any sequence of [read], [pread] and [lseek] on a file of the
    image, at positions that are not before the file nor 2 GB behind it, gives what
    the same calls give on a plain file with the file's bytes and a position: never a
    byte of the next file, nor of another time.  *)
Theorem readonly_file_is_plain f w os :
  image_stream_ok true image im → file_ok image f → ops_in_range (contents image f) os (rf_pos_ f) = true →
  ∃ w' f', run_file_ops im os (w, f) = Done ((plain_ops (contents image f) os (rf_pos_ f)).1, (w', f')) ∧
    file_ok image f' ∧ contents image f' = contents image f ∧
    rf_pos_ f' = (plain_ops (contents image f) os (rf_pos_ f)).2.
Proof.
  intros Him. revert f w. induction os as [|o os IH]; intros f w Hok Hr; [by exists w, f|].
  cbn [ops_in_range] in Hr. apply andb_true_iff in Hr as [Ho Hos].
  destruct (run_file_op_plain im true image Him f w o eq_refl Hok Ho) as (w1 & f1 & Hrun & Hok1 & Hc1 & Hp1).
  rewrite <-Hp1 in Hos. rewrite <-Hc1 in Hos. destruct (IH f1 w1 Hok1 Hos) as (w' & f' & Hall & Hok' & Hc & Hp).
  exists w', f'. cbn [run_file_ops plain_ops]. run_with Hrun. run_with Hall.
  rewrite Hc1, Hp1 in *. destruct (plain_op _ o _) as [r pos]. cbn [fst snd] in *.
  destruct (plain_ops _ os pos) as [rs pos']. split; [done|]. split; [done|]. split; [congruence|done].
Qed.

(** C35.  A reader gets to the end.  Over an image whose [pread] may give fewer bytes than
    asked, or be interrupted, successive reads of at least one byte give, one after
    the other, the bytes of the file from the position on, nothing else and nothing
    twice; and as soon as as many reads as there are bytes left were not interrupted,
    they have given all of them.  *)
Theorem reads_reach_the_end f w counts :
  image_stream_ok exact image im → file_ok image f → 0 <= rf_pos_ f <= size_ f → Forall (λ n, 0 < n) counts →
  ∃ rs w' f', run_reads im counts (w, f) = Done (rs, (w', f')) ∧ List.length rs = List.length counts ∧
    bytes_read rs = content_at (contents image f) (rf_pos_ f) (str_size (bytes_read rs)) ∧
    rf_pos_ f' = rf_pos_ f + str_size (bytes_read rs) ∧ rf_pos_ f' <= size_ f ∧
    (size_ f - rf_pos_ f <= Z.of_nat (completed rs) →
       bytes_read rs = content_at (contents image f) (rf_pos_ f) (size_ f - rf_pos_ f)).
Proof.
  intros Him. revert f w. induction counts as [|n counts IH]; intros f w Hok Hpos Hn.
  { exists [], w, f. split; [done|]. split; [done|]. split; [done|].
    change (str_size (bytes_read [])) with 0. change (completed []) with O. split; [lia|]. split; [lia|].
    intros Hc. by rewrite content_at_zero by lia. }
  inversion Hn as [|?? Hn1 Hns]; subst. pose proof (contents_size image f Hok) as Hs.
  destruct (read_step im exact image Him f w n Hok) as (r & w1 & f1 & Hrun & Hok1 & Hc1 & Hp1 & Hres); [lia| |].
  { unfold place_ok. rewrite Hs. apply andb_true_iff. rewrite !Z.leb_le. lia. }
  assert (size_ f1 = size_ f) as Hsz by (by rewrite <-Hs, <-Hc1, contents_size).
  assert (∃ b, bytes_of r = content_at (contents image f) (rf_pos_ f) b ∧ b = str_size (bytes_of r) ∧
            rf_pos_ f + b <= size_ f ∧ (is_ok r = true → rf_pos_ f < size_ f → 0 < b)) as (b & Hb & Hbs & Hble & Hprog).
  { unfold read_result in Hres. rewrite Hs in Hres. exists (str_size (bytes_of r)).
    destruct (Z.leb_spec (size_ f) (rf_pos_ f)) as [Hend|Hend].
    - rewrite Hres. cbn [bytes_of is_ok]. change (str_size []) with 0. rewrite content_at_zero by done.
      split; [done|]. split; [done|]. split; [lia|intros _; lia].
    - destruct r as [e|bs]; cbn [bytes_of is_ok].
      + change (str_size []) with 0. rewrite content_at_zero by done. split; [done|]. split; [done|]. split; [lia|done].
      + destruct Hres as (Hpre & Hne & _). destruct (prefix_content_at _ _ _ _ Hpre) as [He _].
        split; [done|]. split; [done|]. split.
        * apply prefix_length in Hpre. unfold content_at, str_size in *. rewrite length_take, length_drop in Hpre. lia.
        * intros _ _. specialize (Hne Hn1). destruct bs; [done|]. unfold str_size. simpl. lia. }
  destruct (IH f1 w1 Hok1) as (rs & w' & f' & Hall & Hlen & Hbytes & Hp' & Hle & Hdone); [|done|].
  { rewrite Hsz, Hp1, <-Hbs. unfold str_size in Hbs. lia. }
  exists (r :: rs), w', f'. cbn [run_reads]. run_with Hrun. run_with Hall.
  rewrite Hc1, Hp1, <-Hbs, ?Hsz in *.
  assert (0 <= b) by (unfold str_size in Hbs; lia).
  assert (bytes_read (r :: rs) = content_at (contents image f) (rf_pos_ f) b ++ bytes_read rs) as Hcons by (by rewrite <-Hb).
  pose proof (str_size_nonneg (bytes_read rs)).
  split; [done|]. split; [simpl; lia|]. split; [|split; [|split; [done|]]].
  - rewrite Hcons, str_size_app, <-Hb, <-Hbs, <-content_at_join, <-Hbytes, <-Hb by lia. done.
  - rewrite Hcons, str_size_app, <-Hb, <-Hbs. lia.
  - intros Hcompl. rewrite Hcons, Hdone.
    + rewrite content_at_join by lia. f_equal. lia.
    + unfold completed in *. cbn [List.filter] in Hcompl. destruct (is_ok r); [|lia].
      destruct (Z.ltb_spec (rf_pos_ f) (size_ f)) as [Hlt|Hge]; [specialize (Hprog eq_refl Hlt); simpl in Hcompl; lia|lia].
Qed.

Lemma failed_read_ahead_run f w w1 e n :
  read_ahead_buf_ f = [] → read_ahead_buf_offset_ f = 0 → rf_pos_ f = 0 → 0 < size_ f < 2 ^ 31 →
  0 < n < read_ahead_buf_max_size_ f → n <= size_ f → e ≠ EINTR →
  im_pread im (Z.min (read_ahead_buf_max_size_ f) (size_ f)) (offset_in_image_ f) w = Done (Err e, w1) →
  ∃ f1, rf_read im n (w, f) = Done (Err e, (w1, f1)) ∧
    rf_read im n (w1, f1) = Done (Ok (replicate (Z.to_nat n) NUL), (w1, set_pos n f1)).
Proof.
  intros Hbuf Hbo Hpos Hsz Hn Hns He Hfail. set (buf := resize (read_ahead_buf_max_size_ f) []).
  assert (str_size buf = read_ahead_buf_max_size_ f) as Hbs.
  { unfold buf, resize, str_size. rewrite take_nil, app_nil_l, length_replicate. simpl. lia. }
  exists (set_cache buf 0 f). unfold rf_read, PreadImpl. split.
  - rewrite (St_bind_run this _ (w, f) f (w, f) eq_refl), Hpos.
    rewrite (St_bind_run _ _ (w, f) (Err e) (w1, set_cache buf 0 f)); [done|].
    rewrite (St_bind_run this _ (w, f) f (w, f) eq_refl). cbv zeta. rewrite Z.sub_0_r, to_signed_id by lia.
    rewrite (proj2 (Z.leb_gt (size_ f) 0)) by lia. rewrite Hbo, Hbuf. change (str_size []) with 0.
    rewrite (proj2 (Z.ltb_ge 0 (0 + 0))) by lia. rewrite andb_false_r. cbn [andb].
    rewrite (proj2 (Z.leb_gt (read_ahead_buf_max_size_ f) _)) by lia. cbn [negb orb]. fold buf.
    rewrite (St_bind_run (update _) _ (w, f) tt (w, set_cache buf 0 f) eq_refl), Z.add_0_r.
    rewrite (St_bind_run (on_image _) _ (w, set_cache buf 0 f) (Err e) (w1, set_cache buf 0 f))
      by (by rewrite (on_image_run _ (w, _) (Err e) w1)).
    by rewrite bool_decide_false.
  - set (g := set_cache buf 0 f).
    assert (content_at buf 0 n = replicate (Z.to_nat n) NUL) as Hz.
    { unfold content_at, buf, resize. rewrite take_nil, app_nil_l, drop_0, take_replicate. f_equal. simpl. lia. }
    rewrite (St_bind_run this _ (w1, g) g (w1, g) eq_refl). change (rf_pos_ g) with (rf_pos_ f). rewrite Hpos.
    rewrite (St_bind_run _ _ (w1, g) (Ok (replicate (Z.to_nat n) NUL)) (w1, g)).
    + rewrite (proj2 (Z.ltb_lt _ _)) by (unfold str_size; rewrite length_replicate; lia).
      rewrite (St_bind_run (update (λ f, set_pos (rf_pos_ f + str_size (replicate (Z.to_nat n) NUL)) f)) _ (w1, g) tt
                 (w1, set_pos n g)); [done|].
      unfold update, modify. do 4 f_equal. change (rf_pos_ (w1, g).2) with (rf_pos_ f).
      unfold str_size. rewrite length_replicate. lia.
    + rewrite (St_bind_run this _ (w1, g) g (w1, g) eq_refl). cbv zeta.
      cbn [g set_cache size_ read_ahead_buf_offset_ read_ahead_buf_ read_ahead_buf_max_size_].
      rewrite Z.sub_0_r, to_signed_id by lia.
      rewrite (proj2 (Z.leb_gt (size_ f) 0)) by lia. rewrite Hbs, Z.min_l by lia.
      rewrite (proj2 (Z.ltb_lt _ _)), (proj2 (Z.leb_le (0 + n) _)) by lia. cbn [andb Z.leb Z.compare].
      change (0 - 0) with 0. by rewrite Hz.
Qed.
(** A read-ahead that fails is remembered as zeros.  When the first [read] of a file
    fails with an error other than EINTR, the comment in the code says that the cache
    remains intact; but its buffer has been enlarged, with zeros, at offset 0.  So the
    next [read] of any size below the read-ahead size does not ask the image again: it
    succeeds with zeros that are not in the file.  *)
Theorem failed_read_ahead_leaves_zeros f w w1 e n :
  read_ahead_buf_ f = [] → read_ahead_buf_offset_ f = 0 → rf_pos_ f = 0 → 0 < size_ f < 2 ^ 31 →
  0 < n < read_ahead_buf_max_size_ f → n <= size_ f → e ≠ EINTR →
  im_pread im (Z.min (read_ahead_buf_max_size_ f) (size_ f)) (offset_in_image_ f) w = Done (Err e, w1) →
  ∃ f1, rf_read im n (w, f) = Done (Err e, (w1, f1)) ∧
    run_reads im [n; n] (w, f) = Done ([Err e; Ok (replicate (Z.to_nat n) NUL)], (w1, set_pos n f1)).
Proof.
  intros H1 H2 H3 H4 H5 H6 H7 H8.
  destruct (failed_read_ahead_run f w w1 e n H1 H2 H3 H4 H5 H6 H7 H8) as (f1 & Hr1 & Hr2).
  exists f1. split; [done|]. cbn [run_reads]. unfold mbind, St_bind. by rewrite Hr1, Hr2.
Qed.
End FileProperties.

(** ** Before the file *)

(** [lseek] accepts a position before the file, and [read] then gives bytes of the image
    that are not the file's. *)
Lemma read_before_the_file {W} (im : ImageStream W) image f w k n :
  image_stream_ok true image im → file_ok image f → read_ahead_buf_ f = [] →
  0 < k <= offset_in_image_ f → read_ahead_buf_max_size_ f <= n <= k → size_ f + k < 2 ^ 31 →
  ∃ w', rf_lseek (- k) (Some Defaults.SEEK_SET) (w, f) = Done (Ok (- k), (w, set_pos (- k) f)) ∧
    rf_read im n (w, set_pos (- k) f) =
      Done (Ok (content_at image (offset_in_image_ f - k) n), (w', set_pos (- k + n) f)).
Proof.
  intros Him Hok Hbuf Hk Hn Hsz. pose proof (fo_size _ _ Hok). pose proof (fo_max _ _ Hok). pose proof (fo_in _ _ Hok).
  destruct (Him n (offset_in_image_ f - k) w) as (r & w' & Hr & Hp); [lia..|]. exists w'. split; [done|].
  destruct r as [e|bs]; [by destruct Hp|]. destruct Hp as (_ & _ & Hx). rewrite (Hx eq_refl) in Hr.
  assert (str_size (content_at image (offset_in_image_ f - k) n) = n) as Hs by (apply content_at_size; lia).
  unfold rf_read, PreadImpl. set (g := set_pos (- k) f).
  rewrite (St_bind_run this _ (w, g) g (w, g) eq_refl).
  rewrite (St_bind_run _ _ (w, g) (Ok (content_at image (offset_in_image_ f - k) n)) (w', g)).
  - rewrite Hs, (proj2 (Z.ltb_lt 0 n)) by lia. done.
  - rewrite (St_bind_run this _ (w, g) g (w, g) eq_refl). cbv zeta.
    cbn [g set_pos size_ rf_pos_ read_ahead_buf_offset_ read_ahead_buf_ read_ahead_buf_max_size_ offset_in_image_].
    rewrite to_signed_id by lia. rewrite (proj2 (Z.leb_gt _ 0)) by lia. rewrite Hbuf. change (str_size []) with 0.
    assert ((read_ahead_buf_offset_ f <=? - k) = false) as -> by (pose proof (fo_cache_start _ _ Hok); lia).
    cbn [andb]. rewrite Z.min_l by lia. rewrite (proj2 (Z.leb_le (read_ahead_buf_max_size_ f) n)) by lia. cbn [orb].
    rewrite Z.add_opp_r. by rewrite (on_image_run _ (w, g) _ _ Hr).
Qed.

(** ** Witnesses *)

Module SmallImage.
(** A stream over bytes that answers everything, or fails the first [fuel] times. *)
Definition bytes_stream (image : str) : ImageStream nat :=
  mkImageStream (λ fuel : nat, Done (Ok (str_size image, 7), fuel)) (λ _ _ _ _ _ (fuel : nat), Done (Ok 1048576, fuel))
    (λ _ _ _ (fuel : nat), Done (Ok 0, fuel)) (λ _ _ (fuel : nat), Done (Ok 0, fuel))
    (λ n off (fuel : nat), match fuel with
                   | O => Done (Ok (content_at image off n), O)
                   | Datatypes.S m => Done (Err EIO, m)
                   end).

(** One that gives two bytes at most, and is interrupted every other time. *)
Definition slow_stream (image : str) : ImageStream bool :=
  mkImageStream (λ b : bool, Done (Ok (str_size image, 7), b)) (λ _ _ _ _ _ (b : bool), Done (Ok 1048576, b))
    (λ _ _ _ (b : bool), Done (Ok 0, b)) (λ _ _ (b : bool), Done (Ok 0, b))
    (λ n off (b : bool), if b then Done (Err EINTR, false) else Done (Ok (content_at image off (Z.min n 2)), true)).

Definition exact_stream (image : str) : ImageStream unit :=
  mkImageStream (λ w : unit, Done (Ok (str_size image, 7), w)) (λ _ _ _ _ _ (w : unit), Done (Ok 1048576, w))
    (λ _ _ _ (w : unit), Done (Ok 0, w)) (λ _ _ (w : unit), Done (Ok 0, w)) (λ n off (w : unit), Done (Ok (content_at image off n), w)).

Lemma exact_stream_ok image : image_stream_ok true image (exact_stream image).
Proof.
  intros n off w Hn Ho. do 2 eexists. split; [reflexivity|]. split; [done|]. split; [|done].
  intros Hp Hs. apply content_at_nonempty; lia.
Qed.

Lemma slow_stream_ok image : image_stream_ok false image (slow_stream image).
Proof.
  intros n off b Hn Ho. destruct b; (do 2 eexists; split; [reflexivity|]); [done|].
  split; [apply content_at_prefix; lia|]. split; [|done]. intros Hp Hs. apply content_at_nonempty; lia.
Qed.

Definition small_image : str := "secret:Hello, world!:secret".
Definition hello : ReadonlyFile := mkReadonlyFile "/hello" 4 7 13 0 false [] 0 0.

Lemma hello_ok : file_ok small_image hello.
Proof. split; vm_compute; try done; split; (discriminate || reflexivity). Qed.

Lemma readonly_file_is_plain_witness :
  ∃ w' f', run_file_ops (exact_stream small_image)
      [OpRead 2; OpRead 1; OpPread 100 7; OpRead 9; OpSeek (-6) (Some Defaults.SEEK_END); OpRead 100; OpRead 1] (tt, hello) =
    Done ([inl (Ok (lit "He")); inl (Ok (lit "l")); inl (Ok (lit "world!")); inl (Ok (lit "lo, world"));
           inr (Ok 7); inl (Ok (lit "world!")); inl (Ok [])], (w', f')).
Proof.
  destruct (readonly_file_is_plain (exact_stream small_image) small_image hello tt
      [OpRead 2; OpRead 1; OpPread 100 7; OpRead 9; OpSeek (-6) (Some Defaults.SEEK_END); OpRead 100; OpRead 1]
      (exact_stream_ok small_image) hello_ok) as (w' & f' & Hrun & _); [vm_compute; reflexivity|].
  exists w', f'. exact Hrun.
Defined.

Lemma reads_reach_the_end_witness :
  ∃ rs w' f', run_reads (slow_stream small_image) (replicate 20 3) (false, hello) = Done (rs, (w', f')) ∧
    bytes_read rs = content_at (contents small_image hello) 0 (str_size (bytes_read rs)).
Proof.
  destruct (reads_reach_the_end (slow_stream small_image) false small_image hello false (replicate 20 3)
      (slow_stream_ok small_image) hello_ok) as (rs & w' & f' & Hrun & _ & Hbytes & _);
    [split; discriminate|repeat constructor|].
  exists rs, w', f'. split; [exact Hrun|exact Hbytes].
Defined.

Lemma failed_read_ahead_leaves_zeros_witness :
  ∃ f', rf_read (bytes_stream small_image) 3 (1%nat, hello) = Done (Err EIO, (O, f')) ∧
    run_reads (bytes_stream small_image) [3; 3] (1%nat, hello) =
    Done ([Err EIO; Ok [NUL; NUL; NUL]], (O, set_pos 3 f')).
Proof.
  exact (failed_read_ahead_leaves_zeros (bytes_stream small_image) hello 1%nat O EIO 3 eq_refl eq_refl eq_refl
    ltac:(split; reflexivity) ltac:(split; reflexivity) ltac:(discriminate) ltac:(discriminate) eq_refl).
Defined.
End SmallImage.
