(* ===== verification/ReadonlyHandlerProperties.v ===== *)
(** * ReadonlyHandlerProperties: the theorems on the handler of the image

    From the script that writes the image to the bytes that a read gives; and what
    the handler answers to calls that would change files. *)

From S2P Require Import Prelude BaseStrings PathUtil Util DirectoryManager FileStream FileSystemHandler ReadonlyFsReader ReadonlyFile ReadonlyFileProperties.
Import CreateImage.

#[local] Open Scope Z_scope.

(** ** What the handler relies on underneath *)

(** In [good] states the handler [u] has a file of that name with the bytes of the
    image, which is mapped at [base]. *)
Record serves {U} (u : FileSystemHandler U) (stream_of : NewStream → ImageStream U) (mapped : U → Z → str)
    (exact : bool) (name image : str) (base mtime : Z) (good : U → Prop) : Prop := {
  sv_init : ∀ w, good w → IsInitialized u w = false → ∃ w', Initialize u w = Done (tt, w') ∧ good w';
  sv_open : ∀ w, good w → ∃ s w', h_open u (-1) name 0 0 w = Done (Ok s, w') ∧ good w';
  sv_fstat : ∀ s w, good w → ∃ w', im_fstat (stream_of s) w = Done (Ok (str_size image, mtime), w') ∧ good w';
  sv_mmap : ∀ s w, good w → ∃ w', im_mmap (stream_of s) 0 (str_size image) PROT_READ MAP_PRIVATE 0 w = Done (Ok base, w') ∧
    good w' ∧ mapped w' base = image;
  sv_munmap : ∀ s w, good w → ∃ w', im_munmap (stream_of s) base (str_size image) w = Done (Ok 0, w') ∧ good w';
  sv_pread : ∀ s, image_stream_ok exact image (stream_of s);
}.
Arguments sv_init {U u stream_of mapped exact name image base mtime good}.
Arguments sv_open {U u stream_of mapped exact name image base mtime good}.
Arguments sv_fstat {U u stream_of mapped exact name image base mtime good}.
Arguments sv_mmap {U u stream_of mapped exact name image base mtime good}.
Arguments sv_munmap {U u stream_of mapped exact name image base mtime good}.
Arguments sv_pread {U u stream_of mapped exact name image base mtime good}.

Section Handler.
Context `{BaseStringsSpec} {U : Type} (u : FileSystemHandler U).
Context (stream_of : NewStream → ImageStream U) (mapped : U → Z → str).
Context (page_size time_bits off_bits : Z).
Context {exact : bool} {name image : str} {base mtime : Z} {good : U → Prop}.

Abbreviation R := (U * ReadonlyFileHandler)%type.

Lemma on_under_run {A} (m : St U A) (w : R) a v : m w.1 = Done (a, v) → on_under m w = Done (a, (v, w.2)).
Proof. unfold on_under. by intros ->. Qed.

Lemma this_handler_run (w : R) : this_handler w = Done (w.2, w).
Proof. done. Qed.

Lemma reader_run r (w : U) h : image_reader_ h = Some r → reader (w, h) = Done (r, (w, h)).
Proof. intros Hr. unfold reader. run_with (this_handler_run (w, h)). cbn [snd]. by rewrite Hr. Qed.

(** The handler after [Initialize]. *)
Definition initialized (s : NewStream) (r : ReadonlyFsReader) (h : ReadonlyFileHandler) : ReadonlyFileHandler :=
  mkReadonlyFileHandler (image_filename_ h) (read_ahead_size_ h) (Some r) (Some s) mtime.

Lemma parse_image_run s r w h :
  serves u stream_of mapped exact name image base mtime good → good w →
  ReadonlyFsReader_new page_size time_bits off_bits base image = Done r → image_stream_ h = Some s →
  ∃ w', ParseReadonlyFsImage stream_of mapped page_size time_bits off_bits (w, h) =
          Done (true, (w', initialized s r h)) ∧ good w'.
Proof.
  intros Hsv Hg Hr Hs. unfold ParseReadonlyFsImage. run_with (this_handler_run (w, h)). cbn [snd]. rewrite Hs.
  rewrite (St_bind_run (deref_option (Some s)) _ (w, h) s (w, h) eq_refl).
  destruct (sv_fstat Hsv s w Hg) as (w1 & H1 & G1). run_with (on_under_run _ (w, h) _ _ H1).
  destruct (sv_mmap Hsv s w1 G1) as (w2 & H2 & G2 & Hmap). run_with (on_under_run _ (w1, h) _ _ H2).
  rewrite (St_bind_run get _ (w2, h) (w2, h) (w2, h) eq_refl). cbn [fst]. rewrite Hmap.
  rewrite (St_bind_run (lift _) _ (w2, h) r (w2, h)) by (unfold lift; by rewrite Hr).
  rewrite (St_bind_run (update_handler _) _ (w2, h) tt (w2, set_reader (Some r) h) eq_refl).
  destruct (sv_munmap Hsv s w2 G2) as (w3 & H3 & G3). run_with (on_under_run _ (w2, set_reader (Some r) h) _ _ H3).
  exists w3. split; [|done]. unfold initialized. rewrite <-Hs. done.
Qed.

Lemma initialize_run r w h :
  serves u stream_of mapped exact name image base mtime good → good w →
  ReadonlyFsReader_new page_size time_bits off_bits base image = Done r →
  image_stream_ h = None → image_filename_ h = name →
  ∃ s w', rfh_Initialize (Some u) stream_of mapped page_size time_bits off_bits (w, h) =
            Done (tt, (w', initialized s r h)) ∧ good w'.
Proof.
  intros Hsv Hg Hr Hs Hname. unfold rfh_Initialize. rewrite (St_bind_run get _ (w, h) (w, h) (w, h) eq_refl).
  rewrite (St_bind_run (check _) _ (w, h) tt (w, h)) by (unfold rfh_IsInitialized; cbn [snd]; by rewrite Hs).
  rewrite (St_bind_run (deref_option (Some u)) _ (w, h) u (w, h) eq_refl). cbn [fst snd].
  assert (∃ w1, (if negb (IsInitialized u w) then on_under (Initialize u) else mret tt) (w, h) = Done (tt, (w1, h)) ∧ good w1)
    as (w1 & H1 & G1).
  { destruct (IsInitialized u w) eqn:E; [by exists w|]. destruct (sv_init Hsv w Hg E) as (w1 & H1 & G1).
    exists w1. split; [|done]. by apply (on_under_run _ (w, h)). }
  run_with H1. rewrite Hname. destruct (sv_open Hsv w1 G1) as (s & w2 & H2 & G2). run_with (on_under_run _ (w1, h) _ _ H2).
  rewrite (St_bind_run (update_handler _) _ (w2, h) tt (w2, set_image_stream (Some s) h) eq_refl).
  destruct (parse_image_run s r w2 (set_image_stream (Some s) h) Hsv G2 Hr eq_refl) as (w3 & H3 & G3).
  run_with H3. exists s, w3. done.
Qed.

(** *** Opening *)

Lemma is_directory_run r fs p :
  repr (file_names_ r) fs → okpath p → IsDirectory (filepath p) r = Done (bool_decide (p ∈ dirs fs)).
Proof.
  intros Hr Hp. unfold IsDirectory.
  rewrite (stat_directory_spec _ fs _ p Hr Hp (ensure_filepath p Hp)). done.
Qed.

Lemma open_file_run r (w : U) h s fs p oflag md :
  image_reader_ h = Some r → image_stream_ h = Some s → repr (file_names_ r) fs → okpath p → p ≠ [] →
  p ∉ dirs fs → GetMetadata (filepath p) r = Some md → has oflag O_WRITING = false → has oflag O_DIRECTORY = false →
  rfh_open (filepath p) oflag (w, h) =
    Done (Ok (OpenedFile (mkReadonlyFile (filepath p) (read_ahead_size_ h) (md_offset md) (md_size md) (md_mtime md)
                            false [] 0 0)), (w, h)).
Proof.
  intros Hrd Hst Hr Hp Hne Hnd Hmd Hw Hd. unfold rfh_open. run_with (this_handler_run (w, h)). cbn [snd].
  pose proof (reader_run r w h Hrd) as Hreader. run_with Hreader.
  rewrite (St_bind_run (lift _) _ (w, h) false (w, h))
    by (unfold lift; by rewrite (is_directory_run r fs p Hr Hp), bool_decide_false).
  rewrite Hw. unfold CreateFileLocked. run_with (this_handler_run (w, h)). run_with Hreader. rewrite Hmd, Hd. cbn [snd].
  rewrite Hst, bool_decide_true by eauto. rewrite (St_bind_run (check true) _ (w, h) tt (w, h) eq_refl).
  unfold ReadonlyFile_new. rewrite bool_decide_true by by destruct p. done.
Qed.
End Handler.

Section HandlerProperties.
Context `{BaseStringsSpec} {U : Type} (u : FileSystemHandler U).
Context (stream_of : NewStream → ImageStream U) (mapped : U → Z → str).

(** C15.  From the script to the reader of a file.  For inputs that fit in an image, let
    the handler underneath have the image that the script writes.  Then [Initialize]
    of the handler runs without tripping an assertion, and afterwards every file of the
    inputs whose name is not a directory's too opens for reading, at its start, as a
    file that lies in the image with exactly the input's contents: a read that asks for
    all of them gives them.  *)
Theorem image_files_have_their_contents time_bits off_bits k exact name base mtime good fps h w :
  32 <= time_bits → 32 <= off_bits → 2 <= k < 32 → 0 <= base → (2 ^ k | base) →
  base + image_bound fps <= 2 ^ 32 → inputs_ok fps →
  ReadonlyFileHandler_new name (read_ahead_size_ h) = Done h → good w →
  ∃ image, _generate_readonly_image (fst <$> fps) = Done image ∧
    (serves u stream_of mapped exact name image base mtime good →
     ∃ s w1 h1, rfh_Initialize (Some u) stream_of mapped (2 ^ k) time_bits off_bits (w, h) = Done (tt, (w1, h1)) ∧
       image_stream_ h1 = Some s ∧ rfh_IsInitialized (Some u) (w1, h1) = IsInitialized u w1 ∧
       ∀ f p oflag, (f, p) ∈ fps → in_type f = kRegularFile → p ∉ dirs (spec_ops (entry_op <$> fps) fs_empty).2 →
         has oflag O_WRITING = false → has oflag O_DIRECTORY = false →
         ∃ file, rfh_open (filepath p) oflag (w1, h1) = Done (Ok (OpenedFile file), (w1, h1)) ∧
           file_ok image file ∧ rf_pos_ file = 0 ∧ contents image file = in_data f ∧
           (exact = true → ∀ n, str_size (in_data f) <= n →
              ∃ w2 file', rf_read (stream_of s) n (w1, file) = Done (Ok (in_data f), (w2, file')))).
Proof.
  intros Htb Hob Hk Hb Hbk Hfit Hin Hnew Hg.
  destruct (image_reads_back time_bits off_bits k base fps) as (image & r & Hw & Hsize & Hr & Hh); [done..|].
  exists image. split; [done|]. intros Hsv.
  unfold ReadonlyFileHandler_new, require in Hnew. destruct (Z.ltb_spec 0 (read_ahead_size_ h)) as [Hra|]; [|done].
  injection Hnew as Hh0.
  destruct (initialize_run u stream_of mapped (2 ^ k) time_bits off_bits r w h Hsv Hg Hr) as (s & w1 & Hinit & G1);
    [by rewrite <-Hh0|by rewrite <-Hh0|].
  exists s, w1, (initialized (mtime := mtime) s r h). split; [done|]. split; [done|]. split; [done|].
  intros f p oflag Hfp Hty Hnd Hwr Hdir. pose proof Hin as (Hbound & Hok & _).
  rewrite Forall_forall in Hok. destruct (Hok _ Hfp) as (_ & _ & Hp & Hne & _). cbn [fst snd] in *.
  destruct (rh_found _ _ _ Hh f p Hfp) as (off & Hmd & _ & Ho & Hend & Hat); [by rewrite Hty|].
  rewrite Hty in Hat. cbn [Z.eqb kRegularFile] in Hat.
  eexists. split; [by eapply open_file_run; try done; apply (rh_names _ _ _ Hh)|].
  cbn [md_offset md_size md_mtime]. pose proof (in_size_bounds f).
  assert (in_size f = str_size (in_data f)) as Hsz by (unfold in_size; by rewrite Hty).
  set (file := mkReadonlyFile _ _ _ _ _ _ _ _ _).
  assert (file_ok image file) as Hfile by (split; cbn; [lia|lia|lia|done|lia|done|done]).
  split; [done|]. split; [done|]. split; [done|]. intros Hx n Hn. subst exact.
  assert (0 <= str_size (in_data f)) by apply str_size_nonneg.
  destruct (read_step (stream_of s) true image (sv_pread Hsv s) file w1 n Hfile) as (res & w2 & file' & Hrun & _ & _ & _ & Hres);
    [lia| |].
  { unfold place_ok. rewrite contents_size by done. apply Z.leb_le. cbn [file size_ rf_pos_]. lia. }
  exists w2, file'. apply exact_result in Hres; [|done..]. rewrite Hrun, Hres. do 3 f_equal.
  change (contents image file) with (content_at image off (in_size f)). rewrite Hat. cbn.
  unfold content_at. simpl. apply take_ge. unfold str_size in Hn. lia.
Qed.

(** *** Calls that would change files *)

(** Does the image have the path? *)
Definition known (r : ReadonlyFsReader) (p : str) : bool :=
  bool_decide (is_Some (file_objects_ r !! p)) || bool_decide (is_Some (file_names_ r !! EnsurePathEndsWithSlash p)).

Lemma exist_run r (w : U) h p : image_reader_ h = Some r → exist p (w, h) = Done (known r p, (w, h)).
Proof.
  intros Hr. unfold exist. run_with (reader_run r w h Hr). unfold lift, Exist, known. destruct (file_objects_ r !! p) as [md|] eqn:E.
  - by rewrite bool_decide_true by eauto.
  - by rewrite (bool_decide_false (is_Some None)) by by intros [].
Qed.

Lemma open_writing_run r (w : U) h p oflag :
  image_reader_ h = Some r → has oflag O_WRITING = true →
  rfh_open p oflag (w, h) =
    Done (Err (if bool_decide (is_Some (file_names_ r !! EnsurePathEndsWithSlash p)) then EISDIR else EACCES), (w, h)).
Proof.
  intros Hr Hw. unfold rfh_open. run_with (this_handler_run (w, h)). run_with (reader_run r w h Hr).
  rewrite (St_bind_run (lift _) _ (w, h) (bool_decide (is_Some (file_names_ r !! EnsurePathEndsWithSlash p))) (w, h)) by done.
  by rewrite Hw.
Qed.

(** The image cannot be changed.  Once the image is parsed, the handler answers every
    call that would change a file with an error (a rename of a known path to itself
    apart) and changes nothing, neither in itself nor underneath: EEXIST for a directory
    that is there, ENOENT for a change of what is not, EISDIR and EACCES for opening to
    write, EACCES or EROFS or EPERM for the rest.  *)
Theorem image_cannot_be_changed page_size time_bits off_bits inode r w h p q n oflag times :
  image_reader_ h = Some r →
  let hd := readonly_handler (Some u) stream_of mapped page_size time_bits off_bits inode in
  let same {A} (a : A) := Done (a, (w, h)) in
  h_mkdir hd p n (w, h) = same (Err (if known r p then EEXIST else EACCES)) ∧
  h_rename hd p q (w, h) =
    same (if known r p && bool_decide (q ≠ []) then (if bool_decide (p = q) then Ok 0 else Err EACCES) else Err ENOENT) ∧
  h_truncate hd p n (w, h) = same (Err (if known r p then EACCES else ENOENT)) ∧
  h_unlink hd p (w, h) = same (Err (if known r p then EACCES else ENOENT)) ∧
  h_utimes hd p times (w, h) = same (Err EROFS) ∧ h_remove hd p (w, h) = same (Err EACCES) ∧
  h_rmdir hd p (w, h) = same (Err EACCES) ∧ h_symlink hd p q (w, h) = same (Err EPERM) ∧
  (has oflag O_WRITING = true →
     h_open hd (-1) p oflag n (w, h) =
     same (Err (if bool_decide (is_Some (file_names_ r !! EnsurePathEndsWithSlash p)) then EISDIR else EACCES))).
Proof.
  intros Hr hd same. subst hd same. cbn [readonly_handler h_mkdir h_rename h_truncate h_unlink h_utimes h_remove h_rmdir h_symlink h_open].
  unfold rfh_mkdir, rfh_rename, rfh_change.
  rewrite !(St_bind_run (exist p) _ (w, h) (known r p) (w, h)) by by apply exist_run.
  split; [done|]. split; [|do 6 (split; [done|])].
  - destruct (known r p); [|done]. cbn [negb orb andb]. repeat case_bool_decide; done.
  - intros Hw. run_with (open_writing_run r w h p oflag Hr Hw). done.
Qed.
End HandlerProperties.

(** ** Witnesses *)

Module SmallSystem.
Import SmallImage Reference.

Definition written : str :=
  match _generate_readonly_image (fst <$> small_inputs) with Done image => image | _ => [] end.

(** A handler with one file. *)
Definition one_file : FileSystemHandler unit :=
  Base.handler (λ _ p oflag _ w, Done (Ok (mkNewStream oflag p (lit "one")), w)) (λ _, mret None)
    (λ _ w, Done (Err ENOENT, w)) (λ _, mret DoStatFsForSystem).

Lemma one_file_serves name :
  serves one_file (λ _, exact_stream written) (λ _ _, written) true name written 1048576 7 (λ _, True).
Proof.
  split; [by intros|by intros; do 2 eexists|by intros; eexists|by intros; eexists|by intros; eexists|].
  intros _. apply exact_stream_ok.
Qed.

Definition new_handler : ReadonlyFileHandler := mkReadonlyFileHandler "/system.img" 65536 None None 0.

Lemma image_files_have_their_contents_witness :
  ∃ s w1 h1 file w2 file',
    rfh_Initialize (Some one_file) (λ _, exact_stream written) (λ _ _, written) 4096 32 32 (tt, new_handler) =
      Done (tt, (w1, h1)) ∧
    rfh_open (lit "/etc/hosts") 0 (w1, h1) = Done (Ok (OpenedFile file), (w1, h1)) ∧
    rf_read ((λ _ : NewStream, exact_stream written) s) 100 (w1, file) =
      Done (Ok (lit "127.0.0.1 localhost"), (w2, file')).
Proof.
  destruct (image_files_have_their_contents one_file (λ _, exact_stream written) (λ _ _, written) 32 32 12 true
              (lit "/system.img") 1048576 7 (λ _, True) small_inputs new_handler tt) as (image & Hw & Hall);
    [lia|lia|lia|lia|by exists 256|vm_compute; discriminate|decided|reflexivity|exact I|].
  assert (image = written) as -> by (unfold written; by rewrite Hw).
  destruct (Hall (one_file_serves _)) as (s & w1 & h1 & Hinit & _ & _ & Hopen).
  destruct (Hopen _ [lit "etc"; lit "hosts"] 0 ltac:(left) eq_refl ltac:(decided) eq_refl eq_refl)
    as (file & Hf & _ & _ & _ & Hread).
  destruct (Hread eq_refl 100 ltac:(vm_compute; discriminate)) as (w2 & file' & Hr).
  exists s, w1, h1, file, w2, file'. split; [exact Hinit|]. split; [exact Hf|exact Hr].
Defined.

Definition empty_reader : ReadonlyFsReader := mkReader ∅ {[ lit "/" := ∅ ]}.
Definition parsed_handler : ReadonlyFileHandler := mkReadonlyFileHandler "/system.img" 65536 (Some empty_reader) None 0.

Lemma image_cannot_be_changed_witness :
  let hd := readonly_handler (Some one_file) (λ _, exact_stream written) (λ _ _, written) 4096 32 32 (λ _, 1) in
  h_mkdir hd (lit "/") 0 (tt, parsed_handler) = Done (Err EEXIST, (tt, parsed_handler)) ∧
  h_unlink hd (lit "/a") (tt, parsed_handler) = Done (Err ENOENT, (tt, parsed_handler)).
Proof.
  destruct (image_cannot_be_changed one_file (λ _, exact_stream written) (λ _ _, written) 4096 32 32 (λ _, 1)
              empty_reader tt parsed_handler (lit "/") [] 0 0 (mkTimeval 0 0, mkTimeval 0 0) eq_refl) as (Hm & _).
  destruct (image_cannot_be_changed one_file (λ _, exact_stream written) (λ _ _, written) 4096 32 32 (λ _, 1)
              empty_reader tt parsed_handler (lit "/a") [] 0 0 (mkTimeval 0 0, mkTimeval 0 0) eq_refl)
    as (_ & _ & _ & Hu & _).
  split; [exact Hm|exact Hu].
Defined.
End SmallSystem.
