(* ===== verification/PepperFileCache.v ===== *)
(** * PepperFileCache: the cache of [pepper_file.cc] (under src/posix_translation/)

    What is known of the files of Pepper without asking: which exist, with what size and
    time, and which do not.  The cache with eviction that it is made of belongs to
    Chromium's base library, and is an interface here; [RecencyList] implements it. *)

From Stdlib Require Import QArith.
From S2P Require Import Prelude BaseStrings PathUtil.

#[local] Open Scope Z_scope.

(** ** [base::MRUCache] *)

Class MRUCache (V M : Type) := {
  mru_new : nat → M;                           (* of at most so many entries; 0: no limit *)
  mru_Get : str → M → option V * M;            (* makes the entry the most recent one *)
  mru_Peek : str → M → option V;
  mru_Put : str → V → M → M;                   (* may evict others *)
  mru_Erase : str → M → M;
  mru_Clear : M → M;
  mru_keys : M → list str;                     (* from [begin()] to [end()] *)
  mru_update : (str → V → V) → M → M;          (* assigns through the iterators *)
}.

(** What the library documents. *)
Class MRUCacheSpec (V M : Type) `{MRUCache V M} : Prop := {
  new_law : ∀ n k, mru_Peek k (mru_new n) = None;
  get_law : ∀ k m, (mru_Get k m).1 = mru_Peek k m ∧ ∀ j, mru_Peek j (mru_Get k m).2 = mru_Peek j m;
  put_law : ∀ k v m, mru_Peek k (mru_Put k v m) = Some v ∧
    ∀ j, j ≠ k → mru_Peek j (mru_Put k v m) = mru_Peek j m ∨ mru_Peek j (mru_Put k v m) = None;
  erase_law : ∀ k m j, mru_Peek j (mru_Erase k m) = if decide (j = k) then None else mru_Peek j m;
  clear_law : ∀ m k, mru_Peek k (mru_Clear m) = None;
  keys_law : ∀ m k, k ∈ mru_keys m ↔ is_Some (mru_Peek k m);
  update_law : ∀ f m k, mru_Peek k (mru_update f m) = f k <$> mru_Peek k m;
}.

(** ** The cache *)

Inductive PP_FileType : Type := PP_FILETYPE_REGULAR | PP_FILETYPE_DIRECTORY | PP_FILETYPE_OTHER.

#[export] Instance PP_FileType_eq_dec : EqDecision PP_FileType.
Proof. solve_decision. Defined.

(** [PP_Time] is a floating point number of seconds. *)
Record PP_FileInfo : Type := mkFileInfo { fi_type : PP_FileType; fi_size : Z; last_modified_time : Q }.

(** [PP_FileInfo file_info = {}]. *)
Definition no_file_info : PP_FileInfo := mkFileInfo PP_FILETYPE_REGULAR 0 0.

Record CacheEntry : Type := mkCacheEntry { entry_exists : bool; file_info : PP_FileInfo }.

Record PepperFileCache (M : Type) : Type := mkCache { size_ : nat; mru_ : M }.
Arguments mkCache {M}.
Arguments size_ {M}.
Arguments mru_ {M}.

Section Cache.
Context `{BaseStrings} {M : Type} `{MRUCache CacheEntry M}.
Implicit Types c : PepperFileCache M.

Definition PepperFileCache_new (size : nat) : PepperFileCache M := mkCache size (mru_new size).

Definition IsCacheEnabled c : bool := (0 <? size_ c)%nat.

Definition RemoveTrailingSlash (path : str) : str :=
  let len := List.length path in
  if (len <? 2)%nat || negb (EndsWithSlash path) then path else take (len - 1) path.

(** [None] for a miss. *)
Definition Get (path : str) c : option CacheEntry * PepperFileCache M :=
  if negb (IsCacheEnabled c) then (None, c)
  else let r := mru_Get (RemoveTrailingSlash path) (mru_ c) in (r.1, mkCache (size_ c) r.2).

Definition IsNonExistent (path : str) c : bool * PepperFileCache M :=
  if negb (IsCacheEnabled c) then (false, c)
  else let r := Get path c in
       (match r.1 with Some e => negb (entry_exists e) | None => false end, r.2).

Definition Set_ (path : str) (info : PP_FileInfo) (exists_ : bool) c : PepperFileCache M :=
  if negb (IsCacheEnabled c) then c
  else mkCache (size_ c) (mru_Put (RemoveTrailingSlash path) (mkCacheEntry exists_ info) (mru_ c)).

Definition SetNotExistent (path : str) c : PepperFileCache M :=
  if negb (IsCacheEnabled c) then c else Set_ path no_file_info false c.

Definition SetNotExistentDirectory (path : str) c : PepperFileCache M :=
  if negb (IsCacheEnabled c) then c
  else
    let key := if EndsWithSlash path then path else path ++ lit "/" in
    mkCache (size_ c)
      (mru_update (λ k e, if StartsWithASCII k key then mkCacheEntry false no_file_info else e) (mru_ c)).

Definition Invalidate (path : str) c : PepperFileCache M :=
  if negb (IsCacheEnabled c) then c
  else
    let key := RemoveTrailingSlash path in
    match mru_Peek key (mru_ c) with
    | Some _ => mkCache (size_ c) (mru_Erase key (mru_ c))
    | None => c
    end.

Definition InvalidateEntriesWithPrefix (prefix : str) c : PepperFileCache M :=
  if negb (IsCacheEnabled c) then c
  else
    let c := Invalidate prefix c in
    let key := RemoveTrailingSlash prefix in
    let targets := filter (λ k, StartsWithASCII k (key ++ lit "/") = true) (mru_keys (mru_ c)) in
    mkCache (size_ c) (fold_left (λ m k, mru_Erase k m) targets (mru_ c)).

Definition Clear c : PepperFileCache M :=
  if negb (IsCacheEnabled c) then c else mkCache (size_ c) (mru_Clear (mru_ c)).

Definition DisableForTesting c : PepperFileCache M := mkCache 0 (mru_ (Clear c)).

(** ** What the cache says of a path *)

Definition says (path : str) c : option CacheEntry :=
  if IsCacheEnabled c then mru_Peek (RemoveTrailingSlash path) (mru_ c) else None.

(** Names of one file. *)
Definition same_path (p q : str) : Prop := RemoveTrailingSlash p = RemoveTrailingSlash q.

#[export] Instance same_path_dec p q : Decision (same_path p q).
Proof. unfold same_path. apply _. Defined.

(** The files below a directory. *)
Definition below (p dir : str) : bool :=
  StartsWithASCII (RemoveTrailingSlash p) (RemoveTrailingSlash dir ++ lit "/").
End Cache.

(** ** Lemmas *)

Section Facts.
Context `{BaseStringsSpec} {M : Type} `{MRUCacheSpec CacheEntry M}.
Implicit Types c : PepperFileCache M.

Lemma says_new n p : says p (PepperFileCache_new n) = None.
Proof. unfold says. destruct (IsCacheEnabled _); [|done]. apply new_law. Qed.

Lemma says_disabled p c : size_ c = 0%nat → says p c = None.
Proof. intros E. unfold says, IsCacheEnabled. by rewrite E. Qed.

(** Looking up changes nothing but the order of eviction. *)
Lemma says_get p c :
  (Get p c).1 = says p c ∧ size_ (Get p c).2 = size_ c ∧ ∀ q, says q (Get p c).2 = says q c.
Proof.
  unfold Get, says, IsCacheEnabled. destruct (0 <? size_ c)%nat eqn:E; cbn [negb fst snd size_ mru_]; rewrite ?E; [|done].
  destruct (get_law (RemoveTrailingSlash p) (mru_ c)) as [G1 G2]. auto.
Qed.

Lemma says_non_existent p c :
  (IsNonExistent p c).1 = (match says p c with Some e => negb (entry_exists e) | None => false end) ∧
  size_ (IsNonExistent p c).2 = size_ c ∧ ∀ q, says q (IsNonExistent p c).2 = says q c.
Proof.
  unfold IsNonExistent. destruct (IsCacheEnabled c) eqn:E; cbn [negb fst snd].
  - destruct (says_get p c) as (-> & G2 & G3). auto.
  - unfold says. by rewrite E.
Qed.

Lemma says_set p info x c q :
  says q (Set_ p info x c) = says q c ∨ says q (Set_ p info x c) = None ∨
  (same_path q p ∧ says q (Set_ p info x c) = Some (mkCacheEntry x info)).
Proof.
  unfold Set_, says, IsCacheEnabled, same_path. destruct (0 <? size_ c)%nat eqn:E; cbn [negb size_ mru_]; rewrite E; [|auto].
  destruct (put_law (RemoveTrailingSlash p) (mkCacheEntry x info) (mru_ c)) as [G1 G2].
  destruct (decide (RemoveTrailingSlash q = RemoveTrailingSlash p)) as [->|Hne]; [auto|].
  destruct (G2 _ Hne); auto.
Qed.

Lemma set_size p info x c : size_ (Set_ p info x c) = size_ c.
Proof. unfold Set_. by destruct (IsCacheEnabled c). Qed.

Lemma says_set_old p info x c q e :
  says q (Set_ p info x c) = Some e → (¬ same_path q p ∧ says q c = Some e) ∨ (same_path q p ∧ e = mkCacheEntry x info).
Proof.
  unfold Set_, says, IsCacheEnabled, same_path. destruct (0 <? size_ c)%nat eqn:E; cbn [negb size_ mru_]; rewrite E; [|done].
  destruct (put_law (RemoveTrailingSlash p) (mkCacheEntry x info) (mru_ c)) as [G1 G2].
  destruct (decide (RemoveTrailingSlash q = RemoveTrailingSlash p)) as [->|Hne].
  - rewrite G1. intros [= <-]. auto.
  - destruct (G2 _ Hne) as [-> | ->]; [auto|done].
Qed.

Lemma says_invalidate p c q : says q (Invalidate p c) = if decide (same_path q p) then None else says q c.
Proof.
  unfold Invalidate, says, same_path, IsCacheEnabled. destruct (0 <? size_ c)%nat eqn:E; cbn [negb size_ mru_];
    [|rewrite E; by case_decide].
  destruct (mru_Peek (RemoveTrailingSlash p) (mru_ c)) eqn:Ep; cbn [size_ mru_]; rewrite E.
  - by rewrite erase_law.
  - case_decide as Hq; [|done]. by rewrite Hq.
Qed.

Lemma invalidate_size p c : size_ (Invalidate p c) = size_ c.
Proof. unfold Invalidate. destruct (IsCacheEnabled c); [|done]. by destruct (mru_Peek _ _). Qed.

Lemma peek_erase_all ks (m : M) k :
  mru_Peek k (fold_left (λ m k, mru_Erase k m) ks m) = if decide (k ∈ ks) then None else mru_Peek k m.
Proof.
  revert m. induction ks as [|j ks IH]; intros m; cbn [fold_left].
  { by rewrite decide_False by (by intros ?%elem_of_nil). }
  rewrite IH, erase_law. destruct (decide (k ∈ ks)) as [Hk|Hk].
  - by rewrite decide_True by (by right).
  - destruct (decide (k = j)) as [->|Hne]; [by rewrite decide_True by left|].
    by rewrite decide_False by (by intros [?|?]%elem_of_cons).
Qed.

Lemma says_invalidate_prefix p c q :
  says q (InvalidateEntriesWithPrefix p c) =
  if decide (same_path q p) then None else if below q p then None else says q c.
Proof.
  pose proof (says_invalidate p c q) as Hi. pose proof (invalidate_size p c) as Hs.
  unfold InvalidateEntriesWithPrefix, below. unfold says, IsCacheEnabled in *. rewrite Hs in Hi.
  destruct (0 <? size_ c)%nat eqn:E; cbn [negb size_ mru_] in *; [|rewrite E; case_decide; [done|by destruct (StartsWithASCII _ _)]].
  rewrite Hs, E, peek_erase_all. destruct (decide (RemoveTrailingSlash q ∈ _)) as [Hin|Hin].
  - apply list_elem_of_filter in Hin as [-> _]. by case_decide.
  - rewrite Hi. case_decide as Hq; [done|]. destruct (StartsWithASCII _ _) eqn:Hb; [|done].
    destruct (mru_Peek (RemoveTrailingSlash q) (mru_ c)) eqn:Ep; [|done]. exfalso. apply Hin.
    apply list_elem_of_filter. split; [done|]. apply keys_law. by rewrite Hi.
Qed.

Lemma invalidate_prefix_size p c : size_ (InvalidateEntriesWithPrefix p c) = size_ c.
Proof. unfold InvalidateEntriesWithPrefix. destruct (IsCacheEnabled c); [|done]. apply invalidate_size. Qed.

(** A whole directory that does not exist: what is known of the files below it. *)
Lemma says_not_existent_directory p c q e :
  says q (SetNotExistentDirectory p c) = Some e →
  says q c = Some e ∨
  (e = mkCacheEntry false no_file_info ∧ is_Some (says q c) ∧
   (if EndsWithSlash p then p else p ++ lit "/") `prefix_of` RemoveTrailingSlash q).
Proof.
  unfold SetNotExistentDirectory, says, IsCacheEnabled.
  destruct (0 <? size_ c)%nat eqn:E; cbn [negb size_ mru_]; rewrite E; [|done].
  rewrite update_law, StartsWithASCII_spec. destruct (mru_Peek _ _) as [e'|] eqn:Ep; [|done]. cbn.
  case_bool_decide; intros [= <-]; [right|by left]. by split_and!.
Qed.

Lemma not_existent_directory_size p c : size_ (SetNotExistentDirectory p c) = size_ c.
Proof. unfold SetNotExistentDirectory. by destruct (IsCacheEnabled c). Qed.

Lemma says_clear p c : says p (Clear c) = None.
Proof.
  unfold Clear, says, IsCacheEnabled. destruct (0 <? size_ c)%nat eqn:E; cbn [negb size_ mru_]; rewrite E; [|done].
  apply clear_law.
Qed.

Lemma clear_size c : size_ (Clear c) = size_ c.
Proof. unfold Clear. by destruct (IsCacheEnabled c). Qed.
End Facts.

(** ** An implementation *)

Module RecencyList.
Section RecencyList.
Context {V : Type}.

(** At most [capacity] entries unless it is 0, the most recent one first. *)
Record cache : Type := mkRecency { capacity : nat; items : list (str * V) }.

Definition find (k : str) (l : list (str * V)) : option V :=
  snd <$> List.find (λ x, bool_decide (x.1 = k)) l.

Definition remove (k : str) (l : list (str * V)) : list (str * V) := filter (λ x, x.1 ≠ k) l.

#[export] Instance mru : MRUCache V cache := {|
  mru_new n := mkRecency n [];
  mru_Get k m :=
    match find k (items m) with
    | Some v => (Some v, mkRecency (capacity m) ((k, v) :: remove k (items m)))
    | None => (None, m)
    end;
  mru_Peek k m := find k (items m);
  mru_Put k v m :=
    let l := (k, v) :: remove k (items m) in
    mkRecency (capacity m) (if (capacity m =? 0)%nat then l else (k, v) :: take (capacity m - 1) (remove k (items m)));
  mru_Erase k m := mkRecency (capacity m) (remove k (items m));
  mru_Clear m := mkRecency (capacity m) [];
  mru_keys m := (items m).*1;
  mru_update f m := mkRecency (capacity m) ((λ x, (x.1, f x.1 x.2)) <$> items m);
|}.

Lemma find_remove j k l : find j (remove k l) = if decide (j = k) then None else find j l.
Proof.
  unfold find, remove. induction l as [|[i v] l IH]; [by case_decide|].
  destruct (decide (i = k)) as [->|Hik].
  - rewrite filter_cons_False by (by intros H; apply H). rewrite IH. case_decide as Hjk; [done|].
    cbn. by rewrite bool_decide_false by (by intros ->).
  - rewrite filter_cons_True by done. cbn. case_bool_decide as Hij; subst; [by rewrite decide_False|]. exact IH.
Qed.

Lemma find_cons j k v l : find j ((k, v) :: l) = if decide (j = k) then Some v else find j l.
Proof. unfold find. cbn. case_bool_decide; case_decide; subst; done. Qed.

Lemma find_take j n l : find j (take n l) = find j l ∨ find j (take n l) = None.
Proof.
  revert n. induction l as [|[k v] l IH]; intros [|n]; auto.
  change (take (S n) ((k, v) :: l)) with ((k, v) :: take n l).
  rewrite !find_cons. case_decide; [by left|]. apply IH.
Qed.

#[local] Arguments find : simpl never.

#[export] Instance mru_spec : MRUCacheSpec V cache.
Proof.
  split; cbn.
  - done.
  - intros k m. destruct (find k (items m)) as [v|] eqn:E; [|done]. split; [done|]. intros j. cbn.
    rewrite find_cons, find_remove. case_decide as Hj; [by subst|done].
  - intros k v m. destruct (capacity m =? 0)%nat; rewrite find_cons, decide_True by done; (split; [done|]);
      intros j Hj; rewrite find_cons, decide_False by done.
    + left. by rewrite find_remove, decide_False.
    + destruct (find_take j (capacity m - 1) (remove k (items m))) as [-> | ->]; [left|by right].
      by rewrite find_remove, decide_False.
  - intros k m j. apply find_remove.
  - done.
  - intros m k. induction (items m) as [|[j v] l IH]; cbn.
    + split; [by intros ?%elem_of_nil|by intros [? ?]].
    + rewrite elem_of_cons, find_cons. case_decide as Hk; [subst; split; eauto|]. rewrite IH. naive_solver.
  - intros f m k. induction (items m) as [|[j v] l IH]; [done|]. cbn.
    rewrite !find_cons. case_decide as Hk; [by subst|]. exact IH.
Qed.
End RecencyList.
End RecencyList.
