(* ===== verification/PepperFile.v ===== *)
(** * PepperFile: [pepper_file.{h,cc}] (under src/posix_translation/)

    Files of a file system of Pepper, with the cache of PepperFileCache.v in front of its
    slow calls.  Pepper's calls and those of real_syscall.h are the interface
    [PepperFileSystem].  The lock is given up around the slow calls: [others] is what
    other threads do then. *)

From Stdlib Require Import QArith.
From S2P Require Import Prelude BaseStrings PathUtil Util DirectoryManager FileSystemHandler PepperFileCache.

#[local] Open Scope Z_scope.

(** ** Numbers of Pepper and of the C library *)

Definition PP_OK : Z := 0.
Definition PP_ERROR_BADRESOURCE : Z := -5.
Definition PP_ERROR_NOACCESS : Z := -7.
Definition PP_ERROR_NOMEMORY : Z := -8.
Definition PP_ERROR_NOSPACE : Z := -9.
Definition PP_ERROR_NOQUOTA : Z := -10.
Definition PP_ERROR_FILENOTFOUND : Z := -20.
Definition PP_ERROR_FILEEXISTS : Z := -21.
Definition PP_ERROR_NOTAFILE : Z := -24.
Definition PP_kInvalidFileHandle : Z := -1.

Definition PP_FILEOPENFLAG_READ : Z := 1.
Definition PP_FILEOPENFLAG_WRITE : Z := 2.
Definition PP_FILEOPENFLAG_CREATE : Z := 4.
Definition PP_FILEOPENFLAG_TRUNCATE : Z := 8.
Definition PP_FILEOPENFLAG_EXCLUSIVE : Z := 16.
Definition PP_FILEOPENFLAG_APPEND : Z := 32.

Definition O_ACCMODE : Z := 3.
Definition O_RDONLY : Z := 0.
Definition O_WRONLY : Z := 1.
Definition O_RDWR : Z := 2.
Definition O_CREAT : Z := 64.
Definition O_EXCL : Z := 128.
Definition O_TRUNC : Z := 512.
Definition O_APPEND : Z := 1024.
Definition PROT_WRITE : Z := 2.

Definition kMaxFSCacheEntries : nat := 1024.
Definition kBlockSize : Z := 4096.

(** ** The calls of Pepper and of the host *)

(** A [struct stat] with the members that the code looks at. *)
Record FileStat : Type := mkFileStat {
  f_stat : Stat; f_mtime : Z; f_atime : Z; f_ctime : Z; f_dev : Z; f_rdev : Z; f_st_blocks : Z;
}.

Class PepperFileSystem (F : Type) := {
  (* of a [pp::FileRef] with the path *)
  pp_Query : str → F → Z * PP_FileInfo;
  pp_MakeDirectory : str → F → Z * F;
  pp_Delete : str → F → Z * F;
  pp_Rename : str → str → F → Z * F;
  pp_Touch : str → Z → Z → F → Z * F;
  pp_ReadDirectoryEntries : str → F → Z * list (str * PP_FileType);
  (* of a [pp::FileIO], which is a number *)
  pp_Open : str → Z → F → Z * nat * F;
  pp_RequestOSFileHandle : nat → F → Z * Z * F;
  pp_SetLength : nat → Z → F → Z * F;
  (* of the native descriptor *)
  real_close : Z → F → res Z * F;
  real_read : Z → Z → F → res str * F;
  real_write : Z → str → F → res Z * F;
  real_lseek64 : Z → Z → Z → F → res Z * F;
  real_fstat : Z → F → res FileStat;
  (* ::mmap of addr, length, prot, flags, fd, offset, and ::munmap *)
  host_mmap : Z → Z → Z → Z → Z → Z → F → res Z * F;
  host_munmap : Z → Z → F → res Z * F;
}.

(** ** State *)

Record World (F I M : Type) : Type := mkWorld {
  pepper : F;
  inodes : I;                      (* of the virtual file system *)
  cache_ : PepperFileCache M;
  file_system_ : bool;             (* whether the handler has got its [pp::FileSystem] *)
}.
Arguments mkWorld {F I M}.
Arguments pepper {F I M}.
Arguments inodes {F I M}.
Arguments cache_ {F I M}.
Arguments file_system_ {F I M}.

(** [FileIOWrapper], and the stream that has one. *)
Record FileIOWrapper : Type := mkFileIO { file_io : nat; native_handle : Z }.

Record PepperFile : Type := mkPepperFile {
  pf_oflag : Z;
  pf_pathname : str;
  pf_inode : Z;
  file_ : FileIOWrapper;
}.

(** What [open] makes. *)
Inductive opened : Type :=
| OpenedFile (f : PepperFile)
| OpenedDirectory (pathname : str).

(** ** Conversions *)

Definition ConvertPepperErrorToErrno (pp_error : Z) : errno :=
  if pp_error =? PP_ERROR_FILENOTFOUND then ENOENT
  else if pp_error =? PP_ERROR_FILEEXISTS then EEXIST
  else if pp_error =? PP_ERROR_NOACCESS then EPERM
  else if pp_error =? PP_ERROR_NOMEMORY then ENOMEM
  else if (pp_error =? PP_ERROR_NOQUOTA) || (pp_error =? PP_ERROR_NOSPACE) then ENOSPC
  else if pp_error =? PP_ERROR_NOTAFILE then EISDIR
  else if pp_error =? PP_ERROR_BADRESOURCE then EBADF
  else ENOENT.

Definition ConvertNativeOpenFlagsToPepper (native_flags : Z) : Z :=
  let mode := Z.land native_flags O_ACCMODE in
  let pepper_flags :=
    if mode =? O_WRONLY then PP_FILEOPENFLAG_WRITE
    else if mode =? O_RDONLY then PP_FILEOPENFLAG_READ
    else if mode =? O_RDWR then Z.lor PP_FILEOPENFLAG_READ PP_FILEOPENFLAG_WRITE
    else PP_FILEOPENFLAG_READ in
  let pepper_flags := if has native_flags O_CREAT then Z.lor pepper_flags PP_FILEOPENFLAG_CREATE else pepper_flags in
  let pepper_flags := if has native_flags O_EXCL then Z.lor pepper_flags PP_FILEOPENFLAG_EXCLUSIVE else pepper_flags in
  let pepper_flags := if has native_flags O_TRUNC then Z.lor pepper_flags PP_FILEOPENFLAG_TRUNCATE else pepper_flags in
  if has native_flags O_APPEND && has pepper_flags PP_FILEOPENFLAG_WRITE
  then Z.land (Z.lor pepper_flags PP_FILEOPENFLAG_APPEND) (Z.lnot PP_FILEOPENFLAG_WRITE)
  else pepper_flags.

(** [static_cast<time_t>] of a [PP_Time]. *)
Definition time_t_of (t : Q) : Z := Z.quot (Qnum t) (Zpos (Qden t)).

Definition of_file (s : Stat) (mtime : Z) : FileStat := mkFileStat s mtime 0 0 0 0 0.

Definition is_errno (r : list errno) (e : errno) : bool := bool_decide (e ∈ r).

Section Pepper.
Context `{BaseStrings} {F I M : Type} `{PepperFileSystem F} `{MRUCache CacheEntry M}.
(** The inode numbers of the virtual file system, and what it does while it is unlocked. *)
Context (GetInodeLocked : str → I → Z * I) (RemoveInodeLocked : str → I → I).
Context (ReassignInodeLocked : str → str → I → I).
Context (others : St (World F I M) unit).
(** [base::FilePath::Append], and the largest number of descriptors. *)
Context (FilePath_Append : str → str → str) (max_descriptors : Z).

Abbreviation W := (World F I M).

(** ** Parts of the state *)

Definition on_pepper {A} (f : F → A * F) : St W A := λ w,
  let r := f (pepper w) in Done (r.1, mkWorld r.2 (inodes w) (cache_ w) (file_system_ w)).

Definition ask {A} (f : F → A) : St W A := gets (λ w, f (pepper w)).

Definition on_inodes {A} (f : I → A * I) : St W A := λ w,
  let r := f (inodes w) in Done (r.1, mkWorld (pepper w) r.2 (cache_ w) (file_system_ w)).

Definition on_cache {A} (f : PepperFileCache M → A * PepperFileCache M) : St W A := λ w,
  let r := f (cache_ w) in Done (r.1, mkWorld (pepper w) (inodes w) r.2 (file_system_ w)).

Definition update_cache (f : PepperFileCache M → PepperFileCache M) : St W unit :=
  on_cache (λ c, (tt, f c)).

(** [base::AutoUnlock]. *)
Definition unlocked {A} (m : St W A) : St W A := others;; a ← m; others;; mret a.

(** The constructor of a stream asks for its inode. *)
Definition claim_inode (pathname : str) : St W Z :=
  if bool_decide (pathname = []) then mret (-1) else on_inodes (GetInodeLocked pathname).

Definition CloseHandle (native_handle : Z) : St W unit :=
  check (0 <=? native_handle);;
  result ← on_pepper (real_close native_handle);
  check (negb (bool_decide (result = Err EBADF))).

(** ** The stream *)

Definition PepperFile_new (oflag : Z) (pathname : str) (wrapper : FileIOWrapper) : St W PepperFile :=
  inode ← claim_inode pathname; mret (mkPepperFile oflag pathname inode wrapper).

(** [~PepperFile]. *)
Definition PepperFile_destroy (f : PepperFile) : St W unit := CloseHandle (native_handle (file_ f)).

Definition pf_mmap (f : PepperFile) (addr length prot flags offset : Z) : St W (res Z) :=
  result ← on_pepper (host_mmap addr length prot flags (native_handle (file_ f)) offset);
  (if has prot PROT_WRITE then update_cache (Invalidate (pf_pathname f)) else mret tt);;
  mret result.

Definition pf_munmap (f : PepperFile) (addr length : Z) : St W (res Z) :=
  result ← on_pepper (host_munmap addr length);
  (if negb (Z.land (pf_oflag f) O_ACCMODE =? O_RDONLY) then update_cache (Invalidate (pf_pathname f)) else mret tt);;
  mret result.

Definition pf_read (f : PepperFile) (count : Z) : St W (res str) :=
  on_pepper (real_read (native_handle (file_ f)) count).

Definition pf_write (f : PepperFile) (buf : str) : St W (res Z) :=
  update_cache (Invalidate (pf_pathname f));;
  on_pepper (real_write (native_handle (file_ f)) buf).

Definition pf_debug_write (f : PepperFile) (buf : str) : St W unit :=
  on_pepper (real_write (native_handle (file_ f)) buf);; mret tt.

Definition pf_lseek (f : PepperFile) (offset whence : Z) : St W (res Z) :=
  on_pepper (real_lseek64 (native_handle (file_ f)) offset whence).

Definition pf_fdatasync : res Z := Ok 0.
Definition pf_fsync : res Z := Ok 0.

Definition pf_fstat (f : PepperFile) : St W (res FileStat) :=
  result ← ask (real_fstat (native_handle (file_ f)));
  mret match result with
       | Err e => Err e
       | Ok st =>
           let s := f_stat st in
           Ok (mkFileStat
                 (mkStat (pf_inode f) (Z.land (st_mode s) (Z.lnot 511)) (st_nlink s) (st_uid s) (st_gid s)
                    (st_size s) kBlockSize)
                 (f_mtime st) 0 0 0 0 0)
       end.

Definition pf_ftruncate (f : PepperFile) (length : Z) : St W (res Z) :=
  if Z.land (pf_oflag f) O_ACCMODE =? O_RDONLY then mret (Err EBADF)
  else
    update_cache (Invalidate (pf_pathname f));;
    result ← unlocked (on_pepper (pp_SetLength (file_io (file_ f)) length));
    mret (if result =? PP_OK then Ok 0 else Err EACCES).

(** [FIONREAD]; other requests are EINVAL.  [SEEK_CUR] is 1. *)
Definition pf_ioctl_FIONREAD (f : PepperFile) : St W (res Z) :=
  pos ← pf_lseek f 0 1;
  match pos with
  | Err _ => mret (Err EINVAL)
  | Ok pos =>
      st ← pf_fstat f;
      mret match st with
           | Err _ => Err EINVAL
           | Ok st => Ok (if pos <? st_size (f_stat st) then st_size (f_stat st) - pos else 0)
           end
  end.

Definition pf_GetStreamType : str := lit "pepper".

Definition pf_GetSize (f : PepperFile) : St W Z :=
  st ← pf_fstat f; mret match st with Ok st => st_size (f_stat st) | Err _ => 0 end.

(** ** The handler *)

Definition PepperFileHandler_new (max_cache_size : nat) (fs : F) (ids : I) : W :=
  mkWorld fs ids (PepperFileCache_new max_cache_size) false.

Definition PepperFileHandler_default : F → I → W := PepperFileHandler_new kMaxFSCacheEntries.

Definition DisableCacheForTesting : St W unit := update_cache DisableForTesting.

(** [IsNonExistent] and [SetNotExistent] of the handler, for derived classes. *)
Definition pepper_IsNonExistent (path : str) : St W bool := on_cache (IsNonExistent path).
Definition pepper_SetNotExistent (path : str) : St W unit := update_cache (SetNotExistent path).

Definition pepper_IsInitialized (browser_ready : bool) (w : W) : bool := file_system_ w && browser_ready.

(** [sys->Wait()] until the file system is there. *)
Fixpoint wait_until_initialized (fuel : nat) (browser_ready : W → bool) (Wait : St W unit) : St W unit :=
  match fuel with
  | O => λ _, NoFuel
  | S n =>
      w ← get;
      if pepper_IsInitialized (browser_ready w) w then mret tt
      else Wait;; wait_until_initialized n browser_ready Wait
  end.

Definition pepper_Initialize (fuel : nat) (browser_ready : W → bool) (Wait : St W unit) : St W unit :=
  w ← get;
  check (negb (pepper_IsInitialized (browser_ready w) w));;
  wait_until_initialized fuel browser_ready Wait.

Definition pepper_SetPepperFileSystem (path_in_vfs : str) : St W str :=
  w ← get;
  check (negb (file_system_ w));;
  modify (λ w, mkWorld (pepper w) (inodes w) (cache_ w) true);;
  mret path_in_vfs.

Definition pepper_OnFileSystemOpen (result : Z) : St W str :=
  check (result =? PP_OK);; pepper_SetPepperFileSystem (lit "/").

Definition pepper_IsWorldWritable (pathname : str) : St W bool := mret false.

(** [Open] and [RequestOSFileHandle]: the result of the one that failed. *)
Definition open_file_io (pathname : str) (open_flags : Z) : St W (Z * FileIOWrapper) :=
  '(result, io) ← on_pepper (pp_Open pathname open_flags);
  if result =? PP_OK then
    '(result, file_handle) ← on_pepper (pp_RequestOSFileHandle io);
    (if result =? PP_OK then check (file_handle <? max_descriptors) else mret tt);;
    mret (result, mkFileIO io file_handle)
  else mret (result, mkFileIO io PP_kInvalidFileHandle).

(** [open] from where the cache is invalidated on. *)
Definition open_at_pepper (pathname : str) (oflag : Z) : St W (res opened) :=
  let access_mode := Z.land oflag O_ACCMODE in
  (if negb (access_mode =? O_RDONLY) || has oflag (Z.lor O_CREAT O_TRUNC)
   then update_cache (Invalidate pathname) else mret tt);;
  '(result, wrapper) ← unlocked (open_file_io pathname (ConvertNativeOpenFlagsToPepper oflag));
  if result =? PP_OK then
    check (negb (native_handle wrapper =? PP_kInvalidFileHandle));;
    if has oflag O_DIRECTORY then CloseHandle (native_handle wrapper);; mret (Err ENOTDIR)
    else f ← PepperFile_new oflag pathname wrapper; mret (Ok (OpenedFile f))
  else
    check (native_handle wrapper =? PP_kInvalidFileHandle);;
    if result =? PP_ERROR_NOTAFILE then
      if negb (access_mode =? O_RDONLY) then mret (Err EISDIR)
      else claim_inode pathname;; mret (Ok (OpenedDirectory pathname))
    else mret (Err (ConvertPepperErrorToErrno result)).

Definition pepper_open (pathname : str) (oflag : Z) : St W (res opened) :=
  nonexistent ← (if bool_decide (pathname = []) || has oflag O_CREAT then mret false
                 else on_cache (IsNonExistent pathname));
  if bool_decide (pathname = []) || nonexistent then mret (Err ENOENT) else open_at_pepper pathname oflag.

(** What a directory has, in a [DirectoryManager] of its own. *)
Definition add_entry (name : str) (entry : str * PP_FileType) : St DirMap unit :=
  let filename := FilePath_Append name entry.1 in
  match entry.2 with
  | PP_FILETYPE_DIRECTORY => MakeDirectories filename
  | _ => added ← AddFile filename; check added
  end.

Definition list_directory (name : str) (directories : list (str * PP_FileType)) : outcome (res DirImpl) :=
  '(r, _) ← (DirectoryManager.Clear;; MakeDirectories name;; for_each (add_entry name) directories;; OpenDirectory name) ∅;
  mret r.

Definition pepper_OnDirectoryContentsNeeded (name : str) : St W (res DirImpl) :=
  nonexistent ← (if bool_decide (name = []) then mret false else on_cache (IsNonExistent name));
  if bool_decide (name = []) || nonexistent then mret (Err ENOENT)
  else
    '(result, directories) ← unlocked (ask (pp_ReadDirectoryEntries name));
    if negb (result =? PP_OK) then
      let e := ConvertPepperErrorToErrno result in
      check (negb (is_errno [EEXIST; EISDIR; ENOSPC; EPERM] e));; mret (Err e)
    else lift (list_directory name directories).

Definition QueryRefLocked (pathname : str) : St W (Z * PP_FileInfo) := unlocked (ask (pp_Query pathname)).

(** What [stat] fills in, once it knows whether the file exists. *)
Definition fill_stat (pathname : str) (known : bool * PP_FileInfo) : St W (res FileStat) :=
  if negb known.1 then mret (Err ENOENT)
  else
    match fi_type known.2 with
    | PP_FILETYPE_DIRECTORY =>
        claim_inode pathname;;
        ino ← on_inodes (GetInodeLocked pathname);
        mret (Ok (of_file (DirectoryFillStatData ino) 0))
    | _ =>
        ino ← on_inodes (GetInodeLocked pathname);
        mret (Ok (of_file (mkStat ino S_IFREG 1 0 0 (fi_size known.2) kBlockSize)
                    (time_t_of (last_modified_time known.2))))
    end.

Definition pepper_stat (pathname : str) : St W (res FileStat) :=
  cached ← on_cache (Get pathname);
  known ← match cached with
    | Some e => mret (entry_exists e, file_info e)
    | None =>
        '(result, info) ← QueryRefLocked pathname;
        update_cache (Set_ pathname info (result =? PP_OK));;
        mret (result =? PP_OK, info)
    end;
  fill_stat pathname known.

(** Calls of the object's own virtual methods, which a derived class may override. *)
Definition pepper_statfs (this_stat : str → St W (res FileStat)) (pathname : str) : St W (res StatFs) :=
  st ← this_stat pathname;
  mret match st with Ok _ => DoStatFsForData | Err _ => Err ENOENT end.

Definition pepper_mkdir (pathname : str) : St W (res Z) :=
  cached ← on_cache (Get pathname);
  if match cached with Some e => entry_exists e | None => false end then mret (Err EEXIST)
  else
    update_cache (Invalidate pathname);;
    result ← unlocked (on_pepper (pp_MakeDirectory pathname));
    if result =? PP_OK then mret (Ok 0)
    else
      let e := ConvertPepperErrorToErrno result in
      check (negb (bool_decide (e = EISDIR)));; mret (Err e).

Definition pepper_remove (pathname : str) : St W (res Z) :=
  nonexistent ← on_cache (IsNonExistent pathname);
  if (nonexistent : bool) then mret (Err ENOENT)
  else
    update_cache (Invalidate pathname);;
    result ← unlocked (on_pepper (pp_Delete pathname));
    if result =? PP_ERROR_FILENOTFOUND then mret (Err ENOENT)
    else if negb (result =? PP_OK) then mret (Err EISDIR)
    else
      on_inodes (λ i, (tt, RemoveInodeLocked pathname i));;
      update_cache (SetNotExistent pathname);;
      mret (Ok 0).

Definition pepper_rename (oldpath newpath : str) : St W (res Z) :=
  nonexistent ← on_cache (IsNonExistent oldpath);
  if (nonexistent : bool) then mret (Err ENOENT)
  else
    old_entry ← on_cache (Get oldpath);
    update_cache (InvalidateEntriesWithPrefix oldpath);;
    update_cache (InvalidateEntriesWithPrefix newpath);;
    result ← unlocked (on_pepper (pp_Rename oldpath newpath));
    if negb (result =? PP_OK) then mret (Err (ConvertPepperErrorToErrno result))
    else
      (if negb (bool_decide (oldpath = newpath)) then update_cache (SetNotExistentDirectory oldpath) else mret tt);;
      match old_entry with
      | Some e => update_cache (Set_ newpath (file_info e) true)
      | None => mret tt
      end;;
      on_inodes (λ i, (tt, ReassignInodeLocked oldpath newpath i));;
      mret (Ok 0).

Definition pepper_rmdir (this_remove : str → St W (res Z)) (pathname : str) : St W (res Z) := this_remove pathname.
Definition pepper_unlink (this_remove : str → St W (res Z)) (pathname : str) : St W (res Z) := this_remove pathname.

(** The stream that is made goes away at the end. *)
Definition pepper_truncate (this_open : str → Z → St W (res opened)) (pathname : str) (length : Z) : St W (res Z) :=
  nonexistent ← on_cache (IsNonExistent pathname);
  if (nonexistent : bool) then mret (Err ENOENT)
  else
    stream ← this_open pathname O_WRONLY;
    match stream with
    | Err e => check (negb (is_errno [EEXIST; ENOMEM; ENOSPC] e));; mret (Err e)
    | Ok (OpenedFile f) => r ← pf_ftruncate f length; PepperFile_destroy f;; mret r
    | Ok (OpenedDirectory _) => mret directory_ftruncate
    end.

(** [times] is [None] for NULL, else the seconds of the two times. *)
Definition pepper_utimes (pathname : str) (times : option (Z * Z)) : St W (res Z) :=
  nonexistent ← on_cache (IsNonExistent pathname);
  if (nonexistent : bool) then mret (Err ENOENT)
  else
    match times with
    | None => mret (Err EACCES)
    | Some (atime, mtime) =>
        update_cache (Invalidate pathname);;
        result ← unlocked (on_pepper (pp_Touch pathname atime mtime));
        if result =? PP_OK then mret (Ok 0)
        else
          let e := ConvertPepperErrorToErrno result in
          check (negb (is_errno [EEXIST; EISDIR; ENOMEM; ENOSPC] e));; mret (Err e)
    end.

Definition pepper_InvalidateCache : St W unit := update_cache Clear.

Definition pepper_AddToCache (path : str) (info : PP_FileInfo) (exists_ : bool) : St W unit :=
  update_cache (Set_ path info exists_).

Definition pepper_OnMounted (IsMainThread : bool) (path : str) : St W unit :=
  known ← (if IsMainThread then mret true else r ← QueryRefLocked path; mret (r.1 =? PP_OK));
  check known;;
  if negb (EndsWithSlash path) then mret tt
  else update_cache (Set_ path (mkFileInfo PP_FILETYPE_DIRECTORY 4096 0) true).

Definition pepper_OnUnmounted (path : str) : St W unit := update_cache (Invalidate path).

(** What the virtual file system is told of a stream. *)
Definition opened_stream (o : opened) : NewStream :=
  match o with
  | OpenedFile f => mkNewStream (pf_oflag f) (pf_pathname f) pf_GetStreamType
  | OpenedDirectory p => DirectoryFileStream (lit "pepper") p
  end.

(** The class as a file system of the virtual one. *)
Definition PepperFileHandler (fuel : nat) (browser_ready : W → bool) (Wait : St W unit) (IsMainThread : bool) :
    FileSystemHandler W :=
  mkHandler (λ w, pepper_IsInitialized (browser_ready w) w) (pepper_Initialize fuel browser_ready Wait)
    (pepper_OnMounted IsMainThread) pepper_OnUnmounted pepper_InvalidateCache pepper_IsWorldWritable
    (λ p _, pepper_mkdir p)
    (λ _ p oflag _, r ← pepper_open p oflag; mret match r with Ok o => Ok (opened_stream o) | Err e => Err e end)
    (λ p, r ← pepper_OnDirectoryContentsNeeded p; mret match r with Ok d => Some d | Err _ => None end)
    Base.readlink pepper_remove pepper_rename (pepper_rmdir pepper_remove)
    (λ p, r ← pepper_stat p; mret match r with Ok st => Ok (f_stat st) | Err e => Err e end)
    (pepper_statfs pepper_stat) Base.symlink (pepper_truncate pepper_open) (pepper_unlink pepper_remove)
    (λ p times, pepper_utimes p (Some (tv_sec times.1, tv_sec times.2))).
End Pepper.
