(* ===== verification/PepperFileProperties.v ===== *)
(** * PepperFileProperties: what the cache of [pepper_file.cc] does not change

    As long as no other thread gets in between, the files of Pepper answer every call as
    they would without the cache of PepperFileCache.v, which is there for the time that
    Pepper takes.  What is relied on of Pepper are the laws [PepperLaws]. *)

From Stdlib Require Import QArith.
From S2P Require Import Prelude BaseStrings PathUtil Util DirectoryManager FileSystemHandler PepperFileCache PepperFile.

#[local] Open Scope Z_scope.

(** ** What a query shows *)

(** [stat] looks at whether a file exists and, unless it is a directory, at its size and
    its time. *)
Definition seen (r : Z * PP_FileInfo) : option (option (Z * Z)) :=
  if r.1 =? PP_OK then
    Some (match fi_type r.2 with
          | PP_FILETYPE_DIRECTORY => None
          | _ => Some (fi_size r.2, time_t_of (last_modified_time r.2))
          end)
  else None.

Definition entry_seen (e : CacheEntry) : option (option (Z * Z)) :=
  seen (if entry_exists e then PP_OK else PP_ERROR_FILENOTFOUND, file_info e).

Lemma entry_of_query result info : entry_seen (mkCacheEntry (result =? PP_OK) info) = seen (result, info).
Proof. unfold entry_seen, seen. cbn. by destruct (result =? PP_OK). Qed.

Lemma entry_not_seen e : entry_seen e = None ↔ entry_exists e = false.
Proof. unfold entry_seen, seen. by destruct (entry_exists e). Qed.

Lemma seen_ok r : is_Some (seen r) ↔ r.1 = PP_OK.
Proof. unfold seen. rewrite <-Z.eqb_eq. destruct (r.1 =? PP_OK); naive_solver. Qed.

(** Flags with which [Open] may change a file. *)
Definition may_change (flags : Z) : bool :=
  has flags (Z.lor PP_FILEOPENFLAG_WRITE (Z.lor PP_FILEOPENFLAG_CREATE
    (Z.lor PP_FILEOPENFLAG_TRUNCATE PP_FILEOPENFLAG_APPEND))).

Section Laws.
Context `{BaseStrings} {F : Type} `{PepperFileSystem F}.

(** Nothing has changed but the files of [P]. *)
Definition elsewhere (P : str → Prop) (f f' : F) : Prop := ∀ q, ¬ P q → seen (pp_Query q f') = seen (pp_Query q f).

Definition nowhere (f f' : F) : Prop := ∀ q, seen (pp_Query q f') = seen (pp_Query q f).

Lemma nowhere_elsewhere P f f' : nowhere f f' → elsewhere P f f'.
Proof. intros Hn q _. apply Hn. Qed.
End Laws.

(** The file system of Pepper when nobody else uses it. *)
Class PepperLaws (F : Type) `{BaseStrings, PepperFileSystem F} := {
  (* the file that a [pp::FileIO] and a native descriptor are for *)
  names_io : nat → str → F → Prop;
  names_handle : Z → str → F → Prop;
  (* a slash at the end of a path makes no difference *)
  query_name : ∀ p q f, same_path p q → seen (pp_Query p f) = seen (pp_Query q f);
  (* a file that is not there is not found by the other calls either *)
  absent_open : ∀ p flags f, seen (pp_Query p f) = None → has flags PP_FILEOPENFLAG_CREATE = false →
    (pp_Open p flags f).1.1 = PP_ERROR_FILENOTFOUND ∧ (pp_Open p flags f).2 = f;
  absent_delete : ∀ p f, seen (pp_Query p f) = None → pp_Delete p f = (PP_ERROR_FILENOTFOUND, f);
  absent_rename : ∀ p q f, seen (pp_Query p f) = None → pp_Rename p q f = (PP_ERROR_FILENOTFOUND, f);
  absent_touch : ∀ p a m f, seen (pp_Query p f) = None → pp_Touch p a m f = (PP_ERROR_FILENOTFOUND, f);
  absent_entries : ∀ p f, seen (pp_Query p f) = None → (pp_ReadDirectoryEntries p f).1 = PP_ERROR_FILENOTFOUND;
  (* and one that is there is not made again *)
  present_make : ∀ p f, is_Some (seen (pp_Query p f)) → pp_MakeDirectory p f = (PP_ERROR_FILEEXISTS, f);
  (* calls change the files that they are about *)
  open_only : ∀ p flags f, let r := pp_Open p flags f in
    elsewhere (λ q, may_change flags = true ∧ same_path q p) f r.2 ∧ (r.1.1 = PP_OK → names_io r.1.2 p r.2);
  handle_only : ∀ io f, let r := pp_RequestOSFileHandle io f in
    nowhere f r.2 ∧ ∀ p, names_io io p f → names_io io p r.2;
  make_only : ∀ p f, elsewhere (λ q, same_path q p) f (pp_MakeDirectory p f).2;
  delete_only : ∀ p f, elsewhere (λ q, same_path q p) f (pp_Delete p f).2;
  delete_deletes : ∀ p f, (pp_Delete p f).1 = PP_OK → seen (pp_Query p (pp_Delete p f).2) = None;
  rename_only : ∀ p q f,
    elsewhere (λ x, same_path x p ∨ below x p = true ∨ same_path x q ∨ below x q = true) f (pp_Rename p q f).2;
  rename_keeps : ∀ p q f, (pp_Rename p q f).1 = PP_OK →
    p ≠ lit "/" ∧ seen (pp_Query q (pp_Rename p q f).2) = seen (pp_Query p f);
  touch_only : ∀ p a m f, elsewhere (λ q, same_path q p) f (pp_Touch p a m f).2;
  set_length_only : ∀ io n p f, names_io io p f → elsewhere (λ q, same_path q p) f (pp_SetLength io n f).2;
  write_only : ∀ h b p f, names_handle h p f → elsewhere (λ q, same_path q p) f (real_write h b f).2;
  close_only : ∀ h f, nowhere f (real_close h f).2;
  read_only : ∀ h n f, nowhere f (real_read h n f).2;
  lseek_only : ∀ h o w f, nowhere f (real_lseek64 h o w f).2;
}.

(** ** A cache that tells the truth *)

Lemma has_lor x a b : has x (Z.lor a b) = has x a || has x b.
Proof.
  unfold has. rewrite Z.land_lor_distr_r, <-negb_andb. f_equal. apply eq_true_iff_eq.
  rewrite andb_true_iff, !Z.eqb_eq. apply Z.lor_eq_0_iff.
Qed.

Lemma flags_create oflag :
  has oflag O_CREAT = false → has (ConvertNativeOpenFlagsToPepper oflag) PP_FILEOPENFLAG_CREATE = false.
Proof.
  intros E. unfold ConvertNativeOpenFlagsToPepper. rewrite E.
  destruct (Z.land oflag O_ACCMODE =? O_WRONLY), (Z.land oflag O_ACCMODE =? O_RDONLY),
    (Z.land oflag O_ACCMODE =? O_RDWR), (has oflag O_EXCL), (has oflag O_TRUNC),
    (has oflag O_APPEND); reflexivity.
Qed.

Lemma flags_read_only oflag :
  negb (Z.land oflag O_ACCMODE =? O_RDONLY) || has oflag (Z.lor O_CREAT O_TRUNC) = false →
  may_change (ConvertNativeOpenFlagsToPepper oflag) = false.
Proof.
  rewrite has_lor, orb_false_iff, negb_false_iff, orb_false_iff. intros (Em%Z.eqb_eq & Ec & Et).
  unfold ConvertNativeOpenFlagsToPepper. rewrite Em, Ec, Et.
  destruct (has oflag O_EXCL), (has oflag O_APPEND); reflexivity.
Qed.

Section Coherent.
Context `{BaseStringsSpec} {F M : Type} `{PepperFileSystem F} `{!PepperLaws F} `{MRUCacheSpec CacheEntry M}.
Implicit Types (c : PepperFileCache M) (f : F).

Definition coherent c f : Prop := ∀ p e, says p c = Some e → entry_seen e = seen (pp_Query p f).

Lemma coherent_new n f : coherent (PepperFileCache_new n) f.
Proof. intros p e. by rewrite says_new. Qed.

Lemma coherent_nowhere c f f' : coherent c f → nowhere f f' → coherent c f'.
Proof. intros Hc Hn p e Hs. rewrite (Hn p). by apply Hc. Qed.

Lemma coherent_same c c' f : coherent c f → (∀ q, says q c' = says q c) → coherent c' f.
Proof. intros Hc Hs p e. rewrite Hs. apply Hc. Qed.

(** Entries that are invalidated before the file changes. *)
Lemma coherent_invalidate p c f f' :
  coherent c f → elsewhere (λ q, same_path q p) f f' → coherent (Invalidate p c) f'.
Proof.
  intros Hc He q e. rewrite says_invalidate. case_decide as Hq; [done|].
  rewrite (He q Hq). apply Hc.
Qed.

Lemma coherent_invalidated p c f : coherent c f → coherent (Invalidate p c) f.
Proof. intros Hc. by apply (coherent_invalidate p c f). Qed.

Lemma coherent_set p info x c f :
  coherent c f → entry_seen (mkCacheEntry x info) = seen (pp_Query p f) → coherent (Set_ p info x c) f.
Proof.
  intros Hc He q e [[_ Hs]|[Hq ->]]%says_set_old; [by apply Hc|]. by rewrite (query_name q p).
Qed.

Lemma coherent_not_existent p c f :
  coherent c f → seen (pp_Query p f) = None → coherent (SetNotExistent p c) f.
Proof. intros Hc Hs. unfold SetNotExistent. destruct (IsCacheEnabled c); [|done]. by apply coherent_set. Qed.

Lemma coherent_clear c f : coherent (Clear c) f.
Proof. intros p e. by rewrite says_clear. Qed.

(** Where [rename] marks the files of the old directory, none is left in the cache. *)
Lemma slash_prefix p x :
  p ≠ lit "/" → (if EndsWithSlash p then p else p ++ lit "/") `prefix_of` x →
  StartsWithASCII x (RemoveTrailingSlash p ++ lit "/") = true.
Proof.
  intros Hp Hx. rewrite StartsWithASCII_spec. apply bool_decide_true.
  unfold RemoveTrailingSlash. destruct (EndsWithSlash p) eqn:E; cbn [negb]; [|by rewrite orb_true_r].
  apply ends_slash in E as [t ->]. destruct t as [|a t]; [done|].
  rewrite orb_false_r, length_app, Nat.add_1_r. cbn [List.length Nat.ltb Nat.leb Nat.sub].
  change (S (List.length t)) with (List.length (a :: t)). by rewrite take_app_length.
Qed.

Abbreviation both p q := (λ x, same_path x p ∨ below x p = true ∨ same_path x q ∨ below x q = true).

Lemma coherent_forgotten p q c f f' :
  coherent c f → elsewhere (both p q) f f' →
  coherent (InvalidateEntriesWithPrefix q (InvalidateEntriesWithPrefix p c)) f'.
Proof.
  intros Hc He x e. rewrite !says_invalidate_prefix. case_decide as Hxq; [done|]. destruct (below x q) eqn:Hbq; [done|].
  case_decide as Hxp; [done|]. destruct (below x p) eqn:Hbp; [done|]. rewrite (He x) by (intros [?|[?|[?|?]]]; congruence). apply Hc.
Qed.

Lemma coherent_renamed p q c f f' :
  coherent c f → p ≠ lit "/" → elsewhere (both p q) f f' →
  coherent (SetNotExistentDirectory p (InvalidateEntriesWithPrefix q (InvalidateEntriesWithPrefix p c))) f'.
Proof.
  intros Hc Hp He x e [Hs|(-> & [e' Hs] & Hx)]%says_not_existent_directory; [by eapply coherent_forgotten|].
  exfalso. apply (slash_prefix _ _ Hp) in Hx. change (below x p = true) in Hx.
  rewrite !says_invalidate_prefix, Hx in Hs. case_decide; [done|]. destruct (below x q); [done|]. by case_decide.
Qed.

(** ** Looking up *)

Lemma coherent_get p c f :
  coherent c f → ∃ o c', Get p c = (o, c') ∧ coherent c' f ∧
  (∀ e, o = Some e → entry_seen e = seen (pp_Query p f)).
Proof.
  intros Hc. destruct (says_get p c) as (Ho & _ & Hs). exists (Get p c).1, (Get p c).2.
  split; [by destruct (Get p c)|]. split; [by eapply coherent_same|]. intros e He. apply Hc. by rewrite <-Ho.
Qed.

Lemma coherent_non_existent p c f :
  coherent c f → ∃ b c', IsNonExistent p c = (b, c') ∧ coherent c' f ∧ (b = true → seen (pp_Query p f) = None).
Proof.
  intros Hc. destruct (says_non_existent p c) as (Hb & _ & Hs). exists (IsNonExistent p c).1, (IsNonExistent p c).2.
  split; [by destruct (IsNonExistent p c)|]. split; [by eapply coherent_same|]. rewrite Hb.
  destruct (says p c) as [e|] eqn:E; [|done]. intros He%negb_true_iff. rewrite <-(Hc _ _ E). by apply entry_not_seen.
Qed.

(** *** Without a cache *)

Section Disabled.
Context c (Hz : size_ c = 0%nat).

Ltac disabled := unfold SetNotExistentDirectory, SetNotExistent, Set_, Get, IsNonExistent, Invalidate,
  InvalidateEntriesWithPrefix, Clear, IsCacheEnabled; by rewrite Hz.

Lemma get_disabled p : Get p c = (None, c).
Proof. disabled. Qed.
Lemma non_existent_disabled p : IsNonExistent p c = (false, c).
Proof. disabled. Qed.
Lemma set_disabled p info x : Set_ p info x c = c.
Proof. disabled. Qed.
Lemma set_not_existent_disabled p : SetNotExistent p c = c.
Proof. disabled. Qed.
Lemma not_existent_directory_disabled p : SetNotExistentDirectory p c = c.
Proof. disabled. Qed.
Lemma invalidate_disabled p : Invalidate p c = c.
Proof. disabled. Qed.
Lemma invalidate_prefix_disabled p : InvalidateEntriesWithPrefix p c = c.
Proof. disabled. Qed.
Lemma clear_disabled : Clear c = c.
Proof. disabled. Qed.
End Disabled.
End Coherent.

(** ** Calls, with a cache and without *)

Section Calls.
Context `{BaseStringsSpec} {F I M : Type} `{PepperFileSystem F} `{!PepperLaws F} `{MRUCacheSpec CacheEntry M}.
Context (GetInodeLocked : str → I → Z * I) (RemoveInodeLocked : str → I → I).
Context (ReassignInodeLocked : str → str → I → I).
Context (FilePath_Append : str → str → str) (max_descriptors : Z).

Abbreviation W := (World F I M).
Abbreviation alone := (mret tt : St W unit).

(** The calls of the handler and of the streams that it opened.  [rmdir] and [unlink] are
    [remove]; [IsWorldWritable], [fsync] and [fdatasync] answer constants; [Initialize]
    only waits. *)
Inductive pepper_call : Type :=
| Stat_ (p : str)
| Statfs_ (p : str)
| Open_ (p : str) (oflag : Z)
| ReadDirectory (p : str)
| Mkdir (p : str)
| Remove (p : str)
| Rename (p q : str)
| Truncate (p : str) (length : Z)
| Utimes (p : str) (times : option (Z * Z))
| Mounted (main : bool) (p : str)
| Unmounted (p : str)
| ForgetAll
| Known (p : str) (info : PP_FileInfo) (exists_ : bool)
| SetFileSystem (path_in_vfs : str)
| Mmap (s : PepperFile) (addr length prot flags offset : Z)
| Munmap (s : PepperFile) (addr length : Z)
| DebugWrite (s : PepperFile) (buf : str)
| GetSize (s : PepperFile)
| Read (s : PepperFile) (count : Z)
| Write (s : PepperFile) (buf : str)
| Lseek (s : PepperFile) (offset whence : Z)
| Fstat (s : PepperFile)
| Ftruncate (s : PepperFile) (length : Z)
| Fionread (s : PepperFile)
| Close (s : PepperFile).

Inductive answer : Type :=
| AStat (r : res FileStat)
| AStatfs (r : res StatFs)
| AOpen (r : res opened)
| ADirectory (r : res DirImpl)
| ANumber (r : res Z)
| AText (r : res str)
| ANothing.

Definition answers_with {A} (f : A → answer) (m : St W A) : St W answer := a ← m; mret (f a).

Definition run_call (k : pepper_call) : St W answer :=
  match k with
  | Stat_ p => answers_with AStat (pepper_stat GetInodeLocked alone p)
  | Statfs_ p => answers_with AStatfs (pepper_statfs (pepper_stat GetInodeLocked alone) p)
  | Open_ p oflag => answers_with AOpen (pepper_open GetInodeLocked alone max_descriptors p oflag)
  | ReadDirectory p => answers_with ADirectory (pepper_OnDirectoryContentsNeeded alone FilePath_Append p)
  | Mkdir p => answers_with ANumber (pepper_mkdir alone p)
  | Remove p => answers_with ANumber (pepper_remove RemoveInodeLocked alone p)
  | Rename p q => answers_with ANumber (pepper_rename ReassignInodeLocked alone p q)
  | Truncate p n => answers_with ANumber (pepper_truncate alone (pepper_open GetInodeLocked alone max_descriptors) p n)
  | Utimes p times => answers_with ANumber (pepper_utimes alone p times)
  | Mounted main p => answers_with (λ _, ANothing) (pepper_OnMounted alone main p)
  | Unmounted p => answers_with (λ _, ANothing) (pepper_OnUnmounted p)
  | ForgetAll => answers_with (λ _, ANothing) pepper_InvalidateCache
  | Known p info x => answers_with (λ _, ANothing) (pepper_AddToCache p info x)
  | SetFileSystem p => answers_with (λ p, AText (Ok p)) (pepper_SetPepperFileSystem p)
  | Mmap s a l prot flags o => answers_with ANumber (pf_mmap s a l prot flags o)
  | Munmap s a l => answers_with ANumber (pf_munmap s a l)
  | DebugWrite s b => answers_with (λ _, ANothing) (pf_debug_write s b)
  | GetSize s => answers_with (λ n, ANumber (Ok n)) (pf_GetSize s)
  | Read s n => answers_with AText (pf_read s n)
  | Write s b => answers_with ANumber (pf_write s b)
  | Lseek s o w => answers_with ANumber (pf_lseek s o w)
  | Fstat s => answers_with AStat (pf_fstat s)
  | Ftruncate s n => answers_with ANumber (pf_ftruncate alone s n)
  | Fionread s => answers_with ANumber (pf_ioctl_FIONREAD s)
  | Close s => answers_with (λ _, ANothing) (PepperFile_destroy s)
  end.

(** What callers see to: directories are mounted, what they add to the cache is true,
    [utimes] without times is for files that are there, and a stream that is written to
    still has the name with which it was opened.  Of mappings it is asked that they change
    no file but, when they are writable, their own, and of [debug_write] that it changes
    nothing that [stat] shows. *)
Definition permitted (k : pepper_call) (f : F) : Prop :=
  match k with
  | Mounted _ p => EndsWithSlash p = true → seen (pp_Query p f) = Some None
  | Known p info x => entry_seen (mkCacheEntry x info) = seen (pp_Query p f)
  | Write s _ => names_handle (native_handle (file_ s)) (pf_pathname s) f
  | Ftruncate s _ => names_io (file_io (file_ s)) (pf_pathname s) f
  | Utimes p None => is_Some (seen (pp_Query p f))
  | Mmap s a l prot flags o =>
      elsewhere (λ q, has prot PROT_WRITE = true ∧ same_path q (pf_pathname s)) f
        (host_mmap a l prot flags (native_handle (file_ s)) o f).2
  | Munmap s a l =>
      elsewhere (λ q, negb (Z.land (pf_oflag s) O_ACCMODE =? O_RDONLY) = true ∧ same_path q (pf_pathname s)) f
        (host_munmap a l f).2
  | DebugWrite s b => nowhere f (real_write (native_handle (file_ s)) b f).2
  | _ => True
  end.

(** The answers with the state of Pepper and the inode numbers at the end. *)
Fixpoint run_calls (ks : list pepper_call) : St W (list answer) :=
  match ks with
  | [] => mret []
  | k :: ks => a ← run_call k; r ← run_calls ks; mret (a :: r)
  end.

Definition answers (ks : list pepper_call) (w : W) : outcome (list answer * F * I) :=
  r ← run_calls ks w; mret (r.1, pepper r.2, inodes r.2).

Fixpoint all_permitted (ks : list pepper_call) (w : W) : Prop :=
  match ks with
  | [] => True
  | k :: ks => permitted k (pepper w) ∧
      match run_call k w with Done (_, w') => all_permitted ks w' | _ => True end
  end.

(** *** Twins *)

Definition twin (w w0 : W) : Prop :=
  pepper w = pepper w0 ∧ inodes w = inodes w0 ∧ file_system_ w = file_system_ w0 ∧
  size_ (cache_ w0) = 0%nat ∧ coherent (cache_ w) (pepper w).

Definition agree {A} (o o0 : outcome (A * W)) : Prop :=
  match o, o0 with
  | Done (a, w), Done (a0, w0) => a = a0 ∧ twin w w0
  | Abort, Abort | NoFuel, NoFuel => True
  | _, _ => False
  end.

Definition alike {A} (m : St W A) : Prop := ∀ w w0, twin w w0 → agree (m w) (m w0).

Lemma agree_bind {A B} (m : St W A) (k : A → St W B) w w0 :
  agree (m w) (m w0) →
  (∀ a w1 w2, m w0 = Done (a, w2) → twin w1 w2 → agree (k a w1) (k a w2)) → agree ((m ≫= k) w) ((m ≫= k) w0).
Proof.
  unfold mbind, St_bind. destruct (m w) as [[a w1]| |], (m w0) as [[a0 w2]| |] eqn:E0; cbn; try done.
  intros [<- Ht] Hk. by apply Hk.
Qed.

Lemma alike_bind {A B} (m : St W A) (k : A → St W B) : alike m → (∀ a, alike (k a)) → alike (m ≫= k).
Proof. intros Hm Hk w w0 Ht. apply agree_bind; [by apply Hm|]. intros a w1 w2 _ Ht'. by apply Hk. Qed.

Lemma alike_ret {A} (a : A) : alike (mret a).
Proof. by intros w w0 Ht. Qed.

Lemma alike_check b : alike (check b).
Proof. intros w w0 Ht. unfold check. by destruct b. Qed.

Lemma unlocked_alone {A} (m : St W A) w : unlocked alone m w = m w.
Proof. unfold unlocked, mbind, mret, St_bind, St_ret. by destruct (m w) as [[a w']| |]. Qed.

Lemma alike_inodes {A} (f : I → A * I) : alike (on_inodes f).
Proof. intros [] [] (Hp & Hi & Hf & Hz & Hc). cbn in *. subst. by split. Qed.

Lemma alike_ask {A} (f : F → A) : alike (ask f).
Proof. intros [] [] (Hp & Hi & Hf & Hz & Hc). cbn in *. subst. by split. Qed.

Lemma alike_pepper {A} (g : F → A * F) : (∀ f, nowhere f (g f).2) → alike (on_pepper g).
Proof.
  intros Hg [f i c b] [? ? c0 ?] (Hp & Hi & Hf & Hz & Hc). cbn in *. subst. split; [done|].
  split_and!; cbn; [done..|]. by eapply coherent_nowhere.
Qed.

Lemma alike_claim p : alike (claim_inode GetInodeLocked p).
Proof. unfold claim_inode. case_bool_decide; [apply alike_ret|apply alike_inodes]. Qed.

Lemma alike_close h : alike (CloseHandle h).
Proof.
  unfold CloseHandle. apply alike_bind; [apply alike_check|intros _].
  apply alike_bind; [apply alike_pepper, close_only|intros r; apply alike_check].
Qed.

(** *** The steps of calls *)

(** What is known of a file is forgotten before it changes. *)
Lemma agree_forget_then {A B} p (g : F → A * F) (k : A → St W B) w w0 :
  twin w w0 → elsewhere (λ q, same_path q p) (pepper w) (g (pepper w)).2 →
  (∀ a w1 w2, twin w1 w2 → g (pepper w) = (a, pepper w1) → agree (k a w1) (k a w2)) →
  agree ((update_cache (Invalidate p);; a ← unlocked alone (on_pepper g); k a) w)
        ((update_cache (Invalidate p);; a ← unlocked alone (on_pepper g); k a) w0).
Proof.
  destruct w as [f i c b], w0 as [f0 i0 c0 b0]. intros (Hp & Hi & Hf & Hz & Hc) He Hk. cbn in *. subst.
  unfold mbind, St_bind at 1 3. cbn. rewrite (invalidate_disabled c0) by done.
  unfold mbind, St_bind. rewrite !unlocked_alone. cbn. apply Hk; [|by destruct (g _)].
  split_and!; cbn; [done..|]. by eapply coherent_invalidate.
Qed.

(** The calls that the cache answers with ENOENT at once. *)
Lemma agree_unless_absent {A} p (e : A) (rest : St W A) w w0 :
  twin w w0 → (seen (pp_Query p (pepper w)) = None → rest w0 = Done (e, w0)) →
  (∀ w1, twin w1 w0 → pepper w1 = pepper w → agree (rest w1) (rest w0)) →
  agree ((b ← on_cache (IsNonExistent p); if (b : bool) then mret e else rest) w)
        ((b ← on_cache (IsNonExistent p); if (b : bool) then mret e else rest) w0).
Proof.
  destruct w as [f i c b], w0 as [f0 i0 c0 b0]. intros (Hp & Hi & Hf & Hz & Hc) Ha Hr. cbn in *. subst.
  unfold mbind, St_bind, on_cache. cbn [cache_ pepper inodes file_system_]. rewrite (non_existent_disabled c0) by done. cbn.
  destruct (coherent_non_existent p c f0 Hc) as (x & c' & -> & Hc' & Hx). cbn. destruct x.
  - rewrite (Ha (Hx eq_refl)). cbn. by split_and!.
  - apply Hr; [by split_and!|done].
Qed.

Ltac alike :=
  repeat first
    [ done
    | match goal with Ht : twin ?w ?w0 |- agree (?m ?w) (?m ?w0) => cut (alike m); [intros Halike; exact (Halike w w0 Ht)|] end
    | apply alike_ret | apply alike_check | apply alike_inodes | apply alike_ask | apply alike_claim | apply alike_close
    | apply alike_bind; [|intros ?]
    | progress case_match ].

(** The call of Pepper that finds no file, or one that is there, with no cache. *)
Ltac answers_at_once :=
  unfold mbind, St_bind at 1; cbn; rewrite ?invalidate_disabled, ?invalidate_prefix_disabled by done;
  unfold St_bind; rewrite ?unlocked_alone; cbn.

Lemma agree_utimes p times w w0 :
  twin w w0 → (times = None → is_Some (seen (pp_Query p (pepper w)))) →
  agree (pepper_utimes alone p times w) (pepper_utimes alone p times w0).
Proof.
  intros Ht Hn. unfold pepper_utimes. apply agree_unless_absent; [done| |]; (destruct times as [[a m]|];
    [|try (intros Ha; by destruct (Hn eq_refl) as [? ?]; congruence); intros; by apply alike_ret]).
  - intros Ha. destruct w0 as [f i c b], Ht as (Hp & _ & _ & Hz & _). cbn in *. rewrite Hp in Ha.
    answers_at_once. by rewrite absent_touch.
  - intros w1 Ht1 _. apply agree_forget_then; [done|apply touch_only|]. intros r w2 w3 Ht2 _. alike.
Qed.

Lemma alike_mkdir p : alike (pepper_mkdir alone p).
Proof.
  intros [f i c b] [f0 i0 c0 b0] (Hp & Hi & Hf & Hz & Hc). cbn in *. subst. unfold pepper_mkdir.
  set (rest := update_cache (Invalidate p);; _).
  assert (∀ c', coherent c' f0 → agree (rest (mkWorld f0 i0 c' b0)) (rest (mkWorld f0 i0 c0 b0))) as Hrest.
  { intros c' Hc'. apply agree_forget_then; [by split_and!|apply make_only|]. intros r w2 w3 Ht2 _. alike. }
  unfold mbind, St_bind, on_cache. cbn [cache_ pepper inodes file_system_]. rewrite (get_disabled c0) by done. cbn.
  destruct (coherent_get p c f0 Hc) as (o & c' & -> & Hc' & Ho). cbn.
  destruct o as [e|]; [destruct (entry_exists e) eqn:Ee|]; [|by apply Hrest..].
  subst rest. answers_at_once. rewrite present_make; [cbn; by split_and!|].
  rewrite <-(Ho e) by done. unfold entry_seen, seen. rewrite Ee. cbn. by eexists.
Qed.
(** [stat] shows what a query shows. *)
Lemma alike_fill_stat p (k k0 : bool * PP_FileInfo) w w0 :
  twin w w0 → entry_seen (mkCacheEntry k.1 k.2) = entry_seen (mkCacheEntry k0.1 k0.2) →
  agree (fill_stat GetInodeLocked p k w) (fill_stat GetInodeLocked p k0 w0).
Proof.
  intros Ht. destruct k as [x [t s m]], k0 as [x0 [t0 s0 m0]]. unfold entry_seen, seen, fill_stat. cbn.
  destruct x, x0; cbn; try done; destruct t, t0; cbn; try done; try (intros [= -> ->]); intros; alike.
Qed.

Lemma alike_stat p : alike (pepper_stat GetInodeLocked alone p).
Proof.
  intros [f i c b] [f0 i0 c0 b0] (Hp & Hi & Hf & Hz & Hc). cbn in *. subst. unfold pepper_stat, QueryRefLocked.
  unfold mbind, St_bind, on_cache. cbn [cache_ pepper inodes file_system_]. rewrite (get_disabled c0) by done.
  destruct (coherent_get p c f0 Hc) as (o & c' & -> & Hc' & Ho). cbn [fst snd].
  destruct o as [e|]; rewrite !unlocked_alone; cbn; destruct (pp_Query p f0) as [r info] eqn:Eq; cbn;
    rewrite (set_disabled c0) by done.
  - apply alike_fill_stat; [by split_and!|]. cbn. rewrite entry_of_query, <-(Ho e) by done. by destruct e.
  - apply alike_fill_stat; [|done]. split_and!; cbn; [done..|]. apply coherent_set; [done|].
    by rewrite entry_of_query, Eq.
Qed.

Lemma alike_statfs p : alike (pepper_statfs (pepper_stat GetInodeLocked alone) p).
Proof. unfold pepper_statfs. apply alike_bind; [apply alike_stat|]. intros r. alike. Qed.

Lemma alike_entries p : alike (pepper_OnDirectoryContentsNeeded alone FilePath_Append p).
Proof.
  unfold pepper_OnDirectoryContentsNeeded. case_bool_decide as Ep; cbn [orb]; [alike|].
  intros w w0 Ht. apply (agree_unless_absent p (Err ENOENT)); [done| |].
  - intros Ha. destruct w0 as [f i c b], Ht as (Hp & _). cbn in *. rewrite Hp in Ha. apply absent_entries in Ha.
    unfold mbind, St_bind. rewrite unlocked_alone. cbn. destruct (pp_ReadDirectoryEntries p f) as [r d]. cbn in *. by subst.
  - intros w1 Ht1 _. apply agree_bind.
    { rewrite !unlocked_alone. by apply alike_ask. }
    intros [r d] w2 w3 _ Ht2. destruct (negb (r =? PP_OK)); [alike|].
    unfold lift. by destruct (list_directory _ _ _).
Qed.
(** *** Opening *)

Lemma agree_open_io p flags w w0 :
  twin w w0 → (may_change flags = true → ∀ q, same_path q p → says q (cache_ w) = None) →
  agree (open_file_io max_descriptors p flags w) (open_file_io max_descriptors p flags w0).
Proof.
  destruct w as [f i c b], w0 as [f0 i0 c0 b0]. intros (Hp & Hi & Hf & Hz & Hc) Hs. cbn in *. subst.
  unfold open_file_io, mbind, St_bind. cbn.
  assert (coherent c (pp_Open p flags f0).2) as Ho.
  { intros q e Hq. rewrite (proj1 (open_only p flags f0) q); [by apply Hc|]. intros [Hm Hsame]. by rewrite Hs in Hq. }
  destruct (pp_Open p flags f0) as [[r io] f1]. cbn in *. destruct (r =? PP_OK); [|by split_and!]. cbn.
  pose proof (coherent_nowhere c f1 _ Ho (proj1 (handle_only io f1))) as Hh.
  destruct (pp_RequestOSFileHandle io f1) as [[r1 h] f2]. cbn in *. destruct (r1 =? PP_OK); [|by split_and!].
  unfold check. destruct (h <? max_descriptors); [by split_and!|done].
Qed.

Lemma open_at_pepper_absent p oflag w :
  size_ (cache_ w) = 0%nat → seen (pp_Query p (pepper w)) = None → has oflag O_CREAT = false →
  open_at_pepper GetInodeLocked alone max_descriptors p oflag w = Done (Err ENOENT, w).
Proof.
  destruct w as [f i c b]. cbn. intros Hz Ha Hcr. unfold open_at_pepper. unfold mbind at 1, St_bind at 1.
  assert (∀ x : bool, (if x then update_cache (Invalidate p) else mret tt) (mkWorld f i c b) = Done (tt, mkWorld f i c b))
    as Hinv.
  { intros []; [|done]. unfold update_cache, on_cache. cbn. by rewrite (invalidate_disabled c). }
  rewrite Hinv.
  unfold mbind, St_bind. rewrite unlocked_alone. destruct (absent_open p _ f Ha (flags_create _ Hcr)) as [E1 E2].
  unfold open_file_io, mbind, St_bind. cbn. destruct (pp_Open _ _ _) as [[r io] f1]. cbn in *. by subst.
Qed.

Lemma open_absent p oflag w :
  size_ (cache_ w) = 0%nat → seen (pp_Query p (pepper w)) = None → has oflag O_CREAT = false →
  pepper_open GetInodeLocked alone max_descriptors p oflag w = Done (Err ENOENT, w).
Proof.
  intros Hz Ha Hcr. unfold pepper_open. rewrite Hcr, orb_false_r. case_bool_decide; cbn [orb]; [done|].
  destruct w as [f i c b]. unfold mbind, St_bind, on_cache. cbn [cache_ pepper inodes file_system_] in *.
  rewrite (non_existent_disabled c) by done. by apply open_at_pepper_absent.
Qed.

Lemma alike_open_at_pepper p oflag : alike (open_at_pepper GetInodeLocked alone max_descriptors p oflag).
Proof.
  intros w w0 Ht. unfold open_at_pepper. set (inv := negb _ || _).
  assert (∃ w1 w2, (if inv then update_cache (Invalidate p) else mret tt) w = Done (tt, w1) ∧
    (if inv then update_cache (Invalidate p) else mret tt) w0 = Done (tt, w2) ∧ twin w1 w2 ∧
    (inv = true → ∀ q, same_path q p → says q (cache_ w1) = None)) as (w1 & w2 & E1 & E2 & Ht1 & Hs).
  { destruct w as [f i c b], w0 as [f0 i0 c0 b0]. destruct Ht as (Hp & Hi & Hf & Hz & Hc). cbn in *. subst.
    unfold update_cache, on_cache. destruct inv; cbn; (do 2 eexists; split; [done|split; [done|]]); [|by split_and!].
    rewrite (invalidate_disabled c0) by done. split; [split_and!; cbn; [done..|by apply coherent_invalidated]|].
    cbn. intros _ q Hq. rewrite says_invalidate. by case_decide. }
  rewrite (St_bind_run _ _ _ _ _ E1), (St_bind_run _ _ _ _ _ E2).
  apply agree_bind.
  { rewrite !unlocked_alone. apply agree_open_io; [done|]. intros Hm. apply Hs. subst inv.
    apply not_false_iff_true. intros Hf. by rewrite flags_read_only in Hm. }
  intros [r wr] w3 w4 _ Ht2. unfold PepperFile_new. alike.
Qed.

Lemma alike_open p oflag : alike (pepper_open GetInodeLocked alone max_descriptors p oflag).
Proof.
  intros w w0 Ht. unfold pepper_open. case_bool_decide; cbn [orb]; [by apply alike_ret|].
  destruct (has oflag O_CREAT) eqn:Hcr; [by apply alike_open_at_pepper|].
  apply (agree_unless_absent p (Err ENOENT)); [done| |].
  - intros Ha. destruct Ht as (Hp & _ & _ & Hz & _). apply open_at_pepper_absent; [done| |done]. by rewrite <-Hp.
  - intros w1 Ht1 _. by apply alike_open_at_pepper.
Qed.
(** *** Changing the tree *)

Lemma alike_remove p : alike (pepper_remove RemoveInodeLocked alone p).
Proof.
  intros w w0 Ht. unfold pepper_remove. apply agree_unless_absent; [done| |].
  - intros Ha. destruct w0 as [f i c b], Ht as (Hp & _ & _ & Hz & _). cbn in *. rewrite Hp in Ha.
    answers_at_once. by rewrite absent_delete.
  - intros w1 Ht1 Hp. apply agree_forget_then; [done|apply delete_only|]. intros r w2 w3 Ht2 E.
    destruct (r =? PP_ERROR_FILENOTFOUND); [alike|]. destruct (r =? PP_OK) eqn:Er; cbn [negb]; [|alike].
    apply Z.eqb_eq in Er as ->. pose proof (delete_deletes p (pepper w1)) as Hd. rewrite E in Hd. specialize (Hd eq_refl).
    destruct w2 as [f i c b], w3 as [f0 i0 c0 b0], Ht2 as (? & ? & ? & Hz & Hc). cbn in *. subst.
    unfold mbind, St_bind, update_cache, on_cache, on_inodes. cbn. rewrite (set_not_existent_disabled c0) by done. split; [done|]. split_and!; cbn; [done..|].
    by apply coherent_not_existent.
Qed.

Lemma alike_rename p q : alike (pepper_rename ReassignInodeLocked alone p q).
Proof.
  intros w w0 Ht. unfold pepper_rename. apply agree_unless_absent; [done| |].
  - intros Ha. destruct w0 as [f i c b], Ht as (Hp & _ & _ & Hz & _). cbn in *. rewrite Hp in Ha.
    unfold mbind, St_bind, on_cache. cbn. rewrite (get_disabled c) by done. cbn.
    rewrite !(invalidate_prefix_disabled c), unlocked_alone by done. cbn. by rewrite absent_rename.
  - intros w1 Ht1 _. destruct w1 as [f i c b], w0 as [f0 i0 c0 b0], Ht1 as (? & ? & ? & Hz & Hc). cbn in *. subst.
    unfold mbind, St_bind, on_cache. cbn [cache_ pepper inodes file_system_]. rewrite (get_disabled c0) by done.
    destruct (coherent_get p c f0 Hc) as (o & c' & -> & Hc' & Ho). cbn.
    rewrite !(invalidate_prefix_disabled c0), !unlocked_alone by done. cbn.
    pose proof (rename_only p q f0) as He. pose proof (rename_keeps p q f0) as Hk.
    destruct (pp_Rename p q f0) as [r f1] eqn:Hr. cbn in *.
    destruct (r =? PP_OK) eqn:Er; cbn [negb]; [|split; [done|split_and!; cbn; [done..|by eapply coherent_forgotten]]].
    apply Z.eqb_eq in Er as ->. destruct (Hk eq_refl) as [Hroot Hq].
    pose proof (coherent_forgotten p q c' f0 f1 Hc' He) as H1'.
    pose proof (coherent_renamed p q c' f0 f1 Hc' Hroot He) as H2'.
    set (c1 := InvalidateEntriesWithPrefix q _) in *.
    assert (∀ (x : bool) (w : W), (if x then update_cache (SetNotExistentDirectory p) else mret tt) w =
      Done (tt, mkWorld (pepper w) (inodes w) (if x then SetNotExistentDirectory p (cache_ w) else cache_ w) (file_system_ w)))
      as Hd by (by intros [] []).
    rewrite !Hd. cbn. rewrite (not_existent_directory_disabled c0) by done.
    set (d := if negb _ then _ else _). assert (coherent d f1) as Hdc by (subst d; by case_match).
    replace (if negb (bool_decide (p = q)) then c0 else c0) with c0 by (by case_match).
    destruct o as [e|]; cbn; [|by split_and!].
    split; [done|]. split_and!; cbn; [done..|]. apply coherent_set; [done|]. rewrite Hq, <-(Ho e) by done.
    destruct e as [[] info]; [done|]. by rewrite (absent_rename p q f0) in Hr by (symmetry; by apply (Ho _ eq_refl)).
Qed.
(** *** Streams *)

(** What holds if a call ends. *)
Definition gives {A} (P : A → W → Prop) (m : St W A) (w : W) : Prop :=
  match m w with Done (a, w') => P a w' | _ => True end.

Lemma gives_bind {A B} (Q : A → W → Prop) (P : B → W → Prop) m (k : A → St W B) w :
  gives Q m w → (∀ a w', Q a w' → gives P (k a) w') → gives P (m ≫= k) w.
Proof. unfold gives, mbind, St_bind. destruct (m w) as [[a w']| |]; intros Hq Hk; [by apply Hk|done..]. Qed.

Lemma gives_true {A} (m : St W A) w : gives (λ _ _, True) m w.
Proof. unfold gives. by destruct (m w) as [[]| |]. Qed.

(** A stream has the file that was opened, under its name. *)
Definition named (r : res opened) (w : W) : Prop :=
  match r with Ok (OpenedFile s) => names_io (file_io (file_ s)) (pf_pathname s) (pepper w) | _ => True end.

Lemma open_names p oflag w : gives named (pepper_open GetInodeLocked alone max_descriptors p oflag) w.
Proof.
  unfold pepper_open. eapply gives_bind; [apply gives_true|]. intros n w1 _. destruct (_ || n); [done|].
  unfold open_at_pepper. eapply gives_bind; [apply gives_true|]. intros _ w2 _.
  apply (gives_bind (λ rw w', rw.1 = PP_OK → names_io (file_io rw.2) p (pepper w'))).
  { unfold gives. rewrite unlocked_alone. unfold open_file_io, mbind, St_bind. cbn.
    destruct (open_only p (ConvertNativeOpenFlagsToPepper oflag) (pepper w2)) as [_ Hn].
    destruct (pp_Open _ _ _) as [[r io] f1]. cbn in *. destruct (r =? PP_OK) eqn:Er; cbn; [|by intros ->].
    apply Z.eqb_eq, Hn in Er. destruct (handle_only io f1) as [_ Hh].
    destruct (pp_RequestOSFileHandle io f1) as [[r1 h] f2]. cbn in *. apply Hh in Er.
    unfold check, mret, St_ret. destruct (r1 =? PP_OK); [|done]. by destruct (h <? max_descriptors). }
  intros [r wr] w3 Hn. cbn in *. destruct (r =? PP_OK) eqn:Er.
  - apply Z.eqb_eq in Er. apply (gives_bind (λ _ w', pepper w' = pepper w3)).
    { unfold gives, check. by destruct (negb _). }
    intros _ w4 E4. destruct (has oflag O_DIRECTORY).
    { eapply gives_bind; [apply gives_true|intros ? ? _; exact Logic.I]. }
    apply (gives_bind (λ s w', file_ s = wr ∧ pf_pathname s = p ∧ pepper w' = pepper w4)).
    { unfold gives, PepperFile_new, claim_inode, on_inodes, mbind, mret, St_bind, St_ret. by case_bool_decide. }
    intros s w5 (Es & Ep & E5). cbn. rewrite Es, Ep, E5, E4. auto.
  - eapply gives_bind; [apply gives_true|]. intros _ w4 _. destruct (r =? PP_ERROR_NOTAFILE); [|done].
    destruct (negb _); [done|]. eapply gives_bind; [apply gives_true|intros ? ? _; exact Logic.I].
Qed.

Lemma agree_ftruncate s n w w0 :
  twin w w0 → names_io (file_io (file_ s)) (pf_pathname s) (pepper w) →
  agree (pf_ftruncate alone s n w) (pf_ftruncate alone s n w0).
Proof.
  intros Ht Hn. unfold pf_ftruncate. case_match; [by apply alike_ret|].
  apply agree_forget_then; [done|by apply set_length_only|]. intros r w1 w2 Ht1 _. alike.
Qed.

Lemma agree_write s b w w0 :
  twin w w0 → names_handle (native_handle (file_ s)) (pf_pathname s) (pepper w) →
  agree (pf_write s b w) (pf_write s b w0).
Proof.
  destruct w as [f i c b'], w0 as [f0 i0 c0 b0]. intros (Hp & Hi & Hf & Hz & Hc) Hn. cbn in *. subst.
  unfold pf_write, mbind, St_bind. cbn. rewrite (invalidate_disabled c0) by done.
  split; [done|]. split_and!; cbn; [done..|]. eapply coherent_invalidate; [done|by apply write_only].
Qed.

Lemma alike_truncate p n :
  alike (pepper_truncate alone (pepper_open GetInodeLocked alone max_descriptors) p n).
Proof.
  intros w w0 Ht. unfold pepper_truncate. apply agree_unless_absent; [done| |].
  - intros Ha. destruct Ht as (Hp & _ & _ & Hz & _). rewrite Hp in Ha.
    by rewrite (St_bind_run _ _ _ _ _ (open_absent p O_WRONLY w0 Hz Ha eq_refl)).
  - intros w1 Ht1 _. apply agree_bind; [by apply alike_open|]. intros r w2 w3 E Ht2.
    pose proof (open_names p O_WRONLY w0) as Hn. unfold gives in Hn. rewrite E in Hn.
    destruct r as [e|[s|d]]; [alike| |alike]. cbn in Hn. destruct Ht2 as (Hp2 & Ht2). rewrite <-Hp2 in Hn.
    apply agree_bind; [by apply agree_ftruncate|]. intros r w4 w5 _ Ht3. unfold PepperFile_destroy. alike.
Qed.

Lemma alike_read s n : alike (pf_read s n).
Proof. apply alike_pepper, read_only. Qed.

Lemma alike_set_file_system p : alike (pepper_SetPepperFileSystem p).
Proof.
  intros [f i c b] [f0 i0 c0 b0] (Hp & Hi & Hf & Hz & Hc). cbn in *. subst.
  unfold pepper_SetPepperFileSystem, mbind, St_bind, get, check. cbn. destruct b0; [done|]. cbn. by split_and!.
Qed.

(** What is known of a file is forgotten after it may have changed. *)
Lemma agree_then_forget (may : bool) {A} p (g : F → A * F) w w0 :
  twin w w0 → elsewhere (λ q, may = true ∧ same_path q p) (pepper w) (g (pepper w)).2 →
  let m := a ← on_pepper g; (if may then update_cache (Invalidate p) else mret tt);; mret a in
  agree (m w) (m w0).
Proof.
  destruct w as [f i c b], w0 as [f0 i0 c0 b0]. intros (Hp & Hi & Hf & Hz & Hc) He. cbn in *. subst.
  unfold mbind, St_bind. cbn. destruct may; cbn.
  - rewrite (invalidate_disabled c0) by done. split; [done|]. split_and!; cbn; [done..|].
    eapply coherent_invalidate; [done|]. intros q Hq. apply He. naive_solver.
  - split; [done|]. split_and!; cbn; [done..|]. eapply coherent_nowhere; [done|]. intros q. apply He. naive_solver.
Qed.

Lemma agree_pepper {A} (g : F → A * F) w w0 :
  twin w w0 → nowhere (pepper w) (g (pepper w)).2 → agree (on_pepper g w) (on_pepper g w0).
Proof.
  destruct w as [f i c b], w0 as [f0 i0 c0 b0]. intros (Hp & Hi & Hf & Hz & Hc) He. cbn in *. subst.
  split; [done|]. split_and!; cbn; [done..|]. by eapply coherent_nowhere.
Qed.

Lemma alike_lseek s o wh : alike (pf_lseek s o wh).
Proof. apply alike_pepper, lseek_only. Qed.

Lemma alike_fionread s : alike (pf_ioctl_FIONREAD s).
Proof.
  unfold pf_ioctl_FIONREAD, pf_fstat. apply alike_bind; [apply alike_lseek|]. intros [e|pos]; alike.
Qed.

(** *** Mounting and what callers know *)

Lemma agree_set p info x w w0 :
  twin w w0 → entry_seen (mkCacheEntry x info) = seen (pp_Query p (pepper w)) →
  agree (update_cache (Set_ p info x) w) (update_cache (Set_ p info x) w0).
Proof.
  destruct w as [f i c b'], w0 as [f0 i0 c0 b0]. intros (Hp & Hi & Hf & Hz & Hc) Hn. cbn in *. subst.
  unfold update_cache, on_cache. cbn. rewrite (set_disabled c0) by done.
  split; [done|]. split_and!; cbn; [done..|]. by apply coherent_set.
Qed.

Lemma agree_mounted main p w w0 :
  twin w w0 → permitted (Mounted main p) (pepper w) →
  agree (pepper_OnMounted alone main p w) (pepper_OnMounted alone main p w0).
Proof.
  intros Ht Hd. cbn in Hd. unfold pepper_OnMounted.
  assert (∀ w1 w2 : W, twin w1 w2 → pepper w1 = pepper w →
    agree ((if negb (EndsWithSlash p) then mret tt
            else update_cache (Set_ p (mkFileInfo PP_FILETYPE_DIRECTORY 4096 0) true)) w1)
          ((if negb (EndsWithSlash p) then mret tt
            else update_cache (Set_ p (mkFileInfo PP_FILETYPE_DIRECTORY 4096 0) true)) w2)) as Hset.
  { intros w1 w2 Ht1 E. destruct (EndsWithSlash p); cbn [negb]; [|by apply alike_ret].
    apply agree_set; [done|]. by rewrite E, Hd. }
  destruct main; unfold mbind, mret, St_bind, St_ret, check; [by apply Hset|].
  unfold QueryRefLocked. rewrite !unlocked_alone. unfold ask, gets.
  destruct Ht as (Hp & Ht). rewrite <-Hp. destruct (_ =? PP_OK); [|done]. by apply Hset.
Qed.

Lemma alike_forget (g : PepperFileCache M → PepperFileCache M) :
  (∀ c f, coherent c f → coherent (g c) f) → (∀ c, size_ c = 0%nat → g c = c) → alike (update_cache g).
Proof.
  intros Hg Hn [f i c b'] [f0 i0 c0 b0] (Hp & Hi & Hf & Hz & Hc). cbn in *. subst.
  unfold update_cache, on_cache. cbn. rewrite (Hn c0) by done. split; [done|]. split_and!; cbn; [done..|]. by apply Hg.
Qed.

(** *** Any call, and any number of them *)

Lemma agree_answers_with {A} (h : A → answer) (m : St W A) w w0 :
  agree (m w) (m w0) → agree (answers_with h m w) (answers_with h m w0).
Proof. intros Hm. apply agree_bind; [done|]. intros a w1 w2 _ Ht. by apply alike_ret. Qed.

Lemma agree_call k w w0 : twin w w0 → permitted k (pepper w) → agree (run_call k w) (run_call k w0).
Proof.
  intros Ht Hp. destruct k; apply agree_answers_with; cbn in Hp.
  - by apply alike_stat.
  - by apply alike_statfs.
  - by apply alike_open.
  - by apply alike_entries.
  - by apply alike_mkdir.
  - by apply alike_remove.
  - by apply alike_rename.
  - by apply alike_truncate.
  - apply agree_utimes; [done|]. by intros ->.
  - by apply agree_mounted.
  - apply alike_forget; [intros c f; apply coherent_invalidated|intros c Hz; by apply invalidate_disabled|done].
  - apply alike_forget; [intros c f _; apply coherent_clear|by apply clear_disabled|done].
  - by apply agree_set.
  - by apply alike_set_file_system.
  - by apply (agree_then_forget (has prot PROT_WRITE)).
  - by apply (agree_then_forget (negb (Z.land (pf_oflag s) O_ACCMODE =? O_RDONLY))).
  - unfold pf_debug_write. apply agree_bind; [by apply agree_pepper|]. intros r w1 w2 _ Ht1. by apply alike_ret.
  - unfold pf_GetSize, pf_fstat. alike.
  - by apply alike_read.
  - by apply agree_write.
  - by apply alike_lseek.
  - unfold pf_fstat. alike.
  - by apply agree_ftruncate.
  - by apply alike_fionread.
  - by apply alike_close.
Qed.

Lemma agree_calls ks w w0 : twin w w0 → all_permitted ks w0 → agree (run_calls ks w) (run_calls ks w0).
Proof.
  revert w w0. induction ks as [|k ks IH]; intros w w0 Ht; [by intros _; apply alike_ret|].
  intros [Hk Hks]. cbn [run_calls]. apply agree_bind.
  { apply agree_call; [done|]. by rewrite (proj1 Ht). }
  intros a w1 w2 E Ht1. rewrite E in Hks. apply agree_bind; [by apply IH|]. intros r w3 w4 _ Ht2. by apply alike_ret.
Qed.

(** C30.  The cache in front of Pepper's files changes no answer.  For any calls of the
    handler and of the streams it opened, mappings included, one call after the other and
    with no other thread between the steps of a call, a handler that remembers any number
    of files gives the answers of a handler without a cache, with the same errors, the same
    assertions that fail, the same files in Pepper and the same inode numbers in the end:
    an entry is forgotten or corrected before it is wrong.  This is on condition that
    directories are mounted, what is added to the cache is true, a stream is written to and
    truncated while the file has the name it was opened with, mapping and unmapping change
    no file but, for a writable mapping or stream, the file itself, and with two exceptions
    where the code does not see to it: [debug_write], which leaves the entry of its file in
    the cache, must change nothing that [stat] shows, and [utimes] without times, which
    answers ENOENT only for a file that the cache knows to be absent, is for files that are
    there. *)
Theorem cache_is_transparent (size : nat) (ks : list pepper_call) (f : F) (i : I) :
  all_permitted ks (PepperFileHandler_new 0 f i : W) →
  answers ks (PepperFileHandler_new size f i) = answers ks (PepperFileHandler_new 0 f i).
Proof.
  intros Hks. unfold answers.
  assert (twin (PepperFileHandler_new size f i) (PepperFileHandler_new 0 f i)) as Ht
    by (split_and!; cbn; [done..|apply coherent_new]).
  pose proof (agree_calls ks _ _ Ht Hks) as Ha. unfold agree in Ha.
  destruct (run_calls ks _) as [[r w]| |], (run_calls ks _) as [[r0 w0]| |]; try done.
  cbn. destruct Ha as (-> & Hp & Hi & _). by rewrite Hp, Hi.
Qed.
End Calls.

(** ** A small file system with the laws *)

Module SmallDisk.
Section SmallDisk.
Context `{BaseStrings}.

(** Files by name with their sizes, and the files of the [pp::FileIO]s so far, whose numbers
    are also those of the descriptors. *)
Record disk : Type := mkDisk { files : gmap str PP_FileInfo; ios : list str }.

Abbreviation key := RemoveTrailingSlash.

Definition is_directory (i : PP_FileInfo) : bool := bool_decide (fi_type i = PP_FILETYPE_DIRECTORY).

Definition put (k : str) (i : PP_FileInfo) (d : disk) : disk := mkDisk (<[k:=i]> (files d)) (ios d).

(** A change of a file that is there. *)
Definition change (k : option str) (g : PP_FileInfo → PP_FileInfo) (d : disk) : disk :=
  match k with Some k => mkDisk (alter g k (files d)) (ios d) | None => d end.

Definition resize (g : Z → Z) (i : PP_FileInfo) : PP_FileInfo :=
  mkFileInfo (fi_type i) (g (fi_size i)) (last_modified_time i).

Definition query (p : str) (d : disk) : Z * PP_FileInfo :=
  match files d !! key p with Some i => (PP_OK, i) | None => (PP_ERROR_FILENOTFOUND, no_file_info) end.

Definition open (p : str) (flags : Z) (d : disk) : Z * nat * disk :=
  let opened d := (PP_OK, List.length (ios d), mkDisk (files d) (ios d ++ [key p])) in
  match files d !! key p with
  | None => if has flags PP_FILEOPENFLAG_CREATE then opened (put (key p) no_file_info d)
            else (PP_ERROR_FILENOTFOUND, 0%nat, d)
  | Some i =>
      if is_directory i then (PP_ERROR_NOTAFILE, 0%nat, d)
      else if has flags PP_FILEOPENFLAG_EXCLUSIVE then (PP_ERROR_FILEEXISTS, 0%nat, d)
      else opened (if has flags PP_FILEOPENFLAG_TRUNCATE then change (Some (key p)) (resize (λ _, 0)) d else d)
  end.

(** Files only. *)
Definition rename (p q : str) (d : disk) : Z * disk :=
  match files d !! key p with
  | None => (PP_ERROR_FILENOTFOUND, d)
  | Some i =>
      if is_directory i || bool_decide (p = lit "/") then (PP_ERROR_NOACCESS, d)
      else (PP_OK, mkDisk (<[key q:=i]> (delete (key p) (files d)))
                          ((λ k, if decide (k = key p) then key q else k) <$> ios d))
  end.

Definition when_there {A} (p : str) (d : disk) (a : A) (b : A) : A :=
  match files d !! key p with Some _ => a | None => b end.

#[export] Instance calls : PepperFileSystem disk := {|
  pp_Query := query;
  pp_MakeDirectory p d :=
    when_there p d (PP_ERROR_FILEEXISTS, d) (PP_OK, put (key p) (mkFileInfo PP_FILETYPE_DIRECTORY 0 0) d);
  pp_Delete p d :=
    when_there p d (PP_OK, mkDisk (delete (key p) (files d)) (ios d)) (PP_ERROR_FILENOTFOUND, d);
  pp_Rename := rename;
  pp_Touch p a m d :=
    when_there p d (PP_OK, change (Some (key p)) (λ i, mkFileInfo (fi_type i) (fi_size i) (inject_Z m)) d)
      (PP_ERROR_FILENOTFOUND, d);
  pp_ReadDirectoryEntries p d :=
    when_there p d (PP_OK, omap (λ x, if StartsWithASCII x.1 (key p ++ lit "/")
                                      then Some (drop (S (List.length (key p))) x.1, fi_type x.2) else None)
                                (map_to_list (files d)))
      (PP_ERROR_FILENOTFOUND, []);
  pp_Open := open;
  pp_RequestOSFileHandle io d := (PP_OK, Z.of_nat io, d);
  pp_SetLength io n d := (PP_OK, change (ios d !! io) (resize (λ _, n)) d);
  real_close h d := (Ok 0, d);
  real_read h n d := (Ok [], d);
  real_write h b d :=
    (Ok (Z.of_nat (List.length b)),
     change (ios d !! Z.to_nat h) (resize (λ s, s + Z.of_nat (List.length b))) d);
  real_lseek64 h o w d := (Ok 0, d);
  real_fstat h d := Err EBADF;
  host_mmap _ _ _ _ _ _ d := (Err ENOMEM, d);
  host_munmap _ _ d := (Ok 0, d);
|}.

Lemma seen_query p d : seen (pp_Query p d) = None ↔ files d !! key p = None.
Proof. cbn. unfold query, seen. by destruct (files d !! key p). Qed.

Lemma elsewhere_files (P : str → Prop) (d d' : disk) :
  (∀ q, ¬ P q → files d' !! key q = files d !! key q) → elsewhere P d d'.
Proof. intros Hf q Hq. cbn. unfold query. by rewrite Hf. Qed.

Lemma put_only p i d : elsewhere (λ q, same_path q p) d (put (key p) i d).
Proof. apply elsewhere_files. intros q Hq. cbn. apply lookup_insert_ne. intros E. by apply Hq. Qed.

Lemma change_only k p g d : k = Some (key p) → elsewhere (λ q, same_path q p) d (change k g d).
Proof. intros ->. apply elsewhere_files. intros q Hq. cbn. apply lookup_alter_ne. intros E. by apply Hq. Qed.

Lemma elsewhere_weaken (P Q : str → Prop) (d d' : disk) : (∀ q, P q → Q q) → elsewhere P d d' → elsewhere Q d d'.
Proof. intros HPQ He q Hq. apply He. intros HP. by apply Hq, HPQ. Qed.

Lemma open_only_one p flags d : let r := open p flags d in
  elsewhere (λ q, may_change flags = true ∧ same_path q p) d r.2 ∧ (r.1.1 = PP_OK → ios r.2 !! r.1.2 = Some (key p)).
Proof.
  assert (∀ P (d1 : disk), elsewhere P d d1 → ios d1 = ios d →
    elsewhere P d (mkDisk (files d1) (ios d1 ++ [key p])) ∧
    (PP_OK = PP_OK → (ios d1 ++ [key p]) !! List.length (ios d1) = Some (key p))) as Hopened.
  { intros P d1 He _. split; [exact He|]. intros _. by apply list_lookup_middle. }
  assert (elsewhere (λ q, may_change flags = true ∧ same_path q p) d d) as Hd by (by intros q _).
  unfold open. cbn zeta. destruct (files d !! key p) as [i|] eqn:E.
  - destruct (is_directory i); [done|]. destruct (has flags PP_FILEOPENFLAG_EXCLUSIVE); [done|].
    destruct (has flags PP_FILEOPENFLAG_TRUNCATE) eqn:Et; [|by apply Hopened]. apply Hopened; [|done].
    apply (elsewhere_weaken (λ q, same_path q p)); [|by apply change_only]. intros q Hq. split; [|done].
    unfold may_change. rewrite !has_lor, Et. by rewrite !orb_true_r.
  - destruct (has flags PP_FILEOPENFLAG_CREATE) eqn:Ec; [|done]. apply Hopened; [|done].
    apply (elsewhere_weaken (λ q, same_path q p)); [|apply put_only]. intros q Hq. split; [|done].
    unfold may_change. rewrite !has_lor, Ec. by rewrite !orb_true_r.
Qed.

Lemma rename_only_two p q d :
  elsewhere (λ x, same_path x p ∨ below x p = true ∨ same_path x q ∨ below x q = true) d (rename p q d).2.
Proof.
  unfold rename. destruct (files d !! key p) as [i|]; [|done]. destruct (_ || _); [done|].
  apply elsewhere_files. intros x Hx. cbn. rewrite lookup_insert_ne, lookup_delete_ne; [done|..];
    intros E; apply Hx; unfold same_path; auto.
Qed.

Lemma rename_keeps_file p q d :
  (rename p q d).1 = PP_OK → p ≠ lit "/" ∧ seen (query q (rename p q d).2) = seen (query p d).
Proof.
  unfold rename. destruct (files d !! key p) as [i|] eqn:E; [|done]. destruct (is_directory i); [done|].
  case_bool_decide; cbn [orb]; [done|]. intros _. split; [done|]. cbn [snd]. unfold query. cbn [files].
  by rewrite lookup_insert_eq, E.
Qed.

Lemma when_there_only (P : str → Prop) {A} p (d : disk) (x y : A) (g : A → disk) :
  elsewhere P d (g x) → elsewhere P d (g y) → elsewhere P d (g (when_there p d x y)).
Proof. unfold when_there. by destruct (files d !! key p). Qed.

#[export] Instance laws : PepperLaws disk.
Proof.
  refine {| names_io io p d := ios d !! io = Some (key p);
            names_handle h p d := ios d !! Z.to_nat h = Some (key p) |}; cbn [pp_Delete pp_Open pp_Rename pp_Touch
    pp_MakeDirectory pp_ReadDirectoryEntries pp_RequestOSFileHandle pp_SetLength real_close real_read real_write
    real_lseek64 calls].
  - intros p q d Hpq. cbn. unfold query. by rewrite Hpq.
  - intros p flags d Ha%seen_query Hc. unfold open. by rewrite Ha, Hc.
  - intros p d Ha%seen_query. unfold when_there. by rewrite Ha.
  - intros p q d Ha%seen_query. unfold rename. by rewrite Ha.
  - intros p a m d Ha%seen_query. unfold when_there. by rewrite Ha.
  - intros p d Ha%seen_query. unfold when_there. by rewrite Ha.
  - intros p d Ha. unfold when_there. destruct (files d !! key p) eqn:E; [done|]. apply seen_query in E.
    rewrite E in Ha. by destruct Ha.
  - intros p flags d. apply open_only_one.
  - intros io d. by split.
  - intros p d. apply (when_there_only _ _ _ _ _ snd); [done|apply put_only].
  - intros p d. apply (when_there_only _ _ _ _ _ snd); [|done]. apply elsewhere_files. intros q Hq. cbn.
    apply lookup_delete_ne. intros E. by apply Hq.
  - intros p d. unfold when_there. destruct (files d !! key p) eqn:E; [|done]. intros _. apply seen_query. cbn.
    apply lookup_delete_eq.
  - apply rename_only_two.
  - apply rename_keeps_file.
  - intros p a m d. apply (when_there_only _ _ _ _ _ snd); [by apply change_only|done].
  - intros io n p d Hn. by apply change_only.
  - intros h b p d Hn. by apply change_only.
  - done.
  - done.
  - done.
Defined.
End SmallDisk.
End SmallDisk.

(** ** Examples *)

Section Examples.
#[local] Existing Instances Reference.base_strings Reference.base_strings_spec SmallDisk.calls SmallDisk.laws
  RecencyList.mru RecencyList.mru_spec.

(** Inode numbers are taken from a counter. *)
Abbreviation counted := (λ (_ : str) (n : nat), (Z.of_nat n, S n)).
Abbreviation answers_of := (answers counted (λ _ n, n) (λ _ _ n, n) (λ p q, p ++ lit "/" ++ q) 100).
Abbreviation handler size := (PepperFileHandler_new size (SmallDisk.mkDisk ∅ []) 0%nat :
  World SmallDisk.disk nat (RecencyList.cache (V := CacheEntry))).

(** The stream of the first file that is opened, as [/a]. *)
Definition first_stream : PepperFile := mkPepperFile (Z.lor O_RDWR O_CREAT) (lit "/a") 0 (mkFileIO 0 0).

Definition a_day : list pepper_call :=
  [Mkdir (lit "/d"); Mounted false (lit "/d/"); Stat_ (lit "/a"); Open_ (lit "/a") O_RDONLY;
   Open_ (lit "/a") (Z.lor O_RDWR O_CREAT); Stat_ (lit "/a"); Write first_stream (lit "hello"); Stat_ (lit "/a");
   Mkdir (lit "/a"); Rename (lit "/a") (lit "/b"); Stat_ (lit "/a"); Stat_ (lit "/b"); Truncate (lit "/b") 2;
   Stat_ (lit "/b"); Utimes (lit "/c") (Some (3, 4));
   Mmap first_stream 0 4096 PROT_WRITE 1 0; Munmap first_stream 0 4096; GetSize first_stream; ReadDirectory (lit "/d"); Remove (lit "/b"); Stat_ (lit "/b");
   Rename (lit "/b") (lit "/c"); Truncate (lit "/b") 0; Statfs_ (lit "/d/"); Close first_stream].

Definition ends {A} (o : outcome A) : bool := match o with Done _ => true | _ => false end.

Lemma cache_is_transparent_witness :
  ends (answers_of a_day (handler 2)) = true ∧ answers_of a_day (handler 2) = answers_of a_day (handler 0).
Proof.
  split; [vm_compute; reflexivity|].
  apply (cache_is_transparent counted (λ _ n, n) (λ _ _ n, n) _ 100 2 a_day). vm_compute. tauto.
Defined.

(** What [stat] says of the size of [/b] at the end. *)
Definition size_of_b (size : nat) (ks : list pepper_call) : option Z :=
  match answers_of (ks ++ [Stat_ (lit "/b")]) (handler size) with
  | Done (r, _, _) => match last r with Some (AStat (Ok st)) => Some (st_size (f_stat st)) | _ => None end
  | _ => None
  end.

(** After a file has been renamed, writing to a stream of it leaves its entry in the cache
    as it was: what is forgotten is the old name. *)
Definition written_after_rename : list pepper_call :=
  [Open_ (lit "/a") (Z.lor O_RDWR O_CREAT); Stat_ (lit "/a"); Rename (lit "/a") (lit "/b");
   Write first_stream (lit "hello")].

Example stale_size : size_of_b 1024 written_after_rename = Some 0 ∧ size_of_b 0 written_after_rename = Some 5.
Proof. vm_compute. auto. Qed.

(** [debug_write] does not invalidate: what [stat] was told before stays in the cache. *)
Definition debug_written : list pepper_call :=
  [Open_ (lit "/b") (Z.lor O_RDWR O_CREAT); Stat_ (lit "/b");
   DebugWrite (mkPepperFile (Z.lor O_RDWR O_CREAT) (lit "/b") 0 (mkFileIO 0 0)) (lit "hello")].

Example stale_after_debug_write : size_of_b 1024 debug_written = Some 0 ∧ size_of_b 0 debug_written = Some 5.
Proof. vm_compute. auto. Qed.

(** [utimes] without times, of a file that is not there. *)
Definition utimes_answer (size : nat) : option answer :=
  match answers_of [Stat_ (lit "/b"); Utimes (lit "/b") None] (handler size) with
  | Done (r, _, _) => last r
  | _ => None
  end.

Example utimes_without_times :
  utimes_answer 1024 = Some (ANumber (Err ENOENT)) ∧ utimes_answer 0 = Some (ANumber (Err EACCES)).
Proof. vm_compute. auto. Qed.

(** Another thread removes [/a] while [stat] waits for Pepper the second time: the answer of
    Pepper, from before, goes into the cache for good. *)
Definition meanwhile : St (World SmallDisk.disk nat (RecencyList.cache (V := CacheEntry))) unit :=
  n ← on_inodes (λ n, (n, S n));
  if (n =? 1)%nat then pepper_remove (λ _ n, n) (mret tt) (lit "/a");; mret tt else mret tt.

Definition exists_after_race (size : nat) : option bool :=
  match (pepper_open counted (mret tt) 100 (lit "/a") (Z.lor O_WRONLY O_CREAT);;
         on_inodes (λ _, (tt, 0%nat));;
         pepper_stat counted meanwhile (lit "/a");;
         pepper_stat counted (mret tt) (lit "/a")) (handler size) with
  | Done (Ok _, _) => Some true
  | Done (Err _, _) => Some false
  | _ => None
  end.

Example stat_races : exists_after_race 1024 = Some true ∧ exists_after_race 0 = Some false.
Proof. vm_compute. auto. Qed.
End Examples.
