(* ===== verification/Redirect.v ===== *)
(** * Redirect: [redirect.{h,cc}] (under src/posix_translation/)

    A handler that adds symbolic links to another one.  It is a
    [FileSystemHandler] made from the [FileSystemHandler] underneath. *)

From S2P Require Import Prelude BaseStrings PathUtil Util DirectoryManager FileSystemHandler.

#[local] Open Scope Z_scope.

(** [symlinks_], [dir_to_symlinks_], [mount_point_] and [is_initialized_]. *)
Record RedirectHandler : Type := mkRedirect {
  is_initialized_ : bool;
  symlinks_ : gmap str str;
  dir_to_symlinks_ : gmap str (list str);
  mount_point_ : str;
}.

Section Redirect.
Context `{BaseStrings} {U : Type} (underlying : FileSystemHandler U).

(** The state of the handler underneath and of this one. *)
Abbreviation R := (U * RedirectHandler)%type.

Definition under {A} (m : St U A) : St R A := λ w,
  match m w.1 with
  | Done (a, u) => Done (a, (u, w.2))
  | Abort => Abort
  | NoFuel => NoFuel
  end.

Definition here {A} (m : St RedirectHandler A) : St R A := λ w,
  match m w.2 with
  | Done (a, r) => Done (a, (w.1, r))
  | Abort => Abort
  | NoFuel => NoFuel
  end.

Definition RemoveTrailingSlash (in_out_path : str) : str :=
  let len := List.length in_out_path in
  if Nat.ltb len 2 || negb (EndsWithSlash in_out_path) then in_out_path
  else take (len - 1) in_out_path.

(** [AddSymlink(dest, src)] *)
Definition AddSymlink (dest src : str) : St RedirectHandler unit :=
  check (negb (EndsWithSlash src));;
  r ← get;
  check (bool_decide (symlinks_ r !! src = None));;
  let dir_name := GetDirName src in
  let link_name := GetBaseName src in
  check (bool_decide (dir_name ≠ []));;
  check (bool_decide (link_name ≠ []));;
  put (mkRedirect (is_initialized_ r) (<[src := dest]> (symlinks_ r))
         (<[dir_name := default [] (dir_to_symlinks_ r !! dir_name) ++ [link_name]]> (dir_to_symlinks_ r))
         (mount_point_ r)).

(** The constructor. *)
Definition RedirectHandler_new (symlinks : list (str * str)) : outcome RedirectHandler :=
  r ← for_each (λ l : str * str, AddSymlink l.1 l.2) symlinks (mkRedirect false ∅ ∅ []);
  mret r.2.

Definition GetSymlinkTarget (src : str) (r : RedirectHandler) : str := default [] (symlinks_ r !! src).

Definition RemoveSymlinkTarget (src : str) : St RedirectHandler bool :=
  r ← get;
  match symlinks_ r !! src with
  | None => mret false
  | Some _ =>
      put (mkRedirect (is_initialized_ r) (delete src (symlinks_ r)) (dir_to_symlinks_ r) (mount_point_ r));;
      mret true
  end.

Definition IsInitialized' (w : R) : bool := IsInitialized underlying w.1 && is_initialized_ w.2.

Definition Initialize' : St R unit :=
  w ← get;
  check (negb (IsInitialized' w));;
  (if negb (IsInitialized underlying w.1) then under (Initialize underlying) else mret tt);;
  here (modify (λ r, mkRedirect true (symlinks_ r) (dir_to_symlinks_ r) (mount_point_ r))).

Definition OnMounted' (path : str) : St R unit :=
  here (modify (λ r, mkRedirect (is_initialized_ r) (symlinks_ r) (dir_to_symlinks_ r)
                       (RemoveTrailingSlash path)));;
  under (OnMounted underlying path).

(** The stream of a directory is replaced, so that its listing has the links. *)
Definition open (fd : Z) (pathname : str) (oflag cmode : Z) : St R (res NewStream) :=
  stream ← under (h_open underlying fd pathname oflag cmode);
  match stream with
  | Ok s =>
      if has (ns_oflag s) O_DIRECTORY then
        check (EndsWith (ns_type s) (lit "_dir"));;
        mret (Ok (DirectoryFileStream (lit "redirect") (ns_pathname s)))
      else mret stream
  | Err _ => mret stream
  end.

Fixpoint add_links (links : list str) (dir : DirImpl) : outcome DirImpl :=
  match links with
  | [] => mret dir
  | l :: links => dir ← Add l SYMLINK dir; add_links links dir
  end.

Definition OnDirectoryContentsNeeded' (name : str) : St R (option DirImpl) :=
  dir ← under (OnDirectoryContentsNeeded underlying name);
  w ← get;
  match dir with
  | None => mret None
  | Some dir => dir ← lift (add_links (default [] (dir_to_symlinks_ w.2 !! name)) dir); mret (Some dir)
  end.

Definition readlink (pathname : str) : St R (res str) :=
  w ← get;
  let rewritten := GetSymlinkTarget pathname w.2 in
  mret (if bool_decide (rewritten = []) then Err EINVAL else Ok rewritten).

(** [remove] and [unlink]. *)
Definition remove_with (call : str → St U (res Z)) (pathname : str) : St R (res Z) :=
  removed ← here (RemoveSymlinkTarget pathname);
  if (removed : bool) then mret (Ok 0) else under (call pathname).

Definition symlink (oldpath newpath : str) : St R (res Z) :=
  w ← get;
  if bool_decide (GetSymlinkTarget newpath (w : R).2 ≠ []) then mret (Err EEXIST)
  else
    exists_ ← (if bool_decide (newpath ≠ mount_point_ w.2) then
                 st ← under (h_stat underlying newpath); mret (is_ok st)
               else mret false);
    if (exists_ : bool) then mret (Err EEXIST)
    else here (AddSymlink oldpath newpath);; mret (Ok 0).

(** The class; what is not above goes underneath. *)
Definition redirect_handler : FileSystemHandler R :=
  mkHandler IsInitialized' Initialize' OnMounted' (λ p, under (OnUnmounted underlying p))
    (under (InvalidateCache underlying)) (λ p, under (IsWorldWritable underlying p))
    (λ p mode, under (h_mkdir underlying p mode)) open OnDirectoryContentsNeeded' readlink
    (remove_with (h_remove underlying)) (λ p q, under (h_rename underlying p q))
    (λ p, under (h_rmdir underlying p)) (λ p, under (h_stat underlying p))
    (λ p, under (h_statfs underlying p)) symlink (λ p n, under (h_truncate underlying p n))
    (remove_with (h_unlink underlying)) (λ p t, under (h_utimes underlying p t)).

(** ** What the class keeps *)

Lemma under_run {A} (m : St U A) (w : R) a u : m w.1 = Done (a, u) → under m w = Done (a, (u, w.2)).
Proof. unfold under. by intros ->. Qed.

(** The calls that only ask, still only ask. *)
Lemma redirect_reads : reads underlying → reads redirect_handler.
Proof.
  intros Hu. split; cbn.
  - intros p [u r]. destruct (reads_stat Hu p u) as (a & Ha & He). exists a. split; [|done]. by apply under_run.
  - intros p w. unfold readlink. by eexists (if bool_decide (GetSymlinkTarget p w.2 = []) then _ else _).
  - intros p [u r]. destruct (reads_world Hu p u) as [b Hb]. exists b. by apply under_run.
Qed.

(** ** Links *)

Lemma here_run {A} (m : St RedirectHandler A) (w : R) a r : m w.2 = Done (a, r) → here m w = Done (a, (w.1, r)).
Proof. unfold here. by intros ->. Qed.

(** The handler after [AddSymlink]. *)
Definition with_link (dest : str) (dir : str) (name : str) (src : str) (r : RedirectHandler) : RedirectHandler :=
  mkRedirect (is_initialized_ r) (<[src := dest]> (symlinks_ r))
    (<[dir := default [] (dir_to_symlinks_ r !! dir) ++ [name]]> (dir_to_symlinks_ r)) (mount_point_ r).

Lemma add_symlink_run `{!BaseStringsSpec} dest ds d r :
  proper (ds ++ [d]) → symlinks_ r !! print_path true (ds ++ [d]) = None →
  AddSymlink dest (print_path true (ds ++ [d])) r =
  Done (tt, with_link dest (print_path true ds) d (print_path true (ds ++ [d])) r).
Proof.
  intros Hp Hn. unfold AddSymlink, mbind, St_bind, check.
  rewrite print_ends_slash by (done || by destruct ds). cbn [negb get]. rewrite Hn, bool_decide_true by done.
  rewrite dir_name_printed, base_name_printed, removelast_last by done.
  apply proper_app in Hp as [Hp Hd].
  rewrite bool_decide_true by by apply print_path_nonempty.
  rewrite bool_decide_true by (inversion Hd as [|?? (_ & _ & ?)]; done). done.
Qed.

(** A link that is seen; one with the empty target is not. *)
Definition link_answer (pathname : str) (r : RedirectHandler) : res str :=
  match symlinks_ r !! pathname with
  | Some t => if bool_decide (t = []) then Err EINVAL else Ok t
  | None => Err EINVAL
  end.

Lemma readlink_run pathname (w : R) : readlink pathname w = Done (link_answer pathname w.2, w).
Proof.
  unfold readlink, link_answer. rewrite (St_bind_run get _ w w w eq_refl). unfold GetSymlinkTarget.
  by destruct (symlinks_ w.2 !! pathname) as [t|].
Qed.

(** Is [newpath] seen to be in use? *)
Definition taken (newpath : str) (w : R) : bool :=
  is_ok (link_answer newpath w.2) ||
  (bool_decide (newpath ≠ mount_point_ w.2) &&
   match h_stat underlying newpath w.1 with Done (Ok _, _) => true | _ => false end).

Lemma link_answer_ok newpath (r : RedirectHandler) :
  is_ok (link_answer newpath r) = bool_decide (GetSymlinkTarget newpath r ≠ []).
Proof.
  unfold link_answer, GetSymlinkTarget. destruct (symlinks_ r !! newpath) as [t|]; [|done]. cbn.
  case_bool_decide as Ht; case_bool_decide; naive_solver.
Qed.

(** What [AddSymlink] leads to on a path that is not seen to be in use. *)
Lemma symlink_run `{!BaseStringsSpec} target ds d (w : R) :
  reads underlying → proper (ds ++ [d]) →
  let p := print_path true (ds ++ [d]) in
  symlink target p w =
  if taken p w then Done (Err EEXIST, w)
  else if bool_decide (is_Some (symlinks_ w.2 !! p)) then Abort
  else Done (Ok 0, (w.1, with_link target (print_path true ds) d p w.2)).
Proof.
  intros Hu Hp p. unfold symlink, taken. rewrite (St_bind_run get _ w w w eq_refl), link_answer_ok.
  destruct (bool_decide (GetSymlinkTarget p w.2 ≠ [])); [done|]. cbn [orb].
  destruct (reads_stat Hu p w.1) as (a & Ha & _).
  rewrite (St_bind_run _ _ w (bool_decide (p ≠ mount_point_ w.2) && is_ok a) w).
  2: { case_bool_decide; [|done]. rewrite (St_bind_run _ _ w a w) by (rewrite (under_run _ w a w.1 Ha); by destruct w). done. }
  rewrite Ha. replace (match a with Ok _ => true | Err _ => false end) with (is_ok a) by by destruct a.
  destruct (bool_decide (p ≠ mount_point_ w.2) && is_ok a); [done|].
  destruct (symlinks_ w.2 !! p) as [t|] eqn:E.
  - rewrite bool_decide_true by done. unfold mbind, St_bind, here, AddSymlink, check. unfold mbind, St_bind.
    destruct (EndsWithSlash _); [done|]. cbn [negb get]. by rewrite E.
  - rewrite (bool_decide_false (is_Some None)) by by intros [].
    by run_with (here_run _ w tt _ (add_symlink_run target ds d w.2 Hp E)).
Qed.

Lemma remove_with_run call p t (w : R) :
  symlinks_ w.2 !! p = Some t →
  remove_with call p w =
  Done (Ok 0, (w.1, mkRedirect (is_initialized_ w.2) (delete p (symlinks_ w.2)) (dir_to_symlinks_ w.2) (mount_point_ w.2))).
Proof.
  intros Hl. unfold remove_with, mbind, St_bind, here, RemoveSymlinkTarget. unfold mbind, St_bind. cbn [get]. by rewrite Hl.
Qed.
End Redirect.

Section RedirectProperties.
Context `{BaseStringsSpec} {U : Type} (underlying : FileSystemHandler U).
Abbreviation R := (U * RedirectHandler)%type.

(** C12.  Symbolic links that are made, at a normalized path other than the root, over a
    handler that answers [stat] without changing its state.  [symlink] of a path that
    [readlink] shows to be a link already, or of a file of the handler underneath (the
    mount point itself apart), answers EEXIST and changes nothing.  A link with the empty
    target is not seen: making it again trips the assertion of [AddSymlink].  In all other
    cases [symlink] succeeds without touching the handler underneath: [readlink] of the
    path gives the target, or EINVAL if the target is empty, every other path answers as
    before, and the name comes last among the links that are listed for its directory;
    [unlink] and [remove] then take away just this link, so that [readlink] answers for
    every path as it did at first, but the name stays in the list. *)
Theorem symlink_readlink_unlink target ds d (w : R) :
  reads underlying → proper (ds ++ [d]) →
  let h := redirect_handler underlying in
  let p := print_path true (ds ++ [d]) in
  if taken underlying p w then h_symlink h target p w = Done (Err EEXIST, w)
  else if bool_decide (is_Some (symlinks_ w.2 !! p)) then
    symlinks_ w.2 !! p = Some [] ∧ h_symlink h target p w = Abort
  else
    ∃ r, h_symlink h target p w = Done (Ok 0, (w.1, r)) ∧
      (∀ q, ∃ a, h_readlink h q w = Done (a, w) ∧
         h_readlink h q (w.1, r) =
           Done (if bool_decide (q = p) then (if bool_decide (target = []) then Err EINVAL else Ok target) else a, (w.1, r))) ∧
      default [] (dir_to_symlinks_ r !! print_path true ds) =
        default [] (dir_to_symlinks_ w.2 !! print_path true ds) ++ [d] ∧
      (∀ dir, dir ≠ print_path true ds → dir_to_symlinks_ r !! dir = dir_to_symlinks_ w.2 !! dir) ∧
      ∃ r', h_unlink h p (w.1, r) = Done (Ok 0, (w.1, r')) ∧ h_remove h p (w.1, r) = Done (Ok 0, (w.1, r')) ∧
        symlinks_ r' = symlinks_ w.2 ∧ dir_to_symlinks_ r' = dir_to_symlinks_ r.
Proof.
  intros Hu Hp h p. cbn [h h_symlink h_readlink h_unlink h_remove redirect_handler].
  rewrite (symlink_run underlying target ds d w Hu Hp). fold p. destruct (taken underlying p w) eqn:Etaken; [done|].
  destruct (symlinks_ w.2 !! p) as [t|] eqn:Elink.
  { rewrite bool_decide_true by done. split; [|done]. unfold taken in Etaken.
    apply orb_false_iff in Etaken as [Hn _]. unfold link_answer in Hn. rewrite Elink in Hn.
    case_bool_decide; [by subst|done]. }
  rewrite (bool_decide_false (is_Some None)) by by intros [].
  set (r := with_link target (print_path true ds) d p w.2). exists r. split; [done|]. split_and!.
  - intros q. eexists. split; [apply readlink_run|]. rewrite readlink_run. unfold link_answer. cbn.
    case_bool_decide as Hq.
    + subst q. by rewrite lookup_insert_eq.
    + by rewrite lookup_insert_ne by congruence.
  - cbn. by rewrite lookup_insert_eq.
  - intros dir Hdir. cbn. by rewrite lookup_insert_ne by congruence.
  - eexists. rewrite !(remove_with_run _ p target) by (cbn; by rewrite lookup_insert_eq).
    split; [done|]. split; [done|]. split; [|done]. cbn. by apply delete_insert_id.
Qed.

End RedirectProperties.

(** ** Witness *)

Module RedirectWitness.
Import SmallTree.
#[local] Existing Instance Reference.base_strings.
#[local] Existing Instance Reference.base_strings_spec.

Definition mounted_redirect : tree * RedirectHandler :=
  ({[ lit "/data" := dir_stat ]}, mkRedirect true ∅ ∅ (lit "/")).

Lemma symlink_readlink_unlink_witness :
  (∃ r, h_symlink (redirect_handler tree_handler) (lit "/data") (lit "/link") mounted_redirect =
          Done (Ok 0, (mounted_redirect.1, r)) ∧
     h_readlink (redirect_handler tree_handler) (lit "/link") (mounted_redirect.1, r) =
       Done (Ok (lit "/data"), (mounted_redirect.1, r))) ∧
  ∃ r, h_symlink (redirect_handler tree_handler) [] (lit "/link") mounted_redirect =
         Done (Ok 0, (mounted_redirect.1, r)) ∧
    h_symlink (redirect_handler tree_handler) [] (lit "/link") (mounted_redirect.1, r) = Abort.
Proof.
  assert (taken tree_handler (print_path true ([] ++ [lit "link"])) mounted_redirect = false) as Ht
    by (vm_compute; reflexivity).
  pose proof (λ target w, symlink_readlink_unlink tree_handler target [] (lit "link") w tree_reads ltac:(decided)) as Hs.
  cbv zeta in Hs. split.
  - pose proof (Hs (lit "/data") mounted_redirect) as H1. rewrite Ht in H1.
    destruct H1 as (r & Hrun & Hread & _). exists r. split; [exact Hrun|].
    destruct (Hread (lit "/link")) as (a & _ & Ha). rewrite Ha. reflexivity.
  - eexists. split; [vm_compute; reflexivity|].
    pose proof (Hs [] (mounted_redirect.1, mkRedirect true {[ lit "/link" := [] ]} {[ lit "/" := [lit "link"] ]} (lit "/"))) as H1.
    apply H1.
Defined.
End RedirectWitness.
