(* ===== verification/VfsPaths.v ===== *)
(** * VfsPaths: the path calls of [virtual_file_system.cc]
    (under src/posix_translation/)

    Normalization of paths and symbolic links, inode numbers, permissions, and the
    calls that take a path.  The handlers that are mounted are objects with an
    identity ([hid]); their classes are records of FileSystemHandler.v over one
    state [F].  The calls of this file reach neither descriptors nor streams; those
    that do are in VfsOpen.v. *)

From S2P Require Import Prelude BaseStrings PathUtil Util DirectoryManager MountPoints.
From S2P Require Import FileSystemHandler.

#[local] Open Scope Z_scope.

Abbreviation hid := nat.

(** ** State *)

(** The members of [VirtualFileSystem] that the path calls use, the process
    environment (current directory, mask), the uid of the calling thread and whether
    it is the main thread. *)
Record Vfs : Type := mkVfs {
  mount_points_ : MountPointManager hid;
  inodes_ : gmap str Z;
  next_inode_ : Z;
  current_directory : str;
  current_umask : Z;
  current_uid : Z;
  is_main_thread : bool;
}.

Definition set_mounts (m : MountPointManager hid) (v : Vfs) : Vfs :=
  mkVfs m (inodes_ v) (next_inode_ v) (current_directory v) (current_umask v) (current_uid v) (is_main_thread v).
Definition set_inodes (i : gmap str Z) (n : Z) (v : Vfs) : Vfs :=
  mkVfs (mount_points_ v) i n (current_directory v) (current_umask v) (current_uid v) (is_main_thread v).
Definition set_directory (d : str) (v : Vfs) : Vfs :=
  mkVfs (mount_points_ v) (inodes_ v) (next_inode_ v) d (current_umask v) (current_uid v) (is_main_thread v).
Definition set_umask (n : Z) (v : Vfs) : Vfs :=
  mkVfs (mount_points_ v) (inodes_ v) (next_inode_ v) (current_directory v) n (current_uid v) (is_main_thread v).

(** The constructor's [next_inode_]. *)
Definition kFirstInode : Z := 128.

(** process_emulator.h *)
Definition kRootGid : Z := 0.
Definition kFirstAppUid : Z := 10000.
Definition IsAppUid (uid : Z) : bool := kFirstAppUid <=? uid.

(** ** Permissions *)

Definition kDefaultUserFilePermission : Z := 384.
Definition kDefaultUserDirPermission : Z := 448.
Definition kDefaultSystemFilePermission : Z := 420.
Definition kDefaultSystemDirPermission : Z := 493.

Definition FillPermissionInfoToStat (permission : PermissionInfo) (out : Stat) : outcome Stat :=
  require (IsValid permission) ≫= λ _,
  let file_type := Z.land (st_mode out) S_IFMT in
  require (negb (file_type =? 0)) ≫= λ _,
  let perm := Z.land (st_mode out) 511 in
  (if perm =? 0 then
     require ((file_type =? S_IFDIR) || (file_type =? S_IFREG)) ≫= λ _,
     let is_dir := file_type =? S_IFDIR in
     mret (if IsAppUid (file_uid permission)
           then if is_dir then kDefaultUserDirPermission else kDefaultUserFilePermission
           else if is_dir then kDefaultSystemDirPermission else kDefaultSystemFilePermission)
   else mret perm) ≫= λ perm,
  mret (mkStat (st_ino out) (Z.lor file_type perm) (st_nlink out) (file_uid permission) kRootGid
          (st_size out) (st_blksize out)).

Inductive NormalizeOption : Type := kResolveSymlinks | kResolveParentSymlinks | kDoNotResolveSymlinks.

#[export] Instance normalize_option_eq_dec : EqDecision NormalizeOption.
Proof. solve_decision. Defined.

Section Paths.
Context `{BaseStrings} {F : Type} (handlers : hid → FileSystemHandler F).
(** The longest chain of symbolic links that is followed. *)
Context (fuel : nat).

Abbreviation P := (Vfs * F)%type.

Definition on_fs {A} (m : St F A) : St P A := λ w,
  match m w.2 with
  | Done (a, f) => Done (a, (w.1, f))
  | Abort => Abort
  | NoFuel => NoFuel
  end.

Definition on_vfs {A} (m : St Vfs A) : St P A := λ w,
  match m w.1 with
  | Done (a, v) => Done (a, (v, w.2))
  | Abort => Abort
  | NoFuel => NoFuel
  end.

(** [mount_points_->GetFileSystemHandler(path, &uid)] *)
Definition mounted (path : str) : St P (option hid * Z) := λ w,
  match GetFileSystemHandler path 0 (mount_point_map_ (mount_points_ w.1)) with
  | Done r => Done (r, w)
  | Abort => Abort
  | NoFuel => NoFuel
  end.

(** The handler, and the permission for [path] when there is one. *)
Definition GetFileSystemHandlerLocked (path : str) : St P (option (hid * PermissionInfo)) :=
  m ← mounted path;
  match m with
  | (None, _) => mret None
  | (Some h, uid) =>
      w ← get;
      (if negb (IsInitialized (handlers h) w.2) then on_fs (Initialize (handlers h)) else mret tt);;
      w ← get;
      check (IsInitialized (handlers h) w.2);;
      writable ← (if negb (IsAppUid (current_uid w.1)) then mret true
                  else if uid =? current_uid w.1 then mret true
                  else on_fs (IsWorldWritable (handlers h) path));
      check (negb (is_main_thread w.1));;
      mret (Some (h, mkPermissionInfo uid writable))
  end.

(** The same with NULL for the permission. *)
Definition HandlerWithoutPermission (path : str) : St P (option hid) :=
  m ← mounted path;
  match m.1 with
  | None => mret None
  | Some h =>
      w ← get;
      (if negb (IsInitialized (handlers h) w.2) then on_fs (Initialize (handlers h)) else mret tt);;
      w ← get;
      check (IsInitialized (handlers h) w.2);;
      check (negb (is_main_thread w.1));;
      mret (Some h)
  end.

(** The member function of VirtualFileSystem. *)
Definition vfs_GetFileSystemHandler : str → St P (option hid) := HandlerWithoutPermission.

(** ** Normalization *)

Fixpoint ResolveSymlinks_ (n : nat) (in_out_path : str) : St P str :=
  match n with
  | O => λ _, NoFuel
  | S n =>
      m ← mounted in_out_path;
      match m.1 with
      | None => mret in_out_path
      | Some h =>
          resolved ← on_fs (h_readlink (handlers h) in_out_path);
          match resolved with
          | Ok resolved =>
              check (bool_decide (in_out_path ≠ resolved));;
              ResolveSymlinks_ n resolved
          | Err _ => mret in_out_path
          end
      end
  end.

Definition ResolveSymlinks (in_out_path : str) : St P str := ResolveSymlinks_ fuel in_out_path.

(** The loop over the directories; [i != directories.size() - 1] is that some are
    left. *)
Fixpoint resolve_directories (option : NormalizeOption) (directories : list str) (in_out_path : str) :
    St P str :=
  match directories with
  | [] => mret in_out_path
  | directory :: directories =>
      if bool_decide (directory = []) then resolve_directories option directories in_out_path
      else
        check (negb (EndsWithSlash in_out_path));;
        if bool_decide (directory = lit "..") then
          if bool_decide (in_out_path = []) then resolve_directories option directories in_out_path
          else
            match rfind slash in_out_path None with
            | None => λ _, Abort
            | Some pos => resolve_directories option directories (take pos in_out_path)
            end
        else
          let path := in_out_path ++ lit "/" ++ directory in
          path ← (if bool_decide (option = kResolveSymlinks)
                     || (bool_decide (option = kResolveParentSymlinks) && bool_decide (directories ≠ []))
                  then ResolveSymlinks path else mret path);
          resolve_directories option directories path
  end.

Definition GetNormalizedPathLocked (in_out_path : str) (option : NormalizeOption) : St P str :=
  path ← lift (RemoveTrailingSlashes in_out_path);
  let option :=
    if bool_decide (option = kResolveParentSymlinks) && EndsWith path (lit "/.") then kResolveSymlinks
    else option in
  path ← lift (RemoveSingleDotsAndRedundantSlashes path);
  if bool_decide (path = []) then mret []
  else
    w ← get;
    path ← (if bool_decide (path = lit ".") then lift (RemoveTrailingSlashes (current_directory w.1))
            else if bool_decide (head path ≠ Some slash) then mret (current_directory w.1 ++ path)
            else mret path);
    check (bool_decide (path = lit "/") || negb (EndsWithSlash path));;
    path ← resolve_directories option (SplitString path slash) [];
    mret (if bool_decide (path = []) then lit "/" else path).

Definition IsNormalizedPathLocked (path : str) : St P bool :=
  resolved ← GetNormalizedPathLocked path kResolveSymlinks;
  let resolved :=
    if bool_decide (path ≠ lit "/") && EndsWithSlash path then resolved ++ lit "/" else resolved in
  mret (bool_decide (path = resolved)).

(** ** Inode numbers *)

Definition GetInodeUncheckedLocked (path : str) : St P Z :=
  check (bool_decide (path ≠ []));;
  w ← get;
  match inodes_ w.1 !! path with
  | Some ino => mret ino
  | None =>
      on_vfs (modify (λ v, set_inodes (<[path := next_inode_ v]> (inodes_ v)) (next_inode_ v + 1) v));;
      mret (next_inode_ w.1)
  end.

(** [ALOG_ASSERT(IsNormalizedPathLocked(path))] *)
Definition assert_normalized (path : str) : St P unit :=
  b ← IsNormalizedPathLocked path; check b.

Definition GetInodeLocked (path : str) : St P Z :=
  check (bool_decide (path ≠ []));;
  assert_normalized path;;
  GetInodeUncheckedLocked path.

Definition RemoveInodeLocked (path : str) : St P unit :=
  assert_normalized path;;
  on_vfs (modify (λ v, set_inodes (delete path (inodes_ v)) (next_inode_ v) v)).

Definition ReassignInodeLocked (oldpath newpath : str) : St P unit :=
  assert_normalized oldpath;;
  assert_normalized newpath;;
  w ← get;
  match inodes_ w.1 !! oldpath with
  | None => on_vfs (modify (λ v, set_inodes (delete newpath (inodes_ v)) (next_inode_ v) v))
  | Some ino =>
      on_vfs (modify (λ v, set_inodes (delete oldpath (<[newpath := ino]> (inodes_ v))) (next_inode_ v) v))
  end.

(** ** Denied access *)

Definition DenyAccessForModifyLocked {A} (path : str) (h : hid) : St P (res A) :=
  st ← on_fs (h_stat (handlers h) path);
  match st with
  | Ok _ => mret (Err EACCES)
  | Err e =>
      check (bool_decide (e = ENOENT) || bool_decide (e = ENOTDIR) || bool_decide (e = EACCES));;
      mret (Err e)
  end.

Definition DenyAccessForCreateLocked {A} (path : str) (h : hid) : St P (res A) :=
  DenyAccessForModifyLocked (GetDirNameInPlace path) h.

(** ** stat and its like *)

Definition StatLocked (pathname : str) : St P (res Stat) :=
  resolved ← GetNormalizedPathLocked pathname kResolveSymlinks;
  m ← GetFileSystemHandlerLocked resolved;
  match m with
  | None => mret (Err ENOENT)
  | Some (h, permission) =>
      check (IsValid permission);;
      st ← on_fs (h_stat (handlers h) resolved);
      match st with
      | Ok st => st ← lift (FillPermissionInfoToStat permission st); mret (Ok st)
      | Err e => mret (Err e)
      end
  end.

Definition stat (pathname : str) : St P (res Stat) := StatLocked pathname.

(** A path without a handler is dereferenced. *)
Definition lstat (pathname : str) : St P (res Stat) :=
  normalized ← GetNormalizedPathLocked pathname kResolveParentSymlinks;
  m ← mounted normalized;
  match m.1 with
  | None => λ _, Abort
  | Some h =>
      resolved ← on_fs (h_readlink (handlers h) normalized);
      match resolved with
      | Err _ => StatLocked normalized
      | Ok resolved =>
          ino ← GetInodeUncheckedLocked normalized;
          mret (Ok (mkStat ino (Z.lor S_IFLNK 511) 1 kRootUid kRootGid
                      (Z.of_nat (List.length resolved)) 4096))
      end
  end.

(** The bytes put into the buffer. *)
Definition vfs_readlink (pathname : str) (bufsiz : nat) : St P (res str) :=
  normalized ← GetNormalizedPathLocked pathname kResolveParentSymlinks;
  m ← mounted normalized;
  match m.1 with
  | None => mret (Err ENOENT)
  | Some h =>
      resolved ← on_fs (h_readlink (handlers h) normalized);
      match resolved with
      | Ok resolved => mret (Ok (take bufsiz resolved))
      | Err _ =>
          st ← on_fs (h_stat (handlers h) normalized);
          mret (Err (if is_ok st then EINVAL else ENOENT))
      end
  end.

Definition PATH_MAX : Z := 4096.

(** [path] is [None] for NULL; the contents of the buffer. *)
Definition realpath (path : option str) : St P (res str) :=
  match path with
  | None => mret (Err EINVAL)
  | Some path =>
      st ← StatLocked path;
      match st with
      | Err e => mret (Err e)
      | Ok _ =>
          resolved ← GetNormalizedPathLocked path kResolveSymlinks;
          if PATH_MAX <=? Z.of_nat (List.length resolved) then mret (Err ENAMETOOLONG)
          else mret (Ok resolved)
      end
  end.

Definition statfs (pathname : str) : St P (res StatFs) :=
  resolved ← GetNormalizedPathLocked pathname kResolveSymlinks;
  m ← HandlerWithoutPermission resolved;
  match m with
  | None => mret (Err ENOENT)
  | Some h => on_fs (h_statfs (handlers h) resolved)
  end.

(** [struct statvfs] *)
Record StatVfs : Type := mkStatVfs {
  fv_bsize : Z; fv_frsize : Z; fv_blocks : Z; fv_bfree : Z; fv_bavail : Z; fv_files : Z;
  fv_ffree : Z; fv_favail : Z; fv_fsid : Z; fv_flag : Z; fv_namemax : Z;
}.

Definition statvfs (pathname : str) : St P (res StatVfs) :=
  tmp ← statfs pathname;
  mret match tmp with
       | Err e => Err e
       | Ok t => Ok (mkStatVfs (f_bsize t) (f_bsize t) (f_blocks t) (f_bfree t) (f_bavail t) (f_files t)
                       (f_ffree t) (f_ffree t) (f_fsid t).1 0 (f_namelen t))
       end.

(** [W_OK] and [X_OK]. *)
Definition W_OK : Z := 2.
Definition X_OK : Z := 1.

Definition access (pathname : str) (mode : Z) : St P (res Z) :=
  st ← StatLocked pathname;
  match st with
  | Err e => check (bool_decide (e ≠ EOVERFLOW));; mret (Err e)
  | Ok st =>
      w ← get;
      if has mode W_OK && negb (has (st_mode st) S_IWOTH) && IsAppUid (current_uid w.1)
           && negb (IsAppUid (st_uid st))
      then mret (Err EACCES)
      else if has mode X_OK && negb (has (st_mode st) S_IXUSR) then mret (Err EACCES)
      else
        check (negb (has mode X_OK) || IsAppUid (st_uid st) || has (st_mode st) S_IXOTH);;
        check (has (st_mode st) S_IWUSR);;
        mret (Ok 0)
  end.

(** ** The current directory and the mask *)

(** [path.substr(0, length)] without the slashes at the end. *)
Fixpoint drop_slashes (r : str) : str :=
  match r with
  | x :: r' => if decide (x = slash) then drop_slashes r' else r
  | [] => []
  end.

Definition chdir (path : str) : St P (res Z) :=
  if bool_decide (path = []) then mret (Err ENOENT)
  else
    let new_path := rev (drop_slashes (rev path)) in
    new_path ← (if bool_decide (new_path ≠ []) then GetNormalizedPathLocked new_path kResolveSymlinks
                else mret new_path);
    failed ← (if bool_decide (new_path ≠ []) then
                st ← StatLocked new_path;
                mret match st with
                     | Err e => Some e
                     | Ok st => if S_ISDIR (st_mode st) then None else Some ENOTDIR
                     end
              else mret None);
    match failed with
    | Some e => mret (Err e)
    | None => on_vfs (modify (set_directory (new_path ++ lit "/")));; mret (Ok 0)
    end.

(** [buf] is whether there is a buffer; the string in it, without the NUL. *)
Definition getcwd (buf : bool) (size : Z) : St P (res str) :=
  w ← get;
  let cwd := current_directory w.1 in
  check (EndsWithSlash cwd);;
  let path_length := if Nat.ltb 1 (List.length cwd) then Nat.sub (List.length cwd) 1 else List.length cwd in
  if buf && (size =? 0) then mret (Err EINVAL)
  else if (size <=? Z.of_nat path_length) && (buf || negb (size =? 0)) then mret (Err ERANGE)
  else mret (Ok (take path_length cwd)).

Definition umask (mask : Z) : St P Z :=
  w ← get; on_vfs (modify (set_umask mask));; mret (current_umask w.1).

(** ** Changes *)

Definition mkdir (pathname : str) (mode : Z) : St P (res Z) :=
  resolved ← GetNormalizedPathLocked pathname kResolveSymlinks;
  m ← GetFileSystemHandlerLocked resolved;
  match m with
  | None => mret (Err ENOENT)
  | Some (h, permission) =>
      if negb (is_writable permission) then
        st ← on_fs (h_stat (handlers h) resolved);
        if is_ok st then mret (Err EEXIST) else DenyAccessForCreateLocked resolved h
      else on_fs (h_mkdir (handlers h) resolved mode)
  end.

(** [rmdir], [truncate], [utimes] and [utime]. *)
Definition modify_path (call : FileSystemHandler F → str → St F (res Z)) (pathname : str) : St P (res Z) :=
  resolved ← GetNormalizedPathLocked pathname kResolveSymlinks;
  m ← GetFileSystemHandlerLocked resolved;
  match m with
  | None => mret (Err ENOENT)
  | Some (h, permission) =>
      if negb (is_writable permission) then DenyAccessForModifyLocked resolved h
      else on_fs (call (handlers h) resolved)
  end.

Definition rmdir (pathname : str) : St P (res Z) := modify_path (λ h, h_rmdir h) pathname.
Definition truncate (pathname : str) (length : Z) : St P (res Z) :=
  modify_path (λ h p, h_truncate h p length) pathname.
Definition utimes (pathname : str) (times : timeval * timeval) : St P (res Z) :=
  modify_path (λ h p, h_utimes h p times) pathname.
Definition utime (pathname : str) (actime modtime : Z) : St P (res Z) :=
  modify_path (λ h p, h_utimes h p ({| tv_sec := actime; tv_usec := 0 |},
                                    {| tv_sec := modtime; tv_usec := 0 |})) pathname.

Definition vfs_symlink (oldpath newpath : str) : St P (res Z) :=
  resolved_newpath ← GetNormalizedPathLocked newpath kResolveSymlinks;
  let parent := GetDirName resolved_newpath in
  m ← GetFileSystemHandlerLocked resolved_newpath;
  match m with
  | None => mret (Err ENOENT)
  | Some (h, permission) =>
      st ← on_fs (h_stat (handlers h) parent);
      if negb (is_ok st) then mret (Err ENOENT)
      else if negb (is_writable permission) then
        st ← on_fs (h_stat (handlers h) resolved_newpath);
        if is_ok st then mret (Err EEXIST) else DenyAccessForModifyLocked parent h
      else on_fs (h_symlink (handlers h) oldpath resolved_newpath)
  end.

Definition chown (path : str) (owner : Z) : St P (res Z) :=
  w ← get;
  if IsAppUid (current_uid w.1) then mret (Err EPERM)
  else
    GetNormalizedPathLocked path kResolveSymlinks;;
    st ← StatLocked path;
    match st with
    | Err e => check (bool_decide (e ≠ EOVERFLOW));; mret (Err e)
    | Ok st =>
        let path := if S_ISDIR (st_mode st) && negb (EndsWithSlash path) then path ++ lit "/" else path in
        m ← gets (λ w, mount_points_ w.1);
        m ← lift (ChangeOwner path owner m);
        on_vfs (modify (set_mounts m.2));;
        mret (Ok 0)
    end.

(** ** Mounting *)

Definition on_mounts (m : St (MountPointManager hid) unit) : St P unit :=
  w ← get; r ← lift (m (mount_points_ w.1)); on_vfs (modify (set_mounts r.2)).

(** The handlers are told ([OnMounted], [OnUnmounted]) through [notified]. *)
Definition Mount (path : str) (h : hid) : St P unit := on_mounts (Add path (Some h)).
Definition Unmount (path : str) : St P unit := on_mounts (Remove path).
Definition ChangeMountPointOwner (path : str) (owner_uid : Z) : St P unit :=
  on_mounts (ChangeOwner path owner_uid).

Definition VfsInvalidateCache : St P unit :=
  w ← get;
  for_each (λ h, on_fs (InvalidateCache (handlers h))) (GetAllFileSystemHandlers (mount_points_ w.1)).
End Paths.

Abbreviation PathSys F := (Vfs * F)%type.
