(* ===== verification/VfsPathFacts.v ===== *)
(** * VfsPathFacts: normalization of paths

    [GetNormalizedPathLocked] as a walk over the components of the path from the
    root ([walk]), which goes up at [".."] and follows the symbolic link at every
    component it enters. *)

From S2P Require Import Prelude BaseStrings PathUtil MountPoints FileSystemHandler VfsPaths.

#[local] Open Scope Z_scope.

(** ** Pieces of a path *)

Definition nonempty (ps : list str) : list str := filter (λ p, p ≠ []) ps.

Lemma nonempty_app ps qs : nonempty (ps ++ qs) = nonempty ps ++ nonempty qs.
Proof. apply filter_app. Qed.

Lemma nonempty_proper ps : proper ps → nonempty ps = ps.
Proof.
  induction 1 as [|d ds (_ & _ & Hd) _ IH]; [done|]. unfold nonempty. rewrite filter_cons_True by done.
  by f_equal.
Qed.

Lemma split_snoc_slash s : split_on slash (s ++ [slash]) = split_on slash s ++ [[]].
Proof. change [slash] with (slash :: []). by rewrite split_on_app. Qed.

Lemma split_slashes s n : split_on slash (s ++ replicate n slash) = split_on slash s ++ replicate n [].
Proof.
  induction n as [|n IH]; [by rewrite !app_nil_r|].
  by rewrite !replicate_S_end, !app_assoc, split_snoc_slash, IH.
Qed.

Lemma nonempty_replicate n : nonempty (replicate n []) = [].
Proof. apply list_filter_none. apply Forall_replicate. tauto. Qed.

Lemma components_slashes s n : components (s ++ replicate n slash) = components s.
Proof.
  unfold components. rewrite split_slashes, List.filter_app.
  assert (List.filter is_component (replicate n []) = []) as ->; [|by rewrite app_nil_r].
  induction n as [|n IH]; [done|]. exact IH.
Qed.

Lemma clean_slashes s n : clean (s ++ replicate n slash) ↔ clean s.
Proof.
  unfold clean. rewrite split_slashes, Forall_app. split; [by intros [? _]|].
  intros ?. split; [done|]. by apply Forall_replicate.
Qed.

Lemma split_print abs ds :
  proper ds → ds ≠ [] → split_on slash (print_path abs ds) = (if abs then [[]] else []) ++ ds.
Proof.
  intros Hp Hne. destruct ds as [|d ds]; [done|]. unfold print_path. destruct abs.
  - by rewrite split_join_abs by by apply proper_noslash.
  - by rewrite split_join by (done || by apply proper_noslash).
Qed.

Lemma remove_leading_nil r : remove_leading_slashes r = [] → r = [].
Proof.
  induction r as [|x r IH]; [done|]. cbn [remove_leading_slashes]. destruct r as [|y r]; [done|].
  case_decide; [|done]. intros Hr. by apply IH in Hr.
Qed.

Section Trailing.
Context `{BaseStringsSpec}.

(** [RemoveTrailingSlashes] on a path. *)
Lemma trailing_slashes p :
  p ≠ [] →
  ∃ q, RemoveTrailingSlashes p = Done q ∧ q ≠ [] ∧ components q = components p ∧ is_abs q = is_abs p ∧
    (clean q ↔ clean p) ∧ (q = [slash] ∨ EndsWithSlash q = false) ∧
    nonempty (split_on slash q) = nonempty (split_on slash p).
Proof.
  intros Hp. destruct (remove_trailing_slashes_spec p) as (q & n & Hq & -> & Hend).
  assert (q ≠ []) as Hne.
  { intros ->. unfold RemoveTrailingSlashes in Hq.
    destruct (rev (remove_leading_slashes _)) as [|x r] eqn:E in Hq.
    - apply (f_equal (@rev ascii)) in E. rewrite rev_involutive in E. apply remove_leading_nil in E.
      apply (f_equal (@rev ascii)) in E. rewrite rev_involutive in E. done.
    - unfold require, mbind, outcome_bind in Hq. destruct (_ || _); [|done]. injection Hq as Hq'. discriminate. }
  exists q. split; [done|]. split; [done|]. split; [by rewrite components_slashes|].
  split; [unfold is_abs; by destruct q|]. split; [by rewrite clean_slashes|]. split; [done|].
  by rewrite split_slashes, nonempty_app, nonempty_replicate, app_nil_r.
Qed.
End Trailing.

Section Facts.
Context `{BaseStringsSpec} {F : Type} (handlers : hid → FileSystemHandler F) (fuel : nat).
Context (Hreads : ∀ h, reads (handlers h)).
Implicit Types w : PathSys F.

(** ** Symbolic links *)

Definition handler_of w (p : str) : option hid :=
  match GetFileSystemHandler p 0 (mount_point_map_ (mount_points_ w.1)) with
  | Done (h, _) => h
  | _ => None
  end.

(** Where the link at [p] points to, if there is one. *)
Definition link w (p : str) : option str :=
  match handler_of w p with
  | Some h => match h_readlink (handlers h) p w.2 with Done (Ok t, _) => Some t | _ => None end
  | None => None
  end.

(** The end of the chain of links from [p], [n] links at most. *)
Fixpoint final w (n : nat) (p : str) : str :=
  match n with
  | O => p
  | S n => match link w p with Some t => final w n t | None => p end
  end.

Lemma mounted_run w p : ∃ uid, mounted p w = Done ((handler_of w p, uid), w).
Proof.
  unfold mounted, handler_of. pose proof (get_handler_total (mount_point_map_ (mount_points_ w.1)) p 0) as Ht.
  destruct (GetFileSystemHandler _ _ _) as [[h uid]| |]; try done. by exists uid.
Qed.

Lemma on_fs_read {A} (m : St F A) w a : m w.2 = Done (a, w.2) → on_fs m w = Done (a, w).
Proof. unfold on_fs. intros ->. by destruct w. Qed.

Lemma resolve_step n p w :
  ResolveSymlinks_ handlers (S n) p w =
  match link w p with
  | Some t => if bool_decide (p = t) then Abort else ResolveSymlinks_ handlers n t w
  | None => Done (p, w)
  end.
Proof.
  cbn [ResolveSymlinks_]. destruct (mounted_run w p) as [uid Hm]. run_with Hm. cbn [fst]. unfold link.
  destruct (handler_of w p) as [h|]; [|done].
  destruct (reads_readlink (Hreads h) p w.2) as [r Hr]. rewrite Hr.
  run_with (on_fs_read _ w r Hr). destruct r as [e|t]; [done|].
  unfold check, mbind, St_bind. destruct (decide (p = t)).
  - rewrite bool_decide_false, bool_decide_true by tauto. done.
  - rewrite bool_decide_true, bool_decide_false by tauto. done.
Qed.

(** Links point to absolute paths whose directories are no links, and no chain of
    links is longer than [fuel]. *)
Record links_ok w : Prop := {
  lo_target : ∀ p t, link w p = Some t →
    ∃ ds, ds ≠ [] ∧ proper ds ∧ lit ".." ∉ ds ∧ Forall (λ d, trimmed d = true) ds ∧
      t = print_path true ds ∧
      ∀ es, es `prefix_of` ds → es ≠ [] → es ≠ ds → link w (print_path true es) = None;
  lo_fuel : (0 < fuel)%nat;
  lo_chain : ∃ rank : str → nat, ∀ p t, link w p = Some t → (rank t < rank p < fuel)%nat;
}.

Lemma resolve_final w p :
  links_ok w → ResolveSymlinks handlers fuel p w = Done (final w fuel p, w) ∧ link w (final w fuel p) = None.
Proof.
  intros [_ Hfuel [rank Hrank]]. unfold ResolveSymlinks.
  assert (∀ n p, (link w p = None → 0 < n)%nat → (∀ t, link w p = Some t → rank p < n)%nat →
    ResolveSymlinks_ handlers n p w = Done (final w n p, w) ∧ link w (final w n p) = None) as Hgen.
  { clear p. induction n as [|n IH]; intros p Hn Hr.
    - destruct (link w p) as [t|] eqn:El; [specialize (Hr t eq_refl); lia|]. specialize (Hn eq_refl). lia.
    - rewrite resolve_step. cbn [final]. destruct (link w p) as [t|] eqn:El; [|done].
      specialize (Hr t eq_refl). pose proof (Hrank p t El). rewrite bool_decide_false by (intros <-; lia).
      apply IH; [lia|]. intros u Hu. apply Hrank in Hu. lia. }
  apply Hgen.
  - done.
  - intros t Ht. apply Hrank in Ht. lia.
Qed.

(** ** The walk *)

(** Is the link at a component followed, when [ds] is what comes after it? *)
Definition followed (option : NormalizeOption) (ds : list str) : bool :=
  bool_decide (option = kResolveSymlinks) || (bool_decide (option = kResolveParentSymlinks) && bool_decide (ds ≠ [])).

Fixpoint walk w (option : NormalizeOption) (ds acc : list str) : list str :=
  match ds with
  | [] => acc
  | d :: ds =>
      if bool_decide (d = lit "..") then walk w option ds (removelast acc)
      else if followed option ds then walk w option ds (components (final w fuel (print_path true (acc ++ [d]))))
      else walk w option ds (acc ++ [d])
  end.

(** The places that a walk goes through. *)
Definition place (ds : list str) : Prop := proper ds ∧ lit ".." ∉ ds ∧ Forall (λ d, trimmed d = true) ds.

(** A place below no link, itself included. *)
Definition unlinked w (ds : list str) : Prop :=
  ∀ es, es `prefix_of` ds → es ≠ [] → link w (print_path true es) = None.

Lemma place_nil : place [].
Proof. split; [constructor|]. split; [apply not_elem_of_nil|constructor]. Qed.

Lemma place_app ds es : place (ds ++ es) ↔ place ds ∧ place es.
Proof. unfold place. rewrite proper_app, Forall_app, not_elem_of_app. tauto. Qed.

Lemma place_removelast ds : place ds → place (removelast ds).
Proof.
  destruct ds as [|d ds _] using rev_ind; [done|]. rewrite removelast_last, place_app. by intros [? _].
Qed.

Lemma unlinked_prefix w ds es : es `prefix_of` ds → unlinked w ds → unlinked w es.
Proof. intros He Hu fs Hf Hne. apply Hu; [by trans es|done]. Qed.

Lemma removelast_prefix {A} (ds : list A) : removelast ds `prefix_of` ds.
Proof.
  destruct ds as [|d ds _] using rev_ind; [done|]. rewrite removelast_last. by eexists.
Qed.

Lemma print_path_abs ds : ds ≠ [] → print_path true ds = join_abs slash ds.
Proof. by destruct ds. Qed.

(** The end of a chain of links from a place, and the places above it. *)
Lemma final_place w n ds :
  links_ok w → ds ≠ [] → place ds →
  ∃ es, es ≠ [] ∧ place es ∧ final w n (print_path true ds) = print_path true es ∧
    (es = ds ∨ ∀ fs, fs `prefix_of` es → fs ≠ [] → fs ≠ es → link w (print_path true fs) = None).
Proof.
  intros Hl. revert ds. induction n as [|n IH]; intros ds Hne Hds; cbn [final].
  { exists ds. split; [done|]. split; [done|]. split; [done|by left]. }
  destruct (link w (print_path true ds)) as [t|] eqn:El.
  2: { exists ds. split; [done|]. split; [done|]. split; [done|by left]. }
  destruct (lo_target _ Hl _ _ El) as (es & He & Hp & Hdd & Htr & -> & Hu).
  destruct (IH es He) as (fs & Hf & Hfp & Hfin & Hcase); [done|]. exists fs. split; [done|]. split; [done|].
  split; [done|]. right. by destruct Hcase as [->|].
Qed.

Lemma final_unlinked w ds es :
  links_ok w → unlinked w ds → place ds → place [es] →
  let fs := components (final w fuel (print_path true (ds ++ [es]))) in
  fs ≠ [] ∧ place fs ∧ final w fuel (print_path true (ds ++ [es])) = print_path true fs ∧ unlinked w fs.
Proof.
  intros Hl Hu Hds Hes fs.
  destruct (final_place w fuel (ds ++ [es]) Hl) as (gs & Hne & Hgs & Hfin & Hcase); [by destruct ds|by apply place_app|].
  assert (fs = gs) as -> by (unfold fs; rewrite Hfin; apply components_print, Hgs).
  split; [done|]. split; [done|]. split; [done|].
  pose proof (proj2 (resolve_final w (print_path true (ds ++ [es])) Hl)) as Hend. rewrite Hfin in Hend.
  intros hs Hhs Hhne. destruct (decide (hs = gs)) as [->|Hn]; [done|].
  destruct Hcase as [->|Hcase]; [|by apply Hcase].
  apply Hu; [|done]. apply prefix_snoc_inv in Hhs. by destruct Hhs.
Qed.

(** ** The loop of the normalization *)

Lemma loop_state_slash ds : place ds → EndsWithSlash (join_abs slash ds) = false.
Proof.
  intros Hds. destruct ds as [|d ds]; [apply ends_slash_nil|].
  rewrite <-print_path_abs by done. apply print_ends_slash; [apply Hds|done].
Qed.

Lemma rfind_join_abs ds d :
  place [d] → rfind slash (join_abs slash (ds ++ [d])) None = Some (List.length (join_abs slash ds)).
Proof.
  intros [Hp _]. cbn [rfind]. apply last_index_Some. exists (join_abs slash ds), d.
  rewrite join_abs_app. split; [by rewrite join_abs_cons, app_nil_r|]. inversion Hp as [|?? (? & _)]; done.
Qed.

Lemma resolve_directories_run w option ds acc :
  links_ok w → place acc → (option = kResolveSymlinks → unlinked w acc) →
  (option = kResolveParentSymlinks → ds ≠ [] → unlinked w acc) → proper ds → Forall (λ d, trimmed d = true) ds →
  resolve_directories handlers fuel option ds (join_abs slash acc) w =
    Done (join_abs slash (walk w option ds acc), w) ∧
  place (walk w option ds acc) ∧ (option = kResolveSymlinks → unlinked w (walk w option ds acc)).
Proof.
  intros Hl. revert acc. induction ds as [|d ds IH]; intros acc Ha Hu1 Hu2 Hds Ht; [done|].
  apply (proper_app [d] ds) in Hds as [Hd Hds]. apply Forall_cons in Ht as [Ht1 Ht].
  cbn [resolve_directories walk].
  assert (d ≠ []) as Hne by (inversion Hd as [|?? (_ & _ & ?)]; done).
  rewrite bool_decide_false by done.
  rewrite (St_bind_run (check _) _ w tt w) by (unfold check; by rewrite loop_state_slash).
  destruct (decide (d = lit "..")) as [->|Hdd].
  - rewrite (bool_decide_true (lit ".." = _)) by done.
    destruct acc as [|x acc _] using rev_ind; [apply IH; auto|].
    rewrite removelast_last. apply place_app in Ha as [Ha Hx].
    rewrite bool_decide_false by (rewrite join_abs_app; by destruct (join_abs slash acc)).
    rewrite rfind_join_abs by done. rewrite join_abs_app, take_app_length.
    apply IH; try done; intros Ho; intros; (eapply unlinked_prefix; [|by auto]); by eexists.
  - rewrite !(bool_decide_false (d = _)) by done.
    assert (place [d]) as Hpd by (split; [done|split; [set_solver|by constructor]]).
    assert (join_abs slash acc ++ lit "/" ++ d = join_abs slash (acc ++ [d])) as ->.
    { by rewrite join_abs_app, join_abs_cons, app_nil_r. }
    fold (followed option ds). destruct (followed option ds) eqn:Ef.
    + assert (unlinked w acc) as Hu.
      { unfold followed in Ef. destruct option; [by apply Hu1|by apply Hu2|done]. }
      rewrite <-print_path_abs by by destruct acc.
      destruct (resolve_final w (print_path true (acc ++ [d])) Hl) as [Hres _]. run_with Hres.
      destruct (final_unlinked w acc d Hl Hu Ha Hpd) as (Hfne & Hfp & Hfin & Hfu).
      revert Hfne Hfp Hfin Hfu. cbv zeta. generalize (final w fuel (print_path true (acc ++ [d]))).
      intros f Hfne Hfp Hfin Hfu. rewrite Hfin at 1. rewrite print_path_abs by done. by apply IH.
    + assert (option ≠ kResolveSymlinks ∧ (option = kResolveParentSymlinks → ds = [])) as [Hn1 Hn2].
      { unfold followed in Ef. split; [by intros ->|]. intros ->. cbn in Ef. by apply bool_decide_eq_false, dec_stable in Ef. }
      apply IH; try done; [by apply place_app|]. intros Ho Hne'. by apply Hn2 in Ho.
Qed.

(** Empty pieces are skipped, and are not at the end. *)
Lemma resolve_nonempty option ds acc w :
  nonempty ds = [] ∨ last ds ≠ Some [] →
  resolve_directories handlers fuel option ds acc w = resolve_directories handlers fuel option (nonempty ds) acc w.
Proof.
  revert acc w. induction ds as [|d ds IH]; intros acc w Hgood; [done|].
  assert (nonempty ds = [] ∨ last ds ≠ Some []) as Hds.
  { destruct (decide (nonempty ds = [])) as [|Hn]; [by left|right]. destruct ds as [|e ds]; [done|].
    destruct Hgood as [Hg|Hg]; [|done]. unfold nonempty in *. rewrite filter_cons in Hg. by case_decide. }
  cbn [resolve_directories]. destruct (decide (d = [])) as [->|Hd].
  { rewrite bool_decide_true by done. by apply IH. }
  rewrite bool_decide_false by done. unfold nonempty in *. rewrite filter_cons_True by done.
  cbn [resolve_directories]. rewrite (bool_decide_false (d = [])) by done.
  assert (bool_decide (ds ≠ []) = bool_decide (filter (λ p, p ≠ []) ds ≠ [])) as Hb.
  { apply bool_decide_ext. destruct ds as [|e ds]; [done|]. split; [|done]. intros _ Hn.
    destruct Hgood as [Hg|Hg]; [by rewrite filter_cons_True in Hg|].
    destruct (last (e :: ds)) as [l|] eqn:El; [|by apply last_None in El].
    change (last (d :: e :: ds)) with (last (e :: ds)) in Hg. rewrite El in Hg.
    assert (l ∈ filter (λ p, p ≠ []) (e :: ds)) as Hin.
    { apply list_elem_of_filter. split; [congruence|]. apply last_Some in El as [l' ->]. set_solver. }
    rewrite Hn in Hin. by apply not_elem_of_nil in Hin. }
  rewrite <-Hb. unfold mbind, St_bind, check. destruct (negb _); [|done].
  destruct (bool_decide (d = lit "..")).
  - destruct (bool_decide (acc = [])); [by apply IH|]. by destruct (rfind _ _ _); [apply IH|].
  - destruct (_ || _).
    + destruct (ResolveSymlinks _ _ _ _) as [[a w']| |]; [by apply IH|done..].
    + by apply IH.
Qed.

Lemma split_ends s : s = [slash] ∨ EndsWithSlash s = false → s ≠ [] →
  nonempty (split_on slash s) = [] ∨ last (split_on slash s) ≠ Some [].
Proof.
  intros [->|Hs] Hne; [by left|]. right. intros [ps Hps]%last_Some.
  pose proof (join_split slash s) as Hj. rewrite Hps in Hj. destruct ps as [|p ps].
  - simpl in Hj. congruence.
  - rewrite join_app in Hj by done. rewrite <-Hj in Hs. simpl in Hs. by rewrite ends_slash_snoc, bool_decide_true in Hs.
Qed.

(** The end of the normalization, from the path with the current directory. *)
Lemma normalize_tail option s ds w :
  links_ok w → s ≠ [] → s = [slash] ∨ EndsWithSlash s = false → clean s →
  nonempty (split_on slash s) = ds → proper ds →
  (check (bool_decide (s = lit "/") || negb (EndsWithSlash s));;
   path ← resolve_directories handlers fuel option (SplitString s slash) [];
   mret (if bool_decide (path = []) then lit "/" else path)) w =
    Done (print_path true (walk w option ds []), w) ∧
  place (walk w option ds []) ∧ (option = kResolveSymlinks → unlinked w (walk w option ds [])).
Proof.
  intros Hl Hne Hend Hc <- Hp. rewrite (St_bind_run (check _) _ w tt w).
  2: { unfold check. destruct Hend as [->| ->]; [done|]. by rewrite orb_true_r. }
  rewrite SplitString_spec by done.
  destruct (resolve_directories_run w option (nonempty (split_on slash s)) [] Hl) as (Hrun & Hpl & Hu); try done.
  { apply place_nil. }
  { intros _ es ->%prefix_nil_inv Hn. by destruct Hn. }
  { intros _ _ es ->%prefix_nil_inv Hn. by destruct Hn. }
  { apply Forall_forall. intros d [_ Hd]%list_elem_of_filter. unfold clean in Hc. rewrite Forall_forall in Hc. by apply Hc. }
  split; [|done]. rewrite <-resolve_nonempty in Hrun by by apply split_ends.
  change (join_abs slash []) with (@nil ascii) in Hrun. run_with Hrun.
  destruct (walk _ _ _ _) as [|x l] eqn:E; [done|]. rewrite bool_decide_false by done. by rewrite print_path_abs.
Qed.

(** The current directory ends with a slash and is a place. *)
Record cwd_ok w : Prop := {
  co_slash : EndsWithSlash (current_directory w.1) = true;
  co_clean : clean (current_directory w.1);
  co_place : place (nonempty (split_on slash (current_directory w.1)));
}.

(** The components that the walk for [p] goes through. *)
Definition route w (p : str) : list str :=
  (if is_abs p then [] else nonempty (split_on slash (current_directory w.1))) ++ components p.

(** A path ["."] is entered when only parents are to be resolved. *)
Definition effective (option : NormalizeOption) (p : str) : NormalizeOption :=
  match RemoveTrailingSlashes p with
  | Done q => if bool_decide (option = kResolveParentSymlinks) && EndsWith q (lit "/.") then kResolveSymlinks else option
  | _ => option
  end.

(** The relative paths of one one-byte component, such as ["./a"], on which
    [RemoveSingleDotsAndRedundantSlashes] aborts. *)
Definition dotted (p : str) : bool :=
  match RemoveTrailingSlashes p with Done q => one_byte_relative q | _ => false end.

Lemma split_app_slash u s : EndsWithSlash u = true → nonempty (split_on slash (u ++ s)) = nonempty (split_on slash u) ++ nonempty (split_on slash s).
Proof.
  intros [t ->]%ends_slash. rewrite <-app_assoc. change ([slash] ++ s) with (slash :: s).
  rewrite !split_on_app, !nonempty_app. change (nonempty (split_on slash [])) with (@nil str).
  by rewrite app_nil_r.
Qed.

Lemma clean_app_slash u s : EndsWithSlash u = true → clean u → clean s → clean (u ++ s).
Proof.
  intros [t ->]%ends_slash. unfold clean. rewrite <-app_assoc. change ([slash] ++ s) with (slash :: s).
  rewrite !split_on_app, !Forall_app. tauto.
Qed.

Lemma clean_print abs ds : proper ds → Forall (λ d, trimmed d = true) ds → clean (print_path abs ds).
Proof.
  intros Hp Ht. destruct (decide (ds = [])) as [->|Hne]; [by destruct abs; repeat constructor|].
  unfold clean. rewrite split_print by done. apply Forall_app. split; [|done]. by destruct abs; repeat constructor.
Qed.

Lemma components_trimmed p : clean p → Forall (λ d, trimmed d = true) (components p).
Proof.
  unfold clean. rewrite !Forall_forall. intros Hc d Hd. apply Hc. unfold components in Hd.
  rewrite list_elem_of_In, filter_In, <-list_elem_of_In in Hd. by destruct Hd.
Qed.

Lemma print_rel_not_dot ds : proper ds → ds ≠ [] → print_path false ds ≠ lit ".".
Proof.
  intros Hp Hne E. apply (f_equal components) in E. rewrite components_print in E by done. by rewrite E in Hne.
Qed.

Lemma normalize_run option p w :
  links_ok w → cwd_ok w → p ≠ [] → clean p → dotted p = false →
  let r := walk w (effective option p) (route w p) [] in
  GetNormalizedPathLocked handlers fuel p option w = Done (print_path true r, w) ∧
  place r ∧ (effective option p = kResolveSymlinks → unlinked w r).
Proof.
  intros Hl Hcwd Hne Hc Hd r.
  destruct (trailing_slashes p Hne) as (q & Hq & Hqne & Hcomp & Habs & Hqc & Hqend & _).
  unfold dotted in Hd. rewrite Hq in Hd. subst r. unfold effective. rewrite Hq.
  set (option' := if bool_decide _ && _ then _ else _).
  pose proof (canonical_or_abort q (proj2 Hqc Hc) Hqne) as Hcan. rewrite Hd in Hcan.
  unfold GetNormalizedPathLocked. rewrite (St_bind_run (lift _) _ w q w) by (unfold lift; by rewrite Hq).
  fold option'. cbv zeta. rewrite (St_bind_run (lift _) _ w (canonical q) w) by (unfold lift; by rewrite Hcan).
  unfold canonical, route. rewrite Habs, Hcomp. pose proof (components_proper p) as Hp.
  pose proof (components_trimmed p Hc) as Ht.
  rewrite bool_decide_false by by apply print_path_nonempty.
  rewrite (St_bind_run get _ w w w eq_refl).
  destruct (is_abs p) eqn:Ea.
  - rewrite bool_decide_false.
    2: { intros E. pose proof (is_abs_print true (components p) Hp) as Ha. by rewrite E in Ha. }
    rewrite bool_decide_false.
    2: { pose proof (is_abs_print true (components p) Hp) as Ha. apply bool_decide_eq_true in Ha. tauto. }
    rewrite (St_bind_run (mret _) _ w (print_path true (components p)) w eq_refl).
    apply normalize_tail; try done.
    + by apply print_path_nonempty.
    + destruct (components p) as [|d ds]; [by left|right]. by apply print_ends_slash.
    + by apply clean_print.
    + destruct (decide (components p = [])) as [->|Hn]; [done|]. rewrite split_print by done.
      rewrite nonempty_app, (nonempty_proper (components p)) by done. done.
  - pose proof (co_slash _ Hcwd) as Hcs. pose proof (co_clean _ Hcwd) as Hcc.
    set (cwd := current_directory w.1) in *.
    assert (cwd ≠ []) as Hcne by (intros E; rewrite E in Hcs; by rewrite ends_slash_nil in Hcs).
    destruct (decide (components p = [])) as [Hn|Hn].
    + rewrite Hn. rewrite bool_decide_true by done.
      destruct (trailing_slashes cwd Hcne) as (s & Hs & Hsne & _ & _ & Hsc & Hsend & Hsp).
      rewrite (St_bind_run (lift _) _ w s w) by (unfold lift; by rewrite Hs).
      rewrite app_nil_r. apply normalize_tail; try done; [by apply Hsc|apply (co_place _ Hcwd)].
    + rewrite bool_decide_false by by apply print_rel_not_dot.
      rewrite bool_decide_true.
      2: { pose proof (is_abs_print false (components p) Hp) as Ha. by apply bool_decide_eq_false in Ha. }
      rewrite (St_bind_run (mret _) _ w (cwd ++ print_path false (components p)) w eq_refl).
      pose proof (print_path_nonempty false (components p) Hp) as Hpne.
      apply normalize_tail; try done.
      * by destruct cwd.
      * right. rewrite ends_slash_app by done. by apply print_ends_slash.
      * apply clean_app_slash; [done..|]. by apply clean_print.
      * rewrite split_app_slash, split_print by done. by rewrite app_nil_l, (nonempty_proper (components p)).
      * apply proper_app. split; [apply (co_place _ Hcwd)|done].
Qed.
End Facts.
