(* ===== verification/VfsPathProperties.v ===== *)
(** * VfsPathProperties: what normalization and the current directory guarantee

    The theorems on [GetNormalizedPathLocked], stated with the walk of
    VfsPathFacts.v, and a file system of one mount with symbolic links on which
    they are applied. *)

From S2P Require Import Prelude BaseStrings PathUtil Util DirectoryManager MountPoints.
From S2P Require Import FileSystemHandler Redirect VfsPaths VfsPathFacts.

#[local] Open Scope Z_scope.

(** ** A file system for the witnesses *)

Module SmallFs.
Export SmallTree.

Definition handlers `{BaseStrings} (_ : hid) : FileSystemHandler (tree * RedirectHandler) :=
  redirect_handler tree_handler.

(** "/link" points to "/data/app", which is a directory; the current directory is
    "/data/". *)
Definition mounts : MountPointManager hid := {|
  mount_point_map_ := {[ lit "/" := {| handler := 0%nat; owner_uid := 0 |} ]};
  update_number := 0; notified := []
|}.

Definition world : PathSys (tree * RedirectHandler) :=
  (mkVfs mounts ∅ kFirstInode (lit "/data/") 18 10001 false,
   ({[ lit "/data/app" := dir_stat; lit "/data" := dir_stat ]},
    mkRedirect true {[ lit "/link" := lit "/data/app" ]} {[ lit "/" := [lit "link"] ]} (lit "/"))).
End SmallFs.

(** ** Normalization *)

Section Normalization.
Context `{BaseStringsSpec} {F : Type} (handlers : hid → FileSystemHandler F) (fuel : nat).
Context (Hreads : ∀ h, reads (handlers h)).
Implicit Types w : PathSys F.

Abbreviation link := (link handlers).
Abbreviation links_ok := (links_ok handlers fuel).
Abbreviation unlinked := (unlinked handlers).
Abbreviation walk := (walk handlers fuel).

Lemma final_end w n p : link w p = None → final handlers w n p = p.
Proof. intros Hp. destruct n as [|n]; [done|]. cbn [final]. by rewrite Hp. Qed.

(** A path without links and [".."] is walked as it is. *)
Lemma walk_unlinked w option ds acc :
  place (acc ++ ds) → unlinked w (acc ++ ds) → walk w option ds acc = acc ++ ds.
Proof.
  revert acc. induction ds as [|d ds IH]; intros acc Hp Hu; [by rewrite app_nil_r|].
  cbn [VfsPathFacts.walk]. rewrite bool_decide_false.
  2: { intros ->. destruct Hp as (_ & Hdd & _). apply Hdd. set_solver. }
  rewrite (cons_middle d acc ds), (app_assoc acc [d] ds) in *.
  rewrite (final_end w), components_print.
  - destruct (followed option ds); by apply IH.
  - apply place_app in Hp as [Hp _]. apply Hp.
  - apply Hu; [by eexists|by destruct acc].
Qed.

Lemma walk_parent w ds d acc :
  d ≠ lit ".." →
  walk w kResolveParentSymlinks (ds ++ [d]) acc = walk w kResolveSymlinks ds acc ++ [d].
Proof.
  intros Hd. revert acc. induction ds as [|e ds IH]; intros acc.
  - cbn. by rewrite bool_decide_false.
  - cbn [app VfsPathFacts.walk]. unfold followed. rewrite !(bool_decide_true (ds ++ [d] ≠ [])) by by destruct ds.
    rewrite (bool_decide_true (kResolveParentSymlinks = kResolveParentSymlinks)) by done.
    rewrite (bool_decide_true (kResolveSymlinks = kResolveSymlinks)) by done.
    cbn [orb andb]. rewrite orb_true_r. by destruct (bool_decide (e = lit "..")); rewrite IH.
Qed.

(** A path that is printed from a place. *)
Lemma printed_clean ds : place ds → clean (print_path true ds).
Proof. intros (Hp & _ & Ht). by apply clean_print. Qed.

Lemma printed_trailing ds :
  place ds → RemoveTrailingSlashes (print_path true ds) = Done (print_path true ds).
Proof.
  intros (Hp & _). apply remove_trailing_slashes_id. destruct ds as [|d ds]; [by left|right].
  by apply print_ends_slash.
Qed.

Lemma printed_dotted ds : place ds → dotted (print_path true ds) = false.
Proof.
  intros Hds. unfold dotted. rewrite printed_trailing by done. destruct Hds as (Hp & _).
  unfold one_byte_relative. rewrite components_print, is_abs_print by done. by destruct ds as [|[|? []] []].
Qed.

Lemma printed_route w ds : place ds → route w (print_path true ds) = ds.
Proof. intros (Hp & _). unfold route. by rewrite is_abs_print, components_print. Qed.

Lemma normalize_again w option ds :
  links_ok w → cwd_ok w → place ds → unlinked w ds →
  GetNormalizedPathLocked handlers fuel (print_path true ds) option w = Done (print_path true ds, w).
Proof.
  intros Hl Hc Hds Hu. destruct (normalize_run handlers fuel Hreads option (print_path true ds) w) as [Hrun _]; try done.
  - apply print_path_nonempty, Hds.
  - by apply printed_clean.
  - by apply printed_dotted.
  - by rewrite Hrun, printed_route, walk_unlinked.
Qed.

Lemma normalized_holds w ds :
  links_ok w → cwd_ok w → place ds → unlinked w ds →
  IsNormalizedPathLocked handlers fuel (print_path true ds) w = Done (true, w).
Proof.
  intros Hl Hc Hds Hu. unfold IsNormalizedPathLocked.
  run_with (normalize_again w kResolveSymlinks ds Hl Hc Hds Hu).
  assert (bool_decide (print_path true ds ≠ lit "/") && EndsWithSlash (print_path true ds) = false) as ->.
  { destruct ds as [|d ds]; [done|]. rewrite print_ends_slash by (done || apply Hds). by rewrite andb_false_r. }
  unfold mret, St_ret. by rewrite bool_decide_true.
Qed.

Lemma normalize_dotted option p w :
  p ≠ [] → clean p → dotted p = true → GetNormalizedPathLocked handlers fuel p option w = Abort.
Proof.
  intros Hne Hc Hd. destruct (trailing_slashes p Hne) as (q & Hq & Hqne & _ & _ & Hqc & _).
  unfold dotted in Hd. rewrite Hq in Hd. unfold GetNormalizedPathLocked.
  rewrite (St_bind_run (lift _) _ w q w) by (unfold lift; by rewrite Hq). cbv zeta.
  unfold mbind, St_bind, lift. rewrite (canonical_or_abort q (proj2 Hqc Hc) Hqne), Hd. done.
Qed.

(** Links that point to each other are followed without end. *)
Lemma endless_links w a b n :
  link w a = Some b → link w b = Some a → a ≠ b → ResolveSymlinks_ handlers n a w = NoFuel.
Proof.
  revert a b. induction n as [|n IH]; intros a b Ha Hb Hne; [done|].
  rewrite resolve_step, Ha by done. rewrite bool_decide_false by done. by apply (IH b a).
Qed.

(** C5.  Normalization of paths.  When every chain of symbolic links ends and links
    point to normalized paths, [GetNormalizedPathLocked] of a path whose components
    have no white space around them is the walk over its components, from the
    current directory for a relative path: up at [".."] (the root stays), and along
    the link, if there is one, at every component, at every component but the last,
    or at none, as the option says.  No assertion fires and nothing changes, except
    that a one-byte relative path such as ["./a"] aborts.  The result is absolute
    and has no empty, ["."] or [".."] component.  If all links were resolved, no
    directory on the way is a link, and the result counts as normalized and stays as
    it is under each option; if the last component was kept, the directory is the
    one that resolving everything before it gives. *)
Theorem path_normalization option p w :
  links_ok w → cwd_ok w → p ≠ [] → clean p →
  if dotted p then GetNormalizedPathLocked handlers fuel p option w = Abort
  else
    let option' := effective option p in
    let r := walk w option' (route w p) [] in
    GetNormalizedPathLocked handlers fuel p option w = Done (print_path true r, w) ∧
    proper r ∧ lit ".." ∉ r ∧
    (option' = kResolveSymlinks →
       unlinked w r ∧ IsNormalizedPathLocked handlers fuel (print_path true r) w = Done (true, w) ∧
       ∀ o, GetNormalizedPathLocked handlers fuel (print_path true r) o w = Done (print_path true r, w)) ∧
    (option' = kResolveParentSymlinks → ∀ ds d, route w p = ds ++ [d] → d ≠ lit ".." →
       r = walk w kResolveSymlinks ds [] ++ [d]).
Proof.
  intros Hl Hc Hne Hcl. destruct (dotted p) eqn:Hd; [by apply normalize_dotted|]. intros option' r.
  destruct (normalize_run handlers fuel Hreads option p w Hl Hc Hne Hcl Hd) as (Hrun & Hpl & Hu).
  fold option' in Hrun, Hpl, Hu. fold r in Hrun, Hpl, Hu.
  split; [done|]. split; [apply Hpl|]. split; [apply Hpl|]. split.
  - intros Ho. specialize (Hu Ho). split; [done|]. split; [by apply normalized_holds|].
    intros o. by apply normalize_again.
  - intros Ho ds d Hr Hdd. unfold r. rewrite Hr, Ho. by apply walk_parent.
Qed.
End Normalization.

(** ** Witnesses *)

Module SmallFacts.
Import SmallFs.
#[local] Existing Instance Reference.base_strings.
#[local] Existing Instance Reference.base_strings_spec.

Lemma handlers_read h : reads (handlers h).
Proof. apply redirect_reads, tree_reads. Qed.

Lemma small_link p t : link handlers world p = Some t → p = lit "/link" ∧ t = lit "/data/app".
Proof.
  unfold link. destruct (handler_of world p) as [h|]; [|done].
  change (h_readlink (handlers h) p world.2) with (Redirect.readlink (U := tree) p world.2).
  unfold Redirect.readlink. rewrite (St_bind_run get _ _ _ _ eq_refl). unfold GetSymlinkTarget.
  cbn [world snd symlinks_]. destruct (decide (p = lit "/link")) as [->|Hp].
  - rewrite lookup_singleton_eq. cbn. intros Ht. split; [done|congruence].
  - rewrite lookup_singleton_ne by congruence. done.
Qed.

Lemma small_links_ok : links_ok handlers 5 world.
Proof.
  split.
  - intros p t [-> ->]%small_link. exists [lit "data"; lit "app"].
    split; [done|]. split; [decided|]. split; [decided|]. split; [decided|]. split; [done|].
    intros es He _ _. destruct (link handlers world (print_path true es)) as [t|] eqn:El; [|done].
    apply small_link in El as [El _].
    destruct es as [|x es]; [discriminate|]. apply (f_equal components) in El.
    rewrite components_print in El.
    + cbn in El. injection El as -> ->. by apply prefix_cons_inv_1 in He.
    + destruct He as [k Hk]. assert (proper ((x :: es) ++ k)) as Hp by (rewrite <-Hk; decided).
      by apply proper_app in Hp as [? _].
  - lia.
  - exists (λ p, if decide (p = lit "/link") then 1%nat else 0%nat). intros p t [-> ->]%small_link.
    rewrite (decide_False (P := lit "/data/app" = _)), (decide_True (P := lit "/link" = _)) by done. lia.
Qed.

Lemma small_cwd_ok : cwd_ok world.
Proof. split; [done|decided|]. split; [decided|]. split; decided. Qed.

Lemma path_normalization_witness :
  GetNormalizedPathLocked handlers 5 (lit "../link//./lib/..") kResolveSymlinks world =
    Done (lit "/data/app", world) ∧
  GetNormalizedPathLocked handlers 5 (lit "../link") kResolveParentSymlinks world =
    Done (lit "/link", world) ∧
  IsNormalizedPathLocked handlers 5 (lit "/data/app") world = Done (true, world).
Proof.
  destruct (path_normalization handlers 5 handlers_read kResolveSymlinks (lit "../link//./lib/..") world
    small_links_ok small_cwd_ok ltac:(discriminate) ltac:(decided)) as (H1 & _ & _ & H2 & _).
  destruct (path_normalization handlers 5 handlers_read kResolveParentSymlinks (lit "../link") world
    small_links_ok small_cwd_ok ltac:(discriminate) ltac:(decided)) as (H3 & _).
  destruct (H2 ltac:(reflexivity)) as (_ & H4 & _).
  split; [|split].
  - rewrite H1. vm_compute. reflexivity.
  - rewrite H3. vm_compute. reflexivity.
  - etrans; [|exact H4]. vm_compute. reflexivity.
Defined.
End SmallFacts.
