(* ===== verification/VfsOpen.v ===== *)
(** * VfsOpen: opening, removing and renaming in [virtual_file_system.cc]
    (under src/posix_translation/)

    The path calls that also reach descriptors: [open] with the files that are opened
    ahead of time ([preopened_fds_]), the calls that drop such files ([remove],
    [unlink], [rename]), [fstat], and the log written for debugging.  Their state is
    that of VfsFds.v with the members that only these calls use ([Opens]) and the state
    of VfsPaths.v. *)

From S2P Require Import Prelude BaseStrings PathUtil Util FileStream FdMap VfsFds MountPoints.
From S2P Require Import FileSystemHandler VfsPaths.
Import Refs.

#[local] Open Scope Z_scope.

(** ** State *)

(** [preopened_fds_] has, for each path, the numbers in the order of their insertion;
    [permissions] is [permission_] of the streams. *)
Record Opens : Type := mkOpens {
  permissions : gmap sid PermissionInfo;
  preopened_fds_ : gmap str (list Z);
  scheduled_preopens_ : list str;
  preopen_started_ : bool;
  browser_ready_ : bool;
  debug_fds_ : gmap Z (Z * str);
}.

Definition set_permissions (p : gmap sid PermissionInfo) (o : Opens) : Opens :=
  mkOpens p (preopened_fds_ o) (scheduled_preopens_ o) (preopen_started_ o) (browser_ready_ o) (debug_fds_ o).
Definition set_preopened (p : gmap str (list Z)) (o : Opens) : Opens :=
  mkOpens (permissions o) p (scheduled_preopens_ o) (preopen_started_ o) (browser_ready_ o) (debug_fds_ o).
Definition set_debug (d : gmap Z (Z * str)) (o : Opens) : Opens :=
  mkOpens (permissions o) (preopened_fds_ o) (scheduled_preopens_ o) (preopen_started_ o) (browser_ready_ o) d.

Definition kPreopenPendingFd : Z := -2.
Definition kInvalidFileNo : Z := -1.

Definition O_ACCMODE : Z := 3.
Definition O_RDONLY : Z := 0.
Definition O_RDWR : Z := 2.
Definition O_CREAT : Z := 64.
Definition O_EXCL : Z := 128.
Definition O_TRUNC : Z := 512.
Definition O_LARGEFILE : Z := 32768.
Definition O_CLOEXEC : Z := 524288.

Definition IsEligibleForPreopen (oflag : Z) : bool :=
  Z.land oflag (Z.lnot (Z.lor O_LARGEFILE O_CLOEXEC)) =? 0.

(** Does the call want to change the file? *)
Definition wants_write (oflag : Z) : bool :=
  negb (Z.land oflag O_ACCMODE =? O_RDONLY) || has oflag (Z.lor O_CREAT O_TRUNC).

Section Open.
Context `{BaseStrings} {F : Type} (handlers : hid → FileSystemHandler F) (fuel : nat).
Context (allowed : sid → bool).

Abbreviation OS := (Sys (Opens * PathSys F)).

(** [cond_.Wait()], during which other threads run. *)
Context (Wait : St OS unit).

Definition on_paths {A} (m : St (PathSys F) A) : St OS A := λ w,
  match m w.2.2 with
  | Done (a, p) => Done (a, (w.1, (w.2.1, p)))
  | Abort => Abort
  | NoFuel => NoFuel
  end.

Definition on_opens (f : Opens → Opens) : St OS unit := modify (λ w, (w.1, (f w.2.1, w.2.2))).

Definition normalized (path : str) (option : NormalizeOption) : St OS str :=
  on_paths (GetNormalizedPathLocked handlers fuel path option).

Definition handler_for (path : str) : St OS (option (hid * PermissionInfo)) :=
  on_paths (GetFileSystemHandlerLocked handlers path).

Definition on_handler {A} (m : St F A) : St OS A := on_paths (on_fs m).

(** ** Files opened ahead of time *)

Definition preopened (resolved : str) (o : Opens) : list Z := default [] (preopened_fds_ o !! resolved).

(** An entry that is left empty is no entry. *)
Definition put_preopened (resolved : str) (l : list Z) (o : Opens) : Opens :=
  set_preopened (match l with [] => delete resolved (preopened_fds_ o) | _ => <[resolved := l]> (preopened_fds_ o) end) o.

Definition SchedulePreopen (path : str) : St OS unit :=
  w ← get;
  check (negb (preopen_started_ (w : OS).2.1));;
  resolved ← normalized path kResolveSymlinks;
  on_opens (λ o, put_preopened resolved (preopened resolved o ++ [kPreopenPendingFd])
                   (mkOpens (permissions o) (preopened_fds_ o) (scheduled_preopens_ o ++ [resolved])
                      (preopen_started_ o) (browser_ready_ o) (debug_fds_ o))).

(** The thread that is started runs [PerformPreopens]. *)
Definition StartPreopenLocked : St OS unit :=
  w ← get;
  check (negb (preopen_started_ (w : OS).2.1));;
  on_opens (λ o, mkOpens (permissions o) (preopened_fds_ o) (scheduled_preopens_ o) true (browser_ready_ o)
                   (debug_fds_ o)).

Definition SetBrowserReady (enable_preopen : bool) : St OS unit :=
  w ← get;
  check (negb (browser_ready_ (w : OS).2.1));;
  on_opens (λ o, mkOpens (permissions o) (preopened_fds_ o) (scheduled_preopens_ o) (preopen_started_ o) true
                   (debug_fds_ o));;
  if enable_preopen then StartPreopenLocked else mret tt.

Definition ClosePreopenedFilesWithResolvedPathLocked (resolved_path : str) : St OS unit :=
  w ← get;
  for_each (λ fd, if 0 <=? fd then on_fds (CloseLocked allowed fd);; mret tt else mret tt)
    (preopened resolved_path (w : OS).2.1);;
  on_opens (λ o, set_preopened (delete resolved_path (preopened_fds_ o)) o).

(** The loop of [OpenLocked] that takes a number, waiting while it is pending. *)
Fixpoint take_preopened (n : nat) (resolved : str) : St OS (option Z) :=
  match n with
  | O => λ _, NoFuel
  | S n =>
      w ← get;
      match preopened resolved (w : OS).2.1 with
      | [] => mret None
      | fd :: rest =>
          if negb (fd =? kPreopenPendingFd) then
            on_opens (put_preopened resolved rest);; mret (Some fd)
          else Wait;; take_preopened n resolved
      end
  end.

(** ** open *)

(** The stream that [handler->open] makes, at a new address, with [fd]. *)
Definition new_file (fd : Z) (stream : NewStream) (permission : PermissionInfo) : St OS unit :=
  w ← get;
  let s := fresh (dom (objects (w : OS).1.2)) in
  on_fds (on_streams (set_object s (new_stream (ns_oflag stream) false)));;
  on_opens (λ o, set_permissions (<[s := permission]> (permissions o)) o);;
  on_fds (AddFileStream fd (Some s)).

(** The answer when the caller may not write. *)
Definition deny_open (resolved : str) (oflag : Z) (h : hid) : St OS (res Z) :=
  if has oflag O_CREAT then
    st ← on_handler (h_stat (handlers h) resolved);
    match st with
    | Ok st =>
        if S_ISDIR (st_mode st) then mret (Err EISDIR)
        else if has oflag O_EXCL then mret (Err EEXIST)
        else on_paths (DenyAccessForCreateLocked handlers resolved h)
    | Err _ => on_paths (DenyAccessForCreateLocked handlers resolved h)
    end
  else on_paths (DenyAccessForModifyLocked handlers resolved h).

(** The stream for a number that is free. *)
Definition open_stream (resolved : str) (oflag cmode : Z) (h : hid) (permission : PermissionInfo) :
    St OS (res Z) :=
  fd ← on_fds GetFirstUnusedDescriptorLocked;
  if fd <? 0 then mret (Err EMFILE)
  else
    stream ← on_handler (h_open (handlers h) fd resolved oflag cmode);
    match stream with
    | Err e => on_fds (RemoveFileStream fd);; mret (Err e)
    | Ok stream =>
        new_file fd stream permission;;
        (if negb (IsEligibleForPreopen oflag)
         then ClosePreopenedFilesWithResolvedPathLocked resolved else mret tt);;
        mret (Ok fd)
    end.

(** A number taken from [preopened_fds_] is the result; -1 is then the failure of the
    opening ahead of time, and errno is as it was. *)
Definition OpenLocked (n : nat) (pathname : str) (oflag cmode : Z) (use_preopened : bool) : St OS (res Z) :=
  w ← get;
  check (negb (is_main_thread (w : OS).2.2.1));;
  resolved ← normalized pathname kResolveSymlinks;
  taken ← (if use_preopened && IsEligibleForPreopen oflag then take_preopened n resolved else mret None);
  match taken with
  | Some fd => mret (Ok fd)
  | None =>
      m ← handler_for resolved;
      match m with
      | None => mret (Err ENOENT)
      | Some (h, permission) =>
          check (IsValid permission);;
          if wants_write oflag && negb (is_writable permission) then deny_open resolved oflag h
          else
            open_stream resolved oflag cmode h permission
      end
  end.

Definition open (n : nat) (pathname : str) (oflag cmode : Z) : St OS (res Z) :=
  OpenLocked n pathname oflag cmode true.

(** The number that replaces the first pending one of a path. *)
Fixpoint fill_pending (fd : Z) (l : list Z) : list Z :=
  match l with
  | [] => []
  | x :: l => if x =? kPreopenPendingFd then fd :: l else x :: fill_pending fd l
  end.

Definition perform_preopen (resolved : str) : St OS unit :=
  w ← get;
  if bool_decide (kPreopenPendingFd ∈ preopened resolved (w : OS).2.1) then
    fd ← OpenLocked 0 resolved 0 0 false;
    on_opens (λ o, put_preopened resolved
                     (fill_pending (match fd with Ok fd => fd | Err _ => -1 end) (preopened resolved o)) o)
  else mret tt.

Definition PerformPreopens : St OS unit :=
  w ← get; for_each perform_preopen (scheduled_preopens_ (w : OS).2.1).

(** ** Removal *)

(** [remove] and [unlink]. *)
Definition remove_path (call : FileSystemHandler F → str → St F (res Z)) (pathname : str) : St OS (res Z) :=
  resolved ← normalized pathname kResolveParentSymlinks;
  m ← handler_for resolved;
  match m with
  | None => mret (Err ENOENT)
  | Some (h, permission) =>
      if negb (is_writable permission) then on_paths (DenyAccessForModifyLocked handlers resolved h)
      else
        ClosePreopenedFilesWithResolvedPathLocked resolved;;
        on_handler (call (handlers h) resolved)
  end.

Definition remove (pathname : str) : St OS (res Z) := remove_path (λ h, h_remove h) pathname.
Definition unlink (pathname : str) : St OS (res Z) := remove_path (λ h, h_unlink h) pathname.

(** ENOTDIR before ENOENT before EACCES. *)
Definition prefer_errno (oldpath_errno newpath_errno : errno) : errno :=
  if bool_decide (oldpath_errno = ENOTDIR) || bool_decide (newpath_errno = ENOTDIR) then ENOTDIR
  else if bool_decide (oldpath_errno = ENOENT) || bool_decide (newpath_errno = ENOENT) then ENOENT
  else EACCES.

Definition err_of {A} (r : res A) : errno := match r with Err e => e | Ok _ => EACCES end.

Definition rename (oldpath newpath : str) : St OS (res Z) :=
  resolved_oldpath ← normalized oldpath kResolveSymlinks;
  m ← handler_for resolved_oldpath;
  match m with
  | None => mret (Err ENOENT)
  | Some (h, permission_old) =>
      resolved_newpath ← normalized newpath kResolveSymlinks;
      m ← handler_for resolved_newpath;
      match m with
      | None => mret (Err ENOENT)
      | Some (another_handler, permission_new) =>
          if negb (bool_decide (h = another_handler)) then mret (Err EXDEV)
          else if bool_decide (resolved_newpath = resolved_oldpath) then
            st ← on_paths (StatLocked handlers fuel resolved_newpath);
            match st with
            | Err e => check (bool_decide (e ≠ EOVERFLOW));; mret (Err e)
            | Ok _ => mret (Ok 0)
            end
          else if negb (is_writable permission_old) || negb (is_writable permission_new) then
            old ← on_paths (DenyAccessForModifyLocked (A := Z) handlers resolved_oldpath h);
            new ← on_paths (DenyAccessForCreateLocked (A := Z) handlers resolved_newpath h);
            mret (Err (prefer_errno (err_of old) (err_of new)))
          else
            ClosePreopenedFilesWithResolvedPathLocked resolved_oldpath;;
            ClosePreopenedFilesWithResolvedPathLocked resolved_newpath;;
            on_handler (h_rename (handlers h) resolved_oldpath resolved_newpath)
      end
  end.

(** ** fstat and the debugging log *)

(** [fstat] is the stream's method. *)
Definition fstat (stream_fstat : sid → St OS (res Stat)) (fd : Z) : St OS (res Stat) :=
  fd_call allowed fd (λ s,
    st ← stream_fstat s;
    match st with
    | Err e => mret (Err e)
    | Ok st =>
        w ← get;
        let permission := default PermissionInfo_new (permissions (w : OS).2.1 !! s) in
        check (IsValid permission);;
        st ← lift (FillPermissionInfoToStat permission st);
        mret (Ok st)
    end).

(** The stream that [debug_write] is called on, if there is one. *)
Definition DebugWriteLocked (debug_write : sid → St OS unit) (fd : Z) : St OS unit :=
  w ← get;
  if negb (browser_ready_ (w : OS).2.1) then mret tt
  else
    match debug_fds_ w.2.1 !! fd with
    | None => mret tt
    | Some (debug_fd, name) =>
        stream ←
          (if debug_fd =? kInvalidFileNo then
             new_fd ← on_fds GetFirstUnusedDescriptorLocked;
             on_opens (λ o, set_debug (<[fd := (new_fd, name)]> (debug_fds_ o)) o);;
             if new_fd <? 0 then mret None
             else
               m ← handler_for name;
               match m with
               | None => mret None
               | Some (h, permission) =>
                   stream ← on_handler (h_open (handlers h) new_fd name (Z.lor O_CREAT O_RDWR) 384);
                   match stream with
                   | Err _ => mret None
                   | Ok stream =>
                       new_file new_fd stream permission;;
                       on_fds (GetStream allowed new_fd)
                   end
               end
           else on_fds (GetStream allowed debug_fd));
        match stream with Some s => debug_write s | None => mret tt end
    end.
End Open.
