(* ===== verification/VfsAccess.v ===== *)
(** * VfsAccess: who may change what

    The permission that [GetFileSystemHandlerLocked] gives, and what the calls that
    change the file system do with it. *)

From S2P Require Import Prelude BaseStrings PathUtil Util FileStream FdMap VfsFds MountPoints.
From S2P Require Import FileSystemHandler VfsPaths VfsPathFacts VfsPathProperties VfsOpen.

#[local] Open Scope Z_scope.

Section Access.
Context `{BaseStringsSpec} {F : Type} (handlers : hid → FileSystemHandler F) (fuel : nat).
Context (Hreads : ∀ h, reads (handlers h)).
Implicit Types w : PathSys F.

(** ** Permissions *)

(** The owner of the mount point that serves a path. *)
Definition owner_of w (p : str) : Z :=
  match GetFileSystemHandler p 0 (mount_point_map_ (mount_points_ w.1)) with
  | Done (_, uid) => uid
  | _ => 0
  end.

Definition stat_of w (h : hid) (p : str) : res Stat :=
  match h_stat (handlers h) p w.2 with Done (r, _) => r | _ => Err ENOENT end.

Definition world_writable w (h : hid) (p : str) : bool :=
  match IsWorldWritable (handlers h) p w.2 with Done (b, _) => b | _ => false end.

(** May the calling thread change [p], which [h] serves? *)
Definition may_write w (h : hid) (p : str) : bool :=
  negb (IsAppUid (current_uid w.1)) || (owner_of w p =? current_uid w.1) || world_writable w h p.

Definition permission_for w (h : hid) (p : str) : PermissionInfo :=
  mkPermissionInfo (owner_of w p) (may_write w h p).

(** The calls come from another thread than the main one, and what serves a path is
    initialized and has an owner. *)
Record serving w : Prop := {
  sv_thread : is_main_thread w.1 = false;
  sv_init : ∀ p h, handler_of w p = Some h → IsInitialized (handlers h) w.2 = true;
  sv_owner : ∀ p h, handler_of w p = Some h → owner_of w p ≠ kInvalidUid;
}.

Lemma mounted_eq w p : mounted p w = Done ((handler_of w p, owner_of w p), w).
Proof.
  unfold mounted, handler_of, owner_of.
  pose proof (get_handler_total (mount_point_map_ (mount_points_ w.1)) p 0) as Ht.
  by destruct (GetFileSystemHandler _ _ _) as [[h uid]| |].
Qed.

Lemma stat_run h p w : on_fs (h_stat (handlers h) p) w = Done (stat_of w h p, w).
Proof.
  destruct (reads_stat (Hreads h) p w.2) as (r & Hr & _). rewrite (on_fs_read _ w r Hr).
  unfold stat_of. by rewrite Hr.
Qed.

Lemma handler_locked_run p w :
  serving w →
  GetFileSystemHandlerLocked handlers p w =
  Done (match handler_of w p with Some h => Some (h, permission_for w h p) | None => None end, w).
Proof.
  intros Hs. unfold GetFileSystemHandlerLocked. run_with (mounted_eq w p).
  destruct (handler_of w p) as [h|] eqn:Eh; [|done].
  pose proof (sv_init _ Hs _ _ Eh) as Hi.
  rewrite (St_bind_run get _ w w w eq_refl), Hi. cbn [negb].
  rewrite (St_bind_run (mret tt) _ w tt w eq_refl), (St_bind_run get _ w w w eq_refl), Hi.
  rewrite (St_bind_run (check true) _ w tt w eq_refl).
  rewrite (St_bind_run _ _ w (may_write w h p) w).
  { by rewrite (sv_thread _ Hs). }
  unfold may_write. destruct (IsAppUid _); [|done]. cbn [negb orb].
  destruct (_ =? _); [done|]. destruct (reads_world (Hreads h) p w.2) as [b Hb].
  unfold world_writable. rewrite Hb. by apply on_fs_read.
Qed.

(** ** Refusals *)

(** errno when a file may not be changed, and when one may not be made. *)
Definition refused w (h : hid) (p : str) : errno :=
  match stat_of w h p with Ok _ => EACCES | Err e => e end.

Definition refused_in_parent w (h : hid) (p : str) : errno := refused w h (GetDirNameInPlace p).

Lemma deny_modify_run {A} h p w :
  DenyAccessForModifyLocked handlers p h w = Done (@Err A (refused w h p), w).
Proof.
  unfold DenyAccessForModifyLocked, refused. run_with (stat_run h p w).
  unfold stat_of. destruct (reads_stat (Hreads h) p w.2) as (r & -> & He).
  destruct r as [e|st]; [|done]. unfold check, mbind, St_bind.
  by destruct (He e eq_refl) as [-> | [-> | ->]].
Qed.

Lemma deny_create_run {A} h p w :
  DenyAccessForCreateLocked handlers p h w = Done (@Err A (refused_in_parent w h p), w).
Proof. apply deny_modify_run. Qed.

(** ** The path that is meant *)

(** The argument of a path call. *)
Definition path_ok w (p : str) : Prop := p ≠ [] ∧ clean p ∧ dotted p = false.

Definition meant w (option : NormalizeOption) (p : str) : str :=
  print_path true (walk handlers fuel w (effective option p) (route w p) []).

Record vfs_ok w : Prop := {
  vo_links : links_ok handlers fuel w;
  vo_cwd : cwd_ok w;
  vo_serving : serving w;
}.

Lemma meant_run option p w :
  vfs_ok w → path_ok w p → GetNormalizedPathLocked handlers fuel p option w = Done (meant w option p, w).
Proof. intros [Hl Hc _] (Hne & Hcl & Hd). by apply (normalize_run handlers fuel Hreads option p w Hl Hc Hne Hcl Hd). Qed.

Lemma meant_place option p w :
  vfs_ok w → path_ok w p →
  ∃ ds, meant w option p = print_path true ds ∧ place ds ∧ (effective option p = kResolveSymlinks → unlinked handlers w ds).
Proof.
  intros [Hl Hc _] (Hne & Hcl & Hd). eexists. split; [reflexivity|].
  by destruct (normalize_run handlers fuel Hreads option p w Hl Hc Hne Hcl Hd) as (_ & ? & ?).
Qed.

Lemma effective_all p : effective kResolveSymlinks p = kResolveSymlinks.
Proof. unfold effective. by destruct (RemoveTrailingSlashes p). Qed.

(** [StatLocked] on a path that is normalized already. *)
Definition stat_answer w (p : str) : outcome (res Stat) :=
  match handler_of w p with
  | None => Done (Err ENOENT)
  | Some h =>
      match stat_of w h p with
      | Err e => Done (Err e)
      | Ok st => st ← FillPermissionInfoToStat (permission_for w h p) st; mret (Ok st)
      end
  end.

Lemma stat_locked_run p w :
  vfs_ok w → path_ok w p →
  StatLocked handlers fuel p w =
  match stat_answer w (meant w kResolveSymlinks p) with
  | Done r => Done (r, w) | Abort => Abort | NoFuel => NoFuel
  end.
Proof.
  intros Hw Hp. unfold StatLocked. run_with (meant_run kResolveSymlinks p w Hw Hp).
  run_with (handler_locked_run (meant w kResolveSymlinks p) w (vo_serving _ Hw)).
  unfold stat_answer. destruct (handler_of w _) as [h|] eqn:Eh; [|done].
  rewrite (St_bind_run (check _) _ w tt w).
  2: { unfold check, IsValid. cbn. pose proof (sv_owner _ (vo_serving _ Hw) _ _ Eh) as Ho.
       by apply Z.eqb_neq in Ho as ->. }
  run_with (stat_run h (meant w kResolveSymlinks p) w). destruct (stat_of w h _) as [e|st]; [done|].
  unfold lift, mbind, St_bind, outcome_bind. by destruct (FillPermissionInfoToStat _ _).
Qed.
End Access.

(** ** Changes *)

(** The calls that change what a path names; [open] does when it may write. *)
Inductive change : Type :=
| ChMkdir (mode : Z)
| ChRmdir
| ChTruncate (length : Z)
| ChUtimes (times : timeval * timeval)
| ChUtime (actime modtime : Z)
| ChSymlink (oldpath : str)
| ChRemove
| ChUnlink
| ChOpen (oflag cmode : Z).

Definition modifies (c : change) : bool :=
  match c with ChOpen oflag _ => wants_write oflag | _ => true end.

(** [remove] and [unlink] take away the link itself. *)
Definition change_option (c : change) : NormalizeOption :=
  match c with ChRemove | ChUnlink => kResolveParentSymlinks | _ => kResolveSymlinks end.

Section Changes.
Context `{BaseStringsSpec} {F : Type} (handlers : hid → FileSystemHandler F) (fuel : nat).
Context (Hreads : ∀ h, reads (handlers h)) (allowed : sid → bool).

Abbreviation OS := (Sys (Opens * PathSys F)).
Context (Wait : St OS unit).
Implicit Types w : OS.

Definition run_change (n : nat) (c : change) (p : str) : St OS (res Z) :=
  match c with
  | ChMkdir mode => on_paths (mkdir handlers fuel p mode)
  | ChRmdir => on_paths (rmdir handlers fuel p)
  | ChTruncate length => on_paths (truncate handlers fuel p length)
  | ChUtimes times => on_paths (utimes handlers fuel p times)
  | ChUtime actime modtime => on_paths (utime handlers fuel p actime modtime)
  | ChSymlink oldpath => on_paths (vfs_symlink handlers fuel oldpath p)
  | ChRemove => remove handlers fuel allowed p
  | ChUnlink => unlink handlers fuel allowed p
  | ChOpen oflag cmode => open handlers fuel allowed Wait n p oflag cmode
  end.

(** errno of a call that is not permitted, when [h] serves the path [r]. *)
Definition refusal (c : change) w (h : hid) (r : str) : errno :=
  let v := w.2.2 in
  match c with
  | ChMkdir _ =>
      if is_ok (stat_of handlers v h r) then EEXIST else refused_in_parent handlers v h r
  | ChSymlink _ =>
      if is_ok (stat_of handlers v h r) then EEXIST else refused handlers v h (GetDirName r)
  | ChOpen oflag _ =>
      if has oflag O_CREAT then
        match stat_of handlers v h r with
        | Ok st =>
            if S_ISDIR (st_mode st) then EISDIR
            else if has oflag O_EXCL then EEXIST else refused_in_parent handlers v h r
        | Err _ => refused_in_parent handlers v h r
        end
      else refused handlers v h r
  | _ => refused handlers v h r
  end.

(** What a call that is permitted asks [h]. *)
Definition granted (c : change) w (h : hid) (r : str) : St OS (res Z) :=
  let forget := ClosePreopenedFilesWithResolvedPathLocked allowed r in
  match c with
  | ChMkdir mode => on_handler (h_mkdir (handlers h) r mode)
  | ChRmdir => on_handler (h_rmdir (handlers h) r)
  | ChTruncate length => on_handler (h_truncate (handlers h) r length)
  | ChUtimes times => on_handler (h_utimes (handlers h) r times)
  | ChUtime actime modtime => on_handler (h_utimes (handlers h) r (mkTimeval actime 0, mkTimeval modtime 0))
  | ChSymlink oldpath => on_handler (h_symlink (handlers h) oldpath r)
  | ChRemove => forget;; on_handler (h_remove (handlers h) r)
  | ChUnlink => forget;; on_handler (h_unlink (handlers h) r)
  | ChOpen oflag cmode => open_stream handlers allowed r oflag cmode h (permission_for handlers w.2.2 h r)
  end.

(** A link is only made in a directory. *)
Definition has_parent (c : change) w (h : hid) (r : str) : bool :=
  match c with ChSymlink _ => is_ok (stat_of handlers w.2.2 h (GetDirName r)) | _ => true end.

Lemma on_paths_read {A} (m : St (PathSys F) A) w a : m w.2.2 = Done (a, w.2.2) → on_paths m w = Done (a, w).
Proof. unfold on_paths. intros ->. by destruct w as [? [? ?]]. Qed.

Lemma on_paths_tail {A} (m m' : St (PathSys F) A) w : m w.2.2 = m' w.2.2 → on_paths m w = on_paths m' w.
Proof. unfold on_paths. by intros ->. Qed.

Lemma writing_is_not_preopened oflag : wants_write oflag = true → IsEligibleForPreopen oflag = false.
Proof.
  intros Hw. apply not_true_iff_false. intros He%Z.eqb_eq.
  assert (∀ k, Z.land k (Z.lor O_LARGEFILE O_CLOEXEC) = 0 → Z.land oflag k = 0) as Hk.
  { intros k Hk. apply Z.bits_inj. intros i. rewrite Z.land_spec, Z.bits_0.
    destruct (decide (i < 0)) as [Hi|Hi]; [by rewrite !Z.testbit_neg_r|].
    apply (f_equal (λ x, Z.testbit x i)) in He, Hk. cbv beta in He, Hk.
    rewrite Z.land_spec, Z.bits_0 in He, Hk. rewrite Z.lnot_spec in He by lia.
    destruct (Z.testbit oflag i), (Z.testbit k i); try done. cbn in *. by rewrite Hk in He. }
  unfold wants_write, has in Hw. rewrite !Hk in Hw by done. done.
Qed.

(** The calls on paths. *)
Lemma modify_path_run call p (v : PathSys F) :
  vfs_ok handlers fuel v → path_ok v p →
  let r := meant handlers fuel v kResolveSymlinks p in
  modify_path handlers fuel call p v =
  match handler_of v r with
  | None => Done (Err ENOENT, v)
  | Some h => if may_write handlers v h r then on_fs (call (handlers h) r) v
              else Done (Err (refused handlers v h r), v)
  end.
Proof.
  intros Hv Hp r. unfold modify_path. run_with (meant_run handlers fuel Hreads kResolveSymlinks p v Hv Hp).
  run_with (handler_locked_run handlers Hreads r v (vo_serving _ _ _ Hv)).
  destruct (handler_of v r) as [h|]; [|done]. cbn [is_writable permission_for].
  destruct (may_write _ _ _ _); [done|]. by apply deny_modify_run.
Qed.

Lemma mkdir_run mode p (v : PathSys F) :
  vfs_ok handlers fuel v → path_ok v p →
  let r := meant handlers fuel v kResolveSymlinks p in
  mkdir handlers fuel p mode v =
  match handler_of v r with
  | None => Done (Err ENOENT, v)
  | Some h => if may_write handlers v h r then on_fs (h_mkdir (handlers h) r mode) v
              else Done (Err (if is_ok (stat_of handlers v h r) then EEXIST else refused_in_parent handlers v h r), v)
  end.
Proof.
  intros Hv Hp r. unfold mkdir. run_with (meant_run handlers fuel Hreads kResolveSymlinks p v Hv Hp).
  run_with (handler_locked_run handlers Hreads r v (vo_serving _ _ _ Hv)).
  destruct (handler_of v r) as [h|]; [|done]. cbn [is_writable permission_for].
  destruct (may_write _ _ _ _); [done|]. cbn [negb]. run_with (stat_run handlers Hreads h r v).
  destruct (is_ok _); [done|]. by apply deny_create_run.
Qed.

Lemma vfs_symlink_run oldpath p (v : PathSys F) :
  vfs_ok handlers fuel v → path_ok v p →
  let r := meant handlers fuel v kResolveSymlinks p in
  vfs_symlink handlers fuel oldpath p v =
  match handler_of v r with
  | None => Done (Err ENOENT, v)
  | Some h =>
      if is_ok (stat_of handlers v h (GetDirName r)) then
        if may_write handlers v h r then on_fs (h_symlink (handlers h) oldpath r) v
        else Done (Err (if is_ok (stat_of handlers v h r) then EEXIST
                        else refused handlers v h (GetDirName r)), v)
      else Done (Err ENOENT, v)
  end.
Proof.
  intros Hv Hp r. unfold vfs_symlink. run_with (meant_run handlers fuel Hreads kResolveSymlinks p v Hv Hp).
  cbv zeta. run_with (handler_locked_run handlers Hreads r v (vo_serving _ _ _ Hv)).
  destruct (handler_of v r) as [h|]; [|done]. run_with (stat_run handlers Hreads h (GetDirName r) v).
  destruct (is_ok (stat_of _ _ _ (GetDirName r))); [|done]. cbn [negb is_writable permission_for].
  destruct (may_write _ _ _ _); [done|]. cbn [negb]. run_with (stat_run handlers Hreads h r v).
  destruct (is_ok _); [done|]. by apply deny_modify_run.
Qed.

(** ** The calls that also know descriptors *)

Lemma normalized_run option p w :
  vfs_ok handlers fuel w.2.2 → path_ok w.2.2 p →
  normalized handlers fuel p option w = Done (meant handlers fuel w.2.2 option p, w).
Proof. intros Hv Hp. apply on_paths_read. by apply meant_run. Qed.

Lemma handler_for_run p w :
  vfs_ok handlers fuel w.2.2 →
  handler_for handlers p w =
  Done (match handler_of w.2.2 p with Some h => Some (h, permission_for handlers w.2.2 h p) | None => None end, w).
Proof. intros Hv. apply on_paths_read. apply handler_locked_run, Hv. done. Qed.

Lemma remove_path_run call p w :
  vfs_ok handlers fuel w.2.2 → path_ok w.2.2 p →
  let r := meant handlers fuel w.2.2 kResolveParentSymlinks p in
  remove_path handlers fuel allowed call p w =
  match handler_of w.2.2 r with
  | None => Done (Err ENOENT, w)
  | Some h =>
      if may_write handlers w.2.2 h r then
        (ClosePreopenedFilesWithResolvedPathLocked allowed r;; on_handler (call (handlers h) r)) w
      else Done (Err (refused handlers w.2.2 h r), w)
  end.
Proof.
  intros Hv Hp r. unfold remove_path. run_with (normalized_run kResolveParentSymlinks p w Hv Hp).
  run_with (handler_for_run r w Hv). destruct (handler_of w.2.2 r) as [h|]; [|done].
  cbn [is_writable permission_for]. destruct (may_write _ _ _ _); [done|].
  by apply on_paths_read, deny_modify_run.
Qed.

Lemma deny_open_run r oflag h w :
  deny_open handlers r oflag h w = Done (Err (refusal (ChOpen oflag 0) w h r), w).
Proof.
  unfold deny_open, refusal. destruct (has oflag O_CREAT).
  - rewrite (St_bind_run _ _ w (stat_of handlers w.2.2 h r) w) by (apply on_paths_read; by apply stat_run).
    destruct (stat_of _ _ _ _) as [e|st]; [by apply on_paths_read, deny_create_run|].
    destruct (S_ISDIR _); [done|]. destruct (has oflag O_EXCL); [done|]. by apply on_paths_read, deny_create_run.
  - by apply on_paths_read, deny_modify_run.
Qed.

(** [open], when no file that was opened ahead of time is taken. *)
Lemma open_locked_run n p oflag cmode b w :
  vfs_ok handlers fuel w.2.2 → path_ok w.2.2 p →
  let r := meant handlers fuel w.2.2 kResolveSymlinks p in
  b && IsEligibleForPreopen oflag = false ∨ (0 < n)%nat ∧ preopened r w.2.1 = [] →
  OpenLocked handlers fuel allowed Wait n p oflag cmode b w =
  match handler_of w.2.2 r with
  | None => Done (Err ENOENT, w)
  | Some h =>
      if wants_write oflag && negb (may_write handlers w.2.2 h r)
      then Done (Err (refusal (ChOpen oflag cmode) w h r), w)
      else open_stream handlers allowed r oflag cmode h (permission_for handlers w.2.2 h r) w
  end.
Proof.
  intros Hv Hp r Hpre. unfold OpenLocked. rewrite (St_bind_run get _ w w w eq_refl).
  rewrite (St_bind_run (check _) _ w tt w) by (unfold check; by rewrite (sv_thread _ _ (vo_serving _ _ _ Hv))).
  run_with (normalized_run kResolveSymlinks p w Hv Hp). fold r.
  rewrite (St_bind_run _ _ w None w).
  2: { destruct Hpre as [->|[Hn Hpre]]; [done|]. destruct (_ && _); [|done]. destruct n as [|n]; [lia|].
       cbn [take_preopened]. rewrite (St_bind_run get _ w w w eq_refl). by rewrite Hpre. }
  run_with (handler_for_run r w Hv). destruct (handler_of w.2.2 r) as [h|] eqn:Eh; [|done].
  rewrite (St_bind_run (check _) _ w tt w).
  2: { unfold check, IsValid. cbn. pose proof (sv_owner _ _ (vo_serving _ _ _ Hv) _ _ Eh) as Ho.
       by apply Z.eqb_neq in Ho as ->. }
  change (is_writable (permission_for handlers w.2.2 h r)) with (may_write handlers w.2.2 h r).
  destruct (wants_write oflag && negb (may_write handlers w.2.2 h r)); [|done]. apply deny_open_run.
Qed.

(** C6.  Who may change the file system.  The call comes from another thread than the
    main one, with a path that C5 normalizes (its components have no white space around
    them, and it is not a one-byte relative path such as ["./a"], which aborts), in a
    state with links and a current directory as C5 asks; the mount points have initialized handlers with owners, and the handlers answer [stat],
    [readlink] and [IsWorldWritable] without changing their state, [stat] failing with
    ENOENT, ENOTDIR or EACCES only.  Each call that changes what a path names ([mkdir],
    [rmdir], [truncate], [utimes], [utime], [symlink], [remove], [unlink], and [open]
    for writing, with O_CREAT or with O_TRUNC) first normalizes its path, keeping a link
    at the end for [remove] and [unlink] only.  It fails with ENOENT when nothing is
    mounted for the path, or a link is to be made where [stat] of the directory fails.
    A thread with an application's uid that neither owns the mount point nor finds the
    path writable for everybody is refused, and nothing at all changes.  errno is then:
    for [mkdir] and [symlink], EEXIST if the path is there; for [open] with O_CREAT,
    EISDIR if it is a directory and else EEXIST if it is there and O_EXCL is given;
    otherwise, for these calls, EACCES if the parent directory is there and the
    handler's reason from [stat] of the parent if not; for [open] without O_CREAT and
    all other calls, EACCES if the path is there and the handler's reason from [stat] of
    the path if not.  Every other thread's call is passed on to the handler of the
    normalized path ([remove] and [unlink] first close what was opened ahead of time for
    it, and [open] goes on with C7). *)
Theorem changes_need_permission n c p w :
  vfs_ok handlers fuel w.2.2 → path_ok w.2.2 p → modifies c = true →
  let r := meant handlers fuel w.2.2 (change_option c) p in
  run_change n c p w =
  match handler_of w.2.2 r with
  | None => Done (Err ENOENT, w)
  | Some h =>
      if has_parent c w h r then
        if may_write handlers w.2.2 h r then granted c w h r w
        else Done (Err (refusal c w h r), w)
      else Done (Err ENOENT, w)
  end.
Proof.
  intros Hv Hp Hm r.
  assert (∀ (m : St (PathSys F) (res Z)) o, m w.2.2 = o → on_paths m w = on_paths (λ _, o) w) as Hrun.
  { intros m o Ho. by apply on_paths_tail. }
  assert (∀ r, on_paths (λ _, Done (r, w.2.2)) w = Done (r : res Z, w)) as Hret by (intros a; by apply on_paths_read).
  destruct c; cbn [run_change change_option granted refusal has_parent] in *; subst r;
    unfold rmdir, truncate, utimes, utime;
    try (rewrite (Hrun _ _ (modify_path_run _ p w.2.2 Hv Hp)); destruct (handler_of _ _) as [h|]; [|by rewrite Hret];
         by destruct (may_write _ _ _ _); [|rewrite Hret]);
    try apply (remove_path_run _ p w Hv Hp).
  - rewrite (Hrun _ _ (mkdir_run mode p w.2.2 Hv Hp)). destruct (handler_of _ _) as [h|]; [|by rewrite Hret].
    by destruct (may_write _ _ _ _); [|rewrite Hret].
  - rewrite (Hrun _ _ (vfs_symlink_run oldpath p w.2.2 Hv Hp)). destruct (handler_of _ _) as [h|]; [|by rewrite Hret].
    destruct (is_ok _); [|by rewrite Hret]. by destruct (may_write _ _ _ _); [|rewrite Hret].
  - unfold open. rewrite open_locked_run by (done || (left; rewrite writing_is_not_preopened by done; done)).
    cbn in Hm. rewrite Hm. destruct (handler_of _ _) as [h|]; [|done]. by destruct (may_write _ _ _ _).
Qed.
End Changes.

(** ** Witnesses *)

Module AccessProperties.
Import SmallFs SmallFacts.
#[local] Existing Instance Reference.base_strings.
#[local] Existing Instance Reference.base_strings_spec.

Lemma small_vfs_ok : vfs_ok handlers 5 world.
Proof.
  split; [apply small_links_ok|apply small_cwd_ok|]. split; [done|done|].
  intros p h. unfold handler_of, owner_of.
  pose proof (get_handler_mounted (mount_point_map_ (mount_points_ world.1)) p 0) as Hm.
  destruct (GetFileSystemHandler _ _ _) as [[h' uid]| |]; try done. intros Hh.
  destruct (Hm h Hh) as (q & mp & Hq & _ & Ho). cbn in Hq, Ho. subst uid.
  apply lookup_singleton_Some in Hq as [_ <-]. done.
Qed.

(** No descriptor is open. *)
Definition small_sys : Sys (Opens * PathSys (tree * Redirect.RedirectHandler)) :=
  ((mkFdMap ∅ [0; 1; 2; 3] 0 3, {| objects := ∅; calls := [] |}),
   (mkOpens ∅ ∅ [] false false ∅, world)).

Definition no_wait : St (Sys (Opens * PathSys (tree * Redirect.RedirectHandler))) unit := λ _, NoFuel.

Lemma changes_need_permission_witness :
  run_change handlers 5 (λ _, true) no_wait 1 (ChMkdir 493) (lit "../link/new") small_sys = Done (Err EACCES, small_sys) ∧
  run_change handlers 5 (λ _, true) no_wait 1 (ChOpen O_RDWR 0) (lit "none") small_sys = Done (Err ENOENT, small_sys).
Proof.
  split.
  - etrans; [apply (changes_need_permission handlers 5 handlers_read (λ _, true) no_wait 1 (ChMkdir 493)
      (lit "../link/new") small_sys small_vfs_ok)|].
    + split; [discriminate|]. split; [decided|reflexivity].
    + reflexivity.
    + vm_compute. reflexivity.
  - etrans; [apply (changes_need_permission handlers 5 handlers_read (λ _, true) no_wait 1 (ChOpen O_RDWR 0)
      (lit "none") small_sys small_vfs_ok)|].
    + split; [discriminate|]. split; [decided|reflexivity].
    + reflexivity.
    + vm_compute. reflexivity.
Defined.
End AccessProperties.
