(* ===== verification/VfsOpenFacts.v ===== *)
(** * VfsOpenFacts: what [open] does to descriptors

    [open] on all its branches: the descriptor that was opened ahead of time, the
    errors, and the new stream under the lowest number that is free. *)

From S2P Require Import Prelude BaseStrings PathUtil Util FileStream FdMap VfsFds MountPoints.
From S2P Require Import FileSystemHandler VfsPaths VfsPathFacts VfsPathProperties VfsOpen VfsAccess.
Import Refs.

#[local] Open Scope Z_scope.

Section OpenFacts.
Context `{BaseStringsSpec} {F : Type} (handlers : hid → FileSystemHandler F) (fuel : nat).
Context (Hreads : ∀ h, reads (handlers h)) (extra : sid → Z) (allowed : sid → bool).

Abbreviation OS := (Sys (Opens * PathSys F)).
Context (Wait : St OS unit).
Implicit Types w : OS.

(** What a stream keeps while descriptors are closed. *)
Definition flags_of (st : Streams) (s : sid) : option Z := oflag_ <$> (objects st !! s).

Lemma released_flags st s f x : objects st !! s = Some f → flags_of (released st s f) x = flags_of st x.
Proof.
  intros Hf. unfold flags_of. cbn. rewrite lookup_insert. case_decide; [|done]. subst x. rewrite Hf.
  cbn. by destruct (file_ref_count_ f =? 1).
Qed.

(** ** Closing what was opened ahead of time *)

(** [w'] is [w] without the descriptors of [l]. *)
Record closed (l : list Z) (w w' : World) : Prop := {
  cl_ok : fds_ok extra allowed w';
  cl_range : ∀ x, in_range w'.1 x ↔ in_range w.1 x;
  cl_streams : ∀ x, stream_at w' x = if bool_decide (x ∈ l) then None else stream_at w x;
  cl_flags : ∀ s, flags_of w'.2 s = flags_of w.2 s;
}.

Lemma stream_at_negative (w : World) x : fds_ok extra allowed w → x < 0 → stream_at w x = None.
Proof.
  intros Hw Hx. unfold stream_at. destruct (streams_ w.1 !! x) as [v|] eqn:E; [|done].
  assert (in_range w.1 x) as Hr by (apply (ok_used _ (fo_table _ _ _ Hw)); by rewrite E).
  apply (table_range_nonneg extra allowed) in Hr; [lia|done].
Qed.

Lemma closed_one (w : World) fd :
  fds_ok extra allowed w → ∃ (w' : World) b, CloseLocked allowed fd w = Done (b, w') ∧ closed [fd] w w'.
Proof.
  intros Hw. destruct (close_locked_run extra allowed w fd Hw) as (w' & Hrun & Hw' & Hr & Hm).
  pose proof (close_streams _ _ _ _ _ _ Hw Hrun) as Hst.
  exists w', (bool_decide (is_Some (stream_at w fd))). split; [done|]. split; [done|done| |].
  - intros x. unfold stream_at at 1. rewrite Hm. destruct (decide (x = fd)) as [->|Hx].
    + rewrite bool_decide_true by by left. destruct (stream_at w fd) eqn:E; [by rewrite lookup_delete_eq|done].
    + rewrite bool_decide_false by (intros ?%list_elem_of_singleton; done). unfold stream_at at 2.
      destruct (stream_at w fd); [by rewrite lookup_delete_ne|done].
  - intros s. destruct (stream_at w fd); [|by subst]. destruct Hst as (f & Hf & _ & ->). by apply released_flags.
Qed.

Lemma closed_trans l k (w w1 w2 : World) : closed l w w1 → closed k w1 w2 → closed (l ++ k) w w2.
Proof.
  intros [_ Hr1 Hs1 Hf1] [H2 Hr2 Hs2 Hf2]. split; [done| | |].
  - intros x. by rewrite Hr2.
  - intros x. rewrite Hs2, Hs1. rewrite (bool_decide_ext _ _ (elem_of_app l k x)).
    repeat case_bool_decide; try done; exfalso; tauto.
  - intros s. by rewrite Hf2.
Qed.

Lemma close_preopened_run r w :
  fds_ok extra allowed w.1 →
  ∃ t, ClosePreopenedFilesWithResolvedPathLocked allowed r w =
         Done (tt, (t, (set_preopened (delete r (preopened_fds_ w.2.1)) w.2.1, w.2.2))) ∧
    closed (preopened r w.2.1) w.1 t.
Proof.
  intros Hw. unfold ClosePreopenedFilesWithResolvedPathLocked. rewrite (St_bind_run get _ w w w eq_refl).
  assert (∀ l w, fds_ok extra allowed w.1 →
    ∃ t, for_each (λ fd, if 0 <=? fd then on_fds (CloseLocked allowed fd);; mret tt else mret tt) l w =
           Done (tt, (t, w.2)) ∧ closed l w.1 t) as Hall.
  { clear w Hw. induction l as [|fd l IH]; intros w Hw.
    - exists w.1. split; [by destruct w|]. by split.
    - cbn [for_each]. destruct (Z.leb_spec 0 fd) as [Hfd|Hfd].
      + destruct (closed_one w.1 fd Hw) as (t & b & Hc & Ht).
        rewrite (St_bind_run _ _ w tt (t, w.2)) by by run_with (on_fds_run _ w _ _ Hc).
        destruct (IH (t, w.2) (cl_ok _ _ _ Ht)) as (t' & Hrun & Ht'). exists t'. split; [done|].
        by apply (closed_trans [fd] l w.1 t t').
      + rewrite (St_bind_run (mret tt) _ w tt w eq_refl). destruct (IH w Hw) as (t & Hrun & Ht).
        exists t. split; [done|]. apply (closed_trans [fd] l w.1 w.1 t); [|done]. split; [done..| |done].
        intros x. case_bool_decide as Hx; [|done]. apply list_elem_of_singleton in Hx as ->.
        by apply stream_at_negative. }
  destruct (Hall (preopened r w.2.1) w Hw) as (t & Hrun & Ht). run_with Hrun. by exists t.
Qed.

(** ** A new descriptor *)

Lemma no_descriptor (t t' : World) : GetFirstUnusedDescriptor t = Done (-1, t') → t' = t.
Proof.
  unfold GetFirstUnusedDescriptor, mbind, St_bind, get.
  destruct (unused_fds_ t.1) as [|fd rest]; [by intros [= <-]|].
  destruct (Z.eqb_spec fd (-1)) as [|Hfd]; [by intros [= <-]|].
  unfold on_table, modify. destruct (AddFileStream _ _ _) as [[[] ?]| |]; try done.
  by intros [= ? _].
Qed.

(** A number that was taken and is given back. *)
Lemma give_back (t t1 : World) fd :
  fds_ok extra allowed t → fds_ok extra allowed t1 → (∀ x, in_range t1.1 x ↔ in_range t.1 x) → t1.2 = t.2 →
  streams_ t.1 !! fd = None → streams_ t1.1 = <[fd := None]> (streams_ t.1) →
  ∃ t', RemoveFileStream fd t1 = Done (tt, t') ∧ fds_ok extra allowed t' ∧
    (∀ x, stream_at t' x = stream_at t x) ∧ t'.2 = t.2.
Proof.
  intros Ht Ht1 Hr H2 Hn Hs.
  destruct (remove_file_stream_step extra t1 fd) as (t' & Hrun & Hstep); [apply Ht1..| |].
  { rewrite Hs, lookup_insert_eq. eauto. }
  exists t'. split; [done|]. split; [by eapply step_fds_ok|]. split.
  - intros x. unfold stream_at. rewrite (so_map _ _ _ _ Hstep), Hs, delete_insert_eq.
    destruct (decide (x = fd)) as [->|Hx]; [by rewrite lookup_delete_eq, Hn|by rewrite lookup_delete_ne].
  - rewrite <-H2. unfold RemoveFileStream, mbind, St_bind, get, on_table, modify in Hrun.
    rewrite Hs, lookup_insert_eq in Hrun. by injection Hrun as <-.
Qed.

(** The new stream [s] behind the number [fd] that was taken for it. *)
Lemma new_file_run fd (stream : NewStream) permission w :
  fds_ok extra allowed w.1 → in_range w.1.1 fd → streams_ w.1.1 !! fd = Some None →
  let s := fresh (dom (objects w.1.2)) in
  ∃ t, new_file fd stream permission w =
         Done (tt, (t, (set_permissions (<[s := permission]> (permissions w.2.1)) w.2.1, w.2.2))) ∧
    fds_ok extra allowed t ∧ (∀ x, in_range t.1 x ↔ in_range w.1.1 x) ∧ objects w.1.2 !! s = None ∧
    (∀ x, stream_at t x = if decide (x = fd) then Some s else stream_at w.1 x) ∧
    flags_of t.2 s = Some (ns_oflag stream) ∧ ∀ x, x ≠ s → flags_of t.2 x = flags_of w.1.2 x.
Proof.
  intros Hw Hr Hfd s. destruct w as [[t st] [o p]]. cbn [fst snd] in *.
  assert (objects st !! s = None) as Hs by (apply not_elem_of_dom, is_fresh).
  pose proof (fds_ok_new_object extra allowed t st s (ns_oflag stream) false Hw Hs) as Hw1.
  set (st1 := mkStreams (<[s := new_stream (ns_oflag stream) false]> (objects st)) (calls st)) in *.
  destruct (add_run extra allowed (t, st1) fd s) as (t' & Hadd & Ht' & Hr' & Hm); [done|done|by right| |].
  { apply (new_stream_open st1 s (ns_oflag stream) false). cbn. by rewrite lookup_insert_eq. }
  exists t'. split.
  - unfold new_file. rewrite (St_bind_run get _ _ _ _ eq_refl). cbv zeta. cbn [fst snd]. fold s.
    rewrite (St_bind_run (on_fds (on_streams (set_object s (new_stream (ns_oflag stream) false)))) _ ((t, st), (o, p)) tt ((t, st1), (o, p)) eq_refl).
    rewrite (St_bind_run (on_opens (λ o, set_permissions (<[s := permission]> (permissions o)) o)) _ ((t, st1), (o, p)) tt ((t, st1), (set_permissions (<[s := permission]> (permissions o)) o, p)) eq_refl).
    exact (on_fds_run _ ((t, st1), (set_permissions (<[s := permission]> (permissions o)) o, p)) _ _ Hadd).
  - split; [done|]. split; [done|]. split; [done|]. split.
    + intros x. unfold stream_at. rewrite Hm. cbn [fst]. case_decide as Hx.
      * subst x. by rewrite lookup_insert_eq.
      * by rewrite lookup_insert_ne.
    + destruct (add_file_stream_run _ _ _ _ Hadd) as (f & Hf & H2). cbn [snd st1 objects] in Hf.
      rewrite lookup_insert_eq in Hf. injection Hf as <-. unfold flags_of. rewrite H2. cbn. split.
      * by rewrite lookup_insert_eq.
      * intros x Hx. by rewrite !lookup_insert_ne.
Qed.

(** What a successful [open] leaves. *)
Record opened (w : OS) (fd : Z) (r : str) (eligible : bool) (stream : NewStream) (permission : PermissionInfo) (w' : OS) : Prop := {
  op_ok : fds_ok extra allowed w'.1;
  op_stream : ∃ s, objects w.1.2 !! s = None ∧ stream_at w'.1 fd = Some s ∧
    flags_of w'.1.2 s = Some (ns_oflag stream) ∧ permissions w'.2.1 !! s = Some permission;
  op_others : ∀ x, x ≠ fd → stream_at w'.1 x =
    if negb eligible && bool_decide (x ∈ preopened r w.2.1) then None else stream_at w.1 x;
  op_preopened : ∀ q, preopened q w'.2.1 = if negb eligible && bool_decide (q = r) then [] else preopened q w.2.1;
}.

Lemma on_handler_run {A} (m : St F A) w a f :
  m w.2.2.2 = Done (a, f) → on_handler m w = Done (a, (w.1, (w.2.1, (w.2.2.1, f)))).
Proof. unfold on_handler, on_paths, on_fs. by intros ->. Qed.

Lemma open_free_number_run r oflag cmode h permission w :
  fds_ok extra allowed w.1 → (∀ x, x ∈ preopened r w.2.1 → 0 <= x → is_Some (stream_at w.1 x)) →
  ∃ fd, first_unused w.1.1 fd ∧
    if fd =? -1 then open_stream handlers allowed r oflag cmode h permission w = Done (Err EMFILE, w)
    else
      match h_open (handlers h) fd r oflag cmode w.2.2.2 with
      | Done (Err e, f) =>
          ∃ t, open_stream handlers allowed r oflag cmode h permission w = Done (Err e, (t, (w.2.1, (w.2.2.1, f)))) ∧
            fds_ok extra allowed t ∧ (∀ x, stream_at t x = stream_at w.1 x) ∧ t.2 = w.1.2
      | Done (Ok stream, f) =>
          ∃ w', open_stream handlers allowed r oflag cmode h permission w = Done (Ok fd, w') ∧
            w'.2.2 = (w.2.2.1, f) ∧ opened w fd r (IsEligibleForPreopen oflag) stream permission w'
      | Abort => open_stream handlers allowed r oflag cmode h permission w = Abort
      | NoFuel => open_stream handlers allowed r oflag cmode h permission w = NoFuel
      end.
Proof.
  intros Hw Hpre. destruct (first_unused_run extra allowed w.1 Hw) as (fd & t1 & Hrun & Hf & Ht1 & Hr1 & Hm1).
  exists fd. split; [done|]. pose proof (on_fds_run _ w _ _ Hrun) as Hfu.
  unfold open_stream, GetFirstUnusedDescriptorLocked. run_with Hfu.
  destruct (Z.eqb_spec fd (-1)) as [->|Hfd].
  { apply no_descriptor in Hrun as ->. by destruct w. }
  pose proof (first_unused_nonneg extra allowed w.1 fd Hw Hf Hfd) as Hpos.
  rewrite (proj2 (Z.ltb_ge fd 0)) by lia.
  destruct Hf as [[? _]|(Hin & Hn & _)]; [done|].
  pose proof (first_unused_streams _ _ _ Hrun) as H2.
  destruct (h_open (handlers h) fd r oflag cmode w.2.2.2) as [[a f]| |] eqn:Eopen;
    [|by unfold mbind, St_bind, on_handler, on_paths, on_fs; cbn [fst snd]; rewrite Eopen..].
  pose proof (on_handler_run _ (t1, w.2) _ _ Eopen) as Hop. run_with Hop. cbn [fst snd]. destruct a as [e|stream].
  - destruct (give_back w.1 t1 fd) as (t & Hback & Ht & Hst & Hobj); try done.
    exists t. split; [|done]. by run_with (on_fds_run _ (t1, (w.2.1, (w.2.2.1, f))) _ _ Hback).
  - destruct (new_file_run fd stream permission (t1, (w.2.1, (w.2.2.1, f)))) as (t & Hnew & Ht & Hr & Hfree & Hst & Hfl & _);
      cbn [fst snd]; [done|by apply Hr1|by rewrite Hm1, lookup_insert_eq|].
    run_with Hnew. cbn [fst snd] in *. set (s := fresh (dom (objects t1.2))) in *.
    set (o := set_permissions (<[s := permission]> (permissions w.2.1)) w.2.1) in *.
    assert (∀ x, x ≠ fd → stream_at t x = stream_at w.1 x) as Hsame.
    { intros x Hx. rewrite Hst, decide_False by done. unfold stream_at. by rewrite Hm1, lookup_insert_ne. }
    assert (stream_at t fd = Some s) as Hnewfd by (by rewrite Hst, decide_True).
    rewrite H2 in Hfree.
    destruct (IsEligibleForPreopen oflag); cbn [negb].
    + rewrite (St_bind_run (mret tt) _ _ _ _ eq_refl). eexists. split; [reflexivity|]. split; [done|].
      split; cbn [fst snd negb andb].
      * done.
      * exists s. split; [done|]. split; [done|]. split; [done|]. cbn. by rewrite lookup_insert_eq.
      * intros x Hx. by apply Hsame.
      * done.
    + destruct (close_preopened_run r (t, (o, (w.2.2.1, f))) Ht) as (t2 & Hclose & Hc).
      run_with Hclose. eexists. split; [reflexivity|]. split; [done|]. cbn [fst snd] in *.
      change (preopened r o) with (preopened r w.2.1) in Hc.
      split; cbn [fst snd negb andb].
      * apply Hc.
      * exists s. split; [done|]. rewrite (cl_streams _ _ _ Hc), (cl_flags _ _ _ Hc). rewrite bool_decide_false.
        -- split; [done|]. split; [done|]. cbn. by rewrite lookup_insert_eq.
        -- intros Hx. destruct (Hpre fd Hx Hpos) as [y Hy]. unfold stream_at in Hy. by rewrite Hn in Hy.
      * intros x Hx. rewrite (cl_streams _ _ _ Hc). case_bool_decide; [done|]. by apply Hsame.
      * intros q. unfold preopened. cbn. case_bool_decide as Hq.
        -- subst q. by rewrite lookup_delete_eq.
        -- by rewrite lookup_delete_ne.
Qed.

(** C7.  [open].  As in C6, the call comes from another thread than the main one, the path
    is one that C5 normalizes (["./a"] aborts), and handlers answer [stat] without changing
    anything; the descriptors that were opened ahead of time for the path are open, and,
    when the call is for plain reading, the first opening ahead of time is not still
    pending.  Then [open] trips no assertion beyond those of the handler and does exactly
    this.  For plain reading it takes the first entry that was made ahead of time for the
    normalized path, if there is one, out of the list, returns it, and changes nothing
    else, so that each is handed out once; an entry can be -1, of an opening ahead of time
    that failed, and then -1 is returned though errno was not set and a file may be there
    by now.  Otherwise it fails with ENOENT when nothing is
    mounted, with the refusal of a caller that may not write, with EMFILE when no
    number is free, and with the handler's error, in each case leaving every descriptor
    as it was.  If the handler opens the file, the result is the lowest number that was
    free; it stands for a new stream with the handler's flags and the caller's
    permission, the descriptors that were opened ahead of time for the path are closed
    and forgotten unless the call was for plain reading, and every other descriptor is
    as it was. *)
Theorem open_gives_lowest_descriptor n p oflag cmode w :
  vfs_ok handlers fuel w.2.2 → path_ok w.2.2 p → fds_ok extra allowed w.1 → (0 < n)%nat →
  let r := meant handlers fuel w.2.2 kResolveSymlinks p in
  (∀ x, x ∈ preopened r w.2.1 → 0 <= x → is_Some (stream_at w.1 x)) →
  (IsEligibleForPreopen oflag = true → head (preopened r w.2.1) ≠ Some kPreopenPendingFd) →
  let run := open handlers fuel allowed Wait n p oflag cmode w in
  match (if IsEligibleForPreopen oflag then preopened r w.2.1 else []), handler_of w.2.2 r with
  | fd :: rest, _ => run = Done (Ok fd, (w.1, (put_preopened r rest w.2.1, w.2.2)))
  | [], None => run = Done (Err ENOENT, w)
  | [], Some h =>
      if wants_write oflag && negb (may_write handlers w.2.2 h r)
      then run = Done (Err (refusal handlers (ChOpen oflag cmode) w h r), w)
      else
        ∃ fd, first_unused w.1.1 fd ∧
          if fd =? -1 then run = Done (Err EMFILE, w)
          else
            match h_open (handlers h) fd r oflag cmode w.2.2.2 with
            | Done (Err e, f) =>
                ∃ t, run = Done (Err e, (t, (w.2.1, (w.2.2.1, f)))) ∧
                  fds_ok extra allowed t ∧ (∀ x, stream_at t x = stream_at w.1 x) ∧ t.2 = w.1.2
            | Done (Ok stream, f) =>
                ∃ w', run = Done (Ok fd, w') ∧ w'.2.2 = (w.2.2.1, f) ∧
                  opened w fd r (IsEligibleForPreopen oflag) stream (permission_for handlers w.2.2 h r) w'
            | Abort => run = Abort
            | NoFuel => run = NoFuel
            end
  end.
Proof.
  intros Hv Hp Hw Hn r Hlive Hready run. unfold run, open.
  assert (IsEligibleForPreopen oflag = false ∨ preopened r w.2.1 = [] →
    OpenLocked handlers fuel allowed Wait n p oflag cmode true w =
    match handler_of w.2.2 r with
    | None => Done (Err ENOENT, w)
    | Some h =>
        if wants_write oflag && negb (may_write handlers w.2.2 h r)
        then Done (Err (refusal handlers (ChOpen oflag cmode) w h r), w)
        else open_stream handlers allowed r oflag cmode h (permission_for handlers w.2.2 h r) w
    end) as Hrun.
  { intros Hpre. apply open_locked_run; [done..|]. destruct Hpre as [He|He]; [left; by rewrite He|by right]. }
  destruct (if IsEligibleForPreopen oflag then preopened r w.2.1 else []) as [|fd rest] eqn:El.
  - rewrite Hrun by (destruct (IsEligibleForPreopen oflag); [by right|by left]).
    destruct (handler_of w.2.2 r) as [h|]; [|done]. destruct (_ && _); [done|].
    by apply open_free_number_run.
  - destruct (IsEligibleForPreopen oflag) eqn:Ee; [|done].
    unfold OpenLocked. rewrite (St_bind_run get _ w w w eq_refl).
    rewrite (St_bind_run (check _) _ w tt w) by (unfold check; by rewrite (sv_thread _ _ (vo_serving _ _ _ Hv))).
    run_with (normalized_run handlers fuel Hreads kResolveSymlinks p w Hv Hp). fold r. rewrite Ee. cbn [andb].
    rewrite (St_bind_run _ _ w (Some fd) (w.1, (put_preopened r rest w.2.1, w.2.2))); [done|].
    destruct n as [|n]; [lia|]. cbn [take_preopened]. rewrite (St_bind_run get _ w w w eq_refl), El.
    assert (fd ≠ kPreopenPendingFd) as Hfd%Z.eqb_neq by (intros ->; apply (Hready eq_refl); by rewrite El).
    by rewrite Hfd.
Qed.
End OpenFacts.

(** ** Witness *)

Module OpenProperties.
Import SmallFs SmallFacts AccessProperties.
#[local] Existing Instance Reference.base_strings.
#[local] Existing Instance Reference.base_strings_spec.

Lemma small_fds_ok : fds_ok no_extra (λ _, true) small_sys.1.
Proof.
  destruct (table_ok_new 0 3 ltac:(lia)) as (t & Ht & _).
  destruct (reachable_ok 0 3 small_sys.1 ltac:(lia)) as [H1 H2]; [apply reach_new; vm_compute; reflexivity|].
  by split.
Qed.

Lemma open_gives_lowest_descriptor_witness :
  ∃ w', open handlers 5 (λ _, true) no_wait 1 (lit "../link/") O_RDONLY 0 small_sys = Done (Ok 0, w') ∧
    stream_at w'.1 0 ≠ None ∧ fds_ok no_extra (λ _, true) w'.1.
Proof.
  assert (∀ x : Z, x ∈ [] → 0 <= x → is_Some (stream_at small_sys.1 x)) as Hlive by (intros x Hx; by apply not_elem_of_nil in Hx).
  pose proof (open_gives_lowest_descriptor handlers 5 handlers_read no_extra (λ _, true) no_wait 1 (lit "../link/")
    O_RDONLY 0 small_sys small_vfs_ok ltac:(split; [discriminate|split; [decided|reflexivity]]) small_fds_ok
    ltac:(lia)) as Hopen.
  assert (preopened (meant handlers 5 world kResolveSymlinks (lit "../link/")) small_sys.2.1 = []) as Hnone
    by (vm_compute; reflexivity).
  assert (handler_of world (meant handlers 5 world kResolveSymlinks (lit "../link/")) = Some 0%nat) as Hh
    by (vm_compute; reflexivity).
  cbv zeta in Hopen. change small_sys.2.2 with world in Hopen. rewrite Hh, Hnone in Hopen.
  specialize (Hopen Hlive ltac:(discriminate)).
  change (IsEligibleForPreopen O_RDONLY) with true in Hopen. change (wants_write O_RDONLY) with false in Hopen.
  cbn [andb] in Hopen. destruct Hopen as (fd & Hfd & Hrun).
  destruct Hfd as [[_ Hall]|(Hin & _ & Hlow)].
  - destruct (Hall 0) as [v Hv]; [split; cbn; lia|discriminate Hv].
  - assert (fd = 0) as -> by (apply Z.le_antisymm; [apply Hlow; [split; cbn; lia|reflexivity]|apply Hin]).
    cbn [Z.eqb] in Hrun.
    assert (h_open (handlers 0%nat) 0 (meant handlers 5 world kResolveSymlinks (lit "../link/")) O_RDONLY 0 world.2 =
      Done (Ok (DirectoryFileStream (lit "redirect") (lit "/data/app")), world.2)) as Ho by (vm_compute; reflexivity).
    rewrite Ho in Hrun. destruct Hrun as (w' & Hrun & _ & [Hok (s & _ & Hs & _) _ _]).
    exists w'. split; [exact Hrun|]. split; [by rewrite Hs|exact Hok].
Defined.
End OpenProperties.
