(* ===== verification/VfsCurrentDirectory.v ===== *)
(** * VfsCurrentDirectory: [chdir] and [getcwd] of [virtual_file_system.cc]

    The current directory stays the path of a place that no link leads away from,
    which is what normalization needs of it. *)

From S2P Require Import Prelude BaseStrings PathUtil Util MountPoints.
From S2P Require Import FileSystemHandler VfsPaths VfsPathFacts VfsPathProperties VfsAccess.

#[local] Open Scope Z_scope.

(** ** Slashes at the end *)

(** The argument of [chdir] without the slashes at its end. *)
Definition stripped (p : str) : str := rev (drop_slashes (rev p)).

Lemma drop_slashes_spec r :
  ∃ n, r = replicate n slash ++ drop_slashes r ∧ head (drop_slashes r) ≠ Some slash.
Proof.
  induction r as [|x r IH]; [by exists 0%nat|]. cbn [drop_slashes]. case_decide as Hx.
  - destruct IH as (n & Hr & Hh). exists (S n). subst x. cbn. by rewrite <-Hr.
  - exists 0%nat. split; [done|]. cbn. congruence.
Qed.

Section Directory.
Context `{BaseStringsSpec}.

Lemma rev_slashes n : rev (replicate n slash) = replicate n slash.
Proof.
  induction n as [|n IH]; [done|]. cbn [replicate rev]. rewrite IH.
  change [slash] with (replicate 1 slash). by rewrite <-replicate_add, Nat.add_1_r.
Qed.

Lemma stripped_spec p : ∃ n, p = stripped p ++ replicate n slash ∧ EndsWithSlash (stripped p) = false.
Proof.
  destruct (drop_slashes_spec (rev p)) as (n & Hr & Hh). exists n. split.
  - apply (f_equal (@rev ascii)) in Hr. rewrite rev_involutive, rev_app_distr, rev_slashes in Hr. done.
  - apply not_true_iff_false. intros [t Ht]%ends_slash. unfold stripped in Ht.
    apply (f_equal (@rev ascii)) in Ht. rewrite rev_involutive, rev_app_distr in Ht. by rewrite Ht in Hh.
Qed.

Lemma remove_leading_more n r : r ≠ [] → remove_leading_slashes (replicate n slash ++ r) = remove_leading_slashes r.
Proof.
  intros Hr. induction n as [|n IH]; [done|]. cbn [replicate app remove_leading_slashes].
  destruct (replicate n slash ++ r) as [|x l] eqn:E; [by apply app_eq_nil in E as [_ ?]|].
  by rewrite decide_True.
Qed.

Lemma trailing_more q n : q ≠ [] → RemoveTrailingSlashes (q ++ replicate n slash) = RemoveTrailingSlashes q.
Proof.
  intros Hq. unfold RemoveTrailingSlashes. rewrite rev_app_distr, rev_slashes, remove_leading_more; [done|].
  intros E. apply (f_equal (@rev ascii)) in E. by rewrite rev_involutive in E.
Qed.
End Directory.

Lemma fill_has_fuel permission st : FillPermissionInfoToStat permission st ≠ NoFuel.
Proof.
  unfold FillPermissionInfoToStat, require, mbind, outcome_bind, mret, outcome_ret.
  by repeat (destruct (_ : bool)).
Qed.

Section Chdir.
Context `{BaseStringsSpec} {F : Type} (handlers : hid → FileSystemHandler F) (fuel : nat).
Context (Hreads : ∀ h, reads (handlers h)).
Implicit Types w : PathSys F.

Abbreviation vfs_ok := (vfs_ok handlers fuel).
Abbreviation meant := (meant handlers fuel).

Definition in_directory (d : str) w : PathSys F := (set_directory d w.1, w.2).

(** The path without the slashes at its end means the same. *)
Lemma stripped_means w p :
  path_ok w p → stripped p ≠ [] →
  path_ok w (stripped p) ∧ meant w kResolveSymlinks (stripped p) = meant w kResolveSymlinks p.
Proof.
  intros (Hne & Hc & Hd) Hs. destruct (stripped_spec p) as (n & Hp & _).
  set (q := stripped p) in *. clearbody q. subst p. split.
  - split; [done|]. split; [by apply clean_slashes in Hc|]. unfold dotted in *. by rewrite trailing_more in Hd.
  - unfold VfsAccess.meant. rewrite !effective_all. unfold route. rewrite components_slashes.
    assert (is_abs (q ++ replicate n slash) = is_abs q) as -> by (unfold is_abs; by destruct q).
    done.
Qed.

Lemma cwd_printed_route ds :
  place ds → nonempty (split_on slash (print_path true ds ++ [slash])) = components (print_path true ds).
Proof.
  intros Hds. change [slash] with (replicate 1 slash). rewrite split_slashes, nonempty_app, nonempty_replicate, app_nil_r.
  rewrite components_print by apply Hds. destruct (decide (ds = [])) as [->|Hne]; [done|].
  rewrite split_print by (done || apply Hds). cbn. by rewrite nonempty_proper by apply Hds.
Qed.

Lemma cwd_printed w ds : place ds → cwd_ok (in_directory (print_path true ds ++ [slash]) w).
Proof.
  intros Hds. split; cbn.
  - apply ends_slash. by eexists.
  - apply (clean_slashes (print_path true ds) 1). by apply printed_clean.
  - rewrite cwd_printed_route by done. by rewrite components_print by apply Hds.
Qed.

Lemma vfs_ok_directory w d : vfs_ok w → cwd_ok (in_directory d w) → vfs_ok (in_directory d w).
Proof.
  intros [[Ht Hf Hch] _ [Hth Hi Ho]] Hcwd. split; [|done|].
  - split; [exact Ht|done|exact Hch].
  - split; [exact Hth|exact Hi|exact Ho].
Qed.

(** The stat of a path that is normalized. *)
Lemma stat_meant w p :
  vfs_ok w → path_ok w p →
  StatLocked handlers fuel (meant w kResolveSymlinks p) w =
  match stat_answer handlers w (meant w kResolveSymlinks p) with
  | Done r => Done (r, w) | Abort => Abort | NoFuel => NoFuel
  end.
Proof.
  intros Hw Hp. destruct (meant_place handlers fuel Hreads kResolveSymlinks p w Hw Hp) as (ds & Hm & Hds & Hu).
  specialize (Hu (effective_all p)). rewrite Hm.
  assert (path_ok w (print_path true ds)) as Hpp.
  { split; [apply print_path_nonempty, Hds|]. split; [by apply printed_clean|by apply printed_dotted]. }
  rewrite (stat_locked_run handlers fuel Hreads) by done.
  assert (meant w kResolveSymlinks (print_path true ds) = print_path true ds) as ->; [|done].
  unfold VfsAccess.meant. by rewrite printed_route, walk_unlinked.
Qed.

(** What [chdir] finds at its argument: a directory, or errno. *)
Definition entered w (p : str) : outcome (res unit) :=
  if bool_decide (stripped p = []) then Done (Ok tt)
  else
    st ← stat_answer handlers w (meant w kResolveSymlinks p);
    mret match st with
         | Err e => Err e
         | Ok st => if S_ISDIR (st_mode st) then Ok tt else Err ENOTDIR
         end.

Lemma chdir_run p w :
  vfs_ok w → path_ok w p →
  chdir handlers fuel p w =
  match entered w p with
  | Done (Ok _) => Done (Ok 0, in_directory ((if bool_decide (stripped p = []) then [] else meant w kResolveSymlinks p) ++ [slash]) w)
  | Done (Err e) => Done (Err e, w)
  | Abort => Abort
  | NoFuel => NoFuel
  end.
Proof.
  intros Hw Hp. unfold chdir. rewrite bool_decide_false by apply Hp. cbv zeta. fold (stripped p). unfold entered.
  destruct (decide (stripped p = [])) as [Hs|Hs].
  - rewrite !Hs. rewrite bool_decide_false, bool_decide_true by tauto.
    rewrite (St_bind_run (mret []) _ w [] w eq_refl). done.
  - destruct (stripped_means w p Hp Hs) as [Hps Hms].
    rewrite (bool_decide_true (stripped p ≠ [])), (bool_decide_false (stripped p = [])) by done.
    run_with (meant_run handlers fuel Hreads kResolveSymlinks (stripped p) w Hw Hps). rewrite Hms.
    rewrite bool_decide_true.
    2: { destruct (meant_place handlers fuel Hreads kResolveSymlinks p w Hw Hp) as (ds & -> & Hds & _).
         apply print_path_nonempty, Hds. }
    unfold mbind, St_bind, outcome_bind. rewrite (stat_meant w p Hw Hp).
    destruct (stat_answer handlers w _) as [[e|st]| |]; try done. cbn. by destruct (S_ISDIR _).
Qed.

Lemma cwd_root w : cwd_ok (in_directory [slash] w).
Proof. split; cbn; [apply ends_slash_root|by repeat constructor|apply place_nil]. Qed.

(** The current directory that stands for [r]. *)
Definition stands_for (d r : str) : Prop := (d = r ++ [slash] ∧ r ≠ []) ∨ (d = [slash] ∧ r = [slash]).

Lemma getcwd_run d r w size :
  stands_for d r → 0 <= size →
  getcwd true size (in_directory d w) =
    Done (if size =? 0 then Err EINVAL
          else if size <=? Z.of_nat (List.length r) then Err ERANGE else Ok r, in_directory d w).
Proof.
  intros Hd Hsize. unfold getcwd. rewrite (St_bind_run get _ _ _ _ eq_refl). cbv zeta.
  cbn [in_directory fst set_directory current_directory].
  assert (EndsWithSlash d = true) as Hs by (destruct Hd as [[-> _]|[-> _]]; [apply ends_slash; by eexists|apply ends_slash_root]).
  rewrite (St_bind_run (check _) _ _ tt (in_directory d w)) by (unfold check; by rewrite Hs).
  assert ((if Nat.ltb 1 (List.length d) then Nat.sub (List.length d) 1 else List.length d) = List.length r ∧
          take (List.length r) d = r) as [-> Ht].
  { destruct Hd as [[-> Hr]|[-> ->]]; [|done]. rewrite take_app_length, length_app. cbn.
    destruct r as [|x r]; [done|]. cbn. split; [|done]. rewrite Nat.add_1_r. cbn. lia. }
  rewrite Ht. cbn [andb orb]. destruct (size =? 0); [done|]. rewrite andb_true_r. by destruct (size <=? _).
Qed.

(** C11.  The current directory.  From another thread than the main one, with handlers
    and links as in C6, and for a path that C5 normalizes ([chdir("./a")] aborts, as C5
    says): [chdir] of a path to a directory makes the
    normalized path the current directory; [getcwd] then gives exactly that path in
    a buffer that is larger than it (ERANGE and EINVAL otherwise), relative paths are
    walked from its components, and everything that normalization needs of the state
    still holds, so that the calls can go on.  When the path is not there or is no
    directory, errno says so and nothing changes. *)
Theorem chdir_then_getcwd p w :
  vfs_ok w → path_ok w p →
  match entered w p with
  | Done (Ok _) =>
      ∃ w', chdir handlers fuel p w = Done (Ok 0, w') ∧ vfs_ok w' ∧ w'.2 = w.2 ∧
        let r := meant w kResolveSymlinks p in
        (∀ size, 0 <= size →
           getcwd true size w' = Done (if size =? 0 then Err EINVAL
                                       else if size <=? Z.of_nat (List.length r) then Err ERANGE else Ok r, w')) ∧
        (∀ q, is_abs q = false → route w' q = components r ++ components q)
  | Done (Err e) => chdir handlers fuel p w = Done (Err e, w)
  | Abort => chdir handlers fuel p w = Abort
  | NoFuel => False
  end.
Proof.
  intros Hw Hp. rewrite (chdir_run p w Hw Hp).
  destruct (entered w p) as [[e|[]]| |] eqn:Ee; try done.
  - destruct (meant_place handlers fuel Hreads kResolveSymlinks p w Hw Hp) as (ds & Hm & Hds & _).
    set (d := (if bool_decide (stripped p = []) then [] else meant w kResolveSymlinks p) ++ [slash]).
    assert (stands_for d (meant w kResolveSymlinks p) ∧ cwd_ok (in_directory d w) ∧
            nonempty (split_on slash d) = components (meant w kResolveSymlinks p)) as (Hd & Hcwd & Hroute).
    { unfold d. case_bool_decide as Hs.
      - assert (meant w kResolveSymlinks p = [slash]) as ->.
        { destruct (stripped_spec p) as (n & Hpn & _). rewrite Hs in Hpn. cbn in Hpn.
          unfold VfsAccess.meant, route. destruct Hp as (Hne & _). rewrite Hpn.
          destruct n as [|n]; [by subst p|]. change (replicate (S n) slash) with ([] ++ replicate (S n) slash).
          rewrite components_slashes. done. }
        split; [by right|]. split; [apply cwd_root|done].
      - rewrite Hm. split; [left; split; [done|apply print_path_nonempty, Hds]|].
        split; [by apply cwd_printed|]. apply cwd_printed_route, Hds. }
    exists (in_directory d w). split; [done|]. split; [by apply vfs_ok_directory|]. split; [done|].
    split; [intros size; by apply getcwd_run|]. intros q Hq. unfold route. rewrite Hq.
    change (current_directory (in_directory d w).1) with d. by rewrite Hroute.
  - exfalso. unfold entered in Ee. destruct (bool_decide _); [done|]. unfold mbind, outcome_bind in Ee.
    destruct (stat_answer _ _ _) eqn:Es; try done. unfold stat_answer in Es.
    destruct (handler_of _ _); [|done]. destruct (stat_of _ _ _ _); [done|].
    unfold mbind, outcome_bind in Es. destruct (FillPermissionInfoToStat _ _) eqn:Ef; try done.
    by apply fill_has_fuel in Ef.
Qed.
End Chdir.

(** ** Witness *)

Module DirectoryProperties.
Import SmallFs SmallFacts AccessProperties.
#[local] Existing Instance Reference.base_strings.
#[local] Existing Instance Reference.base_strings_spec.

Lemma chdir_then_getcwd_witness :
  ∃ w', chdir handlers 5 (lit "../link//") world = Done (Ok 0, w') ∧
    getcwd true 10 w' = Done (Ok (lit "/data/app"), w') ∧
    getcwd true 9 w' = Done (Err ERANGE, w') ∧
    route w' (lit "x") = [lit "data"; lit "app"; lit "x"].
Proof.
  pose proof (chdir_then_getcwd handlers 5 handlers_read (lit "../link//") world small_vfs_ok
    ltac:(split; [discriminate|split; [decided|reflexivity]])) as Hchdir.
  assert (entered handlers 5 world (lit "../link//") = Done (Ok tt)) as He by (vm_compute; reflexivity).
  rewrite He in Hchdir. destruct Hchdir as (w' & Hrun & _ & _ & Hcwd & Hroute).
  exists w'. split; [exact Hrun|]. split; [|split].
  - rewrite (Hcwd 10) by lia. vm_compute. reflexivity.
  - rewrite (Hcwd 9) by lia. vm_compute. reflexivity.
  - rewrite Hroute by reflexivity. vm_compute. reflexivity.
Defined.
End DirectoryProperties.
