(* ===== verification/VfsInodes.v ===== *)
(** * VfsInodes: the inode numbers of [virtual_file_system.cc]

    [inodes_] and [next_inode_] give every path that is asked about a number.  The
    file handlers ask ([GetInodeLocked]), drop a number when a file is removed
    ([RemoveInodeLocked]) and hand it on in a rename ([ReassignInodeLocked]).
    [MemoryRegion::IsWriteMapped] needs that a number is never given twice. *)

From S2P Require Import Prelude BaseStrings PathUtil MountPoints.
From S2P Require Import FileSystemHandler VfsPaths VfsPathFacts VfsPathProperties VfsAccess.

#[local] Open Scope Z_scope.

(** What the handlers do with numbers. *)
Inductive inode_op : Type :=
| AskInode (path : str)
| DropInode (path : str)
| MoveInode (oldpath newpath : str).

Section Inodes.
Context `{BaseStringsSpec} {F : Type} (handlers : hid → FileSystemHandler F) (fuel : nat).
Context (Hreads : ∀ h, reads (handlers h)).
Implicit Types w : PathSys F.

Definition run_inode_op (o : inode_op) : St (PathSys F) (option Z) :=
  match o with
  | AskInode path => i ← GetInodeLocked handlers fuel path; mret (Some i)
  | DropInode path => RemoveInodeLocked handlers fuel path;; mret None
  | MoveInode oldpath newpath => ReassignInodeLocked handlers fuel oldpath newpath;; mret None
  end.

(** A path that the assertions let pass. *)
Definition normal w (p : str) : Prop := ∃ ds, p = print_path true ds ∧ place ds ∧ unlinked handlers w ds.

Definition inode_op_ok w (o : inode_op) : Prop :=
  match o with
  | AskInode p | DropInode p => normal w p
  | MoveInode p q => normal w p ∧ normal w q ∧ p ≠ q
  end.

(** The numbers that have been given, in order, on the way from [w0] to [w]. *)
Inductive given_by w0 : list Z → PathSys F → Prop :=
| given_start : given_by w0 [] w0
| given_step gs w o r w' :
    given_by w0 gs w → inode_op_ok w o → run_inode_op o w = Done (r, w') →
    given_by w0 (gs ++ option_list r) w'.

Definition number w (p : str) : option Z := inodes_ w.1 !! p.

(** Two paths have different numbers, and all numbers are below the next one. *)
Record numbers_ok (gs : list Z) w : Prop := {
  nu_given : ∀ p i, number w p = Some i → i ∈ gs;
  nu_range : ∀ i, i ∈ gs → kFirstInode <= i < next_inode_ w.1;
  nu_first : kFirstInode <= next_inode_ w.1;
  nu_inj : ∀ p q i, number w p = Some i → number w q = Some i → p = q;
}.

Definition with_inodes (m : gmap str Z) (n : Z) w : PathSys F := (set_inodes m n w.1, w.2).

Lemma vfs_ok_inodes m n w : vfs_ok handlers fuel w → vfs_ok handlers fuel (with_inodes m n w).
Proof.
  intros [[Ht Hf Hch] [? ? ?] [Hth Hi Ho]]. split; [|done|].
  - split; [exact Ht|done|exact Hch].
  - split; [exact Hth|exact Hi|exact Ho].
Qed.

Lemma assert_normal w p : vfs_ok handlers fuel w → normal w p → assert_normalized handlers fuel p w = Done (tt, w).
Proof.
  intros [Hl Hc _] (ds & -> & Hds & Hu). unfold assert_normalized.
  by run_with (normalized_holds handlers fuel Hreads w ds Hl Hc Hds Hu).
Qed.

Lemma normal_nonempty w p : normal w p → p ≠ [].
Proof. intros (ds & -> & (Hp & _) & _). by apply print_path_nonempty. Qed.

(** Each operation on the map. *)
Lemma ask_run w p :
  vfs_ok handlers fuel w → normal w p →
  run_inode_op (AskInode p) w =
  match number w p with
  | Some i => Done (Some i, w)
  | None => Done (Some (next_inode_ w.1), with_inodes (<[p := next_inode_ w.1]> (inodes_ w.1)) (next_inode_ w.1 + 1) w)
  end.
Proof.
  intros Hw Hp. pose proof (normal_nonempty w p Hp) as Hne. cbn [run_inode_op].
  unfold GetInodeLocked, GetInodeUncheckedLocked, mbind, St_bind, check, number.
  rewrite bool_decide_true, (assert_normal w p Hw Hp) by done. cbn [get].
  by destruct (inodes_ w.1 !! p).
Qed.

Lemma drop_run w p :
  vfs_ok handlers fuel w → normal w p →
  run_inode_op (DropInode p) w = Done (None, with_inodes (delete p (inodes_ w.1)) (next_inode_ w.1) w).
Proof.
  intros Hw Hp. cbn [run_inode_op]. unfold RemoveInodeLocked, mbind, St_bind.
  by rewrite (assert_normal w p Hw Hp).
Qed.

Lemma move_run w p q :
  vfs_ok handlers fuel w → normal w p → normal w q →
  run_inode_op (MoveInode p q) w =
  Done (None, with_inodes (match number w p with
                           | None => delete q (inodes_ w.1)
                           | Some i => delete p (<[q := i]> (inodes_ w.1))
                           end) (next_inode_ w.1) w).
Proof.
  intros Hw Hp Hq. cbn [run_inode_op]. unfold ReassignInodeLocked, mbind, St_bind, number.
  rewrite (assert_normal w p Hw Hp), (assert_normal w q Hw Hq). cbn [get].
  by destruct (inodes_ w.1 !! p).
Qed.

(** What a step promises about numbers. *)
Definition inode_step (gs : list Z) w (o : inode_op) (r : option Z) w' : Prop :=
  match o with
  | AskInode p =>
      ∃ i, r = Some i ∧ number w' p = Some i ∧ (∀ q, q ≠ p → number w' q = number w q) ∧
        (number w p = Some i ∨ number w p = None ∧ i ∉ gs)
  | DropInode p => r = None ∧ number w' p = None ∧ ∀ q, q ≠ p → number w' q = number w q
  | MoveInode p q =>
      r = None ∧ number w' q = number w p ∧ number w' p = None ∧
        ∀ x, x ≠ p → x ≠ q → number w' x = number w x
  end.

Lemma inode_op_step gs w o :
  vfs_ok handlers fuel w → numbers_ok gs w → inode_op_ok w o →
  ∃ r w', run_inode_op o w = Done (r, w') ∧ vfs_ok handlers fuel w' ∧ w'.2 = w.2 ∧
    numbers_ok (gs ++ option_list r) w' ∧ inode_step gs w o r w'.
Proof.
  intros Hw [Hg Hr Hf Hi] Ho. destruct o as [p|p|p q]; cbn [inode_op_ok] in Ho.
  - rewrite ask_run by done. destruct (number w p) as [i|] eqn:Ep.
    + exists (Some i), w. split; [done|]. split; [done|]. split; [done|]. split.
      * split; [| | |done]; cbn; [| |done].
        -- intros q j Hq. apply elem_of_app. left. by eapply Hg.
        -- intros j [Hj| ->%list_elem_of_singleton]%elem_of_app; [by apply Hr|]. apply Hr. by eapply Hg.
      * exists i. split; [done|]. split; [done|]. split; [done|by left].
    + set (n := next_inode_ w.1) in *.
      assert (n ∉ gs) as Hn by (intros Hn%Hr; lia).
      eexists _, _. split; [reflexivity|]. split; [by apply vfs_ok_inodes|]. split; [done|]. split.
      * split; cbn.
        -- intros q j. unfold number. cbn. intros [[_ <-]|[_ Hq]]%lookup_insert_Some; apply elem_of_app; [right; by left|left; by eapply Hg].
        -- intros j [Hj| ->%list_elem_of_singleton]%elem_of_app; [apply Hr in Hj; lia|lia].
        -- lia.
        -- intros q x j. unfold number. cbn. intros [[<- <-]|[Hne Hq]]%lookup_insert_Some [[<- Hj]|[Hne' Hx]]%lookup_insert_Some; try done.
           ++ by apply Hg in Hx.
           ++ subst j. by apply Hg in Hq.
           ++ by eapply Hi.
      * exists n. split; [done|]. unfold number. cbn. split; [by rewrite lookup_insert_eq|].
        split; [intros q Hq; by rewrite lookup_insert_ne|by right].
  - rewrite drop_run by done. eexists _, _. split; [reflexivity|]. split; [by apply vfs_ok_inodes|]. split; [done|].
    cbn [option_list]. rewrite app_nil_r. split.
    + split; cbn; [|done|done|].
      * intros q j. unfold number. cbn. intros [_ Hq]%lookup_delete_Some. by eapply Hg.
      * intros q x j. unfold number. cbn. intros [_ Hq]%lookup_delete_Some [_ Hx]%lookup_delete_Some. by eapply Hi.
    + split; [done|]. unfold number. cbn. split; [by rewrite lookup_delete_eq|].
      intros q Hq. by rewrite lookup_delete_ne.
  - destruct Ho as (Hp & Hq & Hne). rewrite move_run by done. eexists _, _. split; [reflexivity|].
    split; [by apply vfs_ok_inodes|]. split; [done|]. cbn [option_list]. rewrite app_nil_r.
    unfold number in *. split.
    + split; cbn; [|done|done|]; unfold number; cbn.
      * intros x j. destruct (inodes_ w.1 !! p) as [i|] eqn:Ep.
        -- intros [_ [[_ <-]|[_ Hx]]%lookup_insert_Some]%lookup_delete_Some; by eapply Hg.
        -- intros [_ Hx]%lookup_delete_Some. by eapply Hg.
      * intros x y j. destruct (inodes_ w.1 !! p) as [i|] eqn:Ep.
        -- intros [Hx1 [[<- <-]|[Hx2 Hx]]%lookup_insert_Some]%lookup_delete_Some
             [Hy1 [[<- Hj]|[Hy2 Hy]]%lookup_insert_Some]%lookup_delete_Some; try done.
           ++ by destruct (Hi p y i Ep Hy).
           ++ subst j. by destruct (Hi p x i Ep Hx).
           ++ by eapply Hi.
        -- intros [_ Hx]%lookup_delete_Some [_ Hy]%lookup_delete_Some. by eapply Hi.
    + split; [done|]. unfold number. cbn. destruct (inodes_ w.1 !! p) as [i|] eqn:Ep.
      * rewrite lookup_delete_ne, lookup_insert_eq by done. split; [done|]. rewrite lookup_delete_eq. split; [done|].
        intros x Hxp Hxq. by rewrite lookup_delete_ne, lookup_insert_ne by done.
      * rewrite lookup_delete_eq. split; [done|]. rewrite lookup_delete_ne by done. split; [done|].
        intros x _ Hxq. by rewrite lookup_delete_ne.
Qed.

Lemma history_ok w0 gs w :
  vfs_ok handlers fuel w0 → inodes_ w0.1 = ∅ → next_inode_ w0.1 = kFirstInode →
  given_by w0 gs w → vfs_ok handlers fuel w ∧ w.2 = w0.2 ∧ numbers_ok gs w.
Proof.
  intros Hw0 He Hn. induction 1 as [|gs w o r w' _ (Hw & H2 & Hok) Ho Hrun].
  - split; [done|]. split; [done|]. split; [| |by rewrite Hn|]; unfold number; rewrite ?He.
    + intros p i Hp. by rewrite lookup_empty in Hp.
    + intros i Hi. by apply not_elem_of_nil in Hi.
    + intros p q i Hp. by rewrite lookup_empty in Hp.
  - destruct (inode_op_step gs w o Hw Hok Ho) as (r1 & w1 & Hrun1 & Hw1 & H21 & Hok1 & _).
    rewrite Hrun in Hrun1. injection Hrun1 as <- <-. split; [done|]. split; [congruence|done].
Qed.

(** C10.  Inode numbers.  After any sequence of askings, removals and renames on
    normalized paths, starting with no numbers given, the next such operation trips
    no assertion and keeps to this: asking answers the number that the path has, and
    otherwise one that was never given before, not even to a path that was removed
    since; removal leaves the path without a number; a rename gives the new path the
    old one's number (none if it has none) and the old path none; no other path is
    touched; and never do two paths have the same number. *)
Theorem inode_numbers_are_not_reused w0 gs w o :
  vfs_ok handlers fuel w0 → inodes_ w0.1 = ∅ → next_inode_ w0.1 = kFirstInode →
  given_by w0 gs w → inode_op_ok w o →
  (∀ p q i, number w p = Some i → number w q = Some i → p = q) ∧
  ∃ r w', run_inode_op o w = Done (r, w') ∧ inode_step gs w o r w' ∧
    ∀ p q i, number w' p = Some i → number w' q = Some i → p = q.
Proof.
  intros Hw0 He Hn Hh Ho. destruct (history_ok w0 gs w Hw0 He Hn Hh) as (Hw & _ & Hok).
  split; [apply Hok|]. destruct (inode_op_step gs w o Hw Hok Ho) as (r & w' & Hrun & _ & _ & Hok' & Hs).
  exists r, w'. split; [done|]. split; [done|]. apply Hok'.
Qed.
End Inodes.

(** ** Witness *)

Module InodeProperties.
Import SmallFs SmallFacts AccessProperties.
#[local] Existing Instance Reference.base_strings.
#[local] Existing Instance Reference.base_strings_spec.

Definition asked (path : str) (i : Z) (w : PathSys (tree * Redirect.RedirectHandler)) :
    PathSys (tree * Redirect.RedirectHandler) :=
  with_inodes (<[path := i]> (inodes_ w.1)) (i + 1) w.

Lemma small_normal m n p ds :
  p = print_path true ds → place ds → lit "link" ∉ ds → normal handlers (with_inodes m n world) p.
Proof.
  intros -> Hds Hl. exists ds. split; [done|]. split; [done|]. intros es [k ->] Hne.
  destruct (link handlers (with_inodes m n world) (print_path true es)) as [t|] eqn:El; [|done].
  assert (print_path true es = lit "/link") as Hes by exact (proj1 (small_link _ _ El)).
  apply (f_equal components) in Hes. rewrite components_print in Hes.
  - cbn in Hes. subst es. exfalso. apply Hl. apply elem_of_app. left. by left.
  - apply place_app in Hds as [[Hp _] _]. exact Hp.
Qed.

Lemma inode_numbers_are_not_reused_witness :
  ∃ r w', run_inode_op handlers 5 (AskInode (lit "/b")) (with_inodes ∅ 129 world) = Done (r, w') ∧
    ∃ i, r = Some i ∧ i ≠ 128.
Proof.
  assert (given_by handlers 5 world ([128] ++ []) (with_inodes ∅ 129 world)) as Hh.
  { eapply (given_step _ _ _ [128] (asked (lit "/a") 128 world) (DropInode (lit "/a")) None).
    - eapply (given_step _ _ _ [] world (AskInode (lit "/a")) (Some 128)).
      + apply given_start.
      + apply (small_normal ∅ 128 _ [lit "a"]); [reflexivity|split; [decided|split; decided]|decided].
      + vm_compute. reflexivity.
    - apply (small_normal _ _ _ [lit "a"]); [reflexivity|split; [decided|split; decided]|decided].
    - vm_compute. reflexivity. }
  destruct (inode_numbers_are_not_reused handlers 5 handlers_read world [128] (with_inodes ∅ 129 world)
    (AskInode (lit "/b")) small_vfs_ok eq_refl eq_refl Hh) as (_ & r & w' & Hrun & Hs & _).
  { apply (small_normal _ _ _ [lit "b"]); [reflexivity|split; [decided|split; decided]|decided]. }
  exists r, w'. split; [exact Hrun|]. destruct Hs as (i & -> & _ & _ & [Hi|[_ Hi]]).
  - discriminate Hi.
  - exists i. split; [reflexivity|]. intros ->. apply Hi. left.
Defined.
End InodeProperties.
